(* ===== verification/_CoqProject ===== *)
-Q . S2P
Prelude.v
Text.v
Replay.v
ConnPool.v
ConnTargets.v
PromotionGuard.v
ReplicaReads.v
PersistPlan.v
Transfer.v
ReadPlan.v
CopyPlan.v
Crc32.v
CopyBinary.v
Errno.v
Locks.v
LockStore.v
LockHandlers.v
Acl.v
BlockStore.v
StoreSafety.v
WriteOwnership.v
OwnershipHandles.v
Namespace.v
NamespaceOps.v
NamespaceTree.v
NamespaceSafety.v
NamespaceRefine.v
NamespaceHistory.v
NamespaceLookup.v
NamespaceRaces.v
InodePaths.v
FuseNamespace.v
ReadCache.v
FileRead.v
WriteBuffer.v
FileWrite.v
StoreRepo.v
StoreHoles.v
FileHoles.v
FileCopy.v
CopySafety.v
Seconds.v
RuntimeValues.v
RuntimeConfig.v
ConfigSafety.v
ConfigReload.v
