(* ===== verification/Prelude.v ===== *)
(** * FOD: a PostgreSQL-backed filesystem, verified in Rocq

    FOD is a FUSE filesystem whose files live in PostgreSQL. A kernel request
    reaches a handler of src/rust_fuse/src/fs.rs. A [write] changes the handle's
    buffer of dirty blocks (src/rust_fuse/src/write_buffer.rs); a flush plans which
    blocks to store (src/rust_hotpath/src/persist_plan.rs) and persists them in one
    transaction (src/rust_hotpath/src/pg.rs), which checks the write fence of the
    handle, chooses or copies the data object of the file, moves the rows by COPY or
    INSERT and enforces the quota. A [read] is answered from the handle's buffer or
    from the block caches (src/rust_fuse/src/read_cache.rs) and the store. The names
    are rows as well: a create, link, unlink or rename resolves inode numbers through
    the path tables of the mount and runs one transaction on the tables of
    directories, files, hard links and symlinks. Several mounts share one database:
    write leases with fencing tokens decide who may persist a file, lock leases carry
    the POSIX record locks.

    ** The files

    - Prelude.v: integers at their width, the results of calls, list lemmas, tactics.
    - Text.v: the text functions of the Rust standard library that are used.
    - Replay.v: transactions, their one repetition after a lost connection, and the
      classification of statements (pg.rs: [transactional_impl], [with_connection],
      [with_transaction], [sql_is_replayable_command]). The state is a parameter.
    - ConnPool.v: the admission gate and the connection pool of pg.rs, as steps of
      concurrent threads.
    - ConnTargets.v, PromotionGuard.v, ReplicaReads.v: the servers a connection may go
      to, the guard that keeps operations on one primary while threads, failures and
      promotions interleave ([World]), and the reads that replicas may answer (pg.rs:
      [DbRepoConnectionTargets], [connect_new], [ReplicaReadConsistency],
      [with_read_connection]).
    - PersistPlan.v, Transfer.v, ReadPlan.v, CopyPlan.v, Crc32.v: the pure planning
      and checksum code (persist_plan.rs, transfer_plan.rs and lib.rs of rust_hotpath,
      copy_plan.rs of rust_fuse).
    - CopyBinary.v: the encoder of the COPY stream (pg.rs).
    - Errno.v: the mapping of messages to errno values (errno.rs).
    - Locks.v, LockStore.v, LockHandlers.v: the record-lock algebra, the lease and
      wait-edge tables, and the handlers [getlk], [setlk], [interrupt], [flush]
      (fs.rs and pg.rs). The tables are lists of rows in [LockDb], the state of a
      mount is [LockMount].
    - Acl.v: access control lists (fs.rs, pg/metadata_updates.rs, pg/xattrs.rs).
    - BlockStore.v, StoreSafety.v: the tables of files, data objects, blocks,
      checksums, leases and reservations as finite maps in [Db], the transactions of
      pg.rs on them as functions in [Tx], and the theorems on whole transactions.
    - WriteOwnership.v, OwnershipHandles.v: the write leases on names and files in
      [OwnDb] (which contains [Db]), and the handle table of a mount [OwnMount] that
      shares, heartbeats and releases them (pg.rs and fs.rs).
    - Namespace.v, NamespaceOps.v: the tables of names in [NsDb] (which contains
      [Db]), their constraints, the permission checks and path queries, and the
      namespace transactions of pg.rs in the monad [Nx].
    - NamespaceTree.v: the entries of the tables as a map from names to inodes, and
      the invariant [ns_wf] (one entry per name, no dangling row, a tree).
    - NamespaceSafety.v, NamespaceRefine.v: every transaction keeps the invariant and
      does to the map what its reply says.
    - NamespaceHistory.v, NamespaceLookup.v, NamespaceRaces.v: histories of
      operations from the rows of base_schema.sql, path lookups and listings, and two
      runs of overlapping or special renames.
    - InodePaths.v: names, inode and device numbers and the path tables of a mount in
      [PathTables] (fs.rs).
    - FuseNamespace.v: the handlers [lookup], [mkdir], [mknod], [symlink], [link],
      [unlink], [rmdir] and [rename] on [FuseState], the path tables with the
      database.
    - ReadCache.v, FileRead.v: the caches and the [read] handler.
    - WriteBuffer.v, FileWrite.v, StoreRepo.v: the write buffer, the handlers that
      change content, and the proof that the block store implements the interface
      [BlockRepo] the buffer is verified against.
    - StoreHoles.v, FileHoles.v: the transaction that punches a hole (pg.rs) and the
      handlers [lseek] and [fallocate] (fs.rs) over the interface [HoleRepo].
    - FileCopy.v, CopySafety.v: the handler [copy_file_range] (fs.rs) with the quota
      reservations of pg.rs over the interface [CopyRepo], and its correctness.
    - Seconds.v, RuntimeValues.v: the decimal durations and the value parsers of
      src/rust_runtime. A duration in seconds is the nearest double, computed on exact
      integers.
    - RuntimeConfig.v, ConfigSafety.v, ConfigReload.v: the settings of a mount
      (rust_runtime/src/lib.rs and validation.rs) as records: loading from a map of
      variables, the rules, the variables written for the mount process, overrides and
      reloading.

    ** What the theorems show

    - Content: a persist request stores exactly the requested bytes and changes no
      other file; writes, truncates, flushes and reads through buffers, caches and
      store give the bytes a plain byte array would give; the planners, the COPY
      stream and the checksum meet their specifications; reachable stores are well
      formed and stay within the quota. A punched hole reads as zeroes for every handle,
      a seek finds data and holes, and copy_file_range copies on each of its ways.
    - Names: the map from names to inodes is what the POSIX calls would make of it,
      for every transaction and for the handlers with their error paths; a file keeps
      its content while it has a name or an open handle; directories form a tree;
      lookups and listings read that map.
    - Fencing: a commit implies a live lease; once another owner was granted a file,
      the former writer never commits again; when a request for a lease is granted,
      refused or fails; the writers of a mount share one lease; the last close lets
      another mount in at once.
    - Locks: a lock request follows the POSIX rules; with heartbeats in time the live
      leases of different owners are compatible in every history; deadlocks are
      reported exactly; a blocked request is granted after the expiry of the others.
    - Caches: late fills never publish stale blocks; hits are current.
    - Replay: a transaction with a probe takes effect exactly once, one of
      [with_transaction] at most once; the connection loop ends. The admission gate
      is fair and bounded; the pool keeps its limit and loses no wake-up.
    - Servers: all operations in flight are on one validated primary of one cluster,
      and a change of the primary never blocks for good; a replica is chosen near the
      best score and answers a read only when it has replayed the writes before it.
    - Access control lists agree with the POSIX check.
    - Configuration: accepted settings take effect as given, the mount process reads
      back what its parent wrote for it, an invalid setting is reported under its name,
      and a reload changes the reloadable settings only.
    - Defects: theorems that evaluate a run in which the code does not do what it is
      meant to (a truncate by path undone by a later flush, a late lock heartbeat, a
      close that drops the locks on other files, an open during a release that is
      fenced out, a callback that is repeated, two directory renames that make a
      cycle, a directory rename that strands the known children, and others) say so in
      their comment.

    ** Conventions, bounds and fuel

    A [u64] or [usize] is a [Z] with a range predicate; saturating, checked and
    wrapping operators are separate definitions, and plain operators wrap as in a
    release build. Calls return [Ok], [Err] or [Panic]. SQL statements are the map or
    list updates they denote; a transaction that fails leaves the rows alone.
    [NOW()] is one time per transaction, [clock_timestamp()] one per statement
    ([clk k]). Loops with fuel: the parser of the COPY format and the loop of
    CopyPlan.v run within the length of their input, the LRU eviction within the
    number of entries, the deadlock query within the number of waiting processes, the
    query for the subtree of a directory within the number of directories;
    that this is enough is part of the theorems. Decimal numbers have fuel 40, more
    than the 20 digits of a [u64]. The lock polling and connection loops follow a
    list of environment events, and theorems say how many are enough for a result.

    ** Not modelled

    The PostgreSQL server, libpq, the kernel and the FUSE library (src/vendor) are
    outside: what is relied on is in the environments and in the SQL semantics above.
    Not modelled yet are [create_writable_file_with_destination_ownership], the flock
    leases of pg.rs, which no handler calls, the endpoint lists of
    src/rust_runtime/src/ini_config, src/rust_fuse/src/pg_lanes.rs and the pure parts of
    src/rust_indexer. The time stamps of the rows, the link counts of the attributes and
    the journal are left out of the namespace. The C interface (ffi.rs), the monitor,
    mkfs, libfod, the input and output of the indexer, logging and profiling do not
    change the state
    that is modelled here. Poisoned mutexes are left out. *)

From stdpp Require Import prelude list numbers gmap sorting.
From Stdlib Require Import ZArith Lia.

#[local] Open Scope Z_scope.

(** ** Machine integers

    [u64] (and, on the 64-bit targets FOD supports, [usize]) values are kept in
    [Z] together with the range predicate [is_u64]; each arithmetic operator of
    the source has its own definition. *)

Definition U64_MAX : Z := 2 ^ 64 - 1.
Definition I64_MAX : Z := 2 ^ 63 - 1.

Definition is_u64 (x : Z) : Prop := 0 <= x <= U64_MAX.

(** [u64::saturating_add], [saturating_sub], [saturating_mul]. *)
Definition sat_add (a b : Z) : Z := Z.min (a + b) U64_MAX.
Definition sat_sub (a b : Z) : Z := Z.max (a - b) 0.
Definition sat_mul (a b : Z) : Z := Z.min (a * b) U64_MAX.

(** [u64::checked_add], [checked_sub], [checked_mul]. *)
Definition checked_add (a b : Z) : option Z :=
  if a + b <=? U64_MAX then Some (a + b) else None.
Definition checked_sub (a b : Z) : option Z :=
  if b <=? a then Some (a - b) else None.
Definition checked_mul (a b : Z) : option Z :=
  if a * b <=? U64_MAX then Some (a * b) else None.

(** The plain operators of a release build ([+], [-], [*] and [wrapping_*]). *)
Definition wrap64 (x : Z) : Z := x mod 2 ^ 64.
Definition wrap_add (a b : Z) : Z := wrap64 (a + b).
Definition wrap_sub (a b : Z) : Z := wrap64 (a - b).
Definition wrap_mul (a b : Z) : Z := wrap64 (a * b).

(** [u64::div_ceil]. *)
Definition div_ceil (a b : Z) : Z := a / b + (if a mod b =? 0 then 0 else 1).

Ltac u64_unfold :=
  unfold is_u64, sat_add, sat_sub, sat_mul, checked_add, checked_sub,
    checked_mul, U64_MAX, I64_MAX in *.

(** Linear goals over saturating arithmetic. *)
Ltac u64_lia := u64_unfold; lia.
(** The same with divisions and products. *)
Ltac u64_nia := u64_unfold; Z.to_euclidean_division_equations; nia.

Lemma wrap_add_1 x : 0 <= x < U64_MAX -> wrap_add x 1 = x + 1.
Proof. intros H. unfold wrap_add, wrap64. apply Z.mod_small. unfold U64_MAX in H. lia. Qed.

(** ** Results of Rust calls

    A call either returns [Ok], returns an [Err] (an errno or a message), or
    panics; panics appear only where the source can index or slice out of
    bounds. *)

Inductive outcome (E A : Type) : Type :=
| Ok (a : A)
| Err (e : E)
| Panic.
Arguments Ok {E A} a.
Arguments Err {E A} e.
Arguments Panic {E A}.

#[global] Instance outcome_ret E : MRet (outcome E) := fun _ a => Ok a.
#[global] Instance outcome_bind E : MBind (outcome E) := fun _ _ f m =>
  match m with
  | Ok a => f a
  | Err e => Err e
  | Panic => Panic
  end.

#[global] Instance outcome_fmap E : FMap (outcome E) := fun _ _ f m =>
  match m with
  | Ok a => Ok (f a)
  | Err e => Err e
  | Panic => Panic
  end.

(** A call that returns no error, in a context that may. *)
Definition infallible {E A} (m : outcome Empty_set A) : outcome E A :=
  match m with
  | Ok a => Ok a
  | Err e => match e with end
  | Panic => Panic
  end.

Lemma bind_Ok {E A B} (f : A -> outcome E B) (m : outcome E A) (b : B) :
  (x ← m; f x) = Ok b <-> exists a, m = Ok a /\ f a = Ok b.
Proof.
  destruct m; cbn; split; intros H; try discriminate; try (eexists; eauto; fail);
    destruct H as (? & [=] & ?); congruence.
Qed.

(** ** Byte buffers

    Bytes are integers in [0, 256); a [Vec<u8>] or [&[u8]] is a list. *)

Abbreviation bytes := (list Z).

Definition zlen {A} (l : list A) : Z := Z.of_nat (length l).

(** The byte at offset [i], zero outside the buffer (a hole reads as zeroes). *)
Definition byte_at (l : bytes) (i : Z) : Z :=
  if i <? 0 then 0 else default 0 (l !! Z.to_nat i).

(** [&l[s..e]]. *)
Definition slice {E A} (l : list A) (s e : Z) : outcome E (list A) :=
  if (0 <=? s) && (s <=? e) && (e <=? zlen l)
  then Ok (take (Z.to_nat (e - s)) (drop (Z.to_nat s) l))
  else Panic.

(** [l] with the elements from position [s] on overwritten by [src]. *)
Definition splice {A} (l : list A) (s : Z) (src : list A) : list A :=
  take (Z.to_nat s) l ++ src ++ drop (Z.to_nat s + length src) l.

(** [l[s..e].copy_from_slice(src)]. *)
Definition copy_from_slice {E A} (l : list A) (s e : Z) (src : list A) : outcome E (list A) :=
  if (0 <=? s) && (s <=? e) && (e <=? zlen l) && (zlen src =? e - s)
  then Ok (splice l s src)
  else Panic.

(** [vec![0u8; n]] and [Vec::resize(n, 0)]. *)
Definition zeros (n : Z) : bytes := replicate (Z.to_nat n) 0.
Definition vec_resize (l : bytes) (n : Z) : bytes := resize (Z.to_nat n) 0 l.

(** The iterator [first..=last]. *)
Definition range_incl (first last : Z) : list Z := seqZ first (last - first + 1).

(** Case analysis on the boolean integer tests of a goal or hypothesis. *)
Ltac zcase :=
  match goal with
  | |- context [Z.eqb ?a ?b] => destruct (Z.eqb_spec a b)
  | |- context [Z.ltb ?a ?b] => destruct (Z.ltb_spec a b)
  | |- context [Z.leb ?a ?b] => destruct (Z.leb_spec a b)
  | H : context [Z.eqb ?a ?b] |- _ => destruct (Z.eqb_spec a b)
  | H : context [Z.ltb ?a ?b] |- _ => destruct (Z.ltb_spec a b)
  | H : context [Z.leb ?a ?b] |- _ => destruct (Z.leb_spec a b)
  end.

(** ** Generic lemmas *)

Lemma zlen_nonneg {A} (l : list A) : 0 <= zlen l.
Proof. unfold zlen. lia. Qed.

Lemma zlen_nil {A} : zlen (@nil A) = 0.
Proof. reflexivity. Qed.

Lemma zlen_cons {A} (x : A) l : zlen (x :: l) = 1 + zlen l.
Proof. unfold zlen. cbn [length]. lia. Qed.

Lemma zlen_app {A} (l k : list A) : zlen (l ++ k) = zlen l + zlen k.
Proof. unfold zlen. rewrite length_app. lia. Qed.

Lemma zlen_take {A} (l : list A) n : 0 <= n -> zlen (take (Z.to_nat n) l) = Z.min n (zlen l).
Proof. intros. unfold zlen. rewrite length_take. lia. Qed.

Lemma zlen_drop {A} (l : list A) n : 0 <= n -> zlen (drop (Z.to_nat n) l) = Z.max 0 (zlen l - n).
Proof. intros. unfold zlen. rewrite length_drop. lia. Qed.

Lemma zlen_zeros n : zlen (zeros n) = Z.max 0 n.
Proof. unfold zlen, zeros. rewrite length_replicate. lia. Qed.

Lemma zlen_vec_resize l n : zlen (vec_resize l n) = Z.max 0 n.
Proof. unfold zlen, vec_resize. rewrite length_resize. lia. Qed.

Lemma zlen_splice {A} (l : list A) s src :
  0 <= s -> s + zlen src <= zlen l -> zlen (splice l s src) = zlen l.
Proof.
  unfold zlen, splice. intros. rewrite !length_app, length_take, length_drop. lia.
Qed.

Create Rewrite HintDb zlen.
#[export] Hint Rewrite @zlen_nil @zlen_cons @zlen_app @zlen_zeros zlen_vec_resize : zlen.
#[export] Hint Rewrite @zlen_take @zlen_drop @zlen_splice using lia : zlen.

Ltac zlen_simpl := autorewrite with zlen in *.

Lemma byte_at_neg l i : i < 0 -> byte_at l i = 0.
Proof. intros. unfold byte_at. zcase; [done|lia]. Qed.

Lemma byte_at_ge l i : zlen l <= i -> byte_at l i = 0.
Proof.
  unfold byte_at, zlen. intros. zcase; [done|].
  rewrite lookup_ge_None_2 by lia. done.
Qed.

Lemma byte_at_nil i : byte_at [] i = 0.
Proof. unfold byte_at. zcase; [done|]. by rewrite lookup_nil. Qed.

Lemma byte_at_nonneg l i : 0 <= i -> byte_at l i = default 0 (l !! Z.to_nat i).
Proof. intros. unfold byte_at. zcase; [lia|done]. Qed.

Lemma byte_at_zeros n i : byte_at (zeros n) i = 0.
Proof.
  unfold byte_at, zeros. zcase; [done|].
  destruct (decide (Z.to_nat i < Z.to_nat n)%nat).
  - by rewrite lookup_replicate_2.
  - rewrite lookup_ge_None_2; [done|]. rewrite length_replicate. lia.
Qed.

Lemma byte_at_vec_resize l n i :
  byte_at (vec_resize l n) i = if decide (i < n) then byte_at l i else 0.
Proof.
  unfold byte_at, vec_resize. zcase; [by case_decide|].
  case_decide.
  - destruct (decide (Z.to_nat i < length l)%nat).
    + rewrite lookup_resize by lia. done.
    + rewrite lookup_resize_new by lia. rewrite (lookup_ge_None_2 l) by lia. done.
  - rewrite lookup_resize_old by lia. done.
Qed.

Lemma byte_at_splice l s src i :
  0 <= s -> s + zlen src <= zlen l ->
  byte_at (splice l s src) i =
    if decide (s <= i < s + zlen src) then byte_at src (i - s) else byte_at l i.
Proof.
  unfold byte_at, splice, zlen. intros Hs Hl. zcase; [case_decide; [lia|done]|].
  case_decide.
  - zcase; [lia|]. rewrite lookup_app_r; rewrite length_take; [|lia].
    rewrite lookup_app_l by lia. do 2 f_equal. lia.
  - destruct (decide (i < s)).
    + rewrite lookup_app_l by (rewrite length_take; lia).
      rewrite lookup_take_lt by lia. done.
    + rewrite lookup_app_r; rewrite length_take; [|lia].
      rewrite lookup_app_r by lia. rewrite lookup_drop. do 2 f_equal. lia.
Qed.

Lemma byte_at_take l n i :
  byte_at (take (Z.to_nat n) l) i = if decide (i < n) then byte_at l i else 0.
Proof.
  unfold byte_at. zcase; [by case_decide|]. case_decide.
  - rewrite lookup_take_lt by lia. done.
  - rewrite lookup_take_ge by lia. done.
Qed.

Lemma byte_at_drop l n i :
  0 <= n -> byte_at (drop (Z.to_nat n) l) i = if decide (0 <= i) then byte_at l (n + i) else 0.
Proof.
  intros. unfold byte_at. zcase; case_decide; try lia.
  zcase; [lia|]. rewrite lookup_drop. do 2 f_equal. lia.
Qed.

Lemma byte_at_app l k i :
  byte_at (l ++ k) i = if decide (i < zlen l) then byte_at l i else byte_at k (i - zlen l).
Proof.
  unfold byte_at, zlen. pose proof (zlen_nonneg l). zcase; case_decide; try lia.
  - rewrite lookup_app_l by lia. done.
  - zcase; [lia|]. rewrite lookup_app_r by lia. do 2 f_equal. lia.
Qed.

(** Two buffers of one length that agree at every offset are equal. *)
Lemma bytes_ext (l k : bytes) :
  zlen l = zlen k -> (forall i, 0 <= i < zlen l -> byte_at l i = byte_at k i) -> l = k.
Proof.
  unfold zlen. intros Hlen H. apply list_eq. intros n.
  destruct (decide (n < length l)%nat) as [Hn|].
  - destruct (lookup_lt_is_Some_2 l n Hn) as [x Hx].
    destruct (lookup_lt_is_Some_2 k n ltac:(lia)) as [y Hy].
    specialize (H (Z.of_nat n) ltac:(lia)). unfold byte_at in H.
    destruct (Z.ltb_spec (Z.of_nat n) 0); [lia|].
    rewrite Nat2Z.id, Hx, Hy in H. cbn in H. congruence.
  - rewrite !lookup_ge_None_2 by lia. done.
Qed.

Lemma slice_Ok {E A} (l : list A) s e :
  0 <= s -> s <= e -> e <= zlen l ->
  @slice E A l s e = Ok (take (Z.to_nat (e - s)) (drop (Z.to_nat s) l)).
Proof. intros. unfold slice. repeat zcase; try lia. done. Qed.

Lemma copy_from_slice_Ok {E A} (l : list A) s e src :
  0 <= s -> e <= zlen l -> zlen src = e - s ->
  @copy_from_slice E A l s e src = Ok (splice l s src).
Proof.
  intros. pose proof (zlen_nonneg src). unfold copy_from_slice. repeat zcase; try lia. done.
Qed.

Lemma elem_of_range_incl a b x : x ∈ range_incl a b <-> a <= x <= b.
Proof. unfold range_incl. rewrite elem_of_seqZ. lia. Qed.

Lemma range_incl_cons a b : a <= b -> range_incl a b = a :: range_incl (a + 1) b.
Proof.
  intros. unfold range_incl. rewrite seqZ_cons by lia.
  unfold Z.succ, Z.pred. f_equal. f_equal; lia.
Qed.

Lemma range_incl_nil a b : b < a -> range_incl a b = [].
Proof. intros. unfold range_incl. apply seqZ_nil. lia. Qed.

Lemma div_block_bounds bs x : 0 < bs -> x / bs * bs <= x < x / bs * bs + bs.
Proof. intros. Z.to_euclidean_division_equations. nia. Qed.

(** ** Runs of consecutive integers

    Three places of the source group an ascending list of block numbers into
    inclusive runs; they differ only in how they compute "the number after the
    end of the current run", which is the parameter [nxt]. *)

Fixpoint run_ranges (nxt : Z -> Z) (start end_ : Z) (values : list Z) : list (Z * Z) :=
  match values with
  | [] => [(start, end_)]
  | value :: values =>
      if value =? nxt end_ then run_ranges nxt start value values
      else (start, end_) :: run_ranges nxt value value values
  end.

(** Membership of a number in one of the runs. *)
Definition in_ranges (x : Z) (rs : list (Z * Z)) : Prop :=
  exists r, r ∈ rs /\ r.1 <= x <= r.2.

(** Non-empty runs in ascending order, none below [lo], with a gap between any
    two of them: such a list is the only one that denotes its set of numbers. *)
Fixpoint ranges_sep (lo : Z) (rs : list (Z * Z)) : Prop :=
  match rs with
  | [] => True
  | (s, e) :: rs => lo <= s <= e /\ ranges_sep (e + 2) rs
  end.

Lemma in_ranges_nil x : ~ in_ranges x [].
Proof. intros (r & Hr & _). set_solver. Qed.

Lemma in_ranges_cons x s e rs : in_ranges x ((s, e) :: rs) <-> s <= x <= e \/ in_ranges x rs.
Proof.
  unfold in_ranges. split.
  - intros (r & Hr & Hx). apply elem_of_cons in Hr as [->|Hr]; [by left|right; eauto].
  - intros [?|(r & Hr & Hx)]; [exists (s, e)|exists r]; set_solver.
Qed.

Lemma ranges_sep_mono lo lo' rs : lo <= lo' -> ranges_sep lo' rs -> ranges_sep lo rs.
Proof. destruct rs as [|[s e] rs]; cbn; [done|]. intuition lia. Qed.

Lemma ranges_sep_elem lo rs r : ranges_sep lo rs -> r ∈ rs -> lo <= r.1 <= r.2.
Proof.
  revert lo. induction rs as [|[s e] rs IH]; intros lo Hsep Hr; [set_solver|].
  destruct Hsep as [? Hsep]. apply elem_of_cons in Hr as [->|Hr]; [done|].
  specialize (IH _ Hsep Hr). lia.
Qed.

Lemma ranges_sep_lower lo rs x : ranges_sep lo rs -> in_ranges x rs -> lo <= x.
Proof.
  intros Hsep (r & Hr & Hx). pose proof (ranges_sep_elem _ _ _ Hsep Hr). lia.
Qed.

Lemma run_ranges_spec nxt vs : forall start end_,
  start <= end_ ->
  StronglySorted Z.lt (end_ :: vs) ->
  (forall e v, e ∈ end_ :: vs -> v ∈ vs -> e < v -> nxt e = e + 1) ->
  ranges_sep start (run_ranges nxt start end_ vs) /\
  forall x, in_ranges x (run_ranges nxt start end_ vs) <-> start <= x <= end_ \/ x ∈ vs.
Proof.
  induction vs as [|v vs IH]; intros start end_ Hse Hsorted Hnxt; cbn.
  { split; [lia|]. intros x. rewrite in_ranges_cons. set_solver. }
  apply StronglySorted_inv in Hsorted as [Hsorted Hall].
  assert (Hv : end_ < v) by (rewrite Forall_forall in Hall; apply Hall; set_solver).
  rewrite (Hnxt end_ v); [|set_solver|set_solver|lia].
  assert (Hnxt' : forall e v', e ∈ v :: vs -> v' ∈ vs -> e < v' -> nxt e = e + 1)
    by (intros e v' ???; apply (Hnxt e v'); [set_solver|set_solver|lia]).
  destruct (Z.eqb_spec v (end_ + 1)) as [->|Hne].
  - destruct (IH start (end_ + 1) ltac:(lia) Hsorted Hnxt') as [Hsep Hin].
    split; [done|]. intros x. rewrite Hin, elem_of_cons. intuition lia.
  - destruct (IH v v ltac:(lia) Hsorted Hnxt') as [Hsep Hin]. cbn. split.
    + split; [lia|]. eapply ranges_sep_mono; [|exact Hsep]. lia.
    + intros x. rewrite in_ranges_cons, Hin, elem_of_cons. intuition lia.
Qed.

(** The runs of a set of numbers are unique. *)
Lemma ranges_sep_unique rs : forall lo rs',
  ranges_sep lo rs -> ranges_sep lo rs' ->
  (forall x, in_ranges x rs <-> in_ranges x rs') -> rs = rs'.
Proof.
  induction rs as [|[s e] rs IH]; intros lo rs' H H' Heq.
  - destruct rs' as [|[s e] rs']; [done|]. destruct H' as [? _]. exfalso.
    apply (in_ranges_nil s), Heq, in_ranges_cons. lia.
  - destruct rs' as [|[s' e'] rs'].
    { destruct H as [? _]. exfalso. apply (in_ranges_nil s), Heq, in_ranges_cons. lia. }
    destruct H as [Hse H], H' as [Hse' H'].
    assert (Hin : forall x, s <= x <= e \/ in_ranges x rs <-> s' <= x <= e' \/ in_ranges x rs').
    { intros x. rewrite <- !in_ranges_cons. apply Heq. }
    assert (Hlow : forall x, in_ranges x rs -> e + 2 <= x) by (intros; eapply ranges_sep_lower; eauto).
    assert (Hlow' : forall x, in_ranges x rs' -> e' + 2 <= x) by (intros; eapply ranges_sep_lower; eauto).
    assert (s = s') as <-.
    { destruct (Hin s) as [A _], (Hin s') as [_ B].
      destruct (A ltac:(lia)) as [?|C]; [|specialize (Hlow' _ C)];
        destruct (B ltac:(lia)) as [?|D]; try (specialize (Hlow _ D)); lia. }
    assert (e = e') as <-.
    { destruct (Z.lt_trichotomy e e') as [?|[?|?]]; [|done|]; exfalso.
      - destruct (Hin (e + 1)) as [_ B]. destruct (B ltac:(lia)) as [?|D]; [lia|].
        specialize (Hlow _ D). lia.
      - destruct (Hin (e' + 1)) as [A _]. destruct (A ltac:(lia)) as [?|D]; [lia|].
        specialize (Hlow' _ D). lia. }
    f_equal. apply (IH (e + 2)); [done..|]. intros x. split; intros Hx.
    + specialize (Hlow _ Hx). destruct (proj1 (Hin x) (or_intror Hx)); [lia|done].
    + specialize (Hlow' _ Hx). destruct (proj2 (Hin x) (or_intror Hx)); [lia|done].
Qed.

(** [sort_unstable] then [dedup] on integers. *)
Fixpoint dedup (l : list Z) : list Z :=
  match l with
  | x :: ((y :: _) as k) => if x =? y then dedup k else x :: dedup k
  | _ => l
  end.

Definition sort_z (l : list Z) : list Z := merge_sort Z.le l.

Lemma elem_of_dedup l x : x ∈ dedup l <-> x ∈ l.
Proof.
  induction l as [|a [|b l] IH]; [done|done|].
  cbn [dedup]. cbn [dedup] in IH. destruct (Z.eqb_spec a b) as [->|].
  - rewrite IH. set_solver.
  - rewrite (elem_of_cons _ _ a), IH. set_solver.
Qed.

Lemma dedup_sorted l : StronglySorted Z.le l -> StronglySorted Z.lt (dedup l).
Proof.
  induction l as [|a [|b l] IH]; intros H; [constructor|repeat constructor|].
  apply StronglySorted_inv in H as [H Hall].
  specialize (IH H). cbn [dedup] in *. destruct (Z.eqb_spec a b) as [->|]; [done|].
  constructor; [done|]. apply Forall_forall. intros x Hx.
  assert (Hx' : x ∈ b :: l) by (apply elem_of_dedup; exact Hx).
  apply StronglySorted_inv in H as [_ Hb].
  rewrite Forall_forall in Hall, Hb.
  assert (a <= b) by (apply Hall; set_solver).
  apply elem_of_cons in Hx' as [->|Hx']; [lia|]. specialize (Hb _ Hx'). lia.
Qed.

Lemma elem_of_sort_z l x : x ∈ sort_z l <-> x ∈ l.
Proof. unfold sort_z. by rewrite merge_sort_Permutation. Qed.

Lemma sort_dedup_sorted l : StronglySorted Z.lt (dedup (sort_z l)).
Proof.
  apply dedup_sorted, Sorted_StronglySorted; [intros ???; lia|].
  apply Sorted_merge_sort. intros x y; lia.
Qed.

Lemma seqZ_sorted m n : StronglySorted Z.lt (seqZ m n).
Proof.
  destruct (Z.lt_ge_cases n 0); [rewrite seqZ_nil by lia; constructor|].
  revert m. pattern n. apply natlike_ind; [| |done]; clear n H.
  - intros m. rewrite seqZ_nil by lia. constructor.
  - intros n Hn IH m. rewrite seqZ_cons by lia. constructor.
    + replace (Z.pred (Z.succ n)) with n by lia. apply IH.
    + apply Forall_forall. intros x Hx%elem_of_seqZ. lia.
Qed.

(** ** Filtering lists *)

Lemma filter_all {A} (P : A -> Prop) `{!forall x, Decision (P x)} (l : list A) : Forall P l -> filter P l = l.
Proof.
  induction 1 as [|x l Hx _ IH]; [done|]. rewrite filter_cons_True by done. by rewrite IH.
Qed.

Lemma filter_sub {A} (P : A -> Prop) `{!forall x, Decision (P x)} (l : list A) : filter P l ⊆ l.
Proof. intros x [_ Hx]%list_elem_of_filter. done. Qed.

Lemma filter_ext_in {A} (P Q : A -> Prop) `{!forall x, Decision (P x), !forall x, Decision (Q x)} (l : list A) :
  (forall x, x ∈ l -> P x <-> Q x) -> filter P l = filter Q l.
Proof.
  induction l as [|x l IH]; intros Hiff; [done|]. rewrite !filter_cons.
  rewrite IH by (intros y Hy; apply Hiff; by right). specialize (Hiff x ltac:(by left)).
  repeat case_decide; tauto.
Qed.

Lemma filter_fmap_comm {A B} (f : A -> B) (P : B -> Prop) `{!forall x, Decision (P x)} (l : list A) :
  filter P (f <$> l) = f <$> filter (fun x => P (f x)) l.
Proof.
  induction l as [|x l IH]; [done|]. rewrite fmap_cons, !filter_cons, IH. by case_decide.
Qed.
