(* ===== verification/Text.v ===== *)
(** * Rust text: decimal numbers, lines and fields

    The parts of [str], [String], [char] and the integer [FromStr] and
    [Display] implementations that FOD uses on configuration values, SQL
    results and lock state. A text is a list of ASCII characters, which is
    what these values are; [trim] removes the ASCII white space. The file holds
    no code of the repository, only the standard library it calls. *)

From stdpp Require Import prelude list numbers strings.
From Stdlib Require Import ZArith Lia Ascii.
From S2P Require Import Prelude.

#[local] Open Scope Z_scope.

Abbreviation text := (list ascii).

(** A string literal. *)
Definition txt (s : string) : text := String.list_ascii_of_string s.

#[local] Open Scope char_scope.
Definition NL : ascii := ascii_of_nat 10.
Definition CR : ascii := ascii_of_nat 13.
Definition TAB : ascii := ascii_of_nat 9.

Definition char_code (c : ascii) : Z := Z.of_nat (nat_of_ascii c).
#[local] Close Scope char_scope.

(** [char::is_whitespace] on ASCII. *)
Definition is_whitespace (c : ascii) : bool :=
  let k := char_code c in ((9 <=? k) && (k <=? 13)) || (k =? 32).

Fixpoint drop_while (p : ascii -> bool) (s : text) : text :=
  match s with
  | c :: s' => if p c then drop_while p s' else s
  | [] => []
  end.

Definition trim_start (s : text) : text := drop_while is_whitespace s.
Definition trim_end (s : text) : text := reverse (drop_while is_whitespace (reverse s)).
Definition trim (s : text) : text := trim_end (trim_start s).

Definition ascii_lower (c : ascii) : ascii :=
  let k := nat_of_ascii c in
  if (65 <=? Z.of_nat k) && (Z.of_nat k <=? 90) then ascii_of_nat (k + 32) else c.
Definition to_ascii_lowercase (s : text) : text := ascii_lower <$> s.
Definition eq_ignore_ascii_case (s t : text) : bool :=
  bool_decide (to_ascii_lowercase s = to_ascii_lowercase t).

(** [str::strip_prefix] and [str::starts_with]. *)
Fixpoint strip_prefix (p s : text) : option text :=
  match p, s with
  | [], _ => Some s
  | a :: p, b :: s => if bool_decide (a = b) then strip_prefix p s else None
  | _ :: _, [] => None
  end.
Definition text_starts_with (s p : text) : bool := bool_decide (is_Some (strip_prefix p s)).

(** [str::split] at a character: one more part than separators. *)
Fixpoint split (c : ascii) (s : text) : list text :=
  match s with
  | [] => [[]]
  | a :: s =>
      if bool_decide (a = c) then [] :: split c s
      else match split c s with
           | p :: ps => (a :: p) :: ps
           | [] => [[a]]
           end
  end.

(** [str::split_once] at a character. *)
Fixpoint split_once (c : ascii) (s : text) : option (text * text) :=
  match s with
  | [] => None
  | a :: s =>
      if bool_decide (a = c) then Some ([], s)
      else '(l, r) ← split_once c s; Some (a :: l, r)
  end.

Lemma split_once_app c s t : c ∉ s -> split_once c (s ++ c :: t) = Some (s, t).
Proof.
  induction s as [|a s IH]; intros H; cbn; [by rewrite bool_decide_eq_true_2|].
  rewrite bool_decide_eq_false_2 by set_solver. rewrite IH by set_solver. done.
Qed.

(** [str::lines]: the pieces between line feeds, without an empty last piece,
    each without its line feed and a carriage return before it. *)
Definition strip_cr (s : text) : text :=
  match last s with
  | Some c => if bool_decide (c = CR) then take (length s - 1) s else s
  | None => s
  end.

Fixpoint lines_of (parts : list text) : list text :=
  match parts with
  | [] => []
  | [p] => if bool_decide (p = []) then [] else [p]
  | p :: ps => strip_cr p :: lines_of ps
  end.
Definition lines (s : text) : list text := lines_of (split NL s).

(** [[T]::join]. *)
Fixpoint join (c : ascii) (parts : list text) : text :=
  match parts with
  | [] => []
  | [p] => p
  | p :: ps => p ++ c :: join c ps
  end.

(** ** Decimal numbers *)

Definition is_digit (c : ascii) : bool := (48 <=? char_code c) && (char_code c <=? 57).
Definition digit_val (c : ascii) : Z := char_code c - 48.
Definition digit_char (d : Z) : ascii := ascii_of_nat (Z.to_nat (48 + d)).

(** The digits of [n], most significant first; [fuel] bounds their number. *)
Fixpoint print_digits (fuel : nat) (n : Z) (acc : text) : text :=
  match fuel with
  | O => acc
  | S fuel =>
      let acc := digit_char (n mod 10) :: acc in
      if n / 10 =? 0 then acc else print_digits fuel (n / 10) acc
  end.

(** [to_string] of an integer; forty digits hold every 128-bit number. *)
Definition print_u (n : Z) : text := print_digits 40 n [].
Definition print_i (n : Z) : text :=
  if n <? 0 then ascii_of_nat 45 :: print_u (- n) else print_u n.

(** [from_str_radix] in base ten: the digits are accumulated with checked
    arithmetic, so an intermediate result above [max] is an error. *)
Fixpoint parse_digits (max acc : Z) (s : text) : option Z :=
  match s with
  | [] => Some acc
  | c :: s =>
      if is_digit c then
        let acc := acc * 10 + digit_val c in
        if acc <=? max then parse_digits max acc s else None
      else None
  end.

(** [str::parse] for an unsigned type whose largest value is [max]. *)
Definition parse_unsigned (max : Z) (s : text) : option Z :=
  match s with
  | [] => None
  | c :: s' =>
      if bool_decide (c = ascii_of_nat 43)
      then (if bool_decide (s' = []) then None else parse_digits max 0 s')
      else parse_digits max 0 s
  end.
Definition parse_u64 : text -> option Z := parse_unsigned U64_MAX.
Definition parse_u32 : text -> option Z := parse_unsigned (2 ^ 32 - 1).

(** [str::parse] for a signed type with values in [[-max - 1, max]]. *)
Definition parse_signed (max : Z) (s : text) : option Z :=
  match s with
  | [] => None
  | c :: s' =>
      if bool_decide (c = ascii_of_nat 43)
      then (if bool_decide (s' = []) then None else parse_digits max 0 s')
      else if bool_decide (c = ascii_of_nat 45)
      then (if bool_decide (s' = []) then None else Z.opp <$> parse_digits (max + 1) 0 s')
      else parse_digits max 0 s
  end.
Definition parse_i32 : text -> option Z := parse_signed (2 ^ 31 - 1).
Definition parse_i64 : text -> option Z := parse_signed I64_MAX.

(** ** Lemmas *)

Lemma digit_char_code d : 0 <= d < 10 -> char_code (digit_char d) = 48 + d.
Proof.
  intros. unfold char_code, digit_char. rewrite nat_ascii_embedding; lia.
Qed.

Lemma digit_char_val d : 0 <= d < 10 -> is_digit (digit_char d) = true /\ digit_val (digit_char d) = d.
Proof.
  intros. unfold is_digit, digit_val. rewrite digit_char_code by done. split; [|lia].
  repeat zcase; try lia; done.
Qed.

(** A text of decimal digits. *)
Definition all_digits (s : text) : Prop := Forall (fun c => is_digit c = true) s.

Lemma print_digits_all fuel : forall n acc,
  0 <= n -> all_digits acc -> all_digits (print_digits fuel n acc).
Proof.
  induction fuel as [|fuel IH]; intros n acc Hn Hacc; cbn [print_digits]; [done|].
  assert (Hd : is_digit (digit_char (n mod 10)) = true) by (apply digit_char_val, Z.mod_pos_bound; lia).
  zcase; [by constructor|]. apply IH; [|by constructor]. Z.to_euclidean_division_equations. lia.
Qed.

Lemma print_u_digits n : 0 <= n -> all_digits (print_u n).
Proof. intros. apply print_digits_all; [done|constructor]. Qed.

Lemma print_digits_cons fuel n acc : exists c s, print_digits (S fuel) n acc = c :: s.
Proof.
  revert n acc. induction fuel as [|fuel IH]; intros n acc; cbn; [case_match; eauto|].
  case_match; [eauto|]. apply (IH (n / 10)).
Qed.

Lemma print_u_nonempty n : exists c s, print_u n = c :: s.
Proof. apply print_digits_cons. Qed.

(** A list of digits read from an accumulator. *)
Fixpoint digits_value (k : Z) (s : text) : Z :=
  match s with
  | [] => k
  | c :: s => digits_value (k * 10 + digit_val c) s
  end.

Lemma digits_value_mono s : forall k, all_digits s -> 0 <= k -> k <= digits_value k s.
Proof.
  induction s as [|c s IH]; intros k Hs Hk; cbn; [lia|].
  apply Forall_cons in Hs as [Hc Hs].
  assert (0 <= digit_val c) by (unfold is_digit, digit_val in *; lia).
  specialize (IH (k * 10 + digit_val c) Hs). lia.
Qed.

(** Parsing a digit text succeeds exactly when its value fits. *)
Lemma parse_digits_value max s : forall k,
  all_digits s -> 0 <= k <= max ->
  parse_digits max k s = if digits_value k s <=? max then Some (digits_value k s) else None.
Proof.
  induction s as [|c s IH]; intros k Hs Hk; cbn [parse_digits digits_value].
  { zcase; [done|lia]. }
  apply Forall_cons in Hs as [Hc Hs]. rewrite Hc.
  assert (0 <= digit_val c) by (unfold is_digit, digit_val in *; lia).
  destruct (Z.leb_spec (k * 10 + digit_val c) max).
  - apply IH; [done|lia].
  - pose proof (digits_value_mono s (k * 10 + digit_val c) Hs). zcase; [lia|done].
Qed.

Lemma print_digits_value fuel : forall n acc k,
  0 <= n < 10 ^ Z.of_nat fuel -> (0 < fuel)%nat ->
  exists j, digits_value k (print_digits fuel n acc) = digits_value (k * 10 ^ j + n) acc /\ 0 <= j.
Proof.
  induction fuel as [|fuel IH]; intros n acc k Hn Hf; [lia|]. cbn [print_digits].
  assert (Hd : digit_val (digit_char (n mod 10)) = n mod 10)
    by (apply digit_char_val; Z.to_euclidean_division_equations; lia).
  pose proof (Z.div_mod n 10 ltac:(lia)).
  destruct (Z.eqb_spec (n / 10) 0).
  - exists 1. cbn [digits_value]. rewrite Hd. split; [f_equal; lia|lia].
  - rewrite Nat2Z.inj_succ, Z.pow_succ_r in Hn by lia.
    assert (0 <= n / 10 < 10 ^ Z.of_nat fuel) by (Z.to_euclidean_division_equations; lia).
    destruct fuel as [|fuel]; [cbn in *; Z.to_euclidean_division_equations; lia|].
    destruct (IH (n / 10) (digit_char (n mod 10) :: acc) k) as (j & Hj & Hj0); [done|lia|].
    exists (j + 1). rewrite Hj. cbn [digits_value]. rewrite Hd. split; [|lia].
    f_equal. rewrite Z.pow_add_r by lia. lia.
Qed.

Lemma print_u_value n : 0 <= n < 10 ^ 40 -> digits_value 0 (print_u n) = n.
Proof.
  intros. unfold print_u. destruct (print_digits_value 40 n [] 0) as (j & -> & _); [done|lia|].
  cbn. lia.
Qed.

Lemma digit_not_char c k : is_digit c = true -> (k < 48 \/ 57 < k)%nat -> (k < 256)%nat -> c <> ascii_of_nat k.
Proof.
  intros Hc Hk Hk' ->. unfold is_digit, char_code in Hc. rewrite nat_ascii_embedding in Hc by lia. lia.
Qed.

(** Round trip of the decimal texts. *)
Lemma parse_print_unsigned max n : 0 <= n <= max -> max < 10 ^ 40 -> parse_unsigned max (print_u n) = Some n.
Proof.
  intros Hn Hmax. destruct (print_u_nonempty n) as (c & s & E).
  pose proof (print_u_digits n ltac:(lia)) as Hd. pose proof (print_u_value n ltac:(lia)) as Hv.
  rewrite E in *. unfold parse_unsigned.
  rewrite bool_decide_eq_false_2
    by (apply Forall_cons in Hd as [Hc _]; apply digit_not_char; [done|lia|lia]).
  rewrite parse_digits_value by (done || lia). rewrite Hv. zcase; [done|lia].
Qed.

Lemma parse_print_u64 n : is_u64 n -> parse_u64 (print_u n) = Some n.
Proof. intros. apply parse_print_unsigned; [done|reflexivity]. Qed.

Lemma parse_print_u32 n : 0 <= n < 2 ^ 32 -> parse_u32 (print_u n) = Some n.
Proof. intros. apply parse_print_unsigned; [lia|reflexivity]. Qed.

Lemma parse_print_signed max n :
  - max - 1 <= n <= max -> 0 <= max -> max + 1 < 10 ^ 40 -> parse_signed max (print_i n) = Some n.
Proof.
  intros Hn Hmax0 Hmax. unfold print_i. destruct (Z.ltb_spec n 0).
  - unfold parse_signed. rewrite bool_decide_eq_false_2 by (by vm_compute).
    rewrite bool_decide_eq_true_2 by done.
    destruct (print_u_nonempty (- n)) as (c & s & E). rewrite bool_decide_eq_false_2 by (by rewrite E).
    rewrite parse_digits_value by (apply print_u_digits || idtac; lia).
    rewrite print_u_value by lia. zcase; [|lia]. cbn. f_equal. lia.
  - destruct (print_u_nonempty n) as (c & s & E).
    pose proof (print_u_digits n ltac:(lia)) as Hd. pose proof (print_u_value n ltac:(lia)) as Hv.
    rewrite E in *. unfold parse_signed. pose proof (Forall_inv Hd) as Hc; cbn beta in Hc.
    rewrite !bool_decide_eq_false_2 by (apply digit_not_char; [done|lia|lia]).
    rewrite parse_digits_value by (done || lia). rewrite Hv. zcase; [done|lia].
Qed.

Lemma parse_print_i32 n : - 2 ^ 31 <= n < 2 ^ 31 -> parse_i32 (print_i n) = Some n.
Proof. intros. apply parse_print_signed; [lia|lia|reflexivity]. Qed.

(** Splitting what was joined. *)
Lemma split_no_sep c s : c ∉ s -> split c s = [s].
Proof.
  induction s as [|a s IH]; intros H; cbn; [done|].
  rewrite bool_decide_eq_false_2 by set_solver. rewrite IH by set_solver. done.
Qed.

Lemma split_app c s t : c ∉ s -> split c (s ++ c :: t) = s :: split c t.
Proof.
  induction s as [|a s IH]; intros H; cbn; [by rewrite bool_decide_eq_true_2|].
  rewrite bool_decide_eq_false_2 by set_solver. by rewrite IH by set_solver.
Qed.

Lemma split_join c parts : parts <> [] -> Forall (fun p => c ∉ p) parts -> split c (join c parts) = parts.
Proof.
  induction parts as [|p ps IH]; intros Hne Hall; [done|].
  apply Forall_cons in Hall as [Hp Hps]. destruct ps as [|q ps]; [by apply split_no_sep|].
  change (join c (p :: q :: ps)) with (p ++ c :: join c (q :: ps)).
  rewrite split_app by done. by rewrite IH.
Qed.

(** A text without line breaks that survives [lines]. *)
Definition plain_line (p : text) : Prop := p <> [] /\ NL ∉ p /\ CR ∉ p.

Lemma strip_cr_plain p : CR ∉ p -> strip_cr p = p.
Proof.
  intros H. unfold strip_cr. destruct (last p) as [c|] eqn:E; [|done].
  rewrite bool_decide_eq_false_2; [done|]. intros ->. apply H.
  apply last_Some in E as [l ->]. set_solver.
Qed.

Lemma lines_join parts : Forall plain_line parts -> lines (join NL parts) = parts.
Proof.
  intros Hall. destruct (decide (parts = [])) as [->|Hne]; [reflexivity|].
  unfold lines. rewrite split_join; [|done|eapply Forall_impl; [exact Hall|by intros p (?&?&?)]].
  clear Hne. induction parts as [|p ps IH]; [done|].
  apply Forall_cons in Hall as [(Hp & _ & Hcr) Hps]. destruct ps as [|q ps].
  - cbn. by rewrite bool_decide_eq_false_2.
  - change (lines_of (p :: q :: ps)) with (strip_cr p :: lines_of (q :: ps)).
    by rewrite strip_cr_plain, IH.
Qed.

Lemma digits_no_char s k : all_digits s -> (k < 48)%nat -> ascii_of_nat k ∉ s.
Proof.
  intros Hs Hk Hin. unfold all_digits in Hs. rewrite Forall_forall in Hs. specialize (Hs _ Hin).
  by apply (digit_not_char _ k) in Hs; [|lia|lia].
Qed.

Lemma parse_digits_bounds max s : forall k n,
  0 <= k <= max -> parse_digits max k s = Some n -> 0 <= n <= max.
Proof.
  induction s as [|c s IH]; intros k n Hk; cbn [parse_digits]; [intros; simplify_eq; lia|].
  destruct (is_digit c) eqn:Hc; [|done]. zcase; [|done]. apply IH.
  unfold is_digit, digit_val in *. lia.
Qed.

Lemma parse_unsigned_bounds max s n : 0 <= max -> parse_unsigned max s = Some n -> 0 <= n <= max.
Proof.
  intros Hm. destruct s as [|c s]; [done|]. cbn [parse_unsigned]. repeat case_bool_decide; try done;
    apply parse_digits_bounds; lia.
Qed.

Lemma parse_u64_bounds s n : parse_u64 s = Some n -> is_u64 n.
Proof. apply parse_unsigned_bounds. done. Qed.

Lemma parse_u32_bounds s n : parse_u32 s = Some n -> 0 <= n < 2 ^ 32.
Proof. intros H%parse_unsigned_bounds; lia. Qed.
