(* ===== verification/Replay.v ===== *)
(** * Transactions and their replay

    Model of how src/rust_hotpath/src/pg.rs runs a transaction on a pooled
    connection and repeats it after a lost connection: [transactional_impl] and its
    three users ([transactional_replayable], [transactional_replay_confirmed],
    [with_transaction]), and the loop of [with_connection]. Errors are texts; a
    prefix marks the ones that allow a repetition. The server and the pool are an
    environment that says, for every attempt, what fails, what the other clients did
    before it and, for a COMMIT whose acknowledgement is lost, whether it took
    effect. The state has two parts: the database, which a failed transaction leaves
    alone, and the rest of the world, in which the callback's effects stay. *)

From stdpp Require Import prelude list numbers strings.
From Stdlib Require Import ZArith Lia Ascii.
From S2P Require Import Prelude Text.

Set Default Proof Using "Type".

(** ** Error texts *)

Definition REPLAYABLE_SQL_ERROR_PREFIX : text := txt "__FOD_REPLAYABLE_SQL_ERROR__: ".

Definition replayable_sql_error (err : text) : text := REPLAYABLE_SQL_ERROR_PREFIX ++ err.

Definition is_replayable_error (err : text) : bool := text_starts_with err REPLAYABLE_SQL_ERROR_PREFIX.

Definition replayable_sql_error_once (err : text) : text :=
  if is_replayable_error err then err else replayable_sql_error err.

Definition strip_replayable_sql_error (err : text) : text :=
  default err (strip_prefix REPLAYABLE_SQL_ERROR_PREFIX err).

(** [str::contains]. *)
Fixpoint text_contains (s p : text) : bool :=
  text_starts_with s p || match s with [] => false | _ :: s => text_contains s p end.

Definition connection_error_texts : list text := txt <$>
  ["server closed the connection unexpectedly"%string; "connection to server was lost"%string;
   "could not receive data from server"%string; "could not send data to server"%string; "broken pipe"%string;
   "connection reset by peer"%string; "ssl connection has been closed unexpectedly"%string;
   "terminating connection due to administrator command"%string].

(** [conn_ok] is whether the status of the connection is [CONNECTION_OK]. *)
Definition is_retryable_connection_error (conn_ok : bool) (err : text) : bool :=
  if negb conn_ok then true
  else existsb (text_contains (to_ascii_lowercase err)) connection_error_texts.

(** ** Statements that may be repeated *)

(** [str::split_whitespace]. *)
Fixpoint split_whitespace (s : text) : list text :=
  match s with
  | [] => []
  | c :: s =>
      if is_whitespace c then split_whitespace s
      else match s with
           | [] => [[c]]
           | d :: _ =>
               if is_whitespace d then [c] :: split_whitespace s
               else match split_whitespace s with
                    | [] => [[c]]
                    | w :: ws => (c :: w) :: ws
                    end
           end
  end.

Definition SPACE : ascii := ascii_of_nat 32.

Definition sql_compact (sql : text) : text := join SPACE (split_whitespace sql).

Definition ascii_upper (c : ascii) : ascii :=
  if bool_decide (97 <= char_code c <= 122)%Z then ascii_of_nat (nat_of_ascii c - 32) else c.

Definition sql_is_read_only (sql : text) : bool :=
  let token := ascii_upper <$> default [] (head (split_whitespace sql)) in
  bool_decide (token ∈ txt <$> ["SELECT"; "WITH"; "SHOW"; "VALUES"; "EXPLAIN"]%string).

Definition sql_matches (sql : text) (clause : string * list string) : bool :=
  text_starts_with sql (txt clause.1) && forallb (fun part => text_contains sql (txt part)) clause.2.

Definition sql_is_replayable_data_blocks_upsert (sql : text) : bool :=
  sql_matches sql ("INSERT INTO data_blocks ",
    ["ON CONFLICT (data_object_id, _order) DO UPDATE SET data = EXCLUDED.data"])%string.

Definition sql_is_replayable_copy_block_crc_upsert (sql : text) : bool :=
  sql_matches sql ("INSERT INTO copy_block_crc ",
    ["ON CONFLICT (data_object_id, _order) DO UPDATE SET crc32 = EXCLUDED.crc32, updated_at = NOW()"])%string.

Definition sql_is_replayable_schema_ddl (sql : text) : bool :=
  existsb (fun p => text_starts_with sql (txt p))
    ["CREATE TABLE IF NOT EXISTS "; "CREATE TEMP TABLE IF NOT EXISTS "; "CREATE INDEX IF NOT EXISTS ";
     "CREATE UNIQUE INDEX IF NOT EXISTS "; "CREATE OR REPLACE FUNCTION "; "DROP TRIGGER IF EXISTS ";
     "CREATE TRIGGER fod_client_sessions_prune_lock_leases "]%string
  || text_starts_with sql (txt "ALTER TABLE IF EXISTS ")
     && existsb (fun p => text_contains sql (txt p))
          [" ADD COLUMN IF NOT EXISTS "; " ALTER COLUMN session_id SET DEFAULT 0";
           " ALTER COLUMN session_id SET NOT NULL";
           " DROP CONSTRAINT IF EXISTS lock_leases_resource_kind_resource_id_owner_key_lease_kind_key";
           " ALTER COLUMN owner_key TYPE NUMERIC(20,0) USING owner_key::numeric";
           " ALTER COLUMN session_id DROP DEFAULT"]%string.

(** The clauses of the disjunction: a beginning and the parts that must occur. *)
Definition replayable_clauses : list (string * list string) :=
  ([
   ("DELETE FROM ", []);
   ("INSERT INTO data_objects ", ["RETURNING id_data_object"]);
   ("INSERT INTO hardlinks ", ["RETURNING id_hardlink"]);
   ("INSERT INTO symlinks ", ["RETURNING id_symlink"]);
   ("INSERT INTO directories ", ["RETURNING id_directory"]);
   ("INSERT INTO files ", ["RETURNING id_file"]);
   ("INSERT INTO special_files ", []);
   ("INSERT INTO data_object_request_tokens ", ["ON CONFLICT (request_token) DO UPDATE SET updated_at = NOW() RETURNING id_data_object"]);
   ("INSERT INTO hardlink_promotion_request_tokens ", ["ON CONFLICT (request_token) DO UPDATE SET updated_at = NOW() RETURNING did_promote"]);
   ("INSERT INTO lock_lease_request_tokens ", ["ON CONFLICT (request_token) DO UPDATE SET did_grant = EXCLUDED.did_grant, updated_at = NOW() RETURNING did_grant"]);
   ("INSERT INTO payload_capacity_reservations ", ["ON CONFLICT (request_token) DO UPDATE SET reserved_bytes = EXCLUDED.reserved_bytes, expires_at = EXCLUDED.expires_at"]);
   ("UPDATE index_sources AS target SET kind = staged.kind", ["INSERT INTO index_sources ("; "md5(target.name) = md5(staged.name)"]);
   ("UPDATE index_files AS target SET id_scan_run = staged.id_scan_run", ["INSERT INTO index_files ("; "md5(target.path) = md5(staged.path)"]);
   ("INSERT INTO index_scan_runs ", ["ON CONFLICT (request_token) DO UPDATE SET id_index_source = EXCLUDED.id_index_source, status = EXCLUDED.status, updated_at = NOW()"]);
   ("INSERT INTO index_file_hashes ", ["ON CONFLICT (id_file) DO UPDATE SET hash_algorithm = EXCLUDED.hash_algorithm, partial_hash = EXCLUDED.partial_hash, full_hash = EXCLUDED.full_hash, hash_status = EXCLUDED.hash_status, observed_size = EXCLUDED.observed_size, observed_mtime_ns = EXCLUDED.observed_mtime_ns, observed_inode = EXCLUDED.observed_inode, observed_device = EXCLUDED.observed_device, updated_at = NOW()"]);
   ("INSERT INTO index_duplicate_sets ", ["ON CONFLICT (hash_algorithm, full_hash, file_size) DO UPDATE SET file_count = EXCLUDED.file_count, total_bytes = EXCLUDED.total_bytes, updated_at = NOW()"]);
   ("INSERT INTO index_import_plans ", ["ON CONFLICT (request_token) DO UPDATE SET status = EXCLUDED.status, dry_run = EXCLUDED.dry_run, source_filter = EXCLUDED.source_filter, updated_at = NOW()"]);
   ("INSERT INTO client_sessions ", ["ON CONFLICT (request_token) DO UPDATE SET updated_at = NOW()"]);
   ("UPDATE index_scan_runs SET finished_at = NOW(), status = ", []);
   ("UPDATE index_import_plans SET status = ", []);
   ("UPDATE index_files SET source_changed = TRUE, updated_at = NOW() WHERE id_file = ", []);
   ("UPDATE payload_capacity_reservations SET expires_at = NOW() + INTERVAL '1 hour' WHERE request_token = $1", []);
   ("UPDATE client_sessions", []);
   ("UPDATE lock_leases", []);
   ("UPDATE lock_range_leases", []);
   ("INSERT INTO client_session_owner_keys ", []);
   ("INSERT INTO lock_leases ", ["ON CONFLICT (resource_kind, resource_id, session_id, owner_key, lease_kind) DO UPDATE SET lock_type = EXCLUDED.lock_type, lease_expires_at = EXCLUDED.lease_expires_at, heartbeat_at = EXCLUDED.heartbeat_at, updated_at = NOW()"]);
   ("INSERT INTO lock_range_leases ", []);
   ("UPDATE data_objects SET file_size = ", []);
   ("UPDATE data_objects SET modification_date = NOW() WHERE id_data_object = $1", []);
   ("UPDATE data_objects SET reference_count = reference_count + 1, modification_date = NOW() WHERE id_data_object = $1", []);
   ("UPDATE data_objects SET reference_count = GREATEST(reference_count - 1, 0), modification_date = NOW() WHERE id_data_object = $1", []);
   ("UPDATE data_objects SET reference_count = 0, modification_date = NOW() WHERE id_data_object = $1", []);
   ("UPDATE files SET size = ", []);
   ("UPDATE files SET data_object_id = $1, size = $2, change_date = NOW(), modification_date = NOW(), content_generation = content_generation + 1 WHERE id_file = $3", []);
   ("UPDATE files SET data_object_id = $1, size = $2, change_date = NOW(), modification_date = NOW() WHERE id_file = $3", []);
   ("UPDATE files SET content_generation = content_generation + 1 WHERE id_file = $1 RETURNING content_generation", []);
   ("UPDATE files SET modification_date = NOW(), change_date = NOW() WHERE id_file = $1", []);
   ("UPDATE files SET name = $1, unlinked = TRUE, change_date = NOW(), modification_date = NOW() WHERE id_file = $2", []);
   ("UPDATE directories SET modification_date = NOW(), change_date = NOW() WHERE id_directory = $1", []);
   ("UPDATE symlinks SET modification_date = NOW(), change_date = NOW() WHERE id_symlink = $1", []);
   ("UPDATE files SET name = $1, id_directory = $2, change_date = NOW(), modification_date = NOW() WHERE id_file = $3", []);
   ("UPDATE files SET name = $1, id_directory = NULL, change_date = NOW(), modification_date = NOW() WHERE id_file = $2", []);
   ("UPDATE hardlinks SET name = $1, id_directory = $2, modification_date = NOW() WHERE id_hardlink = $3", []);
   ("UPDATE hardlinks SET name = $1, id_directory = NULL, modification_date = NOW() WHERE id_hardlink = $2", []);
   ("UPDATE symlinks SET name = $1, id_parent = $2, modification_date = NOW() WHERE id_symlink = $3", []);
   ("UPDATE symlinks SET name = $1, id_parent = NULL, modification_date = NOW() WHERE id_symlink = $2", []);
   ("UPDATE directories SET name = $1, id_parent = $2, modification_date = NOW(), change_date = NOW() WHERE id_directory = $3", []);
   ("UPDATE directories SET name = $1, id_parent = NULL, modification_date = NOW(), change_date = NOW() WHERE id_directory = $2", []);
   ("UPDATE files SET mode = $1, change_date = NOW(), modification_date = NOW() WHERE id_file = $2", []);
   ("UPDATE directories SET mode = $1, change_date = NOW(), modification_date = NOW() WHERE id_directory = $2", []);
   ("UPDATE files SET uid = $1, gid = $2, mode = $3, change_date = NOW(), modification_date = NOW() WHERE id_file = $4", []);
   ("UPDATE directories SET uid = $1, gid = $2, mode = $3, change_date = NOW(), modification_date = NOW() WHERE id_directory = $4", []);
   ("UPDATE symlinks SET uid = $1, gid = $2, change_date = NOW(), modification_date = NOW() WHERE id_symlink = $3", []);
   ("UPDATE symlinks SET access_date = $1 WHERE id_symlink = $2", []);
   ("UPDATE files SET access_date = $1, modification_date = $2, change_date = NOW() WHERE id_file = $3", []);
   ("UPDATE directories SET access_date = $1, modification_date = $2, change_date = NOW() WHERE id_directory = $3", []);
   ("UPDATE files SET access_date = $1 WHERE id_file = $2", []);
   ("UPDATE directories SET access_date = $1 WHERE id_directory = $2", []);
   ("INSERT INTO xattrs ", [])
  ])%string.

Definition sql_is_replayable_command (sql : text) : bool :=
  let sql := sql_compact sql in
  existsb (sql_matches sql) replayable_clauses
  || sql_is_replayable_data_blocks_upsert sql
  || sql_is_replayable_copy_block_crc_upsert sql
  || sql_is_replayable_schema_ddl sql.

Definition sql_is_replayable_after_disconnect (sql : text) : bool :=
  sql_is_read_only sql || sql_is_replayable_command sql.

Definition maybe_replayable_sql_error (conn_ok : bool) (sql err : text) : text :=
  if sql_is_replayable_after_disconnect sql && is_retryable_connection_error conn_ok err
  then replayable_sql_error err else err.

(** The error [exec_command] returns for the error text [err] of libpq. *)
Definition exec_command_error (conn_ok : bool) (sql err : text) : text :=
  if sql_is_replayable_command sql && is_retryable_connection_error conn_ok err
  then replayable_sql_error_once err else err.

(** ** One attempt *)

Section attempts.
Context {St X A : Type}.

(** What the environment does in one attempt. *)
Record Attempt := {
  at_others : St -> St;                (* other clients, before the attempt *)
  at_acquire : option text;            (* no connection *)
  at_stale : bool;                     (* the connection belongs to a former primary *)
  at_admission : option text;          (* no transaction slot *)
  at_begin : option text;              (* BEGIN fails *)
  at_body : option text;               (* the connection fails in the callback *)
  at_commit : option (text * bool);    (* COMMIT fails; whether it took effect *)
  at_conn_ok : bool;                   (* the connection status after a failure *)
  at_return : option text;             (* the pool fails to take the connection back *)
  at_cleanup : option text;            (* the pool fails to drop the connection *)
  at_mark : option text;               (* recording the failure or the replay fails *)
}.

(** A callback: its result with the changed database, and its effects elsewhere. *)
Definition callback : Type := St -> X -> outcome text (A * St) * X.
Definition attempt_run : Type := Attempt -> St -> X -> outcome text A * St * X.

Definition mark_retryable (a : Attempt) (err : text) : text :=
  if is_retryable_connection_error (at_conn_ok a) err then replayable_sql_error err else err.

Definition transactional_impl (f : callback) (replay_commit_disconnect : bool) : attempt_run :=
  fun a s x =>
  match at_admission a with
  | Some err => (Err err, s, x)
  | None =>
    match at_begin a with
    | Some err => (Err (mark_retryable a err), s, x)
    | None =>
        let '(r, x) := f s x in
        match (match at_body a with Some err => Err err | None => r end) with
        | Panic => (Panic, s, x)
        | Err err => (Err (mark_retryable a err), s, x)
        | Ok (value, s') =>
            match at_commit a with
            | None => (Ok value, s', x)
            | Some (err, applied) =>
                let err :=
                  if replay_commit_disconnect && is_retryable_connection_error (at_conn_ok a) err
                  then replayable_sql_error_once err else err in
                (Err err, if applied then s' else s, x)
            end
        end
    end
  end.

Definition transactional_replayable (f : callback) : attempt_run := transactional_impl f true.

Definition confirmed_body (probe : St -> outcome text (option A)) (body : callback) : callback :=
  fun s x =>
  match probe s with
  | Ok (Some value) => (Ok (value, s), x)
  | Ok None => body s x
  | Err e => (Err e, x)
  | Panic => (Panic, x)
  end.

Definition transactional_replay_confirmed (probe : St -> outcome text (option A)) (body : callback) : attempt_run :=
  transactional_replayable (confirmed_body probe body).

(** ** The loop *)

Definition cleanup_error (err pool_err : text) : text :=
  err ++ txt "; connection pool cleanup failed: " ++ pool_err.

(** [None] is a loop that has used up the attempts it is given. *)
Fixpoint with_connection_loop (f : attempt_run) (attempts : list Attempt) (replayed : bool) (s : St) (x : X)
    : option (outcome text A * St * X) :=
  match attempts with
  | [] => None
  | a :: attempts =>
      let s := at_others a s in
      match at_acquire a with
      | Some err => Some (Err err, s, x)
      | None =>
        if at_stale a then
          match at_return a with
          | Some err => Some (Err err, s, x)
          | None => with_connection_loop f attempts replayed s x
          end
        else
          let '(r, s, x) := f a s x in
          match r with
          | Panic => Some (Panic, s, x)
          | Ok value =>
              match at_return a with
              | Some err => Some (Err err, s, x)
              | None => Some (Ok value, s, x)
              end
          | Err err =>
              let replayable := is_replayable_error err in
              let err := strip_replayable_sql_error err in
              match at_cleanup a with
              | Some pool_err => Some (Err (cleanup_error err pool_err), s, x)
              | None =>
                  if replayable && negb replayed then
                    match at_mark a with
                    | Some mark_err => Some (Err mark_err, s, x)
                    | None => with_connection_loop f attempts true s x
                    end
                  else Some (Err err, s, x)
              end
          end
      end
  end.

Definition with_connection (f : attempt_run) (attempts : list Attempt) (s : St) (x : X)
    : option (outcome text A * St * X) :=
  with_connection_loop f attempts false s x.

Definition with_transaction (body : callback) (attempts : list Attempt) (s : St) (x : X)
    : option (outcome text A * St * X) :=
  with_connection
    (fun a s x =>
       let '(r, s, x) := transactional_impl body false a s x in
       (match r with Err err => Err (strip_replayable_sql_error err) | r => r end, s, x))
    attempts s x.

End attempts.
Arguments Attempt : clear implicits.
Arguments callback : clear implicits.
Arguments attempt_run : clear implicits.

(** ** Prefixes *)

Lemma strip_prefix_app p s : strip_prefix p (p ++ s) = Some s.
Proof. induction p as [|c p IH]; [done|]. cbn. by rewrite bool_decide_eq_true_2. Qed.

Lemma strip_replayable err : strip_replayable_sql_error (replayable_sql_error err) = err.
Proof. unfold strip_replayable_sql_error, replayable_sql_error. by rewrite strip_prefix_app. Qed.

Lemma strip_plain err : is_replayable_error err = false -> strip_replayable_sql_error err = err.
Proof.
  unfold is_replayable_error, text_starts_with, strip_replayable_sql_error. intros H.
  apply bool_decide_eq_false in H. apply eq_None_not_Some in H. by rewrite H.
Qed.

(** ** How often a transaction takes effect *)

Section effects.
Context {St X A : Type} (effects : St -> nat).

(** Other clients do not touch what is counted. *)
Definition others_keep {B} (view : St -> B) (attempts : list (Attempt St)) : Prop :=
  Forall (fun a => forall s, view (at_others a s) = view s) attempts.

(** A run of the callback that succeeds takes effect once. *)
Definition effective (body : callback St X A) : Prop :=
  forall s x v s' x', body s x = (Ok (v, s'), x') -> effects s' = S (effects s).

(** The outcome of one attempt: nothing happened, or the callback took effect. *)
Lemma attempt_effects body replay a s x r s' x' :
  effective body -> transactional_impl body replay a s x = (r, s', x') ->
  match r with
  | Ok _ => effects s' = S (effects s)
  | Err err => s' = s \/
      (effects s' = S (effects s) /\ exists e, at_commit a = Some (e, true) /\
       err = if replay && is_retryable_connection_error (at_conn_ok a) e then replayable_sql_error_once e else e)
  | Panic => s' = s
  end.
Proof.
  intros Hb. unfold transactional_impl. destruct (at_admission a); [intros [= <- <- <-]; auto|].
  destruct (at_begin a); [intros [= <- <- <-]; auto|]. destruct (body s x) as [r0 x0] eqn:E.
  destruct (at_body a) as [err|]; [intros [= <- <- <-]; auto|].
  destruct r0 as [[v s1]|err|]; [|intros [= <- <- <-]; auto..].
  apply Hb in E. destruct (at_commit a) as [[err []]|]; intros [= <- <- <-]; eauto 10.
Qed.

End effects.

(** The rule for the loop: [I b] holds before every attempt, [b] telling whether the
    one repetition has been used; [R] is what holds of the result. *)
Lemma loop_rule {St X A} (I : bool -> St -> Prop) (R : outcome text A -> St -> Prop)
    (f : attempt_run St X A) attempts :
  (forall a b s, a ∈ attempts -> I b s -> I b (at_others a s)) ->
  (forall b s e, I b s -> R (Err e) s) ->
  (forall a b s x r s' x', a ∈ attempts -> I b s -> f a s x = (r, s', x') ->
     (forall e, R (Err e) s') /\
     match r with
     | Err e => is_replayable_error e = true -> b = false -> I true s'
     | r => R r s'
     end) ->
  forall b s x r s' x', I b s -> with_connection_loop f attempts b s x = Some (r, s', x') -> R r s'.
Proof.
  induction attempts as [|a attempts IH]; intros Ho He Hf b s x r s' x' HI; [done|].
  assert (IH' := IH (fun a0 b s Hin => Ho a0 b s (list_elem_of_further _ _ _ Hin)) He
                   (fun a0 b s x r s' x' Hin => Hf a0 b s x r s' x' (list_elem_of_further _ _ _ Hin))).
  apply (Ho a b s (list_elem_of_here _ _)) in HI. cbn [with_connection_loop]. revert HI.
  generalize (at_others a s). clear s. intros s HI.
  destruct (at_acquire a); [intros [= <- <- <-]; eauto|].
  destruct (at_stale a); [destruct (at_return a); [intros [= <- <- <-]; eauto|by apply IH']|].
  destruct (f a s x) as [[r0 s0] x0] eqn:E.
  destruct (Hf a b s x r0 s0 x0 (list_elem_of_here _ _) HI E) as [HR H0]. destruct r0 as [v|err|].
  - destruct (at_return a); by intros [= <- <- <-].
  - destruct (at_cleanup a); [by intros [= <- <- <-]|].
    destruct (is_replayable_error err), b; cbn [andb negb]; try (by intros [= <- <- <-]).
    destruct (at_mark a); [by intros [= <- <- <-]|]. apply IH'. auto.
  - by intros [= <- <- <-].
Qed.

Lemma others_keep_in {St B} (view : St -> B) attempts a s :
  others_keep view attempts -> a ∈ attempts -> view (at_others a s) = view s.
Proof. intros H Hin. exact (proj1 (Forall_forall _ _) H a Hin s). Qed.

(** C20: A transaction with a probe takes effect exactly once. Suppose the probe tells
    whether the request has taken effect and with which value, and a successful run
    of the body records its value. Then, whatever fails and whether or not a COMMIT
    whose acknowledgement was lost took effect, the request takes effect at most
    once; if the caller is told [Ok], it has taken effect once, with that value; and
    the recorded outcome tells for every other answer whether it has. *)
Theorem replay_confirmed_exactly_once {St X A} (effects : St -> nat) (done : St -> option A)
    (body : callback St X A) attempts s x r s' x' :
  (forall s x v s' x', body s x = (Ok (v, s'), x') -> effects s' = S (effects s) /\ done s' = Some v) ->
  others_keep effects attempts -> others_keep done attempts -> done s = None ->
  with_connection (transactional_replay_confirmed (fun s => Ok (done s)) body) attempts s x = Some (r, s', x') ->
  effects s' = (match done s' with Some _ => 1 | None => 0 end + effects s)%nat /\
  forall v, r = Ok v -> done s' = Some v.
Proof.
  intros Hb Ho1 Ho2 Hd H. pose (Q t := effects t = (match done t with Some _ => 1 | None => 0 end + effects s)%nat).
  refine (loop_rule (fun _ => Q) (fun r t => Q t /\ forall v, r = Ok v -> done t = Some v) _ attempts
            _ _ _ false s x r s' x' _ H).
  - intros a _ t Hin. unfold Q. by rewrite (others_keep_in effects _ a t Ho1 Hin), (others_keep_in done _ a t Ho2 Hin).
  - done.
  - intros a b t y r1 t' y' _ HQ. unfold transactional_replay_confirmed, transactional_replayable,
      transactional_impl, confirmed_body.
    destruct (at_admission a); [by intros [= <- <- <-]|]. destruct (at_begin a); [by intros [= <- <- <-]|].
    assert (Hrun : forall v t1 y1, (match done t with Some v => (Ok (v, t), y) | None => body t y end)
                     = (Ok (v, t1), y1) -> Q t1 /\ done t1 = Some v).
    { intros v t1 y1. destruct (done t) as [w|] eqn:Ew; [by intros [= <- <- <-]|]. intros E.
      apply Hb in E as [E1 E2]. split; [|done]. unfold Q in *. rewrite Ew in HQ. rewrite E1, E2, HQ. done. }
    destruct (match done t with Some v => (Ok (v, t), y) | None => body t y end) as [r0 y0].
    destruct (at_body a); [by intros [= <- <- <-]|].
    destruct r0 as [[v t1]| |]; [|by intros [= <- <- <-]..]. destruct (Hrun v t1 y0 eq_refl) as [HQ1 Hd1].
    destruct (at_commit a) as [[e []]|]; intros [= <- <- <-]; try done.
    split; [done|]. split; [done|]. by intros w [= <-].
  - unfold Q. by rewrite Hd.
Qed.

(** C31: A transaction of [with_transaction] takes effect at most once, and exactly once
    if the caller is told [Ok]: a COMMIT whose acknowledgement is lost is not
    repeated. The text of a failed COMMIT does not carry the mark of a repeatable
    statement. *)
Theorem with_transaction_at_most_once {St X A} (effects : St -> nat) (body : callback St X A)
    attempts s x r s' x' :
  effective effects body -> others_keep effects attempts ->
  Forall (fun a => forall e applied, at_commit a = Some (e, applied) -> is_replayable_error e = false) attempts ->
  with_transaction body attempts s x = Some (r, s', x') ->
  (effects s <= effects s' <= S (effects s))%nat /\ forall v, r = Ok v -> effects s' = S (effects s).
Proof.
  intros Hb Ho Hc H.
  refine (loop_rule (fun _ t => effects t = effects s)
    (fun r t => (effects s <= effects t <= S (effects s))%nat /\ forall v, r = Ok v -> effects t = S (effects s))
    _ attempts _ _ _ false s x r s' x' eq_refl H).
  - intros a _ t Hin Ht. by rewrite (others_keep_in effects _ a t Ho Hin).
  - intros _ t e Ht. split; [lia|done].
  - intros a b t y r1 t' y' Hin Ht. destruct (transactional_impl body false a t y) as [[r0 t0] y0] eqn:E.
    apply (attempt_effects effects _ _ _ _ _ _ _ _ Hb) in E. intros [= <- <- <-]. destruct r0 as [v|err|].
    + split; [intros e; split; [lia|done]|]. split; [lia|]. intros; lia.
    + destruct E as [->|(E & e & Ec & ->)]; [split; [intros; split; [lia|done]|done]|]. cbn [andb].
      split; [intros; split; [lia|done]|]. pose proof (proj1 (Forall_forall _ _) Hc a Hin e true Ec) as Hp.
      rewrite strip_plain by done. congruence.
    + subst t0. split; [intros; split; [lia|done]|]. split; [lia|done].
Qed.

Lemma replayable_effects {St X A} (effects : St -> nat) (body : callback St X A) attempts s x r s' x' :
  effective effects body -> others_keep effects attempts ->
  with_connection (transactional_replayable body) attempts s x = Some (r, s', x') ->
  (effects s <= effects s' <= 2 + effects s)%nat /\ forall v, r = Ok v -> (S (effects s) <= effects s')%nat.
Proof.
  intros Hb Ho H.
  refine (loop_rule (fun b t => (effects s <= effects t <= (if b : bool then 1 else 0) + effects s)%nat)
    (fun r t => (effects s <= effects t <= 2 + effects s)%nat /\ forall v, r = Ok v -> (S (effects s) <= effects t)%nat)
    _ attempts _ _ _ false s x r s' x' _ H).
  - intros a b t Hin Ht. by rewrite (others_keep_in effects _ a t Ho Hin).
  - intros b t e Ht. split; [destruct b; lia|done].
  - intros a b t y r1 t' y' Hin Ht E. apply (attempt_effects effects _ _ _ _ _ _ _ _ Hb) in E.
    destruct r1 as [v|err|]; [| |subst t'].
    + split; [intros e; split; [destruct b; lia|done]|]. split; [destruct b; lia|]. intros; lia.
    + assert (effects t' <= S (effects t) /\ effects t <= effects t')%nat by (destruct E as [->|[-> _]]; lia).
      split; [intros e; split; [destruct b; lia|done]|]. intros _ ->. lia.
    + split; [intros e; split; [destruct b; lia|done]|]. split; [destruct b; lia|done].
  - lia.
Qed.

(** The loop ends: it returns a result as soon as it has been given two connections
    that belong to the current primary, whatever else happens. *)
Theorem with_connection_returns {St X A} (f : attempt_run St X A) attempts s x :
  (2 <= length (filter (fun a => at_stale a = false) attempts))%nat ->
  is_Some (with_connection f attempts s x).
Proof.
  unfold with_connection. intros H.
  assert (Hg : forall b s x, ((if b : bool then 1 else 2) <= length (filter (fun a => at_stale a = false) attempts))%nat ->
    is_Some (with_connection_loop f attempts b s x)).
  { clear. induction attempts as [|a attempts IH]; intros b s x; [destruct b; cbn; lia|].
    rewrite filter_cons. cbn [with_connection_loop]. destruct (at_acquire a); [done|].
    destruct (at_stale a); [rewrite decide_False by done; destruct (at_return a); [done|apply IH]|].
    rewrite decide_True by done. cbn [length]. intros Hlen. destruct (f a (at_others a s) x) as [[[v|err|] s0] x0];
      [by destruct (at_return a)| |done].
    destruct (at_cleanup a); [done|]. destruct (is_replayable_error err), b; cbn [andb negb]; try done.
    destruct (at_mark a); [done|]. apply IH. lia. }
  by apply Hg.
Qed.

(** ** Examples *)

(** A database with a counter and a receipt, and a count of mails sent. *)
Definition counter_db : Type := nat * option nat.

Definition send_and_count : callback counter_db nat nat :=
  fun s x => (Ok (S s.1, (S s.1, Some (S s.1))), S x).

Definition calm : Attempt counter_db :=
  {| at_others := fun s => s; at_acquire := None; at_stale := false; at_admission := None; at_begin := None;
     at_body := None; at_commit := None; at_conn_ok := true; at_return := None; at_cleanup := None; at_mark := None |}.

Definition closed_text : text := txt "server closed the connection unexpectedly".

(** The acknowledgement of a COMMIT that took effect is lost. *)
Definition lost_ack : Attempt counter_db :=
  {| at_others := fun s => s; at_acquire := None; at_stale := false; at_admission := None; at_begin := None;
     at_body := None; at_commit := Some (exec_command_error false (txt "COMMIT") closed_text, true);
     at_conn_ok := false; at_return := None; at_cleanup := None; at_mark := None |}.

(** The connection is lost in a DELETE of the callback. *)
Definition lost_delete : Attempt counter_db :=
  {| at_others := fun s => s; at_acquire := None; at_stale := false; at_admission := None; at_begin := None;
     at_body := Some (exec_command_error false (txt "DELETE FROM lock_wait_edges WHERE waiter_pid = 7") closed_text);
     at_commit := None; at_conn_ok := false; at_return := None; at_cleanup := None; at_mark := None |}.

(** What the probe is for: after a lost acknowledgement a transaction that is
    repeated without one can take effect twice, and never more often. *)
Theorem replay_without_probe_doubles :
  (exists attempts, with_connection (transactional_replayable send_and_count) attempts (0, None)%nat 0%nat
                    = Some (Ok 2, (2, Some 2), 2)%nat) /\
  (forall attempts x r s' x', others_keep fst attempts ->
     with_connection (transactional_replayable send_and_count) attempts (0, None)%nat x = Some (r, s', x') ->
     (s'.1 <= 2)%nat).
Proof.
  split; [exists [lost_ack; calm]; vm_compute; reflexivity|]. intros attempts x r s' x' Ho H.
  apply (replayable_effects fst) in H as [[_ H] _]; [done| |done]. by intros s y v t y' [= <- <- <-].
Qed.

(** [with_transaction] can run its callback twice: the connection is lost in a
    statement of the callback that marks its error as repeatable, the transaction
    adds the mark a second time, [with_transaction] removes one of the two, and the
    loop repeats the callback because of the other; its effects outside the database
    happen twice. *)
Theorem with_transaction_repeats_callback :
  with_transaction send_and_count [lost_delete; calm] (0, None)%nat 0%nat = Some (Ok 1, (1, Some 1), 2)%nat.
Proof. vm_compute. reflexivity. Qed.

Lemma replay_confirmed_exactly_once_witness :
  with_connection (transactional_replay_confirmed (fun s => Ok s.2) send_and_count) [lost_ack; calm] (0, None)%nat 0%nat
    = Some (Ok 1, (1, Some 1), 1)%nat /\ (1, Some 1).2 = Some 1%nat.
Proof.
  assert (E : with_connection (transactional_replay_confirmed (fun s => Ok s.2) send_and_count) [lost_ack; calm]
                (0, None)%nat 0%nat = Some (Ok 1, (1, Some 1), 1)%nat) by (vm_compute; reflexivity).
  split; [exact E|].
  refine (proj2 (replay_confirmed_exactly_once fst snd send_and_count [lost_ack; calm] (0, None)%nat 0%nat (Ok 1%nat)
    (1, Some 1)%nat 1%nat _ _ _ eq_refl E) 1%nat eq_refl).
  - by intros s x v s' x' [= <- <- <-].
  - by repeat constructor.
  - by repeat constructor.
Defined.

Lemma with_transaction_at_most_once_witness :
  (0 <= 1 <= 1)%nat /\ with_transaction send_and_count [lost_ack; calm] (0, None)%nat 0%nat
    = Some (Err closed_text, (1, Some 1), 1)%nat.
Proof.
  assert (E : with_transaction send_and_count [lost_ack; calm] (0, None)%nat 0%nat
    = Some (Err closed_text, (1, Some 1), 1)%nat) by (vm_compute; reflexivity).
  split; [|exact E].
  refine (proj1 (with_transaction_at_most_once fst send_and_count [lost_ack; calm] (0, None)%nat 0%nat (Err closed_text)
    (1, Some 1)%nat 1%nat _ _ _ E)).
  - by intros s x v s' x' [= <- <- <-].
  - by repeat constructor.
  - repeat constructor; intros e b [= <- <-]; vm_compute; reflexivity.
Defined.

Lemma with_connection_returns_witness :
  is_Some (with_connection (transactional_replayable send_and_count) [lost_ack; calm] (0, None)%nat 0%nat).
Proof. apply (with_connection_returns (transactional_replayable send_and_count)). vm_compute. lia. Defined.
