(* ===== verification/ConnPool.v ===== *)
(** * Transaction admission and the connection pool

    Model of [TransactionAdmissionGate] and [SharedConnectionPool] of
    src/rust_hotpath/src/pg.rs: the ticket queue that bounds the transactions of a
    lane, and the pool of cached connections with its condition variable. Each
    operation runs under the mutex of its state and is one function; threads that
    sleep are counted beside it. Time measurements, which no decision depends on,
    are left out, and mutexes are never poisoned. *)

From stdpp Require Import prelude list numbers strings relations.
From Stdlib Require Import ZArith Lia.
From S2P Require Import Prelude.

#[local] Open Scope Z_scope.
Set Default Proof Using "Type".

(** ** Admission *)

(** [waiters] are the tickets in the queue, oldest first. *)
Record TransactionAdmissionState := {
  ga_active : Z;
  ga_queued : Z;
  ga_peak_active : Z;
  ga_peak_queued : Z;
  ga_next_ticket : Z;
  ga_serving_ticket : Z;
  ga_waiters : list Z;
  ga_admission_count : Z;
  ga_backpressure_events : Z;
  ga_fairness_yields : Z;
  ga_accounting_errors : Z;
}.

Definition gate_default : TransactionAdmissionState :=
  {| ga_active := 0; ga_queued := 0; ga_peak_active := 0; ga_peak_queued := 0; ga_next_ticket := 0;
     ga_serving_ticket := 0; ga_waiters := []; ga_admission_count := 0; ga_backpressure_events := 0;
     ga_fairness_yields := 0; ga_accounting_errors := 0 |}.

(** The waiter to wake, if there is room for one. *)
Definition reserve_next_waiter (limit : Z) (state : TransactionAdmissionState)
    : option Z * TransactionAdmissionState :=
  if limit <=? ga_active state then (None, state)
  else match ga_waiters state with
       | [] => (None, state)
       | ticket :: waiters =>
           let in_turn := ticket =? ga_serving_ticket state in
           let serving := if in_turn then ga_serving_ticket state else ticket in
           let errors := if in_turn then ga_accounting_errors state else sat_add (ga_accounting_errors state) 1 in
           let '(queued, errors) := match checked_sub (ga_queued state) 1 with
                                    | Some queued => (queued, errors)
                                    | None => (ga_queued state, sat_add errors 1)
                                    end in
           let active := sat_add (ga_active state) 1 in
           (Some ticket,
            {| ga_active := active; ga_queued := queued; ga_peak_active := Z.max (ga_peak_active state) active;
               ga_peak_queued := ga_peak_queued state; ga_next_ticket := ga_next_ticket state;
               ga_serving_ticket := wrap_add serving 1; ga_waiters := waiters;
               ga_admission_count := sat_add (ga_admission_count state) 1;
               ga_backpressure_events := ga_backpressure_events state;
               ga_fairness_yields := ga_fairness_yields state; ga_accounting_errors := errors |})
       end.

(** The part of [acquire] under the mutex, for a limit above zero: the ticket drawn
    and the waiter to wake. The caller then waits for its own ticket to be woken. *)
Definition gate_acquire (limit : Z) (state : TransactionAdmissionState)
    : Z * option Z * TransactionAdmissionState :=
  let ticket := ga_next_ticket state in
  let had_older_waiter := negb (bool_decide (ga_waiters state = [])) in
  let capacity_full := limit <=? ga_active state in
  let queued := sat_add (ga_queued state) 1 in
  let state :=
    {| ga_active := ga_active state; ga_queued := queued; ga_peak_active := ga_peak_active state;
       ga_peak_queued := Z.max (ga_peak_queued state) queued;
       ga_next_ticket := wrap_add (ga_next_ticket state) 1; ga_serving_ticket := ga_serving_ticket state;
       ga_waiters := ga_waiters state ++ [ticket]; ga_admission_count := ga_admission_count state;
       ga_backpressure_events :=
         if capacity_full || had_older_waiter then sat_add (ga_backpressure_events state) 1
         else ga_backpressure_events state;
       ga_fairness_yields :=
         if had_older_waiter then sat_add (ga_fairness_yields state) 1 else ga_fairness_yields state;
       ga_accounting_errors := ga_accounting_errors state |} in
  let '(waiter_to_wake, state) := reserve_next_waiter limit state in
  (ticket, waiter_to_wake, state).

Definition set_active (active errors : Z) (state : TransactionAdmissionState) : TransactionAdmissionState :=
  {| ga_active := active; ga_queued := ga_queued state; ga_peak_active := ga_peak_active state;
     ga_peak_queued := ga_peak_queued state; ga_next_ticket := ga_next_ticket state;
     ga_serving_ticket := ga_serving_ticket state; ga_waiters := ga_waiters state;
     ga_admission_count := ga_admission_count state; ga_backpressure_events := ga_backpressure_events state;
     ga_fairness_yields := ga_fairness_yields state; ga_accounting_errors := errors |}.

(** Dropping a permit that was acquired. *)
Definition permit_drop (limit : Z) (state : TransactionAdmissionState) : option Z * TransactionAdmissionState :=
  match checked_sub (ga_active state) 1 with
  | None => (None, set_active (ga_active state) (sat_add (ga_accounting_errors state) 1) state)
  | Some active => reserve_next_waiter limit (set_active active (ga_accounting_errors state) state)
  end.

(** *** Histories of a gate *)

(** The tickets drawn, the tickets woken and the number of permits dropped. *)
Record gate_history := {
  gh_state : TransactionAdmissionState;
  gh_drawn : list Z;
  gh_woken : list Z;
  gh_dropped : Z;
}.

Definition gate_start : gate_history :=
  {| gh_state := gate_default; gh_drawn := []; gh_woken := []; gh_dropped := 0 |}.

(** A permit is dropped by a thread that was woken, once; there are fewer than 2^64
    waiting threads. *)
Inductive gate_step (limit : Z) : gate_history -> gate_history -> Prop :=
| gate_step_acquire h ticket woken state' :
    zlen (ga_waiters (gh_state h)) < U64_MAX ->
    gate_acquire limit (gh_state h) = (ticket, woken, state') ->
    gate_step limit h {| gh_state := state'; gh_drawn := gh_drawn h ++ [ticket];
                         gh_woken := gh_woken h ++ option_list woken; gh_dropped := gh_dropped h |}
| gate_step_drop h woken state' :
    gh_dropped h < zlen (gh_woken h) ->
    permit_drop limit (gh_state h) = (woken, state') ->
    gate_step limit h {| gh_state := state'; gh_drawn := gh_drawn h;
                         gh_woken := gh_woken h ++ option_list woken; gh_dropped := gh_dropped h + 1 |}.

(** Consecutive tickets, modulo 2^64. *)
Fixpoint tickets_from (t : Z) (ts : list Z) : Prop :=
  match ts with
  | [] => True
  | t' :: ts => t' = t /\ tickets_from (wrap_add t 1) ts
  end.

Definition ticket_after (t : Z) (ts : list Z) : Z := foldl (fun t _ => wrap_add t 1) t ts.

(** What holds before the next waiter is chosen; [gate_inv] adds that nobody waits
    while there is room. *)
Record gate_pre (limit : Z) (h : gate_history) : Prop := {
  gi_order : gh_drawn h = gh_woken h ++ ga_waiters (gh_state h);
  gi_active : ga_active (gh_state h) = zlen (gh_woken h) - gh_dropped h;
  gi_bound : 0 <= ga_active (gh_state h) <= limit;
  gi_peak : ga_peak_active (gh_state h) <= limit;
  gi_queued : ga_queued (gh_state h) = zlen (ga_waiters (gh_state h)) /\ zlen (ga_waiters (gh_state h)) <= U64_MAX;
  gi_tickets : tickets_from (ga_serving_ticket (gh_state h)) (ga_waiters (gh_state h));
  gi_next : ga_next_ticket (gh_state h) = ticket_after (ga_serving_ticket (gh_state h)) (ga_waiters (gh_state h));
  gi_errors : ga_accounting_errors (gh_state h) = 0;
}.

Definition gate_inv (limit : Z) (h : gate_history) : Prop :=
  gate_pre limit h /\ (ga_waiters (gh_state h) <> [] -> ga_active (gh_state h) = limit).

Lemma tickets_snoc t ts : tickets_from t ts -> tickets_from t (ts ++ [ticket_after t ts]).
Proof. revert t. induction ts as [|u ts IH]; intros t; [done|]. intros [-> H]. split; [done|by apply IH]. Qed.

Lemma ticket_after_snoc t ts u : ticket_after t (ts ++ [u]) = wrap_add (ticket_after t ts) 1.
Proof. unfold ticket_after. by rewrite foldl_app. Qed.

Definition woke (h : gate_history) (r : option Z * TransactionAdmissionState) : gate_history :=
  {| gh_state := r.2; gh_drawn := gh_drawn h; gh_woken := gh_woken h ++ option_list r.1; gh_dropped := gh_dropped h |}.

Lemma reserve_inv limit h :
  1 <= limit <= U64_MAX -> gate_pre limit h ->
  (ga_waiters (gh_state h) <> [] -> zlen (ga_waiters (gh_state h)) = 1 \/ limit - 1 <= ga_active (gh_state h)) ->
  gate_inv limit (woke h (reserve_next_waiter limit (gh_state h))).
Proof.
  intros Hlim Hp Hb. destruct (Hp) as [Hord Hact Hbound Hpeak [Hq Hmax] Ht Hn He].
  unfold reserve_next_waiter, woke. destruct (Z.leb_spec limit (ga_active (gh_state h))) as [Hfull|Hroom].
  - split; [|cbn; lia]. destruct Hp. split; cbn; rewrite ?app_nil_r; auto.
  - destruct (ga_waiters (gh_state h)) as [|t ts] eqn:Ew.
    { split; [|cbn; by rewrite Ew]. split; cbn; rewrite ?app_nil_r, ?Ew; auto. }
    destruct Ht as [-> Ht]. rewrite Z.eqb_refl. rewrite zlen_cons in Hq, Hmax. rewrite zlen_cons in Hb.
    pose proof (zlen_nonneg ts) as Hts.
    assert (checked_sub (ga_queued (gh_state h)) 1 = Some (zlen ts)) as ->.
    { unfold checked_sub. rewrite (proj2 (Z.leb_le _ _)) by lia. f_equal. lia. }
    assert (Hsat : sat_add (ga_active (gh_state h)) 1 = ga_active (gh_state h) + 1) by (unfold sat_add; lia).
    cbn. rewrite Hsat. split.
    + split; cbn; try lia; try done; [by rewrite Hord, <- app_assoc|].
      rewrite zlen_app. change (zlen [_]) with 1. lia.
    + cbn. intros Hne. destruct (Hb ltac:(done)) as [H1|H1]; [|lia].
      destruct ts; [done|]. rewrite zlen_cons in H1. pose proof (zlen_nonneg ts). lia.
Qed.

Lemma gate_step_inv limit h h' : 1 <= limit <= U64_MAX -> gate_inv limit h -> gate_step limit h h' -> gate_inv limit h'.
Proof.
  intros Hlim [[Hord Hact Hbound Hpeak [Hq Hmax] Ht Hn He] Hbusy] Hstep.
  destruct Hstep as [h ticket woken state' Hlen Hacq|h woken state' Hdrop Hacq].
  - unfold gate_acquire in Hacq. cbv zeta in Hacq.
    destruct (reserve_next_waiter _ _) as [w st] eqn:E in Hacq. injection Hacq as <- <- <-.
    set (st0 := {| ga_active := _ |}) in E.
    pose proof (reserve_inv limit {| gh_state := st0; gh_drawn := gh_drawn h ++ [ga_next_ticket (gh_state h)];
      gh_woken := gh_woken h; gh_dropped := gh_dropped h |} Hlim) as H. cbn [gh_state] in H. rewrite E in H.
    apply H; [split; cbn|cbn].
    + by rewrite Hord, <- app_assoc.
    + done.
    + done.
    + done.
    + rewrite zlen_app, zlen_cons, zlen_nil. pose proof (zlen_nonneg (ga_waiters (gh_state h))). unfold sat_add. lia.
    + rewrite Hn. by apply tickets_snoc.
    + by rewrite ticket_after_snoc, Hn.
    + done.
    + intros _. destruct (ga_waiters (gh_state h)) as [|t ts]; [by left|right]. rewrite Hbusy by done. lia.
  - unfold permit_drop, checked_sub in Hacq. rewrite (proj2 (Z.leb_le _ _)) in Hacq by lia.
    set (st0 := set_active _ _ _) in Hacq.
    pose proof (reserve_inv limit {| gh_state := st0; gh_drawn := gh_drawn h; gh_woken := gh_woken h;
      gh_dropped := gh_dropped h + 1 |} Hlim) as H. cbn [gh_state] in H. rewrite Hacq in H.
    apply H; [split; cbn; try done; try lia|cbn]. intros Hne. right. rewrite Hbusy by done. lia.
Qed.

Lemma gate_inv_start limit : 1 <= limit -> gate_inv limit gate_start.
Proof. intros H. split; [|done]. split; cbn; try done; try lia. Qed.

(** C38: The admission gate is a fair semaphore. In every history of a gate with a limit,
    threads are admitted in the order in which they drew their tickets and none is
    overtaken; at most [limit] transactions run at any time, as the peak counter
    records; nobody waits while there is room; and the gate never finds its own
    accounts wrong, also when the tickets wrap around. *)
Theorem admission_fair_and_bounded limit h :
  1 <= limit <= U64_MAX -> rtc (gate_step limit) gate_start h ->
  gh_drawn h = gh_woken h ++ ga_waiters (gh_state h) /\
  ga_active (gh_state h) = zlen (gh_woken h) - gh_dropped h /\
  0 <= ga_active (gh_state h) <= limit /\ ga_peak_active (gh_state h) <= limit /\
  (ga_waiters (gh_state h) <> [] -> ga_active (gh_state h) = limit) /\
  ga_accounting_errors (gh_state h) = 0.
Proof.
  intros Hlim Hr.
  assert (Hi : gate_inv limit h).
  { pose proof (gate_inv_start limit ltac:(lia)) as H0. revert H0. induction Hr as [|h1 h2 h3 Hs _ IH]; [done|].
    intros Hi. apply IH. by eapply gate_step_inv. }
  destruct Hi as [[] ?]. auto 10.
Qed.

(** ** The connection pool *)

Inductive ConnectionLane := Write | Control.

Definition lane_other (lane : ConnectionLane) : ConnectionLane :=
  match lane with Write => Control | Control => Write end.

Record CachedConnection := { cc_conn : Z; cc_generation : Z }.

(** The fields that decide; the cached connections are stacks, last pushed first. *)
Record SharedConnectionPoolState := {
  sp_cached_conn : list CachedConnection;
  sp_control_cached_conn : list CachedConnection;
  sp_live : Z;
  sp_active : Z;
  sp_queued : Z;
}.

Definition pool_default : SharedConnectionPoolState :=
  {| sp_cached_conn := []; sp_control_cached_conn := []; sp_live := 0; sp_active := 0; sp_queued := 0 |}.

Definition lane_cache (lane : ConnectionLane) (st : SharedConnectionPoolState) : list CachedConnection :=
  match lane with Write => sp_cached_conn st | Control => sp_control_cached_conn st end.

Definition set_lane (lane : ConnectionLane) (cache : list CachedConnection) (live : Z) (st : SharedConnectionPoolState)
    : SharedConnectionPoolState :=
  match lane with
  | Write => {| sp_cached_conn := cache; sp_control_cached_conn := sp_control_cached_conn st; sp_live := live;
                sp_active := sp_active st; sp_queued := sp_queued st |}
  | Control => {| sp_cached_conn := sp_cached_conn st; sp_control_cached_conn := cache; sp_live := live;
                  sp_active := sp_active st; sp_queued := sp_queued st |}
  end.

Definition set_counts (live active queued : Z) (st : SharedConnectionPoolState) : SharedConnectionPoolState :=
  {| sp_cached_conn := sp_cached_conn st; sp_control_cached_conn := sp_control_cached_conn st;
     sp_live := live; sp_active := active; sp_queued := queued |}.

(** The loop of [take_cached]: the connection found, what is left of the stack and
    the number of live connections. *)
Fixpoint take_cached_loop (generation : Z) (cache : list CachedConnection) (live : Z)
    : outcome string (option CachedConnection * list CachedConnection * Z) :=
  match cache with
  | [] => Ok (None, [], live)
  | cached :: cache =>
      if cc_generation cached =? generation then Ok (Some cached, cache, live)
      else match checked_sub live 1 with
           | None => Err "connection pool live connection underflow"%string
           | Some live => take_cached_loop generation cache live
           end
  end.

Definition take_cached (lane : ConnectionLane) (generation : Z) (st : SharedConnectionPoolState)
    : outcome string (option CachedConnection * SharedConnectionPoolState) :=
  '(found, cache, live) ← take_cached_loop generation (lane_cache lane st) (sp_live st);
  Ok (found, set_lane lane cache live st).

Definition push_cached (lane : ConnectionLane) (conn generation : Z) (st : SharedConnectionPoolState)
    : SharedConnectionPoolState :=
  set_lane lane ({| cc_conn := conn; cc_generation := generation |} :: lane_cache lane st) (sp_live st) st.

Definition finish_acquisition (queued : bool) (st : SharedConnectionPoolState)
    : outcome string SharedConnectionPoolState :=
  let active := sat_add (sp_active st) 1 in
  if queued then
    match checked_sub (sp_queued st) 1 with
    | None => Err "connection pool queued acquisition underflow"%string
    | Some q => Ok (set_counts (sp_live st) active q st)
    end
  else Ok (set_counts (sp_live st) active (sp_queued st) st).

Definition release_active (st : SharedConnectionPoolState) : outcome string SharedConnectionPoolState :=
  match checked_sub (sp_active st) 1 with
  | None => Err "connection pool active connection underflow"%string
  | Some active => Ok (set_counts (sp_live st) active (sp_queued st) st)
  end.

Definition release_live (st : SharedConnectionPoolState) : outcome string SharedConnectionPoolState :=
  match checked_sub (sp_live st) 1 with
  | None => Err "connection pool live connection underflow"%string
  | Some live => Ok (set_counts live (sp_active st) (sp_queued st) st)
  end.

Inductive ConnectionAcquisition :=
| Cached (conn generation : Z)
| ReservedSlot.

(** One iteration of the loop of [acquire]; without a connection the thread sleeps on
    the condition variable and is counted as queued from its first sleep on. *)
Definition acquire_iteration (limit : Z) (lane : ConnectionLane) (generation : Z) (queued : bool)
    (st : SharedConnectionPoolState) : outcome string (option ConnectionAcquisition * SharedConnectionPoolState) :=
  '(found, st) ← take_cached lane generation st;
  match found with
  | Some c => st ← finish_acquisition queued st; Ok (Some (Cached (cc_conn c) (cc_generation c)), st)
  | None =>
      '(found, st) ← take_cached (lane_other lane) generation st;
      match found with
      | Some c => st ← finish_acquisition queued st; Ok (Some (Cached (cc_conn c) (cc_generation c)), st)
      | None =>
          if sp_live st <? limit then
            st ← finish_acquisition queued (set_counts (wrap_add (sp_live st) 1) (sp_active st) (sp_queued st) st);
            Ok (Some ReservedSlot, st)
          else
            Ok (None, if queued then st else set_counts (sp_live st) (sp_active st) (sat_add (sp_queued st) 1) st)
      end
  end.

(** The three releases all end with [notify_one]. *)
Definition return_cached (lane : ConnectionLane) (conn generation current_generation : Z)
    (st : SharedConnectionPoolState) : outcome string (bool * SharedConnectionPoolState) :=
  st ← release_active st;
  if generation =? current_generation then Ok (true, push_cached lane conn generation st)
  else st ← release_live st; Ok (false, st).

Definition release_failed_operation (st : SharedConnectionPoolState) : outcome string SharedConnectionPoolState :=
  st ← release_active st; release_live st.

(** The same on the counts, for a reserved slot whose connection failed. *)
Definition release_unconnected_slot (st : SharedConnectionPoolState) : outcome string SharedConnectionPoolState :=
  st ← release_active st; release_live st.

(** *** The threads around a pool *)

(** Threads asleep in [acquire], and threads that were woken and will look again. *)
Record PoolSystem := {
  py_pool : SharedConnectionPoolState;
  py_sleeping : Z;
  py_woken : Z;
}.

Definition pool_start : PoolSystem := {| py_pool := pool_default; py_sleeping := 0; py_woken := 0 |}.

Definition notify_one (s : PoolSystem) : PoolSystem :=
  if 0 <? py_sleeping s
  then {| py_pool := py_pool s; py_sleeping := py_sleeping s - 1; py_woken := py_woken s + 1 |}
  else s.

Definition with_pool (st : SharedConnectionPoolState) (s : PoolSystem) : PoolSystem :=
  {| py_pool := st; py_sleeping := py_sleeping s; py_woken := py_woken s |}.

Inductive pool_op :=
| OpAcquire (lane : ConnectionLane) (generation : Z)
| OpRetry (lane : ConnectionLane) (generation : Z)
| OpSpurious
| OpReturn (lane : ConnectionLane) (conn generation current_generation : Z)
| OpFailed
| OpUnconnected.

(** Only a woken thread looks again, only a holder gives a connection back, and there
    are fewer than 2^64 threads. *)
Definition op_enabled (op : pool_op) (s : PoolSystem) : bool :=
  match op with
  | OpAcquire _ _ => py_sleeping s + py_woken s <? U64_MAX
  | OpRetry _ _ => 0 <? py_woken s
  | OpSpurious => 0 <? py_sleeping s
  | OpReturn _ _ _ _ | OpFailed | OpUnconnected => 0 <? sp_active (py_pool s)
  end.

Definition sleeper (r : option ConnectionAcquisition) : Z := if r then 0 else 1.

Definition run_op (limit : Z) (op : pool_op) (s : PoolSystem) : outcome string PoolSystem :=
  match op with
  | OpAcquire lane generation =>
      '(r, st) ← acquire_iteration limit lane generation false (py_pool s);
      Ok {| py_pool := st; py_sleeping := py_sleeping s + sleeper r; py_woken := py_woken s |}
  | OpRetry lane generation =>
      '(r, st) ← acquire_iteration limit lane generation true (py_pool s);
      Ok {| py_pool := st; py_sleeping := py_sleeping s + sleeper r; py_woken := py_woken s - 1 |}
  | OpSpurious => Ok (notify_one s)
  | OpReturn lane conn generation current_generation =>
      '(_, st) ← return_cached lane conn generation current_generation (py_pool s);
      Ok (notify_one (with_pool st s))
  | OpFailed => st ← release_failed_operation (py_pool s); Ok (notify_one (with_pool st s))
  | OpUnconnected => st ← release_unconnected_slot (py_pool s); Ok (notify_one (with_pool st s))
  end.

Definition pool_step (limit : Z) (s s' : PoolSystem) : Prop :=
  exists op, op_enabled op s = true /\ run_op limit op s = Ok s'.

Definition idle (st : SharedConnectionPoolState) : Z := zlen (sp_cached_conn st) + zlen (sp_control_cached_conn st).

Definition counts_ok (limit : Z) (st : SharedConnectionPoolState) : Prop :=
  sp_live st = sp_active st + idle st /\ 0 <= sp_active st /\ sp_live st <= limit.

Record pool_inv (limit : Z) (s : PoolSystem) : Prop := {
  pi_counts : counts_ok limit (py_pool s);
  pi_threads : 0 <= py_sleeping s /\ 0 <= py_woken s;
  pi_queued : sp_queued (py_pool s) = py_sleeping s + py_woken s /\ sp_queued (py_pool s) <= U64_MAX;
  pi_wakeup : 0 < py_sleeping s -> 0 < sp_active (py_pool s) \/ 0 < py_woken s;
}.

Lemma checked_sub_1 x : 1 <= x -> checked_sub x 1 = Some (x - 1).
Proof. intros H. unfold checked_sub. by rewrite (proj2 (Z.leb_le _ _)) by lia. Qed.

Lemma take_cached_loop_spec generation cache live :
  zlen cache <= live ->
  exists found cache' live', take_cached_loop generation cache live = Ok (found, cache', live') /\
    live' <= live /\ live' - zlen cache' = live - zlen cache + (if found then 1 else 0) /\
    (found = None -> cache' = []).
Proof.
  revert live. induction cache as [|c cache IH]; intros live Hl; cbn [take_cached_loop].
  - eexists _, _, _. split; [done|]. cbn. split; [lia|]. split; [lia|done].
  - rewrite zlen_cons in *. pose proof (zlen_nonneg cache). destruct (cc_generation c =? generation).
    + eexists _, _, _. split; [done|]. cbn. split; [lia|]. split; [lia|done].
    + rewrite checked_sub_1 by lia. destruct (IH (live - 1)) as (f & c' & l' & E & H1 & H2 & H3); [lia|].
      exists f, c', l'. split; [done|]. split; [lia|]. split; [lia|done].
Qed.

Lemma take_cached_spec limit lane generation st :
  counts_ok limit st ->
  exists found st', take_cached lane generation st = Ok (found, st') /\
    sp_live st' <= limit /\ sp_active st' = sp_active st /\ sp_queued st' = sp_queued st /\
    sp_live st' = sp_active st + idle st' + (if found then 1 else 0) /\
    (found = None -> lane_cache lane st' = []) /\
    lane_cache (lane_other lane) st' = lane_cache (lane_other lane) st.
Proof.
  intros (Hl & Ha & Hlim). unfold idle in Hl.
  pose proof (zlen_nonneg (sp_cached_conn st)). pose proof (zlen_nonneg (sp_control_cached_conn st)).
  destruct (take_cached_loop_spec generation (lane_cache lane st) (sp_live st)) as (f & c & l & E & H1 & H2 & H3).
  { destruct lane; cbn; lia. }
  unfold take_cached. rewrite E. eexists f, _. split; [reflexivity|]. unfold idle.
  destruct lane; cbn in *; (split; [lia|]); (split; [done|]); (split; [done|]); (split; [lia|]); by split.
Qed.

Lemma finish_acquisition_spec queued st :
  (queued = true -> 1 <= sp_queued st) -> sp_active st < U64_MAX ->
  finish_acquisition queued st
  = Ok (set_counts (sp_live st) (sp_active st + 1) (sp_queued st - (if queued then 1 else 0)) st).
Proof.
  intros Hq Ha. unfold finish_acquisition, sat_add. rewrite Z.min_l by lia. destruct queued.
  - by rewrite checked_sub_1 by auto.
  - by rewrite Z.sub_0_r.
Qed.

(** An iteration never fails; afterwards a connection is in use, by this thread or,
    if it has to sleep, by another one. *)
Lemma acquire_iteration_spec limit lane generation queued st :
  1 <= limit <= U64_MAX -> counts_ok limit st -> 0 <= sp_queued st <= U64_MAX ->
  (queued = true -> 1 <= sp_queued st) -> (queued = false -> sp_queued st < U64_MAX) ->
  exists r st', acquire_iteration limit lane generation queued st = Ok (r, st') /\ counts_ok limit st' /\
    0 < sp_active st' /\
    sp_queued st' = sp_queued st + sleeper r - (if queued then 1 else 0).
Proof.
  intros Hlim Hc Hq Hq1 Hq2. destruct (Hc) as (_ & Ha & _). unfold acquire_iteration.
  destruct (take_cached_spec limit lane generation st Hc) as (f1 & s1 & -> & L1 & A1 & Q1 & C1 & N1 & O1). cbn [mbind outcome_bind].
  assert (Hi1 : 0 <= idle s1) by (unfold idle, zlen; lia).
  destruct f1 as [c|].
  { rewrite finish_acquisition_spec by (rewrite ?Q1, ?A1; auto; lia). eexists _, _. split; [reflexivity|].
    unfold counts_ok, idle in *. cbn in *. split; [lia|]. split; [lia|]. lia. }
  assert (Hc1 : counts_ok limit s1) by (unfold counts_ok; lia).
  destruct (take_cached_spec limit (lane_other lane) generation s1 Hc1) as (f2 & s2 & -> & L2 & A2 & Q2 & C2 & N2 & O2).
  cbn [mbind outcome_bind]. assert (Hi2 : 0 <= idle s2) by (unfold idle, zlen; lia).
  destruct f2 as [c|].
  { rewrite finish_acquisition_spec by (rewrite ?Q2, ?Q1, ?A2, ?A1; auto; lia). eexists _, _. split; [reflexivity|].
    unfold counts_ok, idle in *. cbn in *. split; [lia|]. split; [lia|]. lia. }
  assert (Hempty : idle s2 = 0).
  { specialize (N1 eq_refl). specialize (N2 eq_refl). unfold idle. destruct lane; cbn in *; rewrite N2, O2, N1; done. }
  destruct (Z.ltb_spec (sp_live s2) limit) as [Hlt|Hge].
  - assert (Hw : wrap_add (sp_live s2) 1 = sp_live s2 + 1) by (apply wrap_add_1; lia). rewrite Hw.
    rewrite finish_acquisition_spec by (cbn; rewrite ?Q2, ?Q1, ?A2, ?A1; auto; lia). eexists _, _. split; [reflexivity|].
    unfold counts_ok, idle in *. cbn in *. split; [lia|]. split; [lia|]. lia.
  - eexists _, _. split; [reflexivity|].
    destruct queued; unfold counts_ok, idle in *; cbn in *; unfold sat_add; (split; [lia|]); (split; [lia|]); lia.
Qed.

Lemma release_both limit st :
  counts_ok limit st -> 0 < sp_active st ->
  release_failed_operation st = Ok (set_counts (sp_live st - 1) (sp_active st - 1) (sp_queued st) st) /\
  counts_ok limit (set_counts (sp_live st - 1) (sp_active st - 1) (sp_queued st) st).
Proof.
  intros (Hl & Ha & Hlim) H. assert (0 <= idle st) by (unfold idle, zlen; lia).
  unfold release_failed_operation, release_active, release_live. rewrite checked_sub_1 by lia. cbn.
  rewrite checked_sub_1 by lia. split; [done|]. unfold counts_ok, idle in *. cbn. lia.
Qed.

Lemma return_cached_spec limit lane conn generation current st :
  counts_ok limit st -> 0 < sp_active st ->
  exists b st', return_cached lane conn generation current st = Ok (b, st') /\ counts_ok limit st' /\
    sp_queued st' = sp_queued st.
Proof.
  intros Hc H. destruct (release_both limit st Hc H) as [E Hc']. unfold release_failed_operation in E.
  unfold return_cached. destruct Hc as (Hl & Ha & Hlim). unfold release_active in *. rewrite checked_sub_1 in * by lia.
  cbn [mbind outcome_bind] in *. destruct (generation =? current).
  - eexists _, _. split; [reflexivity|]. split; [|by destruct lane]. unfold counts_ok, idle, push_cached in *.
    destruct lane; cbn; rewrite zlen_cons; lia.
  - rewrite E. eexists _, _. split; [reflexivity|]. by split.
Qed.

(** Waking one thread after a release. *)
Lemma notify_inv limit st s :
  counts_ok limit st -> sp_queued st = sp_queued (py_pool s) -> pool_inv limit s -> pool_inv limit (notify_one (with_pool st s)).
Proof.
  intros Hc Hq [_ [Hs Hw] [Hq1 Hq2] _]. unfold notify_one. cbn. destruct (Z.ltb_spec 0 (py_sleeping s)).
  - split; cbn; [done|lia|lia|]. lia.
  - split; cbn; [done|lia|lia|]. lia.
Qed.

Lemma run_op_inv limit op s :
  1 <= limit <= U64_MAX -> pool_inv limit s -> op_enabled op s = true ->
  exists s', run_op limit op s = Ok s' /\ pool_inv limit s'.
Proof.
  intros Hlim Hi He. destruct (Hi) as [Hc [Hs Hw] [Hq Hmax] Hwake].
  destruct op as [lane gen|lane gen| |lane conn gen cur| |]; cbn [op_enabled run_op] in *; apply Z.ltb_lt in He.
  - destruct (acquire_iteration_spec limit lane gen false (py_pool s)) as (r & st & -> & Hc' & Ha' & Hq'); [done|done|lia|done|lia|].
    eexists. split; [reflexivity|]. unfold sleeper in *. split; cbn; [done|destruct r; lia|destruct r; lia|by left].
  - destruct (acquire_iteration_spec limit lane gen true (py_pool s)) as (r & st & -> & Hc' & Ha' & Hq'); [done|done|lia|lia|done|].
    eexists. split; [reflexivity|]. unfold sleeper in *. split; cbn; [done|destruct r; lia|destruct r; lia|by left].
  - eexists. split; [reflexivity|]. pose proof (notify_inv limit (py_pool s) s Hc eq_refl Hi) as H. by destruct s.
  - destruct (return_cached_spec limit lane conn gen cur (py_pool s) Hc He) as (b & st & -> & Hc' & Hq').
    eexists. split; [reflexivity|]. by apply notify_inv.
  - destruct (release_both limit (py_pool s) Hc He) as [-> Hc']. eexists. split; [reflexivity|]. by apply notify_inv.
  - destruct (release_both limit (py_pool s) Hc He) as [E Hc']. unfold release_failed_operation in E.
    unfold release_unconnected_slot. rewrite E. eexists. split; [reflexivity|]. by apply notify_inv.
Qed.

(** C37: The connection pool keeps its limit and loses no wake-up. In every interleaving
    of acquisitions, wake-ups (spurious ones included), returns and failures, also
    across changes of the primary: the live connections are those in use and those
    cached, at most [limit]; no operation ends in an underflow error; and whenever a
    thread sleeps, a connection is in use, whose release will wake a sleeper, or a
    woken thread is about to look. *)
Theorem pool_bounded_no_lost_wakeup limit s :
  1 <= limit <= U64_MAX -> rtc (pool_step limit) pool_start s ->
  sp_live (py_pool s) = sp_active (py_pool s) + idle (py_pool s) /\ sp_live (py_pool s) <= limit /\
  (0 < py_sleeping s -> 0 < sp_active (py_pool s) \/ 0 < py_woken s) /\
  (forall op, op_enabled op s = true -> exists s', run_op limit op s = Ok s').
Proof.
  intros Hlim Hr.
  assert (Hi : pool_inv limit s).
  { assert (H0 : pool_inv limit pool_start).
    { split; cbn; [|lia|done|lia]. unfold counts_ok. change (idle _) with 0. cbn. lia. }
    revert H0. induction Hr as [|s1 s2 s3 (op & He & E) _ IH]; [done|]. intros H1. apply IH.
    destruct (run_op_inv limit op s1 Hlim H1 He) as (s' & E' & H'). congruence. }
  destruct (Hi) as [(Hl & Ha & Hle) _ _ Hw]. split; [done|]. split; [done|]. split; [done|].
  intros op He. destruct (run_op_inv limit op s Hlim Hi He) as (s' & E & _). eauto.
Qed.

(** ** Examples *)

(** Three threads draw tickets at a gate for two, and one permit is dropped. *)
Definition after_acquire (h : gate_history) : gate_history :=
  let '(ticket, woken, state') := gate_acquire 2 (gh_state h) in
  {| gh_state := state'; gh_drawn := gh_drawn h ++ [ticket]; gh_woken := gh_woken h ++ option_list woken;
     gh_dropped := gh_dropped h |}.

Lemma after_acquire_step h : zlen (ga_waiters (gh_state h)) < U64_MAX -> gate_step 2 h (after_acquire h).
Proof.
  intros H. unfold after_acquire. destruct (gate_acquire 2 (gh_state h)) as [[t w] st] eqn:E.
  by apply (gate_step_acquire 2 h t w st).
Qed.

Definition sample_gate : gate_history := after_acquire (after_acquire (after_acquire gate_start)).

Lemma admission_fair_and_bounded_witness :
  ga_waiters (gh_state sample_gate) = [2] /\ ga_active (gh_state sample_gate) = 2.
Proof.
  split; [vm_compute; reflexivity|].
  destruct (admission_fair_and_bounded 2 sample_gate) as (_ & _ & _ & _ & H & _).
  - unfold U64_MAX. lia.
  - eapply rtc_l; [apply after_acquire_step; vm_compute; reflexivity|].
    eapply rtc_l; [apply after_acquire_step; vm_compute; reflexivity|].
    apply rtc_once, after_acquire_step. vm_compute. reflexivity.
  - apply H. vm_compute. discriminate.
Defined.

(** A pool of one connection: one thread holds it, another one sleeps. *)
Definition sample_pool : PoolSystem :=
  {| py_pool := set_counts 1 1 1 pool_default; py_sleeping := 1; py_woken := 0 |}.

Lemma pool_bounded_no_lost_wakeup_witness : 0 < sp_active (py_pool sample_pool) \/ 0 < py_woken sample_pool.
Proof.
  destruct (pool_bounded_no_lost_wakeup 1 sample_pool) as (_ & _ & H & _).
  - unfold U64_MAX. lia.
  - eapply rtc_l; [exists (OpAcquire Write 0); split; vm_compute; reflexivity|].
    apply rtc_once. exists (OpAcquire Control 0). split; vm_compute; reflexivity.
  - apply H. cbn. lia.
Defined.
