(* ===== verification/ConnTargets.v ===== *)
(** * Connection targets and the promotion guard

    Model of [DbRepoConnectionTargets] of src/rust_hotpath/src/pg.rs: the choice of
    the server a new connection goes to, the guard against a second primary after a
    promotion, and the scores and circuit breakers of the read replicas. What a
    server answers is an argument. Event counters and the texts of errors, which no
    decision depends on, are left out, and mutexes are never poisoned. *)

From stdpp Require Import prelude list numbers strings relations.
From Stdlib Require Import ZArith Lia Ascii.
From S2P Require Import Prelude Text.

#[local] Open Scope Z_scope.
Set Default Proof Using "Type".

(** ** Roles *)

Inductive DbRepoConnectionTargetRequirement : Set := AnyTarget | WritablePrimary | ReadOnlyReplica.
#[global] Instance requirement_eq_dec : EqDecision DbRepoConnectionTargetRequirement.
Proof. solve_decision. Defined.

Record DbRepoConnectionTargetProbe := {
  pb_recovery : bool; pb_read_only : bool; pb_system_identifier : text; pb_server_fingerprint : text;
}.

Definition accepts (p : DbRepoConnectionTargetProbe) (requirement : DbRepoConnectionTargetRequirement) : bool :=
  match requirement with
  | AnyTarget => true
  | WritablePrimary => negb (pb_recovery p) && negb (pb_read_only p)
  | ReadOnlyReplica => pb_recovery p && pb_read_only p
  end.
Definition writable_primary (p : DbRepoConnectionTargetProbe) : bool := accepts p WritablePrimary.

Definition parse_postgres_bool (value : text) : option bool :=
  let v := to_ascii_lowercase (trim value) in
  if bool_decide (v ∈ [txt "t"; txt "true"; txt "1"; txt "on"]) then Some true
  else if bool_decide (v ∈ [txt "f"; txt "false"; txt "0"; txt "off"]) then Some false
  else None.

(** [probe_connection_target] on the text of the identity query, if it has one. *)
Definition probe_connection_target (value : option text) : option DbRepoConnectionTargetProbe :=
  value ← value;
  match split "|"%char (trim value) with
  | [f0; f1; f2; f3; f4] =>
      recovery ← parse_postgres_bool f0;
      read_only ← parse_postgres_bool f1;
      let system_identifier := trim f2 in
      let server_endpoint := trim f3 in
      let postmaster_start := trim f4 in
      if bool_decide (system_identifier = []) || bool_decide (server_endpoint = [])
         || bool_decide (postmaster_start = [])
      then None
      else Some {| pb_recovery := recovery; pb_read_only := read_only;
                   pb_system_identifier := system_identifier;
                   pb_server_fingerprint := server_endpoint ++ "|"%char :: postmaster_start |}
  | _ => None
  end.

(** ** The safe primary *)

Record PrimarySafetyCandidate := {
  pc_target_index : nat; pc_system_identifier : text; pc_server_fingerprint : text;
}.

Inductive PrimarySafetyErrorKind : Set := NoWritablePrimary | ClusterIdentityMismatch | SplitBrain.

(** The values that occur, in the order of their first occurrence. *)
Definition distinct (l : list text) : list text :=
  foldl (fun seen x => if bool_decide (x ∈ seen) then seen else seen ++ [x]) [] l.

Definition choose_safe_primary_candidate (candidates : list PrimarySafetyCandidate)
    (expected_system_identifier : option text) (avoid_target_index : option nat)
    : outcome PrimarySafetyErrorKind nat :=
  match candidates with
  | [] => Err NoWritablePrimary
  | first :: _ =>
      let expected := default (pc_system_identifier first) expected_system_identifier in
      if existsb (fun c => negb (bool_decide (pc_system_identifier c = expected))) candidates
      then Err ClusterIdentityMismatch
      else if (1 <? length (distinct (pc_server_fingerprint <$> candidates)))%nat then Err SplitBrain
      else match avoid_target_index with
           | Some avoid =>
               match list_find (fun c => pc_target_index c <> avoid) candidates with
               | Some (index, _) => Ok index
               | None => Ok 0%nat
               end
           | None => Ok 0%nat
           end
  end.

(** ** Scores *)

Definition REPLICA_SCORE_UNKNOWN_LATENCY_MICROS : Z := 5000.
Definition REPLICA_SCORE_LATENCY_DIVISOR : Z := 100.
Definition REPLICA_SCORE_LAG_DIVISOR_BYTES : Z := 4096.
Definition REPLICA_SCORE_FAILURE_PENALTY : Z := 10000.
Definition REPLICA_SCORE_HYSTERESIS_MARGIN : Z := 25.
Definition REPLICA_CIRCUIT_BREAKER_FAILURE_THRESHOLD : Z := 2.
Definition REPLICA_CIRCUIT_BREAKER_COOLDOWN_MS : Z := 5000.

(** Instants are in milliseconds. *)
Record DbRepoConnectionTargetMetric := {
  tm_connection_latency : option Z;
  tm_operation_latency : option Z;
  tm_replay_lag_bytes : option Z;
  tm_consecutive_failures : Z;
  tm_circuit_open_until : option Z;
}.

Definition metric_default : DbRepoConnectionTargetMetric :=
  {| tm_connection_latency := None; tm_operation_latency := None; tm_replay_lag_bytes := None;
     tm_consecutive_failures := 0; tm_circuit_open_until := None |}.

Definition observe_ewma (slot : option Z) (sample : Z) : option Z :=
  Some (match slot with
        | Some previous => sat_add (sat_mul previous 3) sample / 4
        | None => sample
        end).

Definition score (now : Z) (m : DbRepoConnectionTargetMetric) : option Z :=
  if match tm_circuit_open_until m with Some until => now <? until | None => false end then None
  else
    let connection_latency :=
      default REPLICA_SCORE_UNKNOWN_LATENCY_MICROS (tm_connection_latency m) / REPLICA_SCORE_LATENCY_DIVISOR in
    let operation_latency :=
      default REPLICA_SCORE_UNKNOWN_LATENCY_MICROS (tm_operation_latency m) / REPLICA_SCORE_LATENCY_DIVISOR in
    let replay_lag := default 0 (tm_replay_lag_bytes m) / REPLICA_SCORE_LAG_DIVISOR_BYTES in
    let failure_penalty := sat_mul (tm_consecutive_failures m) REPLICA_SCORE_FAILURE_PENALTY in
    Some (sat_add (sat_add (sat_add connection_latency operation_latency) replay_lag) failure_penalty).

Definition record_connection_success (elapsed_micros : Z) (m : DbRepoConnectionTargetMetric)
    : DbRepoConnectionTargetMetric :=
  {| tm_connection_latency := observe_ewma (tm_connection_latency m) (Z.min elapsed_micros U64_MAX);
     tm_operation_latency := tm_operation_latency m; tm_replay_lag_bytes := tm_replay_lag_bytes m;
     tm_consecutive_failures := 0; tm_circuit_open_until := None |}.

Definition record_operation_success (elapsed_micros : Z) (m : DbRepoConnectionTargetMetric)
    : DbRepoConnectionTargetMetric :=
  {| tm_connection_latency := tm_connection_latency m;
     tm_operation_latency := observe_ewma (tm_operation_latency m) (Z.min elapsed_micros U64_MAX);
     tm_replay_lag_bytes := tm_replay_lag_bytes m; tm_consecutive_failures := 0; tm_circuit_open_until := None |}.

Definition record_failure (now : Z) (m : DbRepoConnectionTargetMetric) : DbRepoConnectionTargetMetric :=
  let failures := sat_add (tm_consecutive_failures m) 1 in
  {| tm_connection_latency := tm_connection_latency m; tm_operation_latency := tm_operation_latency m;
     tm_replay_lag_bytes := tm_replay_lag_bytes m; tm_consecutive_failures := failures;
     tm_circuit_open_until :=
       if REPLICA_CIRCUIT_BREAKER_FAILURE_THRESHOLD <=? failures
       then Some (now + REPLICA_CIRCUIT_BREAKER_COOLDOWN_MS) else tm_circuit_open_until m |}.

Definition record_replay_lag (replay_lag_bytes : Z) (m : DbRepoConnectionTargetMetric) : DbRepoConnectionTargetMetric :=
  {| tm_connection_latency := tm_connection_latency m; tm_operation_latency := tm_operation_latency m;
     tm_replay_lag_bytes := Some replay_lag_bytes; tm_consecutive_failures := tm_consecutive_failures m;
     tm_circuit_open_until := tm_circuit_open_until m |}.

(** ** The state of the targets *)

Record DbRepoConnectionTargetState := {
  ts_active_index : nat;
  ts_generation : Z;
  ts_target_metrics : list DbRepoConnectionTargetMetric;
  ts_primary_system_identifier : option text;
  ts_primary_server_fingerprint : option text;
  ts_primary_revalidation_required : bool;
  ts_primary_last_failed_index : option nat;
  ts_primary_operations_in_flight : Z;
  ts_primary_transition_pending : bool;
}.

Definition set_active_index (x : nat) (s : DbRepoConnectionTargetState) : DbRepoConnectionTargetState :=
  {| ts_active_index := x; ts_generation := ts_generation s; ts_target_metrics := ts_target_metrics s;
     ts_primary_system_identifier := ts_primary_system_identifier s;
     ts_primary_server_fingerprint := ts_primary_server_fingerprint s;
     ts_primary_revalidation_required := ts_primary_revalidation_required s;
     ts_primary_last_failed_index := ts_primary_last_failed_index s;
     ts_primary_operations_in_flight := ts_primary_operations_in_flight s;
     ts_primary_transition_pending := ts_primary_transition_pending s |}.
Definition set_generation (x : Z) (s : DbRepoConnectionTargetState) : DbRepoConnectionTargetState :=
  {| ts_active_index := ts_active_index s; ts_generation := x; ts_target_metrics := ts_target_metrics s;
     ts_primary_system_identifier := ts_primary_system_identifier s;
     ts_primary_server_fingerprint := ts_primary_server_fingerprint s;
     ts_primary_revalidation_required := ts_primary_revalidation_required s;
     ts_primary_last_failed_index := ts_primary_last_failed_index s;
     ts_primary_operations_in_flight := ts_primary_operations_in_flight s;
     ts_primary_transition_pending := ts_primary_transition_pending s |}.
Definition set_target_metrics (x : list DbRepoConnectionTargetMetric) (s : DbRepoConnectionTargetState)
    : DbRepoConnectionTargetState :=
  {| ts_active_index := ts_active_index s; ts_generation := ts_generation s; ts_target_metrics := x;
     ts_primary_system_identifier := ts_primary_system_identifier s;
     ts_primary_server_fingerprint := ts_primary_server_fingerprint s;
     ts_primary_revalidation_required := ts_primary_revalidation_required s;
     ts_primary_last_failed_index := ts_primary_last_failed_index s;
     ts_primary_operations_in_flight := ts_primary_operations_in_flight s;
     ts_primary_transition_pending := ts_primary_transition_pending s |}.
(** What the guard knows about the primary: its identity and whether to look again. *)
Definition set_primary (id fingerprint : option text) (revalidation : bool) (last_failed : option nat)
    (s : DbRepoConnectionTargetState) : DbRepoConnectionTargetState :=
  {| ts_active_index := ts_active_index s; ts_generation := ts_generation s; ts_target_metrics := ts_target_metrics s;
     ts_primary_system_identifier := id; ts_primary_server_fingerprint := fingerprint;
     ts_primary_revalidation_required := revalidation; ts_primary_last_failed_index := last_failed;
     ts_primary_operations_in_flight := ts_primary_operations_in_flight s;
     ts_primary_transition_pending := ts_primary_transition_pending s |}.
Definition set_in_flight (x : Z) (s : DbRepoConnectionTargetState) : DbRepoConnectionTargetState :=
  {| ts_active_index := ts_active_index s; ts_generation := ts_generation s; ts_target_metrics := ts_target_metrics s;
     ts_primary_system_identifier := ts_primary_system_identifier s;
     ts_primary_server_fingerprint := ts_primary_server_fingerprint s;
     ts_primary_revalidation_required := ts_primary_revalidation_required s;
     ts_primary_last_failed_index := ts_primary_last_failed_index s;
     ts_primary_operations_in_flight := x; ts_primary_transition_pending := ts_primary_transition_pending s |}.
Definition set_pending (x : bool) (s : DbRepoConnectionTargetState) : DbRepoConnectionTargetState :=
  {| ts_active_index := ts_active_index s; ts_generation := ts_generation s; ts_target_metrics := ts_target_metrics s;
     ts_primary_system_identifier := ts_primary_system_identifier s;
     ts_primary_server_fingerprint := ts_primary_server_fingerprint s;
     ts_primary_revalidation_required := ts_primary_revalidation_required s;
     ts_primary_last_failed_index := ts_primary_last_failed_index s;
     ts_primary_operations_in_flight := ts_primary_operations_in_flight s; ts_primary_transition_pending := x |}.

Definition target_state_default (target_count : nat) : DbRepoConnectionTargetState :=
  {| ts_active_index := 0; ts_generation := 1; ts_target_metrics := replicate target_count metric_default;
     ts_primary_system_identifier := None; ts_primary_server_fingerprint := None;
     ts_primary_revalidation_required := false; ts_primary_last_failed_index := None;
     ts_primary_operations_in_flight := 0; ts_primary_transition_pending := false |}.

Record DbRepoConnectionTargets := {
  ct_target_count : nat;
  ct_requirement : DbRepoConnectionTargetRequirement;
  ct_runtime_failover_enabled : bool;
}.

(** [new] for targets whose authority and conninfo are not blank ([filled]). *)
Definition new_targets (filled : list bool) (requirement : DbRepoConnectionTargetRequirement)
    (runtime_failover_enabled : bool) : option (DbRepoConnectionTargets * DbRepoConnectionTargetState) :=
  if bool_decide (filled = []) then None
  else if negb (forallb id filled) then None
  else
    let target_count := length filled in
    Some ({| ct_target_count := target_count; ct_requirement := requirement;
             ct_runtime_failover_enabled := runtime_failover_enabled && (1 <? target_count)%nat |},
          target_state_default target_count).

Section targets.
Context (cfg : DbRepoConnectionTargets).

Definition replica_scoring_enabled : bool := bool_decide (ct_requirement cfg = ReadOnlyReplica).
Definition primary_promotion_guard_enabled : bool :=
  bool_decide (ct_requirement cfg = WritablePrimary) && ct_runtime_failover_enabled cfg.

(** [begin_primary_operation] once no transition is pending: whether the operation
    may run. *)
Definition begin_primary_operation (generation : Z) (s : DbRepoConnectionTargetState)
    : outcome unit bool * DbRepoConnectionTargetState :=
  if negb primary_promotion_guard_enabled then (Ok false, s)
  else if negb (ts_generation s =? generation) then (Ok false, s)
  else match checked_add (ts_primary_operations_in_flight s) 1 with
       | Some n => (Ok true, set_in_flight n s)
       | None => (Err tt, s)
       end.

Definition finish_primary_operation (s : DbRepoConnectionTargetState) : DbRepoConnectionTargetState :=
  if ts_primary_operations_in_flight s =? 0 then s
  else set_in_flight (ts_primary_operations_in_flight s - 1) s.

(** [wait_for_primary_operations] up to the wait: whether to wait at all. The wait
    ends when no operation is in flight. *)
Definition wait_for_primary_operations (expected_generation : Z) (s : DbRepoConnectionTargetState)
    : bool * DbRepoConnectionTargetState :=
  if negb primary_promotion_guard_enabled || negb (ts_generation s =? expected_generation) then (false, s)
  else (true, set_pending true s).

Definition finish_primary_transition_locked (primary_transition : bool) (s : DbRepoConnectionTargetState)
    : DbRepoConnectionTargetState :=
  if primary_transition then set_pending false s else s.

(** ** Replicas *)

Definition metric_at (index : nat) (s : DbRepoConnectionTargetState) : outcome unit DbRepoConnectionTargetMetric :=
  match ts_target_metrics s !! index with Some m => Ok m | None => Panic end.

(** The loop over the indexes: the first of the lowest scores. *)
Definition best_replica_loop (now : Z) (exclude_current : bool) (current : nat)
    (metrics : list DbRepoConnectionTargetMetric) : option (nat * Z) :=
  foldl (fun best entry =>
           let '(index, m) := entry in
           if exclude_current && bool_decide (index = current) then best
           else match score now m with
                | Some sc =>
                    if match best with Some (_, best_score) => sc <? best_score | None => true end
                    then Some (index, sc) else best
                | None => best
                end) None (imap (fun i m => (i, m)) metrics).

Definition best_replica_candidate_locked (now : Z) (exclude_current : bool) (s : DbRepoConnectionTargetState)
    : option (nat * Z) :=
  if negb replica_scoring_enabled then Some (ts_active_index s, 0)
  else best_replica_loop now exclude_current (ts_active_index s) (ts_target_metrics s).

(** [now] and [now'] are the two readings of the clock. *)
Definition select_scored_replica_locked (now now' : Z) (exclude_current force_switch : bool)
    (s : DbRepoConnectionTargetState) : outcome unit (bool * DbRepoConnectionTargetState) :=
  if negb replica_scoring_enabled then Ok (false, s)
  else
    let current := ts_active_index s in
    m ← metric_at current s;
    let current_score := score now m in
    match best_replica_candidate_locked now' exclude_current s with
    | None => Ok (false, s)
    | Some (best_index, best_score) =>
        if bool_decide (best_index = current) then Ok (false, s)
        else if force_switch || bool_decide (current_score = None)
                || (sat_add best_score REPLICA_SCORE_HYSTERESIS_MARGIN <? default U64_MAX current_score)
        then Ok (true, set_active_index best_index s)
        else Ok (false, s)
    end.

Definition bump_generation (s : DbRepoConnectionTargetState) : DbRepoConnectionTargetState :=
  set_generation (sat_add (ts_generation s) 1) s.

(** A switch counts as a new generation. *)
Definition switch_generation (selected : bool * DbRepoConnectionTargetState) : bool * DbRepoConnectionTargetState :=
  if selected.1 then (true, bump_generation selected.2) else selected.

Definition prepare_scored_replica (clk : nat -> Z) (s : DbRepoConnectionTargetState)
    : outcome unit (option Z * DbRepoConnectionTargetState) :=
  if negb replica_scoring_enabled then Ok (Some (ts_generation s), s)
  else
    selected ← switch_generation <$> select_scored_replica_locked (clk 0%nat) (clk 1%nat) false false s;
    let s := selected.2 in
    m ← metric_at (ts_active_index s) s;
    Ok (if bool_decide (is_Some (score (clk 2%nat) m)) then Some (ts_generation s) else None, s).

Definition update_active_metric (f : DbRepoConnectionTargetMetric -> DbRepoConnectionTargetMetric)
    (s : DbRepoConnectionTargetState) : outcome unit DbRepoConnectionTargetState :=
  _ ← metric_at (ts_active_index s) s;
  Ok (set_target_metrics (alter f (ts_active_index s) (ts_target_metrics s)) s).

Definition record_target_connection_success (generation elapsed : Z) (s : DbRepoConnectionTargetState)
    : outcome unit DbRepoConnectionTargetState :=
  if negb replica_scoring_enabled then Ok s
  else if ts_generation s =? generation then update_active_metric (record_connection_success elapsed) s
  else Ok s.

Definition record_replica_operation_success (generation elapsed : Z) (s : DbRepoConnectionTargetState)
    : outcome unit DbRepoConnectionTargetState :=
  if negb replica_scoring_enabled then Ok s
  else if ts_generation s =? generation then update_active_metric (record_operation_success elapsed) s
  else Ok s.

Definition record_replica_replay (clk : nat -> Z) (generation replay_lag_bytes : Z) (s : DbRepoConnectionTargetState)
    : outcome unit (bool * DbRepoConnectionTargetState) :=
  if negb replica_scoring_enabled then Ok (false, s)
  else if negb (ts_generation s =? generation) then Ok (false, s)
  else
    s ← update_active_metric (record_replay_lag replay_lag_bytes) s;
    if replay_lag_bytes =? 0 then Ok (false, s)
    else switch_generation <$> select_scored_replica_locked (clk 0%nat) (clk 1%nat) true true s.

(** ** Failures *)

(** [advance_after_failure] up to the wait: [None] when the failure is an old one. *)
Definition advance_after_failure_begin (expected_generation : Z) (s : DbRepoConnectionTargetState)
    : option bool * DbRepoConnectionTargetState :=
  if negb (ts_generation s =? expected_generation) then (None, s)
  else if primary_promotion_guard_enabled
       then let '(primary_transition, s) := wait_for_primary_operations expected_generation s in
            (Some primary_transition, s)
       else (Some false, s).

(** [advance_after_failure] after the wait. *)
Definition advance_after_failure_finish (clk : nat -> Z) (primary_transition : bool) (s : DbRepoConnectionTargetState)
    : outcome unit DbRepoConnectionTargetState :=
  let failed_index := ts_active_index s in
  s ← (if replica_scoring_enabled then update_active_metric (record_failure (clk 0%nat)) s else Ok s);
  let s := bump_generation s in
  s ← (if primary_promotion_guard_enabled
       then Ok (set_primary (ts_primary_system_identifier s) (ts_primary_server_fingerprint s) true (Some failed_index) s)
       else if ct_runtime_failover_enabled cfg then
         if replica_scoring_enabled
         then snd <$> select_scored_replica_locked (clk 1%nat) (clk 2%nat) true true s
         else Ok (set_active_index ((ts_active_index s + 1) mod ct_target_count cfg) s)
       else Ok s);
  Ok (finish_primary_transition_locked primary_transition s).

(** [mark_primary_revalidation] before and after its wait. *)
Definition mark_primary_revalidation_begin (expected_generation : Z) (s : DbRepoConnectionTargetState)
    : option bool * DbRepoConnectionTargetState :=
  if negb (ts_generation s =? expected_generation) then (None, s)
  else let '(primary_transition, s) := wait_for_primary_operations expected_generation s in (Some primary_transition, s).

Definition mark_primary_revalidation_finish (expected_generation : Z) (active_index : nat) (primary_transition : bool)
    (s : DbRepoConnectionTargetState) : DbRepoConnectionTargetState :=
  finish_primary_transition_locked primary_transition
    (if ts_generation s =? expected_generation
     then bump_generation
            (set_primary (ts_primary_system_identifier s) (ts_primary_server_fingerprint s) true (Some active_index) s)
     else s).

(** ** New connections *)

(** What a server answers to [connect]: nothing, or a connection on which the
    identity query gives a text or fails. *)
Inductive ConnectResult : Set := Unreachable | Connected (identity : option text).

Record Connection := { cn_target : nat; cn_probe : option DbRepoConnectionTargetProbe; cn_generation : Z }.

(** [validate_connection_target_role], with the probe it made. *)
Definition validate_connection_target_role (identity : option text) : option (option DbRepoConnectionTargetProbe) :=
  if bool_decide (ct_requirement cfg = AnyTarget) then Some None
  else
    probe ← probe_connection_target identity;
    if accepts probe (ct_requirement cfg) then Some (Some probe) else None.

(** Without the guard nothing is waited for. *)
Definition advance_after_failure (clk : nat -> Z) (expected_generation : Z) (s : DbRepoConnectionTargetState)
    : outcome unit DbRepoConnectionTargetState :=
  match advance_after_failure_begin expected_generation s with
  | (None, s) => Ok s
  | (Some primary_transition, s) => advance_after_failure_finish clk primary_transition s
  end.

Record ConnectTry := {
  tr_select : nat -> Z; tr_fail : nat -> Z; tr_connect : nat -> ConnectResult; tr_elapsed : Z;
}.

(** The choice of the replica at the head of an attempt: [false] when all circuits
    are open. *)
Definition connect_select (clk : nat -> Z) (s : DbRepoConnectionTargetState)
    : outcome unit (bool * DbRepoConnectionTargetState) :=
  if replica_scoring_enabled then
    selected ← switch_generation <$> select_scored_replica_locked (clk 0%nat) (clk 1%nat) false false s;
    m ← metric_at (ts_active_index selected.2) selected.2;
    Ok (bool_decide (is_Some (score (clk 2%nat) m)), selected.2)
  else Ok (true, s).

(** The attempts of [connect_new] without the guard. *)
Fixpoint connect_attempts (attempts : nat) (tries : list ConnectTry) (s : DbRepoConnectionTargetState)
    : outcome unit (option Connection * DbRepoConnectionTargetState) :=
  match attempts, tries with
  | S attempts, t :: tries =>
      selected ← connect_select (tr_select t) s;
      if negb selected.1 then Ok (None, selected.2)
      else
        let s := selected.2 in
        let index := ts_active_index s in
        let generation := ts_generation s in
        match (match tr_connect t index with
               | Unreachable => None
               | Connected identity => validate_connection_target_role identity
               end) with
        | Some probe =>
            s ← record_target_connection_success generation (tr_elapsed t) s;
            Ok (Some {| cn_target := index; cn_probe := probe; cn_generation := generation |}, s)
        | None =>
            s ← advance_after_failure (tr_fail t) generation s;
            connect_attempts attempts tries s
        end
  | _, _ => Ok (None, s)
  end.

Definition connect_new_unguarded (tries : list ConnectTry) (s : DbRepoConnectionTargetState)
    : outcome unit (option Connection * DbRepoConnectionTargetState) :=
  connect_attempts (if ct_runtime_failover_enabled cfg then ct_target_count cfg else 1%nat) tries s.

(** *** With the guard *)

(** The scan of [connect_primary_guarded]. *)
Definition live_candidates (answers : nat -> ConnectResult) : list (PrimarySafetyCandidate * DbRepoConnectionTargetProbe) :=
  omap (fun target_index =>
          match answers target_index with
          | Connected identity =>
              p ← probe_connection_target identity;
              if writable_primary p
              then Some ({| pc_target_index := target_index; pc_system_identifier := pb_system_identifier p;
                            pc_server_fingerprint := pb_server_fingerprint p |}, p)
              else None
          | Unreachable => None
          end) (seq 0 (ct_target_count cfg)).

(** Nothing safe was found. *)
Definition guarded_reject (s : DbRepoConnectionTargetState) : DbRepoConnectionTargetState :=
  set_primary (ts_primary_system_identifier s) (ts_primary_server_fingerprint s) true (ts_primary_last_failed_index s) s.

(** The selection, up to its wait. *)
Definition guarded_select_begin (candidate : PrimarySafetyCandidate) (s : DbRepoConnectionTargetState)
    : bool * DbRepoConnectionTargetState :=
  if negb (bool_decide (ts_active_index s = pc_target_index candidate)) && negb (ts_primary_revalidation_required s)
  then wait_for_primary_operations (ts_generation s) s
  else (false, s).

(** The selection, after the wait. *)
Definition guarded_select_finish (candidate : PrimarySafetyCandidate) (was_revalidation : bool) (previous_index : nat)
    (primary_transition : bool) (s : DbRepoConnectionTargetState) : DbRepoConnectionTargetState :=
  let s := if bool_decide (previous_index = pc_target_index candidate) then s
           else
             let s := set_active_index (pc_target_index candidate) s in
             if was_revalidation then s else bump_generation s in
  finish_primary_transition_locked primary_transition
    (set_primary (Some (pc_system_identifier candidate)) (Some (pc_server_fingerprint candidate)) false None s).

(** What [connect_new] needs to see before it can use the active target. *)
Definition needs_scan (s : DbRepoConnectionTargetState) : bool :=
  ts_primary_revalidation_required s || bool_decide (ts_primary_system_identifier s = None)
  || bool_decide (ts_primary_server_fingerprint s = None).

(** The active target answers: it failed, it is another server, or it is ready. *)
Inductive Verdict : Set := TargetFailed | TargetChanged | TargetReady (p : DbRepoConnectionTargetProbe).

Definition active_verdict (expected_system_identifier expected_fingerprint : option text) (r : ConnectResult) : Verdict :=
  match r with
  | Unreachable => TargetFailed
  | Connected identity =>
      match probe_connection_target identity with
      | None => TargetFailed
      | Some p =>
          if negb (writable_primary p) then TargetFailed
          else if negb (bool_decide (expected_system_identifier = Some (pb_system_identifier p))) then TargetChanged
          else if negb (bool_decide (expected_fingerprint = Some (pb_server_fingerprint p))) then TargetChanged
          else TargetReady p
      end
  end.
End targets.

(** * Lemmas *)

(** ** The choice *)

Lemma distinct_foldl (x : text) (l : list text) : forall seen,
  x ∈ seen \/ x ∈ l ->
  x ∈ foldl (fun seen x => if bool_decide (x ∈ seen) then seen else seen ++ [x]) seen l.
Proof.
  induction l as [|y l IH]; intros seen Hx; cbn; [set_solver|].
  apply IH. case_bool_decide; set_solver.
Qed.

Lemma distinct_short l x y : (length (distinct l) <= 1)%nat -> x ∈ l -> y ∈ l -> x = y.
Proof.
  intros Hl Hx Hy.
  assert (x ∈ distinct l) by (apply distinct_foldl; auto).
  assert (y ∈ distinct l) by (apply distinct_foldl; auto).
  destruct (distinct l) as [|a [|b d]]; cbn in Hl; [set_solver|set_solver|lia].
Qed.

Lemma choose_safe_primary_sound cs expected avoid position :
  choose_safe_primary_candidate cs expected avoid = Ok position ->
  exists c, cs !! position = Some c
    /\ (forall c', c' ∈ cs -> pc_system_identifier c' = default (pc_system_identifier c) expected
                    /\ pc_server_fingerprint c' = pc_server_fingerprint c)
    /\ (forall a, avoid = Some a -> (exists c', c' ∈ cs /\ pc_target_index c' <> a) -> pc_target_index c <> a).
Proof.
  unfold choose_safe_primary_candidate. destruct cs as [|f cs'] eqn:Hcs; [done|].
  rewrite <- Hcs. destruct (existsb _ _) eqn:Hid; [done|].
  destruct (1 <? _)%nat eqn:Hfp; [done|]. apply Nat.ltb_ge in Hfp. intros Hpos.
  assert (Hsame : forall c', c' ∈ cs -> pc_system_identifier c' = default (pc_system_identifier f) expected).
  { intros c' Hc'. apply not_true_iff_false in Hid. destruct (decide (pc_system_identifier c' =
      default (pc_system_identifier f) expected)) as [He|Hne]; [done|]. destruct Hid.
    apply existsb_exists. exists c'. rewrite bool_decide_false by done. split; [by apply list_elem_of_In|done]. }
  assert (exists c, cs !! position = Some c /\
    (forall a, avoid = Some a -> (exists c', c' ∈ cs /\ pc_target_index c' <> a) -> pc_target_index c <> a))
    as (c & Hc & Hav).
  { destruct avoid as [a|]; [destruct (list_find _ cs) as [[i c]|] eqn:Hf|]; injection Hpos as <-.
    - apply list_find_Some in Hf as (Hc & Hne & _). exists c. split; [done|]. intros ? [= ->]; done.
    - exists f. split; [by rewrite Hcs|]. intros ? [= <-] (c' & Hin & Hne).
      apply list_find_None in Hf. rewrite Forall_forall in Hf. destruct (Hf c' Hin Hne).
    - exists f. split; [by rewrite Hcs|done]. }
  exists c. split; [done|]. split; [|done]. intros c' Hc'.
  assert (Hin : c ∈ cs) by (by eapply list_elem_of_lookup_2). split.
  - rewrite (Hsame c' Hc'). destruct expected; [done|]. cbn. by rewrite (Hsame c Hin).
  - eapply distinct_short; [exact Hfp| |]; by apply list_elem_of_fmap_2.
Qed.

Section live.
Context (cfg : DbRepoConnectionTargets).

Lemma live_candidates_spec answers c p :
  (c, p) ∈ live_candidates cfg answers <->
  (pc_target_index c < ct_target_count cfg)%nat /\ pc_system_identifier c = pb_system_identifier p
  /\ pc_server_fingerprint c = pb_server_fingerprint p /\ writable_primary p = true
  /\ exists identity, answers (pc_target_index c) = Connected identity /\ probe_connection_target identity = Some p.
Proof.
  unfold live_candidates. rewrite list_elem_of_omap. split.
  - intros (i & Hi & Hc). apply elem_of_seq in Hi. cbn beta in Hc. destruct (answers i) as [|identity] eqn:Ha; [done|].
    destruct (probe_connection_target identity) as [q|] eqn:Hq; [|done]. cbn [mbind option_bind] in Hc.
    destruct (writable_primary q) eqn:Hw; [|done]. injection Hc as <- <-. cbn.
    split_and!; [lia|done..|]. eauto.
  - intros (Hi & Hs & Hf & Hw & identity & Ha & Hp). exists (pc_target_index c). split; [apply elem_of_seq; lia|].
    rewrite Ha, Hp. cbn [mbind option_bind]. rewrite Hw. destruct c; cbn in *; by subst.
Qed.
End live.

(** ** Replicas *)

(** The loop finds the lowest score of the targets with a closed circuit. *)
Definition best_spec (now : Z) (eligible : nat -> Prop) (metrics : list DbRepoConnectionTargetMetric)
    (best : option (nat * Z)) : Prop :=
  match best with
  | None => forall i m, metrics !! i = Some m -> eligible i -> score now m = None
  | Some (index, sc) =>
      (exists m, metrics !! index = Some m /\ score now m = Some sc) /\ eligible index
      /\ forall i m sc', metrics !! i = Some m -> eligible i -> score now m = Some sc' -> sc <= sc'
  end.

Lemma lookup_snoc_cases {A} (l : list A) x i y :
  (l ++ [x]) !! i = Some y -> l !! i = Some y \/ (i = length l /\ y = x).
Proof.
  destruct (decide (i < length l)%nat); [rewrite lookup_app_l by lia; auto|].
  rewrite lookup_app_r by lia. destruct (i - length l)%nat eqn:Hi; cbn; [|done]. intros [= ->]. right. split; [lia|done].
Qed.

Lemma best_replica_loop_spec now exclude_current current metrics :
  best_spec now (fun i => exclude_current = true -> i <> current) metrics
    (best_replica_loop now exclude_current current metrics).
Proof.
  unfold best_replica_loop. induction metrics as [|m metrics IH] using rev_ind; [by intros i m ?|].
  rewrite imap_app, foldl_app. cbn [imap foldl Nat.add]. rewrite Nat.add_0_r.
  set (best := foldl _ None _) in *.
  assert (Hkeep : ((exclude_current = true -> length metrics <> current) ->
                   forall sc', score now m = Some sc' -> exists i sc, best = Some (i, sc) /\ sc <= sc') ->
                  best_spec now (fun i => exclude_current = true -> i <> current) (metrics ++ [m]) best).
  { intros Hm. destruct best as [[bi bs]|]; cbn in IH |- *.
    - destruct IH as ((bm & Hbm & Hbs) & Hbe & Hmin). split; [exists bm; split; [by apply lookup_app_l_Some|done]|].
      split; [done|]. intros i m' sc' [Hi|(-> & ->)]%lookup_snoc_cases He Hs; [eauto|].
      destruct (Hm He sc' Hs) as (? & ? & [= <- <-] & Hle). done.
    - intros i m' [Hi|(-> & ->)]%lookup_snoc_cases He; [eauto|]. destruct (score now m) as [sc'|] eqn:Hs; [|done].
      destruct (Hm He sc' eq_refl) as (? & ? & ? & _). done. }
  case_match eqn:Hex.
  - apply Hkeep. intros He. apply andb_true_iff in Hex as [-> Hc]. case_bool_decide; [by destruct He|done].
  - assert (He : exclude_current = true -> length metrics <> current).
    { intros ->. cbn in Hex. by case_bool_decide. }
    destruct (score now m) as [sc|] eqn:Hs; [|by apply Hkeep].
    case_match eqn:Hlt; cbn.
    + split; [exists m; split; [by rewrite lookup_app_r, Nat.sub_diag by lia|done]|]. split; [done|].
      intros i m' sc' [Hi|(-> & ->)]%lookup_snoc_cases He' Hs'; [|rewrite Hs in Hs'; injection Hs' as <-; lia].
      destruct best as [[bi bs]|]; cbn in IH; [|by rewrite (IH _ _ Hi He') in Hs'].
      destruct IH as (_ & _ & Hmin). specialize (Hmin _ _ _ Hi He' Hs'). lia.
    + apply Hkeep. intros _ sc' [= <-]. destruct best as [[bi bs]|]; [|done]. exists bi, bs. split; [done|lia].
Qed.

(** A closed circuit stays closed, at the same score. *)
Lemma score_later now now' m sc : now <= now' -> score now m = Some sc -> score now' m = Some sc.
Proof.
  unfold score. intros Hle. destruct (tm_circuit_open_until m) as [until|]; [|done].
  destruct (Z.ltb_spec now until), (Z.ltb_spec now' until); try done. lia.
Qed.

Lemma metric_at_ok s i : (i < length (ts_target_metrics s))%nat -> exists m,
  ts_target_metrics s !! i = Some m /\ metric_at i s = Ok m.
Proof. intros Hi. destruct (lookup_lt_is_Some_2 _ _ Hi) as [m Hm]. exists m. unfold metric_at. by rewrite Hm. Qed.

Section replicas.
Context (cfg : DbRepoConnectionTargets).

(** The active target is one of the targets, each of which has a metric. *)
Definition targets_wf (s : DbRepoConnectionTargetState) : Prop :=
  length (ts_target_metrics s) = ct_target_count cfg /\ (ts_active_index s < ct_target_count cfg)%nat.

Lemma best_candidate_in_range now exclude_current s i sc :
  targets_wf s -> best_replica_candidate_locked cfg now exclude_current s = Some (i, sc) -> (i < ct_target_count cfg)%nat.
Proof.
  intros (Hl & Ha). unfold best_replica_candidate_locked. case_match; [by intros [= <- _]|]. intros Hb.
  assert (Hs := best_replica_loop_spec now exclude_current (ts_active_index s) (ts_target_metrics s)).
  rewrite Hb in Hs. destruct Hs as ((m & Hm & _) & _). apply lookup_lt_Some in Hm. lia.
Qed.

Lemma select_ok now now' exclude_current force_switch s :
  targets_wf s -> exists b s', select_scored_replica_locked cfg now now' exclude_current force_switch s = Ok (b, s')
    /\ targets_wf s' /\ ts_target_metrics s' = ts_target_metrics s /\ ts_generation s' = ts_generation s.
Proof.
  intros Hwf. unfold select_scored_replica_locked. case_match; [by exists false, s|].
  destruct (metric_at_ok s (ts_active_index s)) as (m & _ & ->); [destruct Hwf as (-> & ?); done|]. cbn.
  destruct (best_replica_candidate_locked _ _ _ _) as [[bi bs]|] eqn:Hb; [|by exists false, s].
  case_match; [by exists false, s|]. case_match; [|by exists false, s].
  eexists true, _. split; [reflexivity|]. split; [|done]. split; [apply Hwf|]. by eapply best_candidate_in_range.
Qed.

Lemma update_metric_ok f s :
  targets_wf s -> exists s', update_active_metric f s = Ok s' /\ targets_wf s' /\ ts_generation s' = ts_generation s
    /\ ts_active_index s' = ts_active_index s.
Proof.
  intros Hwf. assert (Hi := Hwf). destruct Hi as (Hl & Ha). unfold update_active_metric.
  destruct (metric_at_ok s (ts_active_index s)) as (m & _ & ->); [lia|]. cbn.
  eexists. split; [reflexivity|]. split; [|done]. split; cbn; [by rewrite length_alter|done].
Qed.

Lemma advance_finish_ok clk tr s :
  targets_wf s -> exists s', advance_after_failure_finish cfg clk tr s = Ok s' /\ targets_wf s'.
Proof.
  intros Hwf. unfold advance_after_failure_finish.
  assert (exists s1, (if replica_scoring_enabled cfg then update_active_metric (record_failure (clk 0%nat)) s else Ok s) = Ok s1
    /\ targets_wf s1) as (s1 & -> & Hwf1).
  { case_match; [|by exists s]. destruct (update_metric_ok (record_failure (clk 0%nat)) s Hwf) as (s1 & ? & ? & _). eauto. }
  cbn.
  assert (Hfin : forall s, targets_wf s -> targets_wf (finish_primary_transition_locked tr s)) by (by destruct tr).
  case_match; [eexists; split; [reflexivity|by apply Hfin]|].
  case_match; [|eexists; split; [reflexivity|by apply Hfin]].
  case_match; [|eexists; split; [reflexivity|apply Hfin]].
  - destruct (select_ok (clk 1%nat) (clk 2%nat) true true (bump_generation s1)) as (b & s2 & -> & Hwf2 & _); [done|].
    cbn. eexists. split; [reflexivity|by apply Hfin].
  - destruct Hwf1 as (? & ?). split; [done|]. apply Nat.mod_upper_bound. lia.
Qed.

Lemma advance_after_failure_ok clk g s :
  targets_wf s -> exists s', advance_after_failure cfg clk g s = Ok s' /\ targets_wf s'.
Proof.
  intros Hwf. unfold advance_after_failure.
  assert (Hb : targets_wf (advance_after_failure_begin cfg g s).2).
  { unfold advance_after_failure_begin, wait_for_primary_operations. by repeat (case_match; simplify_eq; try done). }
  destruct (advance_after_failure_begin cfg g s) as [[tr|] s']; [by apply advance_finish_ok|by exists s'].
Qed.

Lemma connect_select_ok clk s :
  targets_wf s -> exists b s', connect_select cfg clk s = Ok (b, s') /\ targets_wf s'.
Proof.
  intros Hwf. unfold connect_select. case_match; [|by exists true, s].
  destruct (select_ok (clk 0%nat) (clk 1%nat) false false s Hwf) as (b & s1 & -> & Hwf1 & _). cbn [fmap outcome_fmap].
  assert (Hsw : targets_wf (switch_generation (b, s1)).2) by (by destruct b).
  assert (Hsw' := Hsw). destruct Hsw' as (Hl & Ha).
  destruct (metric_at_ok (switch_generation (b, s1)).2 (ts_active_index (switch_generation (b, s1)).2)) as (m & _ & Hm); [lia|].
  cbn [mbind outcome_bind]. rewrite Hm. cbn. by eexists _, _.
Qed.

(** A connection that an attempt made. *)
Definition attempted (tries : list ConnectTry) (c : Connection) : Prop :=
  exists t identity, t ∈ tries /\ tr_connect t (cn_target c) = Connected identity
    /\ validate_connection_target_role cfg identity = Some (cn_probe c).

Lemma connect_attempts_ok attempts : forall tries s,
  targets_wf s ->
  exists r s', connect_attempts cfg attempts tries s = Ok (r, s') /\ targets_wf s'
    /\ forall c, r = Some c -> attempted tries c /\ cn_target c = ts_active_index s' /\ cn_generation c = ts_generation s'.
Proof.
  induction attempts as [|attempts IH]; intros tries s Hwf; [by exists None, s|].
  destruct tries as [|t tries]; [by exists None, s|]. cbn [connect_attempts].
  destruct (connect_select_ok (tr_select t) s Hwf) as (b & s1 & -> & Hwf1). cbn [mbind outcome_bind fst snd].
  destruct b; cbn [negb]; [|by exists None, s1].
  destruct (match tr_connect t (ts_active_index s1) with Unreachable => None | Connected _ => _ end) as [probe|] eqn:Hv.
  - assert (exists s2, record_target_connection_success cfg (ts_generation s1) (tr_elapsed t) s1 = Ok s2 /\ targets_wf s2
      /\ ts_generation s2 = ts_generation s1 /\ ts_active_index s2 = ts_active_index s1) as (s2 & -> & Hwf2 & Hg & Ha).
    { unfold record_target_connection_success. rewrite Z.eqb_refl. clear Hv.
      destruct (replica_scoring_enabled cfg); cbn; [by apply update_metric_ok|by exists s1]. }
    cbn [mbind outcome_bind]. eexists _, s2. split; [reflexivity|]. split; [done|]. intros c [= <-]. cbn.
    split; [|done]. destruct (tr_connect t (ts_active_index s1)) as [|identity] eqn:Ht; [done|].
    exists t, identity. split; [set_solver|done].
  - destruct (advance_after_failure_ok (tr_fail t) (ts_generation s1) s1 Hwf1) as (s2 & -> & Hwf2).
    cbn [mbind outcome_bind]. destruct (IH tries s2 Hwf2) as (r & s3 & -> & Hwf3 & Hr).
    exists r, s3. split; [done|]. split; [done|]. intros c Hc. destruct (Hr c Hc) as ((t' & id' & Hin & Hrest) & Hta).
    split; [|done]. exists t', id'. split; [set_solver|done].
Qed.

(** The selected target is near the best one, unless all circuits are open. *)
Definition near_best (now : Z) (s : DbRepoConnectionTargetState) : Prop :=
  exists m sc, ts_target_metrics s !! ts_active_index s = Some m /\ score now m = Some sc
    /\ forall i m' sc', ts_target_metrics s !! i = Some m' -> score now m' = Some sc' ->
         sc <= sc' + REPLICA_SCORE_HYSTERESIS_MARGIN.

Lemma select_near_best now now' s b s' :
  replica_scoring_enabled cfg = true -> now <= now' -> targets_wf s ->
  select_scored_replica_locked cfg now now' false false s = Ok (b, s') ->
  near_best now' s' \/ (s' = s /\ forall i m', ts_target_metrics s !! i = Some m' -> score now' m' = None).
Proof.
  intros Hsc Hle (Hl & Ha). unfold select_scored_replica_locked, best_replica_candidate_locked. rewrite Hsc. cbn [negb].
  destruct (metric_at_ok s (ts_active_index s)) as (m & Hm & ->); [lia|]. cbn [mbind outcome_bind].
  assert (Hs := best_replica_loop_spec now' false (ts_active_index s) (ts_target_metrics s)).
  destruct (best_replica_loop _ _ _ _) as [[bi bs]|]; cbn in Hs.
  2:{ intros [= <- <-]. right. split; [done|]. intros i m' Hi. by eapply Hs. }
  destruct Hs as ((bm & Hbm & Hbs) & _ & Hmin).
  assert (Hbest : near_best now' (set_active_index bi s)).
  { exists bm, bs. split_and!; [done|done|]. intros i m' sc' Hi Hsc'. cbn in Hi.
    specialize (Hmin i m' sc' Hi ltac:(done) Hsc'). unfold REPLICA_SCORE_HYSTERESIS_MARGIN. lia. }
  case_bool_decide as Hbi.
  - intros [= <- <-]. left. subst bi. by replace (set_active_index (ts_active_index s) s) with s in Hbest by by destruct s.
  - case_match eqn:Hcond; intros [= <- <-]; [by left|]. left.
    rewrite !orb_false_iff, bool_decide_eq_false, Z.ltb_ge in Hcond. destruct Hcond as ((_ & Hn) & Hge).
    destruct (score now m) as [sc|] eqn:Hscm; [|done]. cbn in Hge.
    exists m, sc. split_and!; [done|by eapply score_later|]. intros i m' sc' Hi Hsc'.
    specialize (Hmin i m' sc' Hi ltac:(done) Hsc'). unfold sat_add in Hge. lia.
Qed.
End replicas.

(** * Theorems *)

(** A connection for replica reads is only ever made to a server that is in
    recovery and read-only, whatever the servers answer to the attempts: [connect_new]
    returns (no index is out of range), keeps the targets well formed, and what it
    returns is a connection to the active target in its current generation that one of
    the attempts validated. *)
Theorem replica_connections_read_only cfg tries s :
  ct_requirement cfg = ReadOnlyReplica -> targets_wf cfg s ->
  exists r s', connect_new_unguarded cfg tries s = Ok (r, s') /\ targets_wf cfg s'
    /\ forall c, r = Some c ->
         cn_target c = ts_active_index s' /\ cn_generation c = ts_generation s'
         /\ exists t identity p, t ∈ tries /\ tr_connect t (cn_target c) = Connected identity
              /\ probe_connection_target identity = Some p /\ pb_recovery p = true /\ pb_read_only p = true.
Proof.
  intros Hq Hwf. unfold connect_new_unguarded.
  destruct (connect_attempts_ok cfg (if ct_runtime_failover_enabled cfg then ct_target_count cfg else 1%nat) tries s Hwf)
    as (r & s' & -> & Hwf' & Hr).
  exists r, s'. split; [done|]. split; [done|]. intros c Hc. destruct (Hr c Hc) as ((t & identity & Hin & Ht & Hv) & Ha & Hg).
  split; [done|]. split; [done|]. unfold validate_connection_target_role in Hv. rewrite Hq, bool_decide_false in Hv by done.
  destruct (probe_connection_target identity) as [p|] eqn:Hp; [|done]. cbn in Hv.
  destruct (pb_recovery p && pb_read_only p) eqn:Hb; [|done]. apply andb_true_iff in Hb as [? ?].
  exists t, identity, p. done.
Qed.

(** The replica prepared for a read has a closed circuit, and its score is at most
    the hysteresis margin above the best score of the targets with a closed circuit;
    none is prepared only when every circuit is open. The scores themselves do not
    change, and no index is out of range. *)
Theorem prepared_replica_near_best cfg clk s :
  ct_requirement cfg = ReadOnlyReplica -> targets_wf cfg s ->
  clk 0%nat <= clk 1%nat -> clk 1%nat <= clk 2%nat ->
  exists r s', prepare_scored_replica cfg clk s = Ok (r, s') /\ targets_wf cfg s'
    /\ ts_target_metrics s' = ts_target_metrics s
    /\ match r with
       | Some generation =>
           generation = ts_generation s'
           /\ exists m sc, ts_target_metrics s !! ts_active_index s' = Some m /\ score (clk 2%nat) m = Some sc
                /\ forall i m' sc', ts_target_metrics s !! i = Some m' -> score (clk 1%nat) m' = Some sc' ->
                     sc <= sc' + REPLICA_SCORE_HYSTERESIS_MARGIN
       | None => forall i m', ts_target_metrics s !! i = Some m' -> score (clk 1%nat) m' = None
       end.
Proof.
  intros Hq Hwf H01 H12. unfold prepare_scored_replica.
  assert (Hsc : replica_scoring_enabled cfg = true) by (unfold replica_scoring_enabled; by rewrite Hq). rewrite Hsc. cbn [negb].
  destruct (select_ok cfg (clk 0%nat) (clk 1%nat) false false s Hwf) as (b & s1 & Hsel & Hwf1 & Hm1 & Hg1).
  assert (Hnear := select_near_best cfg _ _ _ _ _ Hsc H01 Hwf Hsel). rewrite Hsel. cbn [fmap outcome_fmap mbind outcome_bind].
  set (s2 := (switch_generation (b, s1)).2).
  assert (Hs2 : targets_wf cfg s2 /\ ts_target_metrics s2 = ts_target_metrics s1 /\ ts_active_index s2 = ts_active_index s1)
    by (by destruct b).
  destruct Hs2 as (Hwf2 & Hm2 & Ha2). destruct (metric_at_ok s2 (ts_active_index s2)) as (m & Hm & ->).
  { destruct Hwf2 as (-> & ?). done. }
  cbn [mbind outcome_bind]. eexists _, s2. split; [reflexivity|]. split; [done|]. split; [congruence|].
  rewrite Hm2, Hm1, Ha2 in Hm. destruct Hnear as [(m' & sc & Hm' & Hs & Hmin)|(-> & Hnone)].
  - rewrite Hm1 in *. assert (m' = m) as -> by congruence. rewrite (score_later _ _ _ _ H12 Hs). cbn.
    split; [done|]. exists m, sc. rewrite Ha2. split; [done|]. split; [by eapply score_later|done].
  - case_bool_decide as Hb; [|done]. split; [done|]. destruct Hb as [sc Hb]. exists m, sc. rewrite Ha2.
    split; [done|]. split; [done|]. intros i m' sc' Hi Hsc'. by rewrite (Hnone i m' Hi) in Hsc'.
Qed.

(** ** Witnesses *)

(** Two replicas; the active one is slow. *)
Definition sample_replicas : DbRepoConnectionTargets :=
  {| ct_target_count := 2; ct_requirement := ReadOnlyReplica; ct_runtime_failover_enabled := true |}.
Definition sample_replica_state : DbRepoConnectionTargetState :=
  set_target_metrics [record_operation_success 900000 metric_default; record_operation_success 1000 metric_default]
    (target_state_default 2).
Definition sample_try : ConnectTry :=
  {| tr_select := fun _ => 0; tr_fail := fun _ => 0; tr_elapsed := 10;
     tr_connect := fun i => match i with
                            | 0%nat => Connected (Some (txt "t|on|7001|10.0.0.2:5432|1700000001"))
                            | _ => Connected (Some (txt "f|off|7001|10.0.0.1:5432|1700000000"))
                            end |}.

Lemma prepared_replica_near_best_witness :
  exists s', prepare_scored_replica sample_replicas (fun _ => 0) sample_replica_state = Ok (Some 2, s')
    /\ ts_active_index s' = 1%nat /\ targets_wf sample_replicas s'.
Proof.
  destruct (prepared_replica_near_best sample_replicas (fun _ => 0) sample_replica_state) as (r & s' & Hr & Hwf & _);
    [reflexivity|split; vm_compute; [reflexivity|lia]|lia|lia|].
  exists s'. assert (Hrun := Hr). vm_compute in Hrun. injection Hrun as <- <-.
  split; [exact Hr|]. split; [reflexivity|exact Hwf].
Defined.

(** The second target, selected first, turns out to be the primary and is refused. *)
Lemma replica_connections_read_only_witness :
  exists c s', connect_new_unguarded sample_replicas [sample_try; sample_try] sample_replica_state = Ok (Some c, s')
    /\ cn_target c = 0%nat /\ cn_target c = ts_active_index s'.
Proof.
  destruct (replica_connections_read_only sample_replicas [sample_try; sample_try] sample_replica_state)
    as (r & s' & Hr & Hwf & Hc); [reflexivity|split; vm_compute; [reflexivity|lia]|].
  assert (Hrun := Hr). vm_compute in Hrun. injection Hrun as <- <-.
  eexists _, _. split; [exact Hr|]. split; [reflexivity|]. apply (Hc _ eq_refl).
Defined.
