(* ===== verification/PromotionGuard.v ===== *)
(** * The promotion guard at work

    The threads that share one [DbRepoConnectionTargets] of src/rust_hotpath/src/pg.rs
    for the primary: operations that pass [begin_primary_operation], the thread that
    holds the transition mutex in [connect_new] or [mark_operation_connection_failure],
    and servers that answer as they like. In every reachable state the operations in
    flight all use one validated server. *)

From stdpp Require Import prelude list numbers strings relations.
From Stdlib Require Import ZArith Lia Ascii.
From S2P Require Import Prelude Text ConnTargets.

#[local] Open Scope Z_scope.
Set Default Proof Using "Type".

Section guard.
Context (cfg : DbRepoConnectionTargets).

(** ** Threads

    The thread that holds the transition mutex, at the points where it waits for
    servers or for the operations in flight. *)

Inductive Holder : Set :=
  | HConnect
  | HActive (generation : Z) (index : nat) (id fingerprint : option text)
  | HAdvance (index : nat) (primary_transition : bool)
  | HRevalidate (generation : Z) (index : nat) (primary_transition : bool)
  | HScan (expected : option text) (avoid : option nat)
  | HSelect (candidate : PrimarySafetyCandidate) (p : DbRepoConnectionTargetProbe) (was_revalidation : bool)
      (previous_index : nat) (primary_transition : bool)
  | HMark (primary_transition : bool).

(** [wd_idle]: connections of the pool or of threads before their operation;
    [wd_running]: those of operations in flight. *)
Record World := {
  wd_state : DbRepoConnectionTargetState;
  wd_holder : option Holder;
  wd_idle : list Connection;
  wd_running : list Connection;
}.

Definition waited (primary_transition : bool) (s : DbRepoConnectionTargetState) : Prop :=
  primary_transition = true -> ts_primary_operations_in_flight s = 0.

(** How the holder goes on after [advance_after_failure_begin] or
    [mark_primary_revalidation_begin]: an old failure needs no wait. *)
Definition after_begin (wait : bool -> Holder) (index : nat) (r : option bool * DbRepoConnectionTargetState) : Holder :=
  match r.1 with
  | Some primary_transition => wait primary_transition
  | None => HScan (ts_primary_system_identifier r.2) (Some index)
  end.

Inductive world_step : World -> World -> Prop :=
  | step_begin s h idle1 c idle2 running r s' :
      ts_primary_transition_pending s = false -> begin_primary_operation cfg (cn_generation c) s = (r, s') ->
      world_step {| wd_state := s; wd_holder := h; wd_idle := idle1 ++ c :: idle2; wd_running := running |}
        {| wd_state := s'; wd_holder := h; wd_idle := idle1 ++ idle2;
           wd_running := match r with Ok true => c :: running | _ => running end |}
  | step_finish s h idle running1 c running2 (cached : bool) :
      world_step {| wd_state := s; wd_holder := h; wd_idle := idle; wd_running := running1 ++ c :: running2 |}
        {| wd_state := finish_primary_operation s; wd_holder := h; wd_idle := if cached then c :: idle else idle;
           wd_running := running1 ++ running2 |}
  | step_lock s idle running :
      world_step {| wd_state := s; wd_holder := None; wd_idle := idle; wd_running := running |}
        {| wd_state := s; wd_holder := Some HConnect; wd_idle := idle; wd_running := running |}
  | step_read s idle running :
      world_step {| wd_state := s; wd_holder := Some HConnect; wd_idle := idle; wd_running := running |}
        {| wd_state := s;
           wd_holder := Some (if needs_scan s then HScan (ts_primary_system_identifier s) (ts_primary_last_failed_index s)
                              else HActive (ts_generation s) (ts_active_index s) (ts_primary_system_identifier s)
                                     (ts_primary_server_fingerprint s));
           wd_idle := idle; wd_running := running |}
  | step_failed s g i id fp r idle running :
      active_verdict id fp r = TargetFailed ->
      world_step {| wd_state := s; wd_holder := Some (HActive g i id fp); wd_idle := idle; wd_running := running |}
        {| wd_state := (advance_after_failure_begin cfg g s).2;
           wd_holder := Some (after_begin (HAdvance i) i (advance_after_failure_begin cfg g s));
           wd_idle := idle; wd_running := running |}
  | step_changed s g i id fp r idle running :
      active_verdict id fp r = TargetChanged ->
      world_step {| wd_state := s; wd_holder := Some (HActive g i id fp); wd_idle := idle; wd_running := running |}
        {| wd_state := (mark_primary_revalidation_begin cfg g s).2;
           wd_holder := Some (after_begin (HRevalidate g i) i (mark_primary_revalidation_begin cfg g s));
           wd_idle := idle; wd_running := running |}
  | step_ready s g i id fp r p idle running :
      active_verdict id fp r = TargetReady p ->
      world_step {| wd_state := s; wd_holder := Some (HActive g i id fp); wd_idle := idle; wd_running := running |}
        {| wd_state := s; wd_holder := None;
           wd_idle := {| cn_target := i; cn_probe := Some p; cn_generation := g |} :: idle; wd_running := running |}
  | step_advanced s i tr clk s' idle running :
      waited tr s -> advance_after_failure_finish cfg clk tr s = Ok s' ->
      world_step {| wd_state := s; wd_holder := Some (HAdvance i tr); wd_idle := idle; wd_running := running |}
        {| wd_state := s'; wd_holder := Some (HScan (ts_primary_system_identifier s') (Some i));
           wd_idle := idle; wd_running := running |}
  | step_revalidated s g i tr idle running :
      waited tr s ->
      world_step {| wd_state := s; wd_holder := Some (HRevalidate g i tr); wd_idle := idle; wd_running := running |}
        {| wd_state := mark_primary_revalidation_finish g i tr s;
           wd_holder := Some (HScan (ts_primary_system_identifier (mark_primary_revalidation_finish g i tr s)) (Some i));
           wd_idle := idle; wd_running := running |}
  | step_rejected s expected avoid answers kind idle running :
      choose_safe_primary_candidate (fst <$> live_candidates cfg answers) expected avoid = Err kind ->
      world_step {| wd_state := s; wd_holder := Some (HScan expected avoid); wd_idle := idle; wd_running := running |}
        {| wd_state := guarded_reject s; wd_holder := None; wd_idle := idle; wd_running := running |}
  | step_chosen s expected avoid answers position c p idle running :
      choose_safe_primary_candidate (fst <$> live_candidates cfg answers) expected avoid = Ok position ->
      live_candidates cfg answers !! position = Some (c, p) ->
      world_step {| wd_state := s; wd_holder := Some (HScan expected avoid); wd_idle := idle; wd_running := running |}
        {| wd_state := (guarded_select_begin cfg c s).2;
           wd_holder := Some (HSelect c p (ts_primary_revalidation_required s) (ts_active_index s) (guarded_select_begin cfg c s).1);
           wd_idle := idle; wd_running := running |}
  | step_selected s c p was previous tr idle running :
      waited tr s ->
      world_step {| wd_state := s; wd_holder := Some (HSelect c p was previous tr); wd_idle := idle; wd_running := running |}
        {| wd_state := guarded_select_finish c was previous tr s; wd_holder := None;
           wd_idle := {| cn_target := pc_target_index c; cn_probe := Some p;
                         cn_generation := ts_generation (guarded_select_finish c was previous tr s) |} :: idle;
           wd_running := running |}
  | step_mark s g idle running :
      world_step {| wd_state := s; wd_holder := None; wd_idle := idle; wd_running := running |}
        {| wd_state := (advance_after_failure_begin cfg g s).2;
           wd_holder := HMark <$> (advance_after_failure_begin cfg g s).1; wd_idle := idle; wd_running := running |}
  | step_marked s tr clk s' idle running :
      waited tr s -> advance_after_failure_finish cfg clk tr s = Ok s' ->
      world_step {| wd_state := s; wd_holder := Some (HMark tr); wd_idle := idle; wd_running := running |}
        {| wd_state := s'; wd_holder := None; wd_idle := idle; wd_running := running |}
  | step_drop s h idle1 c idle2 running :
      world_step {| wd_state := s; wd_holder := h; wd_idle := idle1 ++ c :: idle2; wd_running := running |}
        {| wd_state := s; wd_holder := h; wd_idle := idle1 ++ idle2; wd_running := running |}.

Definition world_init : World :=
  {| wd_state := target_state_default (ct_target_count cfg); wd_holder := None; wd_idle := []; wd_running := [] |}.

(** ** The invariant *)

(** Every connection was writable and of the cluster; one of the current generation is
    on the active target, whose identity is the recorded one. *)
Definition connection_current (s : DbRepoConnectionTargetState) (c : Connection) (p : DbRepoConnectionTargetProbe) : Prop :=
  ts_primary_revalidation_required s = false /\ ts_active_index s = cn_target c
  /\ ts_primary_server_fingerprint s = Some (pb_server_fingerprint p).

Definition connection_ok (s : DbRepoConnectionTargetState) (c : Connection) : Prop :=
  exists p, cn_probe c = Some p /\ writable_primary p = true /\ cn_generation c <= ts_generation s
    /\ ts_primary_system_identifier s = Some (pb_system_identifier p)
    /\ (cn_generation c = ts_generation s -> connection_current s c p).

(** No connection of the current generation is left. *)
Definition outdated (s : DbRepoConnectionTargetState) (c : Connection) : Prop := cn_generation c < ts_generation s.

Definition holder_ok (s : DbRepoConnectionTargetState) (fresh : Prop) (h : option Holder) : Prop :=
  match h with
  | None | Some HConnect => ts_primary_transition_pending s = false
  | Some (HActive g i id fp) =>
      ts_primary_transition_pending s = false /\ needs_scan s = false /\ g = ts_generation s
      /\ i = ts_active_index s /\ id = ts_primary_system_identifier s /\ fp = ts_primary_server_fingerprint s
  | Some (HAdvance i tr) => ts_primary_transition_pending s = true /\ tr = true
  | Some (HRevalidate g i tr) => ts_primary_transition_pending s = true /\ tr = true /\ g = ts_generation s
  | Some (HMark tr) => ts_primary_transition_pending s = true /\ tr = true
  | Some (HScan expected avoid) =>
      ts_primary_transition_pending s = false /\ fresh /\ expected = ts_primary_system_identifier s
  | Some (HSelect c p was previous tr) =>
      ts_primary_transition_pending s = tr /\ fresh /\ writable_primary p = true
      /\ pc_system_identifier c = pb_system_identifier p /\ pc_server_fingerprint c = pb_server_fingerprint p
      /\ (forall id, ts_primary_system_identifier s = Some id -> pc_system_identifier c = id)
      /\ previous = ts_active_index s
  end.

Record guard_inv (w : World) : Prop := {
  gi_in_flight : ts_primary_operations_in_flight (wd_state w) = zlen (wd_running w);
  gi_running : Forall (fun c => cn_generation c = ts_generation (wd_state w)) (wd_running w);
  gi_connections : Forall (connection_ok (wd_state w)) (wd_idle w ++ wd_running w);
  gi_scan : needs_scan (wd_state w) = true -> Forall (outdated (wd_state w)) (wd_idle w ++ wd_running w);
  gi_holder : holder_ok (wd_state w) (Forall (outdated (wd_state w)) (wd_idle w ++ wd_running w)) (wd_holder w);
}.

(** The fields that connections are compared with. *)
Definition same_primary (s s' : DbRepoConnectionTargetState) : Prop :=
  ts_generation s' = ts_generation s /\ ts_active_index s' = ts_active_index s
  /\ ts_primary_system_identifier s' = ts_primary_system_identifier s
  /\ ts_primary_server_fingerprint s' = ts_primary_server_fingerprint s
  /\ ts_primary_revalidation_required s' = ts_primary_revalidation_required s.

Lemma connection_ok_same s s' c : same_primary s s' -> connection_ok s c -> connection_ok s' c.
Proof. unfold connection_ok, connection_current. by intros (-> & -> & -> & -> & ->). Qed.

Lemma outdated_same s s' c : same_primary s s' -> outdated s c -> outdated s' c.
Proof. unfold outdated. by intros (-> & _). Qed.

Lemma needs_scan_same s s' : same_primary s s' -> needs_scan s' = needs_scan s.
Proof. unfold needs_scan. by intros (_ & _ & -> & -> & ->). Qed.

(** An outdated connection stays one, whatever becomes of the target. *)
Lemma connection_ok_outdated s s' c :
  ts_generation s <= ts_generation s' -> ts_primary_system_identifier s' = ts_primary_system_identifier s ->
  connection_ok s c -> outdated s' c -> connection_ok s' c.
Proof.
  unfold outdated. intros Hle Hid (p & Hp & Hw & Hg & Hs & _) Ho. exists p. rewrite Hid. split_and!; [done|done|lia|done|lia].
Qed.

Lemma connection_ok_bumped s s' c :
  ts_generation s < ts_generation s' -> connection_ok s c -> outdated s' c.
Proof. unfold outdated. intros Hlt (p & _ & _ & Hg & _). lia. Qed.

Lemma holder_ok_same s s' (fresh fresh' : Prop) h :
  same_primary s s' -> ts_primary_transition_pending s' = ts_primary_transition_pending s -> (fresh -> fresh') ->
  holder_ok s fresh h -> holder_ok s' fresh' h.
Proof.
  intros Hs Hp Hf. assert (Hn := needs_scan_same _ _ Hs). destruct Hs as (Hg & Hi & Hid & Hfp & Hr).
  destruct h as [[]|]; cbn; rewrite ?Hp, ?Hn, ?Hg, ?Hi, ?Hid, ?Hfp, ?Hr; tauto.
Qed.

(** A step that leaves the primary alone and makes no connection. *)
Lemma guard_inv_same w w' :
  guard_inv w -> same_primary (wd_state w) (wd_state w') ->
  (forall c, c ∈ wd_idle w' ++ wd_running w' -> c ∈ wd_idle w ++ wd_running w) ->
  ts_primary_operations_in_flight (wd_state w') = zlen (wd_running w') ->
  Forall (fun c => cn_generation c = ts_generation (wd_state w)) (wd_running w') ->
  holder_ok (wd_state w') (Forall (outdated (wd_state w)) (wd_idle w ++ wd_running w)) (wd_holder w') ->
  guard_inv w'.
Proof.
  intros [Hn Hr Hc Hsc Hh] Hs Hsub Hn' Hr' Hh'.
  assert (Hout : Forall (outdated (wd_state w)) (wd_idle w ++ wd_running w) ->
                 Forall (outdated (wd_state w')) (wd_idle w' ++ wd_running w')).
  { rewrite !Forall_forall. eauto using outdated_same. }
  split.
  - done.
  - destruct Hs as (-> & _). done.
  - rewrite Forall_forall in *. eauto using connection_ok_same.
  - rewrite (needs_scan_same _ _ Hs). auto.
  - eapply holder_ok_same; [|done|exact Hout|exact Hh']. by split_and!.
Qed.

(** The target is given up: the generation moves on when nothing is in flight. *)
Lemma guard_inv_bumped w s' h' :
  guard_inv w -> ts_primary_operations_in_flight (wd_state w) = 0 ->
  ts_generation (wd_state w) < ts_generation s' ->
  ts_primary_system_identifier s' = ts_primary_system_identifier (wd_state w) ->
  ts_primary_operations_in_flight s' = 0 ->
  holder_ok s' True h' ->
  guard_inv {| wd_state := s'; wd_holder := h'; wd_idle := wd_idle w; wd_running := wd_running w |}.
Proof.
  intros [Hn Hr Hc Hsc Hh] H0 Hlt Hid H0' Hh'.
  assert (Hout : Forall (outdated s') (wd_idle w ++ wd_running w)).
  { rewrite Forall_forall in *. eauto using connection_ok_bumped. }
  assert (Hrun : wd_running w = []).
  { rewrite H0 in Hn. destruct (wd_running w); [done|unfold zlen in Hn; cbn in Hn; lia]. }
  split; cbn; [|rewrite Hrun; constructor| |done|].
  - by rewrite Hrun, H0'.
  - rewrite Forall_forall in *. intros c Hin. eapply connection_ok_outdated; eauto; lia.
  - eapply holder_ok_same; [|done|intros _; exact Hout|exact Hh']. by split_and!.
Qed.

(** A connection to the active target is handed out. *)
Lemma guard_inv_connected w c :
  guard_inv w -> ts_primary_transition_pending (wd_state w) = false -> needs_scan (wd_state w) = false ->
  connection_ok (wd_state w) c ->
  guard_inv {| wd_state := wd_state w; wd_holder := None; wd_idle := c :: wd_idle w; wd_running := wd_running w |}.
Proof.
  intros [Hn Hr Hc Hsc Hh] Hp Hs Hok. split; cbn; [done|done| |by rewrite Hs|done].
  by constructor.
Qed.

Lemma zlen_insert {A} (l1 l2 : list A) x : zlen (l1 ++ x :: l2) = zlen (l1 ++ l2) + 1.
Proof. unfold zlen. rewrite !length_app. cbn. lia. Qed.

Lemma guard_inv_finish s h idle running1 c running2 (cached : bool) :
  guard_inv {| wd_state := s; wd_holder := h; wd_idle := idle; wd_running := running1 ++ c :: running2 |} ->
  guard_inv {| wd_state := finish_primary_operation s; wd_holder := h; wd_idle := if cached then c :: idle else idle;
               wd_running := running1 ++ running2 |}.
Proof.
  intros Hw. assert (Hi := Hw). destruct Hi as [Hn Hr Hc Hsc Hh]. cbn in *. rewrite zlen_insert in Hn.
  assert (Hfin : finish_primary_operation s = set_in_flight (zlen (running1 ++ running2)) s).
  { unfold finish_primary_operation. rewrite Hn. destruct (Z.eqb_spec (zlen (running1 ++ running2) + 1) 0); unfold zlen in *; [lia|].
    f_equal. lia. }
  rewrite Hfin. rewrite Forall_app, Forall_cons in Hr.
  eapply guard_inv_same; [exact Hw|..]; cbn.
  - by split_and!.
  - destruct cached; set_solver.
  - done.
  - rewrite Forall_app. tauto.
  - eapply holder_ok_same; [|done|exact id|exact Hh]. by split_and!.
Qed.

(** The holder sees the failure of the active target and asks for its turn. *)
Lemma guard_inv_pending s h idle running h' :
  guard_inv {| wd_state := s; wd_holder := h; wd_idle := idle; wd_running := running |} ->
  (forall fresh, holder_ok (set_pending true s) fresh (Some h')) ->
  guard_inv {| wd_state := set_pending true s; wd_holder := Some h'; wd_idle := idle; wd_running := running |}.
Proof.
  intros Hw Hh'. assert (Hi := Hw). destruct Hi as [Hn Hr Hc Hsc Hh]. cbn in *.
  eapply guard_inv_same; [exact Hw|..]; cbn; [by split_and!|done|done|done|apply Hh'].
Qed.

Lemma guard_inv_read s idle running :
  guard_inv {| wd_state := s; wd_holder := Some HConnect; wd_idle := idle; wd_running := running |} ->
  guard_inv {| wd_state := s;
     wd_holder := Some (if needs_scan s then HScan (ts_primary_system_identifier s) (ts_primary_last_failed_index s)
                        else HActive (ts_generation s) (ts_active_index s) (ts_primary_system_identifier s)
                               (ts_primary_server_fingerprint s));
     wd_idle := idle; wd_running := running |}.
Proof.
  intros Hw. assert (Hi := Hw). destruct Hi as [Hn Hr Hc Hsc Hh]. cbn in *.
  eapply guard_inv_same; [exact Hw|..]; cbn; [by split_and!|done|done|done|].
  destruct (needs_scan s) eqn:Hs; cbn; split_and!; auto.
Qed.

Lemma active_verdict_ready id fp r p :
  active_verdict id fp r = TargetReady p ->
  writable_primary p = true /\ id = Some (pb_system_identifier p) /\ fp = Some (pb_server_fingerprint p).
Proof.
  unfold active_verdict. destruct r as [|identity]; [done|].
  destruct (probe_connection_target identity) as [q|]; [|done].
  destruct (writable_primary q) eqn:Hw; cbn; [|done].
  case_bool_decide; cbn; [|done]. case_bool_decide; cbn; [|done]. intros [= <-]. done.
Qed.

Lemma needs_scan_false s :
  needs_scan s = false ->
  ts_primary_revalidation_required s = false /\ is_Some (ts_primary_system_identifier s)
  /\ is_Some (ts_primary_server_fingerprint s).
Proof.
  unfold needs_scan. rewrite !orb_false_iff, !bool_decide_eq_false, <- !not_eq_None_Some. tauto.
Qed.

(** The choice of the scan becomes the active target. *)
Lemma select_finish_state c was previous tr s :
  previous = ts_active_index s -> ts_primary_transition_pending s = tr ->
  let s' := guarded_select_finish c was previous tr s in
  ts_active_index s' = pc_target_index c /\ ts_primary_system_identifier s' = Some (pc_system_identifier c)
  /\ ts_primary_server_fingerprint s' = Some (pc_server_fingerprint c)
  /\ ts_primary_revalidation_required s' = false /\ ts_primary_transition_pending s' = false
  /\ ts_primary_operations_in_flight s' = ts_primary_operations_in_flight s
  /\ (ts_generation s' = ts_generation s \/ ts_generation s' = sat_add (ts_generation s) 1).
Proof.
  intros -> Hp. unfold guarded_select_finish, finish_primary_transition_locked.
  case_bool_decide as Hi; [|destruct was]; destruct tr; cbn; split_and!; auto.
Qed.

Lemma guard_inv_selected s c p was previous tr idle running :
  let s' := guarded_select_finish c was previous tr s in
  guard_inv {| wd_state := s; wd_holder := Some (HSelect c p was previous tr); wd_idle := idle; wd_running := running |} ->
  ts_generation s' < U64_MAX ->
  guard_inv {| wd_state := s'; wd_holder := None;
               wd_idle := {| cn_target := pc_target_index c; cn_probe := Some p; cn_generation := ts_generation s' |} :: idle;
               wd_running := running |}.
Proof.
  intros s' [Hn Hr Hc Hsc (Hp & Hfresh & Hw & Hcs & Hcf & Hid & Hprev)] HM. cbn in *.
  destruct (select_finish_state c was previous tr s Hprev Hp) as (Ha & Hs & Hf & Hrv & Hp' & Hn' & Hg).
  fold s' in Ha, Hs, Hf, Hrv, Hp', Hn', Hg.
  assert (Hle : ts_generation s <= ts_generation s') by (unfold sat_add in Hg; lia).
  assert (Hrun : running = []).
  { destruct running as [|d running]; [done|]. rewrite Forall_app, !Forall_cons in Hfresh.
    apply Forall_cons in Hr as [Hr _]. unfold outdated in Hfresh. lia. }
  assert (Hno : needs_scan s' = false).
  { unfold needs_scan. by rewrite Hrv, Hs, Hf. }
  split; cbn.
  - by rewrite Hn', Hn.
  - by rewrite Hrun.
  - constructor.
    + exists p. cbn. rewrite Hs, Hcs. unfold connection_current. cbn. rewrite Hrv, Ha, Hf, Hcf. by split_and!.
    + rewrite Forall_forall in *. intros d Hd. destruct (Hc d Hd) as (q & Hq & Hqw & _ & Hqs & _).
      specialize (Hfresh d Hd). unfold outdated in Hfresh. exists q. rewrite Hs, (Hid _ Hqs).
      split_and!; [done|done|lia|done|lia].
  - by rewrite Hno.
  - done.
Qed.

Lemma guard_inv_rejected s expected avoid idle running :
  guard_inv {| wd_state := s; wd_holder := Some (HScan expected avoid); wd_idle := idle; wd_running := running |} ->
  guard_inv {| wd_state := guarded_reject s; wd_holder := None; wd_idle := idle; wd_running := running |}.
Proof.
  intros [Hn Hr Hc Hsc (Hp & Hfresh & Hexp)]. cbn in *. split; cbn; [done|done| |done|done].
  rewrite Forall_forall in *. intros c Hin.
  eapply (connection_ok_outdated s); [reflexivity|reflexivity|auto|by apply (Hfresh c)].
Qed.

Hypothesis guarded : primary_promotion_guard_enabled cfg = true.

Lemma guarded_not_scored : replica_scoring_enabled cfg = false.
Proof using guarded.
  revert guarded. unfold primary_promotion_guard_enabled, replica_scoring_enabled.
  destruct (ct_requirement cfg); done.
Qed.

Lemma advance_finish_guarded clk tr s :
  advance_after_failure_finish cfg clk tr s =
  Ok (finish_primary_transition_locked tr
        (set_primary (ts_primary_system_identifier s) (ts_primary_server_fingerprint s) true
           (Some (ts_active_index s)) (bump_generation s))).
Proof using guarded. unfold advance_after_failure_finish. by rewrite guarded_not_scored, guarded. Qed.

Lemma wait_guarded s : wait_for_primary_operations cfg (ts_generation s) s = (true, set_pending true s).
Proof using guarded. unfold wait_for_primary_operations. by rewrite guarded, Z.eqb_refl. Qed.

Lemma begin_guarded g s r s' :
  begin_primary_operation cfg g s = (r, s') ->
  (r = Ok true /\ g = ts_generation s /\ s' = set_in_flight (ts_primary_operations_in_flight s + 1) s)
  \/ (r <> Ok true /\ s' = s).
Proof using guarded.
  unfold begin_primary_operation, checked_add. rewrite guarded. cbn.
  destruct (Z.eqb_spec (ts_generation s) g) as [Hg|]; cbn; [|intros [= <- <-]; by right].
  case_match; intros [= <- <-]; [left|by right]. case_match; simplify_eq. done.
Qed.

Lemma advance_begin_guarded g s :
  advance_after_failure_begin cfg g s = if ts_generation s =? g then (Some true, set_pending true s) else (None, s).
Proof using guarded.
  unfold advance_after_failure_begin. destruct (Z.eqb_spec (ts_generation s) g) as [<-|]; [|done].
  cbn. by rewrite guarded, wait_guarded.
Qed.

Lemma revalidation_begin_guarded g s :
  mark_primary_revalidation_begin cfg g s = if ts_generation s =? g then (Some true, set_pending true s) else (None, s).
Proof using guarded.
  unfold mark_primary_revalidation_begin. destruct (Z.eqb_spec (ts_generation s) g) as [<-|]; [|done].
  cbn. by rewrite wait_guarded.
Qed.

Lemma guard_inv_begin s h idle1 c idle2 running r s' :
  guard_inv {| wd_state := s; wd_holder := h; wd_idle := idle1 ++ c :: idle2; wd_running := running |} ->
  begin_primary_operation cfg (cn_generation c) s = (r, s') ->
  guard_inv {| wd_state := s'; wd_holder := h; wd_idle := idle1 ++ idle2;
               wd_running := match r with Ok true => c :: running | _ => running end |}.
Proof using guarded.
  intros Hw Hb. assert (Hi := Hw). destruct Hi as [Hn Hr Hc Hsc Hh]. cbn in *.
  destruct (begin_guarded _ _ _ _ Hb) as [(-> & Hg & ->)|(Hne & ->)].
  - eapply guard_inv_same; [exact Hw|..]; cbn; [by split_and!|set_solver|rewrite Hn; unfold zlen; cbn; lia|by constructor|].
    eapply holder_ok_same; [|done|exact id|exact Hh]. by split_and!.
  - replace (match r with Ok true => c :: running | _ => running end) with running by by destruct r as [[]| |].
    eapply guard_inv_same; [exact Hw|..]; cbn; [by split_and!|set_solver|done|done|done].
Qed.


Lemma guard_inv_chosen s expected avoid answers position c p idle running :
  guard_inv {| wd_state := s; wd_holder := Some (HScan expected avoid); wd_idle := idle; wd_running := running |} ->
  choose_safe_primary_candidate (fst <$> live_candidates cfg answers) expected avoid = Ok position ->
  live_candidates cfg answers !! position = Some (c, p) ->
  guard_inv {| wd_state := (guarded_select_begin cfg c s).2;
     wd_holder := Some (HSelect c p (ts_primary_revalidation_required s) (ts_active_index s) (guarded_select_begin cfg c s).1);
     wd_idle := idle; wd_running := running |}.
Proof using guarded.
  intros Hw Hch Hpos. assert (Hi := Hw). destruct Hi as [Hn Hr Hc Hsc (Hp & Hfresh & Hexp)]. cbn in *.
  destruct (choose_safe_primary_sound _ _ _ _ Hch) as (c' & Hc' & Hall & _).
  rewrite list_lookup_fmap, Hpos in Hc'. injection Hc' as <-.
  assert (Hin : (c, p) ∈ live_candidates cfg answers) by (by eapply list_elem_of_lookup_2).
  assert (Hid := proj1 (Hall c (list_elem_of_fmap_2 fst _ _ Hin))).
  apply live_candidates_spec in Hin as (_ & Hcs & Hcf & Hwr & _).
  assert (Hb : same_primary s (guarded_select_begin cfg c s).2
    /\ ts_primary_transition_pending (guarded_select_begin cfg c s).2 = (guarded_select_begin cfg c s).1
    /\ ts_primary_operations_in_flight (guarded_select_begin cfg c s).2 = ts_primary_operations_in_flight s).
  { unfold guarded_select_begin. rewrite wait_guarded. destruct (_ && _); cbn; by split_and!. }
  destruct Hb as (Hsame & Hpend & Hfl).
  eapply guard_inv_same; [exact Hw|exact Hsame|done|cbn; by rewrite Hfl|done|]. cbn.
  destruct Hsame as (_ & -> & -> & _). split_and!; try done.
  intros id' Hid'. rewrite Hexp, Hid' in Hid. done.
Qed.

Lemma guard_inv_step w w' :
  guard_inv w -> world_step w w' -> ts_generation (wd_state w') < U64_MAX -> guard_inv w'.
Proof using guarded.
  intros Hw Hst HM. assert (Hi := Hw). destruct Hi as [Hn Hr Hc Hsc Hh]. destruct Hst; cbn in *.
  - by eapply guard_inv_begin.
  - by apply guard_inv_finish.
  - eapply guard_inv_same; [exact Hw|..]; cbn; [by split_and!|done..].
  - by apply guard_inv_read.
  - destruct Hh as (Hp & Hs & -> & -> & Hid & Hfp). rewrite advance_begin_guarded, Z.eqb_refl. cbn.
    eapply guard_inv_pending; [exact Hw|done].
  - destruct Hh as (Hp & Hs & -> & -> & Hid & Hfp). rewrite revalidation_begin_guarded, Z.eqb_refl. cbn.
    eapply guard_inv_pending; [exact Hw|done].
  - destruct Hh as (Hp & Hs & -> & -> & -> & ->). apply active_verdict_ready in H as (Hwr & Hid & Hfp).
    apply (guard_inv_connected _ _ Hw Hp Hs). exists p. cbn. destruct (needs_scan_false _ Hs) as (Hrv & _).
    split_and!; [done|done|lia|done|intros _; by repeat split].
  - destruct Hh as (Hp & ->). rewrite advance_finish_guarded in H0. injection H0 as <-. cbn in *.
    apply (guard_inv_bumped _ _ _ Hw); cbn; [by apply H|unfold sat_add in *; lia|done|by apply H|by split_and!].
  - destruct Hh as (Hp & -> & ->). unfold mark_primary_revalidation_finish in *. rewrite Z.eqb_refl in *. cbn in *.
    apply (guard_inv_bumped _ _ _ Hw); cbn; [by apply H|unfold sat_add in *; lia|done|by apply H|by split_and!].
  - by eapply guard_inv_rejected.
  - by eapply guard_inv_chosen.
  - by eapply guard_inv_selected.
  - rewrite advance_begin_guarded in *. destruct (Z.eqb_spec (ts_generation s) g); cbn in *; [|done].
    eapply guard_inv_pending; [exact Hw|done].
  - destruct Hh as (Hp & ->). rewrite advance_finish_guarded in H0. injection H0 as <-. cbn in *.
    apply (guard_inv_bumped _ _ _ Hw); cbn; [by apply H|unfold sat_add in *; lia|done|by apply H|done].
  - eapply guard_inv_same; [exact Hw|..]; cbn; [by split_and!|set_solver|done|done|done].
Qed.

Lemma step_generation w w' :
  world_step w w' -> ts_generation (wd_state w') < U64_MAX -> ts_generation (wd_state w) <= ts_generation (wd_state w').
Proof using guarded.
  intros Hst HM. destruct Hst; cbn in *; try lia.
  - destruct (begin_guarded _ _ _ _ H0) as [(_ & _ & ->)|(_ & ->)]; cbn; lia.
  - unfold finish_primary_operation. case_match; cbn; lia.
  - rewrite advance_begin_guarded in *. case_match; cbn in *; lia.
  - rewrite revalidation_begin_guarded in *. case_match; cbn in *; lia.
  - rewrite advance_finish_guarded in H0. injection H0 as <-. destruct tr; cbn in *; unfold sat_add in *; lia.
  - unfold mark_primary_revalidation_finish in *. destruct (ts_generation s =? g), tr; cbn in *; unfold sat_add in *; lia.
  - unfold guarded_select_begin, wait_for_primary_operations in *. repeat case_match; cbn in *; lia.
  - unfold guarded_select_finish in *.
    destruct (bool_decide _), was, tr; cbn in *; unfold sat_add in *; lia.
  - rewrite advance_begin_guarded in *. case_match; cbn in *; lia.
  - rewrite advance_finish_guarded in H0. injection H0 as <-. destruct tr; cbn in *; unfold sat_add in *; lia.
Qed.

Lemma guard_inv_steps w w' :
  rtc world_step w w' -> guard_inv w -> ts_generation (wd_state w') < U64_MAX -> guard_inv w'.
Proof using guarded.
  intros Hrtc Hw. revert w' Hrtc. refine (rtc_ind_r _ _ _ _); [done|]. intros w' w'' _ Hst IH HM.
  assert (Hle := step_generation _ _ Hst HM). eapply guard_inv_step; [apply IH; lia|done|done].
Qed.

Lemma guard_inv_init : guard_inv world_init.
Proof. split; cbn; [done|constructor|constructor|constructor|done]. Qed.

Lemma guard_inv_reachable w :
  rtc world_step world_init w -> ts_generation (wd_state w) < U64_MAX -> guard_inv w.
Proof using guarded. intros Hr. eapply guard_inv_steps; [done|apply guard_inv_init]. Qed.

(** The cluster, once known, is never exchanged for another one. *)
Lemma step_identifier w w' id :
  guard_inv w -> world_step w w' ->
  ts_primary_system_identifier (wd_state w) = Some id -> ts_primary_system_identifier (wd_state w') = Some id.
Proof using guarded.
  intros [_ _ _ _ Hh] Hst Hid. destruct Hst; cbn in *; try done.
  - destruct (begin_guarded _ _ _ _ H0) as [(_ & _ & ->)|(_ & ->)]; done.
  - unfold finish_primary_operation. by case_match.
  - rewrite advance_begin_guarded. by case_match.
  - rewrite revalidation_begin_guarded. by case_match.
  - rewrite advance_finish_guarded in H0. injection H0 as <-. by destruct tr.
  - unfold mark_primary_revalidation_finish. by destruct (ts_generation s =? g), tr.
  - unfold guarded_select_begin, wait_for_primary_operations. by repeat case_match.
  - destruct Hh as (_ & _ & _ & _ & _ & Hsame & _). rewrite <- (Hsame _ Hid).
    unfold guarded_select_finish. by destruct (bool_decide _), was, tr.
  - rewrite advance_begin_guarded. by case_match.
  - rewrite advance_finish_guarded in H0. injection H0 as <-. by destruct tr.
Qed.

Lemma steps_identifier w w' id :
  rtc world_step w w' -> guard_inv w -> ts_generation (wd_state w') < U64_MAX ->
  ts_primary_system_identifier (wd_state w) = Some id -> ts_primary_system_identifier (wd_state w') = Some id.
Proof using guarded.
  intros Hrtc Hw. revert w' Hrtc. refine (rtc_ind_r _ _ _ _); [done|]. intros w' w'' Hr Hst IH HM Hid.
  assert (Hle := step_generation _ _ Hst HM).
  eapply step_identifier; [eapply guard_inv_steps; [exact Hr|done|lia]|done|apply IH; [lia|done]].
Qed.

(** Operations in flight can all finish while a transition waits. *)
Lemma finish_all s h idle running :
  ts_primary_operations_in_flight s = zlen running ->
  nsteps world_step (length running) {| wd_state := s; wd_holder := h; wd_idle := idle; wd_running := running |}
    {| wd_state := set_in_flight 0 s; wd_holder := h; wd_idle := idle; wd_running := [] |}.
Proof.
  revert s. induction running as [|c running IH]; intros s Hn; cbn.
  - replace (set_in_flight 0 s) with s; [constructor|]. destruct s; cbn in *. by rewrite Hn.
  - eapply nsteps_l; [apply (step_finish s h idle [] c running false)|]. cbn.
    assert (finish_primary_operation s = set_in_flight (zlen running) s) as ->.
    { unfold finish_primary_operation. rewrite Hn. unfold zlen. cbn [length].
      destruct (Z.eqb_spec (Z.of_nat (S (length running))) 0); [lia|]. f_equal. lia. }
    by apply (IH (set_in_flight (zlen running) s)).
Qed.

(** Then the holder raises the fence. *)
Lemma waiting_released s h idle :
  ts_primary_operations_in_flight s = 0 -> ts_primary_transition_pending s = true ->
  (exists fresh, holder_ok s fresh h) ->
  exists w', world_step {| wd_state := s; wd_holder := h; wd_idle := idle; wd_running := [] |} w'
    /\ ts_primary_transition_pending (wd_state w') = false /\ wd_running w' = [].
Proof using guarded.
  intros H0 Hp (fresh & Hh). assert (Hwait : forall tr, waited tr s) by (intros ? _; done).
  destruct h as [[| | | | | |]|]; cbn in Hh; rewrite ?Hp in Hh; try (by destruct Hh); try done.
  - destruct Hh as (_ & ->). eexists. split; [eapply (step_advanced _ _ _ (fun _ => 0)); [apply Hwait|apply advance_finish_guarded]|].
    done.
  - destruct Hh as (_ & -> & ->). eexists. split; [apply step_revalidated; apply Hwait|].
    unfold mark_primary_revalidation_finish. by rewrite Z.eqb_refl.
  - destruct Hh as (<- & _). eexists. split; [apply step_selected; apply Hwait|].
    unfold guarded_select_finish. done.
  - destruct Hh as (_ & ->). eexists. split; [eapply (step_marked _ _ (fun _ => 0)); [apply Hwait|apply advance_finish_guarded]|].
    done.
Qed.
End guard.

(** * Theorems *)

(** C9: However threads, failures, promotions and connection attempts interleave, the
    operations in flight at one moment are all on the same target, which answered as
    the writable primary of the cluster recorded first, with one and the same server
    identity; they are counted exactly, belong to the current generation, and the
    cluster identity never changes afterwards. *)
Theorem one_primary_at_a_time cfg w :
  primary_promotion_guard_enabled cfg = true ->
  rtc (world_step cfg) (world_init cfg) w -> ts_generation (wd_state w) < U64_MAX ->
  ts_primary_operations_in_flight (wd_state w) = zlen (wd_running w)
  /\ (forall c, c ∈ wd_running w -> exists p,
        cn_probe c = Some p /\ writable_primary p = true /\ cn_generation c = ts_generation (wd_state w)
        /\ cn_target c = ts_active_index (wd_state w)
        /\ ts_primary_system_identifier (wd_state w) = Some (pb_system_identifier p)
        /\ ts_primary_server_fingerprint (wd_state w) = Some (pb_server_fingerprint p))
  /\ (forall id w', ts_primary_system_identifier (wd_state w) = Some id ->
        rtc (world_step cfg) w w' -> ts_generation (wd_state w') < U64_MAX ->
        ts_primary_system_identifier (wd_state w') = Some id).
Proof.
  intros Hg Hr HM. assert (Hi := guard_inv_reachable cfg Hg w Hr HM). split_and!.
  - apply (gi_in_flight _ Hi).
  - intros c Hc. destruct Hi as [_ Hrun Hcon _ _]. rewrite Forall_forall in Hrun, Hcon.
    specialize (Hrun c Hc). destruct (Hcon c ltac:(set_solver)) as (p & Hp & Hw & _ & Hid & Hcur).
    destruct (Hcur Hrun) as (_ & Ht & Hf). exists p. by split_and!.
  - intros id w' Hid Hr' HM'. by eapply steps_identifier.
Qed.

(** C22: The fence of a change of the primary is always lifted: when a transition is
    pending its thread is waiting for nothing but the operations in flight, and once
    these have finished its next step lets new operations begin. *)
Theorem fence_is_released cfg w :
  primary_promotion_guard_enabled cfg = true ->
  rtc (world_step cfg) (world_init cfg) w -> ts_generation (wd_state w) < U64_MAX ->
  ts_primary_transition_pending (wd_state w) = true ->
  exists w', nsteps (world_step cfg) (length (wd_running w) + 1) w w'
    /\ ts_primary_transition_pending (wd_state w') = false /\ wd_running w' = [].
Proof.
  intros Hg Hr HM Hp. destruct (guard_inv_reachable cfg Hg w Hr HM) as [Hn _ _ _ Hh].
  destruct w as [s h idle running]; cbn in *.
  destruct (waiting_released cfg Hg (set_in_flight 0 s) h idle) as (w' & Hst & Hp' & Hrun); [done|done| |].
  { eexists. eapply holder_ok_same; [|done|exact id|exact Hh]. by split_and!. }
  exists w'. split; [|done]. eapply nsteps_trans; [by apply finish_all|]. by apply nsteps_once.
Qed.

(** ** Witnesses *)

(** Two targets of one cluster; the first one is the primary. *)
Definition sample_targets : DbRepoConnectionTargets :=
  {| ct_target_count := 2; ct_requirement := WritablePrimary; ct_runtime_failover_enabled := true |}.
Definition sample_answers (i : nat) : ConnectResult :=
  match i with
  | 0%nat => Connected (Some (txt "f|off|7001|10.0.0.1:5432|1700000000"))
  | _ => Connected (Some (txt "t|on|7001|10.0.0.2:5432|1700000001"))
  end.

Lemma sample_scan :
  choose_safe_primary_candidate (fst <$> live_candidates sample_targets sample_answers) None None = Ok 0%nat.
Proof. vm_compute. reflexivity. Qed.

(** A thread finds the primary and runs an operation on it; another one has seen a
    failure and waits. *)
Lemma sample_run : exists w,
  rtc (world_step sample_targets) (world_init sample_targets) w
  /\ ts_generation (wd_state w) = 1 /\ length (wd_running w) = 1%nat /\ ts_primary_transition_pending (wd_state w) = true.
Proof.
  eexists. split.
  - eapply rtc_l; [apply step_lock|].
    eapply rtc_l; [apply step_read|].
    eapply rtc_l; [eapply (step_chosen _ _ _ _ sample_answers 0); [apply sample_scan|vm_compute; reflexivity]|].
    eapply rtc_l; [eapply step_selected; intros Ht; vm_compute in Ht; discriminate Ht|].
    eapply rtc_l; [eapply (step_begin _ _ _ [] _ []); vm_compute; reflexivity|].
    eapply rtc_l; [apply (step_mark _ _ 1)|].
    apply rtc_refl.
  - vm_compute. auto.
Qed.

Lemma one_primary_at_a_time_witness : exists w,
  length (wd_running w) = 1%nat /\ ts_primary_operations_in_flight (wd_state w) = 1
  /\ (forall c, c ∈ wd_running w -> cn_target c = ts_active_index (wd_state w)).
Proof.
  destruct sample_run as (w & Hr & Hg & Hl & Hp). exists w.
  destruct (one_primary_at_a_time sample_targets w eq_refl Hr ltac:(rewrite Hg; vm_compute; reflexivity)) as (Hn & Hc & _).
  split; [exact Hl|]. split; [rewrite Hn; unfold zlen; rewrite Hl; reflexivity|].
  intros c Hin. destruct (Hc c Hin) as (p & _ & _ & _ & Ht & _). exact Ht.
Defined.

Lemma fence_is_released_witness : exists w w',
  ts_primary_transition_pending (wd_state w) = true /\ nsteps (world_step sample_targets) 2 w w'
  /\ ts_primary_transition_pending (wd_state w') = false.
Proof.
  destruct sample_run as (w & Hr & Hg & Hl & Hp). exists w.
  destruct (fence_is_released sample_targets w eq_refl Hr ltac:(rewrite Hg; vm_compute; reflexivity) Hp)
    as (w' & Hn & Hp' & _).
  exists w'. rewrite Hl in Hn. split; [exact Hp|]. split; [exact Hn|exact Hp'].
Defined.
