(* ===== verification/ReplicaReads.v ===== *)
(** * Reads from replicas

    Model of [ReplicaReadConsistency], [replica_is_caught_up] and
    [with_read_connection] of src/rust_hotpath/src/pg.rs: the position in the log of
    the primary that a replica must have replayed before a read may use it, and the
    attempts of a read before it goes to the primary. What servers and pool answer,
    and what other threads do to the shared state meanwhile, are arguments; event
    counters are left out, and mutexes are never poisoned. *)

From stdpp Require Import prelude list numbers strings.
From Stdlib Require Import ZArith Lia Ascii.
From S2P Require Import Prelude Text ConnTargets.

#[local] Open Scope Z_scope.
Set Default Proof Using "Type".

(** ** Log positions *)

Definition hex_val (c : ascii) : option Z :=
  let k := char_code c in
  if (48 <=? k) && (k <=? 57) then Some (k - 48)
  else if (65 <=? k) && (k <=? 70) then Some (k - 55)
  else if (97 <=? k) && (k <=? 102) then Some (k - 87)
  else None.

Fixpoint parse_hex_digits (max acc : Z) (s : text) : option Z :=
  match s with
  | [] => Some acc
  | c :: s =>
      d ← hex_val c;
      if acc * 16 + d <=? max then parse_hex_digits max (acc * 16 + d) s else None
  end.

(** [u64::from_str_radix] in base sixteen. *)
Definition parse_hex_u64 (s : text) : option Z :=
  match s with
  | [] => None
  | c :: s' =>
      if bool_decide (c = ascii_of_nat 43)
      then (if bool_decide (s' = []) then None else parse_hex_digits U64_MAX 0 s')
      else parse_hex_digits U64_MAX 0 s
  end.

Definition parse_pg_lsn (value : text) : option Z :=
  match split_once "/"%char (trim value) with
  | None => None
  | Some (high, low) =>
      high ← parse_hex_u64 high;
      low ← parse_hex_u64 low;
      if (2 ^ 32 - 1 <? high) || (2 ^ 32 - 1 <? low) then None
      else Some (Z.lor (Z.shiftl high 32) low)
  end.

(** ** What a read must see *)

Record ReplicaReadConsistencyState := {
  rc_required_primary_wal_lsn : option Z;
  rc_force_primary : bool;
}.

Definition consistency_default : ReplicaReadConsistencyState :=
  {| rc_required_primary_wal_lsn := None; rc_force_primary := false |}.

(** [None]: the text is no log position. *)
Definition record_primary_wal_lsn (value : text) (_ : ReplicaReadConsistencyState) : option ReplicaReadConsistencyState :=
  parsed ← parse_pg_lsn value;
  Some {| rc_required_primary_wal_lsn := Some parsed; rc_force_primary := false |}.

Definition record_primary_wal_lsn_capture_failure (s : ReplicaReadConsistencyState) : ReplicaReadConsistencyState :=
  {| rc_required_primary_wal_lsn := rc_required_primary_wal_lsn s; rc_force_primary := true |}.

Definition required_lsn (s : ReplicaReadConsistencyState) : option Z :=
  if rc_force_primary s then None else rc_required_primary_wal_lsn s.

(** [answer]: the text of [pg_current_wal_lsn()], if the query succeeds. *)
Definition refresh_primary_wal_lsn (replicas : bool) (answer : option text) (s : ReplicaReadConsistencyState)
    : ReplicaReadConsistencyState :=
  if negb replicas then s
  else match answer with
       | Some value => default (record_primary_wal_lsn_capture_failure s) (record_primary_wal_lsn value s)
       | None => record_primary_wal_lsn_capture_failure s
       end.

Record ReplicaReplayStatus := { rs_caught_up : bool; rs_lag_bytes : Z }.

(** [answer]: the text of [pg_last_wal_replay_lsn()], empty for NULL; [s] and [s'] are
    the state at the two readings. *)
Definition replica_is_caught_up (s s' : ReplicaReadConsistencyState) (answer : option text) : option ReplicaReplayStatus :=
  if rc_force_primary s then Some {| rs_caught_up := false; rs_lag_bytes := U64_MAX |}
  else match required_lsn s' with
       | None => Some {| rs_caught_up := true; rs_lag_bytes := 0 |}
       | Some required =>
           answer ← answer;
           let replay := trim answer in
           if bool_decide (replay = []) then Some {| rs_caught_up := false; rs_lag_bytes := U64_MAX |}
           else
             replay_lsn ← parse_pg_lsn replay;
             Some {| rs_caught_up := required <=? replay_lsn; rs_lag_bytes := sat_sub required replay_lsn |}
       end.

(** ** Pressure *)

Definition REPLICA_POOL_PRESSURE_MARGIN_MILLI : Z := 250.

Definition pool_pressure_milli (active_connections connection_limit queued_acquisitions : Z) : Z :=
  let limit := Z.max connection_limit 1 in
  sat_add (sat_mul active_connections 1000 / limit) (sat_mul queued_acquisitions 1000).

(** Active connections, limit and queue of a pool. *)
Record PoolLoad := { pl_active : Z; pl_limit : Z; pl_queued : Z }.

Definition replica_pool_pressure_prefers_primary (replica primary : PoolLoad) : bool :=
  let replica_pressure := pool_pressure_milli (pl_active replica) (pl_limit replica) (pl_queued replica) in
  let primary_pressure := pool_pressure_milli (pl_active primary) (pl_limit primary) (pl_queued primary) in
  sat_add primary_pressure REPLICA_POOL_PRESSURE_MARGIN_MILLI <? replica_pressure.

(** ** The attempts of a read *)

Section reads.
Context {T : Type} (cfg : DbRepoConnectionTargets).

(** The pool refuses, hands out a connection, or a slot for a new one. *)
Inductive Acquisition : Type := AcquireFailed | AcquireCached (c : Connection) | AcquireReserved.

(** The surroundings of one attempt: what other threads did to the targets before it,
    the clock, the pool, the connection attempts, the consistency state at its two
    readings, and what a target answers: the replay position and the read itself. *)
Record ReadTry := {
  rt_others : DbRepoConnectionTargetState -> DbRepoConnectionTargetState;
  rt_clk : nat -> Z;
  rt_acquire : Acquisition;
  rt_connect : list ConnectTry;
  rt_consistency : ReplicaReadConsistencyState;
  rt_consistency' : ReplicaReadConsistencyState;
  rt_replay : nat -> option text;
  rt_replay_clk : nat -> Z;
  rt_run : nat -> outcome unit T;
  rt_elapsed : Z;
  rt_fail_clk : nat -> Z;
}.

(** A replica's answer, or the read goes to the primary. *)
Inductive ReadAnswer : Type := FromReplica (c : Connection) (value : T) | ToPrimary.

(** How one attempt ends. *)
Inductive AttemptEnd : Type := Answered (c : Connection) (value : T) | TryNext | GiveUp.

Definition acquire_replica (t : ReadTry) (s : DbRepoConnectionTargetState)
    : outcome unit (option Connection * DbRepoConnectionTargetState) :=
  match rt_acquire t with
  | AcquireFailed => Ok (None, s)
  | AcquireCached c => Ok (Some c, s)
  | AcquireReserved => connect_new_unguarded cfg (rt_connect t) s
  end.

(** The attempt after the replay position was recorded. *)
Definition read_when_replayed (t : ReadTry) (c : Connection) (status : ReplicaReplayStatus)
    (switched : bool * DbRepoConnectionTargetState) : outcome unit (AttemptEnd * DbRepoConnectionTargetState) :=
  let s := switched.2 in
  if negb (rs_caught_up status) then Ok (if switched.1 then TryNext else GiveUp, s)
  else match rt_run t (cn_target c) with
       | Panic => Panic
       | Ok value => pair (Answered c value) <$> record_replica_operation_success cfg (cn_generation c) (rt_elapsed t) s
       | Err _ => pair TryNext <$> advance_after_failure cfg (rt_fail_clk t) (cn_generation c) s
       end.

(** The attempt once it has a connection. *)
Definition read_on_replica (t : ReadTry) (c : Connection) (s : DbRepoConnectionTargetState)
    : outcome unit (AttemptEnd * DbRepoConnectionTargetState) :=
  match replica_is_caught_up (rt_consistency t) (rt_consistency' t) (rt_replay t (cn_target c)) with
  | None => pair TryNext <$> advance_after_failure cfg (rt_fail_clk t) (cn_generation c) s
  | Some status =>
      switched ← record_replica_replay cfg (rt_replay_clk t) (cn_generation c) (rs_lag_bytes status) s;
      read_when_replayed t c status switched
  end.

Definition read_when_acquired (t : ReadTry) (acquired : option Connection * DbRepoConnectionTargetState)
    : outcome unit (AttemptEnd * DbRepoConnectionTargetState) :=
  match acquired with
  | (None, s) => Ok (GiveUp, s)
  | (Some c, s) => read_on_replica t c s
  end.

Definition read_when_prepared (t : ReadTry) (prepared : option Z * DbRepoConnectionTargetState)
    : outcome unit (AttemptEnd * DbRepoConnectionTargetState) :=
  match prepared with
  | (None, s) => Ok (GiveUp, s)
  | (Some _, s) => acquired ← acquire_replica t s; read_when_acquired t acquired
  end.

Definition read_attempt (t : ReadTry) (s : DbRepoConnectionTargetState)
    : outcome unit (AttemptEnd * DbRepoConnectionTargetState) :=
  prepared ← prepare_scored_replica cfg (rt_clk t) (rt_others t s); read_when_prepared t prepared.

Fixpoint read_attempts (attempts : nat) (tries : list ReadTry) (s : DbRepoConnectionTargetState)
    : outcome unit (ReadAnswer * DbRepoConnectionTargetState) :=
  match attempts, tries with
  | S attempts, t :: tries =>
      match read_attempt t s with
      | Ok (Answered c value, s) => Ok (FromReplica c value, s)
      | Ok (TryNext, s) => read_attempts attempts tries s
      | Ok (GiveUp, s) => Ok (ToPrimary, s)
      | Err e => Err e
      | Panic => Panic
      end
  | _, _ => Ok (ToPrimary, s)
  end.

(** [with_read_connection] with replicas configured; [consistency] is the state at its
    head, [replica] and [primary] are the loads of the pools. *)
Definition with_read_connection (consistency : ReplicaReadConsistencyState) (replica primary : PoolLoad)
    (tries : list ReadTry) (s : DbRepoConnectionTargetState)
    : outcome unit (ReadAnswer * DbRepoConnectionTargetState) :=
  if rc_force_primary consistency then Ok (ToPrimary, s)
  else if replica_pool_pressure_prefers_primary replica primary then Ok (ToPrimary, s)
  else read_attempts (Nat.max (ct_target_count cfg) 1) tries s.
End reads.

Arguments ReadTry : clear implicits.
Arguments ReadAnswer : clear implicits.
Arguments AttemptEnd : clear implicits.

(** * Lemmas *)

Lemma parse_hex_digits_bounds max s : forall acc n, 0 <= acc <= max -> parse_hex_digits max acc s = Some n -> 0 <= n <= max.
Proof.
  induction s as [|c s IH]; intros acc n Ha; cbn; [by intros [= <-]|].
  destruct (hex_val c) as [d|] eqn:Hd; cbn; [|done]. zcase; [|done]. apply IH.
  assert (0 <= d); [|lia]. unfold hex_val in Hd. repeat case_match; simplify_eq; lia.
Qed.

Lemma parse_hex_u64_bounds s n : parse_hex_u64 s = Some n -> is_u64 n.
Proof.
  unfold parse_hex_u64, is_u64. destruct s; [done|]. repeat case_bool_decide; [done|..]; apply parse_hex_digits_bounds;
    vm_compute; done.
Qed.

(** The two halves do not overlap. *)
Lemma parse_pg_lsn_bounds value n : parse_pg_lsn value = Some n -> is_u64 n.
Proof.
  unfold parse_pg_lsn. destruct (split_once _ _) as [[high low]|]; [|done].
  destruct (parse_hex_u64 high) as [h|] eqn:Hh; [|done]. destruct (parse_hex_u64 low) as [l|] eqn:Hl; [|done].
  apply parse_hex_u64_bounds in Hh, Hl. unfold is_u64, U64_MAX in *. cbn [mbind option_bind].
  destruct (Z.ltb_spec (2 ^ 32 - 1) h), (Z.ltb_spec (2 ^ 32 - 1) l); cbn [orb]; try done. intros [= <-].
  assert (Z.land (Z.shiftl h 32) l = 0).
  { apply Z.bits_inj'. intros k Hk. rewrite Z.land_spec, Z.bits_0, Z.shiftl_spec by lia.
    destruct (Z.ltb_spec k 32); [by rewrite Z.testbit_neg_r by lia|].
    destruct (decide (l = 0)) as [->|]; [by rewrite Z.bits_0, andb_false_r|].
    assert (Z.log2 l < 32) by (apply Z.log2_lt_pow2; lia).
    rewrite (Z.bits_above_log2 l) by lia. by rewrite andb_false_r. }
  rewrite <- Z.lxor_lor, <- Z.add_nocarry_lxor by done. rewrite Z.shiftl_mul_pow2 by lia. lia.
Qed.

Lemma caught_up_sound s s' answer status :
  replica_is_caught_up s s' answer = Some status -> rs_caught_up status = true ->
  rc_force_primary s = false
  /\ forall r, required_lsn s' = Some r ->
       exists a l, answer = Some a /\ parse_pg_lsn (trim a) = Some l /\ r <= l.
Proof.
  unfold replica_is_caught_up. destruct (rc_force_primary s); [by intros [= <-]|].
  destruct (required_lsn s') as [r|]; [|by intros [= <-]].
  destruct answer as [a|]; [|done]. cbn [mbind option_bind].
  case_bool_decide; [by intros [= <-]|].
  destruct (parse_pg_lsn (trim a)) as [l|] eqn:Hl; [|done]. cbn [mbind option_bind]. intros [= <-] Hc. cbn in Hc.
  split; [done|]. intros r' [= <-]. exists a, l. split_and!; [done|done|lia].
Qed.

Section reads_lemmas.
Context {T : Type} (cfg : DbRepoConnectionTargets).
Implicit Types (t : ReadTry T).

Lemma record_replay_ok clk g lag s :
  targets_wf cfg s -> exists b s', record_replica_replay cfg clk g lag s = Ok (b, s') /\ targets_wf cfg s'.
Proof.
  intros Hwf. unfold record_replica_replay. case_match; [by exists false, s|]. case_match; [by exists false, s|].
  destruct (update_metric_ok cfg (record_replay_lag lag) s Hwf) as (s1 & -> & Hwf1 & _). cbn [mbind outcome_bind].
  case_match; [by exists false, s1|].
  destruct (select_ok cfg (clk 0%nat) (clk 1%nat) true true s1 Hwf1) as (b & s2 & -> & Hwf2 & _). cbn.
  destruct b; by eexists _, _.
Qed.

Lemma record_operation_ok g elapsed s :
  targets_wf cfg s -> exists s', record_replica_operation_success cfg g elapsed s = Ok s' /\ targets_wf cfg s'.
Proof.
  intros Hwf. unfold record_replica_operation_success. case_match; [by exists s|]. case_match; [|by exists s].
  destruct (update_metric_ok cfg (record_operation_success elapsed) s Hwf) as (s1 & ? & ? & _). eauto.
Qed.

Lemma prepare_ok clk s :
  targets_wf cfg s -> exists r s', prepare_scored_replica cfg clk s = Ok (r, s') /\ targets_wf cfg s'.
Proof.
  intros Hwf. unfold prepare_scored_replica. case_match; [by eexists _, s|].
  destruct (select_ok cfg (clk 0%nat) (clk 1%nat) false false s Hwf) as (b & s1 & -> & Hwf1 & _). cbn [fmap outcome_fmap mbind outcome_bind].
  assert (Hsw : targets_wf cfg (switch_generation (b, s1)).2) by (by destruct b).
  destruct (metric_at_ok (switch_generation (b, s1)).2 (ts_active_index (switch_generation (b, s1)).2)) as (m & _ & ->);
    [destruct Hsw as (-> & ?); done|]. cbn [mbind outcome_bind]. by eexists _, _.
Qed.

(** A read that a replica answers, after the check of its replay position. *)
Definition served (t : ReadTry T) (c : Connection) (v : T) : Prop :=
  rt_run t (cn_target c) = Ok v
  /\ exists status, replica_is_caught_up (rt_consistency t) (rt_consistency' t) (rt_replay t (cn_target c)) = Some status
      /\ rs_caught_up status = true.

(** The surroundings of an attempt keep the targets well formed, and the read itself
    does not panic. *)
Definition try_wf (t : ReadTry T) : Prop :=
  (forall s, targets_wf cfg s -> targets_wf cfg (rt_others t s)) /\ forall i, rt_run t i <> Panic.

Lemma read_on_replica_ok t c s :
  targets_wf cfg s -> try_wf t ->
  exists e s', read_on_replica cfg t c s = Ok (e, s') /\ targets_wf cfg s'
    /\ forall c' v, e = Answered c' v -> served t c' v.
Proof.
  intros Hwf (_ & Hrun). unfold read_on_replica.
  assert (Hadv : forall s, targets_wf cfg s ->
    exists e s', (pair TryNext <$> advance_after_failure cfg (rt_fail_clk t) (cn_generation c) s) = Ok (e, s')
      /\ targets_wf cfg s' /\ forall c' v, e = Answered c' v -> served t c' v).
  { intros s0 Hs0. destruct (advance_after_failure_ok cfg (rt_fail_clk t) (cn_generation c) s0 Hs0) as (s1 & -> & Hs1).
    eexists _, s1. by split_and!. }
  destruct (replica_is_caught_up _ _ _) as [status|] eqn:Hc; [|by apply Hadv].
  destruct (record_replay_ok (rt_replay_clk t) (cn_generation c) (rs_lag_bytes status) s Hwf) as (b & s1 & -> & Hwf1).
  cbn [mbind outcome_bind]. unfold read_when_replayed. cbn [fst snd].
  destruct (rs_caught_up status) eqn:Hup; cbn [negb]; [|eexists _, s1; split_and!; [done|done|by destruct b]].
  destruct (rt_run t (cn_target c)) as [v|u|] eqn:Hv; [|by apply Hadv|by destruct (Hrun (cn_target c))].
  destruct (record_operation_ok (cn_generation c) (rt_elapsed t) s1 Hwf1) as (s2 & -> & Hwf2).
  eexists _, s2. split_and!; [done|done|]. intros c' v' [= <- <-]. unfold served. eauto.
Qed.

Lemma read_attempt_ok t s :
  targets_wf cfg s -> try_wf t ->
  exists e s', read_attempt cfg t s = Ok (e, s') /\ targets_wf cfg s'
    /\ forall c v, e = Answered c v -> served t c v.
Proof.
  intros Hwf Ht. unfold read_attempt.
  destruct (prepare_ok (rt_clk t) (rt_others t s)) as (r & s1 & -> & Hwf1); [by apply Ht|]. cbn [mbind outcome_bind].
  destruct r as [g|]; cbn; [|eexists _, s1; by split_and!].
  assert (exists r s2, acquire_replica cfg t s1 = Ok (r, s2) /\ targets_wf cfg s2) as (r & s2 & -> & Hwf2).
  { unfold acquire_replica. destruct (rt_acquire t); [by eexists _, _..|].
    destruct (connect_attempts_ok cfg (if ct_runtime_failover_enabled cfg then ct_target_count cfg else 1%nat)
      (rt_connect t) s1 Hwf1) as (r & s2 & ? & ? & _). by eexists _, _. }
  cbn [mbind outcome_bind]. destruct r as [c|]; cbn; [by apply read_on_replica_ok|]. eexists _, s2. by split_and!.
Qed.

Lemma read_attempts_ok attempts : forall tries s,
  targets_wf cfg s -> Forall try_wf tries ->
  exists r s', read_attempts cfg attempts tries s = Ok (r, s') /\ targets_wf cfg s'
    /\ forall c v, r = FromReplica c v -> exists t, t ∈ tries /\ served t c v.
Proof.
  induction attempts as [|attempts IH]; intros tries s Hwf Ht; [by eexists _, s|].
  destruct tries as [|t tries]; [by eexists _, s|]. apply Forall_cons in Ht as [Ht Hts]. cbn.
  destruct (read_attempt_ok t s Hwf Ht) as (e & s1 & -> & Hwf1 & He).
  destruct e as [c v| |]; [..|by eexists _, s1].
  - eexists _, s1. split_and!; [done|done|]. intros c' v' [= <- <-]. exists t. split; [set_solver|]. by apply He.
  - destruct (IH tries s1 Hwf1 Hts) as (r & s2 & -> & Hwf2 & Hr). eexists _, s2. split_and!; [done|done|].
    intros c v Hcv. destruct (Hr c v Hcv) as (t' & Hin & Hs). exists t'. split; [set_solver|done].
Qed.
End reads_lemmas.

(** ** Writes and the reads after them *)

(** A committed write: the position of its commit record in the log, and what the
    primary then answers to [pg_current_wal_lsn()]. *)
Record Write := { wr_commit : Z; wr_answer : option text }.

Definition after_writes (ws : list Write) : ReplicaReadConsistencyState :=
  foldl (fun s w => refresh_primary_wal_lsn true (wr_answer w) s) consistency_default ws.

(** The log only grows: what the primary answers after a write is not before the
    commit of it or of an earlier one. *)
Definition captured_in_order (ws : list Write) : Prop :=
  forall i j w w' a l, (i <= j)%nat -> ws !! i = Some w -> ws !! j = Some w' ->
    wr_answer w' = Some a -> parse_pg_lsn a = Some l -> wr_commit w <= l.

Lemma after_writes_spec ws :
  captured_in_order ws -> ws <> [] ->
  rc_force_primary (after_writes ws) = true
  \/ exists l, required_lsn (after_writes ws) = Some l /\ forall w, w ∈ ws -> wr_commit w <= l.
Proof.
  intros Hord Hne. destruct ws as [|w ws] using rev_ind; [done|]. clear Hne IHws.
  unfold after_writes. rewrite foldl_app. cbn [foldl]. unfold refresh_primary_wal_lsn at 1 3. cbn [negb].
  destruct (wr_answer w) as [a|] eqn:Ha; [|by left]. unfold record_primary_wal_lsn.
  destruct (parse_pg_lsn a) as [l|] eqn:Hl; [|by left]. right. exists l. split; [done|].
  intros w' (i & Hi)%list_elem_of_lookup_1.
  eapply (Hord i (length ws)); [|exact Hi| |exact Ha|exact Hl].
  - apply lookup_lt_Some in Hi. rewrite length_app in Hi. cbn in Hi. lia.
  - by rewrite lookup_app_r, Nat.sub_diag by lia.
Qed.

(** * Theorems *)

(** C21: Read your writes: after writes whose log positions were captured one after the
    other, captures that failed included, a read returns a replica's answer only when
    that replica reported to have replayed the log beyond the commits of all of them;
    in every other case, lag, failures, pressure, it goes to the primary. It always
    returns, after at most one attempt per target, and leaves the targets well formed. *)
Theorem read_your_writes {T} cfg ws replica primary (tries : list (ReadTry T)) s :
  captured_in_order ws -> ws <> [] -> targets_wf cfg s -> Forall (try_wf cfg) tries ->
  Forall (fun t => rt_consistency t = after_writes ws /\ rt_consistency' t = after_writes ws) tries ->
  exists r s', with_read_connection cfg (after_writes ws) replica primary tries s = Ok (r, s') /\ targets_wf cfg s'
    /\ forall c v, r = FromReplica c v -> exists t a l,
         t ∈ tries /\ rt_run t (cn_target c) = Ok v /\ rt_replay t (cn_target c) = Some a
         /\ parse_pg_lsn (trim a) = Some l /\ forall w, w ∈ ws -> wr_commit w <= l.
Proof.
  intros Hord Hne Hwf Ht Hcons. unfold with_read_connection.
  destruct (rc_force_primary (after_writes ws)) eqn:Hf; [by eexists _, s|].
  case_match; [by eexists _, s|].
  destruct (read_attempts_ok cfg (Nat.max (ct_target_count cfg) 1) tries s Hwf Ht) as (r & s' & -> & Hwf' & Hr).
  eexists _, s'. split; [done|]. split; [done|]. intros c v Hcv.
  destruct (Hr c v Hcv) as (t & Hin & Hrun & status & Hst & Hup).
  rewrite Forall_forall in Hcons. destruct (Hcons t Hin) as [Hc1 Hc2]. rewrite Hc1, Hc2 in Hst.
  destruct (caught_up_sound _ _ _ _ Hst Hup) as (_ & Hreq).
  destruct (after_writes_spec ws Hord Hne) as [?|(l & Hl & Hmax)]; [congruence|].
  destruct (Hreq l Hl) as (a & l' & Ha & Hp & Hle). exists t, a, l'. split_and!; try done.
  intros w Hw. specialize (Hmax w Hw). lia.
Qed.

(** Captures that overlap are recorded in the order they arrive: the position of the
    later write is lost, and a replica that has replayed only the earlier one counts
    as caught up. *)
Example overlapping_captures_lose_a_write :
  let ws := [{| wr_commit := 32; wr_answer := Some (txt "0/20") |}; {| wr_commit := 16; wr_answer := Some (txt "0/10") |}] in
  replica_is_caught_up (after_writes ws) (after_writes ws) (Some (txt "0/10"))
  = Some {| rs_caught_up := true; rs_lag_bytes := 0 |}.
Proof. vm_compute. reflexivity. Qed.

(** A capture that fails between the two readings lifts the requirement. *)
Example failed_capture_between_readings :
  let s := after_writes [{| wr_commit := 32; wr_answer := Some (txt "0/20") |}] in
  replica_is_caught_up s (refresh_primary_wal_lsn true None s) (Some (txt "0/10"))
  = Some {| rs_caught_up := true; rs_lag_bytes := 0 |}.
Proof. vm_compute. reflexivity. Qed.

(** ** Witnesses *)

(** Two writes, the capture of the first failed; the faster replica answers. *)
Definition sample_writes : list Write :=
  [{| wr_commit := 16; wr_answer := None |}; {| wr_commit := 32; wr_answer := Some (txt "0/20") |}].
Definition sample_read : ReadTry Z :=
  {| rt_others := id; rt_clk := fun _ => 0; rt_acquire := AcquireReserved;
     rt_connect := [{| tr_select := fun _ => 0; tr_fail := fun _ => 0; tr_elapsed := 10;
                       tr_connect := fun _ => Connected (Some (txt "t|on|7001|10.0.0.2:5432|1700000001")) |}];
     rt_consistency := after_writes sample_writes; rt_consistency' := after_writes sample_writes;
     rt_replay := fun _ => Some (txt "0/2A"); rt_replay_clk := fun _ => 0;
     rt_run := fun i => Ok (Z.of_nat i); rt_elapsed := 10; rt_fail_clk := fun _ => 0 |}.

Lemma sample_writes_in_order : captured_in_order sample_writes.
Proof.
  intros i j w w' a l Hij Hi Hj Ha Hl. destruct j as [|[|j]]; [by injection Hj as <-| |done].
  injection Hj as <-. injection Ha as <-. vm_compute in Hl. injection Hl as <-.
  destruct i as [|[|i]]; [by injection Hi as <-|by injection Hi as <-|lia].
Qed.

Lemma read_your_writes_witness :
  exists c s', with_read_connection sample_replicas (after_writes sample_writes)
      {| pl_active := 0; pl_limit := 4; pl_queued := 0 |} {| pl_active := 1; pl_limit := 4; pl_queued := 0 |}
      [sample_read] sample_replica_state = Ok (FromReplica c 1, s')
    /\ exists a, rt_replay sample_read (cn_target c) = Some a.
Proof.
  destruct (read_your_writes sample_replicas sample_writes {| pl_active := 0; pl_limit := 4; pl_queued := 0 |}
      {| pl_active := 1; pl_limit := 4; pl_queued := 0 |} [sample_read] sample_replica_state) as (r & s' & Hr & Hwf & Hc).
  - exact sample_writes_in_order.
  - discriminate.
  - split; vm_compute; [reflexivity|lia].
  - constructor; [split; [intros s Hs; exact Hs|discriminate]|constructor].
  - constructor; [split; reflexivity|constructor].
  - assert (Hrun := Hr). vm_compute in Hrun. injection Hrun as <- <-.
    eexists _, _. split; [exact Hr|]. destruct (Hc _ _ eq_refl) as (t & a & l & Hin & _ & Ha & _).
    apply list_elem_of_singleton in Hin as ->. exists a. exact Ha.
Defined.
