(* ===== verification/PersistPlan.v ===== *)
(** * Persist planning

    Model of src/rust_hotpath/src/persist_plan.rs: how many storage blocks a
    file has, which bytes of a block are live, what a resize invalidates, and
    which dirty blocks a flush writes. Theorems: the plan lists exactly the
    dirty blocks inside the file, once each and in order, with the number of
    live bytes; the live bytes of all blocks add up to the file size; the runs
    of dirty blocks are the maximal ones; a resize plan separates the blocks
    that survive from those that go. *)

From stdpp Require Import prelude list numbers gmap sorting.
From Stdlib Require Import ZArith Lia.
From S2P Require Import Prelude.

#[local] Open Scope Z_scope.

Definition block_count_for_length (length block_size : Z) (minimum_one : bool) : Z :=
  if length =? 0 then (if minimum_one then 1 else 0)
  else
    let block_size := Z.max block_size 1 in
    let count := 1 + (length - 1) / block_size in
    if minimum_one then Z.max count 1 else count.

Definition dirty_block_size (file_size block_index block_size : Z) : Z :=
  let block_size := Z.max block_size 1 in
  let block_start := sat_mul block_index block_size in
  let block_end := Z.min file_size (sat_add block_start block_size) in
  sat_sub block_end block_start.

Record LogicalResizePlan : Set := {
  lrp_old_size : Z;
  lrp_new_size : Z;
  lrp_block_size : Z;
  lrp_old_total_blocks : Z;
  lrp_new_total_blocks : Z;
  lrp_shrinking : bool;
  lrp_has_valid_blocks : bool;
  lrp_delete_from_block : Z;
  lrp_max_valid_block : Z;
  lrp_has_partial_tail : bool;
  lrp_tail_block_index : Z;
  lrp_tail_valid_len : Z
}.

Definition logical_resize_plan (old_size new_size block_size : Z) : LogicalResizePlan :=
  let block_size := Z.max block_size 1 in
  let shrinking := new_size <? old_size in
  let has_valid_blocks := 0 <? new_size in
  let old_total_blocks := block_count_for_length old_size block_size false in
  let new_total_blocks := block_count_for_length new_size block_size false in
  let max_valid_block := if has_valid_blocks then (new_size - 1) / block_size else 0 in
  let tail_valid_len := if has_valid_blocks then new_size mod block_size else 0 in
  let has_partial_tail := has_valid_blocks && negb (tail_valid_len =? 0) in
  let tail_block_index := if has_partial_tail then new_size / block_size else 0 in
  let delete_from_block := if shrinking then new_total_blocks else old_total_blocks in
  {| lrp_old_size := old_size;
     lrp_new_size := new_size;
     lrp_block_size := block_size;
     lrp_old_total_blocks := old_total_blocks;
     lrp_new_total_blocks := new_total_blocks;
     lrp_shrinking := shrinking;
     lrp_has_valid_blocks := has_valid_blocks;
     lrp_delete_from_block := delete_from_block;
     lrp_max_valid_block := max_valid_block;
     lrp_has_partial_tail := has_partial_tail;
     lrp_tail_block_index := tail_block_index;
     lrp_tail_valid_len := tail_valid_len |}.

(** [value == end.saturating_add(1)] continues a run. *)
Definition contiguous_ranges (values : list Z) : list (Z * Z) :=
  match values with
  | [] => []
  | v :: vs => run_ranges (fun end_ => sat_add end_ 1) v v vs
  end.

Definition sorted_contiguous_ranges (values : list Z) : list (Z * Z) :=
  match values with
  | [] => []
  | _ => contiguous_ranges (dedup (sort_z values))
  end.

Record PersistLayoutPlan : Set := {
  plp_total_blocks : Z;
  plp_truncate_only : bool;
  plp_ordered_dirty_ranges : list (Z * Z)
}.

Definition is_empty {A} (l : list A) : bool := match l with [] => true | _ => false end.

Definition persist_layout_plan (file_size block_size : Z) (truncate_pending : bool)
    (dirty_blocks : list Z) : PersistLayoutPlan :=
  let block_size := Z.max block_size 1 in
  {| plp_total_blocks := block_count_for_length file_size block_size false;
     plp_ordered_dirty_ranges := sorted_contiguous_ranges dirty_blocks;
     plp_truncate_only := truncate_pending && is_empty dirty_blocks |}.

Record PersistBlockPlanEntry : Set := {
  pbe_block_index : Z;
  pbe_used_len : Z
}.

Record PersistBlockPlan : Set := {
  pbp_total_blocks : Z;
  pbp_truncate_only : bool;
  pbp_blocks : list PersistBlockPlanEntry
}.

Inductive PersistWriteClass : Set :=
| NewObjectSequential
| ExistingObjectPatch
| TruncateOnly.

Record PersistWriteClassInput : Set := {
  pwi_new_object_sequential : bool;
  pwi_truncate_pending : bool;
  pwi_has_payload : bool
}.

Definition classify_persist_write (input : PersistWriteClassInput) : PersistWriteClass :=
  if pwi_new_object_sequential input && pwi_has_payload input then NewObjectSequential
  else if pwi_truncate_pending input && negb (pwi_has_payload input) then TruncateOnly
  else ExistingObjectPatch.

Record PersistPlanInput : Set := {
  ppi_file_size : Z;
  ppi_block_size : Z;
  ppi_truncate_pending : bool;
  ppi_dirty_blocks : list Z
}.

(** The inner loop: the entries of one run of dirty blocks. *)
Definition persist_range_entries (file_size block_size total_blocks : Z) (r : Z * Z)
    : list PersistBlockPlanEntry :=
  let start_block := Z.min r.1 total_blocks in
  let end_block := Z.min r.2 (sat_sub total_blocks 1) in
  if end_block <? start_block then []
  else
    omap (fun block_index =>
            let used_len := dirty_block_size file_size block_index block_size in
            if used_len =? 0 then None
            else Some {| pbe_block_index := block_index; pbe_used_len := used_len |})
         (range_incl start_block end_block).

Definition persist_block_plan (input : PersistPlanInput) : PersistBlockPlan :=
  let file_size := ppi_file_size input in
  let truncate_pending := ppi_truncate_pending input in
  let dirty_blocks := ppi_dirty_blocks input in
  let block_size := Z.max (ppi_block_size input) 1 in
  let total_blocks := block_count_for_length file_size block_size false in
  let truncate_only := truncate_pending && is_empty dirty_blocks in
  let blocks :=
    if truncate_only then []
    else mjoin (map (persist_range_entries file_size block_size total_blocks)
                    (sorted_contiguous_ranges dirty_blocks)) in
  {| pbp_total_blocks := total_blocks;
     pbp_truncate_only := truncate_only;
     pbp_blocks := blocks |}.

Definition choose_persist_plan (input : PersistPlanInput) : PersistBlockPlan :=
  persist_block_plan input.

Inductive PersistPayloadPlan : Set :=
| Blocks (entries : list PersistBlockPlanEntry).

Record PersistExecutionPlan : Set := {
  pep_total_blocks : Z;
  pep_write_class : PersistWriteClass;
  pep_payload : PersistPayloadPlan
}.

Definition choose_persist_execution_plan (input : PersistPlanInput) : PersistExecutionPlan :=
  let plan := choose_persist_plan input in
  let write_class := classify_persist_write
    {| pwi_new_object_sequential := false;
       pwi_truncate_pending := ppi_truncate_pending input;
       pwi_has_payload := negb (is_empty (pbp_blocks plan)) |} in
  {| pep_total_blocks := pbp_total_blocks plan;
     pep_write_class := write_class;
     pep_payload := Blocks (pbp_blocks plan) |}.

(** ** Lemmas *)

Lemma block_count_lt (len bs b : Z) :
  0 <= len -> 0 <= b ->
  b < block_count_for_length len bs false <-> b * Z.max bs 1 < len.
Proof.
  intros Hl Hb. unfold block_count_for_length.
  destruct (Z.eqb_spec len 0) as [->|Hne]; [nia|].
  pose proof (Z.le_max_r bs 1). generalize dependent (Z.max bs 1). intros m Hm.
  Z.to_euclidean_division_equations. nia.
Qed.

Lemma block_count_nonneg len bs m : 0 <= len -> 0 <= block_count_for_length len bs m.
Proof.
  intros. unfold block_count_for_length. zcase; [by destruct m|].
  assert (0 <= (len - 1) / Z.max bs 1) by (apply Z.div_pos; lia). destruct m; lia.
Qed.

Lemma max_1_idem bs : Z.max (Z.max bs 1) 1 = Z.max bs 1.
Proof. lia. Qed.

(** Inside the file nothing saturates. *)
Lemma dirty_block_size_inside fs b bs :
  is_u64 fs -> 0 <= b -> b * Z.max bs 1 < fs ->
  dirty_block_size fs b bs = Z.min (Z.max bs 1) (fs - b * Z.max bs 1).
Proof. intros. unfold dirty_block_size. u64_unfold. nia. Qed.

Lemma dirty_block_size_outside fs b bs :
  is_u64 fs -> 0 <= b -> fs <= b * Z.max bs 1 -> dirty_block_size fs b bs = 0.
Proof.
  intros. unfold dirty_block_size. u64_unfold.
  set (m := b * Z.max bs 1) in *. assert (0 <= m) by nia. lia.
Qed.

Lemma sorted_contiguous_ranges_runs vs :
  Forall is_u64 vs ->
  ranges_sep 0 (sorted_contiguous_ranges vs) /\
  forall x, in_ranges x (sorted_contiguous_ranges vs) <-> x ∈ vs.
Proof.
  intros Hu. unfold sorted_contiguous_ranges.
  assert (Hin : forall x, x ∈ dedup (sort_z vs) <-> x ∈ vs).
  { intros x. by rewrite elem_of_dedup, elem_of_sort_z. }
  pose proof (sort_dedup_sorted vs) as Hs.
  destruct vs as [|a vs].
  { split; [done|]. intros x. split; intros H; [by apply in_ranges_nil in H|set_solver]. }
  remember (dedup (sort_z (a :: vs))) as k eqn:Ek. clear Ek.
  rewrite Forall_forall in Hu.
  destruct k as [|v k]; [exfalso; specialize (Hin a); set_solver|].
  cbn. assert (Hv : is_u64 v) by (apply Hu, Hin; set_solver).
  destruct (run_ranges_spec (fun e => sat_add e 1) k v v ltac:(lia) Hs) as [Hsep Hx].
  { intros e x He Hx Hlt. assert (is_u64 x) by (apply Hu, Hin; set_solver). u64_lia. }
  split.
  - eapply ranges_sep_mono; [|exact Hsep]. u64_lia.
  - intros x. rewrite Hx, <- Hin, elem_of_cons. intuition lia.
Qed.

Lemma elem_of_persist_range_entries fs bs r entry :
  is_u64 fs -> 0 <= r.1 ->
  entry ∈ persist_range_entries fs bs (block_count_for_length fs bs false) r <->
    r.1 <= pbe_block_index entry <= r.2 /\
    pbe_block_index entry * Z.max bs 1 < fs /\
    pbe_used_len entry =
      Z.min (Z.max bs 1) (fs - pbe_block_index entry * Z.max bs 1).
Proof.
  intros Hfs Hr. unfold persist_range_entries.
  set (total := block_count_for_length fs bs false).
  assert (Ht : 0 <= total) by (apply block_count_nonneg; u64_lia).
  assert (Hlt : forall b, 0 <= b -> b < total <-> b * Z.max bs 1 < fs)
    by (intros; apply block_count_lt; u64_lia).
  destruct entry as [b used]. cbn [pbe_block_index pbe_used_len].
  destruct (Z.ltb_spec (Z.min r.2 (sat_sub total 1)) (Z.min r.1 total)) as [Hc|Hc].
  - split; [set_solver|]. intros (Hb & Hlive & _). exfalso.
    rewrite <- Hlt in Hlive by lia. unfold sat_sub in Hc. lia.
  - rewrite list_elem_of_omap. setoid_rewrite elem_of_range_incl. split.
    + intros (b' & Hb' & Hsome).
      destruct (Z.eqb_spec (dirty_block_size fs b' bs) 0) as [|Hne]; [done|].
      injection Hsome as <- <-.
      destruct (Z.lt_ge_cases (b' * Z.max bs 1) fs) as [Hlive|Hdead].
      * rewrite dirty_block_size_inside by (u64_unfold; lia).
        pose proof (proj2 (Hlt b' ltac:(lia)) Hlive). unfold sat_sub in *.
        split; [lia|done].
      * rewrite dirty_block_size_outside in Hne by (u64_unfold; lia). done.
    + intros (Hb & Hlive & ->). exists b. split.
      * rewrite <- Hlt in Hlive by lia. unfold sat_sub. lia.
      * rewrite dirty_block_size_inside by (u64_unfold; lia).
        zcase; [lia|done].
Qed.

Lemma StronglySorted_app_lt (l k : list Z) :
  StronglySorted Z.lt l -> StronglySorted Z.lt k ->
  (forall x y, x ∈ l -> y ∈ k -> x < y) -> StronglySorted Z.lt (l ++ k).
Proof.
  induction l as [|a l IH]; intros Hl Hk Hlt; [done|].
  apply StronglySorted_inv in Hl as [Hl Ha]. cbn. constructor.
  - apply IH; [done..|]. intros; apply Hlt; [by apply list_elem_of_further|done].
  - apply Forall_app. split; [done|]. apply Forall_forall. intros; apply Hlt; set_solver.
Qed.

Lemma persist_range_entries_sorted fs bs total r :
  StronglySorted Z.lt (map pbe_block_index (persist_range_entries fs bs total r)).
Proof.
  unfold persist_range_entries. zcase; [constructor|]. unfold range_incl.
  generalize (seqZ_sorted (Z.min r.1 total) (Z.min r.2 (sat_sub total 1) - Z.min r.1 total + 1)).
  generalize (seqZ (Z.min r.1 total) (Z.min r.2 (sat_sub total 1) - Z.min r.1 total + 1)).
  induction l as [|b l IH]; intros Hs; cbn; [constructor|].
  apply StronglySorted_inv in Hs as [Hs Hb]. specialize (IH Hs).
  destruct (dirty_block_size fs b bs =? 0); cbn; [done|]. constructor; [done|].
  apply Forall_forall. rewrite Forall_forall in Hb. intros x (e & -> & He)%list_elem_of_fmap.
  apply list_elem_of_omap in He as (b' & Hb' & He).
  destruct (dirty_block_size fs b' bs =? 0); [done|]. injection He as <-. by apply Hb.
Qed.

Lemma persist_ranges_sorted fs bs rs : forall lo,
  is_u64 fs -> 0 <= lo -> ranges_sep lo rs ->
  StronglySorted Z.lt
    (map pbe_block_index
       (mjoin (map (persist_range_entries fs bs (block_count_for_length fs bs false)) rs))).
Proof.
  induction rs as [|[s e] rs IH]; intros lo Hfs Hlo Hsep; cbn; [constructor|].
  destruct Hsep as [Hse Hsep]. rewrite map_app. apply StronglySorted_app_lt.
  - apply persist_range_entries_sorted.
  - apply (IH (e + 2)); [done|lia|done].
  - intros x y (e1 & -> & H1)%list_elem_of_fmap (e2 & -> & H2)%list_elem_of_fmap.
    apply elem_of_persist_range_entries in H1 as [H1 _]; [|done|cbn; lia].
    apply list_elem_of_join in H2 as (es & H2 & (r & -> & Hr)%list_elem_of_fmap).
    pose proof (ranges_sep_elem _ _ _ Hsep Hr).
    apply elem_of_persist_range_entries in H2 as [H2 _]; [cbn in *; lia|done|lia].
Qed.

Lemma persist_block_plan_spec (input : PersistPlanInput) :
  is_u64 (ppi_file_size input) ->
  Forall is_u64 (ppi_dirty_blocks input) ->
  StronglySorted Z.lt (map pbe_block_index (pbp_blocks (persist_block_plan input))) /\
  forall e, e ∈ pbp_blocks (persist_block_plan input) <->
    pbe_block_index e ∈ ppi_dirty_blocks input /\
    pbe_block_index e * Z.max (ppi_block_size input) 1 < ppi_file_size input /\
    pbe_used_len e =
      Z.min (Z.max (ppi_block_size input) 1)
            (ppi_file_size input - pbe_block_index e * Z.max (ppi_block_size input) 1).
Proof.
  destruct input as [fs bs tp dirty]. cbn. intros Hfs Hd.
  destruct (sorted_contiguous_ranges_runs dirty Hd) as [Hsep Hin].
  set (bs1 := Z.max bs 1).
  assert (Hempty : tp && is_empty dirty = true -> dirty = []).
  { destruct tp, dirty; cbn; congruence. }
  destruct (tp && is_empty dirty) eqn:Hto.
  { rewrite (Hempty eq_refl). split; [constructor|]. set_solver. }
  split; [by apply (persist_ranges_sorted _ _ _ 0)|].
  intros e. rewrite list_elem_of_join, <- Hin. unfold bs1. split.
  - intros (es & He & (r & -> & Hr)%list_elem_of_fmap).
    pose proof (ranges_sep_elem _ _ _ Hsep Hr).
    apply elem_of_persist_range_entries in He as (Hb & Hlive & Hlen); [|done|lia].
    rewrite max_1_idem in *. split; [by exists r|done].
  - intros ((r & Hr & Hx) & Hlive & Hlen).
    pose proof (ranges_sep_elem _ _ _ Hsep Hr).
    eexists. split; [|by apply list_elem_of_fmap_2, Hr].
    apply elem_of_persist_range_entries; [done|lia|]. by rewrite max_1_idem.
Qed.

(** ** Properties *)

(** the plan of a flush lists exactly the dirty blocks that start inside
    the file, each once, in ascending order, with the number of bytes of the
    block below end of file; for any dirty list (unsorted, with duplicates,
    with blocks past the end) and any 64-bit file size. *)
Theorem persist_block_plan_exact (input : PersistPlanInput) :
  is_u64 (ppi_file_size input) ->
  Forall is_u64 (ppi_dirty_blocks input) ->
  StronglySorted Z.lt (map pbe_block_index (pbp_blocks (persist_block_plan input))) /\
  forall e, e ∈ pbp_blocks (persist_block_plan input) <->
    pbe_block_index e ∈ ppi_dirty_blocks input /\
    pbe_block_index e * Z.max (ppi_block_size input) 1 < ppi_file_size input /\
    pbe_used_len e =
      Z.min (Z.max (ppi_block_size input) 1)
            (ppi_file_size input - pbe_block_index e * Z.max (ppi_block_size input) 1).
Proof. apply persist_block_plan_spec. Qed.

Lemma persist_block_plan_exact_witness :
  let input := {| ppi_file_size := 10; ppi_block_size := 4; ppi_truncate_pending := true;
                  ppi_dirty_blocks := [7; 2; 0; 2] |} in
  {| pbe_block_index := 2; pbe_used_len := 2 |} ∈ pbp_blocks (persist_block_plan input).
Proof.
  apply (persist_block_plan_exact
    {| ppi_file_size := 10; ppi_block_size := 4; ppi_truncate_pending := true;
       ppi_dirty_blocks := [7; 2; 0; 2] |}).
  - cbn. u64_lia.
  - cbn. repeat constructor; u64_lia.
  - cbn. split; [set_solver|lia].
Defined.

(** [sorted_contiguous_ranges] groups any list of block numbers into the
    maximal runs of consecutive numbers: ascending, non-empty, separated by at
    least one absent number, and covering exactly the numbers of the list. Any
    other list of runs with these properties is equal to it. *)
Theorem sorted_contiguous_ranges_maximal (values : list Z) :
  Forall is_u64 values ->
  ranges_sep 0 (sorted_contiguous_ranges values) /\
  (forall x, in_ranges x (sorted_contiguous_ranges values) <-> x ∈ values) /\
  (forall rs, ranges_sep 0 rs -> (forall x, in_ranges x rs <-> x ∈ values) ->
     rs = sorted_contiguous_ranges values).
Proof.
  intros Hu. destruct (sorted_contiguous_ranges_runs values Hu) as [Hsep Hin].
  split_and!; [done..|]. intros rs Hrs Hx. apply (ranges_sep_unique _ 0); [done..|].
  intros x. by rewrite Hx, Hin.
Qed.

Lemma sorted_contiguous_ranges_maximal_witness :
  sorted_contiguous_ranges [7; 3; 4; 10; 11; 11; 8] = [(3, 4); (7, 8); (10, 11)] /\
  ranges_sep 0 (sorted_contiguous_ranges [7; 3; 4; 10; 11; 11; 8]).
Proof.
  split; [vm_compute; reflexivity|].
  apply sorted_contiguous_ranges_maximal. repeat constructor; u64_lia.
Defined.

Lemma dirty_block_size_sum fs bs n :
  is_u64 fs ->
  foldr Z.add 0 (map (fun b => dirty_block_size fs b bs) (seqZ 0 (Z.of_nat n))) =
    Z.min fs (Z.of_nat n * Z.max bs 1).
Proof.
  intros Hfs. induction n as [|n IH].
  { change (Z.of_nat 0) with 0. rewrite seqZ_nil by lia. cbn [map foldr]. u64_lia. }
  rewrite seqZ_S, map_app, Nat2Z.inj_succ.
  assert (Hfold : forall l k, foldr Z.add 0 (l ++ k) = foldr Z.add 0 l + foldr Z.add 0 k).
  { induction l; intros k; cbn; [lia|rewrite IHl; lia]. }
  rewrite Hfold, IH. cbn [map foldr].
  destruct (Z.lt_ge_cases (Z.of_nat n * Z.max bs 1) fs).
  - rewrite Z.add_0_l, dirty_block_size_inside by (done || lia). nia.
  - rewrite Z.add_0_l, dirty_block_size_outside by (done || lia). nia.
Qed.

(** The live bytes of the blocks [0 .. block_count_for_length - 1] add up to
    the file size, so the block table neither loses nor invents bytes, for
    every file size up to 2^64 - 1 and every block size (zero included). *)
Theorem block_sizes_partition_file (file_size block_size : Z) :
  is_u64 file_size ->
  foldr Z.add 0
    (map (fun b => dirty_block_size file_size b block_size)
         (seqZ 0 (block_count_for_length file_size block_size false))) = file_size.
Proof.
  intros Hfs.
  pose proof (block_count_nonneg file_size block_size false ltac:(u64_lia)) as Hn.
  rewrite <- (Z2Nat.id (block_count_for_length file_size block_size false)) at 1 by done.
  rewrite dirty_block_size_sum by done. rewrite Z2Nat.id by done.
  assert (~ block_count_for_length file_size block_size false * Z.max block_size 1 < file_size).
  { rewrite <- block_count_lt by u64_lia. lia. }
  lia.
Qed.

Lemma block_sizes_partition_file_witness :
  foldr Z.add 0 (map (fun b => dirty_block_size 10 b 4) [0; 1; 2]) = 10.
Proof. apply (block_sizes_partition_file 10 4). u64_lia. Defined.

(** the resize plan. When the file shrinks, the blocks below
    [delete_from_block] are exactly those that still start below the new size;
    when it does not, every block from [delete_from_block] on lies past the old
    end. A partial tail block, if any, is the last valid block, starts at
    [tail_block_index * block_size] and keeps exactly the bytes up to the new
    size; without one the new size is a multiple of the block size. *)
Theorem logical_resize_plan_separates (old_size new_size block_size : Z) :
  is_u64 old_size -> is_u64 new_size ->
  let p := logical_resize_plan old_size new_size block_size in
  (forall b, 0 <= b -> lrp_delete_from_block p <= b <->
     (if lrp_shrinking p then new_size else old_size) <= b * lrp_block_size p) /\
  (if lrp_has_partial_tail p
   then 0 < lrp_tail_valid_len p < lrp_block_size p /\
        lrp_tail_block_index p * lrp_block_size p + lrp_tail_valid_len p = new_size /\
        lrp_tail_block_index p = lrp_max_valid_block p
   else (new_size mod lrp_block_size p = 0)) /\
  (0 < new_size -> lrp_max_valid_block p * lrp_block_size p < new_size
                   <= (lrp_max_valid_block p + 1) * lrp_block_size p).
Proof.
  intros Ho Hn p. subst p. unfold logical_resize_plan.
  cbn [lrp_delete_from_block lrp_shrinking lrp_block_size lrp_has_partial_tail
       lrp_tail_valid_len lrp_tail_block_index lrp_max_valid_block].
  split_and!.
  - intros b Hb. destruct (new_size <? old_size).
    + pose proof (block_count_lt new_size (Z.max block_size 1) b) as H.
      rewrite max_1_idem in H. u64_lia.
    + pose proof (block_count_lt old_size (Z.max block_size 1) b) as H.
      rewrite max_1_idem in H. u64_lia.
  - assert (Hbs : 1 <= Z.max block_size 1) by lia. u64_unfold.
    generalize dependent (Z.max block_size 1). intros m Hm.
    destruct (Z.ltb_spec 0 new_size); cbn [andb].
    + destruct (Z.eqb_spec (new_size mod m) 0) as [|Hne]; cbn [negb]; [done|].
      Z.to_euclidean_division_equations. nia.
    + replace new_size with 0 by lia. by apply Z.mod_0_l; lia.
  - intros Hpos. destruct (Z.ltb_spec 0 new_size); [|lia].
    assert (Hbs : 1 <= Z.max block_size 1) by lia.
    generalize dependent (Z.max block_size 1). intros m Hm.
    Z.to_euclidean_division_equations. nia.
Qed.

Lemma logical_resize_plan_separates_witness :
  let p := logical_resize_plan 10 6 4 in
  lrp_tail_block_index p * lrp_block_size p + lrp_tail_valid_len p = 6.
Proof. apply (logical_resize_plan_separates 10 6 4); u64_lia. Defined.

(** How a flush is classified: never as a sequential new object, as
    truncate-only exactly when a truncate is pending and no dirty block lies
    inside the file, as a patch otherwise. *)
Theorem persist_execution_class (input : PersistPlanInput) :
  is_u64 (ppi_file_size input) ->
  Forall is_u64 (ppi_dirty_blocks input) ->
  let dead := forall b, b ∈ ppi_dirty_blocks input ->
    ppi_file_size input <= b * Z.max (ppi_block_size input) 1 in
  match pep_write_class (choose_persist_execution_plan input) with
  | NewObjectSequential => False
  | TruncateOnly => ppi_truncate_pending input = true /\ dead
  | ExistingObjectPatch => ppi_truncate_pending input = false \/ ~ dead
  end.
Proof.
  intros Hfs Hd dead. destruct (persist_block_plan_spec input Hfs Hd) as [_ Hin].
  unfold choose_persist_execution_plan, choose_persist_plan, classify_persist_write.
  cbn [pep_write_class pwi_new_object_sequential pwi_truncate_pending pwi_has_payload andb].
  destruct (ppi_truncate_pending input) eqn:Htp; cbn [andb]; [|by left].
  destruct (pbp_blocks (persist_block_plan input)) as [|e es]; cbn [is_empty negb].
  - split; [done|]. intros b Hb. destruct (Z.le_gt_cases (ppi_file_size input)
      (b * Z.max (ppi_block_size input) 1)) as [|Hlive]; [done|exfalso].
    eapply not_elem_of_nil, (Hin (Build_PersistBlockPlanEntry b _)). cbn. split_and!; [done|lia|done].
  - right. intros Hdead. destruct (proj1 (Hin e)) as (Hb & Hlive & _); [left|].
    specialize (Hdead _ Hb). lia.
Qed.

Lemma persist_execution_class_witness :
  let input := {| ppi_file_size := 4; ppi_block_size := 4; ppi_truncate_pending := true;
                  ppi_dirty_blocks := [3] |} in
  pep_write_class (choose_persist_execution_plan input) = TruncateOnly /\
  forall b, b ∈ ppi_dirty_blocks input -> 4 <= b * 4.
Proof.
  split; [vm_compute; reflexivity|].
  assert (H := persist_execution_class
    {| ppi_file_size := 4; ppi_block_size := 4; ppi_truncate_pending := true;
       ppi_dirty_blocks := [3] |} ltac:(cbn; u64_lia) ltac:(repeat constructor; u64_lia)).
  apply H.
Defined.
