(* ===== verification/Transfer.v ===== *)
(** * Transfer planning

    Model of src/rust_hotpath/src/transfer_plan.rs and of the segment planners
    of src/rust_hotpath/src/lib.rs: how many workers a transfer gets, how a copy
    is cut into worker segments, and which byte ranges a changed-block mask
    denotes. *)

From stdpp Require Import prelude list numbers gmap sorting.
From Stdlib Require Import ZArith Lia.
From S2P Require Import Prelude PersistPlan.

#[local] Open Scope Z_scope.

Definition parallel_worker_count (requested_workers minimum_items_for_parallel
    total_items parallel_groups : Z) : Z :=
  if (requested_workers <=? 1) || (total_items <? minimum_items_for_parallel)
     || (parallel_groups <=? 1)
  then 1
  else Z.max (Z.min requested_workers parallel_groups) 1.

Definition parallel_worker_plan (requested_workers minimum_items_for_parallel
    total_items parallel_groups : Z) : bool * Z :=
  let workers := parallel_worker_count requested_workers minimum_items_for_parallel
                   total_items parallel_groups in
  (1 <? workers, workers).

Definition block_transfer_plan (length block_size requested_workers workers_min_blocks : Z)
    (minimum_one : bool) : Z * bool * Z :=
  let total_blocks := block_count_for_length length block_size minimum_one in
  let '(parallel, workers) :=
    parallel_worker_plan requested_workers workers_min_blocks total_blocks total_blocks in
  (total_blocks, parallel, workers).

Definition write_copy_worker_count (total_blocks workers_write workers_write_min_blocks : Z) : Z :=
  parallel_worker_count workers_write workers_write_min_blocks total_blocks total_blocks.

Definition write_copy_dedupe_plan (length block_size : Z) (copy_dedupe_enabled : bool)
    (copy_dedupe_min_blocks copy_dedupe_max_blocks : Z) : Z * bool :=
  let total_blocks := block_count_for_length length block_size true in
  let dedupe_enabled :=
    copy_dedupe_enabled
    && (Z.max copy_dedupe_min_blocks 1 <=? total_blocks)
    && ((copy_dedupe_max_blocks =? 0) || (total_blocks <=? copy_dedupe_max_blocks)) in
  (total_blocks, dedupe_enabled).

Definition write_copy_plan (length block_size workers_write workers_write_min_blocks : Z)
    (copy_dedupe_enabled : bool) (copy_dedupe_min_blocks copy_dedupe_max_blocks : Z)
    : Z * bool * bool * Z :=
  let '(total_blocks, parallel, workers) :=
    block_transfer_plan length block_size workers_write workers_write_min_blocks true in
  let dedupe_enabled :=
    (write_copy_dedupe_plan length block_size copy_dedupe_enabled
       copy_dedupe_min_blocks copy_dedupe_max_blocks).2 in
  (total_blocks, dedupe_enabled, parallel, workers).

(** The [while remaining > 0] loop; [None] is "out of fuel", which
    [copy_segments_partition] rules out for the fuel [copy_segments] gives. *)
Fixpoint copy_segments_loop (fuel : nat) (bytes_per_worker src_cursor dst_cursor remaining : Z)
    : option (list (Z * Z * Z)) :=
  if 0 <? remaining then
    match fuel with
    | O => None
    | S fuel =>
        let chunk_len := Z.min remaining bytes_per_worker in
        segments ← copy_segments_loop fuel bytes_per_worker
                     (sat_add src_cursor chunk_len) (sat_add dst_cursor chunk_len)
                     (remaining - chunk_len);
        Some ((src_cursor, dst_cursor, chunk_len) :: segments)
    end
  else Some [].

Definition copy_worker_count (length block_size workers : Z) : Z :=
  let total_blocks := 1 + (length - 1) / Z.max block_size 1 in
  Z.max (Z.min (Z.max workers 1) total_blocks) 1.

Definition copy_segments (off_in off_out length block_size workers : Z)
    : option (list (Z * Z * Z)) :=
  if length =? 0 then Some []
  else
    let worker_count := copy_worker_count length block_size workers in
    let block_size := Z.max block_size 1 in
    let total_blocks := 1 + (length - 1) / block_size in
    let blocks_per_worker := Z.max (div_ceil total_blocks worker_count) 1 in
    let bytes_per_worker := sat_mul blocks_per_worker block_size in
    copy_segments_loop (Z.to_nat worker_count) bytes_per_worker off_in off_out length.

(** The loop of [pack_changed_ranges] over the blocks from [block_index] on. *)
Fixpoint pack_changed_loop (off_out block_size block_index copy_end : Z)
    (run_start : option Z) (changed_mask : list bool) : list (Z * Z) :=
  match changed_mask with
  | [] =>
      match run_start with
      | Some start => [(start, Z.max copy_end off_out)]
      | None => []
      end
  | changed :: rest =>
      let block_start := sat_add off_out (sat_mul block_index block_size) in
      if changed then
        let run_start := match run_start with None => Some block_start | s => s end in
        pack_changed_loop off_out block_size (block_index + 1) copy_end run_start rest
      else
        match run_start with
        | Some start =>
            (start, block_start)
            :: pack_changed_loop off_out block_size (block_index + 1) copy_end None rest
        | None => pack_changed_loop off_out block_size (block_index + 1) copy_end None rest
        end
  end.

Definition pack_changed_ranges (off_out total_len block_size : Z) (changed_mask : list bool)
    : list (Z * Z) :=
  let block_size := Z.max block_size 1 in
  pack_changed_loop off_out block_size 0 (sat_add off_out total_len) None changed_mask.

Definition pack_changed_copy_pairs (off_out total_len block_size : Z)
    (pairs : list (bytes * bytes)) : list (Z * Z) :=
  let changed_mask := map (fun p => negb (bool_decide (p.1 = p.2))) pairs in
  pack_changed_ranges off_out total_len block_size changed_mask.

(** The unit tests of the source, replayed on the model. *)
Example copy_segments_test :
  copy_segments 10 20 8193 4096 4 = Some [(10, 20, 4096); (4106, 4116, 4096); (8202, 8212, 1)].
Proof. vm_compute. reflexivity. Qed.

Example copy_segments_extreme :
  copy_segments 10 20 U64_MAX U64_MAX 1 = Some [(10, 20, U64_MAX)].
Proof. vm_compute. reflexivity. Qed.

Example pack_changed_ranges_test :
  pack_changed_ranges 100 (7 * 4096) 4096 [true; true; false; true; false; false; true]
  = [(100, 100 + 2 * 4096); (100 + 3 * 4096, 100 + 4 * 4096); (100 + 6 * 4096, 100 + 7 * 4096)].
Proof. vm_compute. reflexivity. Qed.

(** ** Worker counts *)

(** A transfer always gets at least one worker, never more than requested
    (unless fewer than one was requested) nor more than there are groups to work
    on, and it is reported parallel exactly when several workers run, which
    needs the configured minimum number of items. *)
Theorem parallel_worker_plan_bounds (requested minimum items groups : Z) :
  let '(parallel, workers) := parallel_worker_plan requested minimum items groups in
  1 <= workers <= Z.max 1 requested /\ workers <= Z.max 1 groups /\
  (parallel = true <-> 1 < requested /\ 1 < groups /\ minimum <= items) /\
  (parallel = false <-> workers = 1).
Proof.
  unfold parallel_worker_plan, parallel_worker_count.
  destruct (Z.leb_spec requested 1), (Z.ltb_spec items minimum), (Z.leb_spec groups 1);
    cbn [orb]; zcase; try lia; split_and!; try lia; split; intros; lia || done.
Qed.

(** ** Copy segments *)

(** [segs] tiles the copy of [len] bytes from [src] to [dst] front to back. *)
Fixpoint tiles (src dst len : Z) (segs : list (Z * Z * Z)) : Prop :=
  match segs with
  | [] => len = 0
  | (s, d, l) :: rest =>
      s = src /\ d = dst /\ 0 < l <= len /\ tiles (src + l) (dst + l) (len - l) rest
  end.

Definition segment_len (seg : Z * Z * Z) : Z := seg.2.

Lemma copy_segments_loop_spec fuel : forall bpw src dst rem,
  0 < bpw -> 0 <= rem -> rem <= Z.of_nat fuel * bpw ->
  exists segs, copy_segments_loop fuel bpw src dst rem = Some segs /\
    (length segs <= fuel)%nat /\
    Forall (fun seg => 0 < segment_len seg <= bpw) segs /\
    foldr Z.add 0 (map segment_len segs) = rem /\
    (src + rem <= U64_MAX -> dst + rem <= U64_MAX -> tiles src dst rem segs).
Proof.
  induction fuel as [|fuel IH]; intros bpw src dst rem Hb Hr Hf; cbn [copy_segments_loop].
  - destruct (Z.ltb_spec 0 rem); [lia|]. exists []. cbn. split_and!; try constructor; try lia.
  - destruct (Z.ltb_spec 0 rem).
    + destruct (IH bpw (sat_add src (Z.min rem bpw)) (sat_add dst (Z.min rem bpw))
        (rem - Z.min rem bpw)) as (segs & -> & Hlen & Hall & Hsum & Htiles); [lia|lia|nia|].
      eexists. split; [reflexivity|]. cbn [length map foldr]. split_and!.
      * lia.
      * constructor; [cbn; lia|done].
      * unfold segment_len at 1. cbn. lia.
      * intros H1 H2. cbn. split_and!; try lia.
        unfold sat_add in Htiles. rewrite (Z.min_l (src + _)), (Z.min_l (dst + _)) in Htiles by lia.
        apply Htiles; lia.
    + exists []. cbn. split_and!; try constructor; try lia.
Qed.

Lemma copy_bytes_enough length bs workers :
  0 < length -> 
  let wc := copy_worker_count length bs workers in
  let bpw := sat_mul (Z.max (div_ceil (1 + (length - 1) / Z.max bs 1) wc) 1) (Z.max bs 1) in
  length <= U64_MAX -> 0 < bpw /\ 1 <= wc <= Z.max workers 1 /\ length <= wc * bpw.
Proof.
  intros Hl wc bpw Hmax. subst bpw. unfold wc, copy_worker_count.
  set (tb := 1 + (length - 1) / Z.max bs 1).
  assert (Htb : 1 <= tb) by (unfold tb; assert (0 <= (length - 1) / Z.max bs 1) by (apply Z.div_pos; lia); lia).
  assert (Hcov : length <= tb * Z.max bs 1).
  { unfold tb. clear. pose proof (Z.le_max_r bs 1). generalize dependent (Z.max bs 1).
    intros m ?. Z.to_euclidean_division_equations. nia. }
  set (w := Z.max (Z.min (Z.max workers 1) tb) 1).
  assert (Hw : 1 <= w <= Z.max workers 1) by lia.
  assert (Hceil : tb <= w * div_ceil tb w).
  { unfold div_ceil. zcase; Z.to_euclidean_division_equations; nia. }
  set (q := Z.max (div_ceil tb w) 1) in *. assert (Hq : 1 <= q /\ div_ceil tb w <= q) by lia.
  assert (tb <= w * q) by nia. unfold sat_mul.
  assert (Hbs : 1 <= Z.max bs 1) by lia. clearbody q w tb. clear wc.
  generalize dependent (Z.max bs 1). intros m ? ?.
  destruct (Z.le_gt_cases (q * m) U64_MAX).
  - rewrite Z.min_l by lia. split_and!; nia.
  - rewrite Z.min_r by lia. unfold U64_MAX in *. split_and!; nia.
Qed.

(** cutting a copy into worker segments terminates with at most
    [max workers 1] segments of positive length whose lengths add up to the
    copy; when neither end of the copy passes 2^64 the segments tile the source
    and the destination in step, front to back. *)
Theorem copy_segments_partition (off_in off_out length block_size workers : Z) :
  is_u64 length ->
  exists segs, copy_segments off_in off_out length block_size workers = Some segs /\
    zlen segs <= Z.max workers 1 /\
    Forall (fun seg => 0 < segment_len seg) segs /\
    foldr Z.add 0 (map segment_len segs) = length /\
    (off_in + length <= U64_MAX -> off_out + length <= U64_MAX ->
     tiles off_in off_out length segs).
Proof.
  intros Hl. unfold copy_segments.
  destruct (Z.eqb_spec length 0) as [->|Hne].
  { exists []. split_and!; try done. rewrite zlen_nil. lia. }
  destruct (copy_bytes_enough length block_size workers) as (Hb & Hw & Hcov); [u64_lia..|].
  edestruct (copy_segments_loop_spec (Z.to_nat (copy_worker_count length block_size workers)))
    as (segs & Heq & Hn & Hall & Hsum & Ht); [exact Hb| |rewrite Z2Nat.id by lia; exact Hcov|].
  { u64_lia. }
  exists segs. split; [exact Heq|]. split_and!; try done; [unfold zlen; lia|].
  eapply Forall_impl; [exact Hall|]. cbn. lia.
Qed.

Lemma copy_segments_partition_witness :
  exists segs, copy_segments 10 20 8193 4096 4 = Some segs /\ tiles 10 20 8193 segs.
Proof.
  destruct (copy_segments_partition 10 20 8193 4096 4) as (segs & H & _ & _ & _ & Ht); [u64_lia|].
  exists segs. split; [exact H|]. apply Ht; u64_lia.
Defined.

(** ** Changed ranges *)

(** Whether the byte at [off_out + x] belongs to a changed block of the mask. *)
Definition mask_at (block_size : Z) (mask : list bool) (x : Z) : bool :=
  default false (mask !! Z.to_nat (x / block_size)).

(** The half-open ranges of the source as inclusive ones. *)
Definition inclusive (rs : list (Z * Z)) : list (Z * Z) := map (fun r => (r.1, r.2 - 1)) rs.

Lemma pack_changed_loop_spec off bs total mask : forall idx run,
  0 < bs -> 0 <= off -> 0 <= idx ->
  off + total <= U64_MAX ->
  (mask = [] -> total <= idx * bs) ->
  (mask <> [] -> (idx + zlen mask - 1) * bs < total <= (idx + zlen mask) * bs) ->
  match run with Some s => off <= s < off + idx * bs /\ s < off + total | None => True end ->
  let rs := inclusive (pack_changed_loop off bs idx (off + total) run mask) in
  let lo := match run with Some s => s | None => off + idx * bs end in
  ranges_sep lo rs /\
  forall x, in_ranges x rs <->
    match run with Some s => s <= x < Z.min (off + idx * bs) (off + total) | None => False end \/
    (off + idx * bs <= x < off + total /\ mask_at bs mask (x - off - idx * bs) = true).
Proof.
  induction mask as [|c mask IH]; intros idx run Hbs Hoff Hidx Hmax Hnil Hcons Hrun rs lo;
    subst rs lo; cbn [pack_changed_loop].
  - specialize (Hnil eq_refl). destruct run as [s|]; cbn.
    + split; [lia|]. intros x. rewrite in_ranges_cons. split.
      * intros [H|H]; [left; lia|by apply in_ranges_nil in H].
      * intros [H|H]; left; lia.
    + split; [done|]. intros x. split; [intros H; by apply in_ranges_nil in H|lia].
  - specialize (Hcons ltac:(done)). rewrite zlen_cons in Hcons.
    pose proof (zlen_nonneg mask) as Hlen.
    assert (Hstart : sat_add off (sat_mul idx bs) = off + idx * bs) by (u64_unfold; nia).
    rewrite Hstart.
    assert (Hnil' : mask = [] -> total <= (idx + 1) * bs) by (intros ->; rewrite zlen_nil in *; nia).
    assert (Hcons' : mask <> [] -> (idx + 1 + zlen mask - 1) * bs < total <= (idx + 1 + zlen mask) * bs)
      by (intros _; nia).
    assert (Hat : forall x, off + idx * bs <= x < off + total ->
      mask_at bs (c :: mask) (x - off - idx * bs) =
        if decide (x < off + (idx + 1) * bs) then c else mask_at bs mask (x - off - (idx + 1) * bs)).
    { intros x Hx. unfold mask_at. case_decide.
      - replace ((x - off - idx * bs) / bs) with 0; [done|]. symmetry. apply Z.div_small. lia.
      - replace (x - off - idx * bs) with ((x - off - (idx + 1) * bs) + 1 * bs) by lia.
        rewrite Z.div_add by lia.
        assert (0 <= (x - off - (idx + 1) * bs) / bs) by (apply Z.div_pos; lia).
        replace (Z.to_nat _) with (S (Z.to_nat ((x - off - (idx + 1) * bs) / bs))) by lia. done. }
    assert (Hidx1 : off + idx * bs < off + total) by nia.
    destruct c.
    + set (run' := match run with None => Some (off + idx * bs) | s => s end).
      destruct (IH (idx + 1) run' Hbs Hoff ltac:(lia) Hmax Hnil' Hcons') as [Hsep Hin].
      { unfold run'. destruct run; nia. }
      split; [unfold run' in *; by destruct run|].
      intros x. rewrite Hin. unfold run'.
      destruct run as [s|].
      * split.
        -- intros [H|[H1 H2]]; [|right; rewrite Hat by nia; case_decide; [lia|]; split; [nia|done]].
           destruct (Z.lt_ge_cases x (off + idx * bs)); [left; lia|].
           right. split; [lia|]. rewrite Hat by lia. case_decide; [done|lia].
        -- intros [H|[H1 H2]]; [left; nia|]. rewrite Hat in H2 by done. case_decide; [left; lia|].
           right. split; [lia|done].
      * split.
        -- intros [H|[H1 H2]]; right; (split; [nia|]); rewrite Hat by nia; case_decide; done || nia.
        -- intros [[]|[H1 H2]]. rewrite Hat in H2 by done. case_decide; [left; lia|].
           right. split; [lia|done].
    + destruct (IH (idx + 1) None Hbs Hoff ltac:(lia) Hmax Hnil' Hcons' I) as [Hsep Hin].
      destruct run as [s|].
      * cbn. split; [split; [lia|]; eapply ranges_sep_mono; [|exact Hsep]; nia|].
        intros x. rewrite in_ranges_cons. fold (inclusive (pack_changed_loop off bs (idx + 1) (off + total) None mask)).
        rewrite Hin. split.
        -- intros [H|[[]|[H1 H2]]]; [left; lia|right]. split; [nia|]. rewrite Hat by nia.
           case_decide; [lia|done].
        -- intros [H|[H1 H2]]; [left; lia|]. rewrite Hat in H2 by done. case_decide; [done|].
           right; right. split; [lia|done].
      * split; [eapply ranges_sep_mono; [|exact Hsep]; nia|].
        intros x. rewrite Hin. split.
        -- intros [[]|[H1 H2]]. right. split; [nia|]. rewrite Hat by nia. case_decide; [lia|done].
        -- intros [[]|[H1 H2]]. rewrite Hat in H2 by done. case_decide; [done|].
           right. split; [lia|done].
Qed.

(** [pack_changed_ranges] turns a changed-block mask into byte ranges: a
    destination byte is in one of the ranges exactly when it lies in the copied
    span and its block is marked changed; the ranges are the maximal ones, in
    ascending order, and the last one stops at the end of the copy even when the
    last block is partial. *)
Theorem pack_changed_ranges_exact (off_out total_len block_size : Z) (mask : list bool) :
  0 <= off_out -> off_out + total_len <= U64_MAX ->
  zlen mask = block_count_for_length total_len block_size false -> 0 <= total_len ->
  let rs := inclusive (pack_changed_ranges off_out total_len block_size mask) in
  ranges_sep off_out rs /\
  forall x, in_ranges x rs <->
    off_out <= x < off_out + total_len /\
    mask_at (Z.max block_size 1) mask (x - off_out) = true.
Proof.
  intros Hoff Hmax Hlen Ht rs. subst rs. unfold pack_changed_ranges.
  replace (sat_add off_out total_len) with (off_out + total_len) by u64_lia.
  pose proof (block_count_lt total_len block_size) as Hlt. rewrite <- Hlen in Hlt.
  destruct (pack_changed_loop_spec off_out (Z.max block_size 1) total_len mask 0 None
    ltac:(lia) Hoff ltac:(lia) Hmax) as [Hsep Hin]; [| |done|].
  - destruct mask; [intros _|done]. specialize (Hlt 0). assert (zlen (@nil bool) = 0) by done. lia.
  - intros Hne. assert (0 < zlen mask) by (unfold zlen; destruct mask; [done|cbn [length]; lia]).
    split.
    + replace (0 + zlen mask - 1) with (zlen mask - 1) by lia. apply Hlt; lia.
    + destruct (Hlt (zlen mask)) as [_ H']; lia.
  - rewrite Z.mul_0_l, Z.add_0_r in *. split; [done|].
    intros x. rewrite Hin. replace (x - off_out - 0) with (x - off_out) by lia. tauto.
Qed.

Lemma pack_changed_ranges_exact_witness :
  in_ranges 109 (inclusive (pack_changed_ranges 100 10 4 [false; false; true])).
Proof.
  apply (pack_changed_ranges_exact 100 10 4 [false; false; true]);
    [lia|u64_lia|vm_compute; reflexivity|lia|]. split; [lia|vm_compute; reflexivity].
Defined.
