(* ===== verification/ReadPlan.v ===== *)
(** * Read planning and slice assembly

    Model of the read half of src/rust_hotpath/src/lib.rs: the read-ahead
    window, the block window fetched for a read request, zero padding of stored
    blocks and the assembly of the requested bytes from the fetched blocks. *)

From stdpp Require Import prelude list numbers gmap sorting.
From Stdlib Require Import ZArith Lia.
From S2P Require Import Prelude PersistPlan Transfer.

#[local] Open Scope Z_scope.

Definition read_ahead_blocks (read_ahead_blocks sequential_read_ahead_blocks streak
    read_cache_limit_blocks : Z) (sequential : bool) : Z :=
  let effective :=
    if sequential
    then Z.max read_ahead_blocks (sat_mul sequential_read_ahead_blocks (Z.max streak 1))
    else read_ahead_blocks in
  let max_allowed := sat_sub read_cache_limit_blocks 1 in
  Z.min effective max_allowed.

Record ReadFetchBoundsInput : Set := {
  rfb_total_blocks : Z;
  rfb_requested_first : Z;
  rfb_requested_last : Z;
  rfb_read_ahead_blocks_value : Z;
  rfb_sequential_read_ahead_blocks_value : Z;
  rfb_streak : Z;
  rfb_read_cache_limit_blocks : Z;
  rfb_sequential : bool;
  rfb_small_file_threshold_blocks : Z
}.

Definition read_fetch_bounds (input : ReadFetchBoundsInput) : option (Z * Z) :=
  let total_blocks := rfb_total_blocks input in
  if total_blocks =? 0 then None
  else if total_blocks <=? rfb_small_file_threshold_blocks input
  then Some (0, sat_sub total_blocks 1)
  else
    let read_ahead := read_ahead_blocks
      (rfb_read_ahead_blocks_value input)
      (rfb_sequential_read_ahead_blocks_value input)
      (rfb_streak input)
      (rfb_read_cache_limit_blocks input)
      (rfb_sequential input) in
    let fetch_first := rfb_requested_first input in
    let fetch_last :=
      Z.min (sat_add (rfb_requested_last input) read_ahead) (sat_sub total_blocks 1) in
    Some (fetch_first, fetch_last).

Record ReadSlicePlanInput : Set := {
  rsp_file_size : Z;
  rsp_offset : Z;
  rsp_size : Z;
  rsp_block_size : Z;
  rsp_read_ahead_blocks_value : Z;
  rsp_sequential_read_ahead_blocks_value : Z;
  rsp_streak : Z;
  rsp_read_cache_limit_blocks : Z;
  rsp_sequential : bool;
  rsp_small_file_threshold_blocks : Z
}.

Definition read_slice_plan (input : ReadSlicePlanInput) : option (Z * Z * Z) :=
  let file_size := rsp_file_size input in
  let offset := rsp_offset input in
  let size := rsp_size input in
  if (size =? 0) || (file_size <=? offset) then None
  else
    let block_size := Z.max (rsp_block_size input) 1 in
    let total_blocks := (block_transfer_plan file_size block_size 1 1 false).1.1 in
    if total_blocks =? 0 then None
    else
      let end_offset := Z.min (sat_add offset size) file_size in
      let requested_first := offset / block_size in
      let requested_last := Z.max (sat_sub end_offset 1 / block_size) requested_first in
      '(fetch_first, fetch_last) ← read_fetch_bounds
        {| rfb_total_blocks := total_blocks;
           rfb_requested_first := requested_first;
           rfb_requested_last := requested_last;
           rfb_read_ahead_blocks_value := rsp_read_ahead_blocks_value input;
           rfb_sequential_read_ahead_blocks_value := rsp_sequential_read_ahead_blocks_value input;
           rfb_streak := rsp_streak input;
           rfb_read_cache_limit_blocks := rsp_read_cache_limit_blocks input;
           rfb_sequential := rsp_sequential input;
           rfb_small_file_threshold_blocks := rsp_small_file_threshold_blocks input |};
      Some (total_blocks, fetch_first, fetch_last).

Definition read_missing_range_worker_count (workers_read workers_read_min_blocks missing_len
    contiguous_ranges_len : Z) : Z :=
  parallel_worker_count workers_read workers_read_min_blocks missing_len contiguous_ranges_len.

(** [&payload[..copy_len]] followed by [resize]; [copy_len <= payload.len()]. *)
Definition pad_block_bytes (payload : bytes) (used_len block_size : Z) : bytes :=
  let block_size := Z.max block_size 1 in
  let used_len := Z.min used_len block_size in
  let copy_len := Z.min (zlen payload) used_len in
  let out := take (Z.to_nat copy_len) payload in
  if zlen out <? block_size then vec_resize out block_size else out.

(** One iteration of the copy loop of [assemble_read_slice]; it cannot fail,
    only index out of bounds. *)
Definition assemble_step (fetch_first fetch_last offset end_offset block_size : Z)
    (output : bytes) (row : Z * bytes) : outcome Empty_set bytes :=
  let '(block_index, data) := row in
  if (block_index <? fetch_first) || (fetch_last <? block_index) then Ok output
  else
    let block_start := sat_mul block_index block_size in
    let block_end := sat_add block_start block_size in
    let copy_start := Z.max offset block_start in
    let copy_end := Z.min end_offset block_end in
    if copy_end <=? copy_start then Ok output
    else
      let src_start := copy_start - block_start in
      if zlen data <=? src_start then Ok output
      else
        let src_end := Z.min (copy_end - block_start) (zlen data) in
        let dst_start := copy_start - offset in
        let copy_len := Z.min (sat_sub src_end src_start) (sat_sub (zlen output) dst_start) in
        if copy_len =? 0 then Ok output
        else
          src ← slice data src_start (src_start + copy_len);
          copy_from_slice output dst_start (dst_start + copy_len) src.

Fixpoint assemble_loop (fetch_first fetch_last offset end_offset block_size : Z)
    (output : bytes) (blocks : list (Z * bytes)) : outcome Empty_set bytes :=
  match blocks with
  | [] => Ok output
  | row :: blocks =>
      output ← assemble_step fetch_first fetch_last offset end_offset block_size output row;
      assemble_loop fetch_first fetch_last offset end_offset block_size output blocks
  end.

Definition assemble_read_slice (fetch_first fetch_last offset end_offset block_size : Z)
    (blocks : list (Z * bytes)) : outcome Empty_set bytes :=
  if fetch_last <? fetch_first then Ok []
  else
    let block_size := Z.max block_size 1 in
    let requested_len := sat_sub end_offset offset in
    if requested_len =? 0 then Ok []
    else
      assemble_loop fetch_first fetch_last offset end_offset block_size
        (zeros requested_len) blocks.

Example assemble_read_slice_test :
  assemble_read_slice 1 1 9 12 8 [(1, [97; 98; 99; 100; 101; 102; 103; 104])] = Ok [98; 99; 100].
Proof. vm_compute. reflexivity. Qed.

Example read_slice_plan_test :
  read_slice_plan
    {| rsp_file_size := 64; rsp_offset := 8; rsp_size := 8; rsp_block_size := 4;
       rsp_read_ahead_blocks_value := 2; rsp_sequential_read_ahead_blocks_value := 8;
       rsp_streak := 1; rsp_read_cache_limit_blocks := 256; rsp_sequential := true;
       rsp_small_file_threshold_blocks := 8 |} = Some (16, 2, 11).
Proof. vm_compute. reflexivity. Qed.

(** ** Slice assembly *)

(** What the fetched rows say about file offset [p]: the last row of the fetch
    window that holds block [p / bs] and is long enough decides, a hole is
    zero. *)
Definition row_decides (ff fl bs p : Z) (row : Z * bytes) : bool :=
  (row.1 =? p / bs) && (ff <=? row.1) && (row.1 <=? fl) && (p mod bs <? zlen row.2).

Definition rows_byte (ff fl bs p : Z) (rows : list (Z * bytes)) (dflt : Z) : Z :=
  foldl (fun acc row => if row_decides ff fl bs p row then byte_at row.2 (p mod bs) else acc)
        dflt rows.

Lemma in_block_iff bs b p : 0 < bs -> b = p / bs <-> b * bs <= p < b * bs + bs.
Proof.
  intros. pose proof (div_block_bounds bs p ltac:(lia)). split; [intros ->; lia|]. nia.
Qed.

Lemma mod_in_block bs b p : 0 < bs -> b * bs <= p < b * bs + bs -> p mod bs = p - b * bs.
Proof.
  intros Hbs Hp. assert (b = p / bs) as -> by (by apply in_block_iff).
  rewrite Z.mod_eq by lia. lia.
Qed.

(** One row overwrites exactly the requested bytes it decides. *)
Lemma assemble_step_spec ff fl off end_ bs output b data :
  0 < bs -> 0 <= b -> is_u64 off -> is_u64 end_ -> off < end_ ->
  zlen output = end_ - off ->
  exists out, assemble_step ff fl off end_ bs output (b, data) = Ok out /\
    zlen out = end_ - off /\
    forall p, off <= p < end_ ->
      byte_at out (p - off) =
        if row_decides ff fl bs p (b, data) then byte_at data (p mod bs)
        else byte_at output (p - off).
Proof.
  intros Hbs Hb Hoff Hend Hlt Hlen. unfold assemble_step.
  assert (Hdec : forall p, row_decides ff fl bs p (b, data) = true <->
    b * bs <= p < b * bs + bs /\ ff <= b <= fl /\ p - b * bs < zlen data).
  { intros p. unfold row_decides. cbn [fst snd].
    rewrite !andb_true_iff, Z.eqb_eq, !Z.leb_le, Z.ltb_lt, in_block_iff by done.
    split; intros H; destruct_and? H; pose proof (mod_in_block bs b p Hbs ltac:(lia)); lia. }
  assert (Hskip : (forall p, off <= p < end_ -> row_decides ff fl bs p (b, data) = false) ->
    exists out, @Ok Empty_set _ output = Ok out /\ zlen out = end_ - off /\
      forall p, off <= p < end_ -> byte_at out (p - off) =
        if row_decides ff fl bs p (b, data) then byte_at data (p mod bs) else byte_at output (p - off)).
  { intros Hno. exists output. split_and!; [done..|]. intros p Hp. by rewrite Hno. }
  assert (Hfalse : forall p, ~ row_decides ff fl bs p (b, data) = true ->
    row_decides ff fl bs p (b, data) = false) by (intros; by apply not_true_is_false).
  destruct (Z.ltb_spec b ff), (Z.ltb_spec fl b); cbn [orb];
    try (apply Hskip; intros p Hp; apply Hfalse; rewrite Hdec; lia).
  set (bst := sat_mul b bs). set (ben := sat_add bst bs).
  assert (Hbst : bst = b * bs \/ (U64_MAX < b * bs /\ bst = U64_MAX)) by (unfold bst, sat_mul; lia).
  assert (Hben : ben = bst + bs \/ (U64_MAX < bst + bs /\ ben = U64_MAX)) by (unfold ben, sat_add; lia).
  assert (Hmax : U64_MAX = 2 ^ 64 - 1) by done. unfold is_u64 in *.
  destruct (Z.leb_spec (Z.min end_ ben) (Z.max off bst)).
  { apply Hskip. intros p Hp. apply Hfalse. rewrite Hdec. lia. }
  assert (bst = b * bs) as Hb' by lia.
  destruct (Z.leb_spec (zlen data) (Z.max off bst - bst)).
  { apply Hskip. intros p Hp. apply Hfalse. rewrite Hdec. lia. }
  unfold sat_sub. rewrite Hlen.
  set (cl := Z.min (Z.max (Z.min (Z.min end_ ben - bst) (zlen data) - (Z.max off bst - bst)) 0)
               (Z.max (end_ - off - (Z.max off bst - off)) 0)).
  assert (Hcl : cl = Z.min (Z.min end_ ben - bst) (zlen data) - (Z.max off bst - bst)) by lia.
  destruct (Z.eqb_spec cl 0); [lia|].
  rewrite slice_Ok by lia. cbn [mbind outcome_bind].
  set (src := take _ _).
  assert (Hsrc : zlen src = cl).
  { unfold src. rewrite zlen_take by lia. rewrite zlen_drop by lia. lia. }
  rewrite copy_from_slice_Ok by lia. eexists. split; [reflexivity|].
  split; [rewrite zlen_splice by lia; lia|].
  intros p Hp. rewrite byte_at_splice by lia. rewrite Hsrc.
  case_decide as Hin.
  - replace (row_decides ff fl bs p (b, data)) with true by (symmetry; apply Hdec; lia).
    unfold src. rewrite byte_at_take, byte_at_drop by lia. repeat case_decide; try lia.
    rewrite (mod_in_block bs b p) by lia. f_equal. lia.
  - rewrite Hfalse; [done|]. rewrite Hdec. lia.
Qed.

Lemma assemble_loop_spec ff fl off end_ bs rows : forall output,
  0 < bs -> Forall (fun row => 0 <= row.1) rows -> is_u64 off -> is_u64 end_ -> off < end_ ->
  zlen output = end_ - off ->
  exists out, assemble_loop ff fl off end_ bs output rows = Ok out /\
    zlen out = end_ - off /\
    forall p, off <= p < end_ ->
      byte_at out (p - off) = rows_byte ff fl bs p rows (byte_at output (p - off)).
Proof.
  induction rows as [|[b data] rows IH]; intros output Hbs Hrows Hoff Hend Hlt Hlen.
  { exists output. done. }
  apply Forall_cons in Hrows as [Hb Hrows]. cbn [assemble_loop].
  destruct (assemble_step_spec ff fl off end_ bs output b data) as (out & -> & Hl & Hbytes); try done.
  cbn [mbind outcome_bind].
  destruct (IH out) as (out' & -> & Hl' & Hbytes'); try done.
  exists out'. split_and!; [done..|]. intros p Hp. rewrite Hbytes', Hbytes by done. done.
Qed.

Lemma assemble_read_slice_run (fetch_first fetch_last offset end_offset block_size : Z)
    (blocks : list (Z * bytes)) :
  is_u64 offset -> is_u64 end_offset -> fetch_first <= fetch_last ->
  Forall (fun row => 0 <= row.1) blocks ->
  exists out,
    assemble_read_slice fetch_first fetch_last offset end_offset block_size blocks = Ok out /\
    zlen out = Z.max 0 (end_offset - offset) /\
    forall p, offset <= p < end_offset ->
      byte_at out (p - offset) =
        rows_byte fetch_first fetch_last (Z.max block_size 1) p blocks 0.
Proof.
  intros Hoff Hend Hff Hrows. unfold assemble_read_slice, sat_sub.
  destruct (Z.ltb_spec fetch_last fetch_first); [lia|].
  destruct (Z.eqb_spec (Z.max (end_offset - offset) 0) 0).
  { exists []. split_and!; [done|rewrite zlen_nil; lia|lia]. }
  destruct (assemble_loop_spec fetch_first fetch_last offset end_offset (Z.max block_size 1) blocks
    (zeros (Z.max (end_offset - offset) 0))) as (out & Heq & Hl & Hbytes); try done; try lia.
  { rewrite zlen_zeros. lia. }
  exists out. split_and!; [done|lia|]. intros p Hp. by rewrite Hbytes, byte_at_zeros.
Qed.

(** assembling a read never indexes out of bounds; it returns exactly the
    requested number of bytes, and each byte is the one stored in the fetched
    row of its block, or zero where no row (or a short row) covers it, even when
    rows are missing, duplicated, short, out of order or outside the window, and
    even when [block_index * block_size] overflows 64 bits. *)
Theorem assemble_read_slice_bytes (fetch_first fetch_last offset end_offset block_size : Z)
    (blocks : list (Z * bytes)) :
  is_u64 offset -> is_u64 end_offset -> fetch_first <= fetch_last ->
  Forall (fun row => 0 <= row.1) blocks ->
  exists out,
    assemble_read_slice fetch_first fetch_last offset end_offset block_size blocks = Ok out /\
    zlen out = Z.max 0 (end_offset - offset) /\
    forall p, offset <= p < end_offset ->
      byte_at out (p - offset) =
        rows_byte fetch_first fetch_last (Z.max block_size 1) p blocks 0.
Proof. apply assemble_read_slice_run. Qed.

Lemma assemble_read_slice_bytes_witness :
  exists out, assemble_read_slice 0 2 1 11 4 [(2, [7]); (0, [1; 2; 3; 4])] = Ok out /\
    byte_at out (8 - 1) = 7 /\ byte_at out (9 - 1) = 0.
Proof.
  destruct (assemble_read_slice_bytes 0 2 1 11 4 [(2, [7]); (0, [1; 2; 3; 4])])
    as (out & H & _ & Hb); [u64_lia|u64_lia|lia|repeat constructor; cbn; lia|].
  exists out. split; [exact H|]. split; [rewrite Hb by lia|rewrite (Hb 9) by lia]; vm_compute; reflexivity.
Defined.

(** ** Read windows *)

(** the planned window of a read: no plan exactly for an empty request or
    one at or past end of file; otherwise the window covers every block of the
    requested bytes, stays inside the file, and, for files above the small-file
    threshold, starts at the first requested block and reads ahead less than the
    cache capacity. *)
Theorem read_slice_plan_covers (input : ReadSlicePlanInput) :
  is_u64 (rsp_file_size input) -> is_u64 (rsp_offset input) -> is_u64 (rsp_size input) ->
  is_u64 (rsp_read_ahead_blocks_value input) -> 0 <= rsp_sequential_read_ahead_blocks_value input ->
  let bs := Z.max (rsp_block_size input) 1 in
  let end_ := Z.min (rsp_offset input + rsp_size input) (rsp_file_size input) in
  match read_slice_plan input with
  | None => rsp_size input = 0 \/ rsp_file_size input <= rsp_offset input
  | Some (total, first, last) =>
      0 < rsp_size input /\ rsp_offset input < rsp_file_size input /\
      total = block_count_for_length (rsp_file_size input) bs false /\
      0 <= first <= rsp_offset input / bs /\ (end_ - 1) / bs <= last < total /\
      (rsp_small_file_threshold_blocks input < total ->
         first = rsp_offset input / bs /\
         last <= (end_ - 1) / bs + Z.max 0 (rsp_read_cache_limit_blocks input - 1))
  end.
Proof.
  destruct input as [fs off size bs0 ra sra streak limit sq small]. cbn.
  intros Hfs Hoff Hsize Hra Hsra. unfold read_slice_plan. cbn.
  destruct (Z.eqb_spec size 0); cbn; [by left|].
  destruct (Z.leb_spec fs off); cbn; [by right|].
  unfold block_transfer_plan. cbn.
  set (bs := Z.max bs0 1). assert (Hbs : 1 <= bs) by lia.
  set (total := block_count_for_length fs bs false).
  assert (Hlt : forall b, 0 <= b -> b < total <-> b * bs < fs).
  { intros b Hb. pose proof (block_count_lt fs bs b ltac:(u64_lia) Hb) as Hc.
    replace (Z.max bs 1) with bs in Hc by lia. exact Hc. }
  assert (0 < total) by (apply Hlt; u64_lia).
  destruct (Z.eqb_spec total 0); [lia|].
  set (end_ := Z.min (off + size) fs).
  replace (Z.min (sat_add off size) fs) with end_ by (unfold end_; u64_lia).
  assert (Hend : off < end_ <= fs) by (unfold end_; u64_lia).
  replace (sat_sub end_ 1) with (end_ - 1) by u64_lia.
  assert (Hmono : off / bs <= (end_ - 1) / bs) by (apply Z.div_le_mono; lia).
  assert (0 <= off / bs) by (apply Z.div_pos; u64_lia).
  rewrite Z.max_l by lia.
  assert (Hlast : (end_ - 1) / bs < total).
  { apply Hlt; [lia|]. pose proof (div_block_bounds bs (end_ - 1) ltac:(lia)). lia. }
  unfold read_fetch_bounds. cbn.
  destruct (Z.eqb_spec total 0); [lia|].
  destruct (Z.leb_spec total small); cbn.
  - unfold sat_sub. split_and!; try lia; u64_lia.
  - unfold read_ahead_blocks.
    assert (Hra0 : 0 <= (if sq then Z.max ra (sat_mul sra (Z.max streak 1)) else ra))
      by (destruct sq; u64_lia).
    assert (Htot : total <= U64_MAX).
    { destruct (Z.le_gt_cases total U64_MAX); [done|exfalso].
      assert (U64_MAX * bs < fs) by (apply Hlt; u64_lia). u64_unfold. nia. }
    generalize dependent (if sq then Z.max ra (sat_mul sra (Z.max streak 1)) else ra).
    intros eff Heff. unfold sat_add, sat_sub. split_and!; try lia; u64_lia.
Qed.

Lemma read_slice_plan_covers_witness :
  let input := {| rsp_file_size := 64; rsp_offset := 8; rsp_size := 8; rsp_block_size := 4;
     rsp_read_ahead_blocks_value := 2; rsp_sequential_read_ahead_blocks_value := 8;
     rsp_streak := 1; rsp_read_cache_limit_blocks := 4; rsp_sequential := true;
     rsp_small_file_threshold_blocks := 8 |} in
  read_slice_plan input = Some (16, 2, 6) /\ 6 <= (16 - 1) / 4 + Z.max 0 (4 - 1).
Proof.
  split; [vm_compute; reflexivity|].
  assert (H := read_slice_plan_covers
   {| rsp_file_size := 64; rsp_offset := 8; rsp_size := 8; rsp_block_size := 4;
     rsp_read_ahead_blocks_value := 2; rsp_sequential_read_ahead_blocks_value := 8;
     rsp_streak := 1; rsp_read_cache_limit_blocks := 4; rsp_sequential := true;
     rsp_small_file_threshold_blocks := 8 |} ltac:(cbn; u64_lia) ltac:(cbn; u64_lia)
     ltac:(cbn; u64_lia) ltac:(cbn; u64_lia) ltac:(cbn; lia)).
  apply H. cbn. reflexivity.
Defined.

(** A padded block always has the storage block size and holds the used
    prefix of the payload followed by zeroes. *)
Theorem pad_block_bytes_spec (payload : bytes) (used_len block_size : Z) :
  0 <= used_len ->
  zlen (pad_block_bytes payload used_len block_size) = Z.max block_size 1 /\
  forall i, byte_at (pad_block_bytes payload used_len block_size) i =
    if decide (i < Z.min used_len (Z.max block_size 1)) then byte_at payload i else 0.
Proof.
  intros Hu. unfold pad_block_bytes. pose proof (zlen_nonneg payload).
  set (bs := Z.max block_size 1). set (cl := Z.min (zlen payload) (Z.min used_len bs)).
  assert (Hcl : zlen (take (Z.to_nat cl) payload) = cl) by (rewrite zlen_take; lia).
  assert (Hb : forall i, i < bs -> byte_at (take (Z.to_nat cl) payload) i =
    if decide (i < Z.min used_len bs) then byte_at payload i else 0).
  { intros i Hi. rewrite byte_at_take. repeat case_decide; try lia.
    rewrite byte_at_ge by lia. done. }
  rewrite Hcl. destruct (Z.ltb_spec cl bs).
  - split; [rewrite zlen_vec_resize; lia|]. intros i. rewrite byte_at_vec_resize.
    case_decide; [by apply Hb|]. case_decide; [lia|done].
  - split; [lia|]. intros i. destruct (Z.lt_ge_cases i bs); [by apply Hb|].
    rewrite byte_at_ge by lia. case_decide; [lia|done].
Qed.

Lemma pad_block_bytes_spec_witness :
  pad_block_bytes [97; 98; 99] 2 5 = [97; 98; 0; 0; 0] /\
  zlen (pad_block_bytes [97; 98; 99] 2 5) = 5.
Proof. split; [vm_compute; reflexivity|]. apply (pad_block_bytes_spec [97; 98; 99] 2 5). lia. Defined.
