(* ===== verification/CopyPlan.v ===== *)
(** * Copy planning

    Model of src/rust_fuse/src/copy_plan.rs, used by copy_file_range: the block
    bounds of a copy, the whole-object adoption test, and the suppression of
    unchanged destination blocks. *)

From stdpp Require Import prelude list numbers gmap sorting.
From Stdlib Require Import ZArith Lia.
From S2P Require Import Prelude.

#[local] Open Scope Z_scope.

Record CopyRangeBounds : Set := {
  crb_src_offset : Z;
  crb_dst_offset : Z;
  crb_copy_len : Z;
  crb_src_end_offset : Z;
  crb_dst_end_offset : Z;
  crb_src_first_block : Z;
  crb_src_last_block : Z;
  crb_dst_first_block : Z;
  crb_dst_last_block : Z
}.

Definition can_adopt_whole_object (self : CopyRangeBounds) (src_size dst_size : Z)
    (src_dirty dst_dirty : bool) : bool :=
  (crb_src_offset self =? 0) && (crb_dst_offset self =? 0) && (crb_copy_len self =? src_size)
  && (dst_size =? 0) && negb src_dirty && negb dst_dirty.

Definition copy_range_bounds (block_size src_offset dst_offset len src_size : Z)
    : option CopyRangeBounds :=
  if src_size <=? src_offset then None
  else
    let copy_len := Z.min len (src_size - src_offset) in
    if copy_len =? 0 then None
    else
      let block_size := Z.max block_size 1 in
      let src_end_offset := sat_add src_offset copy_len in
      let dst_end_offset := sat_add dst_offset copy_len in
      Some {| crb_src_offset := src_offset;
              crb_dst_offset := dst_offset;
              crb_copy_len := copy_len;
              crb_src_end_offset := src_end_offset;
              crb_dst_end_offset := dst_end_offset;
              crb_src_first_block := src_offset / block_size;
              crb_src_last_block := sat_sub src_end_offset 1 / block_size;
              crb_dst_first_block := dst_offset / block_size;
              crb_dst_last_block := sat_sub dst_end_offset 1 / block_size |}.

(** The computation of [same]: the chunk equals the destination bytes, which
    read as zeroes past the end of [current]. *)
Definition chunk_same (payload current : bytes) (rel chunk_len : Z) (chunk : bytes)
    : outcome unit bool :=
  if rel + chunk_len <=? zlen current then
    current_chunk ← slice current rel (rel + chunk_len);
    Ok (bool_decide (current_chunk = chunk))
  else
    padded ←
      (if rel <? zlen current then
         let available := zlen current - rel in
         tail ← slice current rel (zlen current);
         copy_from_slice (zeros chunk_len) 0 available tail
       else Ok (zeros chunk_len));
    Ok (bool_decide (padded = chunk)).

(** The [while rel < payload.len()] loop; [Err tt] is "out of fuel". *)
Fixpoint skip_unchanged_loop (fuel : nat) (dst_offset block_size : Z) (payload current : bytes)
    (run_start : option Z) (run_payload : bytes) (rel : Z) : outcome unit (list (Z * bytes)) :=
  if rel <? zlen payload then
    match fuel with
    | O => Err tt
    | S fuel =>
        let chunk_len := Z.min (zlen payload - rel) block_size in
        chunk ← slice payload rel (rel + chunk_len);
        same ← chunk_same payload current rel chunk_len chunk;
        if same : bool then
          match run_start with
          | Some start =>
              runs ← skip_unchanged_loop fuel dst_offset block_size payload current
                       None [] (rel + chunk_len);
              Ok ((wrap_add dst_offset start, run_payload) :: runs)
          | None =>
              skip_unchanged_loop fuel dst_offset block_size payload current
                None run_payload (rel + chunk_len)
          end
        else
          let run_start := match run_start with None => Some rel | s => s end in
          skip_unchanged_loop fuel dst_offset block_size payload current
            run_start (run_payload ++ chunk) (rel + chunk_len)
    end
  else
    Ok (match run_start with
        | Some start => [(wrap_add dst_offset start, run_payload)]
        | None => []
        end).

Definition pack_copy_skip_unchanged_runs (dst_offset block_size : Z) (payload current : bytes)
    : outcome unit (list (Z * bytes)) :=
  skip_unchanged_loop (length payload) dst_offset (Z.max block_size 1) payload current None [] 0.

Example skip_unchanged_test :
  pack_copy_skip_unchanged_runs 100 4
    [65;65;65;65; 49;49;49;49; 66;66;66;66; 50;50;50;50]
    [65;65;65;65; 48;48;48;48; 66;66;66;66]
  = Ok [(104, [49;49;49;49]); (112, [50;50;50;50])].
Proof. vm_compute. reflexivity. Qed.

Example skip_unchanged_zero_tail :
  pack_copy_skip_unchanged_runs 24 4 [65;66;67;68;0;0] [65;66;67;68] = Ok [].
Proof. vm_compute. reflexivity. Qed.

(** ** Copy bounds *)

(** the bounds of a copy. There are none exactly when the source offset is
    at or past the end of the source or nothing is to be copied; otherwise the
    source range lies inside the source file and both block intervals are the
    exact intervals of the blocks touched, and the whole-object adoption test
    accepts only a copy of the complete, clean source over an empty, clean
    destination. *)
Theorem copy_range_bounds_exact (block_size src_offset dst_offset len src_size : Z) :
  is_u64 src_offset -> is_u64 dst_offset -> is_u64 len -> is_u64 src_size ->
  let bs := Z.max block_size 1 in
  match copy_range_bounds block_size src_offset dst_offset len src_size with
  | None => src_size <= src_offset \/ len = 0
  | Some b =>
      0 < crb_copy_len b <= len /\
      crb_src_end_offset b = src_offset + crb_copy_len b /\ crb_src_end_offset b <= src_size /\
      (forall k, crb_src_first_block b <= k <= crb_src_last_block b <->
         exists p, src_offset <= p < crb_src_end_offset b /\ p / bs = k) /\
      (dst_offset + crb_copy_len b <= U64_MAX ->
       forall k, crb_dst_first_block b <= k <= crb_dst_last_block b <->
         exists p, dst_offset <= p < dst_offset + crb_copy_len b /\ p / bs = k) /\
      (forall dst_size src_dirty dst_dirty,
         can_adopt_whole_object b src_size dst_size src_dirty dst_dirty = true ->
         src_offset = 0 /\ dst_offset = 0 /\ crb_copy_len b = src_size /\ dst_size = 0 /\
         src_dirty = false /\ dst_dirty = false)
  end.
Proof.
  intros Hs Hd Hl Hsz bs. unfold copy_range_bounds.
  destruct (Z.leb_spec src_size src_offset); [by left|].
  destruct (Z.eqb_spec (Z.min len (src_size - src_offset)) 0) as [|Hnz]; [right; u64_lia|].
  cbn. fold bs. assert (Hbs : 1 <= bs) by lia.
  set (cl := Z.min len (src_size - src_offset)) in *.
  assert (Hcl : 0 < cl /\ cl <= len /\ src_offset + cl <= src_size) by (unfold cl; u64_lia).
  assert (Hblocks : forall a m k, 0 < m ->
    a / bs <= k <= (a + m - 1) / bs <-> exists p, a <= p < a + m /\ p / bs = k).
  { intros a m k Hn. split.
    - intros Hk. exists (Z.max a (k * bs)).
      pose proof (div_block_bounds bs a ltac:(lia)).
      pose proof (div_block_bounds bs (a + m - 1) ltac:(lia)).
      assert (k * bs <= (a + m - 1) / bs * bs) by nia.
      assert (a < (k + 1) * bs) by nia.
      split; [lia|]. symmetry. apply Z.div_unique with (Z.max a (k * bs) - k * bs); lia.
    - intros (p & Hp & <-). split; apply Z.div_le_mono; lia. }
  replace (sat_add src_offset cl) with (src_offset + cl) by u64_lia.
  replace (sat_sub (src_offset + cl) 1) with (src_offset + cl - 1) by u64_lia.
  split_and!; try lia.
  - intros k. apply Hblocks. lia.
  - intros Hmax k. replace (sat_add dst_offset cl) with (dst_offset + cl) by u64_lia.
    replace (sat_sub (dst_offset + cl) 1) with (dst_offset + cl - 1) by u64_lia.
    apply Hblocks. lia.
  - intros ds sd dd. unfold can_adopt_whole_object. cbn.
    rewrite !andb_true_iff, !negb_true_iff, !Z.eqb_eq. intuition.
Qed.

Lemma copy_range_bounds_exact_witness :
  exists b, copy_range_bounds 8 120 24 32 128 = Some b /\ crb_src_end_offset b <= 128.
Proof.
  assert (H := copy_range_bounds_exact 8 120 24 32 128 ltac:(u64_lia) ltac:(u64_lia)
    ltac:(u64_lia) ltac:(u64_lia)).
  eexists. split; [vm_compute; reflexivity|]. apply H.
Defined.

(** ** Unchanged-block suppression *)

Definition same_at (payload current : bytes) (i : Z) : Prop := byte_at payload i = byte_at current i.

Lemma chunk_same_spec payload current rel cl :
  0 <= rel -> 0 < cl -> rel + cl <= zlen payload ->
  exists b, chunk_same payload current rel cl
              (take (Z.to_nat cl) (drop (Z.to_nat rel) payload)) = Ok b /\
    (b = true <-> forall i, rel <= i < rel + cl -> same_at payload current i).
Proof.
  intros Hr Hc Hp. unfold chunk_same, same_at. pose proof (zlen_nonneg current).
  set (chunk := take _ _).
  assert (Hlen : zlen chunk = cl) by (unfold chunk; rewrite zlen_take, zlen_drop by lia; lia).
  assert (Hat : forall j, 0 <= j < cl -> byte_at chunk j = byte_at payload (rel + j)).
  { intros j Hj. unfold chunk. rewrite byte_at_take, byte_at_drop by lia.
    repeat case_decide; try lia; done. }
  assert (Hfin : forall other, zlen other = cl ->
    (forall j, 0 <= j < cl -> byte_at other j = byte_at current (rel + j)) ->
    bool_decide (other = chunk) = true <->
    forall i, rel <= i < rel + cl -> byte_at payload i = byte_at current i).
  { intros other Ho Hoat. rewrite bool_decide_eq_true. split.
    - intros -> i Hi. specialize (Hat (i - rel) ltac:(lia)). specialize (Hoat (i - rel) ltac:(lia)).
      replace (rel + (i - rel)) with i in * by lia. congruence.
    - intros Heq. apply bytes_ext; [lia|]. intros j Hj. rewrite Hat, Hoat by lia.
      symmetry. apply Heq. lia. }
  destruct (Z.leb_spec (rel + cl) (zlen current)).
  - rewrite slice_Ok by lia. cbn. eexists. split; [reflexivity|]. apply Hfin.
    + rewrite zlen_take, zlen_drop by lia. lia.
    + intros j Hj. rewrite byte_at_take, byte_at_drop by lia. repeat case_decide; try lia; done.
  - destruct (Z.ltb_spec rel (zlen current)).
    + rewrite slice_Ok by lia. cbn [mbind outcome_bind].
      set (tail := take _ _).
      assert (Htl : zlen tail = zlen current - rel)
        by (unfold tail; rewrite zlen_take, zlen_drop by lia; lia).
      rewrite copy_from_slice_Ok by (rewrite ?zlen_zeros; lia). cbn.
      eexists. split; [reflexivity|]. apply Hfin.
      * rewrite zlen_splice; rewrite ?zlen_zeros; lia.
      * intros j Hj. rewrite byte_at_splice by (rewrite ?zlen_zeros; lia).
        case_decide.
        -- unfold tail. rewrite byte_at_take, byte_at_drop by lia.
           repeat case_decide; try lia. f_equal. lia.
        -- rewrite byte_at_zeros, byte_at_ge by lia. done.
    + cbn. eexists. split; [reflexivity|]. apply Hfin.
      * rewrite zlen_zeros. lia.
      * intros j Hj. rewrite byte_at_zeros, byte_at_ge by lia. done.
Qed.

(** The payload-relative byte range of a run. *)
Definition run_range (dst_offset : Z) (run : Z * bytes) : Z * Z :=
  (run.1 - dst_offset, run.1 - dst_offset + zlen run.2 - 1).

(** A block is changed when some payload byte of it differs. *)
Definition block_changed (bs : Z) (payload current : bytes) (k : Z) : Prop :=
  exists i, 0 <= i < zlen payload /\ i / bs = k /\ ~ same_at payload current i.

Definition run_content (dst_offset : Z) (payload : bytes) (run : Z * bytes) : Prop :=
  forall j, 0 <= j < zlen run.2 -> byte_at run.2 j = byte_at payload (run.1 - dst_offset + j).

Section Skip.
Context (dst bs : Z) (payload current : bytes).
Context (Hbs : 1 <= bs) (Hdst : 0 <= dst) (Hmax : dst + zlen payload <= U64_MAX).

(** What holds at the head of the loop: the open run, if any, is the block
    aligned stretch from its start to [rel], and all of its blocks changed. *)
Definition open_run (run_start : option Z) (run_payload : bytes) (rel : Z) : Prop :=
  match run_start with
  | None => run_payload = []
  | Some s =>
      0 <= s < rel /\ zlen run_payload = rel - s /\
      (forall j, 0 <= j < rel - s -> byte_at run_payload j = byte_at payload (s + j))
  end.

(** What the loop returns from there. *)
Definition skip_post (run_start : option Z) (rel : Z) (runs : list (Z * bytes)) : Prop :=
  Forall (run_content dst payload) runs /\
  ranges_sep (default rel run_start) (map (run_range dst) runs) /\
  forall x, in_ranges x (map (run_range dst) runs) <->
    (exists s, run_start = Some s /\ s <= x < rel) \/
    (rel <= x < zlen payload /\ block_changed bs payload current (x / bs)).

Lemma wrap_add_start s : 0 <= s <= zlen payload -> wrap_add dst s - dst = s.
Proof using Hdst Hmax. intros Hs. unfold wrap_add, wrap64. rewrite Z.mod_small; u64_lia. Qed.

Lemma open_run_closed s rp rel :
  rel <= zlen payload -> open_run (Some s) rp rel ->
  run_content dst payload (wrap_add dst s, rp) /\
  run_range dst (wrap_add dst s, rp) = (s, rel - 1) /\ 0 <= s < rel.
Proof using Hdst Hmax.
  intros Hrel (Hs & Hlen & Hbytes). unfold run_content, run_range. cbn [fst snd].
  rewrite wrap_add_start by lia. split_and!; [|f_equal; lia|lia..].
  intros j Hj. apply Hbytes. lia.
Qed.

Lemma skip_post_done rs rp :
  open_run rs rp (zlen payload) ->
  skip_post rs (zlen payload)
    (match rs with Some start => [(wrap_add dst start, rp)] | None => [] end).
Proof using Hdst Hmax.
  intros Hopen. destruct rs as [s|].
  - destruct (open_run_closed s rp (zlen payload)) as (Hc & Hr & Hs); [lia|done|].
    split_and!; [by constructor|cbn [map]; rewrite Hr; cbn; lia|].
    intros x. cbn [map]. rewrite Hr, in_ranges_cons. split.
    + intros [?|H']; [left; exists s; split; [done|lia]|by apply in_ranges_nil in H'].
    + intros [(s' & [= <-] & ?)|[? _]]; [left; lia|lia].
  - split_and!; [done..|]. intros x. split; [intros H'; by apply in_ranges_nil in H'|].
    intros [(s' & ? & _)|[? _]]; [done|lia].
Qed.

(** An unchanged chunk closes the open run. *)
Lemma skip_post_same rs rp rel cl runs :
  rel + cl <= zlen payload -> 0 < cl -> open_run rs rp rel ->
  (forall x, rel <= x < rel + cl -> ~ block_changed bs payload current (x / bs)) ->
  skip_post None (rel + cl) runs ->
  skip_post rs rel
    (match rs with Some start => (wrap_add dst start, rp) :: runs | None => runs end).
Proof using Hdst Hmax.
  intros Hrel Hcl Hopen Hno (Hall & Hsep & Hin).
  assert (Hin' : forall x, in_ranges x (map (run_range dst) runs) <->
    rel <= x < zlen payload /\ block_changed bs payload current (x / bs)).
  { intros x. rewrite Hin. split.
    - intros [(s & ? & _)|[? ?]]; [done|]. split; [lia|done].
    - intros [Hx Hc]. right. split; [|done].
      destruct (Z.lt_ge_cases x (rel + cl)); [exfalso; eapply Hno; [|exact Hc]; lia|lia]. }
  destruct rs as [s|].
  - destruct (open_run_closed s rp rel) as (Hc & Hr & Hs); [lia|done|].
    split_and!; [by constructor| |].
    + cbn [map]. rewrite Hr. cbn. split; [lia|].
      eapply ranges_sep_mono; [|exact Hsep]. cbn. lia.
    + intros x. cbn [map]. rewrite Hr, in_ranges_cons, Hin'. split.
      * intros [?|?]; [left; exists s; split; [done|lia]|by right].
      * intros [(s' & [= <-] & ?)|?]; [left; lia|by right].
  - split_and!; [done| |].
    + eapply ranges_sep_mono; [|exact Hsep]. cbn. lia.
    + intros x. rewrite Hin'. split; [by right|]. intros [(s & ? & _)|?]; done.
Qed.

(** A changed chunk extends the open run, or opens one. *)
Lemma open_run_extend rs rp rel cl :
  0 <= rel -> 0 < cl -> rel + cl <= zlen payload -> open_run rs rp rel ->
  open_run (Some (default rel rs)) (rp ++ take (Z.to_nat cl) (drop (Z.to_nat rel) payload))
    (rel + cl).
Proof.
  intros Hr Hc Hp Hopen. set (chunk := take _ _).
  assert (Hchunk : zlen chunk = cl)
    by (unfold chunk; rewrite zlen_take, zlen_drop by lia; lia).
  assert (Hat : forall j, 0 <= j < cl -> byte_at chunk j = byte_at payload (rel + j)).
  { intros j Hj. unfold chunk. rewrite byte_at_take, byte_at_drop by lia.
    repeat case_decide; try lia; done. }
  destruct rs as [s|]; cbn in Hopen |- *; rewrite zlen_app.
  - destruct Hopen as (Hs & Hlen & Hbytes). split_and!; [lia..|]. intros j Hj.
    rewrite byte_at_app. case_decide; [apply Hbytes; lia|]. rewrite Hat by lia. f_equal. lia.
  - subst rp. assert (zlen (@nil Z) = 0) by done. split_and!; [lia..|].
    intros j Hj. cbn [app]. apply Hat. lia.
Qed.

Lemma skip_post_diff rs rel cl runs :
  rel + cl <= zlen payload -> 0 < cl -> (forall s, rs = Some s -> s < rel) ->
  (forall x, rel <= x < rel + cl -> block_changed bs payload current (x / bs)) ->
  skip_post (Some (default rel rs)) (rel + cl) runs -> skip_post rs rel runs.
Proof.
  intros Hrel Hcl Hs Hyes (Hall & Hsep & Hin). split_and!; [done|by destruct rs|].
  intros x. rewrite Hin. split.
  - intros [(s' & [= <-] & Hx)|[Hx Hc]]; [|right; split; [lia|done]].
    destruct (Z.lt_ge_cases x rel); [|right; split; [lia|]; apply Hyes; lia].
    destruct rs as [s|]; cbn in Hx; [left; exists s; split; [done|lia]|lia].
  - intros [(s' & -> & Hx)|[Hx Hc]]; [left; exists s'; split; [done|cbn; lia]|].
    destruct (Z.lt_ge_cases x (rel + cl)); [|right; split; [lia|done]].
    left. eexists. split; [done|]. destruct rs as [s|]; cbn; [|lia].
    specialize (Hs s eq_refl). lia.
Qed.

(** The chunk at a block boundary is one block, cut at the end of the payload. *)
Lemma chunk_is_block rel x :
  rel mod bs = 0 -> rel < zlen payload -> 0 <= x < zlen payload ->
  x / bs = rel / bs <-> rel <= x < rel + Z.min (zlen payload - rel) bs.
Proof using Hbs.
  intros Hm Hlt Hx. pose proof (Z.div_mod rel bs ltac:(lia)).
  pose proof (div_block_bounds bs x ltac:(lia)). split.
  - intros Heq. rewrite Heq in *. lia.
  - intros ?. symmetry. apply Z.div_unique with (x - rel); lia.
Qed.

Lemma chunk_changed_iff rel b x (cl := Z.min (zlen payload - rel) bs) :
  0 <= rel -> rel mod bs = 0 -> rel < zlen payload ->
  (b = true <-> forall i, rel <= i < rel + cl -> same_at payload current i) ->
  rel <= x < rel + cl ->
  if b then ~ block_changed bs payload current (x / bs)
  else block_changed bs payload current (x / bs).
Proof using Hbs.
  intros Hr Hm Hlt Hiff Hx.
  assert (Hxb : x / bs = rel / bs) by (apply chunk_is_block; [done|done|lia|exact Hx]).
  rewrite Hxb. destruct b.
  - intros (i & Hi & Hk & Hne). apply Hne. apply Hiff; [done|].
    by apply chunk_is_block.
  - destruct (decide (Exists (fun i => byte_at payload i <> byte_at current i)
      (range_incl rel (rel + cl - 1)))) as [He|Hne].
    + apply Exists_exists in He as (i & Hi%elem_of_range_incl & Hd). exists i.
      split_and!; [lia..| |done]. apply chunk_is_block; unfold cl in *; [done|done|lia|lia].
    + exfalso. assert (false = true); [|done]. apply Hiff. intros i Hi.
      destruct (decide (byte_at payload i = byte_at current i)); [done|].
      exfalso. apply Hne, Exists_exists. exists i. rewrite elem_of_range_incl. split; [lia|done].
Qed.

Lemma skip_unchanged_loop_spec fuel : forall run_start run_payload rel,
  0 <= rel <= zlen payload -> (rel = zlen payload \/ rel mod bs = 0) ->
  zlen payload - rel <= Z.of_nat fuel ->
  open_run run_start run_payload rel ->
  exists runs,
    skip_unchanged_loop fuel dst bs payload current run_start run_payload rel = Ok runs /\
    skip_post run_start rel runs.
Proof using Hbs Hdst Hmax.
  induction fuel as [|fuel IH]; intros rs rp rel Hrel Hmod Hfuel Hopen; cbn [skip_unchanged_loop].
  all: destruct (Z.ltb_spec rel (zlen payload)) as [Hlt|]; try lia.
  1, 3: replace rel with (zlen payload) in * by lia; eexists; split;
    [reflexivity|by apply skip_post_done].
  assert (Hm0 : rel mod bs = 0) by (destruct Hmod; [lia|done]).
  pose proof (fun b x => chunk_changed_iff rel b x ltac:(lia) Hm0 Hlt) as Hchg.
  set (cl := Z.min (zlen payload - rel) bs) in *. cbn zeta in Hchg.
  assert (Hcl : 0 < cl /\ rel + cl <= zlen payload) by (unfold cl; lia).
  rewrite slice_Ok by lia. cbn [mbind outcome_bind].
  replace (rel + cl - rel) with cl by lia.
  destruct (chunk_same_spec payload current rel cl) as (same & -> & Hiff); [lia..|].
  cbn [mbind outcome_bind].
  assert (Hmod' : rel + cl = zlen payload \/ (rel + cl) mod bs = 0).
  { unfold cl. destruct (Z.le_gt_cases (zlen payload - rel) bs); [left; lia|right].
    rewrite Z.min_r, <- Zplus_mod_idemp_l, Hm0 by lia. apply Z.mod_same. lia. }
  specialize (fun x => Hchg same x Hiff). destruct same.
  - destruct (IH None [] (rel + cl)) as (runs & Hok & Hpost); [lia|done|lia|done|].
    eexists. split; [|by eapply (skip_post_same rs rp rel cl runs); [lia|lia|..]].
    destruct rs; [by rewrite Hok|]. cbn in Hopen. by subst rp.
  - destruct (IH (Some (default rel rs)) (rp ++ take (Z.to_nat cl) (drop (Z.to_nat rel) payload))
      (rel + cl)) as (runs & Hok & Hpost); [lia|done|lia|apply open_run_extend; [lia..|done]|].
    exists runs. split; [by destruct rs|]. eapply skip_post_diff; [..|exact Hpost]; [lia|lia| |done].
    intros s ->. destruct Hopen. lia.
Qed.
End Skip.

(** suppressing unchanged blocks is lossless and tight. The routine
    terminates without indexing out of bounds; every run carries the payload
    bytes of its range; a payload byte is in a run exactly when its block
    differs from the destination (read as zeroes past its end), so writing the
    runs over the destination gives the payload; and the runs are the maximal
    block runs, in ascending order. *)
Theorem skip_unchanged_runs_exact (dst_offset block_size : Z) (payload current : bytes) :
  0 <= dst_offset -> dst_offset + zlen payload <= U64_MAX ->
  exists runs,
    pack_copy_skip_unchanged_runs dst_offset block_size payload current = Ok runs /\
    Forall (run_content dst_offset payload) runs /\
    ranges_sep 0 (map (run_range dst_offset) runs) /\
    (forall x, in_ranges x (map (run_range dst_offset) runs) <->
      0 <= x < zlen payload /\
      block_changed (Z.max block_size 1) payload current (x / Z.max block_size 1)) /\
    (forall x, 0 <= x < zlen payload -> ~ in_ranges x (map (run_range dst_offset) runs) ->
      byte_at payload x = byte_at current x).
Proof.
  intros Hdst Hmax. unfold pack_copy_skip_unchanged_runs.
  destruct (skip_unchanged_loop_spec dst_offset (Z.max block_size 1) payload current
    ltac:(lia) Hdst Hmax (length payload) None [] 0) as (runs & Hok & Hall & Hsep & Hin).
  - pose proof (zlen_nonneg payload). lia.
  - right. apply Z.mod_0_l. lia.
  - unfold zlen. lia.
  - done.
  - assert (Hin' : forall x, in_ranges x (map (run_range dst_offset) runs) <->
      0 <= x < zlen payload /\
      block_changed (Z.max block_size 1) payload current (x / Z.max block_size 1)).
    { intros x. rewrite Hin. split; [intros [(s & ? & _)|?]; [done|done]|by right]. }
    exists runs. split_and!; [done..|]. intros x Hx Hout.
    destruct (decide (byte_at payload x = byte_at current x)) as [|Hne]; [done|].
    exfalso. apply Hout, Hin'. split; [done|]. exists x. done.
Qed.

Lemma skip_unchanged_runs_exact_witness :
  exists runs, pack_copy_skip_unchanged_runs 100 4 [1;2;3;4;5;6] [1;2;3;4;5] = Ok runs /\
    ranges_sep 0 (map (run_range 100) runs).
Proof.
  destruct (skip_unchanged_runs_exact 100 4 [1;2;3;4;5;6] [1;2;3;4;5])
    as (runs & H & _ & Hs & _); [lia|vm_compute; discriminate|]. exists runs. split; [exact H|exact Hs].
Defined.
