(* ===== verification/Crc32.v ===== *)
(** * CRC-32 of data blocks

    Model of [crc32_table] and [crc32_bytes] of src/rust_hotpath/src/lib.rs, the
    checksum stored per full block in the copy_block_crc table. A [u32] is a [Z]
    in [0, 2^32); the table-driven routine is proved equal to the bit-by-bit
    definition, and the checksum to detect every change confined to one byte. *)

From stdpp Require Import prelude list numbers.
From Stdlib Require Import ZArith Lia.
From S2P Require Import Prelude.

#[local] Open Scope Z_scope.

(** ** Definitions *)

Definition U32_MAX : Z := 4294967295.

Definition poly : Z := 0xEDB88320.

(** One turn of the [while bit < 8] loop. *)
Definition crc_bit (crc : Z) : Z :=
  if negb (Z.land crc 1 =? 0) then Z.lxor (Z.shiftr crc 1) poly else Z.shiftr crc 1.

Definition crc32_table : list Z := map (fun i => Nat.iter 8 crc_bit i) (seqZ 0 256).

Definition crc32_step (crc byte : Z) : Z :=
  let idx := Z.land (Z.lxor crc byte) 0xFF in
  Z.lxor (Z.shiftr crc 8) (crc32_table !!! Z.to_nat idx).

(** [!crc] on a [u32]. *)
Definition not32 (crc : Z) : Z := Z.lxor crc U32_MAX.

Definition crc32_bytes (data : bytes) : Z := not32 (foldl crc32_step U32_MAX data).

(** The bit-serial definition of the checksum. *)
Definition crc32_bitwise (data : bytes) : Z :=
  not32 (foldl (fun crc byte => Nat.iter 8 crc_bit (Z.lxor crc byte)) U32_MAX data).

Example crc32_check_value : crc32_bytes [49;50;51;52;53;54;55;56;57] = 0xCBF43926.
Proof. vm_compute. reflexivity. Qed.

(** ** The bit step *)

Definition is_byte (b : Z) : Prop := 0 <= b < 2 ^ 8.
Definition is_u32 (x : Z) : Prop := 0 <= x < 2 ^ 32.

Lemma land_1_odd x : negb (Z.land x 1 =? 0) = Z.odd x.
Proof.
  change 1 with (Z.ones 1).
  rewrite Z.land_ones by lia. change (2 ^ 1) with 2. rewrite Zmod_odd. by destruct (Z.odd x).
Qed.

Lemma crc_bit_odd x :
  crc_bit x = Z.lxor (Z.shiftr x 1) (if Z.odd x then poly else 0).
Proof. unfold crc_bit. rewrite land_1_odd. destruct (Z.odd x); [done|]. by rewrite Z.lxor_0_r. Qed.

Lemma crc_bit_lxor x y : crc_bit (Z.lxor x y) = Z.lxor (crc_bit x) (crc_bit y).
Proof.
  rewrite !crc_bit_odd, Z.shiftr_lxor.
  assert (Z.odd (Z.lxor x y) = xorb (Z.odd x) (Z.odd y)) as ->
    by (rewrite <- !Z.bit0_odd; apply Z.lxor_spec).
  apply Z.bits_inj'. intros n Hn. rewrite !Z.lxor_spec.
  destruct (Z.odd x), (Z.odd y); cbn [xorb]; rewrite ?Z.testbit_0_l;
    destruct (Z.testbit (Z.shiftr x 1) n), (Z.testbit (Z.shiftr y 1) n), (Z.testbit poly n); done.
Qed.

Lemma iter_crc_bit_lxor n x y :
  Nat.iter n crc_bit (Z.lxor x y) = Z.lxor (Nat.iter n crc_bit x) (Nat.iter n crc_bit y).
Proof. induction n as [|n IH]; [done|]. by rewrite !Nat.iter_succ, IH, crc_bit_lxor. Qed.

(** Zero low bits are shifted out without feeding back. *)
Lemma iter_crc_bit_shiftl n y :
  Nat.iter n crc_bit (Z.shiftl y (Z.of_nat n)) = y.
Proof.
  revert y. induction n as [|n IH]; intros y; [apply Z.shiftl_0_r|].
  rewrite Nat.iter_succ_r, crc_bit_odd.
  assert (Z.odd (Z.shiftl y (Z.of_nat (S n))) = false) as ->.
  { rewrite <- Z.bit0_odd. apply Z.shiftl_spec_low. lia. }
  rewrite Z.lxor_0_r. rewrite Z.shiftr_shiftl_l by lia.
  by replace (Z.of_nat (S n) - 1) with (Z.of_nat n) by lia.
Qed.

Lemma lxor_split_low x n : 0 <= n ->
  x = Z.lxor (Z.shiftl (Z.shiftr x n) n) (Z.land x (Z.ones n)).
Proof.
  intros Hn. apply Z.bits_inj'. intros i Hi.
  rewrite Z.lxor_spec, Z.land_spec, Z.testbit_ones by lia.
  destruct (Z.lt_ge_cases i n).
  - rewrite Z.shiftl_spec_low by lia. rewrite xorb_false_l.
    destruct (Z.leb_spec 0 i), (Z.ltb_spec i n); try lia. by rewrite andb_true_r.
  - rewrite Z.shiftl_spec, Z.shiftr_spec by lia. replace (i - n + n) with i by lia.
    destruct (Z.leb_spec 0 i), (Z.ltb_spec i n); try lia. by rewrite andb_false_r, xorb_false_r.
Qed.

Lemma crc32_table_lookup i : 0 <= i < 256 ->
  crc32_table !!! Z.to_nat i = Nat.iter 8 crc_bit i.
Proof.
  intros Hi. apply list_lookup_total_correct. unfold crc32_table.
  rewrite list_lookup_fmap_Some. exists i. rewrite lookup_seqZ. split; (done || lia).
Qed.

Lemma crc32_step_bitwise crc byte : is_byte byte ->
  crc32_step crc byte = Nat.iter 8 crc_bit (Z.lxor crc byte).
Proof.
  intros Hb. unfold crc32_step. change 0xFF with (Z.ones 8).
  rewrite crc32_table_lookup.
  2: { rewrite Z.land_ones by lia. apply Z.mod_pos_bound. lia. }
  rewrite (lxor_split_low (Z.lxor crc byte) 8) at 2 by lia.
  rewrite iter_crc_bit_lxor. change 8 with (Z.of_nat 8) at 5. rewrite iter_crc_bit_shiftl.
  f_equal. rewrite Z.shiftr_lxor.
  assert (Z.shiftr byte 8 = 0) as ->; [|by rewrite Z.lxor_0_r].
  rewrite Z.shiftr_div_pow2 by lia. apply Z.div_small. exact Hb.
Qed.

(** ** Range and injectivity *)

Lemma u32_shiftr x n : 0 <= n -> is_u32 x -> is_u32 (Z.shiftr x n).
Proof.
  intros Hn Hx. unfold is_u32 in *. rewrite Z.shiftr_div_pow2 by lia.
  assert (0 < 2 ^ n) by (apply Z.pow_pos_nonneg; lia).
  split; [apply Z.div_pos; lia|]. apply Z.div_lt_upper_bound; nia.
Qed.

Lemma u32_lxor x y : is_u32 x -> is_u32 y -> is_u32 (Z.lxor x y).
Proof.
  unfold is_u32. intros Hx Hy. split; [apply Z.lxor_nonneg; lia|].
  destruct (Z.eq_dec (Z.lxor x y) 0) as [->|Hne]; [lia|].
  assert (0 <= Z.lxor x y) by (apply Z.lxor_nonneg; lia).
  apply Z.log2_lt_pow2; [lia|].
  pose proof (Z.log2_lxor x y ltac:(lia) ltac:(lia)).
  assert (forall z, 0 <= z < 2 ^ 32 -> Z.log2 z < 32).
  { intros z Hz. destruct (Z.eq_dec z 0) as [->|]; [done|]. apply Z.log2_lt_pow2; lia. }
  pose proof (H1 x Hx). pose proof (H1 y Hy). lia.
Qed.

Lemma u32_crc_bit x : is_u32 x -> is_u32 (crc_bit x).
Proof.
  intros Hx. rewrite crc_bit_odd. apply u32_lxor; [by apply u32_shiftr|].
  destruct (Z.odd x); unfold is_u32, poly; lia.
Qed.

Lemma u32_iter_crc_bit n x : is_u32 x -> is_u32 (Nat.iter n crc_bit x).
Proof. intros Hx. induction n as [|n IH]; [done|]. rewrite Nat.iter_succ. by apply u32_crc_bit. Qed.

(** The polynomial has its top bit set, so the shifted-out bit is recoverable. *)
Lemma crc_bit_top x : is_u32 x -> Z.testbit (crc_bit x) 31 = Z.odd x.
Proof.
  intros Hx. rewrite crc_bit_odd, Z.lxor_spec, Z.shiftr_spec by lia.
  change (31 + 1) with 32.
  assert (Z.testbit x 32 = false) as ->.
  { destruct (Z.eq_dec x 0) as [->|]; [done|]. unfold is_u32 in Hx.
    apply Z.bits_above_log2; [lia|]. apply Z.log2_lt_pow2; lia. }
  by destruct (Z.odd x).
Qed.

Lemma crc_bit_inj x y : is_u32 x -> is_u32 y -> crc_bit x = crc_bit y -> x = y.
Proof.
  intros Hx Hy Heq.
  assert (Hodd : Z.odd x = Z.odd y) by (rewrite <- !crc_bit_top by done; by rewrite Heq).
  rewrite !crc_bit_odd, Hodd in Heq.
  assert (Hs : Z.shiftr x 1 = Z.shiftr y 1).
  { set (p := if Z.odd y then poly else 0) in Heq.
    rewrite <- (Z.lxor_0_r (Z.shiftr x 1)), <- (Z.lxor_nilpotent p), <- Z.lxor_assoc, Heq,
      Z.lxor_assoc, Z.lxor_nilpotent. apply Z.lxor_0_r. }
  rewrite <- !Z.div2_spec in Hs. rewrite (Z.div2_odd x), (Z.div2_odd y), Hs, Hodd. done.
Qed.

Lemma iter_crc_bit_inj n x y :
  is_u32 x -> is_u32 y -> Nat.iter n crc_bit x = Nat.iter n crc_bit y -> x = y.
Proof.
  intros Hx Hy. induction n as [|n IH]; [done|]. rewrite !Nat.iter_succ. intros Heq.
  apply IH. apply crc_bit_inj; [by apply u32_iter_crc_bit..|done].
Qed.

Lemma lxor_inj_l x y z : Z.lxor x z = Z.lxor y z -> x = y.
Proof.
  intros Heq. rewrite <- (Z.lxor_0_r x), <- (Z.lxor_nilpotent z), <- Z.lxor_assoc, Heq,
    Z.lxor_assoc, Z.lxor_nilpotent. apply Z.lxor_0_r.
Qed.

Lemma byte_u32 b : is_byte b -> is_u32 b.
Proof. unfold is_byte, is_u32. lia. Qed.

Lemma u32_crc_fold data crc :
  Forall is_byte data -> is_u32 crc -> is_u32 (foldl crc32_step crc data).
Proof.
  intros Hd. revert crc. induction Hd as [|b data Hb Hd IH]; intros crc Hc; [done|].
  cbn. apply IH. rewrite crc32_step_bitwise by done.
  apply u32_iter_crc_bit, u32_lxor; [done|by apply byte_u32].
Qed.

Lemma crc_fold_inj data x y :
  Forall is_byte data -> is_u32 x -> is_u32 y ->
  foldl crc32_step x data = foldl crc32_step y data -> x = y.
Proof.
  intros Hd. revert x y. induction Hd as [|b data Hb Hd IH]; intros x y Hx Hy Heq; [done|].
  cbn in Heq. rewrite !crc32_step_bitwise in Heq by done. pose proof (byte_u32 b Hb).
  apply (lxor_inj_l x y b), (iter_crc_bit_inj 8); [by apply u32_lxor..|].
  apply IH; [by apply u32_iter_crc_bit, u32_lxor..|done].
Qed.

(** ** Properties *)

(** the table-driven checksum equals the bit-by-bit CRC-32 on every byte
    string, and its value is a 32-bit integer. *)
Theorem crc32_table_driven_correct (data : bytes) :
  Forall is_byte data -> crc32_bytes data = crc32_bitwise data /\ 0 <= crc32_bytes data < 2 ^ 32.
Proof.
  intros Hd. split.
  - unfold crc32_bytes, crc32_bitwise. f_equal. generalize U32_MAX.
    induction Hd as [|b data Hb Hd IH]; intros crc; [done|]. cbn [foldl].
    by rewrite IH, crc32_step_bitwise.
  - apply u32_lxor; [apply u32_crc_fold; [done|]|]; unfold is_u32, U32_MAX; lia.
Qed.

Lemma crc32_table_driven_correct_witness :
  Forall is_byte [1; 255] /\ crc32_bytes [1; 255] = crc32_bitwise [1; 255].
Proof.
  assert (H : Forall is_byte [1; 255]) by (repeat constructor; unfold is_byte; lia).
  split; [exact H|apply (crc32_table_driven_correct [1; 255] H)].
Defined.

(** the checksum detects every change confined to one byte: two byte strings
    that differ in exactly one position have different checksums. *)
Theorem crc32_detects_byte_change (pre post : bytes) (a b : Z) :
  Forall is_byte pre -> Forall is_byte post -> is_byte a -> is_byte b -> a <> b ->
  crc32_bytes (pre ++ a :: post) <> crc32_bytes (pre ++ b :: post).
Proof.
  intros Hpre Hpost Ha Hb Hne Heq. apply Hne. unfold crc32_bytes, not32 in Heq.
  apply lxor_inj_l in Heq. rewrite !foldl_app in Heq. cbn in Heq.
  assert (H0 : is_u32 U32_MAX) by (unfold is_u32, U32_MAX; lia).
  pose proof (u32_crc_fold pre U32_MAX Hpre H0) as Hs.
  set (s := foldl crc32_step U32_MAX pre) in *.
  rewrite !crc32_step_bitwise in Heq by done. pose proof (byte_u32 a Ha). pose proof (byte_u32 b Hb).
  apply crc_fold_inj in Heq; [|done|by apply u32_iter_crc_bit, u32_lxor..].
  apply iter_crc_bit_inj in Heq; [|by apply u32_lxor..].
  rewrite (Z.lxor_comm s a), (Z.lxor_comm s b) in Heq. by apply lxor_inj_l in Heq.
Qed.

Lemma crc32_detects_byte_change_witness : crc32_bytes [1; 2; 3] <> crc32_bytes [1; 7; 3].
Proof.
  apply (crc32_detects_byte_change [1] [3] 2 7); try (repeat constructor; unfold is_byte; lia); lia.
Defined.
