(* ===== verification/CopyBinary.v ===== *)
(** * COPY BINARY staging rows

    Model of the COPY encoder of src/rust_hotpath/src/pg.rs: the big-endian
    integer fields, the NULL and padded bytea fields, the stream header, the row
    of one data block (sparse blocks become NULL, full blocks carry their
    CRC-32), and the send loop that cuts the stream into network buffers. The
    receiving side is the documented PostgreSQL COPY BINARY format, written as a
    parser; the stream is proved to parse back to the staged rows. *)

From stdpp Require Import prelude list numbers strings.
From Stdlib Require Import ZArith Lia.
From S2P Require Import Prelude Crc32.

#[local] Open Scope Z_scope.

(** ** Encoder *)

(** [i16::to_be_bytes], [i32::to_be_bytes], [i64::to_be_bytes]: two's complement,
    most significant byte first. *)
Fixpoint to_be_bytes (n : nat) (v : Z) : bytes :=
  match n with
  | O => []
  | S n => v / 256 ^ Z.of_nat n mod 256 :: to_be_bytes n v
  end.

Definition I32_MAX : Z := 2 ^ 31 - 1.

Definition append_copy_binary_i16 (out : bytes) (value : Z) : bytes := out ++ to_be_bytes 2 value.
Definition append_copy_binary_i32 (out : bytes) (value : Z) : bytes := out ++ to_be_bytes 4 value.
Definition append_copy_binary_i64 (out : bytes) (value : Z) : bytes := out ++ to_be_bytes 8 value.

Definition append_copy_binary_i64_field (out : bytes) (value : Z) : bytes :=
  append_copy_binary_i64 (append_copy_binary_i32 out 8) value.

Definition append_copy_binary_null_field (out : bytes) : bytes := append_copy_binary_i32 out (-1).

Definition append_copy_binary_padded_bytes_field (out data : bytes) (target_len : Z)
    : outcome string bytes :=
  let payload_len := Z.min (zlen data) target_len in
  if I32_MAX <? target_len then Err "copy field too large"
  else
    let out := append_copy_binary_i32 out target_len in
    payload ← slice data 0 payload_len;
    let out := out ++ payload in
    Ok (if payload_len <? target_len
        then vec_resize out (zlen out + (target_len - payload_len)) else out).

(** b"PGCOPY\n\xff\r\n\0" *)
Definition COPY_BINARY_SIGNATURE : bytes := [80; 71; 67; 79; 80; 89; 10; 255; 13; 10; 0].

Definition append_copy_binary_header (out : bytes) : bytes :=
  append_copy_binary_i32 (append_copy_binary_i32 (out ++ COPY_BINARY_SIGNATURE) 0) 0.

Record PersistBlockRow : Set := {
  pbr_block_index : Z;
  pbr_data : bytes;
  pbr_used_len : Z
}.

Definition normalize_block_bytes (data : bytes) (target_len : Z) : bytes :=
  let payload_len := Z.min (zlen data) target_len in
  let out := take (Z.to_nat payload_len) data in
  if payload_len <? target_len then vec_resize out target_len else out.

Definition normalized_block_bytes_cow (data : bytes) (target_len : Z) : bytes :=
  let payload_len := Z.min (zlen data) target_len in
  if payload_len =? target_len then take (Z.to_nat target_len) data
  else normalize_block_bytes data target_len.

Definition is_all_zero_block (data : bytes) : bool := forallb (fun b => b =? 0) data.

Definition append_persist_block_copy_binary_row (out : bytes) (data_object_id : Z)
    (block : PersistBlockRow) (block_size : Z) : outcome string bytes :=
  let block_size := Z.max block_size 1 in
  if I64_MAX <? pbr_block_index block then Err "block index out of range for copy staging"
  else
    let block_index := pbr_block_index block in
    let normalized := normalized_block_bytes_cow (pbr_data block) block_size in
    let sparse := is_all_zero_block normalized in
    let crc32 :=
      if negb sparse && (block_size <=? pbr_used_len block)
      then Some (crc32_bytes normalized) else None in
    let out := append_copy_binary_i16 out 4 in
    let out := append_copy_binary_i64_field out data_object_id in
    let out := append_copy_binary_i64_field out block_index in
    out ←
      (if sparse then Ok (append_copy_binary_null_field out)
       else append_copy_binary_padded_bytes_field out normalized block_size);
    Ok (match crc32 with
        | Some crc32 => append_copy_binary_i64_field out crc32
        | None => append_copy_binary_null_field out
        end).

(** [flush_copy_send_buffer_if_full] and [flush_copy_send_buffer]: a send moves
    the whole buffer to the connection; [sent] is what the connection received. *)
Definition flush_copy_send_buffer_if_full (limit : Z) (sent buffer : bytes) : bytes * bytes :=
  if limit <=? zlen buffer then (sent ++ buffer, []) else (sent, buffer).

Definition flush_copy_send_buffer (sent buffer : bytes) : bytes * bytes :=
  if bool_decide (buffer = []) then (sent, buffer) else (sent ++ buffer, []).

Fixpoint copy_rows_loop (limit data_object_id block_size : Z) (blocks : list PersistBlockRow)
    (sent buffer : bytes) : outcome string (bytes * bytes) :=
  match blocks with
  | [] => Ok (sent, buffer)
  | block :: blocks =>
      buffer ← append_persist_block_copy_binary_row buffer data_object_id block block_size;
      let '(sent, buffer) := flush_copy_send_buffer_if_full limit sent buffer in
      copy_rows_loop limit data_object_id block_size blocks sent buffer
  end.

(** The COPY part of [persist_file_blocks_copy_binary_staging_on_conn]: the bytes
    the server received when the session is finished. *)
Definition copy_in_blocks (limit data_object_id block_size : Z) (blocks : list PersistBlockRow)
    : outcome string bytes :=
  let buffer := append_copy_binary_header [] in
  if I64_MAX <? data_object_id then Err "data object id out of range for copy staging"
  else
    let block_size := Z.max block_size 1 in
    '(sent, buffer) ← copy_rows_loop limit data_object_id block_size blocks [] buffer;
    Ok (flush_copy_send_buffer sent buffer).1.

(** ** The receiving side: the COPY BINARY format *)

(** A row of the staging table (data_object_id, _order, data, crc32). *)
Record StageRow : Set := {
  st_data_object_id : Z;
  st_order : Z;
  st_data : option bytes;
  st_crc32 : option Z
}.

Definition be_value (bs : bytes) : Z := foldl (fun acc b => acc * 256 + b) 0 bs.

(** A signed big-endian integer of [n] bytes. *)
Definition be_signed (n : nat) (bs : bytes) : Z :=
  let v := be_value bs in
  if 2 ^ (8 * Z.of_nat n - 1) <=? v then v - 2 ^ (8 * Z.of_nat n) else v.

Definition take_bytes (n : Z) (s : bytes) : option (bytes * bytes) :=
  if (0 <=? n) && (n <=? zlen s)
  then Some (take (Z.to_nat n) s, drop (Z.to_nat n) s) else None.

Definition parse_int (n : nat) (s : bytes) : option (Z * bytes) :=
  '(b, s) ← take_bytes (Z.of_nat n) s; Some (be_signed n b, s).

(** A field: its length in bytes, -1 for NULL, then the value. *)
Definition parse_field (s : bytes) : option (option bytes * bytes) :=
  '(len, s) ← parse_int 4 s;
  if len =? -1 then Some (None, s)
  else '(b, s) ← take_bytes len s; Some (Some b, s).

Definition parse_bigint (s : bytes) : option (option Z * bytes) :=
  '(f, s) ← parse_field s;
  match f with
  | None => Some (None, s)
  | Some b => if zlen b =? 8 then Some (Some (be_signed 8 b), s) else None
  end.

(** A tuple of the four columns of the staging table; its two key columns are
    NOT NULL. *)
Definition parse_stage_row (s : bytes) : option (StageRow * bytes) :=
  '(count, s) ← parse_int 2 s;
  if negb (count =? 4) then None
  else
    '(oid, s) ← parse_bigint s;
    '(ord, s) ← parse_bigint s;
    '(data, s) ← parse_field s;
    '(crc, s) ← parse_bigint s;
    match oid, ord with
    | Some oid, Some ord =>
        Some ({| st_data_object_id := oid; st_order := ord; st_data := data; st_crc32 := crc |}, s)
    | _, _ => None
    end.

(** Tuples up to the end of the data (every tuple consumes input, so the length
    of the input is enough fuel). *)
Fixpoint parse_stage_rows (fuel : nat) (s : bytes) : option (list StageRow) :=
  match s with
  | [] => Some []
  | _ =>
      match fuel with
      | O => None
      | S fuel =>
          '(row, s) ← parse_stage_row s;
          rows ← parse_stage_rows fuel s;
          Some (row :: rows)
      end
  end.

Definition parse_copy_stream (s : bytes) : option (list StageRow) :=
  '(sig, s) ← take_bytes 11 s;
  if bool_decide (sig = COPY_BINARY_SIGNATURE) then
    '(flags, s) ← parse_int 4 s;
    '(extension, s) ← parse_int 4 s;
    if (flags =? 0) && (extension =? 0) then parse_stage_rows (length s) s else None
  else None.

(** The staged row of a block. *)
Definition stage_row (data_object_id block_size : Z) (block : PersistBlockRow) : StageRow :=
  let normalized := normalize_block_bytes (pbr_data block) block_size in
  let sparse := is_all_zero_block normalized in
  {| st_data_object_id := data_object_id;
     st_order := pbr_block_index block;
     st_data := if sparse then None else Some normalized;
     st_crc32 :=
       if negb sparse && (block_size <=? pbr_used_len block)
       then Some (crc32_bytes normalized) else None |}.

(** ** Normalisation *)

Lemma zlen_normalize data n : 0 <= n -> zlen (normalize_block_bytes data n) = n.
Proof.
  intros Hn. unfold normalize_block_bytes. pose proof (zlen_nonneg data).
  zcase; zlen_simpl; lia.
Qed.

Lemma byte_at_normalize data n i :
  byte_at (normalize_block_bytes data n) i = if decide (i < n) then byte_at data i else 0.
Proof.
  unfold normalize_block_bytes. zcase.
  - rewrite byte_at_vec_resize, byte_at_take. repeat case_decide; try done; try lia.
    symmetry. apply byte_at_ge. lia.
  - rewrite byte_at_take. repeat case_decide; done || lia.
Qed.

Lemma normalized_cow_eq data n : normalized_block_bytes_cow data n = normalize_block_bytes data n.
Proof.
  unfold normalized_block_bytes_cow. zcase; [|done].
  unfold normalize_block_bytes. zcase; [lia|]. by f_equal; f_equal.
Qed.

Lemma Forall_byte_normalize data n : Forall is_byte data -> Forall is_byte (normalize_block_bytes data n).
Proof.
  intros H. unfold normalize_block_bytes. assert (is_byte 0) by (unfold is_byte; lia).
  zcase; [apply Forall_resize; [done|]|]; by apply Forall_take.
Qed.

Lemma is_all_zero_block_spec data : is_all_zero_block data = true <-> forall i, byte_at data i = 0.
Proof.
  unfold is_all_zero_block. rewrite forallb_forall.
  split.
  - intros H i. unfold byte_at. zcase; [done|].
    destruct (data !! Z.to_nat i) as [b|] eqn:E; [|done]. cbn.
    apply Z.eqb_eq, H, list_elem_of_In. by eapply list_elem_of_lookup_2.
  - intros H b Hb%list_elem_of_In. apply Z.eqb_eq.
    apply list_elem_of_lookup_1 in Hb as [i Hi]. specialize (H (Z.of_nat i)).
    rewrite byte_at_nonneg, Nat2Z.id, Hi in H by lia. done.
Qed.

(** ** Round trips of the parts *)

Lemma length_to_be_bytes n v : length (to_be_bytes n v) = n.
Proof. induction n; cbn; congruence. Qed.

Lemma zlen_to_be_bytes n v : zlen (to_be_bytes n v) = Z.of_nat n.
Proof. unfold zlen. by rewrite length_to_be_bytes. Qed.

Lemma be_value_app a b : be_value (a ++ b) = be_value a * 256 ^ zlen b + be_value b.
Proof.
  unfold be_value. rewrite foldl_app. generalize (foldl (fun acc b => acc * 256 + b) 0 a).
  induction b as [|x b IH] using rev_ind; intros acc; [change (zlen (@nil Z)) with 0; cbn; lia|].
  rewrite !foldl_app, IH, zlen_app, Z.pow_add_r by (unfold zlen; lia).
  change (zlen [x]) with 1. cbn [foldl]. lia.
Qed.

Lemma be_value_cons x b : be_value (x :: b) = x * 256 ^ zlen b + be_value b.
Proof. change (x :: b) with ([x] ++ b). by rewrite be_value_app. Qed.

Lemma be_value_to_be_bytes n v : be_value (to_be_bytes n v) = v mod 256 ^ Z.of_nat n.
Proof.
  induction n as [|n IH]; [cbn; by rewrite Z.mod_1_r|]. cbn [to_be_bytes].
  rewrite be_value_cons, IH, zlen_to_be_bytes.
  assert (0 < 256 ^ Z.of_nat n) by (apply Z.pow_pos_nonneg; lia).
  rewrite Nat2Z.inj_succ, Z.pow_succ_r by lia.
  rewrite (Z.mul_comm 256), Zmod_recombine || rewrite (Z.mul_comm 256), Z.rem_mul_r by lia. lia.
Qed.

Lemma be_signed_to_be_bytes n v : (0 < n)%nat ->
  - 2 ^ (8 * Z.of_nat n - 1) <= v < 2 ^ (8 * Z.of_nat n - 1) ->
  be_signed n (to_be_bytes n v) = v.
Proof.
  intros Hn Hv. unfold be_signed. rewrite be_value_to_be_bytes.
  change 256 with (2 ^ 8). rewrite <- Z.pow_mul_r by lia.
  assert (H2 : 2 ^ (8 * Z.of_nat n) = 2 * 2 ^ (8 * Z.of_nat n - 1)).
  { rewrite <- Z.pow_succ_r by lia. f_equal. lia. }
  rewrite H2. set (h := 2 ^ (8 * Z.of_nat n - 1)) in *.
  destruct (Z.lt_ge_cases v 0).
  - rewrite <- (Z.mod_add v 1) by lia. rewrite Z.mod_small by lia. zcase; lia.
  - rewrite Z.mod_small by lia. zcase; lia.
Qed.

#[local] Arguments to_be_bytes : simpl never.

Lemma take_bytes_app b s n : zlen b = n -> take_bytes n (b ++ s) = Some (b, s).
Proof.
  intros <-. unfold take_bytes. rewrite zlen_app. pose proof (zlen_nonneg b).
  pose proof (zlen_nonneg s). repeat zcase; try lia. cbn. unfold zlen. rewrite Nat2Z.id.
  by rewrite take_app_length, drop_app_length.
Qed.

Lemma parse_int_app n v s : (0 < n)%nat ->
  - 2 ^ (8 * Z.of_nat n - 1) <= v < 2 ^ (8 * Z.of_nat n - 1) ->
  parse_int n (to_be_bytes n v ++ s) = Some (v, s).
Proof.
  intros Hn Hv. unfold parse_int. rewrite take_bytes_app by apply zlen_to_be_bytes. cbn.
  by rewrite be_signed_to_be_bytes.
Qed.

(** The encoding of an optional field value. *)
Definition field_bytes (f : option bytes) : bytes :=
  match f with
  | None => to_be_bytes 4 (-1)
  | Some b => to_be_bytes 4 (zlen b) ++ b
  end.

Lemma parse_field_app f s :
  (forall b, f = Some b -> zlen b <= I32_MAX) -> parse_field (field_bytes f ++ s) = Some (f, s).
Proof.
  intros Hf. unfold parse_field, I32_MAX in *. destruct f as [b|]; cbn [field_bytes].
  - specialize (Hf b eq_refl). pose proof (zlen_nonneg b).
    rewrite <- app_assoc, parse_int_app by (cbn; lia). cbn. zcase; [lia|].
    by rewrite take_bytes_app.
  - rewrite parse_int_app by (cbn; lia). done.
Qed.

Definition bigint_bytes (f : option Z) : bytes := field_bytes (to_be_bytes 8 <$> f).

Lemma parse_bigint_app f s :
  (forall v, f = Some v -> - 2 ^ 63 <= v < 2 ^ 63) -> parse_bigint (bigint_bytes f ++ s) = Some (f, s).
Proof.
  intros Hf. unfold parse_bigint, bigint_bytes. rewrite parse_field_app.
  2: { intros b Hb. apply fmap_Some in Hb as (v & _ & ->).
       rewrite zlen_to_be_bytes. unfold I32_MAX. lia. }
  destruct f as [v|]; [|done]. cbn [fmap option_fmap option_map mbind option_bind].
  rewrite zlen_to_be_bytes. zcase; [|lia]. rewrite be_signed_to_be_bytes; [done|lia|].
  change (8 * Z.of_nat 8 - 1) with 63. by apply Hf.
Qed.

(** The bytes of a staged row. *)
Definition row_bytes (r : StageRow) : bytes :=
  to_be_bytes 2 4 ++ bigint_bytes (Some (st_data_object_id r)) ++ bigint_bytes (Some (st_order r))
  ++ field_bytes (st_data r) ++ bigint_bytes (st_crc32 r).

Definition stage_row_ok (r : StageRow) : Prop :=
  0 <= st_data_object_id r <= I64_MAX /\ 0 <= st_order r <= I64_MAX /\
  (forall b, st_data r = Some b -> zlen b <= I32_MAX) /\
  (forall c, st_crc32 r = Some c -> 0 <= c < 2 ^ 32).

Lemma parse_stage_row_app r s :
  stage_row_ok r -> parse_stage_row (row_bytes r ++ s) = Some (r, s).
Proof.
  intros (Ho & Hk & Hd & Hc). unfold parse_stage_row, row_bytes. rewrite <- !app_assoc.
  unfold I64_MAX in *.
  rewrite parse_int_app by (cbn; lia). cbn [mbind option_bind].
  change (negb (4 =? 4)) with false. cbn [negb].
  rewrite parse_bigint_app by (intros ? [= <-]; lia). cbn [mbind option_bind].
  rewrite parse_bigint_app by (intros ? [= <-]; lia). cbn [mbind option_bind].
  rewrite parse_field_app by done. cbn [mbind option_bind].
  rewrite parse_bigint_app by (intros c E; specialize (Hc c E); lia). cbn.
  by destruct r.
Qed.

Lemma row_bytes_nonempty r : (0 < length (row_bytes r))%nat.
Proof. unfold row_bytes. rewrite length_app, length_to_be_bytes. lia. Qed.

Lemma parse_stage_rows_concat rows fuel :
  Forall stage_row_ok rows -> (length (mjoin (row_bytes <$> rows)) <= fuel)%nat ->
  parse_stage_rows fuel (mjoin (row_bytes <$> rows)) = Some rows.
Proof.
  intros Hok. revert fuel. induction Hok as [|r rows Hr Hok IH]; intros fuel Hf; [by destruct fuel|].
  change (mjoin (row_bytes <$> r :: rows)) with (row_bytes r ++ mjoin (row_bytes <$> rows)) in *.
  pose proof (row_bytes_nonempty r). rewrite length_app in Hf.
  destruct fuel as [|fuel]; [lia|]. cbn [parse_stage_rows].
  destruct (row_bytes r ++ mjoin (row_bytes <$> rows)) eqn:E.
  { apply (f_equal length) in E. rewrite length_app in E. cbn in E. lia. }
  rewrite <- E, parse_stage_row_app by done. cbn [mbind option_bind].
  rewrite IH by lia. done.
Qed.

(** ** What the encoder appends *)

Lemma append_padded_exact out data n :
  zlen data = n -> n <= I32_MAX ->
  append_copy_binary_padded_bytes_field out data n = Ok (out ++ field_bytes (Some data)).
Proof.
  intros <- Hn. unfold append_copy_binary_padded_bytes_field, append_copy_binary_i32.
  pose proof (zlen_nonneg data). rewrite Z.min_id. zcase; [lia|].
  rewrite slice_Ok by lia. cbn. zcase; [lia|]. unfold zlen.
  rewrite Z.sub_0_r, Nat2Z.id, drop_0, firstn_all. by rewrite <- app_assoc.
Qed.

Lemma append_row_bytes out oid block bs : 1 <= bs ->
  append_persist_block_copy_binary_row out oid block bs =
    if I64_MAX <? pbr_block_index block then Err "block index out of range for copy staging"
    else if negb (is_all_zero_block (normalize_block_bytes (pbr_data block) bs)) && (I32_MAX <? bs)
    then Err "copy field too large"
    else Ok (out ++ row_bytes (stage_row oid bs block)).
Proof.
  intros Hbs. unfold append_persist_block_copy_binary_row. rewrite Z.max_l by lia.
  destruct (Z.ltb_spec I64_MAX (pbr_block_index block)); [done|].
  rewrite normalized_cow_eq. unfold row_bytes, stage_row. cbn.
  set (norm := normalize_block_bytes (pbr_data block) bs).
  assert (Hn : zlen norm = bs) by (apply zlen_normalize; lia).
  unfold append_copy_binary_i64_field, append_copy_binary_i64, append_copy_binary_i32,
    append_copy_binary_i16, append_copy_binary_null_field, append_copy_binary_i32.
  destruct (is_all_zero_block norm); cbn [negb andb mbind outcome_bind].
  { by rewrite <- !app_assoc. }
  destruct (Z.ltb_spec I32_MAX bs).
  - unfold append_copy_binary_padded_bytes_field. zcase; [done|lia].
  - rewrite append_padded_exact by done. cbn [mbind outcome_bind].
    destruct (bs <=? pbr_used_len block); cbn; by rewrite <- !app_assoc.
Qed.

Lemma copy_rows_loop_bytes limit oid bs blocks : 1 <= bs -> forall sent buffer,
  match copy_rows_loop limit oid bs blocks sent buffer with
  | Ok (sent', buffer') =>
      sent' ++ buffer' = sent ++ buffer ++ mjoin (row_bytes <$> (stage_row oid bs <$> blocks)) /\
      Forall (fun b => pbr_block_index b <= I64_MAX) blocks /\
      (I32_MAX < bs -> Forall (fun b => st_data (stage_row oid bs b) = None) blocks)
  | Err _ => exists b, b ∈ blocks /\ (I64_MAX < pbr_block_index b \/ I32_MAX < bs)
  | Panic => False
  end.
Proof.
  intros Hbs. induction blocks as [|b blocks IH]; intros sent buffer; cbn.
  { by rewrite app_nil_r. }
  rewrite append_row_bytes by done.
  destruct (Z.ltb_spec I64_MAX (pbr_block_index b)); [cbn; exists b; set_solver|].
  destruct (negb _ && (I32_MAX <? bs)) eqn:E.
  { apply andb_true_iff in E as [_ E%Z.ltb_lt]. cbn. exists b. set_solver. }
  cbn [mbind outcome_bind].
  destruct (flush_copy_send_buffer_if_full limit sent _) as [sent1 buf1] eqn:Ef.
  assert (Hcat : sent1 ++ buf1 = sent ++ buffer ++ row_bytes (stage_row oid bs b)).
  { unfold flush_copy_send_buffer_if_full in Ef. destruct (limit <=? _); simplify_eq;
      by rewrite ?app_nil_r. }
  specialize (IH sent1 buf1).
  destruct (copy_rows_loop limit oid bs blocks sent1 buf1) as [[sent2 buf2]| |]; [|set_solver|done].
  destruct IH as (Hc & Hall & Hbig). split_and!.
  - rewrite Hc, (app_assoc sent1), Hcat, <- !app_assoc. done.
  - by constructor.
  - intros Hlt. constructor; [|by apply Hbig]. unfold stage_row. cbn.
    destruct (is_all_zero_block _); [done|]. cbn in E. apply Z.ltb_ge in E. lia.
Qed.

(** ** The stream *)

(** The staging COPY delivers the staged rows, or fails without staging anything. *)
Lemma copy_in_blocks_parse limit oid block_size blocks :
  0 <= oid -> Forall (fun b => 0 <= pbr_block_index b) blocks ->
  Forall (fun b => Forall is_byte (pbr_data b)) blocks ->
  let bs := Z.max block_size 1 in
  match copy_in_blocks limit oid block_size blocks with
  | Ok stream => parse_copy_stream stream = Some (stage_row oid bs <$> blocks)
  | Err _ => I64_MAX < oid \/ exists b, b ∈ blocks /\ (I64_MAX < pbr_block_index b \/ I32_MAX < bs)
  | Panic => False
  end.
Proof.
  intros Ho Hidx Hbytes bs. unfold copy_in_blocks.
  destruct (Z.ltb_spec I64_MAX oid); [by left|]. fold bs.
  pose proof (copy_rows_loop_bytes limit oid bs blocks ltac:(lia) []
    (append_copy_binary_header [])) as Hl.
  destruct (copy_rows_loop limit oid bs blocks [] _) as [[sent buf]| |]; cbn [mbind outcome_bind];
    [|by right|done].
  destruct Hl as (Hcat & Hmax & Hbig).
  assert ((flush_copy_send_buffer sent buf).1 = sent ++ buf) as ->.
  { unfold flush_copy_send_buffer. case_bool_decide; subst; cbn; by rewrite ?app_nil_r. }
  rewrite Hcat. cbn [app]. unfold append_copy_binary_header, append_copy_binary_i32, parse_copy_stream.
  rewrite <- !app_assoc. cbn [app]. rewrite take_bytes_app by done. cbn [mbind option_bind].
  rewrite bool_decide_eq_true_2 by done.
  do 2 (rewrite parse_int_app by (cbn; lia); cbn [mbind option_bind]).
  cbn [Z.eqb andb]. apply parse_stage_rows_concat; [|done].
  apply Forall_fmap, Forall_forall. intros b Hb. rewrite Forall_forall in Hidx, Hmax, Hbytes.
  unfold stage_row_ok. cbn. split_and!; [lia..|by apply Hidx|by apply Hmax| |].
  - intros d Hd. destruct (Z.lt_ge_cases I32_MAX bs) as [Hlt|].
    + specialize (Hbig Hlt). rewrite Forall_forall in Hbig. specialize (Hbig b Hb).
      unfold stage_row in Hbig. cbn in Hbig. congruence.
    + destruct (is_all_zero_block _); simplify_eq. rewrite zlen_normalize; lia.
  - intros c Hc. destruct (negb _ && _); simplify_eq. unfold crc32_bytes.
    apply u32_lxor; [apply u32_crc_fold; [by apply Forall_byte_normalize, Hbytes|]|];
      unfold is_u32, U32_MAX; lia.
Qed.

(** the COPY BINARY stream of a flush round-trips. Whatever the send-buffer
    size, the bytes the server receives parse (header, tuples, end of data) to
    exactly one staged row per block, in order, whose data is NULL for an
    all-zero block and otherwise the block padded to the block size, and whose
    CRC is present exactly for full non-zero blocks; the encoder fails only when
    an identifier or the block size exceeds its wire type, and never panics. *)
Theorem copy_stream_roundtrip (limit data_object_id block_size : Z) (blocks : list PersistBlockRow) :
  0 <= data_object_id -> Forall (fun b => 0 <= pbr_block_index b) blocks ->
  Forall (fun b => Forall is_byte (pbr_data b)) blocks ->
  let bs := Z.max block_size 1 in
  match copy_in_blocks limit data_object_id block_size blocks with
  | Ok stream => parse_copy_stream stream = Some (stage_row data_object_id bs <$> blocks)
  | Err _ => I64_MAX < data_object_id \/
      exists b, b ∈ blocks /\ (I64_MAX < pbr_block_index b \/ I32_MAX < bs)
  | Panic => False
  end.
Proof. apply copy_in_blocks_parse. Qed.

Lemma copy_stream_roundtrip_witness :
  exists stream,
    copy_in_blocks 16 7 4 [{| pbr_block_index := 2; pbr_data := [1; 2]; pbr_used_len := 2 |};
                           {| pbr_block_index := 3; pbr_data := []; pbr_used_len := 4 |}] = Ok stream /\
    exists rows, parse_copy_stream stream = Some rows /\ map st_order rows = [2; 3].
Proof.
  assert (H := copy_stream_roundtrip 16 7 4
    [{| pbr_block_index := 2; pbr_data := [1; 2]; pbr_used_len := 2 |};
     {| pbr_block_index := 3; pbr_data := []; pbr_used_len := 4 |}] ltac:(lia)
    ltac:(repeat constructor; cbn; lia) ltac:(repeat constructor; cbn; unfold is_byte; lia)).
  eexists. split; [vm_compute; reflexivity|]. eexists. split; [exact H|reflexivity].
Defined.
