(* ===== verification/Errno.v ===== *)
(** * Linux errno mapping

    Model of src/rust_fuse/src/errno.rs, with the message constants of
    src/rust_hotpath/src/pg.rs and src/rust_hotpath/src/pg/xattrs.rs it
    classifies. *)

From stdpp Require Import prelude list numbers strings.
From Stdlib Require Import ZArith Lia.
From S2P Require Import Prelude.

#[local] Open Scope Z_scope.
#[local] Open Scope string_scope.

(** ** Error numbers (Linux, from libc) *)

Definition EPERM : Z := 1.
Definition ENOENT : Z := 2.
Definition EINTR : Z := 4.
Definition EIO : Z := 5.
Definition EBADF : Z := 9.
Definition EWOULDBLOCK : Z := 11.
Definition EACCES : Z := 13.
Definition EBUSY : Z := 16.
Definition EEXIST : Z := 17.
Definition EINVAL : Z := 22.
Definition EFBIG : Z := 27.
Definition ENOSPC : Z := 28.
Definition EROFS : Z := 30.
Definition EDEADLK : Z := 35.
Definition ENODATA : Z := 61.
Definition EOPNOTSUPP : Z := 95.

(** ** Message constants *)

Definition POSTGRES_DISK_FULL_SQLSTATE : string := "SQLSTATE 53100:".
Definition STORAGE_QUOTA_EXCEEDED_PREFIX : string := "FOD_ENOSPC:".
Definition FILE_WRITE_ACCESS_DENIED : string := "FOD_TRUNCATE_WRITE_DENIED".
Definition FILE_WRITE_TARGET_MISSING : string := "FOD_TRUNCATE_TARGET_MISSING".
Definition WRITE_OWNERSHIP_FENCE_REJECTED_PREFIX : string := "__FOD_WRITE_OWNERSHIP_FENCE_REJECTED__:".
Definition NAMESPACE_ENTRY_EXISTS_PREFIX : string := "SQLSTATE 23505: FOD_NAMESPACE_ENTRY_EXISTS:".
Definition STICKY_PERMISSION_DENIED : string := "FOD_STICKY_PERMISSION_DENIED".
Definition PARENT_ACCESS_DENIED : string := "FOD_PARENT_ACCESS_DENIED".
Definition NAMESPACE_SOURCE_CHANGED : string := "FOD_NAMESPACE_SOURCE_CHANGED".
Definition NAMESPACE_PARENT_MISSING_PREFIX : string := "FOD_NAMESPACE_PARENT_MISSING:".

(** The message of [prepare_default_acl_inheritance_on_conn] when the locked
    parent directory row is gone. *)
Definition LOCKED_PARENT_MISSING : string := "FOD_NAMESPACE_PARENT_MISSING".

(** [str::starts_with]. *)
Definition starts_with (error prefix : string) : bool := String.prefix prefix error.

Definition persist_error_errno (error : string) : Z :=
  if starts_with error STORAGE_QUOTA_EXCEEDED_PREFIX
     || starts_with error POSTGRES_DISK_FULL_SQLSTATE then ENOSPC
  else if starts_with error FILE_WRITE_ACCESS_DENIED then EACCES
  else if starts_with error FILE_WRITE_TARGET_MISSING then ENOENT
  else if starts_with error WRITE_OWNERSHIP_FENCE_REJECTED_PREFIX then EBUSY
  else EIO.

Definition namespace_mutation_errno (error : string) : Z :=
  if starts_with error POSTGRES_DISK_FULL_SQLSTATE then ENOSPC
  else if String.eqb error PARENT_ACCESS_DENIED then EACCES
  else if starts_with error NAMESPACE_ENTRY_EXISTS_PREFIX then EEXIST
  else if String.eqb error STICKY_PERMISSION_DENIED then EPERM
  else if starts_with error NAMESPACE_PARENT_MISSING_PREFIX
          || String.eqb error NAMESPACE_SOURCE_CHANGED
          || String.eqb error "FOD_UNLINK_SOURCE_CHANGED"
          || String.eqb error "FOD_LINK_SOURCE_UNAVAILABLE" then ENOENT
  else EIO.

Definition xattr_errno (error : string) : Z :=
  if String.eqb error "FOD_XATTR_OWNER_MISSING" then ENOENT
  else if String.eqb error "FOD_XATTR_EXISTS" then EEXIST
  else if String.eqb error "FOD_XATTR_MISSING" then ENODATA
  else if String.eqb error "FOD_XATTR_PERMISSION_DENIED" then EPERM
  else if String.eqb error "FOD_XATTR_ACCESS_DENIED" then EACCES
  else if String.eqb error "FOD_XATTR_NOT_SUPPORTED" then EOPNOTSUPP
  else EIO.

Definition open_lease_errno (error : string) : Z :=
  if String.eqb error "FOD_OPEN_FILE_UNAVAILABLE" then ENOENT else EIO.

(** The messages [persist_error_errno] recognises. *)
Definition persist_error_classes : list string :=
  [STORAGE_QUOTA_EXCEEDED_PREFIX; POSTGRES_DISK_FULL_SQLSTATE; FILE_WRITE_ACCESS_DENIED;
   FILE_WRITE_TARGET_MISSING; WRITE_OWNERSHIP_FENCE_REJECTED_PREFIX].

(** ** Prefixes *)

Lemma prefix_app p s : String.prefix p (p ++ s) = true.
Proof.
  induction p as [|c p IH]; [by destruct s|].
  change (String c p ++ s)%string with (String c (p ++ s)). cbn.
  destruct (Ascii.ascii_dec c c); [exact IH|congruence].
Qed.

Lemma prefix_split p s : String.prefix p s = true -> exists rest, s = (p ++ rest)%string.
Proof.
  revert s. induction p as [|c p IH]; intros s H; [by exists s|].
  destruct s as [|d s]; [done|]. cbn in H. destruct (Ascii.ascii_dec c d) as [->|]; [|done].
  destruct (IH _ H) as [rest ->]. by exists rest.
Qed.

(** Two prefixes of one string are comparable. *)
Lemma prefix_comparable p q s :
  String.prefix p s = true -> String.prefix q s = true ->
  String.prefix p q = true \/ String.prefix q p = true.
Proof.
  revert q s. induction p as [|c p IH]; intros q s Hp Hq; [left; by destruct q|].
  destruct q as [|d q]; [by right|]. destruct s as [|e s]; [done|]. cbn in *.
  destruct (Ascii.ascii_dec c e) as [->|], (Ascii.ascii_dec d e) as [->|]; try done.
  destruct (Ascii.ascii_dec e e); [|done]. by apply (IH q s).
Qed.

(** Every class of persistence error gets its errno whatever text follows
    the class's message, and no message falls into two classes: the order of the
    tests in the source does not matter. Everything else is EIO. *)
Theorem persist_error_errno_classes (detail : string) :
  persist_error_errno (STORAGE_QUOTA_EXCEEDED_PREFIX ++ detail) = ENOSPC /\
  persist_error_errno (POSTGRES_DISK_FULL_SQLSTATE ++ detail) = ENOSPC /\
  persist_error_errno (FILE_WRITE_ACCESS_DENIED ++ detail) = EACCES /\
  persist_error_errno (FILE_WRITE_TARGET_MISSING ++ detail) = ENOENT /\
  persist_error_errno (WRITE_OWNERSHIP_FENCE_REJECTED_PREFIX ++ detail) = EBUSY /\
  (forall error, persist_error_errno error <> EIO <->
     exists p, p ∈ persist_error_classes /\ starts_with error p = true) /\
  (forall error p q,
     p ∈ persist_error_classes ->
     q ∈ persist_error_classes ->
     starts_with error p = true -> starts_with error q = true -> p = q).
Proof.
  split_and!; try (by destruct detail).
  - intros error. unfold persist_error_errno. split.
    + intros H. destruct (decide (Exists (fun p => starts_with error p = true)
        persist_error_classes)) as [He|Hn];
        [by apply Exists_exists in He|exfalso].
      assert (Hno : forall p, p ∈ persist_error_classes
        -> starts_with error p = false).
      { intros p Hp. apply not_true_iff_false. intros Hs. apply Hn, Exists_exists.
        by exists p. }
      rewrite !Hno in H by (unfold persist_error_classes; set_solver). done.
    + intros (p & Hp & Hs). unfold persist_error_classes in Hp. rewrite !elem_of_cons in Hp.
      destruct Hp as [->|[->|[->|[->|[->|Hp]]]]]; [..|set_solver]; rewrite Hs;
        rewrite ?orb_true_l, ?orb_true_r; repeat case_match; done.
  - intros error p q Hp Hq Hsp Hsq. unfold starts_with in *.
    pose proof (prefix_comparable _ _ _ Hsp Hsq) as Hc. clear Hsp Hsq.
    unfold persist_error_classes in *. rewrite !elem_of_cons in Hp, Hq.
    destruct Hp as [->|[->|[->|[->|[->|Hp]]]]]; [..|set_solver];
      (destruct Hq as [->|[->|[->|[->|[->|Hq]]]]]; [..|set_solver]);
      first [done|destruct Hc as [Hc|Hc]; vm_compute in Hc; done].
Qed.

(** the namespace error classes: a disk-full report, a denied parent, an
    existing entry and a sticky-bit denial are told apart, and a missing parent or
    a vanished source is ENOENT. The message the default-ACL path produces when the
    locked parent row is gone carries no detail separator, so it is not recognised
    and surfaces as EIO. *)
Theorem namespace_mutation_errno_classes (detail : string) :
  namespace_mutation_errno (POSTGRES_DISK_FULL_SQLSTATE ++ detail) = ENOSPC /\
  namespace_mutation_errno (NAMESPACE_ENTRY_EXISTS_PREFIX ++ detail) = EEXIST /\
  namespace_mutation_errno (NAMESPACE_PARENT_MISSING_PREFIX ++ detail) = ENOENT /\
  namespace_mutation_errno PARENT_ACCESS_DENIED = EACCES /\
  namespace_mutation_errno STICKY_PERMISSION_DENIED = EPERM /\
  namespace_mutation_errno NAMESPACE_SOURCE_CHANGED = ENOENT /\
  namespace_mutation_errno LOCKED_PARENT_MISSING = EIO.
Proof. split_and!; by destruct detail. Qed.
