(* ===== verification/Locks.v ===== *)
(** * POSIX record locks

    Model of the byte-range locks of src/rust_fuse/src/fs.rs: the conflict
    test, the range update behind [setlk] and the text form in which the
    records travel to and from PostgreSQL. A table of records is read as a
    function from owners and offsets to the lock held there; the theorems
    state the POSIX rules on that function. *)

From stdpp Require Import prelude list numbers strings.
From Stdlib Require Import ZArith Lia Ascii.
From S2P Require Import Prelude Text Errno.

#[local] Open Scope Z_scope.

(** ** Records (libc lock types on Linux) *)

Definition F_RDLCK : Z := 0.
Definition F_WRLCK : Z := 1.
Definition F_UNLCK : Z := 2.

Record PosixLockRecord := LockRec {
  lk_owner : Z;
  lk_typ : Z;
  lk_start : Z;
  lk_end : option Z;
  lk_pid : Z;
}.

#[export] Instance PosixLockRecord_eq_dec : EqDecision PosixLockRecord.
Proof. solve_decision. Defined.

(** ** Conflicts *)

Definition posix_lock_type_conflicts (existing requested : Z) : bool :=
  if requested =? F_RDLCK then existing =? F_WRLCK
  else if requested =? F_WRLCK then (existing =? F_RDLCK) || (existing =? F_WRLCK)
  else false.

Definition range_overlaps (start_a : Z) (end_a : option Z) (start_b : Z) (end_b : option Z) : bool :=
  let end_a := default U64_MAX end_a in
  let end_b := default U64_MAX end_b in
  (start_a <=? end_b) && (start_b <=? end_a).

Fixpoint lock_conflict (records : list PosixLockRecord)
    (owner requested_type requested_start requested_end : Z) : option PosixLockRecord :=
  match records with
  | [] => None
  | record :: records =>
      let continue := lock_conflict records owner requested_type requested_start requested_end in
      if lk_owner record =? owner then continue
      else if negb (range_overlaps requested_start (Some requested_end)
                      (lk_start record) (lk_end record)) then continue
      else if posix_lock_type_conflicts (lk_typ record) requested_type then Some record
      else continue
  end.

(** ** Range update *)

(** What the loop of [update_owner_lock_range] pushes for one record. *)
Definition trim_lock_record (owner start end_ : Z) (record : PosixLockRecord) : list PosixLockRecord :=
  if negb (lk_owner record =? owner)
     || negb (range_overlaps start (Some end_) (lk_start record) (lk_end record))
  then [record]
  else
    let left :=
      if lk_start record <? start
      then [LockRec (lk_owner record) (lk_typ record) (lk_start record)
              (Some (wrap_sub start 1)) (lk_pid record)]
      else [] in
    let record_end := default U64_MAX (lk_end record) in
    let right :=
      if end_ <? record_end
      then [LockRec (lk_owner record) (lk_typ record) (wrap_add end_ 1)
              (lk_end record) (lk_pid record)]
      else [] in
    left ++ right.

Definition update_owner_lock_range (records : list PosixLockRecord) (owner start end_ : Z)
    (replacement : option PosixLockRecord) : list PosixLockRecord :=
  flat_map (trim_lock_record owner start end_) records ++ option_list replacement.

(** The decision taken on a table of records, by [update_pg_lock_range] inside
    its transaction and by [setlk] for the in-memory backend: [None] is a
    conflict. *)
Definition lock_transition (records : list PosixLockRecord) (owner start end_ typ pid : Z)
    : option (list PosixLockRecord) :=
  if negb (typ =? F_UNLCK) && bool_decide (is_Some (lock_conflict records owner typ start end_))
  then None
  else Some (update_owner_lock_range records owner start end_
               (if negb (typ =? F_UNLCK) then Some (LockRec owner typ start (Some end_) pid) else None)).

(** ** Text form *)

Definition lock_record_to_line (record : PosixLockRecord) : text :=
  join TAB [print_u (lk_owner record); print_i (lk_typ record); print_u (lk_start record);
            match lk_end record with Some value => print_u value | None => [] end;
            print_u (lk_pid record)].

Definition lock_records_to_blob (records : list PosixLockRecord) : text :=
  join NL (lock_record_to_line <$> records).

Definition lock_record_of_line (line : text) : option PosixLockRecord :=
  let parts := split TAB line in
  owner ← (parts !! 0%nat) ≫= parse_u64;
  typ ← (parts !! 1%nat) ≫= parse_i32;
  start ← (parts !! 2%nat) ≫= parse_u64;
  end_text ← parts !! 3%nat;
  end_ ← (if bool_decide (end_text = []) then Some None else Some <$> parse_u64 end_text);
  pid ← (match parts !! 4%nat with Some value => parse_u32 value | None => Some 0 end);
  if bool_decide (is_Some (parts !! 5%nat)) then None
  else if negb ((typ =? F_RDLCK) || (typ =? F_WRLCK))
          || (I64_MAX <? start)
          || match end_ with Some value => (I64_MAX <? value) || (value <? start) | None => false end
  then None
  else Some (LockRec owner typ start end_ pid).

(** The blob is the text PostgreSQL rows are joined into, which is ASCII, so
    that [String::from_utf8] succeeds. *)
Definition lock_records_from_blob (blob : text) : outcome Z (list PosixLockRecord) :=
  match mapM lock_record_of_line (lines blob) with
  | Some records => Ok records
  | None => Err EIO
  end.

(** ** The lock held at an offset *)

Definition lk_last (r : PosixLockRecord) : Z := default U64_MAX (lk_end r).

Definition lk_covers (r : PosixLockRecord) (x : Z) : bool := (lk_start r <=? x) && (x <=? lk_last r).

(** The locks [owner] holds at offset [x], as lock type and process id. *)
Definition lock_at (records : list PosixLockRecord) (owner x : Z) : list (Z * Z) :=
  omap (fun r => if (lk_owner r =? owner) && lk_covers r x then Some (lk_typ r, lk_pid r) else None)
       records.

Definition lock_wf (r : PosixLockRecord) : Prop :=
  0 <= lk_start r <= lk_last r /\ lk_last r <= U64_MAX /\ (lk_typ r = F_RDLCK \/ lk_typ r = F_WRLCK).

(** POSIX: an owner has one lock at an offset, two owners have compatible ones. *)
Definition locks_single (records : list PosixLockRecord) : Prop :=
  forall owner x, (length (lock_at records owner x) <= 1)%nat.

Definition locks_exclusive (records : list PosixLockRecord) : Prop :=
  forall o1 o2 x t1 t2, o1 <> o2 -> t1 ∈ lock_at records o1 x -> t2 ∈ lock_at records o2 x ->
    posix_lock_type_conflicts t1.1 t2.1 = false.

Record locks_ok (records : list PosixLockRecord) : Prop := {
  lo_wf : Forall lock_wf records;
  lo_single : locks_single records;
  lo_exclusive : locks_exclusive records;
}.

(** ** Lemmas *)

Lemma lock_at_nil o x : lock_at [] o x = [].
Proof. done. Qed.

Lemma lock_at_app rs rs' o x : lock_at (rs ++ rs') o x = lock_at rs o x ++ lock_at rs' o x.
Proof. unfold lock_at. by rewrite omap_app. Qed.

Lemma lock_at_cons r rs o x : lock_at (r :: rs) o x = lock_at [r] o x ++ lock_at rs o x.
Proof. apply (lock_at_app [r]). Qed.

Lemma lock_at_one r o x :
  lock_at [r] o x = if (lk_owner r =? o) && lk_covers r x then [(lk_typ r, lk_pid r)] else [].
Proof. unfold lock_at. cbn. by destruct (_ && _). Qed.

Lemma elem_of_lock_at rs o x t :
  t ∈ lock_at rs o x <->
  exists r, r ∈ rs /\ lk_owner r = o /\ lk_start r <= x <= lk_last r /\ t = (lk_typ r, lk_pid r).
Proof.
  unfold lock_at. rewrite list_elem_of_omap. split.
  - intros (r & Hr & Hx). exists r. unfold lk_covers in Hx.
    destruct (Z.eqb_spec (lk_owner r) o); [|done]. repeat zcase; try done. cbn in Hx. by simplify_eq.
  - intros (r & Hr & <- & Hx & ->). exists r. split; [done|]. rewrite Z.eqb_refl. unfold lk_covers.
    repeat zcase; try lia. done.
Qed.

Lemma range_overlaps_point s e r :
  s <= e -> lock_wf r -> range_overlaps s (Some e) (lk_start r) (lk_end r) = true ->
  exists x, s <= x <= e /\ lk_start r <= x <= lk_last r.
Proof.
  unfold range_overlaps, lock_wf. intros Hse Hwf H. change (default U64_MAX (lk_end r)) with (lk_last r) in H.
  cbn in H. exists (Z.max s (lk_start r)). lia.
Qed.

Lemma range_overlaps_false s e r x :
  range_overlaps s (Some e) (lk_start r) (lk_end r) = false ->
  s <= x <= e -> ~ (lk_start r <= x <= lk_last r).
Proof.
  unfold range_overlaps. change (default U64_MAX (lk_end r)) with (lk_last r). cbn. lia.
Qed.

(** [lock_conflict] finds a conflict exactly when there is one. *)
Lemma lock_conflict_Some rs owner typ s e r :
  lock_conflict rs owner typ s e = Some r ->
  r ∈ rs /\ lk_owner r <> owner /\ range_overlaps s (Some e) (lk_start r) (lk_end r) = true /\
  posix_lock_type_conflicts (lk_typ r) typ = true.
Proof.
  induction rs as [|r' rs IH]; [done|]. cbn [lock_conflict]. intros H.
  destruct (Z.eqb_spec (lk_owner r') owner); [specialize (IH H); set_solver|].
  destruct (range_overlaps s (Some e) (lk_start r') (lk_end r')) eqn:Hov; [|specialize (IH H); set_solver].
  destruct (posix_lock_type_conflicts (lk_typ r') typ) eqn:Ht; [|specialize (IH H); set_solver].
  cbn in H. simplify_eq. set_solver.
Qed.

Lemma lock_conflict_None rs owner typ s e r :
  lock_conflict rs owner typ s e = None -> r ∈ rs -> lk_owner r <> owner ->
  range_overlaps s (Some e) (lk_start r) (lk_end r) = true ->
  posix_lock_type_conflicts (lk_typ r) typ = false.
Proof.
  induction rs as [|r' rs IH]; [set_solver|]. cbn [lock_conflict]. intros H Hr Ho Hov.
  apply elem_of_cons in Hr as [<-|Hr].
  - destruct (Z.eqb_spec (lk_owner r) owner); [done|]. rewrite Hov in H. cbn in H.
    by destruct (posix_lock_type_conflicts (lk_typ r) typ).
  - apply IH; [|done..]. repeat case_match; done.
Qed.

(** One record, after the range [[s, e]] of [owner] was cleared. *)
Lemma trim_lock_record_at owner s e r o x :
  0 <= s <= e -> e <= U64_MAX -> lock_wf r ->
  lock_at (trim_lock_record owner s e r) o x =
    if decide (o = owner /\ s <= x <= e) then [] else lock_at [r] o x.
Proof.
  intros Hse He (Hr1 & Hr2 & _). unfold trim_lock_record.
  destruct (Z.eqb_spec (lk_owner r) owner) as [Ho|Ho]; cbn [negb orb].
  2: { rewrite lock_at_one. case_decide; [|done]. zcase; [lia|done]. }
  destruct (range_overlaps s (Some e) (lk_start r) (lk_end r)) eqn:Hov; cbn [negb].
  2: { rewrite lock_at_one. case_decide as Hd; [|done].
       pose proof (range_overlaps_false s e r x Hov ltac:(lia)).
       unfold lk_covers. repeat zcase; try lia; done. }
  assert (Hov' : s <= lk_last r /\ lk_start r <= e).
  { unfold range_overlaps in Hov. change (default U64_MAX (lk_end r)) with (lk_last r) in Hov. cbn in Hov. lia. }
  change (default U64_MAX (lk_end r)) with (lk_last r).
  assert (Hs1 : lk_start r < s -> wrap_sub s 1 = s - 1).
  { intros. unfold wrap_sub, wrap64. apply Z.mod_small. u64_lia. }
  assert (He1 : e < lk_last r -> wrap_add e 1 = e + 1).
  { intros. apply wrap_add_1. lia. }
  rewrite lock_at_app, lock_at_one, Ho.
  destruct (Z.ltb_spec (lk_start r) s) as [Hl|Hl]; destruct (Z.ltb_spec e (lk_last r)) as [Hg|Hg];
    rewrite ?lock_at_one, ?lock_at_nil; unfold lk_covers, lk_last in *;
    cbn [lk_owner lk_start lk_end lk_typ lk_pid default]; rewrite ?Hs1, ?He1 by done;
    destruct (Z.eqb_spec owner o); case_decide; repeat zcase; unfold id in *; cbn; try lia; done.
Qed.

Lemma update_owner_lock_range_at rs owner s e rep o x :
  0 <= s <= e -> e <= U64_MAX -> Forall lock_wf rs ->
  lock_at (update_owner_lock_range rs owner s e rep) o x =
    (if decide (o = owner /\ s <= x <= e) then [] else lock_at rs o x) ++ lock_at (option_list rep) o x.
Proof.
  intros Hse He Hwf. unfold update_owner_lock_range. rewrite lock_at_app. f_equal.
  induction rs as [|r rs IH]; [by case_decide|]. cbn [flat_map].
  apply Forall_cons in Hwf as [Hr Hwf]. rewrite lock_at_app, trim_lock_record_at, IH by done.
  rewrite (lock_at_cons r rs). by case_decide.
Qed.

Lemma trim_lock_record_wf owner s e r :
  0 <= s <= e -> e <= U64_MAX -> lock_wf r -> Forall lock_wf (trim_lock_record owner s e r).
Proof.
  intros Hse He (Hr1 & Hr2 & Ht). unfold trim_lock_record.
  destruct (negb _ || negb _) eqn:E; [by apply Forall_singleton|].
  change (default U64_MAX (lk_end r)) with (lk_last r).
  assert (Hs1 : lk_start r < s -> wrap_sub s 1 = s - 1).
  { intros. unfold wrap_sub, wrap64. apply Z.mod_small. u64_lia. }
  assert (He1 : e < lk_last r -> wrap_add e 1 = e + 1) by (intros; apply wrap_add_1; lia).
  apply Forall_app. split; zcase; constructor; try constructor;
    unfold lock_wf, lk_last in *; cbn [lk_owner lk_start lk_end lk_typ lk_pid default];
    rewrite ?Hs1, ?He1 by done; unfold id in *; u64_lia.
Qed.

Lemma posix_lock_type_conflicts_sym a b :
  a = F_RDLCK \/ a = F_WRLCK -> b = F_RDLCK \/ b = F_WRLCK ->
  posix_lock_type_conflicts a b = posix_lock_type_conflicts b a.
Proof. intros [-> | ->] [-> | ->]; done. Qed.

Lemma lock_at_type rs o x t : Forall lock_wf rs -> t ∈ lock_at rs o x -> t.1 = F_RDLCK \/ t.1 = F_WRLCK.
Proof.
  intros Hwf (r & Hr & _ & _ & ->)%elem_of_lock_at. rewrite Forall_forall in Hwf. apply (Hwf _ Hr).
Qed.

Lemma update_owner_lock_range_wf rs owner s e rep :
  0 <= s <= e -> e <= U64_MAX -> Forall lock_wf rs -> Forall lock_wf (option_list rep) ->
  Forall lock_wf (update_owner_lock_range rs owner s e rep).
Proof.
  intros Hse He Hwf Hrep. apply Forall_app. split; [|done].
  induction Hwf as [|r rs Hr Hwf IH]; [constructor|]. cbn [flat_map].
  apply Forall_app. split; [by apply trim_lock_record_wf|done].
Qed.

(** The records of the other owners are kept as they are. *)
Lemma update_owner_lock_range_others rs owner s e rep :
  Forall (fun r => lk_owner r = owner) (option_list rep) ->
  filter (fun r => lk_owner r <> owner) (update_owner_lock_range rs owner s e rep) =
  filter (fun r => lk_owner r <> owner) rs.
Proof.
  intros Hrep. unfold update_owner_lock_range. rewrite filter_app.
  replace (filter _ (option_list rep)) with (@nil PosixLockRecord).
  2: { destruct rep as [r|]; [|done]. change (option_list (Some r)) with [r] in *.
       rewrite Forall_singleton in Hrep. by rewrite filter_cons_False by tauto. }
  rewrite app_nil_r. induction rs as [|r rs IH]; [done|]. cbn [flat_map]. rewrite filter_app, IH.
  destruct (decide (lk_owner r = owner)) as [Ho|Ho].
  - rewrite (filter_cons_False _ r) by tauto. unfold trim_lock_record.
    destruct (Z.eqb_spec (lk_owner r) owner) as [_|]; [|done]. cbn [negb orb].
    destruct (range_overlaps s (Some e) (lk_start r) (lk_end r)); cbn [negb].
    + repeat case_match; cbn [app]; rewrite ?filter_cons_False by (cbn; tauto); done.
    + by rewrite filter_cons_False by tauto.
  - rewrite (filter_cons_True _ r) by done. unfold trim_lock_record.
    destruct (Z.eqb_spec (lk_owner r) owner); [done|]. cbn [negb orb].
    by rewrite filter_cons_True.
Qed.

(** A granted request, as a function on offsets. *)
Definition requested_lock (typ pid : Z) : list (Z * Z) :=
  if typ =? F_UNLCK then [] else [(typ, pid)].

Definition valid_lock_type (typ : Z) : Prop := typ = F_RDLCK \/ typ = F_WRLCK \/ typ = F_UNLCK.

Lemma lock_transition_at rs owner s e typ pid rs' o x :
  0 <= s <= e -> e <= U64_MAX -> Forall lock_wf rs ->
  lock_transition rs owner s e typ pid = Some rs' ->
  lock_at rs' o x =
    if decide (o = owner /\ s <= x <= e) then requested_lock typ pid else lock_at rs o x.
Proof.
  intros Hse He Hwf H. unfold lock_transition in H. case_match; [done|]. simplify_eq.
  rewrite update_owner_lock_range_at by done. unfold requested_lock.
  destruct (Z.eqb_spec typ F_UNLCK); cbn [negb].
  - change (option_list None) with (@nil PosixLockRecord). rewrite lock_at_nil, app_nil_r. done.
  - change (option_list (Some ?r)) with [r]. rewrite lock_at_one. unfold lk_covers, lk_last. cbn. unfold id.
    case_decide as Hd; repeat zcase; try lia; cbn; rewrite ?app_nil_r; done.
Qed.

Lemma lock_transition_wf rs owner s e typ pid rs' :
  0 <= s <= e -> e <= U64_MAX -> Forall lock_wf rs -> valid_lock_type typ ->
  lock_transition rs owner s e typ pid = Some rs' -> Forall lock_wf rs'.
Proof.
  intros Hse He Hwf Ht H. unfold lock_transition in H. case_match; [done|]. simplify_eq.
  apply update_owner_lock_range_wf; [done..|].
  destruct (Z.eqb_spec typ F_UNLCK); [constructor|].
  apply Forall_singleton. unfold lock_wf, lk_last, valid_lock_type in *. cbn. unfold id. lia.
Qed.

(** No other owner conflicts where the request was granted. *)
Lemma lock_transition_no_conflict rs owner s e typ pid rs' o x t :
  lock_transition rs owner s e typ pid = Some rs' -> typ <> F_UNLCK ->
  o <> owner -> s <= x <= e -> t ∈ lock_at rs o x -> posix_lock_type_conflicts t.1 typ = false.
Proof.
  intros H Ht Ho Hx (r & Hr & <- & Hrx & ->)%elem_of_lock_at. unfold lock_transition in H.
  destruct (Z.eqb_spec typ F_UNLCK); [done|]. cbn in H.
  destruct (lock_conflict rs owner typ s e) eqn:E; [done|].
  eapply lock_conflict_None; [exact E|done..|].
  unfold range_overlaps. change (default U64_MAX (lk_end r)) with (lk_last r). cbn. unfold id. lia.
Qed.

Lemma lock_transition_ok rs owner s e typ pid rs' :
  0 <= s <= e -> e <= U64_MAX -> valid_lock_type typ -> locks_ok rs ->
  lock_transition rs owner s e typ pid = Some rs' -> locks_ok rs'.
Proof.
  intros Hse He Ht [Hwf Hsingle Hexcl] H.
  assert (Hat : forall o x, lock_at rs' o x =
    if decide (o = owner /\ s <= x <= e) then requested_lock typ pid else lock_at rs o x)
    by (intros; by eapply lock_transition_at).
  assert (Hreq : forall t, t ∈ requested_lock typ pid -> t = (typ, pid) /\ typ <> F_UNLCK).
  { unfold requested_lock. intros t. zcase; set_solver. }
  split; [by eapply lock_transition_wf| |].
  - intros o x. rewrite Hat. case_decide; [unfold requested_lock; zcase; cbn; lia|apply Hsingle].
  - intros o1 o2 x t1 t2 Hne. rewrite !Hat. repeat case_decide; intros Hl1 Hl2.
    + lia.
    + apply Hreq in Hl1 as [-> Hu]. cbn [fst].
      rewrite posix_lock_type_conflicts_sym; [|unfold valid_lock_type in Ht; tauto|by eapply lock_at_type].
      eapply lock_transition_no_conflict; [exact H|done|..|exact Hl2]; [lia|lia].
    + apply Hreq in Hl2 as [-> Hu]. cbn [fst].
      eapply lock_transition_no_conflict; [exact H|done|..|exact Hl1]; [lia|lia].
    + by eapply (Hexcl o1 o2).
Qed.

Lemma lock_transition_conflict rs owner s e typ pid :
  s <= e -> Forall lock_wf rs -> lock_transition rs owner s e typ pid = None ->
  typ <> F_UNLCK /\
  exists o x t, o <> owner /\ s <= x <= e /\ t ∈ lock_at rs o x /\ posix_lock_type_conflicts t.1 typ = true.
Proof.
  intros Hse Hwf H. unfold lock_transition in H.
  destruct (Z.eqb_spec typ F_UNLCK); [done|]. split; [done|]. cbn in H.
  destruct (lock_conflict rs owner typ s e) as [r|] eqn:E; [|done].
  apply lock_conflict_Some in E as (Hr & Ho & Hov & Hc).
  rewrite Forall_forall in Hwf.
  destruct (range_overlaps_point s e r Hse (Hwf _ Hr) Hov) as (x & Hx & Hx').
  exists (lk_owner r), x, (lk_typ r, lk_pid r). split_and!; [done|lia|lia| |done].
  apply elem_of_lock_at. eauto.
Qed.

(** POSIX semantics of the lock table. On a table where every owner has at
    most one lock at an offset and different owners have compatible ones, a
    lock or unlock request either is refused, and then another owner holds an
    incompatible lock inside the range, or yields a table that satisfies the
    same rules and in which the owner holds exactly the requested lock inside
    the range (none after an unlock) while every lock at every other offset and
    of every other owner is unchanged. *)
Theorem lock_transition_posix rs owner s e typ pid :
  0 <= s <= e -> e <= U64_MAX -> valid_lock_type typ -> locks_ok rs ->
  match lock_transition rs owner s e typ pid with
  | None =>
      typ <> F_UNLCK /\
      exists o x t, o <> owner /\ s <= x <= e /\ t ∈ lock_at rs o x /\
        posix_lock_type_conflicts t.1 typ = true
  | Some rs' =>
      locks_ok rs' /\
      forall o x, lock_at rs' o x =
        if decide (o = owner /\ s <= x <= e) then requested_lock typ pid else lock_at rs o x
  end.
Proof.
  intros Hse He Ht Hok. destruct (lock_transition rs owner s e typ pid) as [rs'|] eqn:E.
  - split; [by eapply lock_transition_ok|]. intros o x.
    eapply lock_transition_at; [done|done|apply Hok|exact E].
  - eapply lock_transition_conflict; [lia|apply Hok|exact E].
Qed.

Definition sample_locks : list PosixLockRecord :=
  [LockRec 7 F_WRLCK 0 (Some 99) 41; LockRec 8 F_RDLCK 200 None 42].

Lemma locks_ok_disjoint (r1 r2 : PosixLockRecord) :
  lock_wf r1 -> lock_wf r2 -> lk_last r1 < lk_start r2 -> locks_ok [r1; r2].
Proof.
  intros H1 H2 Hlt. split; [by apply Forall_cons_2, Forall_singleton| |].
  - intros o x. rewrite lock_at_cons, !lock_at_one. unfold lk_covers.
    repeat zcase; cbn; lia.
  - intros o1 o2 x t1 t2 Hne. rewrite !elem_of_lock_at.
    intros (r & Hr & Hr1 & Hrx & _) (r' & Hr' & Hr2 & Hrx' & _). exfalso.
    set_unfold. destruct_or!; subst; lia.
Qed.

Lemma sample_locks_ok : locks_ok sample_locks.
Proof. apply locks_ok_disjoint; unfold lock_wf, lk_last; cbn; u64_lia. Qed.

Lemma lock_transition_posix_witness :
  exists rs', lock_transition sample_locks 7 10 19 F_UNLCK 41 = Some rs' /\ locks_ok rs' /\
    lock_at rs' 7 15 = [] /\ lock_at rs' 7 20 = [(F_WRLCK, 41)].
Proof.
  pose proof (lock_transition_posix sample_locks 7 10 19 F_UNLCK 41 ltac:(lia) ltac:(u64_lia)
    ltac:(right; by right) sample_locks_ok) as H.
  eexists. split; [reflexivity|]. destruct H as [Hok Hat]. split; [exact Hok|].
  split; apply Hat.
Defined.

(** ** Text round trip *)

(** What the PostgreSQL columns can hold. *)
Definition lock_storable (r : PosixLockRecord) : Prop :=
  is_u64 (lk_owner r) /\ (lk_typ r = F_RDLCK \/ lk_typ r = F_WRLCK) /\ 0 <= lk_start r <= I64_MAX /\
  match lk_end r with Some e => lk_start r <= e <= I64_MAX | None => True end /\
  0 <= lk_pid r < 2 ^ 32.

(** What the text form can carry. *)
Definition lock_printable (r : PosixLockRecord) : Prop :=
  is_u64 (lk_owner r) /\ (lk_typ r = F_RDLCK \/ lk_typ r = F_WRLCK) /\ is_u64 (lk_start r) /\
  match lk_end r with Some e => is_u64 e | None => True end /\ 0 <= lk_pid r < 2 ^ 32.

Lemma lock_storable_printable r : lock_storable r -> lock_printable r.
Proof.
  intros (? & ? & ? & ? & ?). unfold lock_printable. destruct (lk_end r); u64_lia.
Qed.

(** A printed number, or nothing, contains no separator. *)
Lemma digits_plain s : all_digits s -> TAB ∉ s /\ NL ∉ s /\ CR ∉ s.
Proof. intros. split_and!; apply digits_no_char; (done || lia). Qed.

Definition lock_fields (r : PosixLockRecord) : list text :=
  [print_u (lk_owner r); print_i (lk_typ r); print_u (lk_start r);
   match lk_end r with Some value => print_u value | None => [] end; print_u (lk_pid r)].

Lemma lock_fields_digits r : lock_printable r -> Forall all_digits (lock_fields r).
Proof.
  intros (Ho & Ht & Hs & He & Hp). unfold lock_fields, print_i.
  repeat apply Forall_cons_2; try apply Forall_nil_2.
  - apply print_u_digits. apply Ho.
  - destruct (Z.ltb_spec (lk_typ r) 0); [unfold F_RDLCK, F_WRLCK in *; lia|]. by apply print_u_digits.
  - apply print_u_digits. apply Hs.
  - destruct (lk_end r); [apply print_u_digits, He|constructor].
  - apply print_u_digits. lia.
Qed.

Lemma lock_line_plain r : lock_printable r -> plain_line (lock_record_to_line r).
Proof.
  intros H. pose proof (lock_fields_digits r H) as Hd.
  assert (Hno : forall c, c <> TAB -> Forall (fun p => c ∉ p) (lock_fields r) -> c ∉ lock_record_to_line r).
  { intros c Hc. unfold lock_record_to_line. change [print_u _; _; _; _; _] with (lock_fields r).
    generalize (lock_fields r). intros l Hl. induction Hl as [|p [|q l] Hp Hl IH]; [set_solver|done|].
    change (join TAB (p :: q :: l)) with (p ++ TAB :: join TAB (q :: l)). set_solver. }
  split_and!.
  - destruct (print_u_nonempty (lk_owner r)) as (c & s & E). unfold lock_record_to_line. by rewrite E.
  - apply Hno; [done|]. eapply Forall_impl; [exact Hd|]. intros p Hp. apply (digits_plain p Hp).
  - apply Hno; [done|]. eapply Forall_impl; [exact Hd|]. intros p Hp. apply (digits_plain p Hp).
Qed.

Lemma lock_line_roundtrip r : lock_storable r -> lock_record_of_line (lock_record_to_line r) = Some r.
Proof.
  intros H. pose proof (lock_fields_digits r (lock_storable_printable r H)) as Hd.
  destruct H as (Ho & Ht & Hs & He & Hp).
  unfold lock_record_of_line, lock_record_to_line. rewrite split_join; [|done|].
  2: { eapply Forall_impl; [exact Hd|]. intros p Hp'. apply (digits_plain p Hp'). }
  cbn [lookup list_lookup mbind option_bind].
  rewrite (parse_print_u64 (lk_owner r)) by done. cbn [mbind option_bind].
  rewrite parse_print_i32 by (destruct Ht as [-> | ->]; done). cbn [mbind option_bind].
  rewrite (parse_print_u64 (lk_start r)) by u64_lia. cbn [mbind option_bind].
  rewrite (parse_print_u32 (lk_pid r)) by done.
  assert (E : (if bool_decide ((match lk_end r with Some value => print_u value | None => [] end) = [])
    then Some None else Some <$> parse_u64 (match lk_end r with Some value => print_u value | None => [] end))
    = Some (lk_end r)).
  { destruct (lk_end r) as [e|]; [|done]. destruct (print_u_nonempty e) as (c & s & E).
    rewrite bool_decide_eq_false_2 by (by rewrite E). by rewrite parse_print_u64 by u64_lia. }
  rewrite E. cbn [mbind option_bind]. rewrite bool_decide_eq_false_2 by (intros [? ?]; done).
  destruct r as [o t s e p]; cbn [lk_owner lk_typ lk_start lk_end lk_pid] in *.
  destruct (negb _ || _ || _) eqn:B; [exfalso|done].
  destruct e; unfold F_RDLCK, F_WRLCK in *; lia.
Qed.

Lemma lock_record_of_line_storable line r : lock_record_of_line line = Some r -> lock_storable r.
Proof.
  unfold lock_record_of_line. intros (o & Ho & H)%bind_Some. apply bind_Some in H as (t & _ & H).
  apply bind_Some in H as (s & Hs & H). apply bind_Some in H as (et & _ & H).
  apply bind_Some in H as (e & He & H). apply bind_Some in H as (p & Hp & H).
  apply bind_Some in Ho as (? & _ & Ho%parse_u64_bounds).
  apply bind_Some in Hs as (? & _ & Hs%parse_u64_bounds).
  assert (Hp' : 0 <= p < 2 ^ 32) by (destruct (split TAB line !! 4%nat); [by eapply parse_u32_bounds|injection Hp as <-; lia]).
  case_match; [done|]. destruct (negb _ || _ || _) eqn:B; [done|]. simplify_eq.
  unfold lock_storable. cbn [lk_owner lk_typ lk_start lk_end lk_pid].
  split; [exact Ho|]. split; [unfold F_RDLCK, F_WRLCK in *; lia|]. split; [destruct Hs; lia|].
  split; [destruct e; [lia|done]|exact Hp'].
Qed.

Lemma lock_blob_decode rs : Forall lock_storable rs -> lock_records_from_blob (lock_records_to_blob rs) = Ok rs.
Proof.
  intros H. unfold lock_records_from_blob, lock_records_to_blob.
  rewrite lines_join by (apply Forall_fmap; eapply Forall_impl; [exact H|intros r Hr; by apply lock_line_plain, lock_storable_printable]).
  assert (E : mapM lock_record_of_line (lock_record_to_line <$> rs) = Some rs); [|by rewrite E].
  apply mapM_Some. induction H as [|r rs Hr H IH]; constructor; [by apply lock_line_roundtrip|done].
Qed.

(** Text round trip of lock records. Every table of storable records is
    read back from its text as it was written, and whatever text is accepted,
    its records are storable: types are read or write locks, ranges are
    non-empty and within the signed 64-bit offsets, owners and process ids are
    within their widths. *)
Theorem lock_blob_roundtrip :
  (forall rs, Forall lock_storable rs -> lock_records_from_blob (lock_records_to_blob rs) = Ok rs) /\
  (forall blob rs, lock_records_from_blob blob = Ok rs -> Forall lock_storable rs).
Proof.
  split; [apply lock_blob_decode|]. intros blob rs H. unfold lock_records_from_blob in H.
  destruct (mapM lock_record_of_line (lines blob)) as [rs'|] eqn:E; [|done]. simplify_eq.
  apply mapM_Some in E. induction E as [|l r ls rs Hr _ IH]; constructor; [|done].
  by eapply lock_record_of_line_storable.
Qed.

(** ** Records within the PostgreSQL columns *)

(** What a row written by this code holds: a bounded range within [BIGINT] and
    a process id within [INTEGER]. *)
Definition lock_column (r : PosixLockRecord) : Prop :=
  lock_wf r /\ is_u64 (lk_owner r) /\ is_Some (lk_end r) /\ lk_last r <= I64_MAX /\ 0 <= lk_pid r < 2 ^ 31.

Lemma lock_column_storable r : lock_column r -> lock_storable r.
Proof.
  intros ((Hr1 & Hr2 & Ht) & Ho & [e He] & Hl & Hp). unfold lock_storable, lk_last in *.
  rewrite He in *. cbn in *. unfold id in *. split_and!; try lia; try apply Ho; done.
Qed.

Lemma lock_wf_printable r : lock_wf r -> is_u64 (lk_owner r) -> 0 <= lk_pid r < 2 ^ 32 -> lock_printable r.
Proof.
  intros (Hr1 & Hr2 & Ht) Ho Hp. unfold lock_printable, lk_last in *.
  split; [done|]. split; [done|]. split; [u64_lia|]. split; [|done].
  destruct (lk_end r); cbn in *; unfold id in *; [u64_lia|done].
Qed.

(** The pieces of a record lie inside it and keep its other fields. *)
Lemma trim_lock_record_inside owner s e r r' :
  0 <= s <= e -> e <= U64_MAX -> lock_wf r -> r' ∈ trim_lock_record owner s e r ->
  lk_owner r' = lk_owner r /\ lk_pid r' = lk_pid r /\ lk_last r' <= lk_last r /\
  (is_Some (lk_end r) -> is_Some (lk_end r')).
Proof.
  intros Hse He (Hr1 & Hr2 & _). unfold trim_lock_record.
  destruct (negb _ || negb _) eqn:E; [intros ->%list_elem_of_singleton; done|].
  apply orb_false_iff in E as [_ E%negb_false_iff]. unfold range_overlaps in E.
  change (default U64_MAX (lk_end r)) with (lk_last r) in *. cbn [default from_option] in E. unfold id in E.
  assert (Hs1 : lk_start r < s -> wrap_sub s 1 = s - 1).
  { intros. unfold wrap_sub, wrap64. apply Z.mod_small. u64_lia. }
  intros [Hin|Hin]%elem_of_app; revert Hin; zcase; intros Hin; try (set_solver; fail);
    apply list_elem_of_singleton in Hin as ->; cbn; (split; [done|]; split; [done|]; split); try done.
  rewrite Hs1 by done. lia.
Qed.

Lemma lock_transition_column rs owner s e typ pid rs' :
  0 <= s <= e -> e <= U64_MAX -> is_u64 owner -> valid_lock_type typ ->
  (typ <> F_UNLCK -> e <= I64_MAX /\ 0 <= pid < 2 ^ 31) ->
  Forall lock_column rs -> lock_transition rs owner s e typ pid = Some rs' -> Forall lock_column rs'.
Proof.
  intros Hse He Ho Ht Hreq Hrs H.
  assert (Hwf : Forall lock_wf rs) by (eapply Forall_impl; [exact Hrs|]; intros r Hr; apply Hr).
  pose proof (lock_transition_wf _ _ _ _ _ _ _ Hse He Hwf Ht H) as Hwf'.
  unfold lock_transition in H. case_match; [done|]. simplify_eq.
  rewrite Forall_forall in *. intros r' Hr'. specialize (Hwf' r' Hr').
  apply elem_of_app in Hr' as [Hr'|Hr'].
  - apply list_elem_of_In, in_flat_map in Hr' as (r & Hr%list_elem_of_In & Hr'%list_elem_of_In).
    destruct (Hrs r Hr) as (Hw & Hro & Hre & Hrl & Hrp).
    destruct (trim_lock_record_inside _ _ _ _ _ Hse He Hw Hr') as (Eo & Ep & El & Ee).
    unfold lock_column. rewrite Eo, Ep. split; [exact Hwf'|]. split; [exact Hro|]. split; [auto|]. lia.
  - revert Hr'. destruct (Z.eqb_spec typ F_UNLCK); cbn [negb]; intros Hr'; [set_solver|].
    change (option_list (Some ?x)) with [x] in Hr'. apply list_elem_of_singleton in Hr' as ->.
    destruct (Hreq n) as [He' Hp']. unfold lock_column, lk_last. cbn. unfold id.
    split; [done|]. split; [done|]. split; [by eexists|]. lia.
Qed.
