(* ===== verification/LockStore.v ===== *)
(** * Record locks in PostgreSQL

    Model of the lease tables behind POSIX locks: [lock_range_leases] and
    [lock_wait_edges] with the operations of src/rust_hotpath/src/pg.rs; the
    handlers that use them are in LockHandlers.v. Every
    transaction takes the advisory lock of the wait graph first, so the
    operations of different mounts are executed one after the other; [now] is
    the transaction's [NOW()], in microseconds. *)

From stdpp Require Import prelude list numbers gmap strings sorting relations.
From Stdlib Require Import ZArith Lia Ascii.
From S2P Require Import Prelude Text Errno Locks.

#[local] Open Scope Z_scope.
Set Default Proof Using "Type".

(** ** Tables *)

(** A row of [lock_range_leases]. *)
Record RangeLease := RangeLeaseRow {
  rl_kind : text;
  rl_resource : Z;
  rl_session : Z;
  rl_lock : PosixLockRecord;
  rl_expires : Z;
}.

(** A process is a node of the wait-for graph: host name and process id. *)
Abbreviation node := (text * Z)%type.

(** A row of [lock_wait_edges]. *)
Record WaitEdge := WaitEdgeRow {
  we_waiter_session : Z;
  we_wait_id : Z;
  we_waiter_owner : Z;
  we_waiter : node;
  we_blocked_session : Z;
  we_blocked_owner : Z;
  we_blocked : node;
  we_expires : Z;
}.

(** The columns of [client_sessions] that the lock code reads. *)
Record ClientSession := ClientSessionRow {
  cs_host_name : text;
  cs_expires : Z;
}.

(** [ld_available] is false while PostgreSQL cannot be reached. *)
Record LockDb := {
  ld_leases : list RangeLease;
  ld_edges : list WaitEdge;
  ld_sessions : gmap Z ClientSession;
  ld_available : bool;
}.

Definition set_leases (ls : list RangeLease) (db : LockDb) : LockDb :=
  {| ld_leases := ls; ld_edges := ld_edges db; ld_sessions := ld_sessions db; ld_available := ld_available db |}.
Definition set_edges (es : list WaitEdge) (db : LockDb) : LockDb :=
  {| ld_leases := ld_leases db; ld_edges := es; ld_sessions := ld_sessions db; ld_available := ld_available db |}.

Definition seconds (n : Z) : Z := n * 1000000.

(** A transaction on a reachable server: its changes are kept if it returns [Ok]. *)
Definition lock_transaction {A} (body : LockDb -> outcome string (A * LockDb)) (db : LockDb)
    : outcome string A * LockDb :=
  if negb (ld_available db) then (Err "connection failed"%string, db)
  else match body db with
       | Ok (a, db') => (Ok a, db')
       | Err e => (Err e, db)
       | Panic => (Panic, db)
       end.

(** ** Reading the leases of a resource *)

Definition lease_on (kind : text) (resource_id : Z) (l : RangeLease) : bool :=
  bool_decide (rl_kind l = kind) && (rl_resource l =? resource_id).

Definition lease_live (now : Z) (l : RangeLease) : bool := now <? rl_expires l.

(** [ORDER BY owner_key, range_start, COALESCE(range_end, 9223372036854775807)]. *)
Definition lease_key (l : RangeLease) : Z * Z * Z :=
  (lk_owner (rl_lock l), lk_start (rl_lock l), default I64_MAX (lk_end (rl_lock l))).
Definition lease_le (a b : RangeLease) : Prop :=
  let '(o, s, e) := lease_key a in
  let '(o', s', e') := lease_key b in
  o < o' \/ (o = o' /\ (s < s' \/ (s = s' /\ e <= e'))).
#[export] Instance lease_le_dec : RelDecision lease_le.
Proof. intros a b. unfold lease_le. destruct (lease_key a) as [[? ?] ?], (lease_key b) as [[? ?] ?]. apply _. Defined.

Definition live_leases (kind : text) (resource_id now : Z) (db : LockDb) : list RangeLease :=
  filter (fun l => lease_on kind resource_id l && lease_live now l) (ld_leases db).

(** The text fields of the selected rows. *)
Definition lease_fields (l : RangeLease) : list text :=
  let r := rl_lock l in
  [print_u (lk_owner r); print_i (lk_typ r); print_u (lk_start r);
   match lk_end r with Some value => print_u value | None => [] end; print_u (lk_pid r)].

Definition lease_rows (kind : text) (resource_id now : Z) (db : LockDb) : list (list text) :=
  lease_fields <$> merge_sort lease_le (live_leases kind resource_id now db).

(** Rows joined by line feeds, fields by tabs. *)
Definition rows_blob (rows : list (list text)) : text := join NL (join TAB <$> rows).

Definition load_lock_range_state_blob (kind : text) (resource_id now : Z) (db : LockDb) : outcome string text :=
  if negb (ld_available db) then Err "connection failed"%string
  else Ok (rows_blob (lease_rows kind resource_id now db)).

(** ** Writing the leases of an owner *)

Definition owner_lease (kind : text) (resource_id session owner : Z) (l : RangeLease) : bool :=
  lease_on kind resource_id l && (rl_session l =? session) && (lk_owner (rl_lock l) =? owner).

(** [INSERT INTO lock_range_leases]: the numbers must fit the columns, which
    are [BIGINT] for the resource and the range and [INTEGER] for the rest. *)
Definition insert_range_lease (kind : text) (resource_id session owner lock_type range_start : Z)
    (range_end : option Z) (lock_pid expires : Z) : outcome string RangeLease :=
  if (resource_id <=? I64_MAX) && (range_start <=? I64_MAX)
     && match range_end with Some e => e <=? I64_MAX | None => true end
     && (lock_pid <? 2 ^ 31)
  then Ok (RangeLeaseRow kind resource_id session
             (LockRec owner lock_type range_start range_end lock_pid) expires)
  else Err "value out of range for its column type"%string.

Definition ok_or {E A} (e : E) (o : option A) : outcome E A :=
  match o with Some a => Ok a | None => Err e end.

(** One line of the payload of [update_lock_range_state_blob_for_owner]. *)
Definition owner_payload_lease (kind : text) (resource_id session owner expires : Z) (line : text)
    : outcome string RangeLease :=
  let fields := split TAB line in
  let line_owner := default [] (fields !! 0%nat) in
  lock_type ← ok_or "invalid lock type in owner payload"%string (parse_i32 (default [] (fields !! 1%nat)));
  range_start ← ok_or "invalid range start in owner payload"%string (parse_u64 (default [] (fields !! 2%nat)));
  let range_end := default [] (fields !! 3%nat) in
  lock_pid ← ok_or "invalid pid in owner payload"%string (parse_u32 (default (txt "0") (fields !! 4%nat)));
  if bool_decide (line_owner <> print_u owner) || bool_decide (is_Some (fields !! 5%nat))
  then Err "invalid owner in lock range payload"%string
  else
    range_end ← (if bool_decide (range_end = []) then Ok None
                 else ok_or "invalid range end in owner payload"%string (Some <$> parse_u64 range_end));
    insert_range_lease kind resource_id session owner lock_type range_start range_end lock_pid expires.

(** The rows inserted for a payload, in order; the first error ends the loop. *)
Fixpoint insert_payload (insert : text -> outcome string RangeLease) (payload : list text)
    : outcome string (list RangeLease) :=
  match payload with
  | [] => Ok []
  | line :: payload =>
      l ← insert line;
      ls ← insert_payload insert payload;
      Ok (l :: ls)
  end.

Definition update_lock_range_state_blob_for_owner (session : Z) (kind : text)
    (resource_id owner lease_ttl_seconds : Z) (update : text -> outcome string (option text)) (now : Z)
    : LockDb -> outcome string bool * LockDb :=
  lock_transaction (fun db =>
    payload ← update (rows_blob (lease_rows kind resource_id now db));
    match payload with
    | None => Ok (false, db)
    | Some owner_payload =>
        let kept := filter (fun l => negb (owner_lease kind resource_id session owner l)) (ld_leases db) in
        inserted ← insert_payload
          (owner_payload_lease kind resource_id session owner (now + seconds (Z.max lease_ttl_seconds 1)))
          (lines owner_payload);
        let edges := filter (fun e => negb ((we_blocked_session e =? session)
                                            && (we_blocked_owner e =? owner))) (ld_edges db) in
        Ok (true, set_edges edges (set_leases (kept ++ inserted) db))
    end).

(** One line of the payload of [replace_lock_range_state_blob_for_owner]; the
    number texts go to the server as they are and are read there. *)
Definition replace_payload_lease (kind : text) (resource_id session owner expires : Z) (line : text)
    : outcome string RangeLease :=
  let fields := split TAB line in
  payload_owner ← ok_or "invalid range state line"%string (fields !! 0%nat);
  lock_type ← ok_or "invalid range state line"%string (fields !! 1%nat);
  range_start ← ok_or "invalid range state line"%string (fields !! 2%nat);
  range_end ← ok_or "invalid range state line"%string (fields !! 3%nat);
  let lock_pid := default (txt "0") (fields !! 4%nat) in
  if bool_decide (is_Some (fields !! 5%nat)) then Err "invalid range state line"%string
  else if bool_decide (payload_owner <> print_u owner)
  then Err "owner mismatch in range state payload"%string
  else
    lock_pid ← ok_or "lock pid contains invalid value"%string (parse_u32 lock_pid);
    lock_type ← ok_or "invalid input syntax"%string (parse_i32 lock_type);
    range_start ← ok_or "invalid input syntax"%string (parse_i64 range_start);
    range_end ← (if bool_decide (range_end = []) then Ok None
                 else ok_or "invalid input syntax"%string (Some <$> parse_i64 range_end));
    insert_range_lease kind resource_id session owner lock_type range_start range_end lock_pid expires.

Definition replace_lock_range_state_blob_for_owner (session : Z) (kind : text)
    (resource_id owner lease_ttl_seconds : Z) (payload : text) (now : Z)
    : LockDb -> outcome string unit * LockDb :=
  lock_transaction (fun db =>
    let kept := filter (fun l => negb (owner_lease kind resource_id session owner l)) (ld_leases db) in
    if bool_decide (trim payload = []) then Ok (tt, set_leases kept db)
    else
      inserted ← insert_payload
        (replace_payload_lease kind resource_id session owner (now + seconds lease_ttl_seconds))
        (lines payload);
      Ok (tt, set_leases (kept ++ inserted) db)).

(** The heartbeat of one lease: no row is required to be live. *)
Definition heartbeat_lock_range_lease (session : Z) (kind : text) (resource_id owner range_start : Z)
    (range_end : option Z) (lease_ttl_seconds now : Z) : LockDb -> outcome string unit * LockDb :=
  lock_transaction (fun db =>
    Ok (tt, set_leases
      ((fun l => if owner_lease kind resource_id session owner l
                    && (lk_start (rl_lock l) =? range_start)
                    && bool_decide (lk_end (rl_lock l) = range_end)
                 then RangeLeaseRow (rl_kind l) (rl_resource l) (rl_session l) (rl_lock l)
                        (now + seconds lease_ttl_seconds)
                 else l) <$> ld_leases db) db)).

Definition delete_lock_range_leases_for_owner (session owner : Z) : LockDb -> outcome string unit * LockDb :=
  lock_transaction (fun db =>
    Ok (tt, set_leases (filter (fun l => negb ((rl_session l =? session)
                                               && (lk_owner (rl_lock l) =? owner))) (ld_leases db)) db)).

(** ** The wait-for graph *)

(** The owners whose live locks block a request, grouped as in the query. *)
Definition blocks_request (kind : text) (resource_id : Z) (waiter : node) (requested_lock_type
    range_start range_end now : Z) (db : LockDb) (l : RangeLease) : bool :=
  match ld_sessions db !! rl_session l with
  | None => false
  | Some session =>
      lease_on kind resource_id l && lease_live now l && (now <? cs_expires session)
      && negb (bool_decide (cs_host_name session = waiter.1) && (lk_pid (rl_lock l) =? waiter.2))
      && ((lk_typ (rl_lock l) =? 1) || (requested_lock_type =? 1))
      && (lk_start (rl_lock l) <=? range_end)
      && match lk_end (rl_lock l) with None => true | Some e => range_start <=? e end
  end.

Definition lease_host (db : LockDb) (l : RangeLease) : text :=
  from_option cs_host_name [] (ld_sessions db !! rl_session l).

Definition blockers (kind : text) (resource_id : Z) (waiter : node) (requested_lock_type
    range_start range_end now : Z) (db : LockDb) : list (Z * Z * node) :=
  remove_dups
    ((fun l => (rl_session l, lk_owner (rl_lock l), (lease_host db l, lk_pid (rl_lock l)))) <$>
     filter (blocks_request kind resource_id waiter requested_lock_type range_start range_end now db)
       (ld_leases db)).

(** [INSERT ... ON CONFLICT DO UPDATE] may not touch a row twice, so two rows
    with one key are an error. The primary key is the session and wait id of
    the waiter with the session and owner of the blocker; the rows of the
    waiter were deleted before, so no other conflict arises. *)
Definition insert_wait_edges (session wait_id owner : Z) (waiter : node) (expires : Z)
    (bs : list (Z * Z * node)) (edges : list WaitEdge) : outcome string (list WaitEdge) :=
  if bool_decide (NoDup (fst <$> bs))
  then Ok (edges ++ ((fun b => WaitEdgeRow session wait_id owner waiter b.1.1 b.1.2 b.2 expires) <$> bs))
  else Err "ON CONFLICT DO UPDATE command cannot affect row a second time"%string.

Definition own_wait (session wait_id : Z) (e : WaitEdge) : bool :=
  (we_waiter_session e =? session) && (we_wait_id e =? wait_id).

(** [WITH RECURSIVE ... UNION]: [working] holds the rows of the last round, a
    round keeps what is not yet in [result]. *)
Fixpoint recursive_union (fuel : nat) (edges : list WaitEdge) (result working : gset node) : gset node :=
  match fuel with
  | O => result
  | S fuel =>
      let next : gset node :=
        list_to_set (we_blocked <$> filter (fun e => bool_decide (we_waiter e ∈ working)) edges) ∖ result in
      if bool_decide (next = ∅) then result
      else recursive_union fuel edges (result ∪ next) next
  end.

Definition reachable_from_wait (session wait_id now : Z) (edges : list WaitEdge) : gset node :=
  let live := filter (fun e => now <? we_expires e) edges in
  let start : gset node := list_to_set (we_blocked <$> filter (own_wait session wait_id) live) in
  recursive_union (S (length live)) live start start.

Definition register_lock_wait_and_detect_deadlock (session : Z) (kind : text)
    (resource_id waiter_owner waiter_pid wait_id lock_type range_start range_end lease_ttl_seconds now : Z)
    : LockDb -> outcome string bool * LockDb :=
  let requested_lock_type := if lock_type =? 1 then 1 else 0 in
  let lease_ttl_seconds := Z.max lease_ttl_seconds 1 in
  lock_transaction (fun db =>
    waiter_host_name ← ok_or "PostgreSQL scalar query returned no rows where one value was required"%string
                         (cs_host_name <$> ld_sessions db !! session);
    let waiter : node := (trim waiter_host_name, waiter_pid) in
    let edges := filter (fun e => negb (we_expires e <=? now)) (ld_edges db) in
    let edges := filter (fun e => negb (own_wait session wait_id e)) edges in
    let bs := blockers kind resource_id waiter requested_lock_type range_start range_end now db in
    edges ← insert_wait_edges session wait_id waiter_owner waiter (now + seconds lease_ttl_seconds) bs edges;
    let has_cycle := bool_decide (waiter ∈ reachable_from_wait session wait_id now edges) in
    let edges := if has_cycle then filter (fun e => negb (own_wait session wait_id e)) edges else edges in
    Ok (has_cycle, set_edges edges db)).

Definition clear_lock_wait_edges (session wait_id : Z) : LockDb -> outcome string unit * LockDb :=
  lock_transaction (fun db =>
    Ok (tt, set_edges (filter (fun e => negb (own_wait session wait_id e)) (ld_edges db)) db)).

Definition clear_lock_wait_edges_for_owner (session owner : Z) : LockDb -> outcome string unit * LockDb :=
  lock_transaction (fun db =>
    Ok (tt, set_edges (filter (fun e =>
      negb (((we_waiter_session e =? session) && (we_waiter_owner e =? owner))
            || ((we_blocked_session e =? session) && (we_blocked_owner e =? owner)))) (ld_edges db)) db)).

(** ** Reachability in the wait-for graph *)

Definition waits_on (es : list WaitEdge) (a b : node) : Prop :=
  exists e, e ∈ es /\ we_waiter e = a /\ we_blocked e = b.

Definition acyclic (es : list WaitEdge) : Prop := forall n, ~ tc (waits_on es) n n.

Lemma waits_on_mono es es' a b : es ⊆ es' -> waits_on es a b -> waits_on es' a b.
Proof. intros Hsub (e & He & ? & ?). exists e. set_solver. Qed.

Lemma acyclic_mono es es' : es ⊆ es' -> acyclic es' -> acyclic es.
Proof.
  intros Hsub Hac n Hn. apply (Hac n). eapply (tc_congruence id); [|exact Hn].
  intros a b. by apply waits_on_mono.
Qed.

Definition blocked_nodes (es : list WaitEdge) : gset node := list_to_set (we_blocked <$> es).

Lemma elem_of_next (es : list WaitEdge) (working result : gset node) b :
  b ∈ (list_to_set (we_blocked <$> filter (fun e => bool_decide (we_waiter e ∈ working)) es) ∖ result : gset node)
  <-> b ∉ result /\ exists a, a ∈ working /\ waits_on es a b.
Proof.
  rewrite elem_of_difference, elem_of_list_to_set, list_elem_of_fmap. split.
  - intros [(e & -> & He) Hb]. apply list_elem_of_filter in He as [Hw He].
    split; [done|]. exists (we_waiter e). split; [by apply bool_decide_unpack in Hw|]. by exists e.
  - intros (Hb & a & Ha & e & He & <- & <-). split; [|done]. exists e. split; [done|].
    apply list_elem_of_filter. split; [by apply bool_decide_pack|done].
Qed.

Lemma rtc_closed {A} (R : A -> A -> Prop) (P : A -> Prop) a b :
  (forall x y, P x -> R x y -> P y) -> P a -> rtc R a b -> P b.
Proof. intros Hc Ha Hab. induction Hab; eauto. Qed.

(** With more rounds than nodes left, the union is the set of reachable nodes. *)
Lemma recursive_union_spec fuel : forall es (result working : gset node),
  working ⊆ result ->
  (forall a b, a ∈ result -> a ∉ working -> waits_on es a b -> b ∈ result) ->
  (size (blocked_nodes es ∖ result) < fuel)%nat ->
  forall n, n ∈ recursive_union fuel es result working <-> exists a, a ∈ result /\ rtc (waits_on es) a n.
Proof.
  induction fuel as [|fuel IH]; intros es result working Hsub Hclosed Hfuel n; [lia|].
  cbn [recursive_union].
  pose proof (elem_of_next es working result) as Hnext.
  set (next := list_to_set _ ∖ result) in *.
  case_bool_decide as Hempty.
  - split; [intros Hn; exists n; split; [done|apply rtc_refl]|].
    intros (a & Ha & Han). apply (rtc_closed (waits_on es) (fun x => x ∈ result) a); [|done..].
    intros x y Hx Hxy. destruct (decide (y ∈ result)) as [|Hy]; [done|].
    destruct (decide (x ∈ working)) as [Hw|Hw]; [|by eapply Hclosed].
    assert (y ∈ next) by (apply Hnext; eauto). set_solver.
  - rewrite IH; cycle 1.
    + set_solver.
    + intros a b Ha Hna Hab. apply elem_of_union in Ha as [Ha|Ha]; [|done].
      destruct (decide (b ∈ result)); [set_solver|].
      destruct (decide (a ∈ working)); [|set_solver].
      apply elem_of_union_r, Hnext. eauto.
    + assert (Hsz : blocked_nodes es ∖ (result ∪ next) ⊂ blocked_nodes es ∖ result).
      { apply set_choose_L in Hempty as [b Hb]. pose proof Hb as Hb'.
        apply Hnext in Hb' as (Hbr & a & _ & e & He & _ & <-).
        assert (we_blocked e ∈ blocked_nodes es).
        { apply elem_of_list_to_set, list_elem_of_fmap. eauto. }
        split; [set_solver|]. intros Hle. specialize (Hle (we_blocked e)). set_solver. }
      apply subset_size in Hsz. lia.
    + split; intros (a & Ha & Han); [|exists a; set_solver].
      apply elem_of_union in Ha as [Ha|Ha]; [by exists a|].
      apply Hnext in Ha as (_ & w & Hw & Hwa). exists w. split; [set_solver|]. by eapply rtc_l.
Qed.

Lemma size_list_to_set_le (l : list node) : (size (list_to_set l : gset node) <= length l)%nat.
Proof.
  induction l as [|x l IH]; cbn; [by rewrite size_empty|].
  rewrite size_union_alt, size_singleton.
  pose proof (subseteq_size (list_to_set l ∖ {[x]}) (list_to_set l : gset node) ltac:(set_solver)). lia.
Qed.

Lemma elem_of_reachable_from_wait session wait_id now es n :
  Forall (fun e => now < we_expires e) es ->
  n ∈ reachable_from_wait session wait_id now es <->
  exists e, e ∈ es /\ own_wait session wait_id e = true /\ rtc (waits_on es) (we_blocked e) n.
Proof.
  intros Hlive. unfold reachable_from_wait.
  replace (filter (fun e => now <? we_expires e) es) with es.
  2: { symmetry. apply filter_all. eapply Forall_impl; [exact Hlive|]. cbn. intros e He.
       apply Is_true_true. lia. }
  rewrite recursive_union_spec; [|done|done|].
  - split.
    + intros (a & Ha & Han). apply elem_of_list_to_set, list_elem_of_fmap in Ha as (e & -> & He).
      apply list_elem_of_filter in He as [Hw He]. exists e. split_and!; [done|by apply Is_true_true|done].
    + intros (e & He & Hw & Hn). exists (we_blocked e). split; [|done].
      apply elem_of_list_to_set, list_elem_of_fmap. exists e. split; [done|].
      apply list_elem_of_filter. split; [by apply Is_true_true|done].
  - assert (size (blocked_nodes es ∖ list_to_set (we_blocked <$> filter (own_wait session wait_id) es))
            <= size (blocked_nodes es))%nat by (apply subseteq_size; set_solver).
    pose proof (size_list_to_set_le (we_blocked <$> es)) as Hsz. rewrite length_fmap in Hsz.
    unfold blocked_nodes in *. lia.
Qed.

(** A path either stays in the old edges or passes a new one. *)
Lemma tc_new_edge es new a b :
  tc (waits_on (es ++ new)) a b ->
  tc (waits_on es) a b \/
  exists e, e ∈ new /\ rtc (waits_on (es ++ new)) a (we_waiter e) /\
    rtc (waits_on (es ++ new)) (we_blocked e) b.
Proof.
  induction 1 as [a b (e & He & <- & <-)|a b c (e & He & <- & <-) Hbc IH].
  - apply elem_of_app in He as [He|He].
    + left. apply tc_once. by exists e.
    + right. exists e. split_and!; [done|apply rtc_refl..].
  - apply elem_of_app in He as [He|He].
    + destruct IH as [IH|(e' & He' & H1 & H2)].
      * left. eapply tc_l; [|exact IH]. by exists e.
      * right. exists e'. split_and!; [done| |done]. eapply rtc_l; [|exact H1]. exists e. set_solver.
    + right. exists e. split_and!; [done|apply rtc_refl|by apply tc_rtc].
Qed.

(** Adding the edges of one waiter that no blocker reaches keeps the graph acyclic. *)
Lemma acyclic_add es new w :
  acyclic es -> Forall (fun e => we_waiter e = w) new ->
  (forall e, e ∈ new -> ~ rtc (waits_on (es ++ new)) (we_blocked e) w) ->
  acyclic (es ++ new).
Proof.
  intros Hac Hw Hno n Hn. rewrite Forall_forall in Hw.
  destruct (tc_new_edge es new n n Hn) as [H|(e & He & H1 & H2)]; [by apply (Hac n)|].
  apply (Hno e He). rewrite <- (Hw e He). by etrans.
Qed.

(** Edges that start at [w] are not needed to reach [w]. *)
Lemma rtc_without_own es new w a :
  Forall (fun e => we_waiter e = w) new -> rtc (waits_on (es ++ new)) a w -> rtc (waits_on es) a w.
Proof.
  intros Hw. rewrite Forall_forall in Hw. induction 1 as [|a b c (e & He & <- & <-) _ IH]; [apply rtc_refl|].
  apply elem_of_app in He as [He|He].
  - eapply rtc_l; [|by apply IH]. by exists e.
  - rewrite (Hw e He). apply rtc_refl.
Qed.

(** The edges that a registration keeps. *)
Definition kept_edges (session wait_id now : Z) (db : LockDb) : list WaitEdge :=
  filter (fun e => negb (own_wait session wait_id e))
    (filter (fun e => negb (we_expires e <=? now)) (ld_edges db)).

Lemma kept_edges_spec session wait_id now db e :
  e ∈ kept_edges session wait_id now db <->
  e ∈ ld_edges db /\ now < we_expires e /\ own_wait session wait_id e = false.
Proof.
  unfold kept_edges. rewrite !list_elem_of_filter, !negb_True, !Is_true_false.
  intuition lia.
Qed.

Definition new_edges (session wait_id owner : Z) (waiter : node) (expires : Z) (bs : list (Z * Z * node))
    : list WaitEdge :=
  (fun b => WaitEdgeRow session wait_id owner waiter b.1.1 b.1.2 b.2 expires) <$> bs.

(** What the cycle query finds after the insertion. *)
Lemma cycle_query_spec session wait_id owner waiter ttl now bs db :
  0 < ttl ->
  let es := kept_edges session wait_id now db in
  let new := new_edges session wait_id owner waiter (now + seconds ttl) bs in
  waiter ∈ reachable_from_wait session wait_id now (es ++ new) <->
  exists b, b ∈ bs /\ rtc (waits_on es) b.2 waiter.
Proof.
  intros Httl es new.
  assert (Hown : Forall (fun e => we_waiter e = waiter) new) by (apply Forall_fmap, Forall_true; done).
  rewrite elem_of_reachable_from_wait.
  2: { apply Forall_app. split.
       - apply Forall_forall. intros e He%kept_edges_spec. lia.
       - apply Forall_fmap, Forall_true. intros b. cbn. unfold seconds. lia. }
  split.
  - intros (e & He & Hw & Hr). apply elem_of_app in He as [He|He].
    { apply kept_edges_spec in He as (_ & _ & ?). congruence. }
    apply list_elem_of_fmap in He as (b & -> & Hb). exists b. split; [done|].
    by eapply rtc_without_own.
  - intros (b & Hb & Hr). exists (WaitEdgeRow session wait_id owner waiter b.1.1 b.1.2 b.2 (now + seconds ttl)).
    split_and!.
    + apply elem_of_app. right. apply list_elem_of_fmap. eauto.
    + unfold own_wait. cbn. by rewrite !Z.eqb_refl.
    + cbn. eapply (rtc_congruence id); [|exact Hr]. intros x y. apply waits_on_mono. set_solver.
Qed.

Lemma register_run session kind id owner pid wait_id typ s e ttl now db r db' :
  register_lock_wait_and_detect_deadlock session kind id owner pid wait_id typ s e ttl now db = (Ok r, db') ->
  exists host,
    cs_host_name <$> ld_sessions db !! session = Some host /\
    let waiter : node := (trim host, pid) in
    let bs := blockers kind id waiter (if typ =? 1 then 1 else 0) s e now db in
    let es := kept_edges session wait_id now db in
    let new := new_edges session wait_id owner waiter (now + seconds (Z.max ttl 1)) bs in
    NoDup (fst <$> bs) /\
    r = bool_decide (waiter ∈ reachable_from_wait session wait_id now (es ++ new)) /\
    db' = set_edges (if r then filter (fun e => negb (own_wait session wait_id e)) (es ++ new) else es ++ new) db.
Proof.
  unfold register_lock_wait_and_detect_deadlock, lock_transaction.
  destruct (ld_available db); [|done]. cbn [negb].
  destruct (cs_host_name <$> ld_sessions db !! session) as [host|]; [|done]. cbn [ok_or mbind outcome_bind].
  fold (kept_edges session wait_id now db). unfold insert_wait_edges.
  case_bool_decide as Hnd; [|done]. cbn [mbind outcome_bind]. intros [= <- <-].
  exists host. split_and!; done.
Qed.

Lemma register_acyclic session kind id owner pid wait_id typ s e ttl now db r db' :
  register_lock_wait_and_detect_deadlock session kind id owner pid wait_id typ s e ttl now db = (Ok r, db') ->
  acyclic (ld_edges db) -> acyclic (ld_edges db').
Proof.
  intros H Hac. apply register_run in H as (host & Hhost & Hnd & Hr & ->).
  pose proof (cycle_query_spec session wait_id owner (trim host, pid) (Z.max ttl 1) now
    (blockers kind id (trim host, pid) (if typ =? 1 then 1 else 0) s e now db) db ltac:(lia)) as Hq.
  cbv zeta in Hq. cbn [set_edges ld_edges].
  set (es := kept_edges session wait_id now db) in *. set (new := new_edges _ _ _ _ _ _) in *.
  assert (Hes : acyclic es).
  { eapply acyclic_mono; [|exact Hac]. intros x Hx%kept_edges_spec. tauto. }
  destruct r.
  - eapply acyclic_mono; [|exact Hes]. intros x [Hx Hin]%list_elem_of_filter.
    apply elem_of_app in Hin as [Hin|Hin]; [done|]. apply list_elem_of_fmap in Hin as (b & -> & _).
    exfalso. unfold own_wait in Hx. cbn in Hx. by rewrite !Z.eqb_refl in Hx.
  - symmetry in Hr. apply bool_decide_eq_false in Hr.
    apply (acyclic_add es new (trim host, pid)); [done|apply Forall_fmap, Forall_true; done|].
    intros x Hx Hreach. apply Hr, Hq. apply list_elem_of_fmap in Hx as (b & -> & Hb).
    exists b. split; [done|]. eapply rtc_without_own; [|exact Hreach]. apply Forall_fmap, Forall_true; done.
Qed.

(** C16: Deadlock detection. When a registration of a waiting request returns,
    it answers that there is a deadlock exactly when one of the blocking
    processes waits, directly or through others, for the requesting process;
    the wait-for graph stays acyclic; the leases are unchanged. The rounds of
    the recursive query are bounded by the number of edges. *)
Theorem register_detects_deadlock session kind id owner pid wait_id typ s e ttl now db r db' :
  register_lock_wait_and_detect_deadlock session kind id owner pid wait_id typ s e ttl now db = (Ok r, db') ->
  acyclic (ld_edges db) ->
  exists host, cs_host_name <$> ld_sessions db !! session = Some host /\
    (r = true <-> exists b,
       b ∈ blockers kind id (trim host, pid) (if typ =? 1 then 1 else 0) s e now db /\
       rtc (waits_on (kept_edges session wait_id now db)) b.2 (trim host, pid)) /\
    acyclic (ld_edges db') /\ ld_leases db' = ld_leases db.
Proof.
  intros H Hac. pose proof (register_acyclic _ _ _ _ _ _ _ _ _ _ _ _ _ _ H Hac) as Hac'.
  apply register_run in H as (host & Hhost & Hnd & Hr & ->).
  exists host. split; [done|].
  pose proof (cycle_query_spec session wait_id owner (trim host, pid) (Z.max ttl 1) now
    (blockers kind id (trim host, pid) (if typ =? 1 then 1 else 0) s e now db) db ltac:(lia)) as Hq.
  cbv zeta in Hq. rewrite <- Hq. split; [subst r; by rewrite bool_decide_eq_true|done].
Qed.

(** ** Updating the ranges of an owner *)

(** The lock records of a resource that are live at [now]. *)
Definition live_locks (kind : text) (resource_id now : Z) (db : LockDb) : list PosixLockRecord :=
  rl_lock <$> live_leases kind resource_id now db.

(** The rows as they are selected, in the order of the query. *)
Definition loaded_locks (kind : text) (resource_id now : Z) (db : LockDb) : list PosixLockRecord :=
  rl_lock <$> merge_sort lease_le (live_leases kind resource_id now db).

Lemma loaded_locks_perm kind id now db : loaded_locks kind id now db ≡ₚ live_locks kind id now db.
Proof. unfold loaded_locks, live_locks. by rewrite merge_sort_Permutation. Qed.

Lemma rows_blob_locks kind id now db :
  rows_blob (lease_rows kind id now db) = lock_records_to_blob (loaded_locks kind id now db).
Proof.
  unfold rows_blob, lock_records_to_blob, lease_rows, loaded_locks. f_equal.
  rewrite <- !list_fmap_compose. done.
Qed.

(** Every stored record can be read back. *)
Definition leases_storable (db : LockDb) : Prop :=
  Forall (fun l => lock_storable (rl_lock l)) (ld_leases db).

Lemma live_locks_storable kind id now db :
  leases_storable db -> Forall lock_storable (live_locks kind id now db).
Proof.
  intros H. apply Forall_fmap. unfold live_leases, leases_storable in *.
  rewrite Forall_forall in *. intros l [_ Hl]%list_elem_of_filter. by apply H.
Qed.

Lemma loaded_locks_decode kind id now db :
  leases_storable db ->
  lock_records_from_blob (rows_blob (lease_rows kind id now db)) = Ok (loaded_locks kind id now db).
Proof.
  intros H. rewrite rows_blob_locks. apply lock_blob_decode.
  rewrite loaded_locks_perm. by apply live_locks_storable.
Qed.

#[export] Instance lock_at_perm : Proper ((≡ₚ) ==> (=) ==> (=) ==> (≡ₚ)) lock_at.
Proof. intros rs rs' H o ? <- x ? <-. unfold lock_at. by rewrite H. Qed.

Lemma locks_ok_perm rs rs' : rs ≡ₚ rs' -> locks_ok rs -> locks_ok rs'.
Proof.
  intros Hp [Hwf Hs He]. split.
  - by rewrite <- Hp.
  - intros o x. rewrite <- Hp. apply Hs.
  - intros o1 o2 x t1 t2. rewrite <- Hp. apply He.
Qed.

(** The update that [update_pg_lock_range] runs inside the transaction. *)
Definition pg_lock_update (owner start end_ typ pid : Z) (state : text) : outcome string (option text) :=
  match lock_records_from_blob state with
  | Err _ => Err "invalid lock state"%string
  | Panic => Panic
  | Ok records =>
      match lock_transition records owner start end_ typ pid with
      | None => Ok None
      | Some records => Ok (Some (lock_records_to_blob (filter (fun r => lk_owner r = owner) records)))
      end
  end.

(** Every row is one this code writes, and owner keys belong to one session. *)
Definition leases_ok (sess : Z -> Z) (db : LockDb) : Prop :=
  Forall (fun l => lock_column (rl_lock l) /\ rl_session l = sess (lk_owner (rl_lock l))) (ld_leases db).

Lemma leases_ok_storable sess db : leases_ok sess db -> leases_storable db.
Proof. intros H. eapply Forall_impl; [exact H|]. cbn. intros l [Hl _]. by apply lock_column_storable. Qed.

Lemma live_locks_column sess kind id now db :
  leases_ok sess db -> Forall lock_column (live_locks kind id now db).
Proof.
  intros H. apply Forall_fmap. unfold live_leases, leases_ok in *. rewrite Forall_forall in *.
  intros l [_ Hl]%list_elem_of_filter. by apply H.
Qed.

Definition lease_of (kind : text) (id session expires : Z) (r : PosixLockRecord) : RangeLease :=
  RangeLeaseRow kind id session r expires.

Lemma owner_payload_line kind id session expires r :
  lock_printable r ->
  owner_payload_lease kind id session (lk_owner r) expires (lock_record_to_line r) =
  insert_range_lease kind id session (lk_owner r) (lk_typ r) (lk_start r) (lk_end r) (lk_pid r) expires.
Proof.
  intros H. pose proof (lock_fields_digits r H) as Hd. destruct H as (Ho & Ht & Hs & He & Hp).
  unfold owner_payload_lease, lock_record_to_line. rewrite split_join; [|done|].
  2: { eapply Forall_impl; [exact Hd|]. intros p Hp'. apply (digits_plain p Hp'). }
  cbn [lookup list_lookup default from_option]. unfold Datatypes.id.
  rewrite parse_print_i32 by (destruct Ht as [-> | ->]; done). cbn [ok_or mbind outcome_bind].
  rewrite (parse_print_u64 (lk_start r)) by done. cbn [ok_or mbind outcome_bind].
  rewrite (parse_print_u32 (lk_pid r)) by done. cbn [ok_or mbind outcome_bind].
  rewrite bool_decide_eq_false_2 by (intros []; done).
  rewrite bool_decide_eq_false_2 by (intros [? ?]; done). cbn [orb].
  destruct (lk_end r) as [e|]; [|done]. destruct (print_u_nonempty e) as (c & s & E).
  rewrite bool_decide_eq_false_2 by (by rewrite E). rewrite parse_print_u64 by done. done.
Qed.

Lemma insert_range_lease_ok kind id session r expires :
  id <= I64_MAX -> lock_column r ->
  insert_range_lease kind id session (lk_owner r) (lk_typ r) (lk_start r) (lk_end r) (lk_pid r) expires
  = Ok (lease_of kind id session expires r).
Proof.
  intros Hid ((Hr1 & Hr2 & Ht) & Ho & [e He] & Hl & Hp). unfold insert_range_lease, lk_last in *.
  rewrite He in *. cbn in Hr1, Hr2, Hl. unfold Datatypes.id in *.
  replace (_ && _) with true by lia. unfold lease_of. f_equal. f_equal. destruct r; cbn in *. by subst.
Qed.

Lemma insert_payload_ok kind id session owner expires rs :
  id <= I64_MAX -> Forall lock_column rs -> Forall (fun r => lk_owner r = owner) rs ->
  insert_payload (owner_payload_lease kind id session owner expires) (lock_record_to_line <$> rs)
  = Ok (lease_of kind id session expires <$> rs).
Proof.
  intros Hid Hrs Ho. induction Hrs as [|r rs Hr Hrs IH]; [done|].
  apply Forall_cons in Ho as [<- Ho]. cbn [fmap list_fmap insert_payload].
  rewrite owner_payload_line, insert_range_lease_ok by (done || by apply lock_storable_printable, lock_column_storable).
  cbn [mbind outcome_bind]. rewrite IH by done. done.
Qed.

(** The database after a granted request with the resulting table [rs]. *)
Definition granted_db (session : Z) (kind : text) (id owner ttl now : Z) (rs : list PosixLockRecord) (db : LockDb)
    : LockDb :=
  set_edges (filter (fun e => negb ((we_blocked_session e =? session) && (we_blocked_owner e =? owner))) (ld_edges db))
    (set_leases
      (filter (fun l => negb (owner_lease kind id session owner l)) (ld_leases db) ++
       (lease_of kind id session (now + seconds (Z.max ttl 1)) <$> filter (fun r => lk_owner r = owner) rs)) db).

(** A request that fits the columns. *)
Record request_ok (id owner s e typ pid : Z) : Prop := {
  rq_id : id <= I64_MAX;
  rq_range : 0 <= s <= e;
  rq_end : e <= U64_MAX;
  rq_owner_ok : is_u64 owner;
  rq_type : valid_lock_type typ;
  rq_columns : typ <> F_UNLCK -> e <= I64_MAX /\ 0 <= pid < 2 ^ 31;
}.

Lemma pg_update_run sess kind id owner ttl s e typ pid now db :
  request_ok id owner s e typ pid -> ld_available db = true -> leases_ok sess db ->
  update_lock_range_state_blob_for_owner (sess owner) kind id owner ttl (pg_lock_update owner s e typ pid) now db =
  match lock_transition (loaded_locks kind id now db) owner s e typ pid with
  | None => (Ok false, db)
  | Some rs => (Ok true, granted_db (sess owner) kind id owner ttl now rs db)
  end.
Proof.
  intros [Hid Hse He Ho Ht Hcol] Hav Hok.
  unfold update_lock_range_state_blob_for_owner, lock_transaction. rewrite Hav. cbn [negb].
  unfold pg_lock_update. rewrite loaded_locks_decode by (by eapply leases_ok_storable).
  destruct (lock_transition (loaded_locks kind id now db) owner s e typ pid) as [rs|] eqn:E; [|done].
  cbn [mbind outcome_bind].
  assert (Hrs : Forall lock_column rs).
  { apply (lock_transition_column (loaded_locks kind id now db) owner s e typ pid); [done..| |exact E].
    rewrite loaded_locks_perm. by eapply live_locks_column. }
  assert (Hf : Forall lock_column (filter (fun r => lk_owner r = owner) rs)).
  { rewrite Forall_forall in *. intros r [_ Hr]%list_elem_of_filter. by apply Hrs. }
  unfold lock_records_to_blob. rewrite lines_join.
  2: { apply Forall_fmap. eapply Forall_impl; [exact Hf|].
       intros r Hr. by apply lock_line_plain, lock_storable_printable, lock_column_storable. }
  rewrite insert_payload_ok; [done|done|done|].
  apply Forall_forall. intros r [Hr _]%list_elem_of_filter. done.
Qed.

Lemma live_leases_app kind id now ls ls' db :
  live_leases kind id now (set_leases (ls ++ ls') db) =
  live_leases kind id now (set_leases ls db) ++ live_leases kind id now (set_leases ls' db).
Proof. unfold live_leases. cbn [ld_leases set_leases]. by rewrite filter_app. Qed.

(** Leases of one owner on one resource do not count for another resource. *)
Lemma live_locks_granted_other session kind id owner ttl now rs db kind' id' t :
  (kind', id') <> (kind, id) ->
  live_locks kind' id' t (granted_db session kind id owner ttl now rs db) = live_locks kind' id' t db.
Proof.
  intros Hne. unfold live_locks, granted_db. f_equal.
  change (live_leases kind' id' t (set_edges ?es ?d)) with (live_leases kind' id' t d).
  rewrite live_leases_app.
  replace (live_leases kind' id' t (set_leases (lease_of _ _ _ _ <$> _) db)) with (@nil RangeLease).
  2: { symmetry. unfold live_leases. cbn [ld_leases set_leases]. generalize (filter (fun r => lk_owner r = owner) rs).
       intros l. induction l as [|r l IH]; [done|]. rewrite fmap_cons, filter_cons_False; [done|].
       unfold lease_on. cbn. rewrite andb_True. intros [H _]. apply Hne.
       apply andb_True in H as [->%bool_decide_unpack H]. f_equal. by apply Is_true_true, Z.eqb_eq in H. }
  rewrite app_nil_r. unfold live_leases. cbn [ld_leases set_leases].
  rewrite list_filter_filter. apply list_filter_iff. intros l.
  split; [tauto|]. intros Hl. split; [done|]. apply andb_True in Hl as [Hl _].
  unfold owner_lease. unfold lease_on in *. apply andb_True in Hl as [->%bool_decide_unpack Hl].
  apply Is_true_true, Z.eqb_eq in Hl as ->.
  replace (_ && (id' =? id)) with false; [done|]. symmetry. apply not_true_is_false. intros H.
  apply andb_true_iff in H as [H%bool_decide_eq_true H'%Z.eqb_eq]. congruence.
Qed.

(** The live records of the resource are those of the resulting table. *)
Lemma live_locks_granted sess kind id owner ttl now s e typ pid rs db :
  leases_ok sess db ->
  lock_transition (loaded_locks kind id now db) owner s e typ pid = Some rs ->
  live_locks kind id now (granted_db (sess owner) kind id owner ttl now rs db) ≡ₚ rs.
Proof.
  intros Hok H. unfold live_locks, granted_db.
  change (live_leases kind id now (set_edges ?es ?d)) with (live_leases kind id now d).
  rewrite live_leases_app, fmap_app.
  assert (E1 : rl_lock <$> live_leases kind id now (set_leases
      (filter (fun l => negb (owner_lease kind id (sess owner) owner l)) (ld_leases db)) db)
      = filter (fun r => lk_owner r <> owner) (live_locks kind id now db)).
  { unfold live_locks, live_leases. cbn [ld_leases set_leases].
    rewrite filter_fmap_comm, !list_filter_filter. f_equal. apply filter_ext_in. intros l Hl.
    unfold leases_ok in Hok. rewrite Forall_forall in Hok. destruct (Hok l Hl) as [_ Hs].
    unfold owner_lease. rewrite Hs, negb_True, !andb_True. unfold Is_true.
    destruct (lease_on kind id l), (lease_live now l); cbn; repeat zcase; try tauto; congruence. }
  rewrite E1.
  assert (E2 : rl_lock <$> live_leases kind id now (set_leases
      (lease_of kind id (sess owner) (now + seconds (Z.max ttl 1)) <$> filter (fun r => lk_owner r = owner) rs) db)
      = filter (fun r => lk_owner r = owner) rs).
  { unfold live_leases. cbn [ld_leases set_leases]. rewrite filter_all.
    - rewrite <- list_fmap_compose. apply list_fmap_id.
    - apply Forall_fmap, Forall_true. intros r. unfold lease_on, lease_live, seconds. cbn.
      rewrite bool_decide_eq_true_2, Z.eqb_refl by done. apply Is_true_true. lia. }
  rewrite E2, <- loaded_locks_perm.
  assert (E3 : filter (fun r => lk_owner r <> owner) rs =
               filter (fun r => lk_owner r <> owner) (loaded_locks kind id now db)).
  { unfold lock_transition in H. case_match; [done|]. simplify_eq. apply update_owner_lock_range_others.
    destruct (Z.eqb_spec typ F_UNLCK); [constructor|]. by apply Forall_singleton. }
  rewrite <- E3. rewrite (Permutation_app_comm (filter _ rs)). apply filter_app_complement.
Qed.

(** ** Histories of lock operations *)

Lemma insert_payload_inv f ls out :
  insert_payload f ls = Ok out -> forall line, line ∈ ls -> exists l, f line = Ok l.
Proof.
  revert out. induction ls as [|line ls IH]; intros out H x Hx; [set_solver|]. cbn in H.
  apply bind_Ok in H as (l & Hl & H). apply bind_Ok in H as (ls' & Hls & H).
  apply elem_of_cons in Hx as [->|Hx]; [by exists l|]. by eapply IH.
Qed.

(** A lock beyond the columns is never granted. *)
Lemma pg_update_beyond_columns sess kind id owner ttl s e typ pid now db db' :
  0 <= s <= e -> e <= U64_MAX -> is_u64 owner -> 0 <= pid < 2 ^ 32 -> valid_lock_type typ ->
  typ <> F_UNLCK -> I64_MAX < e \/ 2 ^ 31 <= pid -> leases_ok sess db ->
  update_lock_range_state_blob_for_owner (sess owner) kind id owner ttl (pg_lock_update owner s e typ pid) now db
    <> (Ok true, db').
Proof.
  intros Hse He Ho Hp Hty Ht Hbad Hok H.
  unfold update_lock_range_state_blob_for_owner, lock_transaction in H.
  destruct (ld_available db); [|done]. cbn [negb] in H.
  unfold pg_lock_update in H. rewrite loaded_locks_decode in H by (by eapply leases_ok_storable).
  destruct (lock_transition (loaded_locks kind id now db) owner s e typ pid) as [rs|] eqn:E; [|done].
  cbn [mbind outcome_bind] in H.
  assert (Hcol : Forall lock_column (loaded_locks kind id now db))
    by (rewrite loaded_locks_perm; by eapply live_locks_column).
  assert (Hwf : Forall lock_wf rs).
  { apply (lock_transition_wf (loaded_locks kind id now db) owner s e typ pid); [done|done| |done|exact E].
    eapply Forall_impl; [exact Hcol|]. intros r Hr. apply Hr. }
  unfold lock_transition in E. destruct (Z.eqb_spec typ F_UNLCK); [done|]. cbn [negb] in E.
  cbn [andb] in E. destruct (bool_decide _) in E; [done|]. injection E as <-.
  set (new := LockRec owner typ s (Some e) pid) in *.
  assert (Hpr : Forall lock_printable (filter (fun r => lk_owner r = owner)
      (update_owner_lock_range (loaded_locks kind id now db) owner s e (Some new)))).
  { rewrite Forall_forall in *. intros r [Hro Hr]%list_elem_of_filter.
    apply lock_wf_printable; [by apply Hwf|by rewrite Hro|].
    apply elem_of_app in Hr as [Hr|Hr].
    - apply list_elem_of_In, in_flat_map in Hr as (r0 & Hr0%list_elem_of_In & Hr%list_elem_of_In).
      destruct (Hcol r0 Hr0) as (Hw0 & _ & _ & _ & Hp0).
      destruct (trim_lock_record_inside _ _ _ _ _ Hse He Hw0 Hr) as (_ & -> & _). lia.
    - change (option_list (Some new)) with [new] in Hr. apply list_elem_of_singleton in Hr as ->. done. }
  unfold lock_records_to_blob in H. rewrite lines_join in H.
  2: { apply Forall_fmap. eapply Forall_impl; [exact Hpr|]. intros r Hr. by apply lock_line_plain. }
  destruct (insert_payload _ _) as [out| |] eqn:Eins; [|done|done].
  destruct (insert_payload_inv _ _ _ Eins (lock_record_to_line new)) as [l Hl].
  { apply list_elem_of_fmap. exists new. split; [done|]. apply list_elem_of_filter. split; [done|].
    apply elem_of_app. right. by left. }
  change owner with (lk_owner new) in Hl.
  rewrite owner_payload_line in Hl.
  2: { rewrite Forall_forall in Hpr. apply Hpr, list_elem_of_filter. split; [done|].
       apply elem_of_app. right. by left. }
  unfold insert_range_lease in Hl. cbn [new lk_start lk_end lk_pid] in Hl.
  destruct (_ && _) eqn:B in Hl; [|done]. lia.
Qed.

(** One operation of some mount, or the passing of time. [sess] gives the
    session an owner key belongs to; a heartbeat is in time when the lease it
    renews has not expired. *)
Inductive lock_step (sess : Z -> Z) : Z * LockDb -> Z * LockDb -> Prop :=
| ls_time now now' db : now <= now' -> lock_step sess (now, db) (now', db)
| ls_update now db kind id owner ttl s e typ pid r db' :
    id <= I64_MAX -> 0 <= s <= e -> e <= U64_MAX -> is_u64 owner -> 0 <= pid < 2 ^ 32 -> valid_lock_type typ ->
    update_lock_range_state_blob_for_owner (sess owner) kind id owner ttl
      (pg_lock_update owner s e typ pid) now db = (r, db') ->
    lock_step sess (now, db) (now, db')
| ls_heartbeat now db kind id owner s e ttl r db' :
    (forall l, l ∈ ld_leases db -> owner_lease kind id (sess owner) owner l = true ->
       lk_start (rl_lock l) = s -> lk_end (rl_lock l) = e -> now < rl_expires l) ->
    heartbeat_lock_range_lease (sess owner) kind id owner s e ttl now db = (r, db') ->
    lock_step sess (now, db) (now, db')
| ls_delete_owner now db owner r db' :
    delete_lock_range_leases_for_owner (sess owner) owner db = (r, db') ->
    lock_step sess (now, db) (now, db')
| ls_register now db session kind id owner pid wait_id typ s e ttl r db' :
    register_lock_wait_and_detect_deadlock session kind id owner pid wait_id typ s e ttl now db = (r, db') ->
    lock_step sess (now, db) (now, db')
| ls_clear now db session wait_id r db' :
    clear_lock_wait_edges session wait_id db = (r, db') -> lock_step sess (now, db) (now, db')
| ls_clear_owner now db session owner r db' :
    clear_lock_wait_edges_for_owner session owner db = (r, db') -> lock_step sess (now, db) (now, db')
| ls_sessions now db sessions available :
    lock_step sess (now, db)
      (now, {| ld_leases := ld_leases db; ld_edges := ld_edges db; ld_sessions := sessions; ld_available := available |}).

Record lock_inv (sess : Z -> Z) (now : Z) (db : LockDb) : Prop := {
  li_leases : leases_ok sess db;
  li_locks : forall kind id, locks_ok (live_locks kind id now db);
  li_acyclic : acyclic (ld_edges db);
}.

(** A failed transaction changes nothing. *)
Lemma lock_transaction_inv {A} (body : LockDb -> outcome string (A * LockDb)) db r db' :
  lock_transaction body db = (r, db') -> db' = db \/ exists a, r = Ok a /\ body db = Ok (a, db').
Proof.
  unfold lock_transaction. destruct (ld_available db); cbn [negb]; [|intros [= <- <-]; by left].
  destruct (body db) as [[a d]| |]; intros [= <- <-]; [right; by exists a|by left..].
Qed.

(** Fewer records satisfy the rules if more do. *)
Lemma lock_at_sublist rs rs' o x : sublist rs rs' -> sublist (lock_at rs o x) (lock_at rs' o x).
Proof.
  intros H. unfold lock_at. induction H as [|r rs rs' H IH|r rs rs' H IH]; [constructor|..]; cbn.
  - case_match; [by constructor|done].
  - case_match; [by constructor|done].
Qed.

Lemma locks_ok_sublist rs rs' : sublist rs rs' -> locks_ok rs' -> locks_ok rs.
Proof.
  intros Hsub [Hwf Hs He]. split.
  - rewrite Forall_forall in *. intros r Hr. apply Hwf. by eapply sublist_subseteq.
  - intros o x. pose proof (sublist_length _ _ (lock_at_sublist _ _ o x Hsub)). specialize (Hs o x). lia.
  - intros o1 o2 x t1 t2 Hne Ht1 Ht2. apply (He o1 o2 x); [done|..].
    + by apply (sublist_subseteq _ _ (lock_at_sublist _ _ o1 x Hsub)).
    + by apply (sublist_subseteq _ _ (lock_at_sublist _ _ o2 x Hsub)).
Qed.

Lemma live_locks_sublist kind id now now' ls db :
  now <= now' -> sublist ls (ld_leases db) ->
  sublist (live_locks kind id now' (set_leases ls db)) (live_locks kind id now db).
Proof.
  intros Hle Hsub. unfold live_locks, live_leases. cbn [ld_leases set_leases]. apply fmap_sublist.
  induction Hsub as [|l ls ls' H IH|l ls ls' H IH]; [constructor|..]; rewrite !filter_cons.
  - assert (Hl : lease_live now' l -> lease_live now l)
      by (unfold lease_live; rewrite !Is_true_true; lia).
    repeat case_decide; rewrite ?andb_True in *; first [by constructor|done|tauto].
  - case_decide; [by constructor|done].
Qed.

Lemma lock_inv_shrink sess now now' ls es sessions available db :
  now <= now' -> sublist ls (ld_leases db) -> es ⊆ ld_edges db -> lock_inv sess now db ->
  lock_inv sess now' {| ld_leases := ls; ld_edges := es; ld_sessions := sessions; ld_available := available |}.
Proof.
  intros Hle Hls Hes [Hok Hlocks Hac]. split.
  - unfold leases_ok in *. cbn [ld_leases]. rewrite Forall_forall in *. intros l Hl. apply Hok.
    by eapply sublist_subseteq.
  - intros kind id. eapply locks_ok_sublist; [|apply (Hlocks kind id)]. by apply live_locks_sublist.
  - by eapply acyclic_mono.
Qed.

(** A heartbeat in time leaves the live records as they are. *)
Lemma heartbeat_live_locks sess kind id owner s e ttl now db kind' id' :
  (forall l, l ∈ ld_leases db -> owner_lease kind id (sess owner) owner l = true ->
     lk_start (rl_lock l) = s -> lk_end (rl_lock l) = e -> now < rl_expires l) ->
  forall ls, ls = ((fun l => if owner_lease kind id (sess owner) owner l
                    && (lk_start (rl_lock l) =? s) && bool_decide (lk_end (rl_lock l) = e)
                 then RangeLeaseRow (rl_kind l) (rl_resource l) (rl_session l) (rl_lock l) (now + seconds ttl)
                 else l) <$> ld_leases db) ->
  sublist (live_locks kind' id' now (set_leases ls db)) (live_locks kind' id' now db) /\
  (leases_ok sess db -> leases_ok sess (set_leases ls db)).
Proof.
  intros Htime ls ->. unfold live_locks, live_leases, leases_ok. cbn [ld_leases set_leases].
  induction (ld_leases db) as [|l ls IH]; [split; [constructor|done]|].
  destruct IH as [IH1 IH2]; [intros x Hx; apply Htime; by right|]. rewrite fmap_cons. split.
  - rewrite !filter_cons. destruct (_ && bool_decide _) eqn:E.
    + assert (Hlive : now < rl_expires l).
      { apply andb_true_iff in E as [E E'%bool_decide_eq_true]. apply andb_true_iff in E as [E Es%Z.eqb_eq].
        apply Htime; [by left|done|done|done]. }
      assert (Hlv : lease_live now l = true) by (unfold lease_live; lia).
      clear E. case_decide as Hd; case_decide as Hd'; rewrite ?fmap_cons; cbn [rl_lock];
        [by apply sublist_skip| |by apply sublist_cons|done].
      exfalso. apply Hd'. apply andb_True in Hd as [Hd _]. apply andb_True. split; [exact Hd|by rewrite Hlv].
    + clear E. case_decide; rewrite ?fmap_cons; [by constructor|done].
  - intros [Hl Hls]%Forall_cons. constructor; [by destruct (_ && bool_decide _)|by apply IH2].
Qed.

Lemma granted_leases_ok sess kind id owner ttl s e typ pid now rs db :
  request_ok id owner s e typ pid -> leases_ok sess db ->
  lock_transition (loaded_locks kind id now db) owner s e typ pid = Some rs ->
  leases_ok sess (granted_db (sess owner) kind id owner ttl now rs db).
Proof.
  intros [Hid Hse He Ho Ht Hfit] Hok E.
  assert (Hcol : Forall lock_column rs).
  { apply (lock_transition_column (loaded_locks kind id now db) owner s e typ pid); [done..| |exact E].
    rewrite loaded_locks_perm. by eapply live_locks_column. }
  unfold leases_ok, granted_db in *. cbn [ld_leases set_leases set_edges]. apply Forall_app. split.
  - rewrite Forall_forall in *. intros l [_ Hl]%list_elem_of_filter. by apply Hok.
  - apply Forall_fmap, Forall_forall. intros r [Hro Hr]%list_elem_of_filter. cbn. rewrite Hro.
    split; [|done]. rewrite Forall_forall in Hcol. by apply Hcol.
Qed.

(** A request that is granted or refused keeps the rules. *)
Lemma lock_update_inv sess kind id owner ttl s e typ pid now db r db' :
  id <= I64_MAX -> 0 <= s <= e -> e <= U64_MAX -> is_u64 owner -> 0 <= pid < 2 ^ 32 -> valid_lock_type typ ->
  update_lock_range_state_blob_for_owner (sess owner) kind id owner ttl (pg_lock_update owner s e typ pid) now db = (r, db') ->
  lock_inv sess now db -> lock_inv sess now db'.
Proof.
  intros Hid Hse He Ho Hp Ht Hup Hinv.
  destruct (decide (typ <> F_UNLCK /\ (I64_MAX < e \/ 2 ^ 31 <= pid))) as [[Hu Hbad]|Hfit].
  { pose proof Hup as Hup'. apply lock_transaction_inv in Hup' as [->|([|] & -> & Hbody)]; [done| |].
    - exfalso. by eapply (pg_update_beyond_columns sess kind id owner ttl s e typ pid now db db'); [..|apply Hinv|].
    - cbn beta in Hbody. apply bind_Ok in Hbody as ([payload|] & _ & Hbody); [|by injection Hbody as <-].
      by apply bind_Ok in Hbody as (ins & _ & [=]). }
  destruct (ld_available db) eqn:Hav.
  2: { unfold update_lock_range_state_blob_for_owner, lock_transaction in Hup. rewrite Hav in Hup.
       by injection Hup as <- <-. }
  destruct Hinv as [Hok Hlocks Hac].
  rewrite pg_update_run in Hup; [|split; [done..|lia]|done|done].
  destruct (lock_transition (loaded_locks kind id now db) owner s e typ pid) as [rs|] eqn:E;
    injection Hup as <- <-; [|done].
  split.
  - apply (granted_leases_ok sess kind id owner ttl s e typ pid); [|done|done]. split; [done..|lia].
  - intros kind' id'. destruct (decide ((kind', id') = (kind, id))) as [[= -> ->]|Hne].
    + eapply locks_ok_perm; [symmetry; by eapply live_locks_granted|].
      apply (lock_transition_ok (loaded_locks kind id now db) owner s e typ pid); [done|done|done| |exact E].
      eapply locks_ok_perm; [symmetry; apply loaded_locks_perm|apply Hlocks].
    + rewrite live_locks_granted_other by done. apply Hlocks.
  - eapply acyclic_mono; [|exact Hac]. apply filter_sub.
Qed.

Lemma lock_step_inv sess st st' :
  lock_step sess st st' -> lock_inv sess st.1 st.2 -> lock_inv sess st'.1 st'.2.
Proof.
  destruct 1 as [now now' db Hle|now db kind id owner ttl s e typ pid r db' Hid Hse He Ho Hp Ht Hup
    |now db kind id owner s e ttl r db' Htime Hhb|now db owner r db' Hdel
    |now db session kind id owner pid wait_id typ s e ttl r db' Hreg
    |now db session wait_id r db' Hcl|now db session owner r db' Hcl|now db sessions available];
    cbn [fst snd]; intros Hinv.
  - destruct db. refine (lock_inv_shrink _ _ _ _ _ _ _ _ Hle _ _ Hinv); done.
  - refine (lock_update_inv sess kind id owner ttl s e typ pid now db r db' _ _ _ _ _ _ Hup Hinv); assumption.
  - apply lock_transaction_inv in Hhb as [->|(a & -> & [= _ <-])]; [done|].
    destruct Hinv as [Hok Hlocks Hac]. split; [|intros kind' id'|done].
    + by apply (heartbeat_live_locks sess kind id owner s e ttl now db kind id Htime _ eq_refl).
    + eapply locks_ok_sublist; [|apply (Hlocks kind' id')].
      by apply (heartbeat_live_locks sess kind id owner s e ttl now db kind' id' Htime _ eq_refl).
  - apply lock_transaction_inv in Hdel as [->|(a & -> & [= _ <-])]; [done|].
    refine (lock_inv_shrink sess now now _ _ _ _ db _ _ _ Hinv); [lia|apply sublist_filter|done].
  - destruct r as [r| |].
    + destruct Hinv as [Hok Hlocks Hac]. pose proof (register_acyclic _ _ _ _ _ _ _ _ _ _ _ _ _ _ Hreg Hac).
      apply register_run in Hreg as (host & _ & _ & _ & ->). split; done.
    + apply lock_transaction_inv in Hreg as [->|(a & ? & _)]; [done|discriminate].
    + apply lock_transaction_inv in Hreg as [->|(a & ? & _)]; [done|discriminate].
  - apply lock_transaction_inv in Hcl as [->|(a & -> & [= _ <-])]; [done|].
    refine (lock_inv_shrink sess now now _ _ _ _ db _ _ _ Hinv); [lia|done|apply filter_sub].
  - apply lock_transaction_inv in Hcl as [->|(a & -> & [= _ <-])]; [done|].
    refine (lock_inv_shrink sess now now _ _ _ _ db _ _ _ Hinv); [lia|done|apply filter_sub].
  - refine (lock_inv_shrink sess now now _ _ _ _ db _ _ _ Hinv); [lia|done|done].
Qed.

Lemma acyclic_nil : acyclic [].
Proof. intros n Hn. by destruct Hn as [? ? (e & He & _)|? ? ? (e & He & _)]; apply not_elem_of_nil in He. Qed.

Lemma lock_inv_reachable sess st st' :
  rtc (lock_step sess) st st' -> lock_inv sess st.1 st.2 -> lock_inv sess st'.1 st'.2.
Proof. induction 1 as [|st st1 st' Hstep _ IH]; [done|]. intros H. apply IH. by eapply lock_step_inv. Qed.

Definition empty_locks (sessions : gmap Z ClientSession) : LockDb :=
  {| ld_leases := []; ld_edges := []; ld_sessions := sessions; ld_available := true |}.

Lemma empty_locks_inv sess now sessions : lock_inv sess now (empty_locks sessions).
Proof.
  split; [constructor| |apply acyclic_nil]. intros kind id.
  split; [constructor|intros o x; cbn; lia|intros o1 o2 x t1 t2 _ H; by apply not_elem_of_nil in H].
Qed.


(** ** Sample histories *)

Definition FILE : text := txt "file".
Definition sample_session (owner : Z) : Z := owner * 10.
Definition sample_sessions : gmap Z ClientSession :=
  <[10 := ClientSessionRow (txt "alpha") (seconds 1000)]>
    {[20 := ClientSessionRow (txt "beta") (seconds 1000)]}.

(** A write lock requested by an owner of the sample sessions, for 30 seconds. *)
Definition sample_lock (owner id now : Z) (db : LockDb) : outcome string bool * LockDb :=
  update_lock_range_state_blob_for_owner (sample_session owner) FILE id owner 30
    (pg_lock_update owner 0 99 F_WRLCK owner) now db.


(** The lock of owner 1 on the first file, owner 2 on the second, owner 1 waits
    for the second, then owner 2 asks for the first. *)
Definition sample_held : LockDb := (sample_lock 2 6 0 (sample_lock 1 5 0 (empty_locks sample_sessions)).2).2.
Definition sample_waiting : LockDb :=
  (register_lock_wait_and_detect_deadlock 10 FILE 6 1 1 100 F_WRLCK 0 99 30 0 sample_held).2.

Lemma register_detects_deadlock_witness :
  acyclic (ld_edges sample_waiting) /\ length (ld_edges sample_waiting) = 1%nat /\
  (register_lock_wait_and_detect_deadlock 20 FILE 5 2 2 200 F_WRLCK 0 99 30 0 sample_waiting).1 = Ok true /\
  acyclic (ld_edges (register_lock_wait_and_detect_deadlock 20 FILE 5 2 2 200 F_WRLCK 0 99 30 0 sample_waiting).2).
Proof.
  assert (Hac : acyclic (ld_edges sample_waiting)).
  { eapply (register_acyclic 10 FILE 6 1 1 100 F_WRLCK 0 99 30 0 sample_held false); [reflexivity|apply acyclic_nil]. }
  split; [exact Hac|]. split; [reflexivity|]. split; [reflexivity|].
  edestruct (register_detects_deadlock 20 FILE 5 2 2 200 F_WRLCK 0 99 30 0 sample_waiting true
    (register_lock_wait_and_detect_deadlock 20 FILE 5 2 2 200 F_WRLCK 0 99 30 0 sample_waiting).2 ltac:(reflexivity) Hac)
    as (_ & _ & _ & H & _).
  exact H.
Defined.

(** A late heartbeat revives an expired lease. Owner 1 takes a write lock
    for 30 seconds; it expires and owner 2 is granted a write lock on the same
    range. The heartbeat of owner 1, which does not look at the expiry, then
    makes its lease live again, and both owners hold a live write lock at the
    same offset. *)
Theorem late_heartbeat_breaks_exclusion :
  exists db1 db2 db3,
    sample_lock 1 5 0 (empty_locks sample_sessions) = (Ok true, db1) /\
    sample_lock 2 5 (seconds 31) db1 = (Ok true, db2) /\
    heartbeat_lock_range_lease 10 FILE 5 1 0 (Some 99) 30 (seconds 32) db2 = (Ok tt, db3) /\
    lock_at (live_locks FILE 5 (seconds 33) db3) 1 0 = [(F_WRLCK, 1)] /\
    lock_at (live_locks FILE 5 (seconds 33) db3) 2 0 = [(F_WRLCK, 2)] /\
    posix_lock_type_conflicts F_WRLCK F_WRLCK = true.
Proof.
  eexists _, _, _. split; [reflexivity|]. split; [reflexivity|]. split; [reflexivity|].
  vm_compute. done.
Qed.

(** The conflict test knows owners only by their key, not by session: two
    mounts whose kernels use the same key for different processes are both
    granted a write lock. *)
Theorem owner_key_collision_grants_both :
  exists db1 db2,
    update_lock_range_state_blob_for_owner 10 FILE 5 7 30 (pg_lock_update 7 0 99 F_WRLCK 1) 0
      (empty_locks sample_sessions) = (Ok true, db1) /\
    update_lock_range_state_blob_for_owner 20 FILE 5 7 30 (pg_lock_update 7 0 99 F_WRLCK 2) 0 db1 = (Ok true, db2) /\
    (rl_session <$> live_leases FILE 5 0 db2) = [10; 20].
Proof. eexists _, _. split; [reflexivity|]. split; reflexivity. Qed.
