(* ===== verification/LockHandlers.v ===== *)
(** * The lock handlers of a mount

    Model of [getlk], [setlk], [interrupt] and of the lock clean-up that
    [flush] and [release] run (src/rust_fuse/src/fs.rs), on top of the tables
    of LockStore.v. A mount keeps a mirror of the lock records it has seen, the
    set of its lock owners and the blocking requests that wait. Poisoned
    mutexes, logging and the owner bookkeeping columns of [client_sessions] are
    left out. *)

From stdpp Require Import prelude list numbers gmap strings sorting relations.
From Stdlib Require Import ZArith Lia Ascii.
From S2P Require Import Prelude Text Errno Locks LockStore.

#[local] Open Scope Z_scope.
Set Default Proof Using "Type".

(** ** State *)

Record LockMount := {
  lm_postgres_lease : bool;                      (** [lock_backend] is [PostgresLease] *)
  lm_read_only : bool;
  lm_degraded_read_only : bool;
  lm_lease_ttl_seconds : Z;                      (** [lock_lease_ttl] rounded up, at least 1 *)
  lm_session : Z;                                (** session id of the mount *)
  lm_handles : gmap Z (option Z);                (** [fh_table]: the file of a handle *)
  lm_posix_locks : gmap text (list PosixLockRecord);
  lm_lock_owners : gset Z;                       (** [local_lock_owners] *)
  lm_pending_waits : gmap Z bool;                (** [pending_lock_waits]: cancelled or not *)
}.

Definition set_posix_locks (p : gmap text (list PosixLockRecord)) (m : LockMount) : LockMount :=
  {| lm_postgres_lease := lm_postgres_lease m; lm_read_only := lm_read_only m;
     lm_degraded_read_only := lm_degraded_read_only m; lm_lease_ttl_seconds := lm_lease_ttl_seconds m;
     lm_session := lm_session m; lm_handles := lm_handles m; lm_posix_locks := p;
     lm_lock_owners := lm_lock_owners m; lm_pending_waits := lm_pending_waits m |}.
Definition set_lock_owners (o : gset Z) (m : LockMount) : LockMount :=
  {| lm_postgres_lease := lm_postgres_lease m; lm_read_only := lm_read_only m;
     lm_degraded_read_only := lm_degraded_read_only m; lm_lease_ttl_seconds := lm_lease_ttl_seconds m;
     lm_session := lm_session m; lm_handles := lm_handles m; lm_posix_locks := lm_posix_locks m;
     lm_lock_owners := o; lm_pending_waits := lm_pending_waits m |}.
Definition set_pending_waits (w : gmap Z bool) (m : LockMount) : LockMount :=
  {| lm_postgres_lease := lm_postgres_lease m; lm_read_only := lm_read_only m;
     lm_degraded_read_only := lm_degraded_read_only m; lm_lease_ttl_seconds := lm_lease_ttl_seconds m;
     lm_session := lm_session m; lm_handles := lm_handles m; lm_posix_locks := lm_posix_locks m;
     lm_lock_owners := lm_lock_owners m; lm_pending_waits := w |}.

(** The mount and the database it shares with other mounts. *)
Record LockWorld := LockW { w_mount : LockMount; w_db : LockDb }.

Definition lock_backend_is_pg (m : LockMount) : bool := lm_postgres_lease m && negb (lm_read_only m).

(** ** Resources *)

Definition COLON : ascii := ascii_of_nat 58.

(** [attrs] stands for [attrs_for_open_file_id]: the inode number of a file. *)
Definition resource_key_for_lock (attrs : Z -> outcome Z (option Z)) (m : LockMount) (fh ino : Z) : outcome Z text :=
  handle ← ok_or EBADF (lm_handles m !! fh);
  file_id ← ok_or ENOENT handle;
  attr ← attrs file_id;
  attr_ino ← ok_or ENOENT attr;
  if negb (attr_ino =? ino) then Err ENOENT
  else Ok (txt "file:" ++ print_u file_id).

Definition lock_resource_kind_id (resource_key : text) : outcome Z (text * Z) :=
  '(kind, id) ← ok_or EIO (split_once COLON resource_key);
  resource_id ← ok_or EIO (parse_u64 id);
  Ok (kind, resource_id).

(** ** Loading and storing records *)

(** The mirror of the records of a resource. *)
Definition mirror_locks (resource_key : text) (records : list PosixLockRecord) (m : LockMount) : LockMount :=
  set_posix_locks (if bool_decide (records = []) then delete resource_key (lm_posix_locks m)
                   else <[resource_key := records]> (lm_posix_locks m)) m.

Definition local_lock_records_for_key (m : LockMount) (resource_key : text) : list PosixLockRecord :=
  default [] (lm_posix_locks m !! resource_key).

Definition load_lock_records_for_key (resource_key : text) (now : Z) (w : LockWorld)
    : outcome Z (list PosixLockRecord) * LockWorld :=
  let m := w_mount w in
  if lock_backend_is_pg m then
    match lock_resource_kind_id resource_key with
    | Ok (kind, resource_id) =>
        match load_lock_range_state_blob kind resource_id now (w_db w) with
        | Ok blob =>
            match lock_records_from_blob blob with
            | Ok records => (Ok records, LockW (mirror_locks resource_key records m) (w_db w))
            | Err errno => (Err errno, w)
            | Panic => (Panic, w)
            end
        | _ => (Err EIO, w)
        end
    | Err errno => (Err errno, w)
    | Panic => (Panic, w)
    end
  else (Ok (local_lock_records_for_key m resource_key), w).

Definition persist_lock_records_for_key (resource_key : text) (owner : Z) (records : list PosixLockRecord)
    (now : Z) (w : LockWorld) : outcome Z unit * LockWorld :=
  let m := w_mount w in
  if lock_backend_is_pg m then
    match lock_resource_kind_id resource_key with
    | Ok (kind, resource_id) =>
        let blob := lock_records_to_blob (filter (fun r => lk_owner r = owner) records) in
        match replace_lock_range_state_blob_for_owner (lm_session m) kind resource_id owner
                (lm_lease_ttl_seconds m) blob now (w_db w) with
        | (Ok tt, db) => (Ok tt, LockW (mirror_locks resource_key records m) db)
        | (_, db) => (Err EIO, LockW m db)
        end
    | Err errno => (Err errno, w)
    | Panic => (Panic, w)
    end
  else (Ok tt, LockW (mirror_locks resource_key records m) (w_db w)).

Definition update_pg_lock_range (resource_key : text) (owner start end_ typ pid now : Z) (w : LockWorld)
    : outcome Z bool * LockWorld :=
  let m := w_mount w in
  match lock_resource_kind_id resource_key with
  | Ok (kind, resource_id) =>
      match update_lock_range_state_blob_for_owner (lm_session m) kind resource_id owner
              (lm_lease_ttl_seconds m) (pg_lock_update owner start end_ typ pid) now (w_db w) with
      | (Ok true, db) =>
          match load_lock_records_for_key resource_key now (LockW m db) with
          | (Ok _, w) => (Ok true, w)
          | (Err errno, w) => (Err errno, w)
          | (Panic, w) => (Panic, w)
          end
      | (Ok false, db) => (Ok false, LockW m db)
      | (_, db) => (Err EIO, LockW m db)
      end
  | Err errno => (Err errno, w)
  | Panic => (Panic, w)
  end.

(** ** Owners *)

Definition register_local_lock_owner (owner : Z) (m : LockMount) : LockMount :=
  set_lock_owners ({[owner]} ∪ lm_lock_owners m) m.

Definition owner_still_present (owner : Z) (m : LockMount) : bool :=
  existsb (fun kr => existsb (fun r => lk_owner r =? owner) kr.2) (map_to_list (lm_posix_locks m)).

Definition refresh_local_lock_owner_state (owner : Z) (m : LockMount) : LockMount :=
  if owner_still_present owner m then m
  else set_lock_owners (lm_lock_owners m ∖ {[owner]}) m.

(** The records of an owner are dropped on every resource; the resources that
    changed are returned. *)
Definition clear_locks_for_owner (owner : Z) (m : LockMount) : list text * LockMount :=
  let retain (records : list PosixLockRecord) := filter (fun r => lk_owner r <> owner) records in
  let changed := omap (fun kr => if bool_decide (length (retain kr.2) <> length kr.2) then Some kr.1 else None)
                   (map_to_list (lm_posix_locks m)) in
  (changed, set_posix_locks (omap (fun records => if bool_decide (retain records = []) then None
                                                  else Some (retain records)) (lm_posix_locks m)) m).

Definition sync_cleared (owner now : Z) (w : LockWorld) (resource_key : text) : LockWorld :=
  if lock_backend_is_pg (w_mount w)
  then (update_pg_lock_range resource_key owner 0 U64_MAX F_UNLCK 0 now w).2
  else (persist_lock_records_for_key resource_key owner
          (local_lock_records_for_key (w_mount w) resource_key) now w).2.

Definition clear_locks_for_owner_and_sync (owner now : Z) (w : LockWorld) : LockWorld :=
  let m := register_local_lock_owner owner (w_mount w) in
  let db := if lock_backend_is_pg m
            then (clear_lock_wait_edges_for_owner (lm_session m) owner (w_db w)).2 else w_db w in
  let '(changed, m) := clear_locks_for_owner owner m in
  let w := foldl (sync_cleared owner now) (LockW m db) changed in
  LockW (refresh_local_lock_owner_state owner (w_mount w)) (w_db w).

(** The lock part of the heartbeat of a mount: every mirrored record of a local
    owner is renewed; the result tells whether something failed. *)
Definition heartbeat_record (session : Z) (kind : text) (resource_id ttl now : Z) (st : bool * LockDb)
    (record : PosixLockRecord) : bool * LockDb :=
  match heartbeat_lock_range_lease session kind resource_id (lk_owner record) (lk_start record) (lk_end record)
          ttl now st.2 with
  | (Ok tt, db) => (st.1, db)
  | (_, db) => (true, db)
  end.

Definition heartbeat_pg_mount_state (m : LockMount) (now : Z) (db : LockDb) : bool * LockDb :=
  foldl (fun st kr =>
           match lock_resource_kind_id kr.1 with
           | Ok (kind, resource_id) =>
               foldl (heartbeat_record (lm_session m) kind resource_id (lm_lease_ttl_seconds m) now) st
                 (filter (fun r => lk_owner r ∈ lm_lock_owners m) kr.2)
           | _ => (true, st.2)
           end) (false, db) (map_to_list (lm_posix_locks m)).

(** ** Requests *)

Inductive LockReply := ReplyOk | ReplyError (errno : Z) | ReplyLocked (start end_ typ pid : Z).

Record LockRequest := {
  rq_unique : Z;
  rq_ino : Z;
  rq_fh : Z;
  rq_owner : Z;
  rq_start : Z;
  rq_end_ : Z;
  rq_typ : Z;
  rq_pid : Z;
  rq_sleep : bool;
}.

Definition getlk (attrs : Z -> outcome Z (option Z)) (q : LockRequest) (now : Z) (w : LockWorld)
    : LockReply * LockWorld :=
  if lm_degraded_read_only (w_mount w) then (ReplyError EOPNOTSUPP, w)
  else match resource_key_for_lock attrs (w_mount w) (rq_fh q) (rq_ino q) with
       | Err errno => (ReplyError errno, w)
       | Panic => (ReplyError EIO, w)
       | Ok resource_key =>
           match load_lock_records_for_key resource_key now w with
           | (Ok records, w) =>
               match lock_conflict records (rq_owner q) (rq_typ q) (rq_start q) (rq_end_ q) with
               | Some conflict =>
                   (ReplyLocked (lk_start conflict) (default I64_MAX (lk_end conflict))
                      (lk_typ conflict) (lk_pid conflict), w)
               | None => (ReplyLocked (rq_start q) (rq_end_ q) F_UNLCK 0, w)
               end
           | (Err errno, w) => (ReplyError errno, w)
           | (Panic, w) => (ReplyError EIO, w)
           end
       end.

(** One attempt to take the lock: [Ok false] is a conflict. *)
Definition setlk_try (q : LockRequest) (resource_key : text) (now : Z) (w : LockWorld) : outcome Z bool * LockWorld :=
  if lock_backend_is_pg (w_mount w)
  then update_pg_lock_range resource_key (rq_owner q) (rq_start q) (rq_end_ q) (rq_typ q) (rq_pid q) now w
  else match load_lock_records_for_key resource_key now w with
       | (Ok records, w) =>
           if bool_decide (is_Some (lock_conflict records (rq_owner q) (rq_typ q) (rq_start q) (rq_end_ q)))
           then (Ok false, w)
           else
             let records := update_owner_lock_range records (rq_owner q) (rq_start q) (rq_end_ q)
               (if negb (rq_typ q =? F_UNLCK)
                then Some (LockRec (rq_owner q) (rq_typ q) (rq_start q) (Some (rq_end_ q)) (rq_pid q))
                else None) in
             match persist_lock_records_for_key resource_key (rq_owner q) records now w with
             | (Ok tt, w) => (Ok true, w)
             | (Err errno, w) => (Err errno, w)
             | (Panic, w) => (Panic, w)
             end
       | (Err errno, w) => (Err errno, w)
       | (Panic, w) => (Panic, w)
       end.

(** [F_UNLCK]. *)
Definition setlk_unlock (q : LockRequest) (resource_key : text) (now : Z) (w : LockWorld) : LockReply * LockWorld :=
  let '(result, w) :=
    if lock_backend_is_pg (w_mount w)
    then match update_pg_lock_range resource_key (rq_owner q) (rq_start q) (rq_end_ q) (rq_typ q) (rq_pid q) now w with
         | (Err errno, w) => (Err errno, w)
         | (Panic, w) => (Panic, w)
         | (Ok _, w) => (Ok tt, w)
         end
    else match load_lock_records_for_key resource_key now w with
         | (Ok records, w) =>
             persist_lock_records_for_key resource_key (rq_owner q)
               (update_owner_lock_range records (rq_owner q) (rq_start q) (rq_end_ q) None) now w
         | (Err errno, w) => (Err errno, w)
         | (Panic, w) => (Panic, w)
         end in
  match result with
  | Ok tt => (ReplyOk, LockW (refresh_local_lock_owner_state (rq_owner q) (w_mount w)) (w_db w))
  | Err errno => (ReplyError errno, w)
  | Panic => (ReplyError EIO, w)
  end.

(** What [setlk] does before its loop: a reply, or the resource to poll. *)
Definition setlk_begin (attrs : Z -> outcome Z (option Z)) (q : LockRequest) (now : Z) (w : LockWorld)
    : (LockReply + text) * LockWorld :=
  let m := w_mount w in
  let m := if rq_sleep q then set_pending_waits (<[rq_unique q := false]> (lm_pending_waits m)) m else m in
  if lm_degraded_read_only m then (inl (ReplyError EOPNOTSUPP), LockW m (w_db w))
  else match resource_key_for_lock attrs m (rq_fh q) (rq_ino q) with
       | Err errno => (inl (ReplyError errno), LockW m (w_db w))
       | Panic => (inl (ReplyError EIO), LockW m (w_db w))
       | Ok resource_key =>
           let wait_resource :=
             if lock_backend_is_pg m && rq_sleep q then Some <$> lock_resource_kind_id resource_key
             else Ok None in
           match wait_resource with
           | Err errno => (inl (ReplyError errno), LockW m (w_db w))
           | Panic => (inl (ReplyError EIO), LockW m (w_db w))
           | Ok _ =>
               let m := register_local_lock_owner (rq_owner q) m in
               let w := LockW m (w_db w) in
               if rq_typ q =? F_UNLCK then
                 let '(reply, w) := setlk_unlock q resource_key now w in (inl reply, w)
               else if lm_read_only m && (rq_typ q =? F_WRLCK) then (inl (ReplyError EROFS), w)
               else (inr resource_key, w)
           end
       end.

Definition wait_cancelled (q : LockRequest) (m : LockMount) : bool :=
  rq_sleep q && default false (lm_pending_waits m !! rq_unique q).

(** The part of an iteration before the request is parked. [registered] is
    [wait_edge_registered]; the result is a reply or its new value. *)
Definition setlk_poll (q : LockRequest) (resource_key : text) (registered : bool) (now : Z) (w : LockWorld)
    : (LockReply + bool) * LockWorld :=
  let '(cleared, w) :=
    if registered
    then let '(r, db) := clear_lock_wait_edges (lm_session (w_mount w)) (rq_unique q) (w_db w) in
         (r, LockW (w_mount w) db)
    else (Ok tt, w) in
  match cleared with
  | Err _ | Panic => (inl (ReplyError EIO), w)
  | Ok tt =>
      if wait_cancelled q (w_mount w) then (inl (ReplyError EINTR), w)
      else match setlk_try q resource_key now w with
           | (Err errno, w) => (inl (ReplyError errno), w)
           | (Panic, w) => (inl (ReplyError EIO), w)
           | (Ok true, w) =>
               (inl ReplyOk, LockW (refresh_local_lock_owner_state (rq_owner q) (w_mount w)) (w_db w))
           | (Ok false, w) =>
               if negb (rq_sleep q) then (inl (ReplyError EWOULDBLOCK), w)
               else if lock_backend_is_pg (w_mount w) then
                 match lock_resource_kind_id resource_key with
                 | Ok (kind, resource_id) =>
                     match register_lock_wait_and_detect_deadlock (lm_session (w_mount w)) kind resource_id
                             (rq_owner q) (rq_pid q) (rq_unique q) (rq_typ q) (rq_start q) (rq_end_ q)
                             (lm_lease_ttl_seconds (w_mount w)) now (w_db w) with
                     | (Ok true, db) => (inl (ReplyError EDEADLK), LockW (w_mount w) db)
                     | (Ok false, db) => (inr true, LockW (w_mount w) db)
                     | (_, db) => (inl (ReplyError EIO), LockW (w_mount w) db)
                     end
                 | _ => (inl (ReplyError EIO), w)
                 end
               else (inr false, w)
           end
  end.

(** The check between the registration and the pause. *)
Definition setlk_before_pause (q : LockRequest) (w : LockWorld) : option LockReply * LockWorld :=
  if wait_cancelled q (w_mount w) then
    let db := if lock_backend_is_pg (w_mount w)
              then (clear_lock_wait_edges (lm_session (w_mount w)) (rq_unique q) (w_db w)).2 else w_db w in
    (Some (ReplyError EINTR), LockW (w_mount w) db)
  else (None, w).

(** What happens around one iteration: the time of the poll and what the rest
    of the system does before it and before the pause. *)
Record Tick := {
  tk_now : Z;
  tk_before : LockWorld -> LockWorld;
  tk_meanwhile : LockWorld -> LockWorld;
}.

(** The loop over a finite sequence of iterations; [None] is still waiting. *)
Fixpoint setlk_loop (q : LockRequest) (resource_key : text) (registered : bool) (ticks : list Tick) (w : LockWorld)
    : option LockReply * LockWorld :=
  match ticks with
  | [] => (None, w)
  | t :: ticks =>
      match setlk_poll q resource_key registered (tk_now t) (tk_before t w) with
      | (inl reply, w) => (Some reply, w)
      | (inr registered, w) =>
          match setlk_before_pause q (tk_meanwhile t w) with
          | (Some reply, w) => (Some reply, w)
          | (None, w) => setlk_loop q resource_key registered ticks w
          end
      end
  end.

(** The wait guard is dropped with the request. *)
Definition drop_pending_wait (q : LockRequest) (w : LockWorld) : LockWorld :=
  if rq_sleep q
  then LockW (set_pending_waits (delete (rq_unique q) (lm_pending_waits (w_mount w))) (w_mount w)) (w_db w)
  else w.

Definition setlk (attrs : Z -> outcome Z (option Z)) (q : LockRequest) (now : Z) (ticks : list Tick) (w : LockWorld)
    : option LockReply * LockWorld :=
  match setlk_begin attrs q now w with
  | (inl reply, w) => (Some reply, drop_pending_wait q w)
  | (inr resource_key, w) =>
      match setlk_loop q resource_key false ticks w with
      | (Some reply, w) => (Some reply, drop_pending_wait q w)
      | (None, w) => (None, w)
      end
  end.

(** [interrupt], for requests that are not [statfs]. *)
Definition interrupt (interrupted_request_id : Z) (m : LockMount) : bool * LockMount :=
  match lm_pending_waits m !! interrupted_request_id with
  | Some _ => (true, set_pending_waits (<[interrupted_request_id := true]> (lm_pending_waits m)) m)
  | None => (false, m)
  end.

(** The part of [flush], which runs on every close of a descriptor, that
    concerns locks; [flush_data] is the result of writing back the handle. *)
Definition flush (flush_data : outcome Z bool) (fh lock_owner now : Z) (w : LockWorld) : LockReply * LockWorld :=
  match lm_handles (w_mount w) !! fh with
  | None => (ReplyError EBADF, w)
  | Some _ =>
      if lm_read_only (w_mount w) then (ReplyOk, clear_locks_for_owner_and_sync lock_owner now w)
      else
        let w := LockW (register_local_lock_owner lock_owner (w_mount w)) (w_db w) in
        match flush_data with
        | Ok _ => (ReplyOk, clear_locks_for_owner_and_sync lock_owner now w)
        | Err errno => (ReplyError errno, w)
        | Panic => (ReplyError EIO, w)
        end
  end.

(** ** Lemmas *)

(** The key of a file names its kind and id. *)
Lemma lock_resource_kind_id_file id :
  is_u64 id -> lock_resource_kind_id (txt "file:" ++ print_u id) = Ok (FILE, id).
Proof.
  intros Hid. unfold lock_resource_kind_id.
  change (txt "file:" ++ print_u id) with (FILE ++ COLON :: print_u id).
  rewrite split_once_app by (by vm_compute; apply (bool_decide_unpack (_ ∉ _))).
  cbn [ok_or mbind outcome_bind]. rewrite parse_print_u64 by done. done.
Qed.

(** A mount that takes its locks in PostgreSQL and can serve requests. *)
Record pg_mount (session : Z) (m : LockMount) : Prop := {
  pm_backend : lock_backend_is_pg m = true;
  pm_degraded : lm_degraded_read_only m = false;
  pm_session : lm_session m = session;
}.

Lemma load_pg sess id now w :
  lock_backend_is_pg (w_mount w) = true -> is_u64 id -> ld_available (w_db w) = true -> leases_ok sess (w_db w) ->
  load_lock_records_for_key (txt "file:" ++ print_u id) now w =
  (Ok (loaded_locks FILE id now (w_db w)),
   LockW (mirror_locks (txt "file:" ++ print_u id) (loaded_locks FILE id now (w_db w)) (w_mount w)) (w_db w)).
Proof.
  intros Hb Hid Hav Hok. unfold load_lock_records_for_key. rewrite Hb, lock_resource_kind_id_file by done.
  unfold load_lock_range_state_blob. rewrite Hav. cbn [negb].
  rewrite loaded_locks_decode by (by eapply leases_ok_storable). done.
Qed.

Lemma update_pg_run sess id owner s e typ pid now w :
  pg_mount (sess owner) (w_mount w) -> 0 <= id -> request_ok id owner s e typ pid ->
  ld_available (w_db w) = true -> leases_ok sess (w_db w) ->
  update_pg_lock_range (txt "file:" ++ print_u id) owner s e typ pid now w =
  match lock_transition (loaded_locks FILE id now (w_db w)) owner s e typ pid with
  | None => (Ok false, w)
  | Some rs =>
      let db' := granted_db (sess owner) FILE id owner (lm_lease_ttl_seconds (w_mount w)) now rs (w_db w) in
      (Ok true, LockW (mirror_locks (txt "file:" ++ print_u id) (loaded_locks FILE id now db') (w_mount w)) db')
  end.
Proof.
  intros [Hb Hd Hs] Hid0 Hrq Hav Hok. pose proof Hrq as [Hid Hse He Ho Ht Hcol].
  assert (Hu : is_u64 id) by u64_lia.
  unfold update_pg_lock_range. rewrite lock_resource_kind_id_file by done. rewrite Hs.
  pose proof (pg_update_run sess FILE id owner (lm_lease_ttl_seconds (w_mount w)) s e typ pid now (w_db w)
    Hrq Hav Hok) as Hrun.
  destruct (lock_transition (loaded_locks FILE id now (w_db w)) owner s e typ pid) as [rs|] eqn:E.
  - rewrite Hrun. cbv zeta. rewrite (load_pg sess); [done|done|done|done|].
    cbn [w_db]. by apply (granted_leases_ok sess FILE id owner _ s e typ pid).
  - rewrite Hrun. destruct w; done.
Qed.

Lemma perm_short {A} (l k : list A) : l ≡ₚ k -> (length k <= 1)%nat -> l = k.
Proof.
  intros Hp Hk. destruct k as [|x [|y k]]; [by apply Permutation_nil_r|by apply Permutation_singleton_r|cbn in Hk; lia].
Qed.

(** The locks held at an offset, as the database tells them. *)
Definition held (id now : Z) (w : LockWorld) (o x : Z) : list (Z * Z) :=
  lock_at (live_locks FILE id now (w_db w)) o x.

(** A granted request as a change of the held locks. *)
Lemma granted_held sess id owner ttl s e typ pid now rs db o x :
  request_ok id owner s e typ pid -> lock_inv sess now db ->
  lock_transition (loaded_locks FILE id now db) owner s e typ pid = Some rs ->
  lock_at (live_locks FILE id now (granted_db (sess owner) FILE id owner ttl now rs db)) o x =
  if decide (o = owner /\ s <= x <= e) then requested_lock typ pid
  else lock_at (live_locks FILE id now db) o x.
Proof.
  intros [Hid Hse He Ho Ht Hcol] Hinv E.
  pose proof (li_locks _ _ _ Hinv FILE id) as Hlocks.
  assert (Hwf : Forall lock_wf (loaded_locks FILE id now db))
    by (rewrite loaded_locks_perm; apply Hlocks).
  pose proof (lock_transition_at _ owner s e typ pid rs o x Hse He Hwf E) as Hat.
  apply perm_short.
  - rewrite (live_locks_granted sess FILE id owner ttl now s e typ pid rs db (li_leases _ _ _ Hinv) E), Hat.
    case_decide; [done|]. by rewrite loaded_locks_perm.
  - case_decide; [unfold requested_lock; case_match; cbn; lia|apply Hlocks].
Qed.

Lemma refused_held sess id owner s e typ pid now db :
  request_ok id owner s e typ pid -> lock_inv sess now db ->
  lock_transition (loaded_locks FILE id now db) owner s e typ pid = None ->
  typ <> F_UNLCK /\
  exists o x t, o <> owner /\ s <= x <= e /\ t ∈ lock_at (live_locks FILE id now db) o x /\
    posix_lock_type_conflicts t.1 typ = true.
Proof.
  intros [Hid Hse He Ho Ht Hcol] Hinv E.
  apply lock_transition_conflict in E as (Hu & o & x & t & Hne & Hx & Hin & Hc); [|lia|].
  - split; [done|]. exists o, x, t. split_and!; [done|lia|lia| |done]. by rewrite <- loaded_locks_perm.
  - rewrite loaded_locks_perm. apply (li_locks _ _ _ Hinv).
Qed.

(** The handle and the inode of the request name the file [id]. *)
Definition names_file (attrs : Z -> outcome Z (option Z)) (q : LockRequest) (id : Z) (m : LockMount) : Prop :=
  lm_handles m !! rq_fh q = Some (Some id) /\ attrs id = Ok (Some (rq_ino q)).

Lemma resource_key_run attrs q id m :
  names_file attrs q id m -> resource_key_for_lock attrs m (rq_fh q) (rq_ino q) = Ok (txt "file:" ++ print_u id).
Proof.
  intros [Hh Ha]. unfold resource_key_for_lock. rewrite Hh. cbn [ok_or mbind outcome_bind].
  rewrite Ha. cbn [ok_or mbind outcome_bind]. by rewrite Z.eqb_refl.
Qed.

(** An iteration during which nothing else happens. *)
Definition undisturbed (now : Z) : Tick := {| tk_now := now; tk_before := fun w => w; tk_meanwhile := fun w => w |}.

Lemma setlk_begin_pg attrs q id now w sess :
  pg_mount (sess (rq_owner q)) (w_mount w) -> names_file attrs q id (w_mount w) -> is_u64 id ->
  exists m', pg_mount (sess (rq_owner q)) m' /\
    lm_lease_ttl_seconds m' = lm_lease_ttl_seconds (w_mount w) /\
    lm_pending_waits m' =
      (if rq_sleep q then <[rq_unique q := false]> (lm_pending_waits (w_mount w)) else lm_pending_waits (w_mount w)) /\
    setlk_begin attrs q now w =
      if rq_typ q =? F_UNLCK
      then let '(reply, w) := setlk_unlock q (txt "file:" ++ print_u id) now (LockW m' (w_db w)) in (inl reply, w)
      else (inr (txt "file:" ++ print_u id), LockW m' (w_db w)).
Proof.
  intros [Hb Hd Hs] Hn Hid. unfold setlk_begin.
  set (m1 := if rq_sleep q then set_pending_waits (<[rq_unique q:=false]> (lm_pending_waits (w_mount w))) (w_mount w)
             else w_mount w).
  assert (Hm1 : lock_backend_is_pg m1 = true /\ lm_degraded_read_only m1 = false /\ lm_session m1 = sess (rq_owner q)
    /\ names_file attrs q id m1 /\ lm_lease_ttl_seconds m1 = lm_lease_ttl_seconds (w_mount w) /\
    lm_pending_waits m1 = (if rq_sleep q then <[rq_unique q := false]> (lm_pending_waits (w_mount w))
                           else lm_pending_waits (w_mount w)))
    by (unfold m1; destruct (rq_sleep q); done).
  clearbody m1. destruct Hm1 as (Hb1 & Hd1 & Hs1 & Hn1 & Ht1 & Hp1).
  exists (register_local_lock_owner (rq_owner q) m1). split; [done|]. split; [done|]. split; [done|].
  rewrite Hd1, (resource_key_run attrs q id) by done.
  rewrite Hb1, lock_resource_kind_id_file by done.
  replace (if true && rq_sleep q then _ else _) with
    (Ok (if rq_sleep q then Some (FILE, id) else None) : outcome Z (option (text * Z)))
    by (by destruct (rq_sleep q)).
  cbv zeta iota beta.
  replace (lm_read_only (register_local_lock_owner (rq_owner q) m1)) with false; [done|].
  unfold lock_backend_is_pg in Hb1. cbn. destruct (lm_read_only m1); [|done]. by rewrite andb_false_r in Hb1.
Qed.

Lemma pg_mount_mirror s key rs m : pg_mount s m -> pg_mount s (mirror_locks key rs m).
Proof. intros [??]. split; done. Qed.

(** C14: The lock handler of a PostgreSQL mount. A request that does not wait is
    answered with success or with [EWOULDBLOCK]. On success the owner holds
    exactly the requested lock in the range, and every other lock on every file
    is as before; it is refused only when another owner holds a conflicting
    live lock inside the range, and then the tables are unchanged. The rules of
    the tables hold in every case. *)
Theorem setlk_nonblocking_posix attrs q id now w sess :
  pg_mount (sess (rq_owner q)) (w_mount w) -> names_file attrs q id (w_mount w) -> 0 <= id ->
  request_ok id (rq_owner q) (rq_start q) (rq_end_ q) (rq_typ q) (rq_pid q) -> 0 <= rq_pid q < 2 ^ 32 ->
  rq_sleep q = false -> ld_available (w_db w) = true -> lock_inv sess now (w_db w) ->
  let '(reply, w') := setlk attrs q now [undisturbed now] w in
  lock_inv sess now (w_db w') /\
  (forall id', id' <> id -> forall o x, held id' now w' o x = held id' now w o x) /\
  ((reply = Some ReplyOk /\
    forall o x, held id now w' o x =
      if decide (o = rq_owner q /\ rq_start q <= x <= rq_end_ q) then requested_lock (rq_typ q) (rq_pid q)
      else held id now w o x) \/
   (reply = Some (ReplyError EWOULDBLOCK) /\ w_db w' = w_db w /\ rq_typ q <> F_UNLCK /\
    exists o x t, o <> rq_owner q /\ rq_start q <= x <= rq_end_ q /\ t ∈ held id now w o x /\
      posix_lock_type_conflicts t.1 (rq_typ q) = true)).
Proof.
  intros Hm Hn Hid0 Hrq Hpid Hsleep Hav Hinv.
  assert (Hu : is_u64 id) by (destruct Hrq; u64_lia).
  destruct (setlk_begin_pg attrs q id now w sess Hm Hn Hu) as (m' & Hm' & Httl & Hpend & Hbeg).
  unfold setlk. rewrite Hbeg. clear Hbeg.
  pose proof (update_pg_run sess id (rq_owner q) (rq_start q) (rq_end_ q) (rq_typ q) (rq_pid q) now
    (LockW m' (w_db w)) Hm' Hid0 Hrq Hav (li_leases _ _ _ Hinv)) as Hup. cbn [w_db w_mount] in Hup.
  set (ttl := lm_lease_ttl_seconds m') in *.
  assert (Hgr : forall rs, lock_transition (loaded_locks FILE id now (w_db w)) (rq_owner q) (rq_start q) (rq_end_ q)
      (rq_typ q) (rq_pid q) = Some rs ->
    let db' := granted_db (sess (rq_owner q)) FILE id (rq_owner q) ttl now rs (w_db w) in
    lock_inv sess now db' /\
    (forall id', id' <> id -> live_locks FILE id' now db' = live_locks FILE id' now (w_db w)) /\
    forall o x, lock_at (live_locks FILE id now db') o x =
      if decide (o = rq_owner q /\ rq_start q <= x <= rq_end_ q) then requested_lock (rq_typ q) (rq_pid q)
      else lock_at (live_locks FILE id now (w_db w)) o x).
  { intros rs E db'. split_and!.
    - pose proof (pg_update_run sess FILE id (rq_owner q) ttl (rq_start q) (rq_end_ q) (rq_typ q) (rq_pid q) now (w_db w)
        Hrq Hav (li_leases _ _ _ Hinv)) as Hrun. rewrite E in Hrun.
      destruct Hrq. eapply lock_update_inv; [..|exact Hrun|exact Hinv]; done.
    - intros id' Hne. apply live_locks_granted_other. congruence.
    - intros o x. by apply (granted_held sess id). }
  destruct (Z.eqb_spec (rq_typ q) F_UNLCK) as [Ht|Ht].
  - unfold setlk_unlock. cbn [w_mount]. rewrite (pm_backend _ _ Hm'), Hup.
    destruct (lock_transition _ _ _ _ _ _) as [rs|] eqn:E.
    2: { exfalso. by apply (refused_held sess) in E as [? _]. }
    cbv zeta iota beta. unfold drop_pending_wait. rewrite Hsleep. unfold held. cbn [w_db].
    destruct (Hgr rs eq_refl) as (Hinv' & Hoth & Hat). split; [done|]. split; [|left; by split].
    intros id' Hne o x. by rewrite Hoth.
  - cbn [setlk_loop]. unfold setlk_poll, wait_cancelled. rewrite Hsleep. cbn [undisturbed tk_now tk_before andb].
    unfold setlk_try. cbn [w_mount]. rewrite (pm_backend _ _ Hm'), Hup.
    destruct (lock_transition _ _ _ _ _ _) as [rs|] eqn:E;
      cbv zeta iota beta; cbn [negb]; unfold drop_pending_wait; rewrite Hsleep; unfold held; cbn [w_db].
    + destruct (Hgr rs eq_refl) as (Hinv' & Hoth & Hat). split; [done|]. split; [|left; by split].
      intros id' Hne o x. by rewrite Hoth.
    + split; [done|]. split; [done|]. right. split; [done|]. split; [done|]. by apply (refused_held sess) in E.
Qed.

(** ** A blocking request is granted *)

Section Waiting.

Context (sess : Z -> Z) (q : LockRequest) (id : Z) (host : text) (deadline : Z).
Hypothesis Hid : 0 <= id.
Hypothesis Hrq : request_ok id (rq_owner q) (rq_start q) (rq_end_ q) (rq_typ q) (rq_pid q).
Hypothesis Hsleep : rq_sleep q = true.

(** The node of the waiting process. *)
Definition waiter_node : node := (trim host, rq_pid q).

(** The leases of other owners on the file end by [deadline], the request is
    not cancelled, and no process waits for the waiting one. *)
Record waiting (w : LockWorld) : Prop := {
  wt_mount : pg_mount (sess (rq_owner q)) (w_mount w);
  wt_live : wait_cancelled q (w_mount w) = false;
  wt_available : ld_available (w_db w) = true;
  wt_leases : leases_ok sess (w_db w);
  wt_expiry : forall l, l ∈ ld_leases (w_db w) -> lease_on FILE id l = true ->
    lk_owner (rl_lock l) <> rq_owner q -> rl_expires l <= deadline;
  wt_session : cs_host_name <$> ld_sessions (w_db w) !! sess (rq_owner q) = Some host;
  wt_pids : forall l1 l2, l1 ∈ ld_leases (w_db w) -> l2 ∈ ld_leases (w_db w) ->
    lk_owner (rl_lock l1) = lk_owner (rl_lock l2) -> lk_pid (rl_lock l1) = lk_pid (rl_lock l2);
  wt_edges : forall e, e ∈ ld_edges (w_db w) -> we_blocked e <> waiter_node;
}.

Definition key : text := txt "file:" ++ print_u id.

Lemma waiting_edges w es :
  waiting w -> (forall e, e ∈ es -> we_blocked e <> waiter_node) ->
  waiting (LockW (w_mount w) (set_edges es (w_db w))).
Proof. intros [] Hes. split; done. Qed.

Lemma conflict_before_deadline w now :
  waiting w ->
  lock_transition (loaded_locks FILE id now (w_db w)) (rq_owner q) (rq_start q) (rq_end_ q) (rq_typ q) (rq_pid q) = None ->
  now < deadline.
Proof.
  intros Hw E. unfold lock_transition in E. destruct (_ && _) eqn:B; [|done].
  apply andb_true_iff in B as [_ [r Hr]%bool_decide_eq_true].
  apply lock_conflict_Some in Hr as (Hr & Ho & _).
  apply list_elem_of_fmap in Hr as (l & -> & Hl). rewrite merge_sort_Permutation in Hl.
  apply list_elem_of_filter in Hl as [Hl Hin]. apply andb_True in Hl as [Hon Hlv].
  apply Is_true_true in Hon, Hlv. unfold lease_live in Hlv.
  pose proof (wt_expiry w Hw l Hin Hon Ho). lia.
Qed.

Lemma blockers_not_waiter w now typ s e b :
  b ∈ blockers FILE id waiter_node typ s e now (w_db w) -> b.2 <> waiter_node.
Proof.
  unfold blockers. rewrite elem_of_remove_dups, list_elem_of_fmap. intros (l & -> & Hl).
  apply list_elem_of_filter in Hl as [Hb _]. cbn [snd]. unfold blocks_request in Hb. unfold lease_host.
  destruct (ld_sessions (w_db w) !! rl_session l) as [c|]; [|done]. cbn [from_option].
  rewrite !andb_True in Hb. destruct Hb as [[[[_ Hb] _] _] _]. intros Heq. apply negb_True in Hb. apply Hb.
  unfold waiter_node in *. injection Heq as E1 E2. cbn [fst snd]. apply andb_True. split.
  - by apply bool_decide_pack.
  - apply Is_true_true. lia.
Qed.

Lemma blockers_keys w now typ s e :
  waiting w -> NoDup (fst <$> blockers FILE id waiter_node typ s e now (w_db w)).
Proof.
  intros Hw. unfold blockers.
  set (g := fun l => (rl_session l, lk_owner (rl_lock l), (lease_host (w_db w) l, lk_pid (rl_lock l)))).
  set (ls := filter _ (ld_leases (w_db w))).
  assert (Hinj : forall a b, a ∈ remove_dups (g <$> ls) -> b ∈ remove_dups (g <$> ls) -> a.1 = b.1 -> a = b).
  { intros a b. rewrite !elem_of_remove_dups, !list_elem_of_fmap.
    intros (l1 & -> & H1) (l2 & -> & H2). unfold g. cbn [fst]. intros [= Es Eo].
    apply list_elem_of_filter in H1 as [_ H1], H2 as [_ H2].
    unfold lease_host. rewrite Es, Eo. do 2 f_equal. by apply (wt_pids w Hw). }
  pose proof (NoDup_remove_dups (g <$> ls)) as Hnd.
  induction (remove_dups (g <$> ls)) as [|a l IH]; [constructor|].
  apply NoDup_cons in Hnd as [Hna Hnd]. rewrite fmap_cons. apply NoDup_cons. split.
  - intros (b & Eb & Hb)%list_elem_of_fmap. apply Hna. rewrite (Hinj a b); [done|by left|by right|done].
  - apply IH; [|done]. intros x y Hx Hy. apply Hinj; by right.
Qed.

(** A registration by the waiting request finds no deadlock. *)
Lemma register_waiting w now :
  waiting w ->
  exists es, register_lock_wait_and_detect_deadlock (lm_session (w_mount w)) FILE id (rq_owner q) (rq_pid q)
    (rq_unique q) (rq_typ q) (rq_start q) (rq_end_ q) (lm_lease_ttl_seconds (w_mount w)) now (w_db w)
    = (Ok false, set_edges es (w_db w)) /\ forall e, e ∈ es -> we_blocked e <> waiter_node.
Proof.
  intros Hw. pose proof Hw as [[Hb Hd Hs] _ Hav _ _ Hhost _ Hes]. rewrite Hs.
  unfold register_lock_wait_and_detect_deadlock, lock_transaction. rewrite Hav, Hhost.
  cbn [negb ok_or mbind outcome_bind]. fold waiter_node.
  fold (kept_edges (sess (rq_owner q)) (rq_unique q) now (w_db w)).
  set (bs := blockers FILE id waiter_node _ _ _ now (w_db w)).
  set (ttl := Z.max (lm_lease_ttl_seconds (w_mount w)) 1).
  unfold insert_wait_edges. rewrite bool_decide_eq_true_2 by (by apply blockers_keys).
  cbn [mbind outcome_bind].
  fold (new_edges (sess (rq_owner q)) (rq_unique q) (rq_owner q) waiter_node (now + seconds ttl) bs).
  set (es := kept_edges (sess (rq_owner q)) (rq_unique q) now (w_db w)).
  set (new := new_edges _ _ _ _ _ bs).
  assert (Hno : waiter_node ∉ reachable_from_wait (sess (rq_owner q)) (rq_unique q) now (es ++ new)).
  { unfold es, new. rewrite cycle_query_spec by lia. intros (b & Hbin & Hr).
    apply rtc_inv_r in Hr as [Heq|(c & _ & e & He & _ & Heb)].
    - by apply (blockers_not_waiter w now _ _ _ b Hbin).
    - apply kept_edges_spec in He as (He & _). by apply (Hes e He). }
  rewrite (bool_decide_eq_false_2 _ Hno). exists (es ++ new). split; [done|].
  intros e [He|He]%elem_of_app.
  - apply kept_edges_spec in He as (He & _). by apply Hes.
  - apply list_elem_of_fmap in He as (b & -> & Hbin). cbn. by eapply blockers_not_waiter.
Qed.

(** One poll: the lock, or the request waits on and the deadline is not reached. *)
Lemma setlk_poll_waiting registered now w0 :
  waiting w0 ->
  (exists w', setlk_poll q key registered now w0 = (inl ReplyOk, w')) \/
  (now < deadline /\ exists w', setlk_poll q key registered now w0 = (inr true, w') /\ waiting w').
Proof using Hid Hrq Hsleep.
  intros Hw0. unfold setlk_poll.
  assert (Hcl : exists w, waiting w /\ (if registered
    then let '(r, db) := clear_lock_wait_edges (lm_session (w_mount w0)) (rq_unique q) (w_db w0) in (r, LockW (w_mount w0) db)
    else (Ok tt, w0)) = (Ok tt, w)).
  { destruct registered; [|by exists w0]. eexists. unfold clear_lock_wait_edges, lock_transaction.
    rewrite (wt_available _ Hw0). cbn [negb]. split; [|reflexivity].
    apply waiting_edges; [done|]. intros e [_ He]%list_elem_of_filter. by apply (wt_edges _ Hw0). }
  destruct Hcl as (w & Hw & ->). cbv iota beta.
  rewrite (wt_live _ Hw). pose proof Hw as [Hm _ Hav Hok _ _ _ _].
  unfold setlk_try. rewrite (pm_backend _ _ Hm).
  unfold key. rewrite (update_pg_run sess) by done.
  destruct (lock_transition _ _ _ _ _ _) as [rs|] eqn:E; cbv zeta iota beta; [left; by eexists|].
  right. split; [by eapply conflict_before_deadline|].
  rewrite Hsleep, (pm_backend _ _ Hm). cbn [negb].
  rewrite lock_resource_kind_id_file by (destruct Hrq; u64_lia).
  destruct (register_waiting w now Hw) as (es & -> & Hes). eexists. split; [reflexivity|].
  by apply waiting_edges.
Qed.

(** The rest of the system keeps the situation. *)
Definition quiet (f : LockWorld -> LockWorld) : Prop := forall w, waiting w -> waiting (f w).

Lemma setlk_loop_waiting ticks : forall registered w,
  waiting w -> Forall (fun t => quiet (tk_before t) /\ quiet (tk_meanwhile t)) ticks ->
  (exists t, t ∈ ticks /\ deadline <= tk_now t) ->
  (setlk_loop q key registered ticks w).1 = Some ReplyOk.
Proof using Hid Hrq Hsleep.
  induction ticks as [|t ticks IH]; intros registered w Hw Hq (t0 & Ht0 & Hdl); [set_solver|].
  apply Forall_cons in Hq as [[Hb Hm] Hq]. cbn [setlk_loop].
  destruct (setlk_poll_waiting registered (tk_now t) (tk_before t w) (Hb w Hw)) as [(w' & ->)|(Hlt & w' & -> & Hw')];
    [done|].
  unfold setlk_before_pause. rewrite (wt_live _ (Hm w' Hw')).
  apply IH; [by apply Hm|done|]. apply elem_of_cons in Ht0 as [->|Ht0]; [lia|eauto].
Qed.

End Waiting.

(** C15: Blocking requests make progress. A blocking lock request on a file
    whose other leases all end by [deadline] (their owners crashed, or no
    longer renew them) is granted: whatever the other processes do that keeps
    this so, leaves the request uncancelled and does not wait for the
    requesting process, the request replies with success by the first poll at
    or after the deadline. *)
Theorem blocked_setlk_granted_after_expiry sess attrs q id host deadline now ticks w :
  request_ok id (rq_owner q) (rq_start q) (rq_end_ q) (rq_typ q) (rq_pid q) -> 0 <= id ->
  rq_typ q <> F_UNLCK -> rq_sleep q = true ->
  names_file attrs q id (w_mount w) -> waiting sess q id host deadline w ->
  Forall (fun t => quiet sess q id host deadline (tk_before t) /\ quiet sess q id host deadline (tk_meanwhile t)) ticks ->
  (exists t, t ∈ ticks /\ deadline <= tk_now t) ->
  (setlk attrs q now ticks w).1 = Some ReplyOk.
Proof.
  intros Hrq Hid Ht Hsleep Hn Hw Hq Hdl.
  destruct (setlk_begin_pg attrs q id now w sess (wt_mount _ _ _ _ _ _ Hw) Hn) as (m' & Hm' & _ & Hpw & Hbeg).
  { destruct Hrq. u64_lia. }
  unfold setlk. rewrite Hbeg. destruct (Z.eqb_spec (rq_typ q) F_UNLCK) as [|_]; [done|].
  assert (Hw' : waiting sess q id host deadline (LockW m' (w_db w))).
  { destruct Hw. split; try done. cbn [w_mount]. unfold wait_cancelled. rewrite Hpw, Hsleep.
    by rewrite lookup_insert_eq. }
  pose proof (setlk_loop_waiting sess q id host deadline Hid Hrq Hsleep ticks false _ Hw' Hq Hdl) as Hloop.
  unfold key in Hloop. by destruct (setlk_loop _ _ _ _ _) as [[r|] w2].
Qed.

(** ** Sample runs *)

Definition sample_mount (session : Z) : LockMount :=
  {| lm_postgres_lease := true; lm_read_only := false; lm_degraded_read_only := false;
     lm_lease_ttl_seconds := 30; lm_session := session;
     lm_handles := <[3 := Some 5]> {[4 := Some 6]};
     lm_posix_locks := ∅; lm_lock_owners := ∅; lm_pending_waits := ∅ |}.

(** Inode numbers of the sample files. *)
Definition sample_attrs (file_id : Z) : outcome Z (option Z) := Ok (Some (file_id + 100)).

Definition sample_request (unique fh ino owner : Z) (sleep : bool) : LockRequest :=
  {| rq_unique := unique; rq_ino := ino; rq_fh := fh; rq_owner := owner; rq_start := 0; rq_end_ := 99;
     rq_typ := F_WRLCK; rq_pid := owner; rq_sleep := sleep |}.

Lemma sample_lock_request_ok unique fh ino owner sleep id :
  0 <= id <= I64_MAX -> 0 <= owner < 2 ^ 31 ->
  request_ok id (rq_owner (sample_request unique fh ino owner sleep)) 0 99 F_WRLCK owner.
Proof. intros. split; cbn; [lia|lia|u64_lia|u64_lia|right; by left|u64_lia]. Qed.

Lemma setlk_nonblocking_posix_witness :
  let q := sample_request 1 3 105 1 false in
  let w := LockW (sample_mount 10) (empty_locks sample_sessions) in
  (setlk sample_attrs q 0 [undisturbed 0] w).1 = Some ReplyOk /\
  held 5 0 (setlk sample_attrs q 0 [undisturbed 0] w).2 1 50 = [(F_WRLCK, 1)].
Proof.
  intros q w.
  pose proof (setlk_nonblocking_posix sample_attrs q 5 0 w sample_session ltac:(done) ltac:(done) ltac:(lia)
    (sample_lock_request_ok 1 3 105 1 false 5 ltac:(u64_lia) ltac:(lia)) ltac:(cbn; lia) ltac:(done) ltac:(done)
    (empty_locks_inv _ _ _)) as H.
  assert (Hr : (setlk sample_attrs q 0 [undisturbed 0] w).1 = Some ReplyOk) by reflexivity.
  split; [exact Hr|].
  destruct (setlk sample_attrs q 0 [undisturbed 0] w) as [reply w']. cbn [fst snd] in *. subst reply.
  destruct H as (_ & _ & [[_ Hat]|[H _]]); [|discriminate H].
  rewrite Hat. reflexivity.
Defined.

(** Owner 1 holds file 5 for 30 seconds. *)
Definition sample_held_world : LockWorld := LockW (sample_mount 20) (sample_lock 1 5 0 (empty_locks sample_sessions)).2.

Lemma sample_held_waiting :
  waiting sample_session (sample_request 9 3 105 2 true) 5 (txt "beta") (seconds 30) sample_held_world.
Proof.
  split.
  - done.
  - done.
  - done.
  - assert (H : lock_inv sample_session 0 (sample_lock 1 5 0 (empty_locks sample_sessions)).2); [|apply H].
    eapply (lock_update_inv sample_session FILE 5 1 30 0 99 F_WRLCK 1 0);
      [u64_lia|lia|u64_lia|u64_lia|lia|right; by left|apply surjective_pairing|apply empty_locks_inv].
  - intros l Hl _ _. vm_compute in Hl. apply list_elem_of_singleton in Hl as ->. vm_compute. done.
  - reflexivity.
  - intros l1 l2 H1 H2 _. vm_compute in H1, H2. apply list_elem_of_singleton in H1 as ->, H2 as ->. done.
  - intros e He. by apply not_elem_of_nil in He.
Qed.

Lemma blocked_setlk_granted_after_expiry_witness :
  (setlk sample_attrs (sample_request 9 3 105 2 true) 0
     [undisturbed (seconds 10); undisturbed (seconds 31)] sample_held_world).1 = Some ReplyOk /\
  (setlk sample_attrs (sample_request 9 3 105 2 true) 0 [undisturbed (seconds 10)] sample_held_world).1 = None.
Proof.
  split; [|reflexivity].
  apply (blocked_setlk_granted_after_expiry sample_session sample_attrs (sample_request 9 3 105 2 true) 5
    (txt "beta") (seconds 30)).
  - by apply (sample_lock_request_ok 9 3 105 2 true).
  - lia.
  - done.
  - done.
  - done.
  - apply sample_held_waiting.
  - by repeat (apply Forall_cons_2; [split; intros w Hw; exact Hw|]).
  - exists (undisturbed (seconds 31)). split; [right; by left|done].
Defined.

Lemma pair_fst {A B} (p : A * B) a : p.1 = a -> p = (a, p.2).
Proof. destruct p; cbn. congruence. Qed.

(** Write locks of owner 1 on the files 5 and 6, then a close of file 5. *)
Definition locked_first : LockWorld :=
  (setlk sample_attrs (sample_request 1 3 105 1 false) 0 [undisturbed 0]
     (LockW (sample_mount 10) (empty_locks sample_sessions))).2.
Definition locked_both : LockWorld :=
  (setlk sample_attrs (sample_request 2 4 106 1 false) 0 [undisturbed 0] locked_first).2.

(** Closing one file drops the locks on the others. A process takes write
    locks on two files and closes a descriptor of the first one. The clean-up
    in [flush] removes every lock of the owner, and the lock on the second file
    is gone from the database, where POSIX releases only the locks on the
    closed file. *)
Theorem close_drops_locks_of_other_files :
  exists w1 w2 w3,
    setlk sample_attrs (sample_request 1 3 105 1 false) 0 [undisturbed 0]
      (LockW (sample_mount 10) (empty_locks sample_sessions)) = (Some ReplyOk, w1) /\
    setlk sample_attrs (sample_request 2 4 106 1 false) 0 [undisturbed 0] w1 = (Some ReplyOk, w2) /\
    held 6 0 w2 1 0 = [(F_WRLCK, 1)] /\
    flush (Ok false) 3 1 0 w2 = (ReplyOk, w3) /\
    held 6 0 w3 1 0 = [].
Proof.
  exists locked_first, locked_both, (flush (Ok false) 3 1 0 locked_both).2.
  split_and!; [apply pair_fst|apply pair_fst| |apply pair_fst|]; vm_compute; reflexivity.
Qed.

(** Two event threads can lose a lock of the in-memory backend. Reading the
    records of a file and storing the updated ones are two separate critical
    sections. When two requests read the same records before either stores,
    both are granted and the records of the first are overwritten: afterwards
    its owner holds what it held before, although its request succeeded, and a
    conflicting write lock was granted. *)
Theorem memory_backend_lost_lock m db resource_key qa qb :
  lock_backend_is_pg m = false -> rq_owner qa <> rq_owner qb ->
  0 <= rq_start qb <= rq_end_ qb -> rq_end_ qb <= U64_MAX ->
  let records := local_lock_records_for_key m resource_key in
  Forall lock_wf records ->
  let request q := update_owner_lock_range records (rq_owner q) (rq_start q) (rq_end_ q)
    (Some (LockRec (rq_owner q) F_WRLCK (rq_start q) (Some (rq_end_ q)) (rq_pid q))) in
  exists w1 w2,
    persist_lock_records_for_key resource_key (rq_owner qa) (request qa) 0 (LockW m db) = (Ok tt, w1) /\
    persist_lock_records_for_key resource_key (rq_owner qb) (request qb) 0 w1 = (Ok tt, w2) /\
    forall x, lock_at (local_lock_records_for_key (w_mount w2) resource_key) (rq_owner qa) x
              = lock_at records (rq_owner qa) x.
Proof.
  intros Hb Hne Hr He records Hwf request. unfold persist_lock_records_for_key. cbn [w_mount w_db].
  rewrite Hb. eexists _, _. split; [reflexivity|]. cbn [w_mount].
  change (lock_backend_is_pg (mirror_locks ?k ?r m)) with (lock_backend_is_pg m). rewrite Hb.
  split; [reflexivity|]. intros x. cbn [w_mount].
  assert (E : local_lock_records_for_key (mirror_locks resource_key (request qb)
    (mirror_locks resource_key (request qa) m)) resource_key = request qb).
  { unfold local_lock_records_for_key, mirror_locks. cbn [lm_posix_locks set_posix_locks].
    case_bool_decide as Hemp; [by rewrite lookup_delete_eq, Hemp|by rewrite lookup_insert_eq]. }
  rewrite E. unfold request. rewrite update_owner_lock_range_at by done.
  rewrite decide_False by (intros [? _]; done).
  change (option_list (Some ?r)) with [r]. rewrite lock_at_one. cbn [lk_owner].
  destruct (Z.eqb_spec (rq_owner qb) (rq_owner qa)); [done|]. by rewrite app_nil_r.
Qed.

Lemma memory_backend_lost_lock_witness :
  exists m qa qb w2,
    (setlk_try qa (txt "file:5") 0 (LockW m (empty_locks sample_sessions))).1 = Ok true /\
    (setlk_try qb (txt "file:5") 0 (LockW m (empty_locks sample_sessions))).1 = Ok true /\
    lock_at (local_lock_records_for_key (w_mount w2) (txt "file:5")) (rq_owner qa) 0 = [].
Proof.
  set (m := {| lm_postgres_lease := false; lm_read_only := false; lm_degraded_read_only := false;
     lm_lease_ttl_seconds := 30; lm_session := 10; lm_handles := ∅;
     lm_posix_locks := ∅; lm_lock_owners := ∅; lm_pending_waits := ∅ |}).
  destruct (memory_backend_lost_lock m (empty_locks sample_sessions) (txt "file:5")
    (sample_request 1 3 105 1 false) (sample_request 2 3 105 2 false)) as (w1 & w2 & _ & _ & H);
    [done|done|cbn; lia|cbn; u64_lia|constructor|].
  exists m, (sample_request 1 3 105 1 false), (sample_request 2 3 105 2 false), w2.
  split; [reflexivity|]. split; [reflexivity|]. exact (H 0).
Defined.
