(* ===== verification/Acl.v ===== *)
(** * POSIX access control lists

    Model of the ACL code: parsing and checking in the FUSE layer
    (src/rust_fuse/src/fs.rs), checking inside database transactions
    (src/rust_hotpath/src/pg/metadata_updates.rs), and the chmod and
    default-inheritance rewrites (src/rust_hotpath/src/pg/xattrs.rs). An xattr
    value is its byte string; an abstract ACL with its encoding and the POSIX
    access check are the specification. *)

From stdpp Require Import prelude list numbers strings.
From Stdlib Require Import ZArith Lia.
From S2P Require Import Prelude Errno.

#[local] Open Scope Z_scope.

(** ** Little-endian entries *)

Definition u16_le (b : bytes) (i : Z) : Z := byte_at b i + 256 * byte_at b (i + 1).
Definition u32_le (b : bytes) (i : Z) : Z := u16_le b i + 65536 * u16_le b (i + 2).
Definition i32_le (b : bytes) (i : Z) : Z :=
  let v := u32_le b i in if 2 ^ 31 <=? v then v - 2 ^ 32 else v.
Definition to_le16 (v : Z) : bytes := [v mod 256; v / 256 mod 256].
Definition to_le32 (v : Z) : bytes := to_le16 (v mod 65536) ++ to_le16 (v / 65536).

(** [chunks_exact(8)]: whole 8-byte chunks, the remainder dropped. *)
Fixpoint chunks_exact_8 (l : bytes) : list bytes :=
  match l with
  | a :: b :: c :: d :: e :: f :: g :: h :: l => [a; b; c; d; e; f; g; h] :: chunks_exact_8 l
  | _ => []
  end.

Definition entry_tag (entry : bytes) : Z := u16_le entry 0.
Definition entry_perm (entry : bytes) : Z := u16_le entry 2.
Definition entry_id (entry : bytes) : Z := u32_le entry 4.

(** [entry[2..4].copy_from_slice(&perm.to_le_bytes())]. *)
Definition set_entry_perm (entry : bytes) (perm : Z) : bytes := splice entry 2 (to_le16 perm).

Definition U32_ID_MAX : Z := 2 ^ 32 - 1.

(** ** The FUSE layer *)

Record PosixAclEntry : Set := { ae_tag : Z; ae_perm : Z; ae_id : Z }.

Record SubjectIdentity : Set := { su_uid : Z; su_gid : Z; su_groups : list Z }.

(** The fields of [FileAttr] the checks read. *)
Record AttrPerm : Set := { at_uid : Z; at_gid : Z; at_perm : Z }.

Definition is_root (s : SubjectIdentity) : bool := su_uid s =? 0.

Definition mem (x : Z) (l : list Z) : bool := existsb (fun y => x =? y) l.

Definition R_OK : Z := 4.
Definition W_OK : Z := 2.
Definition X_OK : Z := 1.

Definition access_mask_from_mode (mask : Z) : Z :=
  let required := 0 in
  let required := if negb (Z.land mask R_OK =? 0) then Z.lor required 4 else required in
  let required := if negb (Z.land mask W_OK =? 0) then Z.lor required 2 else required in
  if negb (Z.land mask X_OK =? 0) then Z.lor required 1 else required.

Definition can_access (subject : SubjectIdentity) (attrs : AttrPerm) (mode : Z) : bool :=
  if is_root subject then true
  else
    let required := access_mask_from_mode mode in
    let allowed :=
      if su_uid subject =? at_uid attrs then Z.land (Z.shiftr (at_perm attrs) 6) 7
      else if mem (at_gid attrs) (su_groups subject) then Z.land (Z.shiftr (at_perm attrs) 3) 7
      else Z.land (at_perm attrs) 7 in
    Z.land allowed required =? required.

(** The [while idx + 8 <= value.len()] loop over the entries, and the check that
    it consumed everything. *)
Fixpoint parse_acl_entries (l : bytes) : outcome Z (list PosixAclEntry) :=
  match l with
  | a :: b :: c :: d :: e :: f :: g :: h :: l =>
      let entry := [a; b; c; d; e; f; g; h] in
      let tag := entry_tag entry in
      let perm := entry_perm entry in
      let id :=
        if (tag =? 0x0001) || (tag =? 0x0004) || (tag =? 0x0020) || (tag =? 0x0010)
        then -1 else i32_le entry 4 in
      entries ← parse_acl_entries l;
      Ok ({| ae_tag := tag; ae_perm := perm; ae_id := id |} :: entries)
  | [] => Ok []
  | _ => Err EINVAL
  end.

Definition parse_posix_acl_xattr (value : bytes) : outcome Z (list PosixAclEntry) :=
  if zlen value <? 4 then Err EINVAL
  else if negb (u32_le value 0 =? 2) then Err EINVAL
  else parse_acl_entries (drop 4 value).

(** The locals of [acl_permission_from_entries]. *)
Record PermScan : Set := {
  ps_mask_perm : Z;
  ps_user_obj_perm : option Z;
  ps_group_obj_perm : option Z;
  ps_other_perm : option Z;
  ps_named_user_perm : option Z;
  ps_named_group_matches : list (Z * Z)
}.

Definition perm_scan_init : PermScan :=
  {| ps_mask_perm := 7; ps_user_obj_perm := None; ps_group_obj_perm := None;
     ps_other_perm := None; ps_named_user_perm := None; ps_named_group_matches := [] |}.

Definition perm_scan_entry (subject : SubjectIdentity) (s : PermScan) (entry : PosixAclEntry)
    : PermScan :=
  let '{| ps_mask_perm := m; ps_user_obj_perm := uo; ps_group_obj_perm := go;
          ps_other_perm := ot; ps_named_user_perm := nu; ps_named_group_matches := ng |} := s in
  let perm := Z.land (ae_perm entry) 7 in
  let tag := ae_tag entry in
  if tag =? 0x0001 then Build_PermScan m (Some perm) go ot nu ng
  else if (tag =? 0x0002) && ((0 <=? ae_id entry) && (ae_id entry =? su_uid subject))
  then Build_PermScan m uo go ot (Some perm) ng
  else if tag =? 0x0004 then Build_PermScan m uo (Some perm) ot nu ng
  else if (tag =? 0x0008) && (0 <=? ae_id entry)
  then Build_PermScan m uo go ot nu (ng ++ [(ae_id entry, perm)])
  else if tag =? 0x0010 then Build_PermScan perm uo go ot nu ng
  else if tag =? 0x0020 then Build_PermScan m uo go (Some perm) nu ng
  else s.

Definition acl_permission_from_entries (subject : SubjectIdentity) (entries : list PosixAclEntry)
    (attrs : AttrPerm) (mode : Z) : bool :=
  if is_root subject then true
  else
    let required := access_mask_from_mode mode in
    let s := foldl (perm_scan_entry subject) perm_scan_init entries in
    if at_uid attrs =? su_uid subject then
      Z.land (default 0 (ps_user_obj_perm s)) required =? required
    else
      match ps_named_user_perm s with
      | Some named_user_perm =>
          Z.land (Z.land named_user_perm (ps_mask_perm s)) required =? required
      | None =>
          let group_allowed :=
            if mem (at_gid attrs) (su_groups subject)
            then Z.lor 0 (default 0 (ps_group_obj_perm s)) else 0 in
          let group_allowed :=
            foldl (fun acc '(group_id, perm) =>
                     if mem group_id (su_groups subject) then Z.lor acc perm else acc)
              group_allowed (ps_named_group_matches s) in
          if negb (group_allowed =? 0) then
            Z.land (Z.land group_allowed (ps_mask_perm s)) required =? required
          else Z.land (default 0 (ps_other_perm s)) required =? required
      end.

(** The locals of [mode_from_acl_entries]. *)
Record ModeScan : Set := {
  ms_user_obj_perm : option Z;
  ms_group_obj_perm : option Z;
  ms_mask_perm : option Z;
  ms_other_perm : option Z;
  ms_has_named_entry : bool
}.

Definition mode_scan_entry (s : ModeScan) (entry : PosixAclEntry) : ModeScan :=
  let '{| ms_user_obj_perm := uo; ms_group_obj_perm := go; ms_mask_perm := m;
          ms_other_perm := ot; ms_has_named_entry := nm |} := s in
  let perm := Z.land (ae_perm entry) 7 in
  let tag := ae_tag entry in
  if tag =? 0x0001 then Build_ModeScan (Some perm) go m ot nm
  else if (tag =? 0x0002) || (tag =? 0x0008) then Build_ModeScan uo go m ot true
  else if tag =? 0x0004 then Build_ModeScan uo (Some perm) m ot nm
  else if tag =? 0x0010 then Build_ModeScan uo go (Some perm) ot nm
  else if tag =? 0x0020 then Build_ModeScan uo go m (Some perm) nm
  else s.

(** 511 is 0o777. *)

(** [Option::ok_or]. *)
Definition ok_or {E A} (o : option A) (e : E) : outcome E A :=
  match o with Some a => Ok a | None => Err e end.

(** [Option::or]. *)
Definition opt_or {A} (a b : option A) : option A := match a with Some _ => a | None => b end.

Definition mode_from_acl_entries (entries : list PosixAclEntry) (current_perm : Z) : outcome Z Z :=
  let s := foldl mode_scan_entry (Build_ModeScan None None None None false) entries in
  if ms_has_named_entry s && bool_decide (ms_mask_perm s = None) then Err EINVAL
  else
    user_bits ← ok_or (ms_user_obj_perm s) EINVAL;
    group_bits ← ok_or (opt_or (ms_mask_perm s) (ms_group_obj_perm s)) EINVAL;
    other_bits ← ok_or (ms_other_perm s) EINVAL;
    Ok (Z.lor (Z.lor (Z.lor (Z.land current_perm (Z.lnot 511)) (Z.shiftl user_bits 6))
                 (Z.shiftl group_bits 3)) other_bits).

Definition acl_access_mode_bits (value : bytes) : outcome Z Z :=
  entries ← parse_posix_acl_xattr value;
  mode ← mode_from_acl_entries entries 0;
  Ok (Z.land mode 511).

Definition require_acl_access (result : outcome Z bool) : outcome Z unit :=
  match result with
  | Ok true => Ok tt
  | Ok false => Err EACCES
  | Err errno => Err errno
  | Panic => Panic
  end.

(** ** Inside transactions *)

(** The locals of [acl_has_permissions]. *)
Record AclScan : Set := {
  sc_stage : Z;
  sc_user_obj : option Z;
  sc_group_obj : option Z;
  sc_mask : option Z;
  sc_other : option Z;
  sc_named_user : option Z;
  sc_has_named_entry : bool;
  sc_matched_group : bool;
  sc_group_permissions : Z;
  sc_named_user_ids : list Z;
  sc_named_group_ids : list Z
}.

Definition acl_scan_init : AclScan := Build_AclScan 0 None None None None None false false 0 [] [].

Definition acl_scan_entry (actor_uid : Z) (actor_groups : list Z) (owner_gid : Z)
    (s : AclScan) (entry : bytes) : outcome string AclScan :=
  let '(Build_AclScan stage uo go m ot nu named matched gp uids gids) := s in
  let tag := entry_tag entry in
  let permissions := entry_perm entry in
  if negb (Z.land permissions (Z.lnot 7) =? 0) then Err "invalid POSIX ACL permission bits"
  else
    let id := entry_id entry in
    if (tag =? 0x0001) && (stage =? 0) then
      Ok (Build_AclScan 1 (Some permissions) go m ot nu named matched gp uids gids)
    else if (tag =? 0x0002) && ((stage =? 1) && negb (id =? U32_ID_MAX)) then
      if mem id uids then Err "duplicate POSIX ACL named user"
      else
        let nu := if id =? actor_uid then Some permissions else nu in
        Ok (Build_AclScan stage uo go m ot nu true matched gp (uids ++ [id]) gids)
    else if (tag =? 0x0004) && (stage =? 1) then
      let '(matched, gp) :=
        if mem owner_gid actor_groups then (true, Z.lor gp permissions) else (matched, gp) in
      Ok (Build_AclScan 2 uo (Some permissions) m ot nu named matched gp uids gids)
    else if (tag =? 0x0008) && ((stage =? 2) && negb (id =? U32_ID_MAX)) then
      if mem id gids then Err "duplicate POSIX ACL named group"
      else
        let '(matched, gp) :=
          if mem id actor_groups then (true, Z.lor gp permissions) else (matched, gp) in
        Ok (Build_AclScan stage uo go m ot nu true matched gp uids (gids ++ [id]))
    else if (tag =? 0x0010) && (stage =? 2) then
      Ok (Build_AclScan 3 uo go (Some permissions) ot nu named matched gp uids gids)
    else if (tag =? 0x0020) && ((stage =? 2) || (stage =? 3)) then
      Ok (Build_AclScan 4 uo go m (Some permissions) nu named matched gp uids gids)
    else Err "invalid POSIX ACL entry".

Fixpoint acl_scan_all (actor_uid : Z) (actor_groups : list Z) (owner_gid : Z)
    (s : AclScan) (entries : list bytes) : outcome string AclScan :=
  match entries with
  | [] => Ok s
  | entry :: entries =>
      s ← acl_scan_entry actor_uid actor_groups owner_gid s entry;
      acl_scan_all actor_uid actor_groups owner_gid s entries
  end.

Definition acl_has_permissions (acl : bytes) (actor_uid : Z) (actor_groups : list Z)
    (owner_uid owner_gid requested : Z) : outcome string bool :=
  if (zlen acl <? 4) || negb ((zlen acl - 4) mod 8 =? 0) then Err "invalid POSIX ACL xattr length"
  else if negb (u32_le acl 0 =? 2) then Err "unsupported POSIX ACL xattr version"
  else
    s ← acl_scan_all actor_uid actor_groups owner_gid acl_scan_init (chunks_exact_8 (drop 4 acl));
    if negb (sc_stage s =? 4) || bool_decide (sc_user_obj s = None)
       || bool_decide (sc_group_obj s = None) || bool_decide (sc_other s = None)
    then Err "incomplete POSIX ACL xattr"
    else if sc_has_named_entry s && bool_decide (sc_mask s = None)
    then Err "incomplete POSIX ACL xattr"
    else if actor_uid =? owner_uid then
      Ok (Z.land (default 0 (sc_user_obj s)) requested =? requested)
    else
      match sc_named_user s with
      | Some permissions =>
          Ok (Z.land (Z.land permissions (default 7 (sc_mask s))) requested =? requested)
      | None =>
          if sc_matched_group s then
            let permissions :=
              if mem owner_gid actor_groups
              then Z.lor (sc_group_permissions s) (default 0 (sc_group_obj s))
              else sc_group_permissions s in
            Ok (Z.land (Z.land permissions (default 7 (sc_mask s))) requested =? requested)
          else Ok (Z.land (default 0 (sc_other s)) requested =? requested)
      end.

Definition acl_write_access (acl : bytes) (actor_uid : Z) (actor_groups : list Z)
    (owner_uid owner_gid : Z) : outcome string bool :=
  acl_has_permissions acl actor_uid actor_groups owner_uid owner_gid 2.

(** ** chmod and default inheritance *)

(** The locals of [chmod_access_acl]; the entries are rewritten in place. *)
Record ChmodScan : Set := {
  ch_user_obj : bool;
  ch_group_obj : option Z;
  ch_has_mask : bool;
  ch_other_entry : bool;
  ch_has_named_entry : bool
}.

Definition chmod_entry (owner group other index : Z) (s : ChmodScan) (entry : bytes)
    : outcome string (ChmodScan * bytes) :=
  let '(Build_ChmodScan uo go hm ot nm) := s in
  let tag := entry_tag entry in
  let permissions := entry_perm entry in
  if negb (Z.land permissions (Z.lnot 7) =? 0) then Err "invalid POSIX ACL permission bits"
  else if (tag =? 0x0001) && negb uo then
    Ok (Build_ChmodScan true go hm ot nm, set_entry_perm entry owner)
  else if (tag =? 0x0002) || (tag =? 0x0008) then Ok (Build_ChmodScan uo go hm ot true, entry)
  else if (tag =? 0x0004) && bool_decide (go = None) then
    Ok (Build_ChmodScan uo (Some index) hm ot nm, entry)
  else if (tag =? 0x0010) && negb hm then
    Ok (Build_ChmodScan uo go true ot nm, set_entry_perm entry group)
  else if (tag =? 0x0020) && negb ot then
    Ok (Build_ChmodScan uo go hm true nm, set_entry_perm entry other)
  else Err "invalid or duplicate POSIX ACL entry".

Fixpoint chmod_entries (owner group other index : Z) (s : ChmodScan) (entries : list bytes)
    : outcome string (ChmodScan * list bytes) :=
  match entries with
  | [] => Ok (s, [])
  | entry :: entries =>
      '(s, entry) ← chmod_entry owner group other index s entry;
      '(s, entries) ← chmod_entries owner group other (index + 1) s entries;
      Ok (s, entry :: entries)
  end.

Definition chmod_access_acl (value : bytes) (mode : Z) : outcome string bytes :=
  if (zlen value <? 4) || negb ((zlen value - 4) mod 8 =? 0) then Err "invalid POSIX ACL xattr length"
  else if negb (u32_le value 0 =? 2) then Err "unsupported POSIX ACL xattr version"
  else
    let owner := Z.land (Z.shiftr mode 6) 7 in
    let group := Z.land (Z.shiftr mode 3) 7 in
    let other := Z.land mode 7 in
    '(s, entries) ← chmod_entries owner group other 0 (Build_ChmodScan false None false false false)
                      (chunks_exact_8 (drop 4 value));
    let acl := take 4 value ++ mjoin entries in
    if negb (ch_user_obj s) || bool_decide (ch_group_obj s = None) || negb (ch_other_entry s)
       || (ch_has_named_entry s && negb (ch_has_mask s))
    then Err "incomplete POSIX ACL xattr"
    else if negb (ch_has_mask s) then
      let offset := 4 + default 0 (ch_group_obj s) * 8 + 2 in
      copy_from_slice acl offset (offset + 2) (to_le16 group)
    else Ok acl.

(** The locals of [constrain_default_acl_to_mode]. *)
Record ConstrainScan : Set := {
  cs_has_mask : bool;
  cs_has_named_entry : bool;
  cs_user_obj : option Z;
  cs_group_obj : option Z;
  cs_acl_mask : option Z;
  cs_other : option Z
}.

Definition constrain_entry (owner_mask group_mask other_mask : Z) (s : ConstrainScan) (entry : bytes)
    : outcome string (ConstrainScan * bytes) :=
  let '(Build_ConstrainScan hm nm uo go am ot) := s in
  let tag := entry_tag entry in
  let perm := entry_perm entry in
  if tag =? 0x0001 then
    let perm := Z.land perm owner_mask in
    Ok (Build_ConstrainScan hm nm (Some perm) go am ot, set_entry_perm entry perm)
  else if (tag =? 0x0002) || (tag =? 0x0008) then
    Ok (Build_ConstrainScan hm true uo go am ot, set_entry_perm entry perm)
  else if tag =? 0x0004 then
    Ok (Build_ConstrainScan hm nm uo (Some perm) am ot, set_entry_perm entry perm)
  else if tag =? 0x0010 then
    let perm := Z.land perm group_mask in
    Ok (Build_ConstrainScan true nm uo go (Some perm) ot, set_entry_perm entry perm)
  else if tag =? 0x0020 then
    let perm := Z.land perm other_mask in
    Ok (Build_ConstrainScan hm nm uo go am (Some perm), set_entry_perm entry perm)
  else Err "invalid POSIX ACL entry tag".

Fixpoint constrain_entries (owner_mask group_mask other_mask : Z) (s : ConstrainScan)
    (entries : list bytes) : outcome string (ConstrainScan * list bytes) :=
  match entries with
  | [] => Ok (s, [])
  | entry :: entries =>
      '(s, entry) ← constrain_entry owner_mask group_mask other_mask s entry;
      '(s, entries) ← constrain_entries owner_mask group_mask other_mask s entries;
      Ok (s, entry :: entries)
  end.

Definition constrain_default_acl_to_mode (value : bytes) (mode : Z) : outcome string (bytes * Z) :=
  if (zlen value <? 4) || negb ((zlen value - 4) mod 8 =? 0)
  then Err "invalid POSIX default ACL xattr length"
  else if negb (u32_le value 0 =? 2) then Err "unsupported POSIX ACL xattr version"
  else
    let owner_mask := Z.land (Z.shiftr mode 6) 7 in
    let group_mask := Z.land (Z.shiftr mode 3) 7 in
    let other_mask := Z.land mode 7 in
    '(s, entries) ← constrain_entries owner_mask group_mask other_mask
                      (Build_ConstrainScan false false None None None None)
                      (chunks_exact_8 (drop 4 value));
    let access_acl := take 4 value ++ mjoin entries in
    if cs_has_named_entry s && negb (cs_has_mask s)
    then Err "POSIX ACL with named entries is missing ACL_MASK"
    else
      owner_perm ← ok_or (cs_user_obj s) "POSIX ACL is missing ACL_USER_OBJ";
      group_perm ← ok_or (opt_or (cs_acl_mask s) (cs_group_obj s)) "POSIX ACL is missing ACL_GROUP_OBJ";
      other_perm ← ok_or (cs_other s) "POSIX ACL is missing ACL_OTHER";
      Ok (access_acl,
          Z.lor (Z.lor (Z.lor (Z.land mode (Z.lnot 511)) (Z.shiftl owner_perm 6))
                   (Z.shiftl group_perm 3)) other_perm).

(** ** Specification: abstract ACLs *)

Record PosixAcl : Set := {
  acl_user_obj : Z;
  acl_named_users : list (Z * Z);
  acl_group_obj : Z;
  acl_named_groups : list (Z * Z);
  acl_mask : option Z;
  acl_other : Z
}.

Definition is_perm (p : Z) : Prop := 0 <= p <= 7.
Definition is_named (e : Z * Z) : Prop := 0 <= e.1 < U32_ID_MAX /\ is_perm e.2.

(** A valid ACL: three-bit permissions, distinct qualifiers, and a mask as soon
    as there is a named entry. *)
Record wf_acl (a : PosixAcl) : Prop := {
  wf_user_obj : is_perm (acl_user_obj a);
  wf_named_users : Forall is_named (acl_named_users a);
  wf_users_nodup : NoDup (acl_named_users a).*1;
  wf_group_obj : is_perm (acl_group_obj a);
  wf_named_groups : Forall is_named (acl_named_groups a);
  wf_groups_nodup : NoDup (acl_named_groups a).*1;
  wf_mask : forall m, acl_mask a = Some m -> is_perm m;
  wf_mask_named : acl_named_users a <> [] \/ acl_named_groups a <> [] -> acl_mask a <> None;
  wf_other : is_perm (acl_other a)
}.

(** The xattr encoding, entries in canonical order. *)
Definition entry_bytes (e : Z * Z * Z) : bytes :=
  let '(tag, perm, id) := e in to_le16 tag ++ to_le16 perm ++ to_le32 id.

Definition user_entry (e : Z * Z) : Z * Z * Z := (2, e.2, e.1).
Definition group_entry (e : Z * Z) : Z * Z * Z := (8, e.2, e.1).

Definition acl_entries (a : PosixAcl) : list (Z * Z * Z) :=
  [(1, acl_user_obj a, U32_ID_MAX)] ++ (user_entry <$> acl_named_users a)
  ++ [(4, acl_group_obj a, U32_ID_MAX)] ++ (group_entry <$> acl_named_groups a)
  ++ (match acl_mask a with Some m => [(16, m, U32_ID_MAX)] | None => [] end)
  ++ [(32, acl_other a, U32_ID_MAX)].

Definition encode_acl (a : PosixAcl) : bytes := to_le32 2 ++ mjoin (entry_bytes <$> acl_entries a).

(** The permissions of the named-user entry of [uid]. *)
Definition named_user_perm (a : PosixAcl) (uid : Z) : option Z :=
  foldl (fun nu '(id, p) => if id =? uid then Some p else nu) None (acl_named_users a).

(** The permissions of the group entries that match the actor. *)
Definition matching_groups (a : PosixAcl) (groups : list Z) (gid : Z) : list Z :=
  (if mem gid groups then [acl_group_obj a] else [])
  ++ (filter (fun e => mem e.1 groups = true) (acl_named_groups a)).*2.

Definition has_bits (perm requested : Z) : bool := Z.land perm requested =? requested.

(** The POSIX access check: the owner entry, else the actor's named entry under
    the mask, else, if any group entry matches, some matching entry under the
    mask, else the other entry. *)
Definition posix_access (a : PosixAcl) (uid : Z) (groups : list Z) (owner_uid owner_gid requested : Z)
    : bool :=
  if uid =? owner_uid then has_bits (acl_user_obj a) requested
  else
    match named_user_perm a uid with
    | Some p => has_bits (Z.land p (default 7 (acl_mask a))) requested
    | None =>
        let ms := matching_groups a groups owner_gid in
        if bool_decide (ms = []) then has_bits (acl_other a) requested
        else existsb (fun p => has_bits (Z.land p (default 7 (acl_mask a))) requested) ms
    end.

(** ** Encoding lemmas *)

Definition is_entry (e : Z * Z * Z) : Prop :=
  let '(tag, perm, id) := e in 0 <= tag < 65536 /\ is_perm perm /\ 0 <= id <= U32_ID_MAX.

Lemma u16_le_to_le16 v : 0 <= v < 65536 -> v mod 256 + 256 * (v / 256 mod 256) = v.
Proof. intros. rewrite (Z.mod_small (v / 256)) by (Z.to_euclidean_division_equations; lia).
  pose proof (Z.div_mod v 256). lia. Qed.

(** Any 16-bit permission word. *)
Definition is_entry16 (e : Z * Z * Z) : Prop :=
  let '(tag, perm, id) := e in
  0 <= tag < 65536 /\ 0 <= perm < 65536 /\ 0 <= id <= U32_ID_MAX.

Lemma is_entry_16 e : is_entry e -> is_entry16 e.
Proof. destruct e as [[tag perm] id]. unfold is_entry, is_entry16, is_perm. lia. Qed.

Lemma entry_bytes_fields16 e : is_entry16 e ->
  entry_tag (entry_bytes e) = e.1.1 /\ entry_perm (entry_bytes e) = e.1.2 /\
  entry_id (entry_bytes e) = e.2.
Proof.
  destruct e as [[tag perm] id]. intros (Ht & Hp & Hi). unfold U32_ID_MAX in *. cbn [fst snd].
  assert (entry_tag (entry_bytes (tag, perm, id)) = tag mod 256 + 256 * (tag / 256 mod 256)) as -> by done.
  assert (entry_perm (entry_bytes (tag, perm, id)) = perm mod 256 + 256 * (perm / 256 mod 256)) as -> by done.
  assert (entry_id (entry_bytes (tag, perm, id)) =
    (id mod 65536) mod 256 + 256 * (id mod 65536 / 256 mod 256) +
    65536 * ((id / 65536) mod 256 + 256 * (id / 65536 / 256 mod 256))) as -> by done.
  rewrite !u16_le_to_le16; [|Z.to_euclidean_division_equations; lia..|lia|lia].
  split_and!; [done..|]. pose proof (Z.div_mod id 65536). lia.
Qed.

Lemma entry_bytes_fields e : is_entry e ->
  entry_tag (entry_bytes e) = e.1.1 /\ entry_perm (entry_bytes e) = e.1.2 /\
  entry_id (entry_bytes e) = e.2.
Proof. intros He. by apply entry_bytes_fields16, is_entry_16. Qed.

Lemma entry_bytes_8 e : exists a b c d x y z w, entry_bytes e = [a; b; c; d; x; y; z; w].
Proof. destruct e as [[t p] i]. unfold entry_bytes, to_le32, to_le16. cbn. by do 8 eexists. Qed.

Lemma join_cons {A} (l : list A) ls : mjoin (l :: ls) = l ++ mjoin ls.
Proof. done. Qed.

Lemma chunks_exact_8_join (ls : list bytes) :
  Forall (fun l => length l = 8%nat) ls -> chunks_exact_8 (mjoin ls) = ls.
Proof.
  induction 1 as [|l ls Hl Hls IH]; [done|]. rewrite join_cons.
  do 8 (destruct l as [|? l]; [done|]). destruct l; [|done]. cbn. by rewrite IH.
Qed.

Lemma zlen_join_8 (ls : list bytes) : Forall (fun l => length l = 8%nat) ls -> zlen (mjoin ls) = 8 * zlen ls.
Proof.
  induction 1 as [|l ls Hl Hls IH]; [done|]. rewrite join_cons, zlen_app, zlen_cons, IH.
  unfold zlen at 1. rewrite Hl. lia.
Qed.

Lemma entry_bytes_length es : Forall (fun l => length l = 8%nat) (entry_bytes <$> es).
Proof.
  apply Forall_fmap, Forall_forall. intros e _. cbn.
  destruct (entry_bytes_8 e) as (?&?&?&?&?&?&?&?&->). done.
Qed.

(** What the readers of the header see in an encoded value. *)
Lemma encode_header (ls : list bytes) :
  Forall (fun l => length l = 8%nat) ls ->
  let v := to_le32 2 ++ mjoin ls in
  4 <= zlen v /\ (zlen v - 4) mod 8 = 0 /\ u32_le v 0 = 2 /\ drop 4 v = mjoin ls /\
  take 4 v = to_le32 2.
Proof.
  intros H v. unfold v. rewrite zlen_app, zlen_join_8 by done.
  change (zlen (to_le32 2)) with 4. pose proof (zlen_nonneg ls). split_and!; try done; [lia|].
  replace (4 + 8 * zlen ls - 4) with (zlen ls * 8) by lia. apply Z.mod_mul. lia.
Qed.

Lemma wf_acl_entries a : wf_acl a -> Forall is_entry (acl_entries a).
Proof.
  intros []. unfold acl_entries, is_entry, U32_ID_MAX, is_named in *.
  repeat apply Forall_app_2; try (repeat constructor; unfold is_perm in *; lia).
  - apply Forall_fmap. eapply Forall_impl; [exact wf_named_users0|]. intros [id p] [Hi Hp].
    cbn in *. unfold is_perm, U32_ID_MAX in *. lia.
  - apply Forall_fmap. eapply Forall_impl; [exact wf_named_groups0|]. intros [id p] [Hi Hp].
    cbn in *. unfold is_perm, U32_ID_MAX in *. lia.
  - destruct (acl_mask a) as [m|] eqn:E; [|constructor]. specialize (wf_mask0 m eq_refl).
    repeat constructor; unfold is_perm in *; lia.
Qed.

Lemma perm_land_7 p : is_perm p -> Z.land p 7 = p /\ Z.land p (Z.lnot 7) = 0.
Proof.
  unfold is_perm. intros Hp.
  assert (p = 0 \/ p = 1 \/ p = 2 \/ p = 3 \/ p = 4 \/ p = 5 \/ p = 6 \/ p = 7) as H by lia.
  by repeat destruct H as [ -> | H ]; [..|subst].
Qed.

Lemma mem_In x l : mem x l = true <-> x ∈ l.
Proof.
  unfold mem. rewrite existsb_exists. split.
  - intros (y & Hy & Heq). apply Z.eqb_eq in Heq as ->. by apply list_elem_of_In.
  - intros Hx. exists x. split; [by apply list_elem_of_In|apply Z.eqb_refl].
Qed.

Lemma mem_not_In x l : x ∉ l -> mem x l = false.
Proof. intros H. apply not_true_iff_false. by rewrite mem_In. Qed.

(** ** The transaction-side scan of an encoded ACL *)

Section HotpathScan.
Context (uid : Z) (groups : list Z) (gid : Z).

Lemma acl_scan_all_app s es es' :
  acl_scan_all uid groups gid s (es ++ es') =
    (s' ← acl_scan_all uid groups gid s es; acl_scan_all uid groups gid s' es').
Proof.
  revert s. induction es as [|e es IH]; intros s; [done|]. cbn.
  destruct (acl_scan_entry uid groups gid s e); cbn; [apply IH|done|done].
Qed.

Lemma scan_users us : forall uo go m ot nu named matched gp uids gids,
  Forall is_named us -> NoDup (uids ++ us.*1) ->
  acl_scan_all uid groups gid (Build_AclScan 1 uo go m ot nu named matched gp uids gids)
    (entry_bytes <$> (user_entry <$> us)) =
  Ok (Build_AclScan 1 uo go m ot
        (foldl (fun nu '(id, p) => if id =? uid then Some p else nu) nu us)
        (named || negb (bool_decide (us = []))) matched gp (uids ++ us.*1) gids).
Proof.
  induction us as [|[id p] us IH]; intros uo go m ot nu named matched gp uids gids Hn Hd.
  { cbn. by rewrite app_nil_r, orb_false_r. }
  inversion Hn as [|? ? [Hid Hp] Hn']; subst. cbn in Hid, Hp. rewrite !fmap_cons.
  cbn [acl_scan_all]. unfold acl_scan_entry.
  destruct (entry_bytes_fields (user_entry (id, p))) as (-> & -> & ->);
    [unfold is_entry, user_entry, is_perm, U32_ID_MAX in *; cbn; lia|].
  cbn [user_entry fst snd]. rewrite (proj2 (perm_land_7 p Hp)). cbn.
  destruct (Z.eqb_spec id U32_ID_MAX); [lia|]. cbn.
  rewrite mem_not_In.
  2: { intros Hin. apply NoDup_app in Hd as (_ & Hd & _). apply (Hd id Hin). cbn. set_solver. }
  cbn. rewrite IH; [|done|by rewrite <- app_assoc].
  f_equal. rewrite <- app_assoc. f_equal. by rewrite orb_true_r.
Qed.

Lemma scan_groups gs : forall uo go m ot nu named matched gp uids gids,
  Forall is_named gs -> NoDup (gids ++ gs.*1) ->
  acl_scan_all uid groups gid (Build_AclScan 2 uo go m ot nu named matched gp uids gids)
    (entry_bytes <$> (group_entry <$> gs)) =
  Ok (Build_AclScan 2 uo go m ot nu
        (named || negb (bool_decide (gs = [])))
        (matched || negb (bool_decide (filter (fun e => mem e.1 groups = true) gs = [])))
        (foldl Z.lor gp (filter (fun e => mem e.1 groups = true) gs).*2) uids (gids ++ gs.*1)).
Proof.
  induction gs as [|[id p] gs IH]; intros uo go m ot nu named matched gp uids gids Hn Hd.
  { cbn. by rewrite app_nil_r, !orb_false_r. }
  inversion Hn as [|? ? [Hid Hp] Hn']; subst. cbn in Hid, Hp.
  rewrite filter_cons. cbn [fst]. rewrite (fmap_cons group_entry), (fmap_cons entry_bytes).
  cbn [acl_scan_all]. unfold acl_scan_entry.
  destruct (entry_bytes_fields (group_entry (id, p))) as (-> & -> & ->);
    [unfold is_entry, group_entry, is_perm, U32_ID_MAX in *; cbn; lia|].
  cbn [group_entry fst snd]. rewrite (proj2 (perm_land_7 p Hp)). cbn.
  destruct (Z.eqb_spec id U32_ID_MAX); [lia|]. cbn.
  rewrite mem_not_In.
  2: { intros Hin. apply NoDup_app in Hd as (_ & Hd & _). apply (Hd id Hin). cbn. set_solver. }
  destruct (mem id groups) eqn:Em; cbn; (rewrite IH; [|done|by rewrite <- app_assoc]);
    cbn; rewrite <- app_assoc, !orb_true_r; done.
Qed.

Lemma scan_single tag p s : is_perm p -> 0 <= tag < 65536 ->
  acl_scan_entry uid groups gid s (entry_bytes (tag, p, U32_ID_MAX)) =
  let '(Build_AclScan stage uo go m ot nu named matched gp uids gids) := s in
  if (tag =? 0x0001) && (stage =? 0) then
    Ok (Build_AclScan 1 (Some p) go m ot nu named matched gp uids gids)
  else if (tag =? 0x0004) && (stage =? 1) then
    Ok (Build_AclScan 2 uo (Some p) m ot nu named (mem gid groups || matched)
          (if mem gid groups then Z.lor gp p else gp) uids gids)
  else if (tag =? 0x0010) && (stage =? 2) then
    Ok (Build_AclScan 3 uo go (Some p) ot nu named matched gp uids gids)
  else if (tag =? 0x0020) && ((stage =? 2) || (stage =? 3)) then
    Ok (Build_AclScan 4 uo go m (Some p) nu named matched gp uids gids)
  else Err "invalid POSIX ACL entry".
Proof.
  intros Hp Ht. destruct s. unfold acl_scan_entry.
  destruct (entry_bytes_fields (tag, p, U32_ID_MAX)) as (-> & -> & ->);
    [unfold is_entry, is_perm, U32_ID_MAX in *; lia|].
  cbn [fst snd]. rewrite (proj2 (perm_land_7 p Hp)), Z.eqb_refl. cbn [negb].
  rewrite !andb_false_r. destruct (mem gid groups); reflexivity.
Qed.

Lemma acl_scan_encoded a : wf_acl a ->
  exists s, acl_scan_all uid groups gid acl_scan_init (entry_bytes <$> acl_entries a) = Ok s /\
    sc_stage s = 4 /\ sc_user_obj s = Some (acl_user_obj a) /\
    sc_group_obj s = Some (acl_group_obj a) /\ sc_mask s = acl_mask a /\
    sc_other s = Some (acl_other a) /\ sc_named_user s = named_user_perm a uid /\
    (sc_has_named_entry s = true -> acl_mask a <> None) /\
    sc_matched_group s = negb (bool_decide (matching_groups a groups gid = [])) /\
    sc_group_permissions s = foldl Z.lor 0 (matching_groups a groups gid).
Proof.
  intros []. unfold acl_entries. rewrite !fmap_app, !acl_scan_all_app.
  change (entry_bytes <$> [(1, acl_user_obj a, U32_ID_MAX)])
    with [entry_bytes (1, acl_user_obj a, U32_ID_MAX)].
  change (entry_bytes <$> [(4, acl_group_obj a, U32_ID_MAX)])
    with [entry_bytes (4, acl_group_obj a, U32_ID_MAX)].
  change (entry_bytes <$> [(32, acl_other a, U32_ID_MAX)])
    with [entry_bytes (32, acl_other a, U32_ID_MAX)].
  cbn [acl_scan_all]. rewrite scan_single by (done || lia). unfold acl_scan_init.
  cbn [Z.eqb Pos.eqb andb mbind outcome_bind]. rewrite acl_scan_all_app, scan_users by done.
  cbn [mbind outcome_bind]. rewrite acl_scan_all_app. cbn [acl_scan_all].
  rewrite scan_single by (done || lia). cbn [Z.eqb Pos.eqb andb mbind outcome_bind].
  rewrite acl_scan_all_app, scan_groups by done. cbn [mbind outcome_bind].
  rewrite acl_scan_all_app.
  set (s2 := Build_AclScan 2 _ _ _ _ _ _ _ _ _ _).
  assert (exists s3, acl_scan_all uid groups gid s2
    (entry_bytes <$> match acl_mask a with Some m => [(16, m, U32_ID_MAX)] | None => [] end) = Ok s3 /\
    s3 = Build_AclScan (if acl_mask a then 3 else 2) (sc_user_obj s2) (sc_group_obj s2) (acl_mask a)
      (sc_other s2) (sc_named_user s2) (sc_has_named_entry s2) (sc_matched_group s2)
      (sc_group_permissions s2) (sc_named_user_ids s2) (sc_named_group_ids s2)) as (s3 & -> & ->).
  { destruct (acl_mask a) as [m|] eqn:E; [|by eexists].
    change (entry_bytes <$> [(16, m, U32_ID_MAX)]) with [entry_bytes (16, m, U32_ID_MAX)].
    cbn [acl_scan_all]. rewrite scan_single by (by (apply wf_mask0) || lia). by eexists. }
  cbn [mbind outcome_bind acl_scan_all]. rewrite scan_single by (done || lia).
  assert (((if acl_mask a then 3 else 2) =? 2) || ((if acl_mask a then 3 else 2) =? 3) = true) as ->
    by (by destruct (acl_mask a)).
  eexists. split; [reflexivity|]. cbn. split_and!; try done.
  - intros Hn. apply wf_mask_named0. apply orb_true_iff in Hn as [Hn|Hn];
      apply negb_true_iff, bool_decide_eq_false in Hn; [by left|by right].
  - unfold matching_groups. destruct (mem gid groups); cbn; [done|].
    f_equal. apply bool_decide_ext.
    by destruct (filter _ (acl_named_groups a)).
  - unfold matching_groups. by destruct (mem gid groups).
Qed.
End HotpathScan.

(** ** Permission bits *)

Lemma lor_zero_iff x y : Z.lor x y = 0 <-> x = 0 /\ y = 0.
Proof. apply Z.lor_eq_0_iff. Qed.

Lemma foldl_lor_acc l acc : foldl Z.lor acc l = Z.lor acc (foldl Z.lor 0 l).
Proof.
  revert acc. induction l as [|x l IH]; intros acc; cbn [foldl]; [by rewrite Z.lor_0_r|].
  by rewrite IH, (IH (Z.lor 0 x)), Z.lor_0_l, Z.lor_assoc.
Qed.

Lemma foldl_lor_absorb l p : p ∈ l -> Z.lor (foldl Z.lor 0 l) p = foldl Z.lor 0 l.
Proof.
  induction l as [|x l IH]; [set_solver|]. cbn [foldl]. rewrite foldl_lor_acc, Z.lor_0_l.
  rewrite elem_of_cons. intros [->|Hp].
  - rewrite (Z.lor_comm x), <- Z.lor_assoc, Z.lor_diag. done.
  - by rewrite <- Z.lor_assoc, IH.
Qed.

(** A single requested bit. *)
Definition is_bit (r : Z) : Prop := r = 1 \/ r = 2 \/ r = 4.

Lemma has_bits_testbit p r : is_bit r -> has_bits p r = Z.testbit p (Z.log2 r).
Proof.
  intros Hr. unfold has_bits.
  assert (Hpow : r = 2 ^ Z.log2 r /\ 0 <= Z.log2 r) by (destruct Hr as [ -> | [ -> | -> ] ]; done).
  destruct Hpow as [Hpow Hk]. set (k := Z.log2 r) in *. clearbody k. subst r.
  apply eq_bool_prop_intro. rewrite Is_true_true, Z.eqb_eq.
  assert (Hbit : forall n, 0 <= n -> Z.testbit (Z.land p (2 ^ k)) n = Z.testbit p n && (k =? n)).
  { intros n Hn. by rewrite Z.land_spec, Z.pow2_bits_eqb by lia. }
  rewrite Is_true_true. split; intros H.
  - specialize (Hbit k Hk). rewrite H, Z.pow2_bits_true, Z.eqb_refl, andb_true_r in Hbit by lia. done.
  - apply Z.bits_inj'. intros n Hn. rewrite Hbit, Z.pow2_bits_eqb by lia.
    destruct (Z.eqb_spec k n) as [->|]; [by rewrite H|apply andb_false_r].
Qed.

Lemma has_bits_union l m r : is_bit r ->
  has_bits (Z.land (foldl Z.lor 0 l) m) r = existsb (fun p => has_bits (Z.land p m) r) l.
Proof.
  intros Hr. rewrite has_bits_testbit by done.
  assert (Hk : 0 <= Z.log2 r) by apply Z.log2_nonneg.
  induction l as [|x l IH]; cbn [foldl existsb].
  - by rewrite Z.land_0_l, Z.testbit_0_l.
  - rewrite foldl_lor_acc, Z.lor_0_l, Z.land_lor_distr_l, Z.lor_spec. f_equal; [|done].
    by rewrite has_bits_testbit.
Qed.

(** The decision of [acl_has_permissions] on an encoded ACL. *)
Definition union_access (a : PosixAcl) (uid : Z) (groups : list Z) (owner_uid owner_gid requested : Z)
    : bool :=
  if uid =? owner_uid then has_bits (acl_user_obj a) requested
  else
    match named_user_perm a uid with
    | Some p => has_bits (Z.land p (default 7 (acl_mask a))) requested
    | None =>
        let ms := matching_groups a groups owner_gid in
        if bool_decide (ms = []) then has_bits (acl_other a) requested
        else has_bits (Z.land (foldl Z.lor 0 ms) (default 7 (acl_mask a))) requested
    end.

Lemma acl_has_permissions_encoded a uid groups owner_uid owner_gid requested :
  wf_acl a ->
  acl_has_permissions (encode_acl a) uid groups owner_uid owner_gid requested =
    Ok (union_access a uid groups owner_uid owner_gid requested).
Proof.
  intros Hwf. unfold acl_has_permissions, encode_acl.
  destruct (encode_header _ (entry_bytes_length (acl_entries a))) as (H1 & H2 & H3 & H4 & _).
  destruct (Z.ltb_spec (zlen (to_le32 2 ++ mjoin (entry_bytes <$> acl_entries a))) 4); [lia|].
  rewrite H2, H3, H4, chunks_exact_8_join by apply entry_bytes_length. cbn [orb negb Z.eqb Pos.eqb].
  destruct (acl_scan_encoded uid groups owner_gid a Hwf)
    as (s & -> & Hst & Huo & Hgo & Hm & Hot & Hnu & Hn & Hmt & Hgp).
  cbn [mbind outcome_bind]. rewrite Hst, Huo, Hgo, Hm, Hot, Hnu, Hmt, Hgp.
  rewrite !bool_decide_eq_false_2 by done. cbn [orb negb Z.eqb Pos.eqb].
  assert (sc_has_named_entry s && bool_decide (acl_mask a = None) = false) as ->.
  { destruct (sc_has_named_entry s); [|done]. cbn. apply bool_decide_eq_false. by apply Hn. }
  unfold union_access, has_bits. cbn [default]. destruct (uid =? owner_uid); [done|].
  destruct (named_user_perm a uid); [done|].
  destruct (bool_decide_reflect (matching_groups a groups owner_gid = [])); [done|]. cbn [negb].
  destruct (mem owner_gid groups) eqn:E; [|done].
  rewrite foldl_lor_absorb; [done|]. unfold matching_groups. rewrite E. apply list_elem_of_here.
Qed.

(** the access check made inside database transactions implements the POSIX
    ACL algorithm. For every valid ACL in its xattr encoding and every request for
    one permission, the parser accepts the value and the answer is the POSIX one:
    owner entry, else the actor's own named entry under the mask, else some
    matching group entry under the mask, else other. *)
Theorem acl_has_permissions_posix (a : PosixAcl) (uid : Z) (groups : list Z)
    (owner_uid owner_gid requested : Z) :
  wf_acl a -> is_bit requested ->
  acl_has_permissions (encode_acl a) uid groups owner_uid owner_gid requested =
    Ok (posix_access a uid groups owner_uid owner_gid requested).
Proof.
  intros Hwf Hr. rewrite acl_has_permissions_encoded by done. f_equal.
  unfold union_access, posix_access. by rewrite has_bits_union.
Qed.

(** An ACL that denies the owning group and grants others, used below. *)
Definition deny_group_acl : PosixAcl :=
  {| acl_user_obj := 6; acl_named_users := [(4000, 4)]; acl_group_obj := 0;
     acl_named_groups := [(300, 0)]; acl_mask := Some 7; acl_other := 4 |}.

Lemma deny_group_acl_wf : wf_acl deny_group_acl.
Proof.
  split; cbn; unfold is_perm; try lia; try (repeat constructor; cbn; unfold U32_ID_MAX; lia).
  - apply NoDup_singleton.
  - apply NoDup_singleton.
  - intros m [= <-]. lia.
  - done.
Qed.

Lemma acl_has_permissions_posix_witness :
  acl_has_permissions (encode_acl deny_group_acl) 1000 [200] 1 200 4 = Ok false.
Proof.
  rewrite (acl_has_permissions_posix deny_group_acl 1000 [200] 1 200 4 deny_group_acl_wf).
  - reflexivity.
  - unfold is_bit. lia.
Defined.

(** ** The FUSE-layer scan of an encoded ACL *)

Definition posix_entry (e : Z * Z * Z) : PosixAclEntry :=
  let '(tag, perm, id) := e in
  {| ae_tag := tag; ae_perm := perm;
     ae_id := if (tag =? 1) || (tag =? 4) || (tag =? 32) || (tag =? 16) then -1
              else if 2 ^ 31 <=? id then id - 2 ^ 32 else id |}.

Lemma parse_acl_entries_join es :
  Forall is_entry es -> parse_acl_entries (mjoin (entry_bytes <$> es)) = Ok (posix_entry <$> es).
Proof.
  induction 1 as [|e es He Hes IH]; [done|]. rewrite fmap_cons, join_cons.
  pose proof (entry_bytes_fields e He) as (Ht & Hp & Hi).
  destruct (entry_bytes_8 e) as (b0 & b1 & b2 & b3 & b4 & b5 & b6 & b7 & Heq). rewrite Heq in *.
  cbn [app parse_acl_entries]. rewrite IH. cbn [mbind outcome_bind fmap list_fmap].
  unfold i32_le. unfold entry_id in Hi. rewrite Ht, Hp, Hi. by destruct e as [[tag perm] id].
Qed.

Lemma parse_encoded a : wf_acl a ->
  parse_posix_acl_xattr (encode_acl a) = Ok (posix_entry <$> acl_entries a).
Proof.
  intros Hwf. unfold parse_posix_acl_xattr, encode_acl.
  destruct (encode_header _ (entry_bytes_length (acl_entries a))) as (H1 & _ & H3 & H4 & _).
  destruct (Z.ltb_spec (zlen (to_le32 2 ++ mjoin (entry_bytes <$> acl_entries a))) 4); [lia|].
  rewrite H3, H4. cbn [negb Z.eqb Pos.eqb]. by apply parse_acl_entries_join, wf_acl_entries.
Qed.

(** The FUSE layer reads qualifiers as signed 32-bit numbers and ignores the
    negative ones. *)
Definition ids_signed (a : PosixAcl) : Prop :=
  Forall (fun e => e.1 < 2 ^ 31) (acl_named_users a) /\
  Forall (fun e => e.1 < 2 ^ 31) (acl_named_groups a).

Section FuseScan.
Context (subject : SubjectIdentity).

Lemma perm_scan_users us m uo go ot nu ng :
  Forall is_named us -> Forall (fun e => e.1 < 2 ^ 31) us ->
  foldl (perm_scan_entry subject) (Build_PermScan m uo go ot nu ng)
    (posix_entry <$> (user_entry <$> us)) =
  Build_PermScan m uo go ot
    (foldl (fun nu '(id, p) => if id =? su_uid subject then Some p else nu) nu us) ng.
Proof.
  intros Hn. revert nu. induction Hn as [|[id p] us [Hid Hp] Hn IH]; intros nu Hs; [done|].
  inversion Hs as [|? ? Hlt Hs']; subst. cbn [fst snd] in *. cbn [fmap list_fmap foldl].
  assert (perm_scan_entry subject (Build_PermScan m uo go ot nu ng) (posix_entry (user_entry (id, p)))
    = Build_PermScan m uo go ot (if id =? su_uid subject then Some p else nu) ng) as ->.
  { unfold posix_entry, user_entry, perm_scan_entry. cbn.
    destruct (Z.leb_spec (2 ^ 31) id) as [|_]; [lia|]. rewrite (proj1 (perm_land_7 p Hp)).
    destruct (Z.leb_spec 0 id); [|lia]. cbn. by destruct (id =? su_uid subject). }
  by apply IH.
Qed.

Lemma perm_scan_groups gs m uo go ot nu ng :
  Forall is_named gs -> Forall (fun e => e.1 < 2 ^ 31) gs ->
  foldl (perm_scan_entry subject) (Build_PermScan m uo go ot nu ng)
    (posix_entry <$> (group_entry <$> gs)) = Build_PermScan m uo go ot nu (ng ++ gs).
Proof.
  intros Hn. revert ng. induction Hn as [|[id p] gs [Hid Hp] Hn IH]; intros ng Hs.
  { cbn. by rewrite app_nil_r. }
  inversion Hs as [|? ? Hlt Hs']; subst. cbn [fst snd] in *. cbn [fmap list_fmap foldl].
  assert (perm_scan_entry subject (Build_PermScan m uo go ot nu ng) (posix_entry (group_entry (id, p)))
    = Build_PermScan m uo go ot nu (ng ++ [(id, p)])) as ->.
  { unfold posix_entry, group_entry, perm_scan_entry. cbn.
    destruct (Z.leb_spec (2 ^ 31) id) as [|_]; [lia|]. rewrite (proj1 (perm_land_7 p Hp)).
    destruct (Z.leb_spec 0 id); [|lia]. done. }
  by rewrite IH, <- app_assoc.
Qed.

Lemma perm_scan_single tag p m uo go ot nu ng : is_perm p ->
  (tag =? 1) || (tag =? 4) || (tag =? 32) || (tag =? 16) = true ->
  foldl (perm_scan_entry subject) (Build_PermScan m uo go ot nu ng)
    (posix_entry <$> [(tag, p, U32_ID_MAX)]) =
  Build_PermScan (if tag =? 16 then p else m) (if tag =? 1 then Some p else uo)
    (if tag =? 4 then Some p else go) (if tag =? 32 then Some p else ot) nu ng.
Proof.
  intros Hp Ht. cbn [fmap list_fmap foldl]. unfold posix_entry, perm_scan_entry.
  rewrite Ht. cbn [ae_tag ae_perm ae_id]. rewrite (proj1 (perm_land_7 p Hp)).
  rewrite !orb_true_iff, !Z.eqb_eq in Ht. by destruct Ht as [[[ -> | -> ] | -> ] | -> ].
Qed.

Lemma perm_scan_encoded a : wf_acl a -> ids_signed a ->
  foldl (perm_scan_entry subject) perm_scan_init (posix_entry <$> acl_entries a) =
  Build_PermScan (default 7 (acl_mask a)) (Some (acl_user_obj a)) (Some (acl_group_obj a))
    (Some (acl_other a)) (named_user_perm a (su_uid subject)) (acl_named_groups a).
Proof.
  intros [] [Hu Hg]. unfold acl_entries, perm_scan_init. rewrite !fmap_app, !foldl_app.
  rewrite perm_scan_single by done. rewrite perm_scan_users by done.
  rewrite perm_scan_single by done. rewrite perm_scan_groups by done.
  destruct (acl_mask a) as [m|] eqn:E; [rewrite perm_scan_single by (by apply wf_mask0 || done)|].
  - by rewrite perm_scan_single.
  - rewrite fmap_nil. cbn [foldl]. by rewrite perm_scan_single.
Qed.
End FuseScan.

Lemma group_fold_filter groups gs acc :
  foldl (fun acc '(group_id, perm) => if mem group_id groups then Z.lor acc perm else acc) acc gs =
  foldl Z.lor acc (filter (fun e => mem e.1 groups = true) gs).*2.
Proof.
  revert acc. induction gs as [|[id p] gs IH]; intros acc; [done|]. rewrite filter_cons. cbn [foldl fst].
  destruct (mem id groups); cbn; apply IH.
Qed.

(** Group entries match the subject but grant nothing at all. *)
Definition group_denied (a : PosixAcl) (subject : SubjectIdentity) (attrs : AttrPerm) : bool :=
  negb (su_uid subject =? at_uid attrs) && bool_decide (named_user_perm a (su_uid subject) = None)
  && negb (bool_decide (matching_groups a (su_groups subject) (at_gid attrs) = []))
  && (foldl Z.lor 0 (matching_groups a (su_groups subject) (at_gid attrs)) =? 0).

(** the FUSE-layer check and the transaction-side check of one ACL agree for
    every subject but root, for every mode, as long as the matching group entries
    grant some bit. When group entries match and grant nothing, the transaction
    side denies the access while the FUSE layer falls through to the other entry
    and grants whatever others have. *)
Theorem acl_layers_agree_unless_group_denied (a : PosixAcl) (subject : SubjectIdentity)
    (attrs : AttrPerm) (mode : Z) :
  wf_acl a -> ids_signed a -> is_root subject = false ->
  let required := access_mask_from_mode mode in
  exists entries decision,
    parse_posix_acl_xattr (encode_acl a) = Ok entries /\
    acl_has_permissions (encode_acl a) (su_uid subject) (su_groups subject) (at_uid attrs)
      (at_gid attrs) required = Ok decision /\
    (group_denied a subject attrs = false ->
     acl_permission_from_entries subject entries attrs mode = decision) /\
    (group_denied a subject attrs = true ->
     decision = (required =? 0) /\
     acl_permission_from_entries subject entries attrs mode = has_bits (acl_other a) required).
Proof.
  intros Hwf Hids Hroot required. eexists _, _.
  split; [by apply parse_encoded|]. split; [by apply acl_has_permissions_encoded|].
  unfold acl_permission_from_entries. rewrite Hroot, perm_scan_encoded by done. cbn -[foldl Z.lor].
  rewrite group_fold_filter, Z.lor_0_l. fold required.
  set (ms := matching_groups a (su_groups subject) (at_gid attrs)).
  assert (foldl Z.lor (if mem (at_gid attrs) (su_groups subject) then acl_group_obj a else 0)
    (filter (fun e => mem e.1 (su_groups subject) = true) (acl_named_groups a)).*2
    = foldl Z.lor 0 ms) as ->.
  { unfold ms, matching_groups. destruct (mem (at_gid attrs) (su_groups subject)); [|done].
    cbn [app foldl]. by rewrite Z.lor_0_l. }
  unfold group_denied, union_access. fold ms. rewrite (Z.eqb_sym (at_uid attrs)).
  destruct (su_uid subject =? at_uid attrs); [by split|].
  destruct (named_user_perm a (su_uid subject)); [by split|]. cbn [negb andb].
  rewrite bool_decide_eq_true_2 by done. cbn [andb].
  destruct (bool_decide_reflect (ms = [])) as [->|Hne]; [by split|]. cbn [negb andb].
  destruct (Z.eqb_spec (foldl Z.lor 0 ms) 0) as [->|Hnz]; [split; [done|]|by split].
  intros _. split; [|done]. unfold has_bits. rewrite !Z.land_0_l. apply Z.eqb_sym.
Qed.

Lemma acl_layers_agree_unless_group_denied_witness :
  exists entries, parse_posix_acl_xattr (encode_acl deny_group_acl) = Ok entries /\
    acl_has_permissions (encode_acl deny_group_acl) 1000 [200] 1 200 4 = Ok false /\
    acl_permission_from_entries {| su_uid := 1000; su_gid := 200; su_groups := [200] |} entries
      {| at_uid := 1; at_gid := 200; at_perm := 0 |} 4 = true.
Proof.
  destruct (acl_layers_agree_unless_group_denied deny_group_acl
    {| su_uid := 1000; su_gid := 200; su_groups := [200] |}
    {| at_uid := 1; at_gid := 200; at_perm := 0 |} 4)
    as (entries & d & Hp & Hh & _ & Hd).
  - exact deny_group_acl_wf.
  - split; repeat constructor; cbn; lia.
  - reflexivity.
  - exists entries. destruct (Hd eq_refl) as [-> ->]. split; [exact Hp|]. split; [exact Hh|reflexivity].
Defined.

(** ** chmod on an access ACL *)

Definition owner_bits (mode : Z) : Z := Z.land (Z.shiftr mode 6) 7.
Definition group_bits (mode : Z) : Z := Z.land (Z.shiftr mode 3) 7.
Definition other_bits (mode : Z) : Z := Z.land mode 7.

(** The nine permission bits put together from three classes. *)
Definition class_bits (u g o : Z) : Z := Z.lor (Z.lor (Z.shiftl u 6) (Z.shiftl g 3)) o.

Definition chmod_acl (a : PosixAcl) (mode : Z) : PosixAcl :=
  {| acl_user_obj := owner_bits mode;
     acl_named_users := acl_named_users a;
     acl_group_obj := if acl_mask a then acl_group_obj a else group_bits mode;
     acl_named_groups := acl_named_groups a;
     acl_mask := (fun _ => group_bits mode) <$> acl_mask a;
     acl_other := other_bits mode |}.

Lemma is_perm_land x : is_perm (Z.land x 7).
Proof. unfold is_perm. change (Z.land x 7) with (Z.land x (Z.ones 3)). rewrite Z.land_ones by lia.
  pose proof (Z.mod_pos_bound x (2 ^ 3) ltac:(lia)). lia. Qed.

Lemma wf_chmod_acl a mode : wf_acl a -> wf_acl (chmod_acl a mode).
Proof.
  intros []. split; cbn; try done; try apply is_perm_land.
  - destruct (acl_mask a); [done|apply is_perm_land].
  - intros m. destruct (acl_mask a); [|done]. intros [= <-]. apply is_perm_land.
  - intros H. specialize (wf_mask_named0 H). by destruct (acl_mask a).
Qed.

Lemma set_entry_perm_bytes tag p q id :
  set_entry_perm (entry_bytes (tag, p, id)) q = entry_bytes (tag, q, id).
Proof. done. Qed.

Lemma mode_bits_split mode :
  class_bits (owner_bits mode) (group_bits mode) (other_bits mode) = Z.land mode 511.
Proof.
  unfold class_bits, owner_bits, group_bits, other_bits.
  change 511 with (Z.ones 9). change 7 with (Z.ones 3).
  apply Z.bits_inj'. intros n Hn. rewrite !Z.lor_spec, !Z.land_spec.
  rewrite !Z.testbit_ones_nonneg by lia.
  destruct (Z.lt_ge_cases n 3); [|destruct (Z.lt_ge_cases n 6)].
  - rewrite !Z.shiftl_spec_low by lia. cbn [orb].
    destruct (Z.ltb_spec n 3), (Z.ltb_spec n 9); try lia. done.
  - rewrite (Z.shiftl_spec_low _ 6), Z.shiftl_spec, Z.land_spec, Z.shiftr_spec by lia. cbn [orb].
    replace (n - 3 + 3) with n by lia. rewrite Z.testbit_ones_nonneg by lia.
    destruct (Z.ltb_spec (n - 3) 3), (Z.ltb_spec n 3), (Z.ltb_spec n 9); try lia.
    by rewrite andb_false_r, orb_false_r.
  - rewrite !Z.shiftl_spec, !Z.land_spec, !Z.shiftr_spec by lia.
    replace (n - 6 + 6) with n by lia. replace (n - 3 + 3) with n by lia.
    rewrite !Z.testbit_ones_nonneg by lia.
    destruct (Z.ltb_spec (n - 6) 3), (Z.ltb_spec (n - 3) 3), (Z.ltb_spec n 3), (Z.ltb_spec n 9);
      try lia; by rewrite ?andb_false_r, ?andb_true_r, ?orb_false_r.
Qed.

Lemma class_bits_land_511 u g o : is_perm u -> is_perm g -> is_perm o ->
  Z.land (class_bits u g o) 511 = class_bits u g o /\
  Z.land (class_bits u g o) (Z.lnot 511) = 0 /\
  owner_bits (class_bits u g o) = u /\ group_bits (class_bits u g o) = g /\
  other_bits (class_bits u g o) = o.
Proof.
  unfold is_perm. intros Hu Hg Ho.
  assert (Hall : forallb (fun u => forallb (fun g => forallb (fun o =>
    let c := class_bits u g o in
    (Z.land c 511 =? c) && (Z.land c (Z.lnot 511) =? 0) && (owner_bits c =? u)
    && (group_bits c =? g) && (other_bits c =? o)) (seqZ 0 8)) (seqZ 0 8)) (seqZ 0 8) = true)
    by (vm_compute; reflexivity).
  assert (Hin : forall x, 0 <= x <= 7 -> In x (seqZ 0 8))
    by (intros; apply list_elem_of_In, elem_of_seqZ; lia).
  rewrite forallb_forall in Hall. specialize (Hall u (Hin u Hu)). cbn beta in Hall.
  rewrite forallb_forall in Hall. specialize (Hall g (Hin g Hg)). cbn beta in Hall.
  rewrite forallb_forall in Hall. specialize (Hall o (Hin o Ho)). cbn zeta beta in Hall.
  rewrite !andb_true_iff, !Z.eqb_eq in Hall. intuition.
Qed.

(** The mode bits of an encoded ACL: the mask, when there is one, stands for the
    group class. *)
Definition acl_mode (a : PosixAcl) : Z :=
  class_bits (acl_user_obj a) (default (acl_group_obj a) (acl_mask a)) (acl_other a).

Lemma mode_scan_named es uo go m ot nm :
  Forall (fun e => e.1.1 = 2 \/ e.1.1 = 8) es ->
  foldl mode_scan_entry (Build_ModeScan uo go m ot nm) (posix_entry <$> es) =
  Build_ModeScan uo go m ot (nm || negb (bool_decide (es = []))).
Proof.
  intros H. revert nm. induction H as [|[[tag p] id] es Ht Hes IH]; intros nm.
  { cbn. by rewrite orb_false_r. }
  cbn [fmap list_fmap foldl fst snd] in *.
  assert (mode_scan_entry (Build_ModeScan uo go m ot nm) (posix_entry (tag, p, id)) =
    Build_ModeScan uo go m ot true) as -> by (by destruct Ht as [-> | ->]).
  rewrite IH. cbn. by rewrite orb_true_r.
Qed.

Lemma mode_scan_single tag p uo go m ot nm : is_perm p ->
  (tag =? 1) || (tag =? 4) || (tag =? 32) || (tag =? 16) = true ->
  foldl mode_scan_entry (Build_ModeScan uo go m ot nm) (posix_entry <$> [(tag, p, U32_ID_MAX)]) =
  Build_ModeScan (if tag =? 1 then Some p else uo) (if tag =? 4 then Some p else go)
    (if tag =? 16 then Some p else m) (if tag =? 32 then Some p else ot) nm.
Proof.
  intros Hp Ht. cbn [fmap list_fmap foldl]. unfold posix_entry, mode_scan_entry.
  rewrite Ht. cbn [ae_tag ae_perm ae_id]. rewrite (proj1 (perm_land_7 p Hp)).
  rewrite !orb_true_iff, !Z.eqb_eq in Ht. by destruct Ht as [[[ -> | -> ] | -> ] | -> ].
Qed.

Lemma named_tags us gs :
  Forall (fun e => e.1.1 = 2 \/ e.1.1 = 8) (user_entry <$> us) /\
  Forall (fun e => e.1.1 = 2 \/ e.1.1 = 8) (group_entry <$> gs).
Proof. split; apply Forall_fmap, Forall_forall; intros [id p] _; cbn; lia. Qed.

Lemma has_named_mask a : wf_acl a ->
  false || negb (bool_decide (user_entry <$> acl_named_users a = []))
    || negb (bool_decide (group_entry <$> acl_named_groups a = [])) = true ->
  acl_mask a <> None.
Proof.
  intros [] Hn. apply wf_mask_named0. cbn [orb] in Hn. apply orb_true_iff in Hn as [Hn|Hn];
    apply negb_true_iff, bool_decide_eq_false in Hn; [left|right]; intros E; apply Hn; by rewrite E.
Qed.

Lemma mode_scan_encoded a : wf_acl a ->
  exists nm, foldl mode_scan_entry (Build_ModeScan None None None None false)
    (posix_entry <$> acl_entries a) =
    Build_ModeScan (Some (acl_user_obj a)) (Some (acl_group_obj a)) (acl_mask a)
      (Some (acl_other a)) nm /\ (nm = true -> acl_mask a <> None).
Proof.
  intros Hwf. assert (Hwf' := Hwf). destruct Hwf'.
  destruct (named_tags (acl_named_users a) (acl_named_groups a)) as [Hu Hg].
  unfold acl_entries. rewrite !fmap_app, !foldl_app.
  rewrite mode_scan_single by done. rewrite mode_scan_named by done.
  rewrite mode_scan_single by done. rewrite mode_scan_named by done.
  eexists. split.
  - destruct (acl_mask a) as [m|] eqn:E; [rewrite mode_scan_single by (by apply wf_mask0 || done)|].
    + by rewrite mode_scan_single.
    + rewrite fmap_nil. cbn [foldl]. by rewrite mode_scan_single.
  - by apply has_named_mask.
Qed.

Lemma acl_access_mode_bits_encoded a : wf_acl a ->
  acl_access_mode_bits (encode_acl a) = Ok (acl_mode a).
Proof.
  intros Hwf. unfold acl_access_mode_bits. rewrite parse_encoded by done.
  destruct (mode_scan_encoded a Hwf) as (nm & Hs & Hn). cbn [mbind outcome_bind].
  unfold mode_from_acl_entries. rewrite Hs. cbn -[Z.lnot Z.land Z.lor Z.shiftl].
  assert (nm && bool_decide (acl_mask a = None) = false) as ->.
  { destruct nm; [|done]. apply bool_decide_eq_false. by apply Hn. }
  rewrite Z.land_0_l, Z.lor_0_l. destruct Hwf.
  destruct (acl_mask a) as [m|] eqn:E; cbn -[Z.lnot Z.land Z.lor Z.shiftl]; f_equal;
    unfold acl_mode; rewrite E; cbn -[class_bits]; apply class_bits_land_511; try done.
  by apply wf_mask0.
Qed.

(** ** The in-place rewrites on an encoded ACL *)

Lemma chmod_entries_app o g t es es' i s :
  chmod_entries o g t i s (es ++ es') =
    ('(s1, r1) ← chmod_entries o g t i s es;
     '(s2, r2) ← chmod_entries o g t (i + zlen es) s1 es';
     Ok (s2, r1 ++ r2)).
Proof.
  revert i s. induction es as [|e es IH]; intros i s.
  { cbn. rewrite Z.add_0_r. by destruct (chmod_entries o g t i s es') as [[]| |]. }
  cbn [app chmod_entries]. destruct (chmod_entry o g t i s e) as [[s1 e1]| |]; cbn; [|done|done].
  rewrite IH. rewrite zlen_cons. replace (i + (1 + zlen es)) with (i + 1 + zlen es) by lia.
  destruct (chmod_entries o g t (i + 1) s1 es) as [[s2 r2]| |]; cbn; [|done|done].
  by destruct (chmod_entries o g t (i + 1 + zlen es) s2 es') as [[]| |].
Qed.

Lemma chmod_named o g t es : forall i uo go hm ot nm,
  Forall is_entry es -> Forall (fun e => e.1.1 = 2 \/ e.1.1 = 8) es ->
  chmod_entries o g t i (Build_ChmodScan uo go hm ot nm) (entry_bytes <$> es) =
  Ok (Build_ChmodScan uo go hm ot (nm || negb (bool_decide (es = []))), entry_bytes <$> es).
Proof.
  induction es as [|e es IH]; intros i uo go hm ot nm He Ht.
  { cbn. by rewrite orb_false_r. }
  inversion He as [|? ? He1 He2]; inversion Ht as [|? ? Ht1 Ht2]; subst.
  rewrite fmap_cons. cbn [chmod_entries]. unfold chmod_entry.
  destruct (entry_bytes_fields e He1) as (-> & -> & _). destruct e as [[tag p] id].
  destruct He1 as (_ & Hp & _). cbn [fst snd] in *. rewrite (proj2 (perm_land_7 p Hp)).
  cbn [negb Z.eqb]. destruct Ht1 as [-> | ->]; cbn [Z.eqb Pos.eqb andb orb mbind outcome_bind];
    rewrite IH by done; cbn; by rewrite orb_true_r.
Qed.

Lemma chmod_single o g t i tag p id uo go hm ot nm :
  is_entry (tag, p, id) -> (tag =? 2) || (tag =? 8) = false ->
  chmod_entries o g t i (Build_ChmodScan uo go hm ot nm) [entry_bytes (tag, p, id)] =
  if (tag =? 1) && negb uo then
    Ok (Build_ChmodScan true go hm ot nm, [entry_bytes (tag, o, id)])
  else if (tag =? 4) && bool_decide (go = None) then
    Ok (Build_ChmodScan uo (Some i) hm ot nm, [entry_bytes (tag, p, id)])
  else if (tag =? 16) && negb hm then
    Ok (Build_ChmodScan uo go true ot nm, [entry_bytes (tag, g, id)])
  else if (tag =? 32) && negb ot then
    Ok (Build_ChmodScan uo go hm true nm, [entry_bytes (tag, t, id)])
  else Err "invalid or duplicate POSIX ACL entry".
Proof.
  intros He Ht. cbn [chmod_entries]. unfold chmod_entry.
  destruct (entry_bytes_fields _ He) as (-> & -> & _). destruct He as (_ & Hp & _).
  cbn [fst snd]. rewrite (proj2 (perm_land_7 p Hp)), Ht, !set_entry_perm_bytes. cbn [negb Z.eqb].
  repeat case_match; done.
Qed.

Lemma chmod_entries_encoded o g t a : wf_acl a ->
  exists s, chmod_entries o g t 0 (Build_ChmodScan false None false false false)
      (entry_bytes <$> acl_entries a) =
    Ok (s, entry_bytes <$> acl_entries
          {| acl_user_obj := o; acl_named_users := acl_named_users a;
             acl_group_obj := acl_group_obj a; acl_named_groups := acl_named_groups a;
             acl_mask := (fun _ => g) <$> acl_mask a; acl_other := t |}) /\
    ch_user_obj s = true /\ ch_group_obj s = Some (1 + zlen (acl_named_users a)) /\
    ch_has_mask s = (if acl_mask a then true else false) /\ ch_other_entry s = true /\
    (ch_has_named_entry s = true -> acl_mask a <> None).
Proof.
  intros Hwf. pose proof (wf_acl_entries a Hwf) as He. pose proof (has_named_mask a Hwf) as Hn.
  destruct Hwf. destruct (named_tags (acl_named_users a) (acl_named_groups a)) as [Hu Hg].
  unfold acl_entries in He. rewrite !Forall_app in He.
  destruct He as (He1 & He2 & He3 & He4 & He5 & He6).
  rewrite Forall_singleton in He1, He3, He6.
  unfold acl_entries. cbn [acl_user_obj acl_named_users acl_group_obj acl_named_groups acl_mask acl_other].
  rewrite !fmap_app, !fmap_cons, !fmap_nil, !chmod_entries_app.
  rewrite chmod_single by done. cbn [Z.eqb Pos.eqb andb negb mbind outcome_bind].
  rewrite chmod_entries_app, chmod_named by done. cbn [mbind outcome_bind].
  rewrite chmod_entries_app, chmod_single by done. cbn [Z.eqb Pos.eqb andb negb mbind outcome_bind].
  rewrite bool_decide_eq_true_2 by done. cbn [mbind outcome_bind].
  rewrite chmod_entries_app, chmod_named by done. cbn [mbind outcome_bind].
  rewrite chmod_entries_app.
  destruct (acl_mask a) as [m|] eqn:E.
  - rewrite Forall_singleton in He5. rewrite fmap_cons, fmap_nil, chmod_single by done.
    cbn [Z.eqb Pos.eqb andb negb mbind outcome_bind]. rewrite chmod_single by done.
    eexists. split; [reflexivity|].
    cbn [ch_user_obj ch_group_obj ch_has_mask ch_other_entry ch_has_named_entry].
    split_and!; try done. unfold zlen. rewrite !length_fmap. cbn [length]. f_equal; lia.
  - assert (Hnil : forall i s, chmod_entries o g t i s [] = Ok (s, [])) by done.
    rewrite fmap_nil, Hnil. cbn [mbind outcome_bind]. rewrite chmod_single by done.
    eexists. split; [reflexivity|].
    cbn [ch_user_obj ch_group_obj ch_has_mask ch_other_entry ch_has_named_entry].
    split_and!; try done.
    unfold zlen. rewrite !length_fmap. cbn [length]. f_equal; lia.
Qed.

Lemma chmod_access_acl_encoded a mode : wf_acl a ->
  chmod_access_acl (encode_acl a) mode = Ok (encode_acl (chmod_acl a mode)).
Proof.
  intros Hwf. unfold chmod_access_acl.
  assert (encode_acl a = to_le32 2 ++ mjoin (entry_bytes <$> acl_entries a)) as -> by done.
  destruct (encode_header _ (entry_bytes_length (acl_entries a))) as (H1 & H2 & H3 & H4 & H5).
  destruct (Z.ltb_spec (zlen (to_le32 2 ++ mjoin (entry_bytes <$> acl_entries a))) 4); [lia|].
  rewrite H2, H3, H4, H5, chunks_exact_8_join by apply entry_bytes_length.
  cbn [orb negb Z.eqb Pos.eqb]. fold (owner_bits mode) (group_bits mode) (other_bits mode).
  destruct (chmod_entries_encoded (owner_bits mode) (group_bits mode) (other_bits mode) a Hwf)
    as (s & -> & Huo & Hgo & Hm & Hot & Hn).
  cbn [mbind outcome_bind]. rewrite Huo, Hgo, Hm, Hot. rewrite bool_decide_eq_false_2 by done.
  cbn [negb orb]. unfold encode_acl, chmod_acl.
  destruct (acl_mask a) as [m|] eqn:E; cbn [negb].
  { by rewrite andb_false_r. }
  assert (ch_has_named_entry s = false) as ->.
  { destruct (ch_has_named_entry s); [|done]. by destruct (Hn eq_refl). }
  assert (acl_named_users a = [] /\ acl_named_groups a = []) as [Hu0 Hg0].
  { destruct Hwf. split; [destruct (acl_named_users a)|destruct (acl_named_groups a)]; try done;
      destruct wf_mask_named0; auto. }
  unfold acl_entries. cbn [acl_user_obj acl_named_users acl_group_obj acl_named_groups acl_mask
    acl_other fmap option_fmap option_map]. rewrite Hu0, Hg0. done.
Qed.

(** chmod and the mode bits of an access ACL agree. For every valid ACL and
    every mode, chmod rewrites the encoded value to a valid encoded ACL whose
    named entries are unchanged and whose mode bits, as the FUSE layer computes
    them, are exactly the nine permission bits of the new mode; with a mask it is
    the mask, not the owning group entry, that takes the group bits. *)
Theorem chmod_access_acl_mode_bits (a : PosixAcl) (mode : Z) :
  wf_acl a ->
  exists value, chmod_access_acl (encode_acl a) mode = Ok value /\
    value = encode_acl (chmod_acl a mode) /\ wf_acl (chmod_acl a mode) /\
    acl_access_mode_bits value = Ok (Z.land mode 511) /\
    (acl_mask a <> None -> acl_group_obj (chmod_acl a mode) = acl_group_obj a).
Proof.
  intros Hwf. eexists. split; [by apply chmod_access_acl_encoded|].
  pose proof (wf_chmod_acl a mode Hwf) as Hwf'. split_and!; [done..| |].
  - rewrite acl_access_mode_bits_encoded by done. f_equal. rewrite <- mode_bits_split.
    unfold acl_mode, chmod_acl. cbn. by destruct (acl_mask a).
  - unfold chmod_acl. cbn. by destruct (acl_mask a).
Qed.

Lemma chmod_access_acl_mode_bits_witness :
  exists value, chmod_access_acl (encode_acl deny_group_acl) 416 = Ok value /\
    acl_access_mode_bits value = Ok 416.
Proof.
  destruct (chmod_access_acl_mode_bits deny_group_acl 416 deny_group_acl_wf)
    as (value & H & _ & _ & Hb & _).
  exists value. split; [exact H|exact Hb].
Defined.

(** ** Default ACL inheritance *)

Definition constrain_acl (a : PosixAcl) (mode : Z) : PosixAcl :=
  {| acl_user_obj := Z.land (acl_user_obj a) (owner_bits mode);
     acl_named_users := acl_named_users a;
     acl_group_obj := acl_group_obj a;
     acl_named_groups := acl_named_groups a;
     acl_mask := (fun m => Z.land m (group_bits mode)) <$> acl_mask a;
     acl_other := Z.land (acl_other a) (other_bits mode) |}.

Lemma is_perm_land_l p q : is_perm p -> is_perm (Z.land p q).
Proof.
  intros Hp. rewrite <- (proj1 (perm_land_7 p Hp)), <- Z.land_assoc, (Z.land_comm 7), Z.land_assoc.
  apply is_perm_land.
Qed.

Lemma wf_constrain_acl a mode : wf_acl a -> wf_acl (constrain_acl a mode).
Proof.
  intros []. split; cbn; try done; try (by apply is_perm_land_l).
  - intros m. destruct (acl_mask a) as [m0|] eqn:E; [|done]. intros [= <-].
    by apply is_perm_land_l, wf_mask0.
  - intros H. specialize (wf_mask_named0 H). by destruct (acl_mask a).
Qed.

Lemma constrain_entries_app o g t es es' s :
  constrain_entries o g t s (es ++ es') =
    ('(s1, r1) ← constrain_entries o g t s es;
     '(s2, r2) ← constrain_entries o g t s1 es';
     Ok (s2, r1 ++ r2)).
Proof.
  revert s. induction es as [|e es IH]; intros s.
  { cbn. by destruct (constrain_entries o g t s es') as [[]| |]. }
  cbn [app constrain_entries]. destruct (constrain_entry o g t s e) as [[s1 e1]| |]; cbn; [|done|done].
  rewrite IH. destruct (constrain_entries o g t s1 es) as [[s2 r2]| |]; cbn; [|done|done].
  by destruct (constrain_entries o g t s2 es') as [[]| |].
Qed.

Lemma constrain_named o g t es : forall hm nm uo go am ot,
  Forall is_entry es -> Forall (fun e => e.1.1 = 2 \/ e.1.1 = 8) es ->
  constrain_entries o g t (Build_ConstrainScan hm nm uo go am ot) (entry_bytes <$> es) =
  Ok (Build_ConstrainScan hm (nm || negb (bool_decide (es = []))) uo go am ot, entry_bytes <$> es).
Proof.
  induction es as [|e es IH]; intros hm nm uo go am ot He Ht.
  { cbn. by rewrite orb_false_r. }
  inversion He as [|? ? He1 He2]; inversion Ht as [|? ? Ht1 Ht2]; subst.
  rewrite fmap_cons. cbn [constrain_entries]. unfold constrain_entry.
  destruct (entry_bytes_fields e He1) as (-> & -> & _). destruct e as [[tag p] id].
  cbn [fst snd] in *. rewrite !set_entry_perm_bytes.
  destruct Ht1 as [-> | ->]; cbn [Z.eqb Pos.eqb andb orb mbind outcome_bind];
    rewrite IH by done; cbn; by rewrite orb_true_r.
Qed.

Lemma constrain_single o g t tag p id hm nm uo go am ot :
  is_entry16 (tag, p, id) -> (tag =? 2) || (tag =? 8) = false ->
  constrain_entries o g t (Build_ConstrainScan hm nm uo go am ot) [entry_bytes (tag, p, id)] =
  if tag =? 1 then
    Ok (Build_ConstrainScan hm nm (Some (Z.land p o)) go am ot, [entry_bytes (tag, Z.land p o, id)])
  else if tag =? 4 then
    Ok (Build_ConstrainScan hm nm uo (Some p) am ot, [entry_bytes (tag, p, id)])
  else if tag =? 16 then
    Ok (Build_ConstrainScan true nm uo go (Some (Z.land p g)) ot, [entry_bytes (tag, Z.land p g, id)])
  else if tag =? 32 then
    Ok (Build_ConstrainScan hm nm uo go am (Some (Z.land p t)), [entry_bytes (tag, Z.land p t, id)])
  else Err "invalid POSIX ACL entry tag".
Proof.
  intros He Ht. cbn [constrain_entries]. unfold constrain_entry.
  destruct (entry_bytes_fields16 _ He) as (-> & -> & _).
  cbn [fst snd]. rewrite Ht, !set_entry_perm_bytes. repeat case_match; done.
Qed.

Lemma constrain_entries_encoded a mode : wf_acl a ->
  exists nm, constrain_entries (owner_bits mode) (group_bits mode) (other_bits mode)
      (Build_ConstrainScan false false None None None None) (entry_bytes <$> acl_entries a) =
    Ok (Build_ConstrainScan (if acl_mask a then true else false) nm
          (Some (acl_user_obj (constrain_acl a mode))) (Some (acl_group_obj a))
          (acl_mask (constrain_acl a mode)) (Some (acl_other (constrain_acl a mode))),
        entry_bytes <$> acl_entries (constrain_acl a mode)) /\
    (nm = true -> acl_mask a <> None).
Proof.
  intros Hwf. pose proof (wf_acl_entries a Hwf) as He. pose proof (has_named_mask a Hwf) as Hn.
  destruct Hwf. destruct (named_tags (acl_named_users a) (acl_named_groups a)) as [Hu Hg].
  unfold acl_entries in He. rewrite !Forall_app in He.
  destruct He as (He1 & He2 & He3 & He4 & He5 & He6).
  rewrite Forall_singleton in He1, He3, He6.
  unfold acl_entries, constrain_acl.
  cbn [acl_user_obj acl_named_users acl_group_obj acl_named_groups acl_mask acl_other].
  rewrite !fmap_app, !fmap_cons, !fmap_nil, !constrain_entries_app.
  rewrite constrain_single by (by apply is_entry_16 || done). cbn [Z.eqb Pos.eqb mbind outcome_bind].
  rewrite constrain_entries_app, constrain_named by done. cbn [mbind outcome_bind].
  rewrite constrain_entries_app, constrain_single by (by apply is_entry_16 || done). cbn [Z.eqb Pos.eqb mbind outcome_bind].
  rewrite constrain_entries_app, constrain_named by done. cbn [mbind outcome_bind].
  rewrite constrain_entries_app.
  eexists. split; [|exact Hn]. clear Hn.
  destruct (acl_mask a) as [m|] eqn:E.
  - rewrite Forall_singleton in He5. rewrite fmap_cons, fmap_nil, constrain_single by (by apply is_entry_16 || done).
    cbn [Z.eqb Pos.eqb mbind outcome_bind]. by rewrite constrain_single by (by apply is_entry_16 || done).
  - assert (Hnil : forall s, constrain_entries (owner_bits mode) (group_bits mode) (other_bits mode) s []
      = Ok (s, [])) by done.
    rewrite fmap_nil, Hnil. cbn [mbind outcome_bind]. by rewrite constrain_single by (by apply is_entry_16 || done).
Qed.

Lemma constrain_encoded a mode : wf_acl a ->
  constrain_default_acl_to_mode (encode_acl a) mode =
    Ok (encode_acl (constrain_acl a mode),
        Z.lor (Z.land mode (Z.lnot 511)) (acl_mode (constrain_acl a mode))).
Proof.
  intros Hwf. unfold constrain_default_acl_to_mode.
  assert (encode_acl a = to_le32 2 ++ mjoin (entry_bytes <$> acl_entries a)) as -> by done.
  destruct (encode_header _ (entry_bytes_length (acl_entries a))) as (H1 & H2 & H3 & H4 & H5).
  destruct (Z.ltb_spec (zlen (to_le32 2 ++ mjoin (entry_bytes <$> acl_entries a))) 4); [lia|].
  rewrite H2, H3, H4, H5, chunks_exact_8_join by apply entry_bytes_length.
  cbn [orb negb Z.eqb Pos.eqb]. fold (owner_bits mode) (group_bits mode) (other_bits mode).
  destruct (constrain_entries_encoded a mode Hwf) as (nm & -> & Hn).
  cbn [mbind outcome_bind cs_has_mask cs_has_named_entry cs_user_obj cs_group_obj cs_acl_mask cs_other].
  assert (nm && negb (if acl_mask a then true else false) = false) as ->.
  { destruct nm; [|done]. specialize (Hn eq_refl). by destruct (acl_mask a). }
  unfold acl_mode. destruct (acl_mask (constrain_acl a mode)); cbn [opt_or ok_or mbind outcome_bind default];
    do 2 f_equal; unfold class_bits; by rewrite !Z.lor_assoc.
Qed.

(** default-ACL inheritance. A valid default ACL and a requested mode give a
    valid access ACL and a mode that agree with each other; the bits above the
    nine permission bits are those requested; owner and other get the
    intersection of the ACL and the request. The group class gets the
    intersection only when the ACL has a mask: without one, the owning group
    entry is inherited whatever group bits were requested. *)
Theorem constrain_default_acl_spec (a : PosixAcl) (mode : Z) :
  wf_acl a ->
  exists access_acl mode',
    constrain_default_acl_to_mode (encode_acl a) mode = Ok (access_acl, mode') /\
    acl_access_mode_bits access_acl = Ok (Z.land mode' 511) /\
    Z.land mode' (Z.lnot 511) = Z.land mode (Z.lnot 511) /\
    owner_bits mode' = Z.land (acl_user_obj a) (owner_bits mode) /\
    other_bits mode' = Z.land (acl_other a) (other_bits mode) /\
    group_bits mode' = (match acl_mask a with
                        | Some m => Z.land m (group_bits mode)
                        | None => acl_group_obj a
                        end).
Proof.
  intros Hwf. eexists _, _. split; [by apply constrain_encoded|].
  pose proof (wf_constrain_acl a mode Hwf) as Hwf'.
  rewrite acl_access_mode_bits_encoded by done.
  set (c := acl_mode (constrain_acl a mode)).
  assert (Hc : Z.land c 511 = c /\ Z.land c (Z.lnot 511) = 0 /\
    owner_bits c = acl_user_obj (constrain_acl a mode) /\
    group_bits c = default (acl_group_obj a) (acl_mask (constrain_acl a mode)) /\
    other_bits c = acl_other (constrain_acl a mode)).
  { destruct Hwf'. apply class_bits_land_511; [done| |done].
    destruct (acl_mask (constrain_acl a mode)) eqn:E; [by apply wf_mask0|done]. }
  destruct Hc as (Hc1 & Hc2 & Hc3 & Hc4 & Hc5).
  assert (Hlow : forall k, 0 <= k -> k <= 6 ->
    Z.land (Z.shiftr (Z.lor (Z.land mode (Z.lnot 511)) c) k) 7 = Z.land (Z.shiftr c k) 7).
  { intros k Hk Hk6. apply Z.bits_inj'. intros n Hn. rewrite !Z.land_spec, !Z.shiftr_spec by lia.
    rewrite Z.lor_spec, Z.land_spec, Z.lnot_spec by lia.
    change 7 with (Z.ones 3). change 511 with (Z.ones 9). rewrite !Z.testbit_ones_nonneg by lia.
    destruct (Z.ltb_spec n 3), (Z.ltb_spec (n + k) 9); try lia;
      by rewrite ?andb_false_r, ?orb_false_l, ?orb_false_r. }
  split_and!.
  - f_equal. rewrite Z.land_lor_distr_l, Hc1, <- Z.land_assoc, (Z.land_comm (Z.lnot 511)),
      Z.land_lnot_diag, Z.land_0_r. by rewrite Z.lor_0_l.
  - by rewrite Z.land_lor_distr_l, Hc2, Z.lor_0_r, <- Z.land_assoc, Z.land_diag.
  - unfold owner_bits at 1. rewrite Hlow by lia. exact Hc3.
  - unfold other_bits at 1. rewrite <- (Z.shiftr_0_r (Z.lor _ c)), Hlow, Z.shiftr_0_r by lia. exact Hc5.
  - unfold group_bits at 1. rewrite Hlow by lia. fold (group_bits c). rewrite Hc4. cbn.
    by destruct (acl_mask a).
Qed.

(** A minimal default ACL, granting everything to the owning group. *)
Definition minimal_default_acl : PosixAcl :=
  {| acl_user_obj := 7; acl_named_users := []; acl_group_obj := 7;
     acl_named_groups := []; acl_mask := None; acl_other := 5 |}.

Lemma constrain_default_acl_spec_witness :
  exists v mode', constrain_default_acl_to_mode (encode_acl minimal_default_acl) 384 = Ok (v, mode') /\
    group_bits 384 = 0 /\ group_bits mode' = 7.
Proof.
  destruct (constrain_default_acl_spec minimal_default_acl 384) as (v & m & H & _ & _ & _ & _ & Hg).
  - split; cbn; unfold is_perm; try lia; try constructor; try done. intros [|]; done.
  - exists v, m. split; [exact H|]. split; [reflexivity|exact Hg].
Defined.

(** the setxattr validation of a default ACL ignores permission bits above the
    low three while inheritance copies them: every value of the owning group's
    16-bit permission word is accepted, and bit 8 of that word becomes the
    set-user-ID bit of every file created below with a request without it. *)
Theorem default_acl_group_word_reaches_mode (g mode : Z) :
  0 <= g < 65536 -> Z.testbit g 8 = true -> 0 <= mode < 512 ->
  let value := to_le32 2 ++ mjoin (entry_bytes <$>
                 [(1, 7, U32_ID_MAX); (4, g, U32_ID_MAX); (32, 5, U32_ID_MAX)]) in
  (exists bits, acl_access_mode_bits value = Ok bits) /\
  exists access_acl mode', constrain_default_acl_to_mode value mode = Ok (access_acl, mode') /\
    Z.testbit mode 11 = false /\ Z.testbit mode' 11 = true.
Proof.
  intros Hg Hbit Hmode value. split; [unfold value; eexists; reflexivity|].
  unfold constrain_default_acl_to_mode, value.
  destruct (encode_header _ (entry_bytes_length
    [(1, 7, U32_ID_MAX); (4, g, U32_ID_MAX); (32, 5, U32_ID_MAX)])) as (H1 & H2 & H3 & H4 & H5).
  cbn zeta in *. set (es := entry_bytes <$> _) in *.
  destruct (Z.ltb_spec (zlen (to_le32 2 ++ mjoin es)) 4); [lia|].
  rewrite H2, H3, H4, H5, chunks_exact_8_join by apply entry_bytes_length.
  cbn [orb negb Z.eqb Pos.eqb].
  change es with ([entry_bytes (1, 7, U32_ID_MAX)] ++ [entry_bytes (4, g, U32_ID_MAX)]
    ++ [entry_bytes (32, 5, U32_ID_MAX)]).
  rewrite !constrain_entries_app, constrain_single by (reflexivity || (unfold is_entry16, U32_ID_MAX; lia)).
  cbn [Z.eqb Pos.eqb mbind outcome_bind].
  rewrite !constrain_entries_app, constrain_single by (reflexivity || (unfold is_entry16, U32_ID_MAX; lia)).
  cbn [Z.eqb Pos.eqb mbind outcome_bind].
  rewrite constrain_single by (reflexivity || (unfold is_entry16, U32_ID_MAX; lia)).
  cbn [Z.eqb Pos.eqb mbind outcome_bind cs_has_mask cs_has_named_entry cs_user_obj cs_group_obj
    cs_acl_mask cs_other negb andb opt_or ok_or].
  eexists _, _. split; [reflexivity|]. split.
  - destruct (Z.eq_dec mode 0) as [->|]; [done|]. apply Z.bits_above_log2; [lia|].
    apply Z.log2_lt_pow2; lia.
  - rewrite !Z.lor_spec, (Z.shiftl_spec g 3) by lia. change (11 - 3) with 8.
    by rewrite Hbit, orb_true_r.
Qed.

Lemma default_acl_group_word_reaches_mode_witness :
  exists v mode', constrain_default_acl_to_mode
    (to_le32 2 ++ mjoin (entry_bytes <$>
       [(1, 7, U32_ID_MAX); (4, 256, U32_ID_MAX); (32, 5, U32_ID_MAX)])) 420 = Ok (v, mode') /\
    Z.testbit mode' 11 = true.
Proof.
  destruct (default_acl_group_word_reaches_mode 256 420) as [_ (v & m & H & _ & Hb)];
    [lia|reflexivity|lia|]. exists v, m. split; [exact H|exact Hb].
Defined.
