(* ===== verification/BlockStore.v ===== *)
(** * The block store: data objects and blocks in PostgreSQL

    Model of the storage layer of src/rust_hotpath/src/pg.rs: which data object a
    write goes to (in place, detached copy, full replacement), the two block
    transports, file sizes and content generations, whole-object adoption, the
    write fence and the payload quota. A table is a finite map, an SQL statement of
    the source is the map update it denotes, a transaction is a function on the
    database that either commits its result or leaves the database as it was. *)

From stdpp Require Import prelude list numbers gmap strings.
From Stdlib Require Import ZArith Lia.
From S2P Require Import Prelude Crc32 CopyBinary Errno Acl.

#[local] Open Scope Z_scope.

(** ** Tables *)

(** A row of files. [f_acl] and [f_capability] are the file's
    system.posix_acl_access and security.capability rows of xattrs. *)
Record FileRow : Set := {
  f_data_object_id : Z;
  f_size : Z;
  f_content_generation : Z;
  f_mode : Z;
  f_uid : Z;
  f_gid : Z;
  f_inode_seed : string;
  f_acl : option bytes;
  f_capability : option bytes
}.

Record DataObjectRow : Set := { o_file_size : Z; o_reference_count : Z }.

(** A row of file_write_leases (unique per file). *)
Record WriteLeaseRow : Set := {
  wl_session_id : Z;
  wl_owner_key : Z;
  wl_fencing_token : Z;
  wl_lease_expires_at : Z
}.

(** data_blocks and copy_block_crc are keyed by (data_object_id, _order); they are
    kept as one map of blocks per data object. [db_clock] is the server's clock. *)
Record Db : Type := {
  db_files : gmap Z FileRow;
  db_data_objects : gmap Z DataObjectRow;
  db_data_blocks : gmap Z (gmap Z bytes);
  db_copy_block_crc : gmap Z (gmap Z Z);
  db_data_object_seq : Z;
  db_file_write_leases : gmap Z WriteLeaseRow;
  db_client_sessions : gmap Z Z;
  db_reservations : gmap string (Z * Z);
  db_max_fs_size_bytes : Z;
  db_block_size : Z;
  db_clock : Z
}.

Definition blocks_of (db : Db) (oid : Z) : gmap Z bytes := default ∅ (db_data_blocks db !! oid).
Definition crcs_of (db : Db) (oid : Z) : gmap Z Z := default ∅ (db_copy_block_crc db !! oid).

Definition set_files (fs : gmap Z FileRow) (db : Db) : Db :=
  let '(Build_Db _ os bs cs sq ls ss rs mx bz ck) := db in Build_Db fs os bs cs sq ls ss rs mx bz ck.
Definition set_objects (os : gmap Z DataObjectRow) (db : Db) : Db :=
  let '(Build_Db fs _ bs cs sq ls ss rs mx bz ck) := db in Build_Db fs os bs cs sq ls ss rs mx bz ck.
Definition set_blocks (oid : Z) (m : gmap Z bytes) (db : Db) : Db :=
  let '(Build_Db fs os bs cs sq ls ss rs mx bz ck) := db in
  Build_Db fs os (<[oid := m]> bs) cs sq ls ss rs mx bz ck.
Definition set_crcs (oid : Z) (m : gmap Z Z) (db : Db) : Db :=
  let '(Build_Db fs os bs cs sq ls ss rs mx bz ck) := db in
  Build_Db fs os bs (<[oid := m]> cs) sq ls ss rs mx bz ck.
Definition set_reservations (rs : gmap string (Z * Z)) (db : Db) : Db :=
  let '(Build_Db fs os bs cs sq ls ss _ mx bz ck) := db in Build_Db fs os bs cs sq ls ss rs mx bz ck.

(** ** Statements

    A statement or a sequence of statements on one connection: it fails with a
    message or returns a value and the tables it leaves. *)

Definition Tx (A : Type) : Type := Db -> outcome string (A * Db).

#[global] Instance tx_ret : MRet Tx := fun _ a db => Ok (a, db).
#[global] Instance tx_bind : MBind Tx := fun _ _ f m db =>
  match m db with
  | Ok (a, db) => f a db
  | Err e => Err e
  | Panic => Panic
  end.

Definition tx_err {A} (e : string) : Tx A := fun _ => Err e.
Definition tx_get : Tx Db := fun db => Ok (db, db).
Definition tx_update (f : Db -> Db) : Tx unit := fun db => Ok (tt, f db).
Definition tx_lift {A} (m : outcome string A) : Tx A := fun db =>
  match m with Ok a => Ok (a, db) | Err e => Err e | Panic => Panic end.
Definition tx_when (b : bool) (m : Tx unit) : Tx unit := if b then m else mret tt.

(** [transactional_replayable]: COMMIT on success, ROLLBACK on an error. *)
Definition transactional {A} (m : Tx A) (db : Db) : outcome string A * Db :=
  match m db with
  | Ok (a, db') => (Ok a, db')
  | Err e => (Err e, db)
  | Panic => (Panic, db)
  end.

(** A parameter bound to a BIGINT column. *)
Definition sql_bigint (v : Z) : Tx Z :=
  if v <=? I64_MAX then mret v else tx_err "SQLSTATE 22003: value out of range for type bigint".

(** UPDATE files SET ... WHERE id_file = $n: no row, no effect. *)
Definition sql_update_file (file_id : Z) (f : FileRow -> FileRow) : Tx unit :=
  tx_update (fun db => set_files (alter f file_id (db_files db)) db).

(** UPDATE data_objects SET ... WHERE id_data_object = $n. *)
Definition sql_update_object (oid : Z) (f : DataObjectRow -> DataObjectRow) : Tx unit :=
  tx_update (fun db => set_objects (alter f oid (db_data_objects db)) db).

(** DELETE FROM data_objects: refused while a file references the row; the blocks
    and checksums go with it (ON DELETE CASCADE). *)
Definition sql_delete_object (oid : Z) : Tx unit := fun db =>
  if bool_decide (map_Exists (fun _ f => f_data_object_id f = oid) (db_files db))
  then Err "SQLSTATE 23503: update or delete violates foreign key constraint"
  else
    let '(Build_Db fs os bs cs sq ls ss rs mx bz ck) := db in
    Ok (tt, Build_Db fs (delete oid os) (delete oid bs) (delete oid cs) sq ls ss rs mx bz ck).

(** DELETE FROM files: the write lease of the file goes with it (ON DELETE CASCADE). *)
Definition delete_file_row (file_id : Z) (db : Db) : Db :=
  let '(Build_Db fs os bs cs sq ls ss rs mx bz ck) := db in
  Build_Db (delete file_id fs) os bs cs sq (delete file_id ls) ss rs mx bz ck.
Definition sql_delete_file (file_id : Z) : Tx unit := tx_update (delete_file_row file_id).

Definition with_size (size : Z) (f : FileRow) : FileRow :=
  let '(Build_FileRow o _ g m u gr sd a c) := f in Build_FileRow o size g m u gr sd a c.
Definition with_object (oid : Z) (f : FileRow) : FileRow :=
  let '(Build_FileRow _ s g m u gr sd a c) := f in Build_FileRow oid s g m u gr sd a c.
Definition bump_generation (f : FileRow) : FileRow :=
  let '(Build_FileRow o s g m u gr sd a c) := f in Build_FileRow o s (g + 1) m u gr sd a c.
Definition with_mode (mode : Z) (f : FileRow) : FileRow :=
  let '(Build_FileRow o s g _ u gr sd a c) := f in Build_FileRow o s g mode u gr sd a c.
Definition without_capability (f : FileRow) : FileRow :=
  let '(Build_FileRow o s g m u gr sd a _) := f in Build_FileRow o s g m u gr sd a None.

Definition with_object_size (size : Z) (o : DataObjectRow) : DataObjectRow :=
  {| o_file_size := size; o_reference_count := o_reference_count o |}.
Definition with_references (n : Z) (o : DataObjectRow) : DataObjectRow :=
  {| o_file_size := o_file_size o; o_reference_count := n |}.
(** reference_count = GREATEST(reference_count - 1, 0) *)
Definition drop_reference (o : DataObjectRow) : DataObjectRow :=
  with_references (Z.max (o_reference_count o - 1) 0) o.
Definition add_reference (o : DataObjectRow) : DataObjectRow :=
  with_references (o_reference_count o + 1) o.

(** ** Choosing the data object a write goes to *)

Inductive PersistBlockTransport : Set := CopyBinaryStaging | BinaryBytea | LegacyHex.

(** The settings of [DbRepo] the write path reads. *)
Record RepoConfig : Set := {
  persist_block_transport : PersistBlockTransport;
  data_object_swap_cleanup_deferred : bool;
  persist_copy_send_buffer_bytes : Z
}.

Record ReplacedDataObject : Set := { old_data_object_id : Z; old_reference_count : Z }.

Record DataObjectWriteTarget : Set := {
  dt_data_object_id : Z;
  dt_replaced : option ReplacedDataObject;
  dt_payload_rows_empty : bool
}.

Definition file_data_object_info_on_conn (file_id : Z) : Tx (option (Z * Z)) :=
  db ← tx_get;
  match db_files db !! file_id with
  | None => mret None
  | Some f =>
      match db_data_objects db !! f_data_object_id f with
      | None => tx_err "missing data-object reference count"
      | Some o =>
          if f_data_object_id f =? 0
          then tx_err "file data_object_id returned a non-positive id"
          else mret (Some (f_data_object_id f, o_reference_count o))
      end
  end.

Definition create_data_object_on_conn (file_size : Z) : Tx Z :=
  size ← sql_bigint file_size;
  db ← tx_get;
  let id := db_data_object_seq db in
  _ ← tx_update (fun db =>
        let '(Build_Db fs os bs cs sq ls ss rs mx bz ck) := db in
        Build_Db fs (<[id := {| o_file_size := size; o_reference_count := 1 |}]> os)
          bs cs (id + 1) ls ss rs mx bz ck);
  if id =? 0 then tx_err "data object insert RETURNING returned a non-positive id" else mret id.

Definition data_object_payload_rows_empty_on_conn (data_object_id : Z)
    (maintain_copy_crc_table : bool) : Tx bool :=
  db ← tx_get;
  mret (if maintain_copy_crc_table
        then bool_decide (blocks_of db data_object_id = ∅) && bool_decide (crcs_of db data_object_id = ∅)
        else bool_decide (blocks_of db data_object_id = ∅)).

Definition detach_shared_data_object_on_conn (file_id file_size : Z) (maintain_copy_crc_table : bool)
    : Tx (option (Z * bool)) :=
  info ← file_data_object_info_on_conn file_id;
  match info with
  | None => mret None
  | Some (data_object_id, reference_count) =>
      payload_rows_empty ←
        data_object_payload_rows_empty_on_conn data_object_id maintain_copy_crc_table;
      if reference_count <=? 1 then mret (Some (data_object_id, payload_rows_empty))
      else
        new_data_object_id ← create_data_object_on_conn file_size;
        _ ← tx_update (fun db => set_blocks new_data_object_id (blocks_of db data_object_id) db);
        _ ← tx_when maintain_copy_crc_table
              (tx_update (fun db => set_crcs new_data_object_id (crcs_of db data_object_id) db));
        _ ← sql_update_file file_id (fun f => with_size file_size (with_object new_data_object_id f));
        _ ← sql_update_object data_object_id drop_reference;
        mret (Some (new_data_object_id, payload_rows_empty))
  end.

Definition data_object_write_target_on_conn (file_id file_size : Z)
    (prefer_replacement maintain_copy_crc_table : bool) : Tx (option DataObjectWriteTarget) :=
  if prefer_replacement then
    info ← file_data_object_info_on_conn file_id;
    match info with
    | None => mret None
    | Some (old_data_object_id, old_reference_count) =>
        new_data_object_id ← create_data_object_on_conn file_size;
        mret (Some {| dt_data_object_id := new_data_object_id;
                      dt_replaced := Some {| old_data_object_id := old_data_object_id;
                                             old_reference_count := old_reference_count |};
                      dt_payload_rows_empty := true |})
    end
  else
    value ← detach_shared_data_object_on_conn file_id file_size maintain_copy_crc_table;
    mret (match value with
          | None => None
          | Some (data_object_id, payload_rows_empty) =>
              Some {| dt_data_object_id := data_object_id; dt_replaced := None;
                      dt_payload_rows_empty := payload_rows_empty |}
          end).

Definition update_file_sizes_on_conn (file_id data_object_id file_size : Z) : Tx unit :=
  size ← sql_bigint file_size;
  _ ← sql_update_object data_object_id (with_object_size size);
  sql_update_file file_id (with_size size).

Definition bump_file_content_generation_on_conn (file_id : Z) : Tx unit :=
  db ← tx_get;
  match db_files db !! file_id with
  | None => tx_err "content generation update found no file_id"
  | Some _ => sql_update_file file_id bump_generation
  end.

Definition finish_data_object_write_on_conn (cfg : RepoConfig) (file_id file_size : Z)
    (target : DataObjectWriteTarget) : Tx bool :=
  match dt_replaced target with
  | None =>
      _ ← update_file_sizes_on_conn file_id (dt_data_object_id target) file_size;
      mret false
  | Some replaced =>
      size ← sql_bigint file_size;
      db ← tx_get;
      match db_files db !! file_id with
      | None => tx_err "content write found no file_id"
      | Some _ =>
          _ ← sql_update_file file_id
                (fun f => bump_generation (with_size size (with_object (dt_data_object_id target) f)));
          _ ← (if (old_reference_count replaced <=? 1) && data_object_swap_cleanup_deferred cfg
               then sql_update_object (old_data_object_id replaced) (with_references 0)
               else if old_reference_count replaced <=? 1
               then sql_delete_object (old_data_object_id replaced)
               else sql_update_object (old_data_object_id replaced) drop_reference);
          mret true
      end
  end.

(** ** Writing the blocks *)

Fixpoint rows_cover_from (file_size block_size expected_block : Z) (blocks : list PersistBlockRow)
    : bool :=
  match blocks with
  | [] => true
  | block :: blocks =>
      if negb (pbr_block_index block =? expected_block) then false
      else
        let block_start := sat_mul expected_block block_size in
        let expected_used_len :=
          sat_sub (Z.min file_size (sat_add block_start block_size)) block_start in
        if negb (pbr_used_len block =? expected_used_len) then false
        else rows_cover_from file_size block_size (expected_block + 1) blocks
  end.

Definition persist_blocks_cover_full_file (file_size block_size total_blocks : Z)
    (blocks : list PersistBlockRow) : bool :=
  if file_size =? 0 then false
  else
    let block_size := Z.max block_size 1 in
    let expected_total_blocks := 1 + (file_size - 1) / block_size in
    if negb (total_blocks =? expected_total_blocks) then false
    else if negb (zlen blocks =? expected_total_blocks) then false
    else rows_cover_from file_size block_size 0 blocks.

(** INSERT INTO data_blocks (or copy_block_crc) ... SELECT: a key that is already
    there violates the unique index. *)
Fixpoint insert_rows {A} (rows : list (Z * A)) (m : gmap Z A) : outcome string (gmap Z A) :=
  match rows with
  | [] => Ok m
  | (k, v) :: rows =>
      match m !! k with
      | Some _ => Err "SQLSTATE 23505: duplicate key value violates unique constraint"
      | None => insert_rows rows (<[k := v]> m)
      end
  end.

(** INSERT ... ON CONFLICT DO UPDATE: one command may touch a key once. *)
Definition upsert_rows {A} (rows : list (Z * A)) (m : gmap Z A) : outcome string (gmap Z A) :=
  if bool_decide (NoDup rows.*1) then Ok (foldl (fun m '(k, v) => <[k := v]> m) m rows)
  else Err "SQLSTATE 21000: ON CONFLICT DO UPDATE command cannot affect row a second time".

Definition stage_rows (target_data_object_is_empty : bool) {A} (rows : list (Z * A)) (m : gmap Z A)
    : outcome string (gmap Z A) :=
  if target_data_object_is_empty then insert_rows rows m else upsert_rows rows m.

Definition delete_rows {A} (keys : list Z) (m : gmap Z A) : gmap Z A :=
  foldl (fun m k => delete k m) m keys.

(** [merge_persist_block_stage_table] on the rows of the staging table, which all
    carry the data object [oid]. *)
Definition merge_persist_block_stage_table (oid : Z) (stage : list StageRow)
    (maintain_copy_crc_table target_data_object_is_empty : bool) : Tx unit :=
  let data_rows := omap (fun r => (fun d => (st_order r, d)) <$> st_data r) stage in
  let crc_rows := omap (fun r => (fun c => (st_order r, c)) <$> st_crc32 r) stage in
  let sparse := st_order <$> filter (fun r => st_data r = None) stage in
  let no_crc := st_order <$> filter (fun r => st_crc32 r = None) stage in
  db ← tx_get;
  m ← tx_lift (stage_rows target_data_object_is_empty data_rows (blocks_of db oid));
  _ ← tx_update (set_blocks oid m);
  _ ← tx_when (negb target_data_object_is_empty) (tx_update (set_blocks oid (delete_rows sparse m)));
  tx_when maintain_copy_crc_table
    (db ← tx_get;
     c ← tx_lift (stage_rows target_data_object_is_empty crc_rows (crcs_of db oid));
     _ ← tx_update (set_crcs oid c);
     tx_when (negb target_data_object_is_empty) (tx_update (set_crcs oid (delete_rows no_crc c)))).

(** DELETE FROM data_blocks / copy_block_crc WHERE data_object_id = $1 AND
    _order >= $2, when a truncate is pending and the target had rows. *)
Definition delete_tail_on_conn (target : DataObjectWriteTarget) (total_blocks : Z)
    (truncate_pending maintain_copy_crc_table : bool) : Tx unit :=
  tx_when (truncate_pending && negb (dt_payload_rows_empty target))
    (total ← sql_bigint total_blocks;
     let oid := dt_data_object_id target in
     _ ← tx_update (fun db =>
           set_blocks oid (filter (fun kv => kv.1 < total) (blocks_of db oid)) db);
     tx_when maintain_copy_crc_table
       (tx_update (fun db => set_crcs oid (filter (fun kv => kv.1 < total) (crcs_of db oid)) db))).

Definition persist_file_blocks_copy_binary_staging_on_conn (cfg : RepoConfig)
    (file_id file_size block_size total_blocks : Z) (truncate_pending : bool)
    (blocks : list PersistBlockRow) (maintain_copy_crc_table : bool) : Tx unit :=
  let block_size := Z.max block_size 1 in
  let prefer_replacement := persist_blocks_cover_full_file file_size block_size total_blocks blocks in
  target ← data_object_write_target_on_conn file_id file_size prefer_replacement
             maintain_copy_crc_table;
  match target with
  | None => mret tt
  | Some target =>
      let data_object_id := dt_data_object_id target in
      _ ← delete_tail_on_conn target total_blocks truncate_pending maintain_copy_crc_table;
      _ ← (if bool_decide (blocks = []) then mret tt
           else
             stream ← tx_lift (copy_in_blocks (persist_copy_send_buffer_bytes cfg) data_object_id
                                 block_size blocks);
             stage ← (match parse_copy_stream stream with
                      | Some stage => mret stage
                      | None => tx_err "SQLSTATE 22P04: bad COPY file format"
                      end : Tx (list StageRow));
             merge_persist_block_stage_table data_object_id stage maintain_copy_crc_table
               (dt_payload_rows_empty target));
      finished ← finish_data_object_write_on_conn cfg file_id file_size target;
      if finished : bool then mret tt else bump_file_content_generation_on_conn file_id
  end.

(** [hex_encode_bytes] and the SQL function decode(_, 'hex'), on ASCII codes. *)
Definition hex_digit (d : Z) : Z := if d <? 10 then 48 + d else 87 + d.
Definition hex_encode_bytes (data : bytes) : bytes :=
  flat_map (fun byte => [hex_digit (Z.shiftr byte 4); hex_digit (Z.land byte 15)]) data.

Definition hex_value (c : Z) : option Z :=
  if (48 <=? c) && (c <=? 57) then Some (c - 48)
  else if (97 <=? c) && (c <=? 102) then Some (c - 87)
  else if (65 <=? c) && (c <=? 70) then Some (c - 55) else None.

Fixpoint sql_decode_hex (text : bytes) : option bytes :=
  match text with
  | [] => Some []
  | hi :: lo :: text =>
      h ← hex_value hi; l ← hex_value lo; rest ← sql_decode_hex text; Some (h * 16 + l :: rest)
  | _ => None
  end.

(** One turn of the row loop of the direct transports. *)
Definition persist_direct_row (transport : PersistBlockTransport) (data_object_id block_size : Z)
    (block : PersistBlockRow) : Tx unit :=
  if block_size <=? pbr_used_len block then
    let normalized := normalize_block_bytes (pbr_data block) block_size in
    match transport with
    | BinaryBytea =>
        order ← sql_bigint (pbr_block_index block);
        tx_update (fun db =>
          set_blocks data_object_id (<[order := normalized]> (blocks_of db data_object_id)) db)
    | LegacyHex =>
        order ← sql_bigint (pbr_block_index block);
        data ← (match sql_decode_hex (hex_encode_bytes normalized) with
                | Some data => mret data
                | None => tx_err "SQLSTATE 22023: invalid hexadecimal data"
                end : Tx bytes);
        tx_update (fun db =>
          set_blocks data_object_id (<[order := data]> (blocks_of db data_object_id)) db)
    | CopyBinaryStaging => tx_err "copy_binary_staging is handled by the staging write path"
    end
  else
    order ← sql_bigint (pbr_block_index block);
    tx_update (fun db => set_blocks data_object_id (delete order (blocks_of db data_object_id)) db).

Definition persist_crc_row (data_object_id block_size : Z) (block : PersistBlockRow) : Tx unit :=
  order ← sql_bigint (pbr_block_index block);
  tx_update (fun db =>
    let crcs := crcs_of db data_object_id in
    if block_size <=? pbr_used_len block then
      let normalized := normalize_block_bytes (pbr_data block) block_size in
      if is_all_zero_block normalized then set_crcs data_object_id (delete order crcs) db
      else set_crcs data_object_id (<[order := crc32_bytes normalized]> crcs) db
    else set_crcs data_object_id (delete order crcs) db).

(** [for block in blocks { body(block)?; }] *)
Fixpoint tx_for {A} (body : A -> Tx unit) (l : list A) : Tx unit :=
  match l with
  | [] => mret tt
  | a :: l => _ ← body a; tx_for body l
  end.

Definition persist_copy_block_crc_rows_for_data_object_on_conn (data_object_id block_size : Z)
    (blocks : list PersistBlockRow) : Tx unit :=
  tx_for (persist_crc_row data_object_id (Z.max block_size 1)) blocks.

Definition persist_file_blocks_direct_on_conn (cfg : RepoConfig)
    (file_id file_size block_size total_blocks : Z) (truncate_pending : bool)
    (blocks : list PersistBlockRow) (maintain_copy_crc_table : bool)
    (transport : PersistBlockTransport) : Tx unit :=
  let block_size := Z.max block_size 1 in
  let prefer_replacement := persist_blocks_cover_full_file file_size block_size total_blocks blocks in
  target ← data_object_write_target_on_conn file_id file_size prefer_replacement
             maintain_copy_crc_table;
  match target with
  | None => mret tt
  | Some target =>
      let data_object_id := dt_data_object_id target in
      _ ← delete_tail_on_conn target total_blocks truncate_pending maintain_copy_crc_table;
      _ ← tx_for (persist_direct_row transport data_object_id block_size) blocks;
      _ ← tx_when maintain_copy_crc_table
            (persist_copy_block_crc_rows_for_data_object_on_conn data_object_id block_size blocks);
      finished ← finish_data_object_write_on_conn cfg file_id file_size target;
      if finished : bool then mret tt else bump_file_content_generation_on_conn file_id
  end.

Definition persist_file_blocks_rows_on_conn (cfg : RepoConfig)
    (file_id file_size block_size total_blocks : Z) (truncate_pending : bool)
    (blocks : list PersistBlockRow) (maintain_copy_crc_table : bool) : Tx unit :=
  match persist_block_transport cfg with
  | CopyBinaryStaging =>
      persist_file_blocks_copy_binary_staging_on_conn cfg file_id file_size block_size total_blocks
        truncate_pending blocks maintain_copy_crc_table
  | transport =>
      persist_file_blocks_direct_on_conn cfg file_id file_size block_size total_blocks
        truncate_pending blocks maintain_copy_crc_table transport
  end.

(** ** Fence, authorization, privileges, quota *)

Record WritePersistenceFence : Set := {
  wf_session_id : Z;
  wf_owner_key : Z;
  wf_file_fencing_token : Z
}.

Record FileWriteAuthorization : Set := {
  au_actor_uid : Z;
  au_actor_groups : list Z;
  au_expected_inode_seed : string;
  au_use_posix_acl : bool
}.

(** The lease row the fence query looks for, live by the server's clock. *)
Definition fence_live (db : Db) (file_id : Z) (fence : WritePersistenceFence) : bool :=
  match db_file_write_leases db !! file_id with
  | Some l =>
      (wl_session_id l =? wf_session_id fence) && (wl_owner_key l =? wf_owner_key fence)
      && (wl_fencing_token l =? wf_file_fencing_token fence)
      && (db_clock db <? wl_lease_expires_at l)
      && (match db_client_sessions db !! wl_session_id l with
          | Some expires => db_clock db <? expires
          | None => false
          end)
  | None => false
  end.

Definition lease_active (db : Db) (file_id : Z) : bool :=
  match db_file_write_leases db !! file_id with
  | Some l => db_clock db <? wl_lease_expires_at l
  | None => false
  end.

(** The messages of the source go on with the file, session, owner and token; the
    classification of errors looks at the prefix only. *)
Definition fence_rejected : string := (WRITE_OWNERSHIP_FENCE_REJECTED_PREFIX +:+ " stale_or_expired").

Definition validate_write_persistence_fence_on_conn (file_id : Z) (fence : WritePersistenceFence)
    : Tx unit :=
  if (wf_session_id fence =? 0) || (wf_file_fencing_token fence =? 0) then tx_err fence_rejected
  else
    db ← tx_get;
    if fence_live db file_id fence then mret tt else tx_err fence_rejected.

Definition reject_unfenced_write_during_active_lease_on_conn (file_id : Z) : Tx unit :=
  db ← tx_get;
  if lease_active db file_id then tx_err fence_rejected else mret tt.

Definition validate_file_write_authorization_on_conn (file_id : Z)
    (authorization : FileWriteAuthorization) : Tx unit :=
  db ← tx_get;
  match db_files db !! file_id with
  | None => tx_err FILE_WRITE_TARGET_MISSING
  | Some f =>
      if negb (String.eqb (f_inode_seed f) (au_expected_inode_seed authorization))
      then tx_err FILE_WRITE_TARGET_MISSING
      else if au_actor_uid authorization =? 0 then mret tt
      else if 4095 <? f_mode f
      then tx_err "persisted file mode exceeds the POSIX permission range"
      else
        has_write ←
          (match (if au_use_posix_acl authorization then f_acl f else None) with
           | Some acl =>
               tx_lift (acl_write_access acl (au_actor_uid authorization)
                          (au_actor_groups authorization) (f_uid f) (f_gid f))
           | None =>
               let allowed :=
                 if au_actor_uid authorization =? f_uid f then Z.land (Z.shiftr (f_mode f) 6) 7
                 else if mem (f_gid f) (au_actor_groups authorization)
                 then Z.land (Z.shiftr (f_mode f) 3) 7
                 else Z.land (f_mode f) 7 in
               mret (negb (Z.land allowed 2 =? 0))
           end : Tx bool);
        if has_write : bool then mret tt else tx_err FILE_WRITE_ACCESS_DENIED
  end.

(** 2048 is 0o4000, 1024 is 0o2000, 1032 is 0o2010. *)
Definition clear_file_privileges_on_conn (file_id : Z) : Tx unit :=
  db ← tx_get;
  match db_files db !! file_id with
  | None => tx_err "file missing while clearing privilege metadata"
  | Some f =>
      if 4095 <? f_mode f then tx_err "persisted file mode exceeds the POSIX permission range"
      else
        let mode := Z.land (f_mode f) (Z.lnot 2048) in
        let mode :=
          if Z.land (f_mode f) 1032 =? 1032 then Z.land mode (Z.lnot 1024) else mode in
        _ ← sql_update_file file_id (with_mode mode);
        sql_update_file file_id without_capability
  end.

(** [lock_payload_quota_on_conn]: the limit, none when it is zero. The advisory
    lock it takes serialises quota checks between transactions. *)
Definition lock_payload_quota_on_conn : Tx (option Z) :=
  db ← tx_get;
  mret (if 0 <? db_max_fs_size_bytes db then Some (db_max_fs_size_bytes db) else None).

Definition sum_z (l : list Z) : Z := foldr Z.add 0 l.

(** SELECT COUNT( * ) FROM data_blocks. *)
Definition stored_block_count (db : Db) : Z :=
  sum_z ((fun m : gmap Z bytes => Z.of_nat (size m)) <$> (map_to_list (db_data_blocks db)).*2).

(** The live reservations of others. *)
Definition reserved_bytes (db : Db) (excluded_reservation_token : option string) : Z :=
  sum_z (omap (fun '(token, (reserved, expires)) =>
                 if (db_clock db <? expires)
                    && (match excluded_reservation_token with
                        | None => true
                        | Some excluded => String.eqb excluded String.EmptyString || negb (String.eqb token excluded)
                        end)
                 then Some reserved else None)
           (map_to_list (db_reservations db))).

Definition persisted_and_reserved_payload_bytes_on_conn (excluded_reservation_token : option string)
    : Tx Z :=
  db ← tx_get;
  mret (stored_block_count db * db_block_size db + reserved_bytes db excluded_reservation_token).

Definition quota_exceeded : string := (STORAGE_QUOTA_EXCEEDED_PREFIX +:+ " limit").

Definition enforce_payload_quota_on_conn (quota_bytes : option Z)
    (excluded_reservation_token : option string) : Tx unit :=
  match quota_bytes with
  | None => mret tt
  | Some quota_bytes =>
      used_bytes ← persisted_and_reserved_payload_bytes_on_conn excluded_reservation_token;
      if quota_bytes <? used_bytes then tx_err quota_exceeded else mret tt
  end.

(** One hour, in the units of the clock. *)
Definition RESERVATION_TTL : Z := 3600.

Definition refresh_payload_reservation_on_conn (quota_bytes : option Z)
    (request_token : option string) : Tx unit :=
  match request_token with
  | None => mret tt
  | Some token =>
      db ← tx_get;
      match db_reservations db !! token with
      | None => tx_err "payload capacity reservation is missing"
      | Some (reserved, _) =>
          _ ← (match quota_bytes with
               | None => mret tt
               | Some quota_bytes =>
                   used ← persisted_and_reserved_payload_bytes_on_conn (Some token);
                   if quota_bytes <? sat_add used reserved then tx_err quota_exceeded else mret tt
               end : Tx unit);
          tx_update (fun db =>
            set_reservations (<[token := (reserved, db_clock db + RESERVATION_TTL)]>
              (db_reservations db)) db)
      end
  end.

(** What [persist_file_blocks_with_crc_flag_reservation_fence_and_authorization]
    is asked to do. *)
Record PersistRequest : Set := {
  pr_file_id : Z;
  pr_file_size : Z;
  pr_block_size : Z;
  pr_total_blocks : Z;
  pr_truncate_pending : bool;
  pr_blocks : list PersistBlockRow;
  pr_maintain_copy_crc_table : bool;
  pr_capacity_reservation_token : option string;
  pr_write_fence : option WritePersistenceFence;
  pr_write_authorization : option FileWriteAuthorization;
  pr_kill_suidgid : bool
}.

Definition persist_body (cfg : RepoConfig) (r : PersistRequest) : Tx unit :=
  _ ← (match pr_write_fence r with
       | Some fence => validate_write_persistence_fence_on_conn (pr_file_id r) fence
       | None => reject_unfenced_write_during_active_lease_on_conn (pr_file_id r)
       end);
  _ ← (match pr_write_authorization r with
       | Some authorization =>
           if negb (pr_truncate_pending r)
           then tx_err "truncate authorization requires truncate_pending"
           else validate_file_write_authorization_on_conn (pr_file_id r) authorization
       | None => mret tt
       end : Tx unit);
  _ ← tx_when (pr_kill_suidgid r) (clear_file_privileges_on_conn (pr_file_id r));
  let rows :=
    persist_file_blocks_rows_on_conn cfg (pr_file_id r) (pr_file_size r) (pr_block_size r)
      (pr_total_blocks r) (pr_truncate_pending r) (pr_blocks r) (pr_maintain_copy_crc_table r) in
  match pr_capacity_reservation_token r with
  | Some token =>
      quota ← lock_payload_quota_on_conn;
      _ ← refresh_payload_reservation_on_conn quota (Some token);
      _ ← rows;
      enforce_payload_quota_on_conn quota (Some token)
  | None =>
      _ ← rows;
      quota ← lock_payload_quota_on_conn;
      enforce_payload_quota_on_conn quota None
  end.

Definition persist_file_blocks (cfg : RepoConfig) (r : PersistRequest) (db : Db)
    : outcome string unit * Db :=
  transactional (persist_body cfg r) db.

(** ** Adoption, size updates, removal *)

Definition fetch_file_info (file_id : Z) : Tx (option (Z * Z)) :=
  db ← tx_get;
  match db_files db !! file_id with
  | None => mret None
  | Some f =>
      if f_data_object_id f <=? 0 then tx_err "invalid non-positive file data-object id"
      else mret (Some (f_size f, f_data_object_id f))
  end.

(** SELECT COUNT( * ) FROM files WHERE data_object_id = $1. *)
Definition reference_total (db : Db) (oid : Z) : Z :=
  Z.of_nat (size (filter (fun kv => f_data_object_id kv.2 = oid) (db_files db))).

(** The probe of the replay-confirmed transaction. *)
Definition adopt_probe (src_file_id dst_file_id : Z) : Tx (option bool) :=
  src_info ← fetch_file_info src_file_id;
  match src_info with
  | None => mret None
  | Some (src_size, src_data_object_id) =>
      if src_size =? 0 then mret None
      else
        dst_info ← fetch_file_info dst_file_id;
        match dst_info with
        | None => mret None
        | Some (dst_size, dst_data_object_id) =>
            mret (if (dst_size =? src_size) && (src_data_object_id =? dst_data_object_id)
                  then Some true else None)
        end
  end.

(** The body; outside an index import there is no materialization fence. *)
Definition adopt_body (src_file_id dst_file_id : Z) (write_fence : option WritePersistenceFence)
    : Tx bool :=
  _ ← (match write_fence with
       | Some fence => validate_write_persistence_fence_on_conn dst_file_id fence
       | None => reject_unfenced_write_during_active_lease_on_conn dst_file_id
       end);
  src_info ← fetch_file_info src_file_id;
  match src_info with
  | None => mret false
  | Some (src_size, src_data_object_id) =>
      if src_size =? 0 then mret false
      else
        dst_info ← fetch_file_info dst_file_id;
        match dst_info with
        | None => mret false
        | Some (dst_size, dst_data_object_id) =>
            if (dst_size =? src_size) && (src_data_object_id =? dst_data_object_id) then mret true
            else if negb (dst_size =? 0) || (src_data_object_id =? dst_data_object_id) then mret false
            else
              _ ← sql_update_object src_data_object_id add_reference;
              _ ← sql_update_file dst_file_id
                    (fun f => bump_generation (with_size src_size (with_object src_data_object_id f)));
              db ← tx_get;
              let remaining_dst_references := reference_total db dst_data_object_id in
              _ ← (if remaining_dst_references =? 0 then sql_delete_object dst_data_object_id
                   else sql_update_object dst_data_object_id drop_reference);
              mret true
        end
  end.

(** [transactional_replay_confirmed]. *)
Definition replay_confirmed {A} (probe : Tx (option A)) (body : Tx A) : Tx A :=
  value ← probe;
  match value with
  | Some value => mret value
  | None => body
  end.

Definition adopt_source_data_object_optional_fence (src_file_id dst_file_id : Z)
    (write_fence : option WritePersistenceFence) (db : Db) : outcome string bool * Db :=
  transactional (replay_confirmed (adopt_probe src_file_id dst_file_id)
                   (adopt_body src_file_id dst_file_id write_fence)) db.

Definition set_file_size (file_id file_size : Z) (db : Db) : outcome string unit * Db :=
  transactional
    (replay_confirmed
       (db ← tx_get;
        mret (match db_files db !! file_id with
              | Some f => if f_size f =? file_size then Some tt else None
              | None => None
              end))
       (_ ← reject_unfenced_write_during_active_lease_on_conn file_id;
        size ← sql_bigint file_size;
        sql_update_file file_id (fun f => bump_generation (with_size size f)))) db.

(** The rows [create_file_internal] inserts for a new, empty file: its data object
    and its row of files, under the number [file_id] of the files sequence. *)
Definition insert_file_rows (file_id mode uid gid : Z) (inode_seed : string) : Tx Z :=
  data_object_id ← create_data_object_on_conn 0;
  db ← tx_get;
  match db_files db !! file_id with
  | Some _ => tx_err "SQLSTATE 23505: duplicate key value violates unique constraint"
  | None =>
      _ ← tx_update (fun db =>
            set_files (<[file_id := {| f_data_object_id := data_object_id; f_size := 0;
                                       f_content_generation := 1; f_mode := mode; f_uid := uid;
                                       f_gid := gid; f_inode_seed := inode_seed; f_acl := None;
                                       f_capability := None |}]> (db_files db)) db);
      if file_id =? 0 then tx_err "file insert RETURNING returned a non-positive id" else mret file_id
  end.

(** The last part of a file replaced by rename, when no hardlink is left and
    nobody has it open: the row and, with the last reference, the object. *)
Definition release_replaced_file (file_id : Z) : Tx unit :=
  db ← tx_get;
  match db_files db !! file_id with
  | None => tx_err "target file disappeared during rename replace"
  | Some f =>
      let data_object_id := f_data_object_id f in
      match db_data_objects db !! data_object_id with
      | None => tx_err "missing data-object reference count"
      | Some o =>
          let delete_file := sql_delete_file file_id in
          if o_reference_count o <=? 1 then
            _ ← delete_file;
            sql_delete_object data_object_id
          else
            _ ← sql_update_object data_object_id drop_reference;
            delete_file
      end
  end.

(** ** Reads (src/rust_hotpath/src/pg/file_reads.rs) *)

Definition normalize_block_arc (data : bytes) (target_len : Z) : bytes :=
  let payload_len := Z.min (zlen data) target_len in
  take (Z.to_nat payload_len) data ++ zeros (sat_sub target_len payload_len).

(** The block of a file: files JOIN data_blocks. *)
Definition stored_block (db : Db) (file_id block_index : Z) : option bytes :=
  f ← db_files db !! file_id;
  blocks_of db (f_data_object_id f) !! block_index.

Definition load_block_authoritative (db : Db) (file_id block_index block_size : Z)
    : outcome string (option bytes) :=
  let block_size := Z.max block_size 1 in
  Ok ((fun data => normalize_block_bytes data block_size) <$> stored_block db file_id block_index).

Definition fetch_block_range_shared (db : Db) (file_id first_block last_block block_size : Z)
    : outcome string (list (Z * bytes)) :=
  if last_block <? first_block then Ok []
  else
    let block_size := Z.max block_size 1 in
    Ok (omap (fun k => (fun data => (k, normalize_block_arc data block_size))
                         <$> stored_block db file_id k)
          (range_incl first_block last_block)).

Definition file_size_authoritative (db : Db) (file_id : Z) : outcome string (option Z) :=
  Ok (f_size <$> db_files db !! file_id).

(** The smallest key of a list. *)
Definition min_key (l : list Z) : option Z :=
  foldr (fun k acc => Some (match acc with Some m => Z.min k m | None => k end)) None l.

(** The block numbers stored for a data object. *)
Definition order_keys (db : Db) (oid : Z) : list Z := (map_to_list (blocks_of db oid)).*1.

Definition sparse_seek_blockwise (db : Db) (file_id file_size offset block_size : Z)
    (seek_data : bool) : outcome string (option Z) :=
  if block_size =? 0 then Err "sparse seek block_size must be positive"
  else if file_size <=? offset then Ok None
  else
    match db_files db !! file_id with
    | None => Err "file data object is missing during sparse seek"
    | Some f =>
        let oid := f_data_object_id f in
        let current_block := offset / block_size in
        let next_order := min_key (filter (fun k => current_block <= k) (order_keys db oid)) in
        if seek_data then
          match next_order with
          | None => Ok None
          | Some order =>
              if order =? current_block then Ok (Some offset)
              else
                match checked_mul order block_size with
                | None => Err "sparse seek data offset overflow"
                | Some candidate => Ok (if candidate <? file_size then Some candidate else None)
                end
          end
        else if negb (bool_decide (next_order = Some current_block)) then Ok (Some offset)
        else
          let last_data_order :=
            min_key (filter (fun k => current_block <= k /\ blocks_of db oid !! (k + 1) = None)
                       (order_keys db oid)) in
          match last_data_order with
          | None => Ok (Some file_size)
          | Some last_data_order =>
              match checked_add last_data_order 1 with
              | None => Err "sparse seek hole block overflow"
              | Some next_block =>
                  match checked_mul next_block block_size with
                  | None => Err "sparse seek hole offset overflow"
                  | Some candidate => Ok (Some (Z.min candidate file_size))
                  end
              end
          end
    end.

(** ** Invariant

    Every file has its data object; an object's reference count is the number of
    files that use it; blocks and checksums belong to existing objects; the
    sequence is above every object. During a replacing write there is one object
    ([pending]) that is counted once but not referenced yet. *)

Record wf_pending (pending : option Z) (db : Db) : Prop := {
  wf_file_object : forall fid f, db_files db !! fid = Some f ->
    is_Some (db_data_objects db !! f_data_object_id f);
  wf_refs : forall o row, db_data_objects db !! o = Some row ->
    o_reference_count row = reference_total db o + (if bool_decide (pending = Some o) then 1 else 0);
  wf_seq : 0 < db_data_object_seq db /\
    forall o, is_Some (db_data_objects db !! o) -> 0 < o < db_data_object_seq db;
  wf_blocks : forall o, is_Some (db_data_blocks db !! o) -> is_Some (db_data_objects db !! o);
  wf_crcs : forall o, is_Some (db_copy_block_crc db !! o) -> is_Some (db_data_objects db !! o)
}.

Definition wf_db (db : Db) : Prop := wf_pending None db.

(** Nothing but the blocks and checksums of data object [o] differs. *)
Record frame (o : Z) (db db' : Db) : Prop := {
  frame_files : db_files db' = db_files db;
  frame_objects : db_data_objects db' = db_data_objects db;
  frame_seq : db_data_object_seq db' = db_data_object_seq db;
  frame_blocks : forall o', o' <> o -> db_data_blocks db' !! o' = db_data_blocks db !! o';
  frame_crcs : forall o', o' <> o -> db_copy_block_crc db' !! o' = db_copy_block_crc db !! o';
  frame_leases : db_file_write_leases db' = db_file_write_leases db
}.

Lemma frame_refl o db : frame o db db.
Proof. by split. Qed.

Lemma frame_trans o db1 db2 db3 : frame o db1 db2 -> frame o db2 db3 -> frame o db1 db3.
Proof.
  intros [] []. split; try congruence; intros o' Ho.
  - by rewrite frame_blocks1, frame_blocks0.
  - by rewrite frame_crcs1, frame_crcs0.
Qed.

Lemma frame_set_blocks o m db : frame o db (set_blocks o m db).
Proof. destruct db. split; cbn; try done. intros o' Ho. by rewrite lookup_insert_ne. Qed.

Lemma frame_set_crcs o m db : frame o db (set_crcs o m db).
Proof. destruct db. split; cbn; try done. intros o' Ho. by rewrite lookup_insert_ne. Qed.

Create HintDb store.
#[export] Hint Resolve frame_refl frame_set_blocks frame_set_crcs frame_trans : store.

Lemma blocks_of_set_blocks o m db o' :
  blocks_of (set_blocks o m db) o' = if decide (o' = o) then m else blocks_of db o'.
Proof.
  destruct db. unfold blocks_of. cbn. case_decide; subst.
  - by rewrite lookup_insert_eq.
  - by rewrite lookup_insert_ne.
Qed.

Lemma blocks_of_set_crcs o m db o' : blocks_of (set_crcs o m db) o' = blocks_of db o'.
Proof. by destruct db. Qed.

Lemma frame_blocks_of o db db' o' : frame o db db' -> o' <> o -> blocks_of db' o' = blocks_of db o'.
Proof. intros [] Ho. unfold blocks_of. by rewrite frame_blocks0. Qed.

Lemma reference_total_files db db' o :
  db_files db' = db_files db -> reference_total db' o = reference_total db o.
Proof. intros H. unfold reference_total. by rewrite H. Qed.

Lemma wf_frame p o db db' :
  frame o db db' -> is_Some (db_data_objects db !! o) -> wf_pending p db -> wf_pending p db'.
Proof.
  intros [] Ho []. split.
  - intros fid f. rewrite frame_files0, frame_objects0. apply wf_file_object0.
  - intros o' row. rewrite frame_objects0. intros Hr.
    rewrite (reference_total_files db db') by done. by apply wf_refs0.
  - rewrite frame_seq0, frame_objects0. done.
  - intros o' Hs. rewrite frame_objects0. destruct (decide (o' = o)) as [->|Hne]; [done|].
    apply wf_blocks0. by rewrite <- frame_blocks0.
  - intros o' Hs. rewrite frame_objects0. destruct (decide (o' = o)) as [->|Hne]; [done|].
    apply wf_crcs0. by rewrite <- frame_crcs0.
Qed.

(** ** Reference counting *)

Definition refs (files : gmap Z FileRow) (o : Z) : Z :=
  Z.of_nat (size (filter (fun kv => f_data_object_id kv.2 = o) files)).

Lemma reference_total_refs db o : reference_total db o = refs (db_files db) o.
Proof. done. Qed.

Lemma refs_nonneg fs o : 0 <= refs fs o.
Proof. unfold refs. lia. Qed.

Lemma refs_insert_None fs fid f o : fs !! fid = None ->
  refs (<[fid := f]> fs) o = refs fs o + (if decide (f_data_object_id f = o) then 1 else 0).
Proof.
  intros Hn. unfold refs. case_decide as Hf.
  - rewrite map_filter_insert_True by done. rewrite map_size_insert_None; [lia|].
    apply map_lookup_filter_None. by left.
  - rewrite map_filter_insert_False by done. rewrite delete_id by done. lia.
Qed.

Lemma refs_insert fs fid f f' o : fs !! fid = Some f ->
  refs (<[fid := f']> fs) o =
    refs fs o - (if decide (f_data_object_id f = o) then 1 else 0)
    + (if decide (f_data_object_id f' = o) then 1 else 0).
Proof.
  intros Hf. rewrite <- (insert_delete_id fs fid f Hf) at 2.
  rewrite <- (insert_delete_eq fs fid f'), !refs_insert_None by apply lookup_delete_eq. lia.
Qed.

Lemma refs_delete fs fid f o : fs !! fid = Some f ->
  refs (delete fid fs) o = refs fs o - (if decide (f_data_object_id f = o) then 1 else 0).
Proof.
  intros Hf. rewrite <- (insert_delete_id fs fid f Hf) at 2.
  rewrite refs_insert_None by apply lookup_delete_eq. lia.
Qed.

Lemma refs_pos fs fid f : fs !! fid = Some f -> 1 <= refs fs (f_data_object_id f).
Proof.
  intros Hf. pose proof (refs_nonneg (delete fid fs) (f_data_object_id f)) as Hn.
  rewrite (refs_delete fs fid f) in Hn by done. rewrite decide_True in Hn by done. lia.
Qed.

(** Two files of one object make its count at least two. *)
Lemma refs_unique fs fid fid' f f' :
  fs !! fid = Some f -> fs !! fid' = Some f' -> fid' <> fid ->
  refs fs (f_data_object_id f) <= 1 -> f_data_object_id f' <> f_data_object_id f.
Proof.
  intros Hf Hf' Hne Hle Heq.
  assert (H : 1 <= refs (delete fid fs) (f_data_object_id f')).
  { apply refs_pos with fid'. by rewrite lookup_delete_ne. }
  rewrite (refs_delete fs fid f), Heq, decide_True in H by done. lia.
Qed.

Lemma refs_zero fs o : refs fs o = 0 -> ~ map_Exists (fun _ f => f_data_object_id f = o) fs.
Proof.
  intros H (fid & f & Hf & Ho). pose proof (refs_pos fs fid f Hf). subst. lia.
Qed.

(** ** The target of a write *)

(** Run the monadic plumbing of a transaction on a concrete database. *)
Ltac tx_run :=
  unfold mbind, tx_bind, mret, tx_ret, tx_get, tx_update, tx_err, tx_lift; cbn beta iota zeta.

Lemma alter_Some_insert {A} (g : A -> A) (m : gmap Z A) k x :
  m !! k = Some x -> alter g k m = <[k := g x]> m.
Proof.
  intros H. apply map_eq. intros i. destruct (decide (i = k)) as [->|Hne].
  - by rewrite lookup_alter_eq, lookup_insert_eq, H.
  - by rewrite lookup_alter_ne, lookup_insert_ne.
Qed.

Lemma with_object_id o f : f_data_object_id (with_object o f) = o.
Proof. by destruct f. Qed.
Lemma with_size_object s f : f_data_object_id (with_size s f) = f_data_object_id f.
Proof. by destruct f. Qed.
Lemma bump_generation_object f : f_data_object_id (bump_generation f) = f_data_object_id f.
Proof. by destruct f. Qed.

Record target_post (prefer maintain : bool) (db : Db) (fid : Z) (f : FileRow)
    (t : DataObjectWriteTarget) (db1 : Db) : Prop := {
  tp_wf : wf_pending (if prefer then Some (dt_data_object_id t) else None) db1;
  tp_file : exists f1, db_files db1 = <[fid := f1]> (db_files db) /\
    f_content_generation f1 = f_content_generation f /\
    f_data_object_id f1 = (if prefer then f_data_object_id f else dt_data_object_id t);
  tp_object : is_Some (db_data_objects db1 !! dt_data_object_id t);
  tp_blocks : blocks_of db1 (dt_data_object_id t) =
    (if prefer then ∅ else blocks_of db (f_data_object_id f));
  tp_others : forall fid' f', fid' <> fid -> db_files db !! fid' = Some f' ->
    f_data_object_id f' <> dt_data_object_id t /\
    blocks_of db1 (f_data_object_id f') = blocks_of db (f_data_object_id f');
  tp_replaced : dt_replaced t =
    (if prefer then Some {| old_data_object_id := f_data_object_id f;
                            old_reference_count := refs (db_files db) (f_data_object_id f) |}
     else None);
  tp_fresh : prefer = true -> f_data_object_id f <> dt_data_object_id t;
  tp_empty : dt_payload_rows_empty t = true -> blocks_of db1 (dt_data_object_id t) = ∅;
  tp_crc_empty : maintain = true -> dt_payload_rows_empty t = true ->
    crcs_of db1 (dt_data_object_id t) = ∅;
  tp_seq : 0 < dt_data_object_id t <= db_data_object_seq db;
  tp_leases : db_file_write_leases db1 = db_file_write_leases db
}.

(** A database with one more, unreferenced, object. *)
Definition with_new_object (size : Z) (db : Db) : Db :=
  let '(Build_Db fs os bs cs sq ls ss rs mx bz ck) := db in
  Build_Db fs (<[sq := {| o_file_size := size; o_reference_count := 1 |}]> os)
    bs cs (sq + 1) ls ss rs mx bz ck.

Lemma create_data_object_Ok size db :
  wf_db db -> size <= I64_MAX ->
  create_data_object_on_conn size db = Ok (db_data_object_seq db, with_new_object size db).
Proof.
  intros [] Hs. destruct db. cbn in *. unfold create_data_object_on_conn, sql_bigint.
  destruct (Z.leb_spec size I64_MAX); [|lia]. tx_run. cbn.
  destruct (Z.eqb_spec db_data_object_seq0 0); [lia|]. done.
Qed.

Lemma wf_new_object size db : wf_db db ->
  wf_pending (Some (db_data_object_seq db)) (with_new_object size db) /\
  db_data_objects db !! db_data_object_seq db = None /\
  blocks_of db (db_data_object_seq db) = ∅ /\
  crcs_of db (db_data_object_seq db) = ∅ /\
  refs (db_files db) (db_data_object_seq db) = 0.
Proof.
  intros [Hfo Hr [Hs0 Hs] Hb Hc]. set (n := db_data_object_seq db) in *.
  assert (Hn : db_data_objects db !! n = None).
  { apply eq_None_not_Some. intros H. specialize (Hs n H). lia. }
  assert (Hbn : db_data_blocks db !! n = None).
  { apply eq_None_not_Some. intros H. specialize (Hb n H). rewrite Hn in Hb. by destruct Hb. }
  assert (Hcn : db_copy_block_crc db !! n = None).
  { apply eq_None_not_Some. intros H. specialize (Hc n H). rewrite Hn in Hc. by destruct Hc. }
  assert (Hrn : refs (db_files db) n = 0).
  { unfold refs. replace (filter _ _) with (∅ : gmap Z FileRow); [by rewrite map_size_empty|].
    symmetry. apply map_eq. intros fid. rewrite lookup_empty. apply map_lookup_filter_None.
    right. intros f Hf Heq. cbn in Heq. destruct (Hfo fid f Hf) as [row Hrow]. rewrite Heq, Hn in Hrow. done. }
  split_and!; [|done|by unfold blocks_of; rewrite Hbn|by unfold crcs_of; rewrite Hcn|done].
  destruct db as [fs os bs cs sq ls ss rs mx bz ck]. cbn in *. subst n. split; cbn.
  - intros fid f Hf. apply lookup_insert_is_Some. destruct (decide (sq = f_data_object_id f)); [by left|].
    right. split; [done|by apply (Hfo fid)].
  - intros o row. rewrite reference_total_refs. cbn. rewrite lookup_insert_Some. intros [[<- <-]|[Hne Hrow]].
    + rewrite bool_decide_eq_true_2 by done. cbn. lia.
    + rewrite bool_decide_eq_false_2 by congruence. rewrite (Hr o row Hrow), reference_total_refs. cbn.
      rewrite bool_decide_eq_false_2 by done. lia.
  - split; [lia|]. intros o Ho. apply lookup_insert_is_Some in Ho as [<-|[_ Ho]]; [lia|].
    specialize (Hs o Ho). lia.
  - intros o Ho. apply lookup_insert_is_Some. destruct (decide (sq = o)); [by left|].
    right. split; [done|by apply Hb].
  - intros o Ho. apply lookup_insert_is_Some. destruct (decide (sq = o)); [by left|].
    right. split; [done|by apply Hc].
Qed.

Lemma file_object_info_Ok db fid f : wf_db db -> db_files db !! fid = Some f ->
  file_data_object_info_on_conn fid db =
    Ok (Some (f_data_object_id f, refs (db_files db) (f_data_object_id f)), db) /\
  0 < f_data_object_id f < db_data_object_seq db.
Proof.
  intros [] Hf. destruct (wf_file_object0 fid f Hf) as [row Hrow].
  assert (Hb : 0 < f_data_object_id f < db_data_object_seq db) by (apply wf_seq0; eauto).
  split; [|done]. unfold file_data_object_info_on_conn. tx_run. rewrite Hf, Hrow. zcase; [lia|].
  rewrite (wf_refs0 _ _ Hrow), reference_total_refs. rewrite bool_decide_eq_false_2 by done. cbn.
  do 4 f_equal. lia.
Qed.

Lemma write_target_replace db fid f file_size maintain :
  wf_db db -> db_files db !! fid = Some f -> file_size <= I64_MAX ->
  exists t db1, data_object_write_target_on_conn fid file_size true maintain db = Ok (Some t, db1) /\
    target_post true maintain db fid f t db1.
Proof.
  intros Hwf Hf Hs. destruct (file_object_info_Ok db fid f Hwf Hf) as [Hinfo Hoid].
  destruct (wf_new_object file_size db Hwf) as (Hwf' & Hn & Hbe & Hbn & Hrn).
  eexists _, (with_new_object file_size db). split.
  { unfold data_object_write_target_on_conn. cbn. unfold mbind, tx_bind. rewrite Hinfo.
    rewrite create_data_object_Ok by done. reflexivity. }
  split; cbn [dt_data_object_id dt_replaced dt_payload_rows_empty]; try done.
  - exists f. split; [|done]. destruct db; cbn in *. by rewrite insert_id.
  - destruct db; cbn. by rewrite lookup_insert_eq.
  - transitivity (blocks_of db (db_data_object_seq db)); [by destruct db|done].
  - intros fid' f' Hne Hf'. split; [|by destruct db].
    destruct (file_object_info_Ok db fid' f' Hwf Hf') as [_ ?]. lia.
  - intros _. lia.
  - intros _. transitivity (blocks_of db (db_data_object_seq db)); [by destruct db|done].
  - intros _ _. transitivity (crcs_of db (db_data_object_seq db)); [by destruct db|done].
  - lia.
  - by destruct db.
Qed.

(** The database after a shared object was copied for one file. *)
Definition detached (db : Db) (fid : Z) (f : FileRow) (size : Z) (maintain : bool) : Db :=
  let n := db_data_object_seq db in
  let '(Build_Db fs os bs cs sq ls ss rs mx bz ck) := db in
  Build_Db (<[fid := with_size size (with_object n f)]> fs)
    (alter drop_reference (f_data_object_id f)
       (<[n := {| o_file_size := size; o_reference_count := 1 |}]> os))
    (<[n := blocks_of db (f_data_object_id f)]> bs)
    (if maintain then <[n := crcs_of db (f_data_object_id f)]> cs else cs)
    (n + 1) ls ss rs mx bz ck.

Lemma detach_shared_Ok db fid f size maintain :
  wf_db db -> db_files db !! fid = Some f -> size <= I64_MAX ->
  exists empty,
    (empty = true -> blocks_of db (f_data_object_id f) = ∅) /\
    (maintain = true -> empty = true -> crcs_of db (f_data_object_id f) = ∅) /\
    detach_shared_data_object_on_conn fid size maintain db =
      if refs (db_files db) (f_data_object_id f) <=? 1
      then Ok (Some (f_data_object_id f, empty), db)
      else Ok (Some (db_data_object_seq db, empty), detached db fid f size maintain).
Proof.
  intros Hwf Hf Hs. destruct (file_object_info_Ok db fid f Hwf Hf) as [Hinfo Hoid].
  exists (if maintain
          then bool_decide (blocks_of db (f_data_object_id f) = ∅)
               && bool_decide (crcs_of db (f_data_object_id f) = ∅)
          else bool_decide (blocks_of db (f_data_object_id f) = ∅)).
  split; [|split].
  { destruct maintain; rewrite ?andb_true_iff, ?bool_decide_eq_true; tauto. }
  { intros ->. rewrite andb_true_iff, !bool_decide_eq_true. tauto. }
  unfold detach_shared_data_object_on_conn. tx_run. rewrite Hinfo. cbn beta iota.
  unfold data_object_payload_rows_empty_on_conn. tx_run.
  destruct (refs (db_files db) (f_data_object_id f) <=? 1); [done|].
  rewrite create_data_object_Ok by done. cbn beta iota.
  assert (Hne : db_data_object_seq db <> f_data_object_id f) by lia.
  unfold sql_update_file, sql_update_object, tx_when, detached. tx_run.
  destruct db as [fs os bs cs sq ls ss rs mx bz ck]. cbn in *.
  destruct maintain; tx_run; cbn; rewrite (alter_Some_insert _ fs fid f Hf); done.
Qed.

Lemma wf_detached db fid f size maintain :
  wf_db db -> db_files db !! fid = Some f -> 1 < refs (db_files db) (f_data_object_id f) ->
  wf_db (detached db fid f size maintain).
Proof.
  intros Hwf Hf Hr1. destruct (file_object_info_Ok db fid f Hwf Hf) as [_ Hoid].
  destruct (wf_new_object size db Hwf) as (_ & Hn & _ & _ & Hrn).
  destruct Hwf as [Hfo Hr [Hs0 Hs] Hb Hc].
  destruct db as [fs os bs cs sq ls ss rs mx bz ck]. unfold reference_total in Hr. fold (refs fs) in Hr.
  cbn in *. set (f' := with_size size (with_object sq f)).
  assert (Hf' : f_data_object_id f' = sq) by (unfold f'; by rewrite with_size_object, with_object_id).
  assert (Hdom : forall o, is_Some (os !! o) \/ o = sq ->
    is_Some (alter drop_reference (f_data_object_id f)
      (<[sq := {| o_file_size := size; o_reference_count := 1 |}]> os) !! o)).
  { intros o Ho. rewrite lookup_alter_is_Some. apply lookup_insert_is_Some.
    destruct (decide (sq = o)); [by left|right; split; [done|]]. destruct Ho; congruence. }
  split; cbn.
  - intros fid' f0. rewrite lookup_insert_Some. intros [[<- <-]|[_ Hf0]]; apply Hdom; [by right|].
    left. by apply (Hfo fid').
  - intros o row Hrow. unfold reference_total. cbn. fold (refs (<[fid := f']> fs) o).
    rewrite (refs_insert fs fid f f' o Hf), Hf'. rewrite bool_decide_eq_false_2 by done.
    apply lookup_alter_Some in Hrow as [(<- & row0 & Hrow0 & ->)|[Hne Hrow]].
    + rewrite lookup_insert_ne in Hrow0 by lia. specialize (Hr _ _ Hrow0).
      rewrite bool_decide_eq_false_2 in Hr by done. fold (refs fs (f_data_object_id f)) in Hr.
      rewrite decide_True by done. rewrite decide_False by lia. cbn. lia.
    + apply lookup_insert_Some in Hrow as [[<- <-]|[Hne' Hrow]].
      * rewrite decide_False by lia. rewrite decide_True by done. cbn. lia.
      * specialize (Hr _ _ Hrow). rewrite bool_decide_eq_false_2 in Hr by done.
        fold (refs fs o) in Hr. rewrite !decide_False by congruence. lia.
  - split; [lia|]. intros o Ho. rewrite lookup_alter_is_Some in Ho.
    apply lookup_insert_is_Some in Ho as [<-|[_ Ho]]; [lia|]. specialize (Hs o Ho). lia.
  - intros o Ho. apply Hdom. apply lookup_insert_is_Some in Ho as [<-|[_ Ho]]; [by right|left; by apply Hb].
  - intros o Ho. apply Hdom. destruct maintain; [|left; by apply Hc].
    apply lookup_insert_is_Some in Ho as [<-|[_ Ho]]; [by right|left; by apply Hc].
Qed.

Lemma write_target_keep db fid f file_size maintain :
  wf_db db -> db_files db !! fid = Some f -> file_size <= I64_MAX ->
  exists t db1, data_object_write_target_on_conn fid file_size false maintain db = Ok (Some t, db1) /\
    target_post false maintain db fid f t db1.
Proof.
  intros Hwf Hf Hs. destruct (file_object_info_Ok db fid f Hwf Hf) as [Hinfo Hoid].
  destruct (detach_shared_Ok db fid f file_size maintain Hwf Hf Hs) as (empty & He & Hce & Hd).
  unfold data_object_write_target_on_conn. tx_run. rewrite Hd.
  destruct (Z.leb_spec (refs (db_files db) (f_data_object_id f)) 1) as [Hle|Hgt].
  - eexists _, db. split; [reflexivity|].
    split; cbn [dt_data_object_id dt_replaced dt_payload_rows_empty]; try done.
    + exists f. by rewrite insert_id.
    + by apply (wf_file_object _ _ Hwf fid).
    + intros fid' f' Hne Hf'. split; [|done]. by eapply refs_unique.
    + lia.
  - destruct (wf_new_object file_size db Hwf) as (_ & Hn & _ & _ & Hrn).
    eexists _, (detached db fid f file_size maintain). split; [reflexivity|].
    pose proof (wf_detached db fid f file_size maintain Hwf Hf Hgt) as Hwf'.
    assert (Hb : forall o, blocks_of (detached db fid f file_size maintain) o =
      if decide (o = db_data_object_seq db) then blocks_of db (f_data_object_id f) else blocks_of db o).
    { intros o. unfold detached, blocks_of. destruct db; cbn. case_decide; subst.
      - by rewrite lookup_insert_eq.
      - by rewrite lookup_insert_ne. }
    split; cbn [dt_data_object_id dt_replaced dt_payload_rows_empty]; try done.
    + exists (with_size file_size (with_object (db_data_object_seq db) f)). destruct db; cbn.
      split; [done|]. by destruct f.
    + replace (db_data_object_seq db) with (f_data_object_id
        (with_size file_size (with_object (db_data_object_seq db) f))) by (by destruct f).
      apply (wf_file_object _ _ Hwf' fid). destruct db; cbn. apply lookup_insert_eq.
    + rewrite Hb. by rewrite decide_True.
    + intros fid' f' Hne Hf'. destruct (file_object_info_Ok db fid' f' Hwf Hf') as [_ ?].
      split; [lia|]. rewrite Hb. by rewrite decide_False by lia.
    + intros E. rewrite Hb, decide_True by done. by apply He.
    + intros -> E. transitivity (crcs_of db (f_data_object_id f)); [|by apply Hce].
      unfold detached, crcs_of. destruct db; cbn. by rewrite lookup_insert_eq.
    + lia.
    + by destruct db.
Qed.

(** ** Staging and merging *)

Lemma delete_tail_spec t total truncate maintain db :
  total <= I64_MAX ->
  exists db', delete_tail_on_conn t total truncate maintain db = Ok (tt, db') /\
    frame (dt_data_object_id t) db db' /\
    blocks_of db' (dt_data_object_id t) =
      (if truncate && negb (dt_payload_rows_empty t)
       then filter (fun kv => kv.1 < total) (blocks_of db (dt_data_object_id t))
       else blocks_of db (dt_data_object_id t)) /\
    (crcs_of db (dt_data_object_id t) = ∅ -> crcs_of db' (dt_data_object_id t) = ∅).
Proof.
  intros Ht. unfold delete_tail_on_conn, tx_when, sql_bigint.
  destruct (truncate && negb (dt_payload_rows_empty t)); [|tx_run; eauto using frame_refl].
  destruct (Z.leb_spec total I64_MAX); [|lia]. tx_run. set (o := dt_data_object_id t).
  set (m := filter _ (blocks_of db o)).
  destruct maintain; tx_run; eexists; (split; [reflexivity|]).
  - split_and!.
    + eapply frame_trans; [apply frame_set_blocks|apply frame_set_crcs].
    + by rewrite blocks_of_set_crcs, blocks_of_set_blocks, decide_True.
    + intros He. destruct db. unfold crcs_of in *. cbn in *. rewrite lookup_insert_eq. cbn.
      rewrite He. apply map_filter_empty.
  - split_and!.
    + apply frame_set_blocks.
    + by rewrite blocks_of_set_blocks, decide_True.
    + intros He. by destruct db.
Qed.

Lemma upsert_rows_union {A} (rows : list (Z * A)) m :
  NoDup rows.*1 -> upsert_rows rows m = Ok (list_to_map rows ∪ m).
Proof.
  intros Hnd. unfold upsert_rows. rewrite bool_decide_eq_true_2 by done. f_equal.
  revert m. induction rows as [|[k v] rows IH]; intros m; cbn; [by rewrite (left_id_L ∅ (∪))|].
  inversion Hnd as [|? ? Hk Hnd']; subst. rewrite IH by done.
  rewrite <- insert_union_l, insert_union_r; [done|]. by apply not_elem_of_list_to_map_1.
Qed.

Lemma insert_rows_empty {A} (rows : list (Z * A)) :
  NoDup rows.*1 -> insert_rows rows ∅ = Ok (list_to_map rows).
Proof.
  assert (H : forall m, NoDup rows.*1 -> (forall k, k ∈ rows.*1 -> m !! k = None) ->
    insert_rows rows m = Ok (list_to_map rows ∪ m)).
  { induction rows as [|[k v] rows IH]; intros m Hnd Hm; cbn; [by rewrite (left_id_L ∅ (∪))|].
    inversion Hnd as [|? ? Hk Hnd']; subst. rewrite (Hm k) by set_solver.
    rewrite IH; [|done|].
    - rewrite <- insert_union_l, insert_union_r; [done|]. by apply not_elem_of_list_to_map_1.
    - intros k' Hk'. rewrite lookup_insert_ne by set_solver. apply Hm. set_solver. }
  intros Hnd. rewrite H by done. by rewrite (right_id_L ∅ (∪)).
Qed.

Lemma lookup_delete_rows {A} (keys : list Z) (m : gmap Z A) k :
  delete_rows keys m !! k = if decide (k ∈ keys) then None else m !! k.
Proof.
  unfold delete_rows. revert m. induction keys as [|k' keys IH]; intros m; cbn; [done|].
  rewrite IH. destruct (decide (k = k')) as [->|Hne].
  - rewrite lookup_delete_eq. rewrite (decide_True (P := k' ∈ k' :: keys)) by set_solver.
    by case_decide.
  - rewrite lookup_delete_ne by done. destruct (decide (k ∈ keys)).
    + rewrite decide_True by set_solver. done.
    + rewrite decide_False by set_solver. done.
Qed.

(** The rows of the staging table by block number. *)
Definition stage_map (stage : list StageRow) : gmap Z StageRow :=
  list_to_map ((fun r => (st_order r, r)) <$> stage).

Lemma stage_column {A} (col : StageRow -> option A) stage :
  NoDup (st_order <$> stage) ->
  let rows := omap (fun r => (fun d => (st_order r, d)) <$> col r) stage in
  NoDup rows.*1 /\
  (forall k, (list_to_map rows : gmap Z A) !! k = stage_map stage !! k ≫= col) /\
  (forall k, k ∈ st_order <$> filter (fun r => col r = None) stage <->
     exists r, stage_map stage !! k = Some r /\ col r = None).
Proof.
  intros Hnd rows. subst rows. unfold stage_map. induction stage as [|r stage IH].
  { cbn. split_and!; [constructor|by intros|]. intros k. rewrite lookup_empty.
    split; [set_solver|by intros (? & ? & _)]. }
  rewrite fmap_cons in Hnd. inversion Hnd as [|? ? Hr Hnd']; subst.
  destruct (IH Hnd') as (H1 & H2 & H3). clear IH.
  assert (Hsub : forall k, k ∈ (omap (fun r => (fun d => (st_order r, d)) <$> col r) stage).*1 ->
    k ∈ st_order <$> stage).
  { intros k Hk. apply list_elem_of_fmap in Hk as ([k' d] & -> & Hk).
    apply list_elem_of_omap in Hk as (r' & Hr' & Hd). apply fmap_Some in Hd as (d' & _ & [= -> ->]).
    apply list_elem_of_fmap. by exists r'. }
  assert (Hmiss : (list_to_map ((fun r => (st_order r, r)) <$> stage) : gmap Z StageRow)
    !! st_order r = None).
  { apply not_elem_of_list_to_map_1. rewrite <- list_fmap_compose. exact Hr. }
  cbn [omap list_omap fmap list_fmap list_to_map foldr]. rewrite filter_cons.
  destruct (col r) as [d|] eqn:E; cbn [fmap option_fmap option_map].
  - split_and!.
    + cbn. constructor; [|done]. intros Hin. by apply Hr, Hsub.
    + intros k. cbn. destruct (decide (k = st_order r)) as [->|Hne].
      * by rewrite !lookup_insert_eq.
      * by rewrite !lookup_insert_ne.
    + intros k. rewrite decide_False by done. rewrite H3.
      destruct (decide (k = st_order r)) as [->|Hne].
      * rewrite lookup_insert_eq, Hmiss. split; [by intros (? & ? & _)|intros (? & [= <-] & ?); congruence].
      * by rewrite lookup_insert_ne.
  - split_and!; [done| |].
    + intros k. rewrite H2. destruct (decide (k = st_order r)) as [->|Hne].
      * rewrite lookup_insert_eq, Hmiss. cbn. by rewrite E.
      * by rewrite lookup_insert_ne.
    + intros k. rewrite decide_True by done. rewrite fmap_cons, elem_of_cons, H3.
      destruct (decide (k = st_order r)) as [->|Hne].
      * rewrite lookup_insert_eq. split; [intros _; by exists r|by left].
      * rewrite lookup_insert_ne by done. split; [intros [?|?]; [congruence|done]|by right].
Qed.

(** A column of the staging table merged into a block map: staged keys take the
    staged value (none for NULL), the others keep theirs. *)
Lemma merge_column {A} (col : StageRow -> option A) stage (empty : bool) (m : gmap Z A) :
  NoDup (st_order <$> stage) -> (empty = true -> m = ∅) ->
  let rows := omap (fun r => (fun d => (st_order r, d)) <$> col r) stage in
  let nulls := st_order <$> filter (fun r => col r = None) stage in
  exists m', stage_rows empty rows m = Ok m' /\
    forall k, (if empty then m' else delete_rows nulls m') !! k =
      match stage_map stage !! k with Some r => col r | None => m !! k end.
Proof.
  intros Hnd Hm rows nulls.
  destruct (stage_column col stage Hnd) as (H1 & H2 & H3). fold rows in H1, H2. fold nulls in H3.
  unfold stage_rows. destruct empty.
  - rewrite (Hm eq_refl), insert_rows_empty by done. eexists. split; [reflexivity|].
    intros k. rewrite H2. destruct (stage_map stage !! k); [done|by rewrite lookup_empty].
  - rewrite upsert_rows_union by done. eexists. split; [reflexivity|]. intros k.
    rewrite lookup_delete_rows. case_decide as Hk.
    + apply H3 in Hk as (r & -> & Hr). by rewrite Hr.
    + rewrite lookup_union, H2. destruct (stage_map stage !! k) as [r|] eqn:E; cbn.
      * destruct (col r) as [d|] eqn:Ed; [by destruct (m !! k)|].
        exfalso. apply Hk, H3. by exists r.
      * by destruct (m !! k).
Qed.

Lemma merge_stage_spec oid stage maintain empty db :
  NoDup (st_order <$> stage) -> (empty = true -> blocks_of db oid = ∅) ->
  (maintain = true -> empty = true -> crcs_of db oid = ∅) ->
  exists db', merge_persist_block_stage_table oid stage maintain empty db = Ok (tt, db') /\
    frame oid db db' /\
    forall k, blocks_of db' oid !! k =
      match stage_map stage !! k with Some r => st_data r | None => blocks_of db oid !! k end.
Proof.
  intros Hnd Hb Hc. unfold merge_persist_block_stage_table.
  destruct (merge_column st_data stage empty (blocks_of db oid) Hnd Hb) as (m & Hm & Hml).
  tx_run. rewrite Hm. cbn beta iota.
  set (m' := if empty then m else delete_rows (st_order <$> filter (fun r => st_data r = None) stage) m).
  assert (Hstep : exists db2, tx_when (negb empty) (tx_update (set_blocks oid
      (delete_rows (st_order <$> filter (fun r => st_data r = None) stage) m))) (set_blocks oid m db)
      = Ok (tt, db2) /\ frame oid db db2 /\ blocks_of db2 oid = m' /\ crcs_of db2 oid = crcs_of db oid).
  { unfold tx_when, m'. destruct empty; tx_run; eexists; (split; [reflexivity|]).
    - rewrite blocks_of_set_blocks, decide_True by done.
      split_and!; [apply frame_set_blocks|done|by destruct db].
    - rewrite blocks_of_set_blocks, decide_True by done.
      split_and!; [|done|by destruct db].
      eapply frame_trans; apply frame_set_blocks. }
  destruct Hstep as (db2 & Hw & Hfr & Hbl & Hcr). unfold tx_update in Hw. rewrite Hw. cbn beta iota.
  destruct maintain; cbn [tx_when]; cycle 1.
  { exists db2. split; [done|]. split; [done|]. intros k. rewrite Hbl. apply Hml. }
  destruct (merge_column st_crc32 stage empty (crcs_of db2 oid) Hnd) as (c & Hcm & _).
  { rewrite Hcr. by apply Hc. }
  unfold tx_when. tx_run. rewrite Hcm. cbn beta iota.
  destruct empty; cbn [negb]; tx_run; eexists; (split; [reflexivity|]).
  - split; [by eapply frame_trans; [|apply frame_set_crcs]|].
    intros k. rewrite blocks_of_set_crcs, Hbl. apply Hml.
  - split; [eapply frame_trans; [exact Hfr|]; eapply frame_trans; apply frame_set_crcs|].
    intros k. rewrite !blocks_of_set_crcs, Hbl. apply Hml.
Qed.

(** ** Finishing a write *)

(** What a finished write leaves: the file on its target object with the new size
    and one more generation, the invariant, and the blocks of every object still
    in use. *)
Record finish_post (db : Db) (fid : Z) (f : FileRow) (t : DataObjectWriteTarget) (file_size : Z)
    (db2 db4 : Db) : Prop := {
  fp_wf : wf_db db4;
  fp_file : exists f', db_files db4 = <[fid := f']> (db_files db) /\ f_size f' = file_size /\
    f_content_generation f' = f_content_generation f + 1 /\
    f_data_object_id f' = dt_data_object_id t;
  fp_blocks : forall o, is_Some (db_data_objects db4 !! o) -> blocks_of db4 o = blocks_of db2 o
}.

Lemma finish_keep cfg maintain db fid f t db1 db2 file_size :
  target_post false maintain db fid f t db1 -> frame (dt_data_object_id t) db1 db2 ->
  file_size <= I64_MAX ->
  exists db4,
    (finished ← finish_data_object_write_on_conn cfg fid file_size t;
     if finished : bool then mret tt else bump_file_content_generation_on_conn fid) db2 = Ok (tt, db4) /\
    finish_post db fid f t file_size db2 db4.
Proof.
  intros [Hpw Hpf Hpo Hpb Hpot Hpr Hpn Hpe Hpc Hps Hpl] Hfr Hs.
  pose proof (wf_frame _ _ _ _ Hfr Hpo Hpw) as [W1 W2 W3 W4 W5].
  destruct Hfr as [Hff _ _ _ _ _]. destruct Hpf as (f1 & Hf1 & Hg1 & Ho1).
  assert (Hlook : db_files db2 !! fid = Some f1) by (rewrite Hff, Hf1; apply lookup_insert_eq).
  set (f' := bump_generation (with_size file_size f1)).
  assert (Hf' : f_data_object_id f' = f_data_object_id f1)
    by (unfold f'; by rewrite bump_generation_object, with_size_object).
  exists (set_files (<[fid := f']> (db_files db2))
            (set_objects (alter (with_object_size file_size) (dt_data_object_id t) (db_data_objects db2)) db2)).
  split.
  { unfold finish_data_object_write_on_conn, update_file_sizes_on_conn, sql_bigint,
      bump_file_content_generation_on_conn, sql_update_object, sql_update_file.
    rewrite Hpr. destruct (Z.leb_spec file_size I64_MAX); [|lia]. tx_run.
    destruct db2 as [fs os bs cs sq ls ss rs mx bz ck]. cbn in *. rewrite lookup_alter_eq, Hlook. cbn.
    rewrite (alter_Some_insert _ fs fid f1 Hlook).
    rewrite (alter_Some_insert _ _ fid (with_size file_size f1)) by apply lookup_insert_eq.
    by rewrite insert_insert_eq. }
  destruct db2 as [fs os bs cs sq ls ss rs mx bz ck]. cbn in *. split; [|..|by intros].
  - split; cbn.
    + intros fid' f0. rewrite lookup_insert_Some, lookup_alter_is_Some.
      intros [[<- <-]|[_ H0]]; [rewrite Hf'; by apply (W1 fid)|by apply (W1 fid')].
    + intros o row Hrow. rewrite reference_total_refs. cbn. rewrite (refs_insert fs fid f1), Hf' by done.
      assert (exists row0, os !! o = Some row0 /\ o_reference_count row = o_reference_count row0)
        as (row0 & H0 & ->).
      { apply lookup_alter_Some in Hrow as [(<- & row0 & H0 & ->)|[_ H0]]; eauto. }
      rewrite (W2 _ _ H0), reference_total_refs. cbn. lia.
    + split; [lia|]. intros o Ho. rewrite lookup_alter_is_Some in Ho. by apply W3.
    + intros o Ho. rewrite lookup_alter_is_Some. by apply W4.
    + intros o Ho. rewrite lookup_alter_is_Some. by apply W5.
  - exists f'. rewrite Hff, Hf1, insert_insert_eq. split; [done|].
    unfold f'. destruct f1; cbn in *. subst. done.
Qed.

(** The three ways the replaced object [old] is released once file [fid] is bound
    to the pending object [n]. *)
Section Release.
Context (n old fid : Z) (f1 f' : FileRow) (db2 : Db).
Hypothesis Hwf : wf_pending (Some n) db2.
Hypothesis Hf1 : db_files db2 !! fid = Some f1.
Hypothesis Hold : f_data_object_id f1 = old.
Hypothesis Hne : old <> n.
Hypothesis Hf' : f_data_object_id f' = n.
Hypothesis Hn : is_Some (db_data_objects db2 !! n).

Lemma release_refs o : refs (<[fid := f']> (db_files db2)) o =
  refs (db_files db2) o - (if decide (old = o) then 1 else 0) + (if decide (n = o) then 1 else 0).
Proof. rewrite (refs_insert _ fid f1) by done. by rewrite Hold, Hf'. Qed.

(** The counts of the objects other than [old] are right once [fid] is bound to [n]. *)
Lemma release_other o r : o <> old -> db_data_objects db2 !! o = Some r ->
  o_reference_count r = refs (<[fid := f']> (db_files db2)) o.
Proof.
  intros Ho Hr. rewrite release_refs, (wf_refs _ _ Hwf _ _ Hr), reference_total_refs.
  rewrite (decide_False (P := old = o)) by congruence. destruct (decide (n = o)) as [->|Hno].
  - rewrite bool_decide_eq_true_2 by done. lia.
  - rewrite bool_decide_eq_false_2 by congruence. lia.
Qed.

Lemma release_update_wf g :
  (forall r, db_data_objects db2 !! old = Some r ->
     o_reference_count (g r) = refs (db_files db2) old - 1) ->
  wf_db (set_objects (alter g old (db_data_objects db2)) (set_files (<[fid := f']> (db_files db2)) db2)).
Proof.
  intros Hg. pose proof release_refs as Hrefs. pose proof release_other as Hother.
  destruct Hwf as [W1 _ W3 W4 W5]. destruct db2 as [fs os bs cs sq ls ss rs mx bz ck].
  cbn in *. split; cbn.
  - intros fid' f0. rewrite lookup_insert_Some, lookup_alter_is_Some.
    intros [[<- <-]|[_ H0]]; [by rewrite Hf'|by apply (W1 fid')].
  - intros o r Hr. rewrite reference_total_refs. cbn.
    rewrite (bool_decide_eq_false_2 (None = Some o)) by done.
    apply lookup_alter_Some in Hr as [(<- & r0 & H0 & ->)|[Ho H0]].
    + rewrite (Hg _ H0), Hrefs, decide_True by done. rewrite decide_False by congruence. lia.
    + rewrite (Hother o r) by congruence. lia.
  - split; [lia|]. intros o Ho. rewrite lookup_alter_is_Some in Ho. by apply W3.
  - intros o Ho. rewrite lookup_alter_is_Some. by apply W4.
  - intros o Ho. rewrite lookup_alter_is_Some. by apply W5.
Qed.

Lemma release_delete : refs (db_files db2) old <= 1 ->
  exists db4, sql_delete_object old (set_files (<[fid := f']> (db_files db2)) db2) = Ok (tt, db4) /\
    wf_db db4 /\ db_files db4 = <[fid := f']> (db_files db2) /\
    (forall o, is_Some (db_data_objects db4 !! o) -> blocks_of db4 o = blocks_of db2 o).
Proof.
  intros Hle. pose proof release_refs as Hrefs. pose proof release_other as Hother.
  assert (Hone : 1 <= refs (db_files db2) old) by (rewrite <- Hold; by apply (refs_pos _ fid)).
  destruct Hwf as [W1 _ W3 W4 W5]. destruct db2 as [fs os bs cs sq ls ss rs mx bz ck].
  cbn in *. unfold sql_delete_object. cbn. rewrite bool_decide_eq_false_2.
  2: { apply refs_zero. rewrite Hrefs, decide_True by done. rewrite decide_False by congruence. lia. }
  assert (Hsafe : forall o, o <> old -> is_Some (os !! o) -> is_Some (delete old os !! o))
    by (intros o Ho Hs; by rewrite lookup_delete_ne).
  eexists. split; [reflexivity|]. split_and!; [|done|].
  - split; cbn.
    + intros fid' f0. rewrite lookup_insert_Some. intros [[<- <-]|[Hfid H0]].
      * apply Hsafe; [congruence|by rewrite Hf'].
      * apply Hsafe; [|by apply (W1 fid')]. rewrite <- Hold.
        apply (refs_unique fs fid fid' f1 f0); [done..|]. rewrite Hold. lia.
    + intros o r Hr. rewrite reference_total_refs. cbn.
      rewrite (bool_decide_eq_false_2 (None = Some o)) by done.
      apply lookup_delete_Some in Hr as [Ho Hr]. rewrite (Hother o r) by congruence. lia.
    + split; [lia|]. intros o [r Hr]. apply lookup_delete_Some in Hr as [_ Hr]. apply W3. eauto.
    + intros o [m Hm]. apply lookup_delete_Some in Hm as [Ho Hm]. apply Hsafe; [congruence|]. apply W4. eauto.
    + intros o [m Hm]. apply lookup_delete_Some in Hm as [Ho Hm]. apply Hsafe; [congruence|]. apply W5. eauto.
  - intros o [r Hr]. cbn in Hr. apply lookup_delete_Some in Hr as [Ho _]. unfold blocks_of. cbn.
    by rewrite lookup_delete_ne.
Qed.

Lemma release_replaced cfg :
  let cnt := refs (db_files db2) old in
  exists db4,
    (if (cnt <=? 1) && data_object_swap_cleanup_deferred cfg
     then sql_update_object old (with_references 0)
     else if cnt <=? 1 then sql_delete_object old
     else sql_update_object old drop_reference) (set_files (<[fid := f']> (db_files db2)) db2)
      = Ok (tt, db4) /\
    wf_db db4 /\ db_files db4 = <[fid := f']> (db_files db2) /\
    (forall o, is_Some (db_data_objects db4 !! o) -> blocks_of db4 o = blocks_of db2 o).
Proof.
  intros cnt.
  assert (Hone : 1 <= cnt) by (unfold cnt; rewrite <- Hold; by apply (refs_pos _ fid)).
  assert (Hcnt : forall r, db_data_objects db2 !! old = Some r -> o_reference_count r = cnt).
  { intros r Hr. rewrite (wf_refs _ _ Hwf _ _ Hr), reference_total_refs.
    rewrite bool_decide_eq_false_2 by congruence. unfold cnt. lia. }
  assert (Hupd : forall g, (forall r, o_reference_count r = cnt -> o_reference_count (g r) = cnt - 1) ->
    exists db4, sql_update_object old g (set_files (<[fid := f']> (db_files db2)) db2) = Ok (tt, db4) /\
      wf_db db4 /\ db_files db4 = <[fid := f']> (db_files db2) /\
      (forall o, is_Some (db_data_objects db4 !! o) -> blocks_of db4 o = blocks_of db2 o)).
  { intros g Hg. eexists. split; [reflexivity|].
    replace (db_data_objects (set_files _ db2)) with (db_data_objects db2) by (by destruct db2).
    split; [apply release_update_wf; auto|]. by destruct db2. }
  destruct (Z.leb_spec cnt 1); cbn [andb]; [|apply Hupd; cbn; intros; lia].
  destruct (data_object_swap_cleanup_deferred cfg); [apply Hupd; cbn; intros; lia|].
  by apply release_delete.
Qed.
End Release.

Lemma finish_replace cfg maintain db fid f t db1 db2 file_size :
  db_files db !! fid = Some f ->
  target_post true maintain db fid f t db1 -> frame (dt_data_object_id t) db1 db2 ->
  file_size <= I64_MAX ->
  exists db4,
    (finished ← finish_data_object_write_on_conn cfg fid file_size t;
     if finished : bool then mret tt else bump_file_content_generation_on_conn fid) db2 = Ok (tt, db4) /\
    finish_post db fid f t file_size db2 db4.
Proof.
  intros Hf [Hpw Hpf Hpo Hpb Hpot Hpr Hpn Hpe Hpc Hps Hpl] Hfr Hs.
  pose proof (wf_frame _ _ _ _ Hfr Hpo Hpw) as Hw2.
  destruct Hfr as [Hff Hfo _ _ _ _]. destruct Hpf as (f1 & Hf1 & Hg1 & Ho1).
  assert (Hlook : db_files db2 !! fid = Some f1) by (rewrite Hff, Hf1; apply lookup_insert_eq).
  set (n := dt_data_object_id t) in *.
  set (f' := bump_generation (with_size file_size (with_object n f1))).
  assert (Hf' : f_data_object_id f' = n)
    by (unfold f'; by rewrite bump_generation_object, with_size_object, with_object_id).
  assert (Hcnt : refs (db_files db2) (f_data_object_id f) = refs (db_files db) (f_data_object_id f)).
  { rewrite Hff, Hf1, (refs_insert _ fid f), Ho1 by done. lia. }
  destruct (release_replaced n (f_data_object_id f) fid f1 f' db2) with (cfg := cfg) as (db4 & Hrel & Hw4 & Hf4 & Hb4);
    [done|done|done|by apply Hpn|done|by rewrite Hfo|].
  rewrite Hcnt in Hrel. exists db4. split.
  - unfold finish_data_object_write_on_conn, sql_bigint, sql_update_file.
    rewrite Hpr. destruct (Z.leb_spec file_size I64_MAX); [|lia].
    cbn [old_reference_count old_data_object_id]. tx_run.
    rewrite Hlook, (alter_Some_insert _ _ fid f1 Hlook). fold n. fold f'. by rewrite Hrel.
  - split; [done| |done]. exists f'.
    rewrite Hf4, Hff, Hf1, insert_insert_eq. split; [done|].
    unfold f'. destruct f1; cbn in *. subst. done.
Qed.

Lemma finish_write cfg prefer maintain db fid f t db1 db2 file_size :
  db_files db !! fid = Some f ->
  target_post prefer maintain db fid f t db1 -> frame (dt_data_object_id t) db1 db2 ->
  file_size <= I64_MAX ->
  exists db4,
    (finished ← finish_data_object_write_on_conn cfg fid file_size t;
     if finished : bool then mret tt else bump_file_content_generation_on_conn fid) db2 = Ok (tt, db4) /\
    finish_post db fid f t file_size db2 db4.
Proof. destruct prefer; [apply finish_replace|intros _; apply finish_keep]. Qed.

Lemma write_target prefer db fid f file_size maintain :
  wf_db db -> db_files db !! fid = Some f -> file_size <= I64_MAX ->
  exists t db1, data_object_write_target_on_conn fid file_size prefer maintain db = Ok (Some t, db1) /\
    target_post prefer maintain db fid f t db1.
Proof. destruct prefer; [apply write_target_replace|apply write_target_keep]. Qed.

(** ** The common shape of the two transports

    [rows] writes the blocks into the target; block [k] becomes [v] where
    [upd k = Some v] and stays as it is elsewhere. *)

Record persist_post (db : Db) (fid : Z) (f : FileRow) (file_size : Z) (db' : Db) : Prop := {
  pp_wf : wf_db db';
  pp_file : exists f', db_files db' = <[fid := f']> (db_files db) /\ f_size f' = file_size /\
    f_content_generation f' = f_content_generation f + 1;
  pp_isolated : forall fid' k, fid' <> fid -> is_Some (db_files db !! fid') ->
    stored_block db' fid' k = stored_block db fid' k
}.

Section Transport.
Context (cfg : RepoConfig) (fid file_size total : Z) (prefer truncate maintain : bool).
Context (rows : DataObjectWriteTarget -> Tx unit) (upd : Z -> option (option bytes)).
Context (db : Db) (f : FileRow).
Hypothesis Hwf : wf_db db.
Hypothesis Hf : db_files db !! fid = Some f.
Hypothesis Hsize : file_size <= I64_MAX.
Hypothesis Htotal : total <= I64_MAX.
Hypothesis Hrows : forall t db2,
  0 < dt_data_object_id t <= db_data_object_seq db ->
  (dt_payload_rows_empty t = true -> blocks_of db2 (dt_data_object_id t) = ∅) ->
  (maintain = true -> dt_payload_rows_empty t = true -> crcs_of db2 (dt_data_object_id t) = ∅) ->
  exists db3, rows t db2 = Ok (tt, db3) /\ frame (dt_data_object_id t) db2 db3 /\
    forall k, blocks_of db3 (dt_data_object_id t) !! k =
      match upd k with Some v => v | None => blocks_of db2 (dt_data_object_id t) !! k end.

Lemma persist_transport :
  exists db4,
    (target ← data_object_write_target_on_conn fid file_size prefer maintain;
     match target with
     | None => mret tt
     | Some target =>
         _ ← delete_tail_on_conn target total truncate maintain;
         _ ← rows target;
         finished ← finish_data_object_write_on_conn cfg fid file_size target;
         if finished : bool then mret tt else bump_file_content_generation_on_conn fid
     end) db = Ok (tt, db4) /\
    persist_post db fid f file_size db4 /\
    forall k, stored_block db4 fid k =
      match upd k with
      | Some v => v
      | None => if prefer || (truncate && (total <=? k)) then None else stored_block db fid k
      end.
Proof.
  destruct (write_target prefer db fid f file_size maintain Hwf Hf Hsize) as (t & db1 & Ht & Hp).
  destruct (delete_tail_spec t total truncate maintain db1 Htotal) as (db2 & Hd & Hfr2 & Hb2 & Hc2).
  pose proof Hp as [Hpw Hpf Hpo Hpb Hpot Hpr Hpn Hpe Hpc Hps Hpl].
  destruct (Hrows t db2 Hps) as (db3 & Hr & Hfr3 & Hb3).
  { intros E. rewrite Hb2, E, andb_false_r. by apply Hpe. }
  { intros E1 E2. by apply Hc2, Hpc. }
  destruct (finish_write cfg prefer maintain db fid f t db1 db3 file_size Hf Hp) as (db4 & H4 & [Hw4 Hf4 Hb4]).
  { by eapply frame_trans. }
  { done. }
  destruct Hf4 as (f' & Hf4 & Hs & Hg & Ho).
  exists db4. split; [|split].
  - unfold mbind, tx_bind at 1. rewrite Ht. unfold tx_bind at 1. rewrite Hd.
    unfold tx_bind at 1. rewrite Hr. exact H4.
  - split; [done|by exists f'|]. intros fid' k Hne [g Hfid']. unfold stored_block.
    rewrite Hf4, lookup_insert_ne, Hfid' by done. cbn. destruct (Hpot fid' g Hne Hfid') as [Hog Hbg].
    rewrite Hb4.
    + rewrite (frame_blocks_of _ _ _ _ Hfr3), (frame_blocks_of _ _ _ _ Hfr2), Hbg by done. done.
    + apply (wf_file_object _ _ Hw4 fid'). by rewrite Hf4, lookup_insert_ne.
  - intros k. unfold stored_block at 1. rewrite Hf4, lookup_insert_eq. cbn. rewrite Ho, Hb4.
    + rewrite Hb3. destruct (upd k); [done|]. rewrite Hb2. unfold stored_block. rewrite Hf. cbn.
      destruct prefer; cbn [orb].
      { rewrite Hpb. destruct (truncate && _); [by rewrite map_filter_empty, lookup_empty|apply lookup_empty]. }
      destruct truncate; cbn [andb]; [|by rewrite Hpb].
      destruct (dt_payload_rows_empty t) eqn:E; cbn [negb].
      * rewrite Hpe by done. rewrite <- Hpb, Hpe by done. rewrite lookup_empty. by destruct (_ <=? _).
      * rewrite Hpb. destruct (Z.leb_spec total k).
        -- apply map_lookup_filter_None. right. cbn. lia.
        -- destruct (blocks_of db (f_data_object_id f) !! k) eqn:Ek.
           ++ apply map_lookup_filter_Some. cbn. done.
           ++ apply map_lookup_filter_None. by left.
    + rewrite <- Ho. apply (wf_file_object _ _ Hw4 fid). by rewrite Hf4, lookup_insert_eq.
Qed.
End Transport.

(** ** What a list of rows writes *)

(** The row of block [k]. *)
Definition row_for (blocks : list PersistBlockRow) (k : Z) : option PersistBlockRow :=
  find (fun b => pbr_block_index b =? k) blocks.

Lemma row_for_elem blocks k b : row_for blocks k = Some b -> b ∈ blocks /\ pbr_block_index b = k.
Proof.
  intros H. apply find_some in H as [H1 H2]. apply list_elem_of_In in H1. by apply Z.eqb_eq in H2.
Qed.

Lemma row_for_None blocks k : row_for blocks k = None <-> k ∉ pbr_block_index <$> blocks.
Proof.
  unfold row_for. induction blocks as [|b blocks IH]; cbn; [set_solver|].
  rewrite not_elem_of_cons. destruct (Z.eqb_spec (pbr_block_index b) k).
  - split; [done|]. intros [? _]. congruence.
  - rewrite IH. intuition congruence.
Qed.

Lemma row_for_NoDup blocks b :
  NoDup (pbr_block_index <$> blocks) -> b ∈ blocks -> row_for blocks (pbr_block_index b) = Some b.
Proof.
  unfold row_for. induction blocks as [|b' blocks IH]; cbn; [set_solver|]. intros Hnd Hb.
  inversion Hnd as [|? ? Hn Hnd']; subst. apply elem_of_cons in Hb as [->|Hb].
  - by rewrite Z.eqb_refl.
  - destruct (Z.eqb_spec (pbr_block_index b') (pbr_block_index b)) as [E|]; [|by apply IH].
    exfalso. apply Hn. rewrite E. apply list_elem_of_fmap. by exists b.
Qed.

Lemma stage_map_row_for oid bs blocks k :
  stage_map (stage_row oid bs <$> blocks) !! k = stage_row oid bs <$> row_for blocks k.
Proof.
  unfold stage_map, row_for. induction blocks as [|b blocks IH]; [done|]. cbn.
  destruct (Z.eqb_spec (pbr_block_index b) k) as [<-|Hne].
  - by rewrite lookup_insert_eq.
  - by rewrite lookup_insert_ne.
Qed.

(** A row as the staging transport stores it: an all-zero block is not stored. *)
Definition staged_block (bs : Z) (b : PersistBlockRow) : option bytes :=
  let normalized := normalize_block_bytes (pbr_data b) bs in
  if is_all_zero_block normalized then None else Some normalized.

(** What the source requires of a row list to write it: distinct block numbers
    that fit a BIGINT column, and bytes. *)
Record rows_ok (blocks : list PersistBlockRow) : Prop := {
  rows_nodup : NoDup (pbr_block_index <$> blocks);
  rows_index : Forall (fun b => 0 <= pbr_block_index b <= I64_MAX) blocks;
  rows_bytes : Forall (fun b => Forall is_byte (pbr_data b)) blocks
}.

Definition staging_rows (cfg : RepoConfig) (block_size : Z) (blocks : list PersistBlockRow)
    (maintain_copy_crc_table : bool) (target : DataObjectWriteTarget) : Tx unit :=
  if bool_decide (blocks = []) then mret tt
  else
    stream ← tx_lift (copy_in_blocks (persist_copy_send_buffer_bytes cfg) (dt_data_object_id target)
                        block_size blocks);
    stage ← (match parse_copy_stream stream with
             | Some stage => mret stage
             | None => tx_err "SQLSTATE 22P04: bad COPY file format"
             end : Tx (list StageRow));
    merge_persist_block_stage_table (dt_data_object_id target) stage maintain_copy_crc_table
      (dt_payload_rows_empty target).

Lemma staging_rows_spec cfg bs blocks maintain t db2 :
  rows_ok blocks -> 0 < bs <= I32_MAX -> 0 < dt_data_object_id t <= I64_MAX ->
  (dt_payload_rows_empty t = true -> blocks_of db2 (dt_data_object_id t) = ∅) ->
  (maintain = true -> dt_payload_rows_empty t = true -> crcs_of db2 (dt_data_object_id t) = ∅) ->
  exists db3, staging_rows cfg bs blocks maintain t db2 = Ok (tt, db3) /\
    frame (dt_data_object_id t) db2 db3 /\
    forall k, blocks_of db3 (dt_data_object_id t) !! k =
      match staged_block bs <$> row_for blocks k with
      | Some v => v
      | None => blocks_of db2 (dt_data_object_id t) !! k
      end.
Proof.
  intros [Hnd Hidx Hby] Hbs Ho He Hc. unfold staging_rows. case_bool_decide as Hnil.
  { subst. exists db2. split; [done|]. split; [apply frame_refl|done]. }
  assert (Hidx0 : Forall (fun b => 0 <= pbr_block_index b) blocks)
    by (eapply Forall_impl; [exact Hidx|]; cbn; lia).
  pose proof (copy_in_blocks_parse (persist_copy_send_buffer_bytes cfg) (dt_data_object_id t) bs blocks
    ltac:(lia) Hidx0 Hby) as Hparse. rewrite (Z.max_l bs) in Hparse by lia. cbn zeta in Hparse.
  destruct (copy_in_blocks _ _ _ _) as [stream|e|]; [|exfalso|done].
  2: { destruct Hparse as [?|(b & Hb & ?)]; [lia|]. rewrite Forall_forall in Hidx. specialize (Hidx b Hb). lia. }
  tx_run. rewrite Hparse. cbn beta iota.
  destruct (merge_stage_spec (dt_data_object_id t) (stage_row (dt_data_object_id t) bs <$> blocks) maintain
    (dt_payload_rows_empty t) db2) as (db3 & H3 & Hfr & Hb3); [|done|done|].
  { rewrite <- list_fmap_compose. exact Hnd. }
  exists db3. split; [done|]. split; [done|]. intros k. rewrite Hb3, stage_map_row_for.
  by destruct (row_for blocks k).
Qed.

Lemma rows_cover_row_for file_size bs blocks : forall k0,
  rows_cover_from file_size bs k0 blocks = true ->
  forall k, k0 <= k < k0 + zlen blocks -> is_Some (row_for blocks k).
Proof.
  unfold row_for. induction blocks as [|b blocks IH]; intros k0 H k Hk; [zlen_simpl; lia|].
  cbn [rows_cover_from] in H. destruct (Z.eqb_spec (pbr_block_index b) k0) as [E|]; [|done].
  cbn [negb] in H. destruct (negb _) in H; [done|]. cbn [find].
  destruct (Z.eqb_spec (pbr_block_index b) k); [done|]. apply (IH (k0 + 1)); [done|].
  zlen_simpl. lia.
Qed.

(** Rows that cover the file leave no block below the end of file without a row. *)
Lemma cover_full_row_for file_size bs total blocks k :
  0 < bs -> persist_blocks_cover_full_file file_size bs total blocks = true ->
  0 <= k -> k * bs < file_size -> is_Some (row_for blocks k).
Proof.
  intros Hbs H Hk Hlt. unfold persist_blocks_cover_full_file in H.
  destruct (Z.eqb_spec file_size 0); [done|]. rewrite Z.max_l in H by lia.
  destruct (negb _) in H; [done|].
  destruct (Z.eqb_spec (zlen blocks) (1 + (file_size - 1) / bs)) as [E|]; [|done]. cbn [negb] in H.
  apply (rows_cover_row_for file_size bs blocks 0 H). rewrite E.
  assert (k <= (file_size - 1) / bs) by (apply Z.div_le_lower_bound; lia). lia.
Qed.

(** A row as the direct transports store it: only full blocks are stored. *)
Definition direct_block (bs : Z) (b : PersistBlockRow) : option bytes :=
  if bs <=? pbr_used_len b then Some (normalize_block_bytes (pbr_data b) bs) else None.

Lemma hex_roundtrip data : Forall is_byte data -> sql_decode_hex (hex_encode_bytes data) = Some data.
Proof.
  assert (Hdig : forallb (fun d => bool_decide (hex_value (hex_digit d) = Some d)) (seqZ 0 16) = true)
    by (vm_compute; reflexivity).
  assert (Hd : forall d, 0 <= d < 16 -> hex_value (hex_digit d) = Some d).
  { intros d Hd. rewrite forallb_forall in Hdig. specialize (Hdig d).
    rewrite bool_decide_eq_true in Hdig. apply Hdig, list_elem_of_In, elem_of_seqZ. lia. }
  induction 1 as [|b data Hb _ IH]; [done|]. unfold is_byte in Hb.
  assert (E : Z.land b 15 = b mod 16) by (apply (Z.land_ones b 4); lia).
  cbn [hex_encode_bytes flat_map app sql_decode_hex]. fold (hex_encode_bytes data).
  rewrite E, Z.shiftr_div_pow2, !Hd by (try lia; Z.to_euclidean_division_equations; lia).
  cbn [mbind option_bind]. rewrite IH. cbn. do 2 f_equal. change (2 ^ 4) with 16.
  Z.to_euclidean_division_equations. lia.
Qed.

Lemma normalize_is_byte data n : Forall is_byte data -> Forall is_byte (normalize_block_bytes data n).
Proof.
  intros H. unfold normalize_block_bytes. zcase; [|by apply Forall_take].
  apply Forall_resize; [unfold is_byte; lia|by apply Forall_take].
Qed.

Lemma direct_row_spec tr oid bs b db :
  tr <> CopyBinaryStaging -> pbr_block_index b <= I64_MAX -> Forall is_byte (pbr_data b) ->
  persist_direct_row tr oid bs b db =
    Ok (tt, set_blocks oid (partial_alter (fun _ => direct_block bs b) (pbr_block_index b) (blocks_of db oid)) db).
Proof.
  intros Htr Hi Hby. unfold persist_direct_row, direct_block, sql_bigint.
  destruct (Z.leb_spec (pbr_block_index b) I64_MAX); [|lia].
  destruct (bs <=? pbr_used_len b); [|by tx_run].
  destruct tr; [done|by tx_run|]. tx_run. rewrite hex_roundtrip by by apply normalize_is_byte. done.
Qed.

Lemma direct_rows_spec tr oid bs blocks : forall db,
  tr <> CopyBinaryStaging -> rows_ok blocks ->
  exists db3, tx_for (persist_direct_row tr oid bs) blocks db = Ok (tt, db3) /\ frame oid db db3 /\
    crcs_of db3 oid = crcs_of db oid /\
    forall k, blocks_of db3 oid !! k =
      match direct_block bs <$> row_for blocks k with Some v => v | None => blocks_of db oid !! k end.
Proof.
  induction blocks as [|b blocks IH]; intros db Htr [Hnd Hidx Hby].
  { exists db. split; [done|]. auto using frame_refl. }
  inversion Hnd as [|? ? Hb Hnd']; inversion Hidx as [|? ? Hi Hidx']; inversion Hby as [|? ? Hy Hby']; subst.
  cbn [tx_for]. unfold mbind, tx_bind. rewrite direct_row_spec by (done || lia).
  destruct (IH (set_blocks oid (partial_alter (fun _ => direct_block bs b) (pbr_block_index b)
    (blocks_of db oid)) db) Htr) as (db3 & H3 & Hfr & Hcr & Hbl); [by split|].
  exists db3. split; [exact H3|]. split; [eauto using frame_trans, frame_set_blocks|].
  split; [rewrite Hcr; by destruct db|]. intros k. rewrite Hbl, blocks_of_set_blocks, decide_True by done.
  cbn [row_for find]. unfold row_for. cbn [find]. destruct (Z.eqb_spec (pbr_block_index b) k) as [<-|Hne].
  - change (find _ blocks) with (row_for blocks (pbr_block_index b)).
    rewrite (proj2 (row_for_None blocks (pbr_block_index b))) by done. cbn. by rewrite lookup_partial_alter_eq.
  - fold (row_for blocks k). by rewrite lookup_partial_alter_ne.
Qed.

Lemma crc_rows_spec oid bs blocks : forall db,
  Forall (fun b => 0 <= pbr_block_index b <= I64_MAX) blocks ->
  exists db3, tx_for (persist_crc_row oid bs) blocks db = Ok (tt, db3) /\ frame oid db db3 /\
    blocks_of db3 oid = blocks_of db oid.
Proof.
  induction blocks as [|b blocks IH]; intros db Hidx; [exists db; auto using frame_refl|].
  inversion Hidx as [|? ? Hi Hidx']; subst. cbn [tx_for]. unfold mbind, tx_bind.
  unfold persist_crc_row at 1, sql_bigint. destruct (Z.leb_spec (pbr_block_index b) I64_MAX); [|lia].
  tx_run. set (db2 := if bs <=? pbr_used_len b then _ else _).
  assert (H2 : frame oid db db2 /\ blocks_of db2 oid = blocks_of db oid).
  { unfold db2. destruct (bs <=? _); [destruct (is_all_zero_block _)|];
      rewrite blocks_of_set_crcs; auto using frame_set_crcs. }
  destruct H2 as [Hf2 Hb2]. destruct (IH db2 Hidx') as (db3 & H3 & Hf3 & Hb3).
  exists db3. split; [exact H3|]. split; [eauto using frame_trans|congruence].
Qed.

(** The byte of a file at [pos]; a block that is not stored is a hole. *)
Definition stored_byte (db : Db) (fid bs pos : Z) : Z :=
  byte_at (default [] (stored_block db fid (pos / bs))) (pos mod bs).

(** ** Total correctness of the two transports *)

(** The store is consistent, the file exists, and every number fits its column. *)
Record persist_pre (db : Db) (fid : Z) (f : FileRow) (file_size block_size total : Z)
    (blocks : list PersistBlockRow) : Prop := {
  pre_wf : wf_db db;
  pre_file : db_files db !! fid = Some f;
  pre_size : file_size <= I64_MAX;
  pre_total : total <= I64_MAX;
  pre_bs : block_size <= I32_MAX;
  pre_seq : db_data_object_seq db <= I64_MAX;
  pre_rows : rows_ok blocks
}.

Lemma persist_staging_blocks cfg fid file_size block_size total truncate blocks maintain db f :
  persist_pre db fid f file_size block_size total blocks ->
  let bs := Z.max block_size 1 in
  let prefer := persist_blocks_cover_full_file file_size bs total blocks in
  exists db',
    persist_file_blocks_copy_binary_staging_on_conn cfg fid file_size block_size total truncate blocks
      maintain db = Ok (tt, db') /\
    persist_post db fid f file_size db' /\
    forall k, stored_block db' fid k =
      match staged_block bs <$> row_for blocks k with
      | Some v => v
      | None => if prefer || (truncate && (total <=? k)) then None else stored_block db fid k
      end.
Proof.
  intros [Hwf Hf Hs Ht Hb Hq Hr] bs prefer. assert (I32_MAX < I64_MAX) by done.
  apply (persist_transport cfg fid file_size total prefer truncate maintain
    (staging_rows cfg bs blocks maintain) (fun k => staged_block bs <$> row_for blocks k)); try done.
  intros t db2 Hps He Hc. apply staging_rows_spec; try done; unfold bs, I32_MAX in *; lia.
Qed.

Lemma persist_direct_blocks tr cfg fid file_size block_size total truncate blocks maintain db f :
  tr <> CopyBinaryStaging -> persist_pre db fid f file_size block_size total blocks ->
  let bs := Z.max block_size 1 in
  let prefer := persist_blocks_cover_full_file file_size bs total blocks in
  exists db',
    persist_file_blocks_direct_on_conn cfg fid file_size block_size total truncate blocks
      maintain tr db = Ok (tt, db') /\
    persist_post db fid f file_size db' /\
    forall k, stored_block db' fid k =
      match direct_block bs <$> row_for blocks k with
      | Some v => v
      | None => if prefer || (truncate && (total <=? k)) then None else stored_block db fid k
      end.
Proof.
  intros Htr [Hwf Hf Hs Ht Hb Hq Hr] bs prefer.
  destruct (persist_transport cfg fid file_size total prefer truncate maintain
    (fun t => _ ← tx_for (persist_direct_row tr (dt_data_object_id t) bs) blocks;
       tx_when maintain (persist_copy_block_crc_rows_for_data_object_on_conn (dt_data_object_id t) bs blocks))
    (fun k => direct_block bs <$> row_for blocks k) db f) as (db' & Hrun & Hrest); try done.
  { intros t db2 Hps He Hc.
    destruct (direct_rows_spec tr (dt_data_object_id t) bs blocks db2 Htr Hr) as (db3 & H3 & Hf3 & _ & Hb3).
    unfold mbind, tx_bind. rewrite H3. destruct maintain; cbn [tx_when]; [|by exists db3].
    unfold persist_copy_block_crc_rows_for_data_object_on_conn.
    destruct (crc_rows_spec (dt_data_object_id t) (Z.max bs 1) blocks db3 (rows_index _ Hr))
      as (db4 & H4 & Hf4 & Hb4).
    exists db4. split; [done|]. split; [by eapply frame_trans|]. by rewrite Hb4. }
  exists db'. split; [|done]. rewrite <- Hrun. unfold persist_file_blocks_direct_on_conn. fold bs. fold prefer.
  unfold mbind, tx_bind. destruct (data_object_write_target_on_conn _ _ _ _ _) as [[[t|] db1]| |]; try done.
  destruct (delete_tail_on_conn _ _ _ _ _) as [[? db2]| |]; try done.
  by destruct (tx_for _ _ _) as [[? db3]| |].
Qed.

Lemma staged_block_byte bs b i :
  0 <= i < bs -> byte_at (default [] (staged_block bs b)) i = byte_at (pbr_data b) i.
Proof.
  intros Hi. assert (Hn : byte_at (normalize_block_bytes (pbr_data b) bs) i = byte_at (pbr_data b) i)
    by (rewrite byte_at_normalize, decide_True by lia; done).
  unfold staged_block. destruct (is_all_zero_block _) eqn:E; cbn; [|done].
  rewrite is_all_zero_block_spec in E. rewrite <- Hn, E. apply byte_at_nil.
Qed.

(** C1: Total correctness of the default write path. On a consistent store
    [persist_file_blocks_copy_binary_staging_on_conn] always commits; afterwards the
    store is consistent, the file has the new size and one more content
    generation, every byte below the new size is the byte of the row that covers it
    or, without a row, the byte that was there (zero past a truncation point), and
    every other file, those that shared the data object included, keeps its blocks. *)
Theorem persist_staging_correct cfg fid file_size block_size total truncate blocks maintain db f :
  persist_pre db fid f file_size block_size total blocks ->
  let bs := Z.max block_size 1 in
  exists db',
    persist_file_blocks_copy_binary_staging_on_conn cfg fid file_size block_size total truncate blocks
      maintain db = Ok (tt, db') /\
    persist_post db fid f file_size db' /\
    forall pos, 0 <= pos < file_size ->
      stored_byte db' fid bs pos =
        match row_for blocks (pos / bs) with
        | Some b => byte_at (pbr_data b) (pos mod bs)
        | None => if truncate && (total <=? pos / bs) then 0 else stored_byte db fid bs pos
        end.
Proof.
  intros Hpre bs.
  destruct (persist_staging_blocks cfg fid file_size block_size total truncate blocks maintain db f Hpre)
    as (db' & Hrun & Hpost & Hb). exists db'. split; [done|]. split; [done|]. intros pos Hpos.
  assert (Hbs : 0 < bs) by lia. pose proof (Z.mod_pos_bound pos bs Hbs).
  pose proof (div_block_bounds bs pos Hbs). unfold stored_byte at 1. rewrite Hb.
  destruct (row_for blocks (pos / bs)) as [b|] eqn:E; cbn; [by apply staged_block_byte|].
  destruct (persist_blocks_cover_full_file _ _ _ _) eqn:Ec; cbn [orb].
  { destruct (cover_full_row_for _ _ _ _ (pos / bs) Hbs Ec) as [b Eb]; [|lia|congruence].
    apply Z.div_pos; lia. }
  destruct (truncate && (total <=? pos / bs)); [|done]. apply byte_at_nil.
Qed.

(** The direct transports ([binary_bytea], [legacy_hex]) agree with the default
    one when every row is a full block: both commit, and the two resulting stores
    read the same at every offset of every block. *)
Theorem direct_transport_equiv_on_full_rows tr cfg fid file_size block_size total truncate blocks maintain db f :
  tr <> CopyBinaryStaging -> persist_pre db fid f file_size block_size total blocks ->
  Forall (fun b => Z.max block_size 1 <= pbr_used_len b) blocks ->
  exists db1 db2,
    persist_file_blocks_copy_binary_staging_on_conn cfg fid file_size block_size total truncate blocks
      maintain db = Ok (tt, db1) /\
    persist_file_blocks_direct_on_conn cfg fid file_size block_size total truncate blocks
      maintain tr db = Ok (tt, db2) /\
    (f_size <$> db_files db1 !! fid) = (f_size <$> db_files db2 !! fid) /\
    forall pos, 0 <= pos -> stored_byte db1 fid (Z.max block_size 1) pos = stored_byte db2 fid (Z.max block_size 1) pos.
Proof.
  intros Htr Hpre Hfull. set (bs := Z.max block_size 1) in *. assert (Hbs : 0 < bs) by lia.
  destruct (persist_staging_blocks cfg fid file_size block_size total truncate blocks maintain db f Hpre)
    as (db1 & H1 & [_ (f1 & Hf1 & Hs1 & _) _] & Hb1).
  destruct (persist_direct_blocks tr cfg fid file_size block_size total truncate blocks maintain db f Htr Hpre)
    as (db2 & H2 & [_ (f2 & Hf2 & Hs2 & _) _] & Hb2).
  exists db1, db2. split; [done|]. split; [done|]. split.
  { rewrite Hf1, Hf2, !lookup_insert_eq. cbn. congruence. }
  intros pos Hpos. pose proof (Z.mod_pos_bound pos bs Hbs). unfold stored_byte. rewrite Hb1, Hb2. fold bs.
  destruct (row_for blocks (pos / bs)) as [b|] eqn:E; cbn; [|done]. rewrite staged_block_byte by done.
  apply row_for_elem in E as [Eb _]. rewrite Forall_forall in Hfull. specialize (Hfull b Eb).
  unfold direct_block. destruct (Z.leb_spec bs (pbr_used_len b)); [|lia]. cbn.
  by rewrite byte_at_normalize, decide_True by lia.
Qed.

(** The direct transports lose the partial last block of a file: a row whose
    used length is below the block size is not stored, and the block it was meant to
    update is deleted, so that its bytes read as zeroes after a successful commit. *)
Theorem direct_transport_drops_partial_rows tr cfg fid file_size block_size total truncate blocks maintain db f b :
  tr <> CopyBinaryStaging -> persist_pre db fid f file_size block_size total blocks ->
  b ∈ blocks -> pbr_used_len b < Z.max block_size 1 ->
  exists db',
    persist_file_blocks_direct_on_conn cfg fid file_size block_size total truncate blocks
      maintain tr db = Ok (tt, db') /\
    (f_size <$> db_files db' !! fid) = Some file_size /\
    stored_block db' fid (pbr_block_index b) = None.
Proof.
  intros Htr Hpre Hb Hu.
  destruct (persist_direct_blocks tr cfg fid file_size block_size total truncate blocks maintain db f Htr Hpre)
    as (db' & Hrun & [_ (f' & Hf' & Hs' & _) _] & Hb'). exists db'. split; [done|]. split.
  { rewrite Hf', lookup_insert_eq. cbn. congruence. }
  rewrite Hb', (row_for_NoDup blocks b (rows_nodup _ (pre_rows _ _ _ _ _ _ _ Hpre)) Hb). cbn.
  unfold direct_block. destruct (Z.leb_spec (Z.max block_size 1) (pbr_used_len b)); [lia|done].
Qed.

(** ** A sample store *)

(** The invariant is decidable by running over the tables. *)
Lemma wf_db_check db :
  bool_decide (map_Forall (fun _ f => is_Some (db_data_objects db !! f_data_object_id f)) (db_files db)) &&
  bool_decide (map_Forall (fun o row => o_reference_count row = reference_total db o) (db_data_objects db)) &&
  bool_decide (0 < db_data_object_seq db) &&
  bool_decide (map_Forall (fun o _ => 0 < o < db_data_object_seq db) (db_data_objects db)) &&
  bool_decide (map_Forall (fun o _ => is_Some (db_data_objects db !! o)) (db_data_blocks db)) &&
  bool_decide (map_Forall (fun o _ => is_Some (db_data_objects db !! o)) (db_copy_block_crc db)) = true ->
  wf_db db.
Proof.
  rewrite !andb_true_iff, !bool_decide_eq_true. intros [[[[[H1 H2] H3] H4] H5] H6]. split.
  - intros fid f Hf. exact (H1 fid f Hf).
  - intros o row Hr. rewrite (H2 o row Hr), bool_decide_eq_false_2 by done. lia.
  - split; [done|]. intros o [row Hr]. exact (H4 o row Hr).
  - intros o [m Hm]. exact (H5 o m Hm).
  - intros o [m Hm]. exact (H6 o m Hm).
Qed.

Definition sample_file (oid size : Z) : FileRow := {|
  f_data_object_id := oid; f_size := size; f_content_generation := 7; f_mode := 420; f_uid := 1000;
  f_gid := 1000; f_inode_seed := "seed"; f_acl := None; f_capability := None |}.

(** Files 10 and 11 share object 1, six bytes in blocks of four; file 12 is empty.
    File 11 is under a write lease of session 5. *)
Definition sample_db : Db := {|
  db_files := <[10 := sample_file 1 6]> (<[11 := sample_file 1 6]> (<[12 := sample_file 2 0]> ∅));
  db_data_objects := <[1 := {| o_file_size := 6; o_reference_count := 2 |}]>
    (<[2 := {| o_file_size := 0; o_reference_count := 1 |}]> ∅);
  db_data_blocks := <[1 := <[0 := [1; 2; 3; 4]]> (<[1 := [5; 6; 0; 0]]> ∅)]> ∅;
  db_copy_block_crc := ∅;
  db_data_object_seq := 3;
  db_file_write_leases := <[11 := {| wl_session_id := 5; wl_owner_key := 9; wl_fencing_token := 3;
                                     wl_lease_expires_at := 200 |}]> ∅;
  db_client_sessions := <[5 := 300]> ∅;
  db_reservations := ∅;
  db_max_fs_size_bytes := 64;
  db_block_size := 4;
  db_clock := 100 |}.

Lemma sample_db_wf : wf_db sample_db.
Proof. apply wf_db_check. vm_compute. reflexivity. Qed.

(** The rows of a six-byte file: a full block and a partial one. *)
Definition sample_rows : list PersistBlockRow :=
  [{| pbr_block_index := 0; pbr_data := [9; 8; 7; 6]; pbr_used_len := 4 |};
   {| pbr_block_index := 1; pbr_data := [5; 4]; pbr_used_len := 2 |}].

Lemma sample_rows_ok n : rows_ok (take n sample_rows).
Proof.
  split.
  - destruct n as [|[|n]]; [..|destruct n]; (apply (bool_decide_eq_true_1 _); vm_compute; reflexivity).
  - apply Forall_take. repeat constructor; cbn; unfold I64_MAX; lia.
  - apply Forall_take. repeat constructor; unfold is_byte; lia.
Qed.

Lemma sample_pre n : persist_pre sample_db 10 (sample_file 1 6) 6 4 2 (take n sample_rows).
Proof.
  split; [apply sample_db_wf|reflexivity| | | | |apply sample_rows_ok]; unfold I64_MAX, I32_MAX; cbn; lia.
Qed.

Definition sample_cfg : RepoConfig := {|
  persist_block_transport := CopyBinaryStaging; data_object_swap_cleanup_deferred := false;
  persist_copy_send_buffer_bytes := 64 |}.

Lemma persist_staging_correct_witness :
  exists db', persist_file_blocks_copy_binary_staging_on_conn sample_cfg 10 6 4 2 false
      (take 1 sample_rows) true sample_db = Ok (tt, db') /\
    stored_byte db' 10 4 0 = 9 /\ stored_byte db' 10 4 5 = 6 /\ stored_byte db' 11 4 0 = 1.
Proof.
  destruct (persist_staging_correct sample_cfg 10 6 4 2 false (take 1 sample_rows) true sample_db
    (sample_file 1 6) (sample_pre 1)) as (db' & Hrun & [_ _ Hiso] & Hb).
  exists db'. split; [exact Hrun|]. change (Z.max 4 1) with 4 in Hb. split_and!.
  - rewrite (Hb 0) by lia. reflexivity.
  - rewrite (Hb 5) by lia. reflexivity.
  - unfold stored_byte. rewrite Hiso; [reflexivity|lia|eexists; reflexivity].
Defined.

Lemma direct_transport_equiv_on_full_rows_witness :
  exists db1 db2,
    persist_file_blocks_copy_binary_staging_on_conn sample_cfg 10 6 4 2 false
      (take 1 sample_rows) true sample_db = Ok (tt, db1) /\
    persist_file_blocks_direct_on_conn sample_cfg 10 6 4 2 false
      (take 1 sample_rows) true LegacyHex sample_db = Ok (tt, db2) /\
    stored_byte db1 10 4 0 = stored_byte db2 10 4 0.
Proof.
  destruct (direct_transport_equiv_on_full_rows LegacyHex sample_cfg 10 6 4 2 false (take 1 sample_rows)
    true sample_db (sample_file 1 6)) as (db1 & db2 & H1 & H2 & _ & Hb);
    [done|apply sample_pre|repeat constructor; cbn; lia|].
  exists db1, db2. split; [exact H1|]. split; [exact H2|]. apply (Hb 0). lia.
Defined.

Lemma direct_transport_drops_partial_rows_witness :
  exists db', persist_file_blocks_direct_on_conn sample_cfg 10 6 4 2 false
      (take 2 sample_rows) true BinaryBytea sample_db = Ok (tt, db') /\
    (f_size <$> db_files db' !! 10) = Some 6 /\ stored_block db' 10 1 = None.
Proof.
  apply (direct_transport_drops_partial_rows BinaryBytea sample_cfg 10 6 4 2 false (take 2 sample_rows)
    true sample_db (sample_file 1 6) {| pbr_block_index := 1; pbr_data := [5; 4]; pbr_used_len := 2 |});
    [done|apply sample_pre|cbn; set_solver|cbn; lia].
Defined.
