(* ===== verification/StoreSafety.v ===== *)
(** * Safety of the block store: fences, quota, adoption, sparse seeks

    Theorems on the transactions of BlockStore.v as wholes: a commit implies the
    fence or the absence of a lease, the quota holds after every commit, adoption
    shares an object without disturbing any file, the reference-count invariant
    survives every operation, and sparse seeks find what a scan would find. *)

From stdpp Require Import prelude list numbers gmap strings.
From Stdlib Require Import ZArith Lia.
From S2P Require Import Prelude Crc32 CopyBinary Errno Acl BlockStore.

#[local] Open Scope Z_scope.

(** ** What a transaction leaves alone *)

(** The parts of the database no block write touches. *)
Definition environment (db : Db) :=
  (db_file_write_leases db, db_client_sessions db, db_reservations db,
   db_max_fs_size_bytes db, db_block_size db, db_clock db).

(** [m] does not change what [view] sees. *)
Definition keeps {X A} (view : Db -> X) (m : Tx A) : Prop :=
  forall db a db', m db = Ok (a, db') -> view db' = view db.

Lemma keeps_bind {X A B} (view : Db -> X) (m : Tx A) (k : A -> Tx B) :
  keeps view m -> (forall a, keeps view (k a)) -> keeps view (x ← m; k x).
Proof.
  intros Hm Hk db b db'. unfold mbind, tx_bind. destruct (m db) as [[a db1]| |] eqn:E; try done.
  intros H. rewrite (Hk a _ _ _ H). by apply (Hm _ a).
Qed.

Lemma keeps_ret {X A} (view : Db -> X) (a : A) : keeps view (mret a : Tx A).
Proof. by intros db ? ? [= <- <-]. Qed.

Lemma keeps_err {X A} (view : Db -> X) e : keeps view (tx_err e : Tx A).
Proof. done. Qed.

Lemma keeps_get {X} (view : Db -> X) : keeps view tx_get.
Proof. by intros db ? ? [= <- <-]. Qed.

Lemma keeps_lift {X A} (view : Db -> X) (m : outcome string A) : keeps view (tx_lift m).
Proof. intros db a db'. unfold tx_lift. destruct m; try done. by intros [= <- <-]. Qed.

Lemma keeps_update {X} (view : Db -> X) (g : Db -> Db) :
  (forall db, view (g db) = view db) -> keeps view (tx_update g).
Proof. intros Hg db ? ? [= <- <-]. apply Hg. Qed.

Lemma keeps_when {X} (view : Db -> X) b m : keeps view m -> keeps view (tx_when b m).
Proof. destruct b; [done|intros _; apply keeps_ret]. Qed.

Lemma keeps_for {X A} (view : Db -> X) (body : A -> Tx unit) l :
  (forall a, keeps view (body a)) -> keeps view (tx_for body l).
Proof. intros H. induction l; cbn; [apply keeps_ret|]. by apply keeps_bind. Qed.

Lemma keeps_bigint {X} (view : Db -> X) v : keeps view (sql_bigint v).
Proof. unfold sql_bigint. destruct (_ <=? _); [apply keeps_ret|apply keeps_err]. Qed.

Create HintDb keeps.
#[export] Hint Resolve keeps_ret keeps_err keeps_get keeps_lift keeps_bigint keeps_when keeps_for : keeps.

(** Walk through a transaction statement by statement. *)
Ltac keeps_auto :=
  intros;
  repeat first
    [ progress auto with keeps nocore
    | apply keeps_bind; [|intros]
    | apply keeps_update; intros []; reflexivity
    | apply keeps_when | apply keeps_for; intros
    | match goal with
      | |- keeps _ (match ?x with _ => _ end) => destruct x
      | |- keeps _ (let '_ := ?x in _) => destruct x
      end ].

Lemma keeps_update_object oid g : keeps environment (sql_update_object oid g).
Proof. unfold sql_update_object. keeps_auto. Qed.

Lemma keeps_update_file fid g : keeps environment (sql_update_file fid g).
Proof. unfold sql_update_file. keeps_auto. Qed.

Lemma keeps_delete_object oid : keeps environment (sql_delete_object oid).
Proof.
  intros db a db'. unfold sql_delete_object. case_bool_decide; [done|].
  destruct db. by intros [= <- <-].
Qed.
#[export] Hint Resolve keeps_update_object keeps_update_file keeps_delete_object : keeps.

Lemma keeps_info fid : keeps environment (file_data_object_info_on_conn fid).
Proof. unfold file_data_object_info_on_conn. keeps_auto. Qed.

Lemma keeps_create size : keeps environment (create_data_object_on_conn size).
Proof. unfold create_data_object_on_conn. keeps_auto. Qed.
#[export] Hint Resolve keeps_info keeps_create : keeps.

Lemma keeps_target fid size prefer maintain :
  keeps environment (data_object_write_target_on_conn fid size prefer maintain).
Proof.
  unfold data_object_write_target_on_conn, detach_shared_data_object_on_conn,
    data_object_payload_rows_empty_on_conn. keeps_auto.
Qed.

Lemma keeps_delete_tail t total truncate maintain :
  keeps environment (delete_tail_on_conn t total truncate maintain).
Proof. unfold delete_tail_on_conn. keeps_auto. Qed.

Lemma keeps_finish cfg fid size t : keeps environment (finish_data_object_write_on_conn cfg fid size t).
Proof. unfold finish_data_object_write_on_conn, update_file_sizes_on_conn. keeps_auto. Qed.

Lemma keeps_bump fid : keeps environment (bump_file_content_generation_on_conn fid).
Proof. unfold bump_file_content_generation_on_conn. keeps_auto. Qed.

Lemma keeps_merge oid stage maintain empty :
  keeps environment (merge_persist_block_stage_table oid stage maintain empty).
Proof. unfold merge_persist_block_stage_table. keeps_auto. Qed.
#[export] Hint Resolve keeps_target keeps_delete_tail keeps_finish keeps_bump keeps_merge : keeps.

Lemma keeps_direct_row tr oid bs b : keeps environment (persist_direct_row tr oid bs b).
Proof. unfold persist_direct_row. keeps_auto. Qed.

Lemma keeps_crc_row oid bs b : keeps environment (persist_crc_row oid bs b).
Proof.
  unfold persist_crc_row. apply keeps_bind; [auto with keeps|]. intros order. apply keeps_update.
  intros []. by repeat case_match.
Qed.
#[export] Hint Resolve keeps_direct_row keeps_crc_row : keeps.

(** No transport touches leases, sessions, reservations, limits or the clock. *)
Lemma keeps_rows cfg fid size bs total truncate blocks maintain :
  keeps environment (persist_file_blocks_rows_on_conn cfg fid size bs total truncate blocks maintain).
Proof.
  unfold persist_file_blocks_rows_on_conn, persist_file_blocks_copy_binary_staging_on_conn,
    persist_file_blocks_direct_on_conn, persist_copy_block_crc_rows_for_data_object_on_conn.
  keeps_auto.
Qed.

Lemma keeps_clear fid : keeps environment (clear_file_privileges_on_conn fid).
Proof. unfold clear_file_privileges_on_conn. keeps_auto. Qed.

Lemma keeps_authorization fid a : keeps id (validate_file_write_authorization_on_conn fid a).
Proof. unfold validate_file_write_authorization_on_conn. keeps_auto. Qed.
#[export] Hint Resolve keeps_rows keeps_clear keeps_authorization : keeps.

(** ** Fences *)

Lemma tx_bind_Ok {A B} (m : Tx A) (k : A -> Tx B) db b db' :
  (x ← m; k x) db = Ok (b, db') <-> exists a db1, m db = Ok (a, db1) /\ k a db1 = Ok (b, db').
Proof.
  unfold mbind, tx_bind. destruct (m db) as [[a db1]| |]; split; try done;
    [by exists a, db1| | |]; by intros (? & ? & [= <- <-] & ?).
Qed.

(** What a fence is checked against. *)
Definition lease_view (db : Db) := (db_file_write_leases db, db_client_sessions db, db_clock db).

Lemma keeps_weaken {A} (m : Tx A) : keeps environment m -> keeps lease_view m.
Proof.
  intros H db a db' E. specialize (H _ _ _ E). unfold environment in H. unfold lease_view.
  injection H. intros. congruence.
Qed.

Lemma fence_live_view db db' fid fence :
  lease_view db' = lease_view db -> fence_live db' fid fence = fence_live db fid fence.
Proof. intros [= H1 H2 H3]. unfold fence_live. by rewrite H1, H2, H3. Qed.

Lemma lease_active_view db db' fid :
  lease_view db' = lease_view db -> lease_active db' fid = lease_active db fid.
Proof. intros [= H1 H2 H3]. unfold lease_active. by rewrite H1, H3. Qed.

(** The condition under which a write to [fid] may commit. *)
Definition may_write (db : Db) (fid : Z) (fence : option WritePersistenceFence) : bool :=
  match fence with
  | Some fence => fence_live db fid fence
  | None => negb (lease_active db fid)
  end.

Definition check_fence (fid : Z) (fence : option WritePersistenceFence) : Tx unit :=
  match fence with
  | Some fence => validate_write_persistence_fence_on_conn fid fence
  | None => reject_unfenced_write_during_active_lease_on_conn fid
  end.

Lemma check_fence_run fid fence db :
  (check_fence fid fence db = Ok (tt, db) /\ may_write db fid fence = true) \/
  check_fence fid fence db = Err fence_rejected.
Proof.
  unfold check_fence, may_write. destruct fence as [fence|].
  - unfold validate_write_persistence_fence_on_conn. destruct (_ || _); [by right|]. tx_run.
    destruct (fence_live db fid fence); auto.
  - unfold reject_unfenced_write_during_active_lease_on_conn. tx_run.
    destruct (lease_active db fid); auto.
Qed.

Lemma check_fence_Ok fid fence db u db' :
  check_fence fid fence db = Ok (u, db') -> db' = db /\ may_write db fid fence = true.
Proof. destruct (check_fence_run fid fence db) as [[-> ?]| ->]; [|done]. by intros [= _ <-]. Qed.

Lemma keeps_refresh quota token : keeps lease_view (refresh_payload_reservation_on_conn quota token).
Proof. unfold refresh_payload_reservation_on_conn, persisted_and_reserved_payload_bytes_on_conn. keeps_auto. Qed.

Lemma keeps_enforce {X} (view : Db -> X) quota token : keeps view (enforce_payload_quota_on_conn quota token).
Proof. unfold enforce_payload_quota_on_conn, persisted_and_reserved_payload_bytes_on_conn. keeps_auto. Qed.

Lemma keeps_lock {X} (view : Db -> X) : keeps view lock_payload_quota_on_conn.
Proof. unfold lock_payload_quota_on_conn. keeps_auto. Qed.
#[export] Hint Resolve keeps_weaken keeps_refresh keeps_enforce keeps_lock : keeps.

Lemma keeps_check_fence fid fence : keeps id (check_fence fid fence).
Proof.
  unfold check_fence, validate_write_persistence_fence_on_conn,
    reject_unfenced_write_during_active_lease_on_conn. keeps_auto.
Qed.

Lemma keeps_id {X A} (view : Db -> X) (m : Tx A) : keeps id m -> keeps view m.
Proof. intros H db a db' E. specialize (H db a db' E). cbn in H. by rewrite H. Qed.
#[export] Hint Resolve keeps_id keeps_check_fence : keeps.

Lemma keeps_persist_body cfg r : keeps lease_view (persist_body cfg r).
Proof.
  unfold persist_body. fold (check_fence (pr_file_id r) (pr_write_fence r)).
  apply keeps_bind; [auto with keeps|intros _].
  apply keeps_bind; [destruct (pr_write_authorization r); [destruct (negb _)|]; auto with keeps|intros _].
  apply keeps_bind; [auto with keeps|intros _].
  destruct (pr_capacity_reservation_token r); repeat (apply keeps_bind; [auto with keeps|intros]); auto with keeps.
Qed.


(** Two mounts cannot both write a file under a lease: if two fenced requests
    for one file commit one after the other, with no change of leases in between,
    they carry the same session, owner and fencing token. *)
Theorem committed_writers_share_fence cfg r1 r2 fence1 fence2 db db1 db2 :
  pr_file_id r1 = pr_file_id r2 ->
  pr_write_fence r1 = Some fence1 -> pr_write_fence r2 = Some fence2 ->
  persist_file_blocks cfg r1 db = (Ok tt, db1) -> persist_file_blocks cfg r2 db1 = (Ok tt, db2) ->
  fence1 = fence2.
Proof.
  intros Hid H1 H2 E1 E2. unfold persist_file_blocks, transactional in *.
  destruct (persist_body cfg r1 db) as [[[] d1]| |] eqn:B1; simplify_eq.
  destruct (persist_body cfg r2 db1) as [[[] d2]| |] eqn:B2; simplify_eq.
  pose proof (keeps_persist_body cfg r1 _ _ _ B1) as Hv. unfold persist_body in B1, B2.
  apply tx_bind_Ok in B1 as (? & ? & F1 & _). apply tx_bind_Ok in B2 as (? & ? & F2 & _).
  apply check_fence_Ok in F1 as [_ F1]. apply check_fence_Ok in F2 as [_ F2].
  rewrite H1 in F1. rewrite H2 in F2. cbn in F1, F2. rewrite <- (fence_live_view _ _ _ _ Hv), Hid in F1.
  unfold fence_live in F1, F2. destruct (db_file_write_leases db1 !! pr_file_id r2) as [l|]; [|done].
  rewrite !andb_true_iff, !Z.eqb_eq in F1, F2.
  destruct fence1, fence2. cbn in *. f_equal; intuition congruence.
Qed.

(** ** Quota *)

Definition limits (db : Db) := (db_max_fs_size_bytes db, db_block_size db).

Lemma keeps_limits {A} (m : Tx A) : keeps environment m -> keeps limits m.
Proof.
  intros H db a db' E. specialize (H _ _ _ E). unfold environment in H. unfold limits.
  injection H. intros. congruence.
Qed.

Lemma keeps_refresh_limits quota token : keeps limits (refresh_payload_reservation_on_conn quota token).
Proof. unfold refresh_payload_reservation_on_conn, persisted_and_reserved_payload_bytes_on_conn. keeps_auto. Qed.
#[export] Hint Resolve keeps_limits keeps_refresh_limits : keeps.

(** The bytes the quota counts: stored blocks, and what others have reserved. *)
Definition used_bytes (db : Db) (token : option string) : Z :=
  stored_block_count db * db_block_size db + reserved_bytes db token.

Lemma enforce_Ok limit token db u db' :
  enforce_payload_quota_on_conn (Some limit) token db = Ok (u, db') -> db' = db /\ used_bytes db token <= limit.
Proof.
  unfold enforce_payload_quota_on_conn, persisted_and_reserved_payload_bytes_on_conn. tx_run.
  fold (used_bytes db token). destruct (Z.ltb_spec limit (used_bytes db token)); [done|].
  by intros [= _ <-].
Qed.

Lemma lock_quota_Ok db q db' :
  lock_payload_quota_on_conn db = Ok (q, db') ->
  db' = db /\ q = (if 0 <? db_max_fs_size_bytes db then Some (db_max_fs_size_bytes db) else None).
Proof. unfold lock_payload_quota_on_conn. tx_run. by intros [= <- <-]. Qed.

(** The part of the body before the quota is looked at. *)
Definition persist_checks (r : PersistRequest) : Tx unit :=
  _ ← check_fence (pr_file_id r) (pr_write_fence r);
  _ ← (match pr_write_authorization r with
       | Some authorization =>
           if negb (pr_truncate_pending r)
           then tx_err "truncate authorization requires truncate_pending"
           else validate_file_write_authorization_on_conn (pr_file_id r) authorization
       | None => mret tt
       end : Tx unit);
  tx_when (pr_kill_suidgid r) (clear_file_privileges_on_conn (pr_file_id r)).

Definition persist_rows (cfg : RepoConfig) (r : PersistRequest) : Tx unit :=
  persist_file_blocks_rows_on_conn cfg (pr_file_id r) (pr_file_size r) (pr_block_size r)
    (pr_total_blocks r) (pr_truncate_pending r) (pr_blocks r) (pr_maintain_copy_crc_table r).

Lemma persist_body_split cfg r db :
  persist_body cfg r db =
    (_ ← persist_checks r;
     match pr_capacity_reservation_token r with
     | Some token =>
         quota ← lock_payload_quota_on_conn;
         _ ← refresh_payload_reservation_on_conn quota (Some token);
         _ ← persist_rows cfg r;
         enforce_payload_quota_on_conn quota (Some token)
     | None =>
         _ ← persist_rows cfg r;
         quota ← lock_payload_quota_on_conn;
         enforce_payload_quota_on_conn quota None
     end) db.
Proof.
  unfold persist_body, persist_checks. fold (check_fence (pr_file_id r) (pr_write_fence r)). unfold mbind, tx_bind.
  destruct (check_fence (pr_file_id r) (pr_write_fence r) db) as [[? db1]| |]; [|done..].
  destruct (pr_write_authorization r) as [a|]; [|done].
  destruct (negb (pr_truncate_pending r)); [done|].
  by destruct (validate_file_write_authorization_on_conn _ _ _) as [[? ?]| |].
Qed.

Lemma keeps_persist_checks r : keeps environment (persist_checks r).
Proof.
  unfold persist_checks. apply keeps_bind; [auto with keeps|intros _].
  apply keeps_bind; [|auto with keeps].
  destruct (pr_write_authorization r); [destruct (negb _)|]; auto with keeps.
Qed.
#[export] Hint Resolve keeps_persist_checks : keeps.

(** C36: The payload quota holds after every committed write: with a limit
    configured, the stored blocks plus what other writers have reserved never
    exceed it in a state a persist request commits, under either transport and
    whether or not the request holds a reservation of its own. *)
Theorem persist_respects_quota cfg r db db' :
  persist_file_blocks cfg r db = (Ok tt, db') -> 0 < db_max_fs_size_bytes db ->
  used_bytes db' (pr_capacity_reservation_token r) <= db_max_fs_size_bytes db' /\
  db_max_fs_size_bytes db' = db_max_fs_size_bytes db.
Proof.
  unfold persist_file_blocks, transactional. intros E Hpos.
  destruct (persist_body cfg r db) as [[[] d]| |] eqn:B; simplify_eq. rewrite persist_body_split in B.
  apply tx_bind_Ok in B as (? & db1 & B1 & B). apply keeps_persist_checks in B1.
  assert (L1 : db_max_fs_size_bytes db1 = db_max_fs_size_bytes db) by (injection B1; congruence). clear B1.
  destruct (pr_capacity_reservation_token r) as [token|].
  - apply tx_bind_Ok in B as (q & db2 & B2 & B). apply lock_quota_Ok in B2 as [-> ->].
    rewrite L1 in B. destruct (Z.ltb_spec 0 (db_max_fs_size_bytes db)); [|lia].
    apply tx_bind_Ok in B as (? & db3 & B3 & B). apply keeps_refresh_limits in B3 as [= L3 _].
    apply tx_bind_Ok in B as (? & db4 & B4 & B). apply (keeps_limits _ (keeps_rows _ _ _ _ _ _ _ _)) in B4 as [= L4 _].
    apply enforce_Ok in B as [-> B]. split; [|congruence]. by rewrite L4, L3, L1.
  - apply tx_bind_Ok in B as (? & db4 & B4 & B). apply (keeps_limits _ (keeps_rows _ _ _ _ _ _ _ _)) in B4 as [= L4 _].
    apply tx_bind_Ok in B as (q & db2 & B2 & B). apply lock_quota_Ok in B2 as [-> ->].
    rewrite L4, L1 in B. destruct (Z.ltb_spec 0 (db_max_fs_size_bytes db)); [|lia].
    apply enforce_Ok in B as [-> B]. split; [|congruence]. by rewrite L4, L1.
Qed.

(** ** Adoption *)

Lemma wf_add_reference o db :
  wf_db db -> wf_pending (Some o) (set_objects (alter add_reference o (db_data_objects db)) db).
Proof.
  intros [W1 W2 W3 W4 W5]. destruct db as [fs os bs cs sq ls ss rs mx bz ck]. cbn in *. split; cbn.
  - intros fid f Hf. rewrite lookup_alter_is_Some. by apply (W1 fid).
  - intros o' row Hr. apply lookup_alter_Some in Hr as [(<- & r0 & H0 & ->)|[Ho H0]];
      rewrite reference_total_refs; specialize (W2 _ _ H0); rewrite reference_total_refs in W2;
      rewrite (bool_decide_eq_false_2 (None = Some _)) in W2 by done; cbn in *.
    + rewrite bool_decide_eq_true_2 by done. lia.
    + rewrite bool_decide_eq_false_2 by congruence. done.
  - split; [lia|]. intros o' Ho. rewrite lookup_alter_is_Some in Ho. by apply W3.
  - intros o' Ho. rewrite lookup_alter_is_Some. by apply W4.
  - intros o' Ho. rewrite lookup_alter_is_Some. by apply W5.
Qed.

(** What adoption leaves: the destination on the source's object and size, every
    other file as it was. *)
Record adopted (src dst : Z) (db db' : Db) : Prop := {
  ad_wf : wf_db db';
  ad_size : (f_size <$> db_files db' !! dst) = (f_size <$> db_files db !! src);
  ad_blocks : forall k, stored_block db' dst k = stored_block db src k;
  ad_rows : forall fid, fid <> dst -> db_files db' !! fid = db_files db !! fid;
  ad_others : forall fid k, fid <> dst -> stored_block db' fid k = stored_block db fid k
}.

Lemma adopt_refl src dst db f g :
  wf_db db -> db_files db !! src = Some f -> db_files db !! dst = Some g ->
  f_size g = f_size f -> f_data_object_id f = f_data_object_id g -> adopted src dst db db.
Proof.
  intros Hwf Hf Hg Hs Ho. split; try done.
  - rewrite Hf, Hg. cbn. congruence.
  - intros k. unfold stored_block. rewrite Hf, Hg. cbn. by rewrite Ho.
Qed.

Lemma adopted_intro src dst db db4 f g' :
  db_files db !! src = Some f -> f_data_object_id g' = f_data_object_id f -> f_size g' = f_size f ->
  wf_db db4 -> db_files db4 = <[dst := g']> (db_files db) ->
  (forall o, is_Some (db_data_objects db4 !! o) -> blocks_of db4 o = blocks_of db o) ->
  adopted src dst db db4.
Proof.
  intros Hf Hg' Hs' Hw Hf4 Hb4.
  assert (Hob : forall fid r, db_files db4 !! fid = Some r ->
    blocks_of db4 (f_data_object_id r) = blocks_of db (f_data_object_id r)).
  { intros fid r Hr. apply Hb4. by apply (wf_file_object _ _ Hw fid). }
  split; [done|..].
  - rewrite Hf4, lookup_insert_eq, Hf. cbn. congruence.
  - intros k. unfold stored_block. rewrite Hf. destruct (db_files db4 !! dst) as [r|] eqn:Er.
    + cbn. rewrite (Hob _ _ Er). rewrite Hf4, lookup_insert_eq in Er. injection Er as <-. by rewrite Hg'.
    + by rewrite Hf4, lookup_insert_eq in Er.
  - intros fid Hfid. by rewrite Hf4, lookup_insert_ne.
  - intros fid k Hfid. unfold stored_block. destruct (db_files db4 !! fid) as [r|] eqn:Er; cbn.
    + rewrite (Hob _ _ Er). rewrite Hf4, lookup_insert_ne in Er by done. by rewrite Er.
    + rewrite Hf4, lookup_insert_ne in Er by done. by rewrite Er.
Qed.

(** Rebinding [dst] and releasing the object it had. *)
Lemma adopt_rebind src dst db f g :
  wf_db db -> db_files db !! src = Some f -> db_files db !! dst = Some g ->
  f_data_object_id f <> f_data_object_id g ->
  let g' := bump_generation (with_size (f_size f) (with_object (f_data_object_id f) g)) in
  let db2 := set_objects (alter add_reference (f_data_object_id f) (db_data_objects db)) db in
  let db3 := set_files (<[dst := g']> (db_files db)) db2 in
  exists db4,
    (if reference_total db3 (f_data_object_id g) =? 0 then sql_delete_object (f_data_object_id g)
     else sql_update_object (f_data_object_id g) drop_reference) db3 = Ok (tt, db4) /\
    adopted src dst db db4.
Proof.
  intros Hwf Hf Hg Hne g' db2 db3.
  assert (Hsd : src <> dst) by (intros ->; congruence).
  set (n := f_data_object_id f) in *. set (old := f_data_object_id g) in *.
  assert (Hg' : f_data_object_id g' = n)
    by (unfold g'; by rewrite bump_generation_object, with_size_object, with_object_id).
  assert (Hs' : f_size g' = f_size f) by (unfold g'; by destruct g).
  pose proof (wf_add_reference n db Hwf) as Hw2. fold db2 in Hw2.
  assert (Hfiles : db_files db2 = db_files db) by (unfold db2; by destruct db).
  assert (Hbl : forall o, blocks_of db2 o = blocks_of db o) by (unfold db2; by destruct db).
  assert (Hn : is_Some (db_data_objects db2 !! n)).
  { rewrite <- Hfiles in Hf. exact (wf_file_object _ _ Hw2 src f Hf). }
  rewrite <- Hfiles in Hg. assert (Hno : old <> n) by congruence.
  assert (Hfinish : forall db4, wf_db db4 -> db_files db4 = <[dst := g']> (db_files db2) ->
    (forall o, is_Some (db_data_objects db4 !! o) -> blocks_of db4 o = blocks_of db2 o) -> adopted src dst db db4).
  { intros db4 Hw Hf4 Hb4. rewrite Hfiles in Hf4. apply (adopted_intro _ _ _ _ f g'); try done.
    intros o Ho. by rewrite Hb4, Hbl. }
  assert (Hdb3 : db3 = set_files (<[dst := g']> (db_files db2)) db2) by (unfold db3; by rewrite Hfiles).
  assert (Href : reference_total db3 old = refs (db_files db2) old - 1).
  { rewrite reference_total_refs, Hdb3. replace (db_files (set_files _ db2)) with (<[dst := g']> (db_files db2))
      by (by destruct db2). rewrite (release_refs n old dst g g' db2) by done.
    rewrite decide_True, decide_False by congruence. lia. }
  rewrite Href, Hdb3. destruct (Z.eqb_spec (refs (db_files db2) old - 1) 0) as [E|E].
  - destruct (release_delete n old dst g g' db2 Hw2 Hg eq_refl Hno Hg' Hn ltac:(lia)) as (db4 & H4 & Hw & Hf4 & Hb4).
    exists db4. split; [done|]. by apply Hfinish.
  - eexists. split; [reflexivity|]. apply Hfinish; [|by destruct db2..].
    replace (db_data_objects (set_files _ db2)) with (db_data_objects db2) by (by destruct db2).
    apply (release_update_wf n old dst g g' db2 Hw2 Hg eq_refl Hno Hg' Hn). intros r Hr. cbn.
    pose proof (refs_pos (db_files db2) dst g Hg). fold old in H.
    rewrite (wf_refs _ _ Hw2 _ _ Hr), reference_total_refs, bool_decide_eq_false_2 by congruence. lia.
Qed.

Lemma fetch_file_info_Ok fid db :
  wf_db db ->
  fetch_file_info fid db = Ok ((fun f => (f_size f, f_data_object_id f)) <$> db_files db !! fid, db).
Proof.
  intros Hwf. unfold fetch_file_info. tx_run. destruct (db_files db !! fid) as [f|] eqn:Hf; [|done].
  pose proof (wf_seq _ _ Hwf) as [_ Hs].
  specialize (Hs _ (wf_file_object _ _ Hwf _ _ Hf)). by destruct (Z.leb_spec (f_data_object_id f) 0); [lia|].
Qed.

(** The body of an adoption after its fence. *)
Definition adopt_after_fence (src dst : Z) : Tx bool := fun db =>
  match db_files db !! src, db_files db !! dst with
  | Some fs, Some fd =>
      if f_size fs =? 0 then Ok (false, db)
      else if f_data_object_id fs =? f_data_object_id fd then Ok (f_size fd =? f_size fs, db)
      else if f_size fd =? 0 then
        let g' := bump_generation (with_size (f_size fs) (with_object (f_data_object_id fs) fd)) in
        let db3 := set_files (<[dst := g']> (db_files db))
                     (set_objects (alter add_reference (f_data_object_id fs) (db_data_objects db)) db) in
        (_ ← (if reference_total db3 (f_data_object_id fd) =? 0 then sql_delete_object (f_data_object_id fd)
              else sql_update_object (f_data_object_id fd) drop_reference);
         mret true) db3
      else Ok (false, db)
  | _, _ => Ok (false, db)
  end.

Lemma adopt_body_run src dst fence db :
  wf_db db -> adopt_body src dst fence db = (_ ← check_fence dst fence; adopt_after_fence src dst) db.
Proof.
  intros Hwf. unfold adopt_body. fold (check_fence dst fence).
  transitivity (match check_fence dst fence db with
                | Ok (_, db) => adopt_after_fence src dst db | Err e => Err e | Panic => Panic end); [|done].
  unfold mbind, tx_bind at 1.
  destruct (check_fence_run dst fence db) as [[-> _]| ->]; [|done].
  unfold tx_bind at 1. rewrite fetch_file_info_Ok by done. unfold adopt_after_fence.
  destruct (db_files db !! src) as [fs|]; [|done]. cbn [fmap option_fmap option_map].
  destruct (Z.eqb_spec (f_size fs) 0); [by destruct (db_files db !! dst)|].
  unfold tx_bind at 1. rewrite fetch_file_info_Ok by done.
  destruct (db_files db !! dst) as [fd|] eqn:Hfd; [|done]. cbn [fmap option_fmap option_map].
  destruct (f_data_object_id fs =? f_data_object_id fd).
  { rewrite andb_true_r, orb_true_r. by destruct (f_size fd =? f_size fs). }
  rewrite andb_false_r, orb_false_r. destruct (f_size fd =? 0); [|done]. cbn [negb].
  unfold tx_bind, sql_update_object at 1, sql_update_file at 1. tx_run.
  replace (db_files (set_objects _ db)) with (db_files db) by (by destruct db).
  rewrite (alter_Some_insert _ (db_files db) dst fd Hfd). done.
Qed.

Lemma adopt_after_fence_spec src dst db :
  wf_db db ->
  exists b db', adopt_after_fence src dst db = Ok (b, db') /\
    (b = true -> adopted src dst db db') /\ (b = false -> db' = db).
Proof.
  intros Hwf. unfold adopt_after_fence.
  destruct (db_files db !! src) as [fs|] eqn:Hfs; [|by exists false, db].
  destruct (db_files db !! dst) as [fd|] eqn:Hfd; [|by exists false, db].
  destruct (Z.eqb_spec (f_size fs) 0); [by exists false, db|].
  destruct (Z.eqb_spec (f_data_object_id fs) (f_data_object_id fd)).
  { destruct (Z.eqb_spec (f_size fd) (f_size fs)); eexists _, db; (split; [done|]); split; try done.
    intros _. by eapply adopt_refl. }
  destruct (f_size fd =? 0); [|by exists false, db].
  destruct (adopt_rebind src dst db fs fd Hwf Hfs Hfd) as (db4 & H4 & Had); [done|].
  exists true, db4. split; [|done]. unfold mbind, tx_bind. by rewrite H4.
Qed.

Lemma adopt_probe_run src dst db :
  wf_db db ->
  exists v, adopt_probe src dst db = Ok (v, db) /\
    match v with Some b => b = true /\ adopted src dst db db | None => True end.
Proof.
  intros Hwf. unfold adopt_probe, mbind, tx_bind. rewrite fetch_file_info_Ok by done.
  destruct (db_files db !! src) as [fs|] eqn:Hfs; cbn [fmap option_fmap option_map]; [|by exists None].
  destruct (f_size fs =? 0); [by exists None|]. rewrite fetch_file_info_Ok by done.
  destruct (db_files db !! dst) as [fd|] eqn:Hfd; cbn [fmap option_fmap option_map]; [|by exists None].
  destruct (Z.eqb_spec (f_size fd) (f_size fs)); [|by exists None].
  destruct (Z.eqb_spec (f_data_object_id fs) (f_data_object_id fd)); [|by exists None].
  exists (Some true). split; [done|]. split; [done|]. by eapply adopt_refl.
Qed.

Lemma adopt_run src dst fence db :
  wf_db db ->
  match adopt_source_data_object_optional_fence src dst fence db with
  | (Ok true, db') => adopted src dst db db' /\ (db' = db \/ may_write db dst fence = true)
  | (Ok false, db') => db' = db
  | (Err e, db') => db' = db /\ e = fence_rejected
  | (Panic, _) => False
  end.
Proof.
  intros Hwf. unfold adopt_source_data_object_optional_fence, transactional, replay_confirmed.
  destruct (adopt_probe_run src dst db Hwf) as (v & Hp & Hv). unfold mbind, tx_bind. rewrite Hp.
  destruct v as [b|]; [destruct Hv as [-> ?]; cbn; auto|]. rewrite adopt_body_run by done.
  unfold mbind, tx_bind. destruct (check_fence_run dst fence db) as [[-> Hm]| ->]; [|done].
  destruct (adopt_after_fence_spec src dst db Hwf) as (b & db' & -> & Ht & Hf). destruct b; auto.
Qed.

(** Whole-object adoption (the copy_file_range fast path that shares the
    source's data object) is correct: when it reports success the destination has
    the source's size and blocks and every other file, the source included, has
    the row and blocks it had; otherwise nothing changes. The only error is a
    rejected fence, and a change implies a live fence or no active lease. *)
Theorem adopt_source_correct src dst fence db :
  wf_db db ->
  match adopt_source_data_object_optional_fence src dst fence db with
  | (Ok true, db') => adopted src dst db db' /\ (db' = db \/ may_write db dst fence = true)
  | (Ok false, db') => db' = db
  | (Err e, db') => db' = db /\ e = fence_rejected
  | (Panic, _) => False
  end.
Proof. apply adopt_run. Qed.

(** The adoption of file 10 by the empty file 12 of the sample store. *)
Lemma adopt_source_correct_witness :
  match adopt_source_data_object_optional_fence 10 12 None sample_db with
  | (Ok true, db') => adopted 10 12 sample_db db' /\ stored_byte db' 12 4 4 = 5
  | _ => False
  end.
Proof.
  pose proof (adopt_source_correct 10 12 None sample_db sample_db_wf) as H.
  destruct (adopt_source_data_object_optional_fence 10 12 None sample_db) as [res db'] eqn:E.
  vm_compute in E. injection E as <- <-. destruct H as [H _]. split; [exact H|reflexivity].
Defined.

(** A one-block write to file 10, unfenced, within the quota. *)
Definition sample_request (fid : Z) (fence : option WritePersistenceFence) : PersistRequest := {|
  pr_file_id := fid; pr_file_size := 6; pr_block_size := 4; pr_total_blocks := 2;
  pr_truncate_pending := false; pr_blocks := take 1 sample_rows; pr_maintain_copy_crc_table := true;
  pr_capacity_reservation_token := None; pr_write_fence := fence; pr_write_authorization := None;
  pr_kill_suidgid := true |}.

Definition sample_fence : WritePersistenceFence :=
  {| wf_session_id := 5; wf_owner_key := 9; wf_file_fencing_token := 3 |}.

Definition sample_committed (r : PersistRequest) : Db := (persist_file_blocks sample_cfg r sample_db).2.


Lemma committed_writers_share_fence_witness : sample_fence = sample_fence.
Proof.
  apply (committed_writers_share_fence sample_cfg (sample_request 11 (Some sample_fence))
    (sample_request 11 (Some sample_fence)) sample_fence sample_fence sample_db
    (sample_committed (sample_request 11 (Some sample_fence)))
    (persist_file_blocks sample_cfg (sample_request 11 (Some sample_fence))
      (sample_committed (sample_request 11 (Some sample_fence)))).2);
    vm_compute; reflexivity.
Defined.

Lemma persist_respects_quota_witness :
  used_bytes (sample_committed (sample_request 10 None)) None <= 64.
Proof.
  apply (persist_respects_quota sample_cfg (sample_request 10 None) sample_db
    (sample_committed (sample_request 10 None))); [vm_compute; reflexivity|cbn; lia].
Defined.

(** ** The invariant and isolation along every history *)

(** From [db] to [db'] the invariant is kept and no file but [t] changes. *)
Record isolated (t : Z) (db db' : Db) : Prop := {
  iso_wf : wf_db db';
  iso_rows : forall fid, fid <> t -> db_files db' !! fid = db_files db !! fid;
  iso_blocks : forall fid k, fid <> t -> stored_block db' fid k = stored_block db fid k
}.

Lemma isolated_refl t db : wf_db db -> isolated t db db.
Proof. by split. Qed.

Lemma isolated_trans t db1 db2 db3 : isolated t db1 db2 -> isolated t db2 db3 -> isolated t db1 db3.
Proof.
  intros [H1 H2 H3] [H4 H5 H6]. split; [done|..].
  - intros fid Hf. by rewrite H5, H2.
  - intros fid k Hf. by rewrite H6, H3.
Qed.

(** The part of the database the invariant and the contents depend on. *)
Definition store_view (db : Db) :=
  (db_files db, db_data_objects db, db_data_blocks db, db_copy_block_crc db, db_data_object_seq db).

Lemma wf_store_view db db' : store_view db' = store_view db -> wf_db db -> wf_db db'.
Proof.
  destruct db, db'. cbn. intros [= -> -> -> -> ->] [W1 W2 W3 W4 W5]. by split.
Qed.

Lemma isolated_store_view t db db' : store_view db' = store_view db -> wf_db db -> isolated t db db'.
Proof.
  intros H Hwf. split; [by eapply wf_store_view|..].
  - intros fid _. by injection H as -> _.
  - intros fid k _. unfold stored_block, blocks_of. by injection H as -> _ -> _.
Qed.

(** A statement that edits one file's row without moving it to another object. *)
Lemma isolated_update_file t g db :
  (forall f, f_data_object_id (g f) = f_data_object_id f) -> wf_db db ->
  isolated t db (set_files (alter g t (db_files db)) db).
Proof.
  intros Hg [W1 W2 W3 W4 W5].
  assert (Hrefs : forall o, refs (alter g t (db_files db)) o = refs (db_files db) o).
  { intros o. destruct (db_files db !! t) as [f|] eqn:Hf.
    - rewrite (alter_Some_insert _ _ t f), (refs_insert _ t f), Hg by done. lia.
    - f_equal. apply map_eq. intros i. destruct (decide (i = t)) as [->|Hi].
      + by rewrite lookup_alter_eq, Hf.
      + by rewrite lookup_alter_ne. }
  destruct db as [fs os bs cs sq ls ss rs mx bz ck]. cbn in *. split.
  - split; cbn; try done.
    + intros fid f Hf. apply lookup_alter_Some in Hf as [(<- & f0 & Hf0 & ->)|[_ Hf]];
        [rewrite Hg|]; by eapply W1.
    + intros o row Hr. rewrite reference_total_refs. cbn. rewrite Hrefs. by apply W2.
  - intros fid Hfid. cbn. by rewrite lookup_alter_ne.
  - intros fid k Hfid. unfold stored_block. cbn. by rewrite lookup_alter_ne.
Qed.

(** A transaction that, if it commits, touches file [t] only. *)
Definition isolates {A} (t : Z) (m : Tx A) : Prop :=
  forall db a db', wf_db db -> m db = Ok (a, db') -> isolated t db db'.

Lemma isolates_bind {A B} t (m : Tx A) (k : A -> Tx B) :
  isolates t m -> (forall a, isolates t (k a)) -> isolates t (x ← m; k x).
Proof.
  intros Hm Hk db b db' Hwf H. apply tx_bind_Ok in H as (a & db1 & H1 & H2).
  pose proof (Hm _ _ _ Hwf H1) as I1. eapply isolated_trans; [done|]. eapply Hk; [by destruct I1|done].
Qed.

Lemma isolates_keeps {A} t (m : Tx A) : keeps store_view m -> isolates t m.
Proof. intros H db a db' Hwf E. apply isolated_store_view; [by apply (H _ a)|done]. Qed.

Lemma keeps_refresh_store quota token : keeps store_view (refresh_payload_reservation_on_conn quota token).
Proof. unfold refresh_payload_reservation_on_conn, persisted_and_reserved_payload_bytes_on_conn. keeps_auto. Qed.

Lemma isolates_clear t : isolates t (clear_file_privileges_on_conn t).
Proof.
  unfold clear_file_privileges_on_conn. intros db a db' Hwf H. revert H. tx_run.
  destruct (db_files db !! t) as [f|]; [|done]. destruct (4095 <? f_mode f); [done|].
  intros H. apply tx_bind_Ok in H as (? & db1 & [= _ <-] & [= _ <-]). set (g := with_mode _).
  assert (I1 : isolated t db (set_files (alter g t (db_files db)) db))
    by (apply isolated_update_file; [by intros []|done]).
  eapply isolated_trans; [exact I1|]. apply isolated_update_file; [by intros []|by destruct I1].
Qed.

Lemma transactional_isolated {A} t (m : Tx A) db : isolates t m -> wf_db db -> isolated t db (transactional m db).2.
Proof.
  intros Hm Hwf. unfold transactional. destruct (m db) as [[a db']| |] eqn:E; cbn; [|by apply isolated_refl..].
  by eapply Hm.
Qed.
#[export] Hint Resolve isolates_keeps isolates_clear keeps_refresh_store : keeps.

(** A request whose numbers fit their columns and whose rows are a block plan's. *)
Record request_ok (r : PersistRequest) : Prop := {
  rq_size : pr_file_size r <= I64_MAX;
  rq_total : pr_total_blocks r <= I64_MAX;
  rq_block_size : pr_block_size r <= I32_MAX;
  rq_rows : rows_ok (pr_blocks r)
}.

Lemma write_target_missing fid size prefer maintain db :
  db_files db !! fid = None -> data_object_write_target_on_conn fid size prefer maintain db = Ok (None, db).
Proof.
  intros Hf.
  assert (Hi : file_data_object_info_on_conn fid db = Ok (None, db))
    by (unfold file_data_object_info_on_conn; tx_run; by rewrite Hf).
  unfold data_object_write_target_on_conn, detach_shared_data_object_on_conn.
  destruct prefer; unfold mbind, tx_bind; by rewrite Hi.
Qed.

Lemma rows_missing cfg r db :
  db_files db !! pr_file_id r = None -> persist_rows cfg r db = Ok (tt, db).
Proof.
  intros Hf. unfold persist_rows, persist_file_blocks_rows_on_conn,
    persist_file_blocks_copy_binary_staging_on_conn, persist_file_blocks_direct_on_conn.
  destruct (persist_block_transport cfg); unfold mbind, tx_bind; by rewrite write_target_missing.
Qed.

Lemma persist_post_isolated db fid f size db' :
  db_files db !! fid = Some f -> wf_db db -> persist_post db fid f size db' -> isolated fid db db'.
Proof.
  intros Hf Hwf [Hw (f' & Hf' & _) Hiso]. split; [done|..].
  - intros fid' Hne. by rewrite Hf', lookup_insert_ne.
  - intros fid' k Hne. destruct (db_files db !! fid') as [g|] eqn:Hg; [by apply Hiso|].
    unfold stored_block. by rewrite Hf', lookup_insert_ne, Hg.
Qed.

Lemma rows_isolated cfg r db u db' :
  request_ok r -> wf_db db -> db_data_object_seq db <= I64_MAX ->
  persist_rows cfg r db = Ok (u, db') -> isolated (pr_file_id r) db db'.
Proof.
  intros [Hs Ht Hb Hr] Hwf Hq. destruct (db_files db !! pr_file_id r) as [f|] eqn:Hf.
  2: { rewrite rows_missing by done. intros [= _ <-]. by apply isolated_refl. }
  assert (Hpre : persist_pre db (pr_file_id r) f (pr_file_size r) (pr_block_size r) (pr_total_blocks r)
    (pr_blocks r)) by (by split).
  unfold persist_rows, persist_file_blocks_rows_on_conn.
  destruct (persist_block_transport cfg) eqn:Et; intros H.
  - edestruct persist_staging_blocks as (d & Hrun & Hpost & _); [exact Hpre|].
    rewrite Hrun in H. simplify_eq. by eapply persist_post_isolated.
  - edestruct (persist_direct_blocks BinaryBytea) as (d & Hrun & Hpost & _); [done|exact Hpre|].
    rewrite Hrun in H. simplify_eq. by eapply persist_post_isolated.
  - edestruct (persist_direct_blocks LegacyHex) as (d & Hrun & Hpost & _); [done|exact Hpre|].
    rewrite Hrun in H. simplify_eq. by eapply persist_post_isolated.
Qed.

Lemma persist_checks_isolates r : isolates (pr_file_id r) (persist_checks r).
Proof.
  unfold persist_checks. apply isolates_bind; [auto with keeps|intros _].
  apply isolates_bind; [destruct (pr_write_authorization r); [destruct (negb _)|]; auto with keeps|intros _].
  destruct (pr_kill_suidgid r); cbn [tx_when]; auto with keeps.
Qed.

Lemma keeps_seq_checks r : keeps db_data_object_seq (persist_checks r).
Proof.
  assert (Hc : keeps db_data_object_seq (clear_file_privileges_on_conn (pr_file_id r)))
    by (unfold clear_file_privileges_on_conn, sql_update_file; keeps_auto).
  unfold persist_checks. apply keeps_bind; [auto with keeps|intros _].
  apply keeps_bind; [destruct (pr_write_authorization r); [destruct (negb _)|]; auto with keeps|auto with keeps].
Qed.

Lemma persist_isolated cfg r db :
  request_ok r -> wf_db db -> db_data_object_seq db <= I64_MAX ->
  isolated (pr_file_id r) db (persist_file_blocks cfg r db).2.
Proof.
  intros Hr Hwf Hq. unfold persist_file_blocks, transactional.
  destruct (persist_body cfg r db) as [[u db']| |] eqn:B; [|by apply isolated_refl..].
  rewrite persist_body_split in B. apply tx_bind_Ok in B as (? & db1 & B1 & B).
  pose proof (persist_checks_isolates r _ _ _ Hwf B1) as I1. pose proof (iso_wf _ _ _ I1) as W1.
  apply keeps_seq_checks in B1. eapply isolated_trans; [exact I1|].
  destruct (pr_capacity_reservation_token r) as [token|].
  - apply tx_bind_Ok in B as (q & db2 & B2 & B). apply lock_quota_Ok in B2 as [-> _].
    apply tx_bind_Ok in B as (? & db3 & B3 & B). pose proof (keeps_refresh_store _ _ _ _ _ B3) as V3.
    pose proof (wf_store_view _ _ V3 W1) as W3.
    apply tx_bind_Ok in B as (? & db4 & B4 & B). apply (keeps_enforce id) in B. cbn in B. subst.
    eapply isolated_trans; [by apply isolated_store_view|]. eapply rows_isolated; [done|done| |done].
    injection V3. intros. lia.
  - apply tx_bind_Ok in B as (? & db4 & B4 & B). apply tx_bind_Ok in B as (q & db5 & B5 & B).
    apply lock_quota_Ok in B5 as [-> _]. apply (keeps_enforce id) in B. cbn in B. subst.
    eapply rows_isolated; [done|done|lia|done].
Qed.

Lemma set_file_size_isolated fid size db : wf_db db -> isolated fid db (set_file_size fid size db).2.
Proof.
  intros Hwf. apply transactional_isolated; [|done]. unfold replay_confirmed.
  apply isolates_bind; [apply isolates_keeps; keeps_auto|]. intros [v|]; [auto with keeps|].
  apply isolates_bind; [apply isolates_keeps, keeps_id; apply (keeps_check_fence fid None)|intros _].
  apply isolates_bind; [auto with keeps|]. intros s d a d' Hw. unfold sql_update_file, tx_update.
  intros [= _ <-]. apply isolated_update_file; [by intros []|done].
Qed.

(** Object [o] of a deleted file keeps its row with one reference less, or goes. *)
Lemma release_update_wf' fid f db :
  wf_db db -> db_files db !! fid = Some f -> 1 < refs (db_files db) (f_data_object_id f) ->
  wf_db (delete_file_row fid
           (set_objects (alter drop_reference (f_data_object_id f) (db_data_objects db)) db)).
Proof.
  intros [W1 W2 W3 W4 W5] Hf Hr1. pose proof (fun o => refs_delete (db_files db) fid f o Hf) as Hrefs.
  destruct db as [fs os bs cs sq ls ss rs mx bz ck]. cbn in *. split; cbn.
  - intros fid' g Hg. apply lookup_delete_Some in Hg as [_ Hg]. rewrite lookup_alter_is_Some. by apply (W1 fid').
  - intros o row Hrow. rewrite reference_total_refs, (bool_decide_eq_false_2 (None = Some o)) by done. cbn.
    rewrite Hrefs. apply lookup_alter_Some in Hrow as [(<- & r0 & H0 & ->)|[Ho H0]];
      rewrite ?decide_True, ?(decide_False (P := f_data_object_id f = o)) by congruence;
      specialize (W2 _ _ H0); rewrite reference_total_refs, bool_decide_eq_false_2 in W2 by done; cbn in *; lia.
  - split; [lia|]. intros o Ho. rewrite lookup_alter_is_Some in Ho. by apply W3.
  - intros o Ho. rewrite lookup_alter_is_Some. by apply W4.
  - intros o Ho. rewrite lookup_alter_is_Some. by apply W5.
Qed.

Lemma release_delete' fid f db u db' :
  wf_db db -> db_files db !! fid = Some f -> refs (db_files db) (f_data_object_id f) <= 1 ->
  sql_delete_object (f_data_object_id f) (delete_file_row fid db) = Ok (u, db') ->
  wf_db db' /\ db_files db' = delete fid (db_files db) /\
  forall o, o <> f_data_object_id f -> blocks_of db' o = blocks_of db o.
Proof.
  intros [W1 W2 W3 W4 W5] Hf Hle. pose proof (fun o => refs_delete (db_files db) fid f o Hf) as Hrefs.
  pose proof (fun fid' g => refs_unique (db_files db) fid fid' f g Hf) as Huniq.
  destruct db as [fs os bs cs sq ls ss rs mx bz ck]. cbn in *. unfold sql_delete_object. cbn.
  destruct (bool_decide _); [done|]. intros [= _ <-]. set (old := f_data_object_id f) in *.
  assert (Hsafe : forall o, o <> old -> is_Some (os !! o) -> is_Some (delete old os !! o))
    by (intros o Ho Hs; by rewrite lookup_delete_ne).
  split_and!; [|done|].
  - split; cbn.
    + intros fid' g Hg. apply lookup_delete_Some in Hg as [Hne Hg]. apply Hsafe; [|by apply (W1 fid')].
      apply (Huniq fid' g); [done|congruence|done].
    + intros o row Hrow. apply lookup_delete_Some in Hrow as [Ho Hrow].
      rewrite reference_total_refs, (bool_decide_eq_false_2 (None = Some o)) by done. cbn.
      rewrite Hrefs, decide_False by done. specialize (W2 _ _ Hrow).
      rewrite reference_total_refs, bool_decide_eq_false_2 in W2 by done. cbn in W2. lia.
    + split; [lia|]. intros o [row Ho]. apply lookup_delete_Some in Ho as [_ Ho]. apply W3. eauto.
    + intros o [m Ho]. apply lookup_delete_Some in Ho as [Hne Ho]. apply Hsafe; [congruence|]. apply W4. eauto.
    + intros o [m Ho]. apply lookup_delete_Some in Ho as [Hne Ho]. apply Hsafe; [congruence|]. apply W5. eauto.
  - intros o Ho. unfold blocks_of. cbn. by rewrite lookup_delete_ne.
Qed.

Lemma release_isolates fid : isolates fid (release_replaced_file fid).
Proof.
  intros db a db' Hwf. unfold release_replaced_file, sql_delete_file. tx_run.
  destruct (db_files db !! fid) as [f|] eqn:Hf; [|done].
  destruct (db_data_objects db !! f_data_object_id f) as [row|] eqn:Hrow; [|done].
  pose proof (wf_refs _ _ Hwf _ _ Hrow) as Hcnt.
  rewrite reference_total_refs, bool_decide_eq_false_2, Z.add_0_r in Hcnt by done. rewrite Hcnt.
  destruct (Z.leb_spec (refs (db_files db) (f_data_object_id f)) 1).
  - intros H0. apply (release_delete' fid f db) in H0 as (Hw & Hf' & Hb); [|done..]. split; [done|..].
    + intros fid' Hne. by rewrite Hf', lookup_delete_ne.
    + intros fid' k Hne. unfold stored_block. rewrite Hf', lookup_delete_ne by done.
      destruct (db_files db !! fid') as [g|] eqn:Hg; [|done]. cbn. rewrite Hb; [done|].
      by apply (refs_unique (db_files db) fid fid').
  - unfold sql_update_object, tx_update. intros [= _ <-].
    split.
    + by apply release_update_wf'.
    + intros fid' Hne. destruct db; cbn. by rewrite lookup_delete_ne.
    + intros fid' k Hne. destruct db; unfold stored_block; cbn. by rewrite lookup_delete_ne.
Qed.

Lemma insert_file_isolates fid mode uid gid seed : isolates fid (insert_file_rows fid mode uid gid seed).
Proof.
  intros db a db' Hwf. unfold insert_file_rows. unfold mbind, tx_bind at 1.
  rewrite create_data_object_Ok by (done || (unfold I64_MAX; lia)).
  destruct (wf_new_object 0 db Hwf) as ([W1 W2 W3 W4 W5] & Hn & Hb & Hc & Hr0).
  destruct db as [fs os bs cs sq ls ss rs mx bz ck]. cbn in *. tx_run. cbn.
  destruct (fs !! fid) eqn:Hf; [done|]. destruct (fid =? 0); [done|]. intros [= _ <-]. split; cbn.
  - split; cbn; [|..|done|done|done].
    + intros fid' g. rewrite lookup_insert_Some. intros [[<- <-]|[_ Hg]]; [|by apply (W1 fid')].
      cbn. apply lookup_insert_is_Some. by left.
    + intros o row Hrow. specialize (W2 o row Hrow). revert W2.
      rewrite !reference_total_refs, (bool_decide_eq_false_2 (None = Some o)) by done. cbn.
      rewrite refs_insert_None by done. cbn. case_bool_decide as Ho; intros ->.
      * rewrite decide_True by congruence. lia.
      * rewrite decide_False by congruence. lia.
  - intros fid' Hne. by rewrite lookup_insert_ne.
  - intros fid' k Hne. unfold stored_block. cbn. by rewrite lookup_insert_ne.
Qed.

(** One operation of the store, with the file it is addressed to. [env_step] is the
    rest of the system: clock, sessions, leases, reservations and limits change. *)
Inductive store_step : Z -> Db -> Db -> Prop :=
| step_persist cfg r db : request_ok r -> db_data_object_seq db <= I64_MAX ->
    store_step (pr_file_id r) db (persist_file_blocks cfg r db).2
| step_adopt src dst fence db :
    store_step dst db (adopt_source_data_object_optional_fence src dst fence db).2
| step_set_size fid size db : store_step fid db (set_file_size fid size db).2
| step_release fid db : store_step fid db (transactional (release_replaced_file fid) db).2
| step_create fid mode uid gid seed db :
    store_step fid db (transactional (insert_file_rows fid mode uid gid seed) db).2
| step_env fid db db' : store_view db' = store_view db -> store_step fid db db'.

Lemma adopt_isolated src dst fence db :
  wf_db db -> isolated dst db (adopt_source_data_object_optional_fence src dst fence db).2.
Proof.
  intros Hwf. pose proof (adopt_run src dst fence db Hwf) as H.
  destruct (adopt_source_data_object_optional_fence src dst fence db) as [[[]|e|] db']; cbn.
  - destruct H as [[] _]. by split.
  - subst. by apply isolated_refl.
  - destruct H as [-> _]. by apply isolated_refl.
  - done.
Qed.

Lemma store_step_isolated t db db' : wf_db db -> store_step t db db' -> isolated t db db'.
Proof.
  intros Hwf H. revert Hwf. destruct H; intros Hwf; auto using persist_isolated, adopt_isolated, set_file_size_isolated,
    transactional_isolated, release_isolates, insert_file_isolates, isolated_store_view.
Qed.

(** Histories: the operations executed, with the files they were addressed to. *)
Inductive store_trace : Db -> list Z -> Db -> Prop :=
| trace_nil db : store_trace db [] db
| trace_cons t db db1 ts db2 : store_step t db db1 -> store_trace db1 ts db2 -> store_trace db (t :: ts) db2.

Lemma store_trace_wf db ts db' : store_trace db ts db' -> wf_db db -> wf_db db'.
Proof. induction 1; [done|]. intros Hwf. by apply IHstore_trace, (iso_wf _ _ _ (store_step_isolated _ _ _ Hwf H)). Qed.

Definition empty_db : Db := {|
  db_files := ∅; db_data_objects := ∅; db_data_blocks := ∅; db_copy_block_crc := ∅;
  db_data_object_seq := 1; db_file_write_leases := ∅; db_client_sessions := ∅; db_reservations := ∅;
  db_max_fs_size_bytes := 0; db_block_size := 4096; db_clock := 0 |}.

(** C29: In every state the store can reach from an empty one, by any interleaving of
    file creation, block writes under any transport, whole-object adoption, size
    updates and removal by rename, with leases, sessions, clock and limits changing
    arbitrarily in between, the store is consistent: every file has its data object,
    every reference count is the number of files that use the object, and blocks
    and checksums belong to existing objects. *)
Theorem reachable_store_wf ts db : store_trace empty_db ts db -> wf_db db.
Proof.
  intros H. apply (store_trace_wf _ _ _ H), wf_db_check. vm_compute. reflexivity.
Qed.

(** C8: Isolation along histories: no sequence of operations addressed to other
    files changes a file's row (its size, generation, mode) or any of its blocks,
    also when data objects are shared, adopted, detached, replaced and deleted
    on the way. *)
Theorem store_trace_isolates db ts db' fid :
  wf_db db -> store_trace db ts db' -> fid ∉ ts ->
  db_files db' !! fid = db_files db !! fid /\
  forall bs pos, stored_byte db' fid bs pos = stored_byte db fid bs pos.
Proof.
  intros Hwf H. revert Hwf. induction H as [db|t db db1 ts db2 Hs Ht IH]; intros Hwf Hni; [done|].
  apply not_elem_of_cons in Hni as [Hne Hni].
  destruct (store_step_isolated _ _ _ Hwf Hs) as [Hw Hr Hb]. destruct (IH Hw Hni) as [H1 H2].
  split; [by rewrite H1, Hr|]. intros bs pos. rewrite H2. unfold stored_byte. by rewrite Hb.
Qed.

(** A history of the sample store: file 12 adopts file 10, is then written, and is
    removed by a rename. *)
Definition sample_step1 : Db := (adopt_source_data_object_optional_fence 10 12 None sample_db).2.
Definition sample_step2 : Db := (persist_file_blocks sample_cfg (sample_request 12 None) sample_step1).2.
Definition sample_step3 : Db := (transactional (release_replaced_file 12) sample_step2).2.

Lemma sample_request_ok fid fence : request_ok (sample_request fid fence).
Proof. split; [cbn; unfold I64_MAX; lia..|cbn; unfold I32_MAX; lia|apply (sample_rows_ok 1)]. Qed.

Lemma sample_trace : store_trace sample_db [12; 12; 12] sample_step3.
Proof.
  econstructor; [apply step_adopt|]. econstructor; [|econstructor; [apply step_release|constructor]].
  apply (step_persist sample_cfg (sample_request 12 None)); [apply sample_request_ok|].
  vm_compute. discriminate.
Qed.

Lemma store_trace_isolates_witness :
  (f_size <$> db_files sample_step2 !! 12) = Some 6 /\ stored_byte sample_step2 12 4 0 = 9 /\
  db_files sample_step3 !! 12 = None /\ stored_byte sample_step3 10 4 0 = stored_byte sample_db 10 4 0.
Proof.
  split_and!; [vm_compute; reflexivity..|].
  apply (store_trace_isolates sample_db [12; 12; 12] sample_step3 10 sample_db_wf sample_trace).
  set_solver.
Defined.

Lemma reachable_store_wf_witness :
  wf_db (transactional (insert_file_rows 7 420 0 0 "seed") empty_db).2 /\
  (transactional (insert_file_rows 7 420 0 0 "seed") empty_db).1 = Ok 7.
Proof.
  split; [|vm_compute; reflexivity].
  apply (reachable_store_wf [7]). econstructor; [apply step_create|constructor].
Defined.

(** ** Sparse seeks *)

Lemma min_key_spec l :
  match min_key l with
  | Some m => m ∈ l /\ forall k, k ∈ l -> m <= k
  | None => l = []
  end.
Proof.
  induction l as [|a l IH]; [done|]. cbn. fold (min_key l). destruct (min_key l) as [m|].
  - destruct IH as [Hm Hle]. split.
    + destruct (Z.min_spec a m) as [[_ ->]|[_ ->]]; set_solver.
    + intros k Hk. apply elem_of_cons in Hk as [->|Hk]; [lia|]. specialize (Hle k Hk). lia.
  - subst. split; [set_solver|]. intros k Hk. apply list_elem_of_singleton in Hk. lia.
Qed.

Lemma elem_of_order_keys db oid k : k ∈ order_keys db oid <-> is_Some (blocks_of db oid !! k).
Proof.
  unfold order_keys. rewrite list_elem_of_fmap. split.
  - intros ([k' d] & -> & H). apply elem_of_map_to_list in H. by exists d.
  - intros [d Hd]. exists (k, d). split; [done|]. by apply elem_of_map_to_list.
Qed.

(** The block that holds [pos] is stored. *)
Definition is_data (db : Db) (fid bs pos : Z) : Prop := is_Some (stored_block db fid (pos / bs)).

(** What lseek(SEEK_DATA) and lseek(SEEK_HOLE) have to find from [offset]. *)
Definition seek_spec (db : Db) (fid size offset bs : Z) (seek_data : bool) (res : outcome string (option Z)) : Prop :=
  match res with
  | Ok (Some p) =>
      offset <= p <= size /\
      (if seek_data then p < size /\ is_data db fid bs p /\ forall q, offset <= q < p -> ~ is_data db fid bs q
       else (p = size \/ ~ is_data db fid bs p) /\ forall q, offset <= q < p -> is_data db fid bs q)
  | Ok None =>
      size <= offset \/ (seek_data = true /\ forall q, offset <= q < size -> ~ is_data db fid bs q)
  | Err _ => exists k, is_Some (stored_block db fid k) /\ U64_MAX < (k + 1) * bs
  | Panic => False
  end.

(** The blocks from [current] to [last] are stored when [last] is the first block,
    from a stored [current] on, whose successor is missing. *)
Lemma stored_run (m : gmap Z bytes) current last :
  is_Some (m !! current) ->
  (forall k, is_Some (m !! k) -> current <= k -> m !! (k + 1) = None -> last <= k) ->
  forall k, current <= k <= last -> is_Some (m !! k).
Proof.
  intros Hc Hmin k [Hk Hl]. revert Hl. pattern k. apply Zlt_lower_bound_ind with current; [|done].
  clear k Hk. intros k IH Hk Hl. destruct (decide (k = current)) as [->|Hne]; [done|].
  destruct (m !! k) as [d|] eqn:E; [done|]. exfalso.
  assert (Hp : is_Some (m !! (k - 1))) by (apply IH; lia).
  specialize (Hmin (k - 1) Hp ltac:(lia)). rewrite Z.sub_add in Hmin. specialize (Hmin E). lia.
Qed.

Lemma stored_unbounded (m : gmap Z bytes) current :
  is_Some (m !! current) -> ~ (forall k, is_Some (m !! k) -> current <= k -> m !! (k + 1) <> None).
Proof.
  intros Hc H. assert (Hall : forall n : nat, is_Some (m !! (current + Z.of_nat n))).
  { induction n as [|n IH]; [by rewrite Z.add_0_r|]. apply not_eq_None_Some.
    replace (current + Z.of_nat (S n)) with (current + Z.of_nat n + 1) by lia. apply H; [done|lia]. }
  assert (Hsub : list_to_set ((fun n : nat => current + Z.of_nat n) <$> seq 0 (S (size m))) ⊆ dom m).
  { intros k Hk. apply elem_of_list_to_set, list_elem_of_fmap in Hk as (n & -> & _).
    by apply elem_of_dom. }
  apply subseteq_size in Hsub. rewrite size_list_to_set, length_fmap, length_seq in Hsub.
  - rewrite size_dom in Hsub. lia.
  - apply NoDup_fmap_2; [intros ?? ?; lia|apply NoDup_seq].
Qed.

Section Seek.
Context (db : Db) (fid size offset bs : Z) (f : FileRow).
Hypothesis Hf : db_files db !! fid = Some f.
Hypothesis Hbs : 0 < bs.
Hypothesis Hoff : 0 <= offset.

Let m := blocks_of db (f_data_object_id f).

Lemma stored_block_seek k : stored_block db fid k = m !! k.
Proof. unfold stored_block. by rewrite Hf. Qed.

Lemma seek_next_order :
  match min_key (filter (fun k => offset / bs <= k) (order_keys db (f_data_object_id f))) with
  | Some o => is_Some (m !! o) /\ offset / bs <= o /\
      forall k, is_Some (m !! k) -> offset / bs <= k -> o <= k
  | None => forall k, offset / bs <= k -> m !! k = None
  end.
Proof.
  pose proof (min_key_spec (filter (fun k => offset / bs <= k) (order_keys db (f_data_object_id f)))) as H.
  destruct (min_key _) as [o|].
  - destruct H as [Ho Hle]. apply list_elem_of_filter in Ho as [Hge Ho]. apply elem_of_order_keys in Ho.
    split_and!; try done. intros k Hk Hge'. apply Hle, list_elem_of_filter. split; [done|]. by apply elem_of_order_keys.
  - intros k Hk. apply eq_None_not_Some. intros Hs. apply (elem_of_nil k). rewrite <- H.
    apply list_elem_of_filter. split; [done|]. by apply elem_of_order_keys.
Qed.

Lemma seek_data_run :
  seek_spec db fid size offset bs true (sparse_seek_blockwise db fid size offset bs true).
Proof.
  unfold sparse_seek_blockwise. destruct (Z.eqb_spec bs 0); [lia|].
  destruct (Z.leb_spec size offset); [by left|]. rewrite Hf. pose proof seek_next_order as Hn.
  set (cur := offset / bs) in *. assert (Hcur : cur * bs <= offset < cur * bs + bs) by (apply div_block_bounds; lia).
  assert (Hblk : forall q o, offset <= q < o * bs -> cur <= q / bs < o).
  { intros q o Hq. split; [by apply Z.div_le_mono; lia|]. apply Z.div_lt_upper_bound; lia. }
  destruct (min_key _) as [o|].
  - destruct Hn as (Ho & Hge & Hmin).
    assert (Hnone : forall q, offset <= q < o * bs -> ~ is_data db fid bs q).
    { intros q Hq [d Hd]. rewrite stored_block_seek in Hd. specialize (Hblk q o Hq).
      specialize (Hmin (q / bs) ltac:(by exists d) ltac:(lia)). lia. }
    destruct (Z.eqb_spec o cur) as [->|Hne].
    + split; [lia|]. split; [lia|]. split; [unfold is_data; by rewrite stored_block_seek|]. intros q Hq. lia.
    + unfold checked_mul. destruct (Z.leb_spec (o * bs) U64_MAX).
      * destruct (Z.ltb_spec (o * bs) size).
        -- assert (offset <= o * bs) by nia. split; [lia|]. split; [done|]. split; [|done].
           unfold is_data. rewrite stored_block_seek, Z.div_mul by lia. done.
        -- right. split; [done|]. intros q Hq. apply Hnone. lia.
      * exists o. rewrite stored_block_seek. split; [done|]. nia.
  - right. split; [done|]. intros q Hq [d Hd]. rewrite stored_block_seek, Hn in Hd; [done|].
    apply Z.div_le_mono; lia.
Qed.

Lemma seek_hole_run :
  seek_spec db fid size offset bs false (sparse_seek_blockwise db fid size offset bs false).
Proof.
  unfold sparse_seek_blockwise. destruct (Z.eqb_spec bs 0); [lia|].
  destruct (Z.leb_spec size offset); [by left|]. rewrite Hf. pose proof seek_next_order as Hn.
  set (cur := offset / bs) in *. assert (Hcur : cur * bs <= offset < cur * bs + bs) by (apply div_block_bounds; lia).
  case_bool_decide as Hnext; cbn [negb].
  2: { split; [lia|]. split; [|intros; lia]. right. unfold is_data. rewrite stored_block_seek. intros Hs.
       destruct (min_key _) as [o|].
       - destruct Hn as (_ & Hge & Hmin). specialize (Hmin cur Hs ltac:(lia)). apply Hnext. f_equal. lia.
       - fold cur in Hs. rewrite (Hn cur) in Hs by lia. by destruct Hs. }
  rewrite Hnext in Hn. destruct Hn as (Hc & _ & _).
  match goal with |- context [min_key ?l] => pose proof (min_key_spec l) as Hl; destruct (min_key l) as [last|] end.
  2: { exfalso. apply (stored_unbounded m cur Hc). intros k Hk Hge Hnone. apply (elem_of_nil k). rewrite <- Hl.
       apply list_elem_of_filter. split; [done|]. by apply elem_of_order_keys. }
  destruct Hl as [Hl Hmin]. apply list_elem_of_filter in Hl as [[Hge Hnone] Hl]. apply elem_of_order_keys in Hl.
  assert (Hrun : forall k, cur <= k <= last -> is_Some (m !! k)).
  { apply stored_run; [done|]. intros k Hk Hge' Hn. apply Hmin, list_elem_of_filter.
    split; [done|]. by apply elem_of_order_keys. }
  unfold checked_add, checked_mul. assert (0 < U64_MAX) by done.
  destruct (Z.leb_spec (last + 1) U64_MAX); [|exists last; rewrite stored_block_seek; split; [done|nia]].
  destruct (Z.leb_spec ((last + 1) * bs) U64_MAX); [|exists last; by rewrite stored_block_seek].
  assert (offset < (last + 1) * bs) by nia. split; [lia|]. split.
  - destruct (Z.le_gt_cases size ((last + 1) * bs)); [left; lia|right].
    rewrite Z.min_l by lia. unfold is_data. rewrite stored_block_seek, Z.div_mul by lia.
    fold m in Hnone. rewrite Hnone. by intros [].
  - intros q Hq. unfold is_data. rewrite stored_block_seek. apply Hrun. split.
    + apply Z.div_le_mono; lia.
    + assert (q / bs < last + 1) by (apply Z.div_lt_upper_bound; lia). lia.
Qed.
End Seek.

(** [sparse_seek_blockwise] implements lseek: from any offset of an existing file,
    SEEK_DATA returns the first offset at or after it that lies in a stored block
    below the end of file, or none when there is none; SEEK_HOLE returns the first
    offset that does not lie in a stored block, or the end of file. The only error
    is a block stored so far out that its byte offset overflows 64 bits. *)
Theorem sparse_seek_correct db fid size offset bs seek_data :
  is_Some (db_files db !! fid) -> 0 < bs -> 0 <= offset ->
  seek_spec db fid size offset bs seek_data (sparse_seek_blockwise db fid size offset bs seek_data).
Proof.
  intros [f Hf] Hbs Hoff. destruct seek_data; [by eapply seek_data_run|by eapply seek_hole_run].
Qed.

Lemma sparse_seek_correct_witness :
  sparse_seek_blockwise sample_db 10 20 5 4 false = Ok (Some 8) /\
  forall q, 5 <= q < 8 -> is_data sample_db 10 4 q.
Proof.
  split; [vm_compute; reflexivity|].
  apply (sparse_seek_correct sample_db 10 20 5 4 false); [eexists; reflexivity|lia|lia].
Defined.
