(* ===== verification/WriteOwnership.v ===== *)
(** * Write ownership

    Model of the fenced write leases of src/rust_hotpath/src/pg.rs
    ([acquire_write_ownership], its heartbeats and its release), of the tables
    of src/migrations/0024_write_ownership_leases.sql (with the name limit of
    src/migrations/0033_byte_length_name_limits.sql); the
    handle table that uses them is in OwnershipHandles.v. The
    file leases are the ones the block store checks before it persists
    (BlockStore.v), so the theorems are about what a stale writer can still
    commit. Within a transaction every statement reads the clock of its own:
    [clk k] is the time of its [k]-th statement. *)

From stdpp Require Import prelude list numbers gmap strings relations.
From Stdlib Require Import ZArith Lia.
From S2P Require Import Prelude Errno BlockStore StoreSafety.

#[local] Open Scope Z_scope.
Set Default Proof Using "Type".

(** ** Tables *)

Definition set_file_leases (ls : gmap Z WriteLeaseRow) (db : Db) : Db :=
  let '(Build_Db fs os bs cs sq _ ss rs mx bz ck) := db in Build_Db fs os bs cs sq ls ss rs mx bz ck.
Definition set_client_sessions (ss : gmap Z Z) (db : Db) : Db :=
  let '(Build_Db fs os bs cs sq ls _ rs mx bz ck) := db in Build_Db fs os bs cs sq ls ss rs mx bz ck.
Definition set_clock (ck : Z) (db : Db) : Db :=
  let '(Build_Db fs os bs cs sq ls ss rs mx bz _) := db in Build_Db fs os bs cs sq ls ss rs mx bz ck.

(** The database with [destination_write_leases], the sequences of the two
    lease tables and, for every file, the names it has: its own one unless it is
    unlinked, and its hard links, each with [COALESCE(id_directory, 0)]. *)
Record OwnDb : Type := {
  od_db : Db;
  od_destinations : gmap (Z * string) WriteLeaseRow;
  od_destination_seq : Z;
  od_file_seq : Z;
  od_names : gmap Z (list (Z * string));
}.

Record WriteOwnershipLease := {
  ol_destination_fencing_token : Z;
  ol_file_fencing_token : option Z;
}.

Definition validate_write_ownership_lease_tokens (lease : WriteOwnershipLease) : outcome string unit :=
  if (ol_destination_fencing_token lease =? 0) || bool_decide (ol_file_fencing_token lease = Some 0)
  then Err "write ownership lease contains a non-positive fencing token"%string
  else Ok tt.

(** A body returns the state it reached with its result; an error rolls the rows
    back, but PostgreSQL sequences keep the numbers they have handed out. *)
Definition own_transaction {A} (body : OwnDb -> outcome string A * OwnDb) (od : OwnDb) : outcome string A * OwnDb :=
  match body od with
  | (Ok a, od') => (Ok a, od')
  | (e, od') =>
      (e, {| od_db := od_db od; od_destinations := od_destinations od;
             od_destination_seq := od_destination_seq od'; od_file_seq := od_file_seq od';
             od_names := od_names od |})
  end.

(** [CString::new] refuses a NUL byte. *)
Fixpoint has_nul (s : string) : bool :=
  match s with
  | EmptyString => false
  | String c s => Ascii.eqb c Ascii.zero || has_nul s
  end.

(** ** Statements *)

Definition session_active (session now : Z) (od : OwnDb) : bool :=
  match db_client_sessions (od_db od) !! session with
  | Some expires => now <? expires
  | None => false
  end.

(** [DELETE ... WHERE lease_expires_at <= clock_timestamp()]. *)
Definition prune_lease (now : Z) (row : option WriteLeaseRow) : option WriteLeaseRow :=
  match row with
  | Some l => if wl_lease_expires_at l <=? now then None else Some l
  | None => None
  end.

(** [SELECT EXISTS (... lease_expires_at > clock_timestamp() AND NOT (session and owner))]. *)
Definition lease_conflict (session owner now : Z) (row : option WriteLeaseRow) : bool :=
  match row with
  | Some l => (now <? wl_lease_expires_at l) && negb ((wl_session_id l =? session) && (wl_owner_key l =? owner))
  | None => false
  end.

(** [INSERT ... ON CONFLICT DO UPDATE ... WHERE (same session and owner)
    RETURNING fencing_token]; without a returned row the caller fails. *)
Definition upsert_lease (session owner expires seq : Z) (row : option WriteLeaseRow)
    : outcome string (Z * WriteLeaseRow) :=
  match row with
  | None =>
      Ok (seq + 1, {| wl_session_id := session; wl_owner_key := owner; wl_fencing_token := seq + 1;
                      wl_lease_expires_at := expires |})
  | Some l =>
      if (wl_session_id l =? session) && (wl_owner_key l =? owner)
      then Ok (wl_fencing_token l, {| wl_session_id := wl_session_id l; wl_owner_key := wl_owner_key l;
                                      wl_fencing_token := wl_fencing_token l; wl_lease_expires_at := expires |})
      else Err "PostgreSQL scalar query returned no rows where one value was required"%string
  end.

(** [UPDATE ... WHERE fencing_token, session, owner AND lease_expires_at > now
    RETURNING fencing_token]. *)
Definition renew_lease (token session owner ttl now : Z) (row : option WriteLeaseRow) : option WriteLeaseRow :=
  match row with
  | Some l =>
      if (wl_fencing_token l =? token) && (wl_session_id l =? session) && (wl_owner_key l =? owner)
         && (now <? wl_lease_expires_at l)
      then Some {| wl_session_id := session; wl_owner_key := owner; wl_fencing_token := token;
                   wl_lease_expires_at := now + ttl |}
      else None
  | None => None
  end.

Definition put_destination (key : Z * string) (row : option WriteLeaseRow) (od : OwnDb) : OwnDb :=
  {| od_db := od_db od;
     od_destinations := partial_alter (fun _ => row) key (od_destinations od);
     od_destination_seq := od_destination_seq od; od_file_seq := od_file_seq od; od_names := od_names od |}.

Definition put_file_lease (file_id : Z) (row : option WriteLeaseRow) (od : OwnDb) : OwnDb :=
  {| od_db := set_file_leases (partial_alter (fun _ => row) file_id (db_file_write_leases (od_db od))) (od_db od);
     od_destinations := od_destinations od;
     od_destination_seq := od_destination_seq od; od_file_seq := od_file_seq od; od_names := od_names od |}.

Definition destination_row (key : Z * string) (od : OwnDb) : option WriteLeaseRow := od_destinations od !! key.
Definition file_row (file_id : Z) (od : OwnDb) : option WriteLeaseRow := db_file_write_leases (od_db od) !! file_id.

(** The sequences advance with every proposed row. *)
Definition bump_seqs (destination file : Z) (od : OwnDb) : OwnDb :=
  {| od_db := od_db od; od_destinations := od_destinations od;
     od_destination_seq := od_destination_seq od + destination; od_file_seq := od_file_seq od + file;
     od_names := od_names od |}.

(** ** Acquisition *)

Definition parent_key (parent_id : option Z) : Z := default 0 parent_id.

(** The file part of the checks: [true] is a conflict. *)
Definition check_file_lease (session owner : Z) (file_id : option Z) (t_prune t_conflict : Z) (od : OwnDb)
    : bool * OwnDb :=
  match file_id with
  | None => (false, od)
  | Some fid =>
      let row := prune_lease t_prune (file_row fid od) in
      (lease_conflict session owner t_conflict row, put_file_lease fid row od)
  end.

(** The upsert of the destination: the proposed row takes a number of the
    sequence, then the check on the length of the name and the unique index apply. *)
Definition upsert_destination (session owner ttl now : Z) (key : Z * string) (od : OwnDb)
    : outcome string Z * OwnDb :=
  let seq := od_destination_seq od in
  let od := bump_seqs 1 0 od in
  if 255 <? Z.of_nat (String.length key.2)
  then (Err "destination_write_leases_name_octet_length_check"%string, od)
  else match upsert_lease session owner (now + ttl) seq (destination_row key od) with
       | Ok (token, row) => (Ok token, put_destination key (Some row) od)
       | Err e => (Err e, od)
       | Panic => (Panic, od)
       end.

(** The upsert of the file; [file_id] references [files]. *)
Definition upsert_file (session owner ttl now file_id : Z) (od : OwnDb) : outcome string Z * OwnDb :=
  let seq := od_file_seq od in
  let od := bump_seqs 0 1 od in
  if negb (bool_decide (is_Some (db_files (od_db od) !! file_id)))
  then (Err "file_write_leases_file_id_fkey"%string, od)
  else match upsert_lease session owner (now + ttl) seq (file_row file_id od) with
       | Ok (token, row) => (Ok token, put_file_lease file_id (Some row) od)
       | Err e => (Err e, od)
       | Panic => (Panic, od)
       end.

Definition acquire_body (session : Z) (parent_id : option Z) (name : string) (file_id : option Z)
    (owner ttl : Z) (locked : bool) (clk : nat -> Z) (od : OwnDb)
    : outcome string (option WriteOwnershipLease) * OwnDb :=
  let key := (parent_key parent_id, name) in
  if negb locked then (Ok None, od)
  else if negb (session_active session (clk 0%nat) od)
  then (Err "write ownership client session is missing or expired"%string, od)
  else
    let destination := prune_lease (clk 1%nat) (destination_row key od) in
    let od := put_destination key destination od in
    if lease_conflict session owner (clk 2%nat) destination then (Ok None, od)
    else
      let '(conflict, od) := check_file_lease session owner file_id (clk 3%nat) (clk 4%nat) od in
      if conflict then (Ok None, od)
      else match upsert_destination session owner ttl (clk 5%nat) key od with
           | (Err e, od) => (Err e, od)
           | (Panic, od) => (Panic, od)
           | (Ok destination_token, od) =>
               match file_id with
               | None => (Ok (Some {| ol_destination_fencing_token := destination_token;
                                      ol_file_fencing_token := None |}), od)
               | Some fid =>
                   match upsert_file session owner ttl (clk 6%nat) fid od with
                   | (Err e, od) => (Err e, od)
                   | (Panic, od) => (Panic, od)
                   | (Ok file_token, od) =>
                       (Ok (Some {| ol_destination_fencing_token := destination_token;
                                    ol_file_fencing_token := Some file_token |}), od)
                   end
               end
           end.

(** [session] is the session id of the mount, [ttl] the lease time in the unit of
    the clock, [locked] whether the try-locks on the resources are granted. *)
Definition acquire_write_ownership (session : Z) (parent_id : option Z) (name : string) (file_id : option Z)
    (owner ttl : Z) (locked : bool) (clk : nat -> Z) (od : OwnDb)
    : outcome string (option WriteOwnershipLease) * OwnDb :=
  if String.eqb name EmptyString then (Err "write ownership destination name is empty"%string, od)
  else if bool_decide (parent_id = Some 0)
  then (Err "write ownership parent id 0 is reserved for the root namespace"%string, od)
  else if ttl =? 0 then (Err "write ownership lease ttl must be greater than zero"%string, od)
  else if session <=? 0
  then (Err "write ownership requires an active registered client session"%string, od)
  else if has_nul name then (Err "write ownership destination name contains NUL byte"%string, od)
  else own_transaction (acquire_body session parent_id name file_id owner ttl locked clk) od.

(** ** Heartbeats *)

(** The file lives on under another name, or without one. *)
Definition detached_file (file_id : Z) (key : Z * string) (od : OwnDb) : bool :=
  bool_decide (is_Some (db_files (od_db od) !! file_id)) && bool_decide (key ∉ default [] (od_names od !! file_id)).

Definition heartbeat_body (session : Z) (parent_id : option Z) (name : string) (file_id : option Z)
    (owner : Z) (lease : WriteOwnershipLease) (ttl : Z) (locked : bool) (clk : nat -> Z) (od : OwnDb)
    : outcome string bool * OwnDb :=
  let key := (parent_key parent_id, name) in
  if negb locked then (Ok false, od)
  else
    let renewed := renew_lease (ol_destination_fencing_token lease) session owner ttl (clk 0%nat) (destination_row key od) in
    let destination_active := bool_decide (is_Some renewed) in
    let od := if destination_active then put_destination key renewed od else od in
    match file_id, ol_file_fencing_token lease with
    | Some fid, Some token =>
        if negb destination_active && negb (detached_file fid key od) then (Ok false, od)
        else match renew_lease token session owner ttl (clk 1%nat) (file_row fid od) with
             | None => (Err "write ownership file lease disappeared during heartbeat"%string, od)
             | Some row => (Ok true, put_file_lease fid (Some row) od)
             end
    | _, _ => (Ok destination_active, od)
    end.

Definition heartbeat_write_ownership (session : Z) (parent_id : option Z) (name : string) (file_id : option Z)
    (owner : Z) (lease : WriteOwnershipLease) (ttl : Z) (locked : bool) (clk : nat -> Z) (od : OwnDb)
    : outcome string bool * OwnDb :=
  if String.eqb name EmptyString then (Err "write ownership destination name is empty"%string, od)
  else if bool_decide (parent_id = Some 0)
  then (Err "write ownership parent id 0 is reserved for the root namespace"%string, od)
  else if ttl =? 0 then (Err "write ownership lease ttl must be greater than zero"%string, od)
  else if bool_decide (is_Some file_id) && negb (bool_decide (is_Some (ol_file_fencing_token lease)))
          || negb (bool_decide (is_Some file_id)) && bool_decide (is_Some (ol_file_fencing_token lease))
  then (Err "write ownership file id/token presence mismatch"%string, od)
  else match validate_write_ownership_lease_tokens lease with
       | Err e => (Err e, od)
       | Panic => (Panic, od)
       | Ok tt =>
           if session <=? 0 then (Ok false, od)
           else if has_nul name then (Err "write ownership destination name contains NUL byte"%string, od)
           else own_transaction (heartbeat_body session parent_id name file_id owner lease ttl locked clk) od
       end.

Definition heartbeat_file_write_ownership (session file_id owner file_fencing_token ttl : Z) (locked : bool)
    (clk : nat -> Z) (od : OwnDb) : outcome string bool * OwnDb :=
  if ttl =? 0 then (Err "write ownership lease ttl must be greater than zero"%string, od)
  else if file_fencing_token =? 0 then (Err "write ownership fencing token must be positive"%string, od)
  else if session <=? 0 then (Ok false, od)
  else own_transaction (fun od =>
         if negb locked then (Ok false, od)
         else match renew_lease file_fencing_token session owner ttl (clk 0%nat) (file_row file_id od) with
              | None => (Ok false, od)
              | Some row => (Ok true, put_file_lease file_id (Some row) od)
              end) od.

(** ** Release *)

(** [DELETE ... WHERE fencing_token, session, owner], over the whole table. *)
Definition held_by (token session owner : Z) (l : WriteLeaseRow) : bool :=
  (wl_fencing_token l =? token) && (wl_session_id l =? session) && (wl_owner_key l =? owner).

Definition release_write_ownership (session owner : Z) (lease : WriteOwnershipLease) (od : OwnDb)
    : outcome string unit * OwnDb :=
  match validate_write_ownership_lease_tokens lease with
  | Err e => (Err e, od)
  | Panic => (Panic, od)
  | Ok tt =>
      if session <=? 0 then (Ok tt, od)
      else
        let db := od_db od in
        let db := match ol_file_fencing_token lease with
                  | None => db
                  | Some token =>
                      set_file_leases (filter (fun kl => held_by token session owner kl.2 = false)
                                         (db_file_write_leases db)) db
                  end in
        (Ok tt, {| od_db := db;
                   od_destinations := filter (fun kl => held_by (ol_destination_fencing_token lease) session owner kl.2 = false)
                                        (od_destinations od);
                   od_destination_seq := od_destination_seq od; od_file_seq := od_file_seq od;
                   od_names := od_names od |})
  end.

(** ** How leases evolve

    [lease_evolves]: a file lease found later is either newer than every token
    handed out before, or the continuation of the lease that was there, and it has
    been prolonged only if it had not expired. *)

Definition now_of (od : OwnDb) : Z := db_clock (od_db od).

Definition same_holder (l l' : WriteLeaseRow) : Prop :=
  wl_session_id l' = wl_session_id l /\ wl_owner_key l' = wl_owner_key l /\
  wl_fencing_token l' = wl_fencing_token l.

Definition continues (now : Z) (l l' : WriteLeaseRow) : Prop :=
  same_holder l l' /\ (wl_lease_expires_at l' = wl_lease_expires_at l \/ now < wl_lease_expires_at l).

Definition lease_evolves (od od' : OwnDb) : Prop :=
  od_file_seq od <= od_file_seq od' /\ now_of od <= now_of od' /\
  forall fid l', file_row fid od' = Some l' ->
    od_file_seq od < wl_fencing_token l' <= od_file_seq od' \/
    exists l, file_row fid od = Some l /\ continues (now_of od) l l'.

#[export] Instance lease_evolves_preorder : PreOrder lease_evolves.
Proof.
  split.
  - intros od. split; [lia|split; [lia|]]. intros fid l H. right. exists l. unfold continues, same_holder. auto.
  - intros a b c (S1 & C1 & R1) (S2 & C2 & R2). split; [lia|split; [lia|]].
    intros fid l'' H. destruct (R2 _ _ H) as [?|(l' & H' & (T1 & T2 & T3) & X')]; [left; lia|].
    destruct (R1 _ _ H') as [?|(l & H0 & (U1 & U2 & U3) & X)]; [left; lia|].
    right. exists l. split; [done|]. unfold continues, same_holder. split; [|lia]. split_and!; congruence.
Qed.

(** Clocks read within a transaction are not before its start. *)
Definition clock_from (od : OwnDb) (clk : nat -> Z) : Prop := forall k, now_of od <= clk k.

Lemma now_put_file fid row od : now_of (put_file_lease fid row od) = now_of od.
Proof. unfold now_of, put_file_lease. by destruct (od_db od). Qed.

Lemma file_row_put fid fid' row od :
  file_row fid' (put_file_lease fid row od) = if decide (fid' = fid) then row else file_row fid' od.
Proof.
  unfold file_row, put_file_lease. destruct (od_db od). cbn. case_decide; subst.
  - by rewrite lookup_partial_alter_eq.
  - by rewrite lookup_partial_alter_ne by done.
Qed.

Lemma file_row_bump a b fid od : file_row fid (bump_seqs a b od) = file_row fid od.
Proof. done. Qed.

Lemma evolves_put_destination key row od : lease_evolves od (put_destination key row od).
Proof. exact (reflexivity (R := lease_evolves) od). Qed.

Lemma evolves_bump a b od : 0 <= b -> lease_evolves od (bump_seqs a b od).
Proof.
  intros Hb. split; [cbn; lia|split; [done|]]. intros fid l H. right. exists l.
  unfold continues, same_holder. auto.
Qed.

(** Changing one lease. *)
Lemma evolves_put_file fid row od :
  (forall l', row = Some l' -> exists l, file_row fid od = Some l /\ continues (now_of od) l l') ->
  lease_evolves od (put_file_lease fid row od).
Proof.
  intros H. split; [done|split; [by rewrite now_put_file|]]. intros f l'. rewrite file_row_put. case_decide.
  - subst. intros E. right. by apply H.
  - intros E. right. exists l'. unfold continues, same_holder. auto.
Qed.

Lemma prune_lease_Some now row l : prune_lease now row = Some l -> row = Some l /\ now < wl_lease_expires_at l.
Proof. unfold prune_lease. destruct row as [l0|]; [|done]. destruct (Z.leb_spec (wl_lease_expires_at l0) now); naive_solver. Qed.

Lemma renew_lease_Some token session owner ttl now row l' :
  renew_lease token session owner ttl now row = Some l' ->
  exists l, row = Some l /\ same_holder l l' /\ now < wl_lease_expires_at l.
Proof.
  unfold renew_lease. destruct row as [l|]; [|done].
  destruct (Z.eqb_spec (wl_fencing_token l) token), (Z.eqb_spec (wl_session_id l) session),
    (Z.eqb_spec (wl_owner_key l) owner), (Z.ltb_spec now (wl_lease_expires_at l)); try done.
  intros [= <-]. exists l. unfold same_holder. cbn. auto.
Qed.

Lemma evolves_renew token session owner ttl now fid l' od :
  now_of od <= now -> renew_lease token session owner ttl now (file_row fid od) = Some l' ->
  lease_evolves od (put_file_lease fid (Some l') od).
Proof.
  intros Hn H. apply renew_lease_Some in H as (l & E & Hs & Hx). apply evolves_put_file.
  intros ? [= <-]. exists l. split; [done|]. split; [done|lia].
Qed.

Lemma evolves_check session owner file_id t1 t2 od :
  lease_evolves od (check_file_lease session owner file_id t1 t2 od).2.
Proof.
  unfold check_file_lease. destruct file_id as [fid|]; [|reflexivity]. apply evolves_put_file.
  intros l' H. apply prune_lease_Some in H as [H _]. exists l'. unfold continues, same_holder. auto.
Qed.

Lemma evolves_upsert_destination session owner ttl now key od :
  lease_evolves od (upsert_destination session owner ttl now key od).2.
Proof.
  unfold upsert_destination. destruct (255 <? _); [by apply evolves_bump|].
  destruct (upsert_lease _ _ _ _ _) as [[? ?]| |]; [|by apply evolves_bump..].
  exact (evolves_bump 1 0 od ltac:(lia)).
Qed.

Lemma upsert_lease_Ok session owner expires seq row token l' :
  upsert_lease session owner expires seq row = Ok (token, l') ->
  wl_session_id l' = session /\ wl_owner_key l' = owner /\ wl_fencing_token l' = token /\
  wl_lease_expires_at l' = expires /\
  match row with
  | None => token = seq + 1
  | Some l => same_holder l l'
  end.
Proof.
  unfold upsert_lease. destruct row as [l|].
  - destruct (Z.eqb_spec (wl_session_id l) session), (Z.eqb_spec (wl_owner_key l) owner); try done.
    intros [= <- <-]. unfold same_holder. cbn. auto 10.
  - intros [= <- <-]. cbn. auto 10.
Qed.

Lemma upsert_file_Ok session owner ttl now fid od token od' :
  upsert_file session owner ttl now fid od = (Ok token, od') ->
  exists row, od' = put_file_lease fid (Some row) (bump_seqs 0 1 od) /\
    upsert_lease session owner (now + ttl) (od_file_seq od) (file_row fid od) = Ok (token, row).
Proof.
  unfold upsert_file. destruct (negb _); [done|]. rewrite file_row_bump.
  destruct (upsert_lease _ _ _ _ _) as [[t row]| |]; [|done..]. intros [= <- <-]. eauto.
Qed.

Lemma evolves_upsert_file session owner ttl now fid od :
  (forall l, file_row fid od = Some l -> now_of od < wl_lease_expires_at l) ->
  lease_evolves od (upsert_file session owner ttl now fid od).2.
Proof.
  intros Hlive. pose proof (evolves_bump 0 1 od ltac:(lia)) as Hb.
  destruct (upsert_file session owner ttl now fid od) as [r od'] eqn:E. cbn [snd].
  destruct r as [token|e|].
  - apply upsert_file_Ok in E as (row & -> & U).
    apply upsert_lease_Ok in U as (_ & _ & Ht & _ & Hrow).
    split; [cbn; lia|split; [by rewrite now_put_file|]]. intros f l'. rewrite file_row_put.
    case_decide as Hf; [|intros; by apply Hb]. subst f. intros [= <-].
    destruct (file_row fid od) as [l|] eqn:El.
    + right. exists l. split; [done|]. split; [done|]. right. by apply Hlive.
    + left. cbn. lia.
  - unfold upsert_file in E. destruct (negb _); simplify_eq; [done|].
    destruct (upsert_lease _ _ _ _ _) as [[? ?]| |]; by simplify_eq.
  - unfold upsert_file in E. destruct (negb _); simplify_eq.
    destruct (upsert_lease _ _ _ _ _) as [[? ?]| |]; by simplify_eq.
Qed.

Lemma now_check session owner file_id t1 t2 od :
  now_of (check_file_lease session owner file_id t1 t2 od).2 = now_of od.
Proof. destruct file_id; [apply now_put_file|done]. Qed.

Lemma upsert_destination_frame session owner ttl now key od :
  let od' := (upsert_destination session owner ttl now key od).2 in
  od_db od' = od_db od /\ od_file_seq od' = od_file_seq od.
Proof.
  unfold upsert_destination. destruct (255 <? _); [split; [done|cbn; lia]|].
  destruct (upsert_lease _ _ _ _ _) as [[? ?]| |]; (split; [done|cbn; lia]).
Qed.

(** After the checks an entry for the file is unexpired at the start of the transaction. *)
Lemma check_file_live session owner fid t1 t2 od l :
  now_of od <= t1 -> file_row fid (check_file_lease session owner (Some fid) t1 t2 od).2 = Some l ->
  now_of od < wl_lease_expires_at l.
Proof.
  intros Ht. cbn [check_file_lease snd]. rewrite file_row_put. rewrite decide_True by done.
  intros Hl. apply prune_lease_Some in Hl as [_ Hl]. lia.
Qed.

Lemma evolves_acquire_body session parent_id name file_id owner ttl locked clk od :
  clock_from od clk ->
  lease_evolves od (acquire_body session parent_id name file_id owner ttl locked clk od).2.
Proof.
  intros Hclk. unfold acquire_body. destruct (negb locked); [reflexivity|].
  destruct (negb (session_active _ _ _)); [reflexivity|]. cbv zeta.
  set (od1 := put_destination _ _ od). assert (H1 : lease_evolves od od1) by apply evolves_put_destination.
  destruct (lease_conflict _ _ _ _); [done|].
  pose proof (evolves_check session owner file_id (clk 3%nat) (clk 4%nat) od1) as H2.
  pose proof (now_check session owner file_id (clk 3%nat) (clk 4%nat) od1) as N2.
  pose proof (fun fid l => check_file_live session owner fid (clk 3%nat) (clk 4%nat) od1 l (Hclk 3%nat)) as L2.
  destruct (check_file_lease session owner file_id _ _ od1) as [conflict od2] eqn:E2. cbn [snd] in *.
  assert (H02 : lease_evolves od od2) by (by etrans). destruct conflict; [done|].
  pose proof (evolves_upsert_destination session owner ttl (clk 5%nat) (parent_key parent_id, name) od2) as H3.
  pose proof (upsert_destination_frame session owner ttl (clk 5%nat) (parent_key parent_id, name) od2) as [D3 _].
  destruct (upsert_destination _ _ _ _ _ od2) as [[token| |] od3]; cbn [snd] in *; [|by etrans..].
  destruct file_id as [fid|]; [|by etrans].
  assert (H4 : lease_evolves od3 (upsert_file session owner ttl (clk 6%nat) fid od3).2).
  { apply evolves_upsert_file. intros l. unfold file_row, now_of. rewrite D3. fold (now_of od2). rewrite N2.
    intros Hl. apply (L2 fid). by rewrite E2. }
  destruct (upsert_file _ _ _ _ _ od3) as [[ftoken| |] od4]; cbn [snd] in *; (etrans; [exact H02|by etrans]).
Qed.

Lemma evolves_transaction {A} (body : OwnDb -> outcome string A * OwnDb) od :
  lease_evolves od (body od).2 -> lease_evolves od (own_transaction body od).2.
Proof.
  unfold own_transaction. destruct (body od) as [[a| |] od']; cbn [snd]; [done| |];
    intros (Hs & _); (split; [done|split; [done|]]; intros fid l H; right; exists l;
    unfold continues, same_holder; auto).
Qed.

Lemma evolves_acquire session parent_id name file_id owner ttl locked clk od :
  clock_from od clk ->
  lease_evolves od (acquire_write_ownership session parent_id name file_id owner ttl locked clk od).2.
Proof.
  intros H. unfold acquire_write_ownership. repeat (case_match; [reflexivity|]).
  by apply evolves_transaction, evolves_acquire_body.
Qed.

Lemma evolves_heartbeat_body session parent_id name file_id owner lease ttl locked clk od :
  clock_from od clk ->
  lease_evolves od (heartbeat_body session parent_id name file_id owner lease ttl locked clk od).2.
Proof.
  intros Hclk. unfold heartbeat_body. destruct (negb locked); [reflexivity|]. cbv zeta.
  set (od1 := if bool_decide _ then _ else od).
  assert (H1 : lease_evolves od od1) by (unfold od1; case_bool_decide; [apply evolves_put_destination|reflexivity]).
  assert (N1 : now_of od1 = now_of od) by (unfold od1; by case_bool_decide).
  destruct file_id as [fid|], (ol_file_fencing_token lease) as [token|]; try exact H1.
  destruct (_ && _); [exact H1|]. destruct (renew_lease token _ _ _ _ _) as [row|] eqn:E; [|exact H1].
  etrans; [exact H1|]. eapply evolves_renew; [|exact E]. rewrite N1. apply Hclk.
Qed.

Lemma evolves_heartbeat session parent_id name file_id owner lease ttl locked clk od :
  clock_from od clk ->
  lease_evolves od (heartbeat_write_ownership session parent_id name file_id owner lease ttl locked clk od).2.
Proof.
  intros H. unfold heartbeat_write_ownership. do 4 (case_match; [reflexivity|]).
  destruct (validate_write_ownership_lease_tokens lease) as [[]| |]; [|reflexivity..].
  do 2 (case_match; [reflexivity|]). by apply evolves_transaction, evolves_heartbeat_body.
Qed.

Lemma evolves_heartbeat_file session fid owner token ttl locked clk od :
  clock_from od clk ->
  lease_evolves od (heartbeat_file_write_ownership session fid owner token ttl locked clk od).2.
Proof.
  intros H. unfold heartbeat_file_write_ownership. do 3 (case_match; [reflexivity|]).
  apply evolves_transaction. destruct (negb locked); [reflexivity|].
  destruct (renew_lease _ _ _ _ _ _) as [row|] eqn:E; [|reflexivity].
  eapply evolves_renew; [apply (H 0%nat)|exact E].
Qed.

(** Rows may disappear (release, cascades) and the rest of the database may change. *)
Lemma evolves_subset od od' :
  db_file_write_leases (od_db od') ⊆ db_file_write_leases (od_db od) ->
  od_file_seq od' = od_file_seq od -> now_of od <= now_of od' -> lease_evolves od od'.
Proof.
  intros Hsub Hs Hn. split; [lia|split; [done|]]. intros fid l H. right. exists l.
  split; [by eapply lookup_weaken|]. unfold continues, same_holder. auto.
Qed.

Lemma evolves_release session owner lease od :
  lease_evolves od (release_write_ownership session owner lease od).2.
Proof.
  unfold release_write_ownership. destruct (validate_write_ownership_lease_tokens lease) as [[]| |]; [|reflexivity..].
  case_match; [reflexivity|]. apply evolves_subset; cbn [snd od_db od_file_seq]; [|done|].
  - case_match; [|done]. destruct (od_db od). cbn. apply map_filter_subseteq.
  - unfold now_of. cbn. case_match; [by destruct (od_db od)|done].
Qed.

(** ** Mounts at work

    The steps of all mounts on the shared database: the lease operations, persist
    requests, time, and whatever else deletes leases (cascades of sessions and
    files) or changes the other tables. *)

Definition with_db (db : Db) (od : OwnDb) : OwnDb :=
  {| od_db := db; od_destinations := od_destinations od; od_destination_seq := od_destination_seq od;
     od_file_seq := od_file_seq od; od_names := od_names od |}.

Inductive own_step : OwnDb -> OwnDb -> Prop :=
| own_acquire session parent_id name file_id owner ttl locked clk od :
    clock_from od clk ->
    own_step od (acquire_write_ownership session parent_id name file_id owner ttl locked clk od).2
| own_heartbeat session parent_id name file_id owner lease ttl locked clk od :
    clock_from od clk ->
    own_step od (heartbeat_write_ownership session parent_id name file_id owner lease ttl locked clk od).2
| own_heartbeat_file session fid owner token ttl locked clk od :
    clock_from od clk ->
    own_step od (heartbeat_file_write_ownership session fid owner token ttl locked clk od).2
| own_release session owner lease od :
    own_step od (release_write_ownership session owner lease od).2
| own_persist cfg r od :
    own_step od (with_db (persist_file_blocks cfg r (od_db od)).2 od)
| own_other od od' :
    db_file_write_leases (od_db od') ⊆ db_file_write_leases (od_db od) ->
    od_file_seq od' = od_file_seq od -> now_of od <= now_of od' -> own_step od od'.

Lemma persist_lease_view cfg r db : lease_view (persist_file_blocks cfg r db).2 = lease_view db.
Proof.
  unfold persist_file_blocks, transactional. destruct (persist_body cfg r db) as [[u db1]| |] eqn:E; [|done..].
  by eapply keeps_persist_body.
Qed.

Lemma own_step_evolves od od' : own_step od od' -> lease_evolves od od'.
Proof.
  destruct 1 as [| | | |cfg r od|].
  - by apply evolves_acquire.
  - by apply evolves_heartbeat.
  - by apply evolves_heartbeat_file.
  - apply evolves_release.
  - pose proof (persist_lease_view cfg r (od_db od)) as [= E1 _ E3].
    apply evolves_subset; cbn; [by rewrite E1|done|unfold now_of; cbn; lia].
  - by apply evolves_subset.
Qed.

Lemma own_steps_evolve od od' : rtc own_step od od' -> lease_evolves od od'.
Proof. induction 1; [reflexivity|]. etrans; [by apply own_step_evolves|done]. Qed.

(** A fence whose lease has been replaced, removed or has expired. *)
Definition fence_lost (fid : Z) (fence : WritePersistenceFence) (od : OwnDb) : Prop :=
  wf_file_fencing_token fence <= od_file_seq od /\
  forall l, file_row fid od = Some l ->
    wl_session_id l = wf_session_id fence -> wl_owner_key l = wf_owner_key fence ->
    wl_fencing_token l = wf_file_fencing_token fence -> wl_lease_expires_at l <= now_of od.

Lemma fence_lost_stable fid fence od od' : lease_evolves od od' -> fence_lost fid fence od -> fence_lost fid fence od'.
Proof.
  intros (Hs & Hn & Hr) [Ht Hl]. split; [lia|]. intros l' E S O T.
  destruct (Hr _ _ E) as [?|(l & E0 & (S1 & O1 & T1) & X)]; [lia|].
  assert (wl_lease_expires_at l <= now_of od) by (apply (Hl l); [done|congruence..]). lia.
Qed.

Lemma fence_lost_not_live fid fence od : fence_lost fid fence od -> fence_live (od_db od) fid fence = false.
Proof.
  intros [_ Hl]. unfold fence_live. fold (file_row fid od). destruct (file_row fid od) as [l|] eqn:E; [|done].
  specialize (Hl l eq_refl).
  destruct (Z.eqb_spec (wl_session_id l) (wf_session_id fence)), (Z.eqb_spec (wl_owner_key l) (wf_owner_key fence)),
    (Z.eqb_spec (wl_fencing_token l) (wf_file_fencing_token fence)); try done. cbn.
  rewrite (proj2 (Z.ltb_ge _ _)); [done|]. unfold now_of in Hl. auto.
Qed.

Lemma persist_rejects_dead cfg r fence db :
  pr_write_fence r = Some fence -> fence_live db (pr_file_id r) fence = false ->
  persist_file_blocks cfg r db = (Err fence_rejected, db).
Proof.
  intros Hf Hd. unfold persist_file_blocks, transactional, persist_body.
  fold (check_fence (pr_file_id r) (pr_write_fence r)). unfold mbind at 1, tx_bind at 1.
  destruct (check_fence_run (pr_file_id r) (pr_write_fence r) db) as [[_ Hm]| ->]; [|done].
  rewrite Hf in Hm. cbn in Hm. congruence.
Qed.

(** A granted request on a file leaves its own lease in the table. *)
Lemma acquire_granted session parent_id name fid owner ttl locked clk od lease od' :
  acquire_write_ownership session parent_id name (Some fid) owner ttl locked clk od = (Ok (Some lease), od') ->
  exists token l, ol_file_fencing_token lease = Some token /\ file_row fid od' = Some l /\
    wl_session_id l = session /\ wl_owner_key l = owner /\ wl_fencing_token l = token /\
    wl_lease_expires_at l = clk 6%nat + ttl.
Proof.
  unfold acquire_write_ownership. repeat (case_match; [done|]). unfold own_transaction.
  destruct (acquire_body _ _ _ _ _ _ _ _ od) as [r od1] eqn:E. destruct r as [o| |]; [|done..].
  intros [= -> ->]. revert E. unfold acquire_body. destruct (negb locked); [done|].
  destruct (negb (session_active _ _ _)); [done|]. cbv zeta. destruct (lease_conflict _ _ _ _); [done|].
  destruct (check_file_lease _ _ _ _ _ _) as [[] od2]; [done|].
  destruct (upsert_destination _ _ _ _ _ od2) as [[dtoken| |] od3]; [|done..].
  destruct (upsert_file session owner ttl (clk 6%nat) fid od3) as [[token| |] od4] eqn:U; [|done..].
  intros [= <- <-]. apply upsert_file_Ok in U as (row & -> & U).
  apply upsert_lease_Ok in U as (U1 & U2 & U3 & U4 & _). exists token, row.
  rewrite file_row_put, decide_True by done. auto 10.
Qed.

(** C6: Fencing of a replaced writer. A writer was granted the file; whatever the
    mounts did next, another owner was granted the file later; then, whatever the
    mounts do after that (heartbeats, re-acquisitions and releases of any owner
    included), no persist request that carries the first writer's token commits:
    it fails with the fence error and leaves the database as it is. *)
Theorem replaced_writer_never_commits cfg r fid s1 p1 n1 o1 ttl1 k1 clk1 lease1 token1
    s2 p2 n2 o2 ttl2 k2 clk2 lease2 od0 od1 od2 od3 od4 :
  (forall f l, file_row f od0 = Some l -> wl_fencing_token l <= od_file_seq od0) ->
  clock_from od0 clk1 -> clock_from od2 clk2 ->
  acquire_write_ownership s1 p1 n1 (Some fid) o1 ttl1 k1 clk1 od0 = (Ok (Some lease1), od1) ->
  ol_file_fencing_token lease1 = Some token1 ->
  rtc own_step od1 od2 ->
  acquire_write_ownership s2 p2 n2 (Some fid) o2 ttl2 k2 clk2 od2 = (Ok (Some lease2), od3) ->
  (s1, o1) <> (s2, o2) ->
  rtc own_step od3 od4 ->
  pr_file_id r = fid ->
  pr_write_fence r = Some {| wf_session_id := s1; wf_owner_key := o1; wf_file_fencing_token := token1 |} ->
  persist_file_blocks cfg r (od_db od4) = (Err fence_rejected, od_db od4).
Proof.
  intros Hseq Hc1 Hc2 A1 Ht H12 A2 Hne H34 Hid Hf.
  apply (persist_rejects_dead _ _ _ _ Hf). rewrite Hid. apply fence_lost_not_live.
  apply (fence_lost_stable _ _ od3); [by apply own_steps_evolve|].
  pose proof (evolves_acquire s1 p1 n1 (Some fid) o1 ttl1 k1 clk1 od0 Hc1) as E01. rewrite A1 in E01.
  pose proof (evolves_acquire s2 p2 n2 (Some fid) o2 ttl2 k2 clk2 od2 Hc2) as E23. rewrite A2 in E23.
  pose proof (own_steps_evolve _ _ H12) as E12. cbn [snd] in *.
  apply acquire_granted in A1 as (t & l1 & T1 & R1 & _ & _ & W1 & _). simplify_eq.
  apply acquire_granted in A2 as (t2 & l2 & _ & R2 & W2 & W3 & _). split; cbn.
  - destruct E01 as (S01 & _ & R01), E12 as (S12 & _), E23 as (S23 & _).
    destruct (R01 _ _ R1) as [?|(l & El & (_ & _ & Hl) & _)]; [lia|]. specialize (Hseq _ _ El). lia.
  - intros l El Es Eo. rewrite R2 in El. simplify_eq.
Qed.

(** *** What a request is answered *)

(** Until when somebody else's lease stands in the way; [None] for no row or one's own. *)
Definition held_until (session owner : Z) (row : option WriteLeaseRow) : option Z :=
  match row with
  | Some l => if (wl_session_id l =? session) && (wl_owner_key l =? owner) then None else Some (wl_lease_expires_at l)
  | None => None
  end.

Definition blocks_at (t : Z) (until : option Z) : bool :=
  match until with Some e => t <? e | None => false end.

Lemma conflict_after_prune session owner t1 t2 row :
  t1 <= t2 -> lease_conflict session owner t2 (prune_lease t1 row) = blocks_at t2 (held_until session owner row).
Proof.
  intros Ht. unfold lease_conflict, prune_lease, held_until, blocks_at. destruct row as [l|]; [|done].
  destruct (Z.leb_spec (wl_lease_expires_at l) t1) as [Hl|Hl].
  - destruct (_ && _); [done|]. symmetry. apply Z.ltb_ge. lia.
  - destruct ((wl_session_id l =? session) && _); cbn; [by rewrite andb_false_r|by rewrite andb_true_r].
Qed.

Lemma upsert_after_prune session owner expires seq t1 row :
  if blocks_at t1 (held_until session owner row)
  then upsert_lease session owner expires seq (prune_lease t1 row)
       = Err "PostgreSQL scalar query returned no rows where one value was required"%string
  else exists token l, upsert_lease session owner expires seq (prune_lease t1 row) = Ok (token, l).
Proof.
  unfold prune_lease, held_until, blocks_at, upsert_lease. destruct row as [l|]; [|eauto].
  destruct (Z.leb_spec (wl_lease_expires_at l) t1) as [Hl|Hl].
  - destruct (_ && _); [eauto|]. rewrite (proj2 (Z.ltb_ge _ _)) by lia. eauto.
  - destruct (_ && _); [eauto|]. by rewrite (proj2 (Z.ltb_lt _ _)) by lia.
Qed.

(** The arguments pass the checks made before the transaction, and the rows the
    request refers to exist. *)
Definition request_valid (session : Z) (parent_id : option Z) (name : string) (fid ttl : Z) (od : OwnDb) : bool :=
  negb (String.eqb name EmptyString) && negb (has_nul name) && negb (255 <? Z.of_nat (String.length name))
  && negb (bool_decide (parent_id = Some 0)) && negb (ttl =? 0) && (0 <? session)
  && bool_decide (is_Some (db_files (od_db od) !! fid)).

Lemma files_put_file f row od : db_files (od_db (put_file_lease f row od)) = db_files (od_db od).
Proof. unfold put_file_lease. by destruct (od_db od). Qed.

(** The lease operations leave files and sessions alone. *)
Definition own_frame (od : OwnDb) := (db_files (od_db od), db_client_sessions (od_db od)).

Lemma frame_put_file f row od : own_frame (put_file_lease f row od) = own_frame od.
Proof. unfold own_frame, put_file_lease. by destruct (od_db od). Qed.

Lemma frame_check session owner file_id t1 t2 od :
  own_frame (check_file_lease session owner file_id t1 t2 od).2 = own_frame od.
Proof. destruct file_id; [apply frame_put_file|done]. Qed.

Lemma frame_upsert_file session owner ttl now fid od :
  own_frame (upsert_file session owner ttl now fid od).2 = own_frame od.
Proof.
  unfold upsert_file. destruct (negb _); [done|].
  destruct (upsert_lease _ _ _ _ _) as [[? ?]| |]; [exact (frame_put_file fid _ (bump_seqs 0 1 od))|done..].
Qed.

Lemma frame_acquire session parent_id name file_id owner ttl locked clk od :
  own_frame (acquire_write_ownership session parent_id name file_id owner ttl locked clk od).2 = own_frame od.
Proof.
  unfold acquire_write_ownership. repeat (case_match; [done|]).
  assert (Hb : own_frame (acquire_body session parent_id name file_id owner ttl locked clk od).2 = own_frame od).
  { unfold acquire_body. destruct (negb locked); [done|]. destruct (negb (session_active _ _ _)); [done|]. cbv zeta.
    set (od1 := put_destination _ _ od). destruct (lease_conflict _ _ _ _); [done|].
    pose proof (frame_check session owner file_id (clk 3%nat) (clk 4%nat) od1) as F2.
    destruct (check_file_lease _ _ _ _ _ od1) as [[] od2]; [done|].
    pose proof (upsert_destination_frame session owner ttl (clk 5%nat) (parent_key parent_id, name) od2) as [F3 _].
    destruct (upsert_destination _ _ _ _ _ od2) as [[dt| |] od3]; cbn [snd] in *;
      unfold own_frame in *; rewrite ?F3; try done.
    destruct file_id as [fid|]; cbn [snd]; [|by rewrite F3].
    pose proof (frame_upsert_file session owner ttl (clk 6%nat) fid od3) as F4. unfold own_frame in F4.
    destruct (upsert_file _ _ _ _ _ od3) as [[ft| |] od4]; cbn [snd] in *; by rewrite F4, F3. }
  unfold own_transaction. by destruct (acquire_body _ _ _ _ _ _ _ _ od) as [[?| |] ?].
Qed.

(** A lease of the requester, for the requested time. *)
Definition granted_lease (session owner token expires : Z) (row : option WriteLeaseRow) : Prop :=
  exists l, row = Some l /\ held_until session owner (Some l) = None /\
    wl_fencing_token l = token /\ wl_lease_expires_at l = expires.

Lemma granted_upsert session owner expires seq row token l :
  upsert_lease session owner expires seq row = Ok (token, l) ->
  granted_lease session owner token expires (Some l).
Proof.
  intros U. apply upsert_lease_Ok in U as (A1 & A2 & A3 & A4 & _). exists l.
  unfold held_until. by rewrite A1, A2, !Z.eqb_refl.
Qed.

Lemma upsert_destination_run session owner ttl now t1 row key od :
  destination_row key od = prune_lease t1 row -> (255 <? Z.of_nat (String.length key.2)) = false ->
  if blocks_at t1 (held_until session owner row)
  then exists e od', upsert_destination session owner ttl now key od = (Err e, od')
  else exists token od', upsert_destination session owner ttl now key od = (Ok token, od') /\
    granted_lease session owner token (now + ttl) (destination_row key od') /\ od_db od' = od_db od.
Proof.
  intros Hr Hn. pose proof (upsert_after_prune session owner (now + ttl) (od_destination_seq od) t1 row) as U.
  unfold upsert_destination. rewrite Hn. change (destination_row key (bump_seqs 1 0 od)) with (destination_row key od).
  rewrite Hr. destruct (blocks_at _ _); [rewrite U; eauto|]. destruct U as (token & l & U). rewrite U.
  eexists _, _. split; [done|]. split; [|done]. unfold destination_row. cbn. rewrite lookup_partial_alter_eq.
  by eapply granted_upsert.
Qed.

Lemma upsert_file_run session owner ttl now t1 row fid od :
  file_row fid od = prune_lease t1 row -> bool_decide (is_Some (db_files (od_db od) !! fid)) = true ->
  if blocks_at t1 (held_until session owner row)
  then exists e od', upsert_file session owner ttl now fid od = (Err e, od')
  else exists token od', upsert_file session owner ttl now fid od = (Ok token, od') /\
    granted_lease session owner token (now + ttl) (file_row fid od') /\ od_destinations od' = od_destinations od.
Proof.
  intros Hr Hn. pose proof (upsert_after_prune session owner (now + ttl) (od_file_seq od) t1 row) as U.
  unfold upsert_file. change (od_db (bump_seqs 0 1 od)) with (od_db od). rewrite Hn, file_row_bump, Hr.
  cbn [negb]. destruct (blocks_at _ _); [rewrite U; eauto|]. destruct U as (token & l & U). rewrite U.
  eexists _, _. split; [done|]. split; [|done]. rewrite file_row_put, decide_True by done. by eapply granted_upsert.
Qed.

Lemma acquire_run session parent_id name fid owner ttl clk od :
  request_valid session parent_id name fid ttl od = true ->
  session_active session (clk 0%nat) od = true ->
  clk 1%nat <= clk 2%nat -> clk 3%nat <= clk 4%nat ->
  let key := (parent_key parent_id, name) in
  let hd := held_until session owner (destination_row key od) in
  let hf := held_until session owner (file_row fid od) in
  let '(res, od') := acquire_write_ownership session parent_id name (Some fid) owner ttl true clk od in
  if blocks_at (clk 2%nat) hd || blocks_at (clk 4%nat) hf then res = Ok None
  else if blocks_at (clk 1%nat) hd || blocks_at (clk 3%nat) hf
  then (exists e, res = Err e) /\ od_db od' = od_db od /\ od_destinations od' = od_destinations od
  else exists lease token, res = Ok (Some lease) /\ ol_file_fencing_token lease = Some token /\
    granted_lease session owner (ol_destination_fencing_token lease) (clk 5%nat + ttl) (destination_row key od') /\
    granted_lease session owner token (clk 6%nat + ttl) (file_row fid od').
Proof.
  intros Hv Hs H12 H34. cbv zeta. unfold request_valid in Hv. rewrite !andb_true_iff, !negb_true_iff in Hv.
  destruct Hv as ((((((V1 & V2) & V3) & V4) & V5) & V6) & V7). apply Z.ltb_lt in V6.
  unfold acquire_write_ownership. rewrite V1, V4, V5, V2, (proj2 (Z.leb_gt _ _)) by lia.
  unfold own_transaction, acquire_body. rewrite Hs. cbn [negb]. cbv zeta.
  set (key := (parent_key parent_id, name)).
  rewrite (conflict_after_prune _ _ _ _ _ H12).
  destruct (blocks_at (clk 2%nat) (held_until session owner (destination_row key od))) eqn:B2; [done|].
  cbn [check_file_lease orb]. set (od1 := put_destination key _ od).
  change (file_row fid od1) with (file_row fid od). rewrite (conflict_after_prune _ _ _ _ _ H34).
  destruct (blocks_at (clk 4%nat) (held_until session owner (file_row fid od))) eqn:B4; [done|].
  set (od2 := put_file_lease fid _ od1).
  assert (D2 : destination_row key od2 = prune_lease (clk 1%nat) (destination_row key od)).
  { unfold destination_row, od2, od1. cbn. by rewrite lookup_partial_alter_eq. }
  assert (F2 : file_row fid od2 = prune_lease (clk 3%nat) (file_row fid od)).
  { unfold od2. by rewrite file_row_put, decide_True by done. }
  pose proof (upsert_destination_run session owner ttl (clk 5%nat) _ _ key od2 D2 V3) as U.
  destruct (blocks_at (clk 1%nat) _); [destruct U as (e & od3 & ->); cbn; eauto|].
  destruct U as (dtoken & od3 & -> & G & E3).
  assert (F3 : file_row fid od3 = prune_lease (clk 3%nat) (file_row fid od)).
  { rewrite <- F2. unfold file_row. by rewrite E3. }
  assert (V3' : bool_decide (is_Some (db_files (od_db od3) !! fid)) = true).
  { rewrite E3. unfold od2. by rewrite files_put_file. }
  pose proof (upsert_file_run session owner ttl (clk 6%nat) _ _ fid od3 F3 V3') as U. cbn [orb].
  destruct (blocks_at (clk 3%nat) _); [destruct U as (e & od4 & ->); cbn; eauto|].
  destruct U as (ftoken & od4 & -> & G' & E4). eexists _, ftoken. split; [done|]. split; [done|].
  split; [|done]. cbn. unfold destination_row. rewrite E4. exact G.
Qed.

(** C17: The answer to a write-ownership request whose arguments are valid, whose
    try-locks are granted and whose session is alive. It is refused exactly if
    another owner's lease on the name or on the file is unexpired when it is looked
    for; it is granted if every such lease had expired when expired leases were
    deleted, and then the requester's own leases are in both tables for the
    requested time; in the gap, when a lease expires between the deletion and the
    look, the request fails with an error and no row changes. *)
Theorem acquire_answers session parent_id name fid owner ttl clk od :
  request_valid session parent_id name fid ttl od = true ->
  session_active session (clk 0%nat) od = true ->
  clk 1%nat <= clk 2%nat -> clk 3%nat <= clk 4%nat ->
  let key := (parent_key parent_id, name) in
  let hd := held_until session owner (destination_row key od) in
  let hf := held_until session owner (file_row fid od) in
  let '(res, od') := acquire_write_ownership session parent_id name (Some fid) owner ttl true clk od in
  if blocks_at (clk 2%nat) hd || blocks_at (clk 4%nat) hf then res = Ok None
  else if blocks_at (clk 1%nat) hd || blocks_at (clk 3%nat) hf
  then (exists e, res = Err e) /\ od_db od' = od_db od /\ od_destinations od' = od_destinations od
  else exists lease token, res = Ok (Some lease) /\ ol_file_fencing_token lease = Some token /\
    granted_lease session owner (ol_destination_fencing_token lease) (clk 5%nat + ttl) (destination_row key od') /\
    granted_lease session owner token (clk 6%nat + ttl) (file_row fid od').
Proof. exact (acquire_run session parent_id name fid owner ttl clk od). Qed.

(** ** Examples *)

(** Two mounts with live sessions; nobody holds a file yet. *)
Definition sample_own : OwnDb := {|
  od_db := set_file_leases ∅ (set_client_sessions (<[5 := 900]> (<[6 := 900]> ∅)) sample_db);
  od_destinations := ∅; od_destination_seq := 0; od_file_seq := 0;
  od_names := <[11 := [(0, "report"%string)]]> ∅ |}.

Definition at_time (t : Z) : nat -> Z := fun _ => t.

Definition tick_to (t : Z) (od : OwnDb) : OwnDb := with_db (set_clock t (od_db od)) od.

Definition sample_lease : WriteOwnershipLease :=
  {| ol_destination_fencing_token := 1; ol_file_fencing_token := Some 1 |}.

(** Session 5 takes the file at 100 for 30; session 6 takes it at 200. *)
Definition sample_own1 : OwnDb :=
  (acquire_write_ownership 5 None "report"%string (Some 11) 1 30 true (at_time 100) sample_own).2.
Definition sample_own2 : OwnDb := tick_to 200 sample_own1.
Definition sample_own3 : OwnDb :=
  (acquire_write_ownership 6 None "report"%string (Some 11) 1 30 true (at_time 200) sample_own2).2.

(** The first mount wakes up and sends a heartbeat. *)
Definition sample_own4 : OwnDb :=
  (heartbeat_file_write_ownership 5 11 1 1 30 true (at_time 210) sample_own3).2.

Definition sample_stale : WritePersistenceFence :=
  {| wf_session_id := 5; wf_owner_key := 1; wf_file_fencing_token := 1 |}.

Lemma replaced_writer_never_commits_witness :
  persist_file_blocks sample_cfg (sample_request 11 (Some sample_stale)) (od_db sample_own4)
  = (Err fence_rejected, od_db sample_own4).
Proof.
  refine (replaced_writer_never_commits sample_cfg (sample_request 11 (Some sample_stale)) 11
    5 None "report"%string 1 30 true (at_time 100) sample_lease 1
    6 None "report"%string 1 30 true (at_time 200) {| ol_destination_fencing_token := 2; ol_file_fencing_token := Some 2 |}
    sample_own sample_own1 sample_own2 sample_own3 sample_own4 _ _ _ _ _ _ _ _ _ _ _).
  - intros f l. unfold file_row. cbn. by rewrite lookup_empty.
  - intros k. vm_compute. discriminate.
  - intros k. vm_compute. discriminate.
  - vm_compute. reflexivity.
  - reflexivity.
  - apply rtc_once, own_other; [exact (reflexivity (R := (⊆)) _)|reflexivity|vm_compute; discriminate].
  - vm_compute. reflexivity.
  - discriminate.
  - apply rtc_once, own_heartbeat_file. intros k. vm_compute. discriminate.
  - reflexivity.
  - reflexivity.
Defined.

(** A lease that ends at 130, looked at with deletion at 129 and checks at 131:
    the request falls into the gap. *)
Definition gap_clock (k : nat) : Z := if decide (k <= 3)%nat then 129 else 131.

Lemma acquire_answers_witness :
  (exists e, (acquire_write_ownership 6 None "other"%string (Some 11) 1 30 true gap_clock sample_own1).1 = Err e) /\
  (exists lease, (acquire_write_ownership 6 None "other"%string (Some 11) 1 30 true (at_time 130) sample_own1).1
                 = Ok (Some lease)) /\
  (acquire_write_ownership 6 None "other"%string (Some 11) 1 30 true (at_time 129) sample_own1).1 = Ok None.
Proof.
  split_and!.
  - pose proof (acquire_answers 6 None "other"%string 11 1 30 gap_clock sample_own1 eq_refl eq_refl
      ltac:(vm_compute; discriminate) ltac:(vm_compute; discriminate)) as H.
    destruct (acquire_write_ownership _ _ _ _ _ _ _ _ _) as [res od']. apply H.
  - pose proof (acquire_answers 6 None "other"%string 11 1 30 (at_time 130) sample_own1 eq_refl eq_refl
      ltac:(vm_compute; discriminate) ltac:(vm_compute; discriminate)) as H.
    destruct (acquire_write_ownership _ _ _ _ _ _ _ _ _) as [res od']. destruct H as (lease & ? & -> & _). by exists lease.
  - pose proof (acquire_answers 6 None "other"%string 11 1 30 (at_time 129) sample_own1 eq_refl eq_refl
      ltac:(vm_compute; discriminate) ltac:(vm_compute; discriminate)) as H.
    destruct (acquire_write_ownership _ _ _ _ _ _ _ _ _) as [res od']. apply H.
Defined.
