(* ===== verification/OwnershipHandles.v ===== *)
(** * Write ownership of handles

    Model of the handle table of src/rust_fuse/src/fs.rs as far as it concerns
    write ownership: opening a file for writing
    ([create_writable_handle_with_ownership]), the release of the ownership by the
    last handle, the removal of a handle and the heartbeat of all ownerships; with
    the file-open leases of src/rust_hotpath/src/pg.rs they register. Resolving the
    path of the file is namespace code that is not modelled: its result is an
    argument. Mutexes are never poisoned here. *)

From stdpp Require Import prelude list numbers gmap strings relations.
From Stdlib Require Import ZArith Lia.
From S2P Require Import Prelude Errno BlockStore StoreSafety WriteOwnership.

#[local] Open Scope Z_scope.
Set Default Proof Using "Type".

(** ** State *)

Record FileWriteOwnership := {
  ow_parent_id : option Z;
  ow_name : string;
  ow_file_id : Z;
  ow_owner_key : Z;
  ow_lease : WriteOwnershipLease;
  ow_destination_released : bool;
}.

(** The fields of [FileHandleState] that ownership concerns. *)
Record FileHandleState := {
  fhs_path : string;
  fhs_file_id : option Z;
  fhs_flags : Z;
  fhs_write_ownership : option FileWriteOwnership;
}.

Record OwnMount := {
  om_session_id : option Z;
  om_degraded_read_only : bool;
  om_lease_ttl : Z;
  om_next_fh : Z;
  om_fh_table : gmap Z FileHandleState;
  om_write_states : gset Z;
  om_operation_locks : gset Z;
}.

(** The shared database: the leases of WriteOwnership.v, the unlinked files and
    [file_open_leases], by session and handle: file and expiry. *)
Record OpenDb := {
  op_own : OwnDb;
  op_unlinked : gset Z;
  op_open_leases : gmap (Z * Z) (Z * Z);
}.

Definition with_own (own : OwnDb) (db : OpenDb) : OpenDb :=
  {| op_own := own; op_unlinked := op_unlinked db; op_open_leases := op_open_leases db |}.
Definition with_open_leases (ls : gmap (Z * Z) (Z * Z)) (db : OpenDb) : OpenDb :=
  {| op_own := op_own db; op_unlinked := op_unlinked db; op_open_leases := ls |}.
Definition with_fh_table (t : gmap Z FileHandleState) (m : OwnMount) : OwnMount :=
  {| om_session_id := om_session_id m; om_degraded_read_only := om_degraded_read_only m;
     om_lease_ttl := om_lease_ttl m; om_next_fh := om_next_fh m; om_fh_table := t;
     om_write_states := om_write_states m; om_operation_locks := om_operation_locks m |}.

(** ** File-open leases *)

Definition linked_file (file_id : Z) (db : OpenDb) : bool :=
  bool_decide (is_Some (db_files (od_db (op_own db)) !! file_id)) && bool_decide (file_id ∉ op_unlinked db).

(** [clk 7] is the time of the insertion, [clk 8] of the query for the reason. *)
Definition register_file_open_lease (file_id session_id handle_id ttl : Z) (clk : nat -> Z) (db : OpenDb)
    : outcome string unit * OpenDb :=
  if ttl =? 0 then (Err "file open lease ttl must be greater than zero"%string, db)
  else if session_active session_id (clk 7%nat) (op_own db) && linked_file file_id db
  then (Ok tt, with_open_leases (<[(session_id, handle_id) := (file_id, clk 7%nat + ttl)]> (op_open_leases db)) db)
  else if negb (session_active session_id (clk 8%nat) (op_own db)) then (Err "FOD_OPEN_SESSION_INVALID"%string, db)
  else if negb (linked_file file_id db) then (Err "FOD_OPEN_FILE_UNAVAILABLE"%string, db)
  else (Err "FOD_OPEN_LEASE_INCONSISTENT"%string, db).

Definition release_file_open_lease (session_id handle_id : Z) (db : OpenDb) : OpenDb :=
  with_open_leases (delete (session_id, handle_id) (op_open_leases db)) db.

(** One statement; a statement that calls the clock several times reads [now]. *)
Definition heartbeat_file_open_leases (session_id ttl now : Z) (db : OpenDb) : outcome string unit * OpenDb :=
  if ttl =? 0 then (Err "file open lease ttl must be greater than zero"%string, db)
  else (Ok tt, with_open_leases
                 (map_imap (fun k l => Some (if (k.1 =? session_id) && (now <? l.2) then (l.1, now + ttl) else l))
                    (op_open_leases db)) db).

Definition has_active_file_open_leases (file_id now : Z) (db : OpenDb) : bool :=
  existsb (fun kl => (kl.2.1 =? file_id) && (now <? kl.2.2) && session_active kl.1.1 now (op_own db))
    (map_to_list (op_open_leases db)).

Definition register_file_open_lease_for_handle (m : OwnMount) (fh file_id : Z) (clk : nat -> Z) (db : OpenDb)
    : outcome Z unit * OpenDb :=
  if om_degraded_read_only m then (Ok tt, db)
  else match om_session_id m with
       | None => (Err EIO, db)
       | Some session_id =>
           match register_file_open_lease file_id session_id fh (om_lease_ttl m) clk db with
           | (Ok tt, db') => (Ok tt, db')
           | (Err err, db') => (Err (open_lease_errno err), db')
           | (Panic, db') => (Panic, db')
           end
       end.

(** ** Handles *)

(** [next_fh] is a [u64] that wraps. *)
Definition next_handle (m : OwnMount) : Z * OwnMount :=
  (om_next_fh m,
   {| om_session_id := om_session_id m; om_degraded_read_only := om_degraded_read_only m;
      om_lease_ttl := om_lease_ttl m; om_next_fh := (om_next_fh m + 1) mod 2 ^ 64;
      om_fh_table := om_fh_table m; om_write_states := om_write_states m;
      om_operation_locks := om_operation_locks m |}).

Definition insert_handle_for_file (fh : Z) (path : string) (file_id : option Z) (flags : Z)
    (write_ownership : option FileWriteOwnership) (m : OwnMount) : OwnMount :=
  with_fh_table (<[fh := {| fhs_path := path; fhs_file_id := file_id; fhs_flags := flags;
                            fhs_write_ownership := write_ownership |}]> (om_fh_table m)) m.

Definition state_ownership_of (file_id : Z) (state : FileHandleState) : option FileWriteOwnership :=
  if bool_decide (fhs_file_id state = Some file_id) then fhs_write_ownership state else None.

(** The first ownership found; the order of a [HashMap] is not specified. *)
Definition local_write_ownership_for_file (file_id : Z) (m : OwnMount) : option FileWriteOwnership :=
  head (omap (fun kv => state_ownership_of file_id kv.2) (map_to_list (om_fh_table m))).

Definition write_persistence_fence_for_handle (m : OwnMount) (fh : Z) : option (Z * WritePersistenceFence) :=
  session_id ← om_session_id m;
  state ← om_fh_table m !! fh;
  ownership ← fhs_write_ownership state;
  file_fencing_token ← ol_file_fencing_token (ow_lease ownership);
  Some (ow_file_id ownership,
        {| wf_session_id := session_id; wf_owner_key := ow_owner_key ownership;
           wf_file_fencing_token := file_fencing_token |}).

(** [resource] is what [write_ownership_resource_for_path] returns for the path. *)
Definition create_writable_handle_with_ownership (path : string) (file_id flags : Z)
    (resource : outcome Z (option Z * string)) (locked : bool) (clk : nat -> Z) (m : OwnMount) (db : OpenDb)
    : outcome Z Z * OwnMount * OpenDb :=
  let '(fh, m) := next_handle m in
  match local_write_ownership_for_file file_id m with
  | Some ownership =>
      match register_file_open_lease_for_handle m fh file_id clk db with
      | (Ok tt, db) => (Ok fh, insert_handle_for_file fh path (Some file_id) flags (Some ownership) m, db)
      | (Err e, db) => (Err e, m, db)
      | (Panic, db) => (Panic, m, db)
      end
  | None =>
      match om_session_id m with
      | None => (Err EIO, m, db)
      | Some session =>
          match resource with
          | Err e => (Err e, m, db)
          | Panic => (Panic, m, db)
          | Ok (parent_id, name) =>
              let owner_key := fh in
              match acquire_write_ownership session parent_id name (Some file_id) owner_key (om_lease_ttl m)
                      locked clk (op_own db) with
              | (Ok None, own) => (Err EBUSY, m, with_own own db)
              | (Err _, own) => (Err EIO, m, with_own own db)
              | (Panic, own) => (Panic, m, with_own own db)
              | (Ok (Some lease), own) =>
                  match register_file_open_lease_for_handle m fh file_id clk (with_own own db) with
                  | (Err e, db) =>
                      (Err e, m, with_own (release_write_ownership session owner_key lease (op_own db)).2 db)
                  | (Panic, db) => (Panic, m, db)
                  | (Ok tt, db) =>
                      let ownership := {| ow_parent_id := parent_id; ow_name := name; ow_file_id := file_id;
                                          ow_owner_key := owner_key; ow_lease := lease;
                                          ow_destination_released := false |} in
                      (Ok fh, insert_handle_for_file fh path (Some file_id) flags (Some ownership) m, db)
                  end
              end
          end
      end
  end.

Definition shared_locally (fh : Z) (ownership : FileWriteOwnership) (m : OwnMount) : bool :=
  existsb (fun kv => negb (kv.1 =? fh) &&
             match fhs_write_ownership kv.2 with
             | Some other => ow_owner_key other =? ow_owner_key ownership
             | None => false
             end) (map_to_list (om_fh_table m)).

(** The repository uses the session of the mount; without one it has session 0. *)
Definition release_write_ownership_for_handle (fh : Z) (m : OwnMount) (db : OpenDb) : outcome Z unit * OpenDb :=
  match (state ← om_fh_table m !! fh; fhs_write_ownership state) with
  | None => (Ok tt, db)
  | Some ownership =>
      if shared_locally fh ownership m then (Ok tt, db)
      else match release_write_ownership (default 0 (om_session_id m)) (ow_owner_key ownership) (ow_lease ownership)
                   (op_own db) with
           | (Ok tt, own) => (Ok tt, with_own own db)
           | (Err _, own) => (Err EIO, with_own own db)
           | (Panic, own) => (Panic, with_own own db)
           end
  end.

Definition mark_unlink_destination_released (file_id : Z) (parent_id : option Z) (name : string) (m : OwnMount)
    : OwnMount :=
  with_fh_table
    ((fun state =>
        match fhs_write_ownership state with
        | Some o =>
            if bool_decide (fhs_file_id state = Some file_id) && bool_decide (ow_parent_id o = parent_id)
               && String.eqb (ow_name o) name
            then {| fhs_path := fhs_path state; fhs_file_id := fhs_file_id state; fhs_flags := fhs_flags state;
                    fhs_write_ownership :=
                      Some {| ow_parent_id := ow_parent_id o; ow_name := ow_name o; ow_file_id := ow_file_id o;
                              ow_owner_key := ow_owner_key o; ow_lease := ow_lease o;
                              ow_destination_released := true |} |}
            else state
        | None => state
        end) <$> om_fh_table m) m.

(** Without the clean-up of the inode caches. *)
Definition take_handle_state (fh : Z) (m : OwnMount) (db : OpenDb) : option FileHandleState * OwnMount * OpenDb :=
  let removed_state := om_fh_table m !! fh in
  let m' := {| om_session_id := om_session_id m; om_degraded_read_only := om_degraded_read_only m;
               om_lease_ttl := om_lease_ttl m; om_next_fh := om_next_fh m;
               om_fh_table := delete fh (om_fh_table m);
               om_write_states := om_write_states m ∖ {[fh]};
               om_operation_locks := om_operation_locks m ∖ {[fh]} |} in
  match (state ← removed_state; fhs_file_id state), om_session_id m with
  | Some _, Some session_id => (removed_state, m', release_file_open_lease session_id fh db)
  | _, _ => (removed_state, m', db)
  end.

(** ** Heartbeat *)

(** The ownerships of the table, one per owner key. *)
Fixpoint distinct_owners (seen : list Z) (os : list FileWriteOwnership) : list FileWriteOwnership :=
  match os with
  | [] => []
  | o :: os =>
      if bool_decide (ow_owner_key o ∈ seen) then distinct_owners seen os
      else o :: distinct_owners (ow_owner_key o :: seen) os
  end.

Definition heartbeat_ownership (session ttl : Z) (locked : bool) (clk : nat -> Z) (o : FileWriteOwnership) (own : OwnDb)
    : outcome string bool * OwnDb :=
  if ow_destination_released o
  then match ol_file_fencing_token (ow_lease o) with
       | Some token => heartbeat_file_write_ownership session (ow_file_id o) (ow_owner_key o) token ttl locked clk own
       | None => (Err "deferred unlink writer is missing file fencing token"%string, own)
       end
  else heartbeat_write_ownership session (ow_parent_id o) (ow_name o) (Some (ow_file_id o)) (ow_owner_key o)
         (ow_lease o) ttl locked clk own.

(** [env] gives the lock answer and the clock of each call; the result is [failed]. *)
Fixpoint heartbeat_ownerships (session ttl : Z) (env : nat -> bool * (nat -> Z)) (k : nat)
    (os : list FileWriteOwnership) (failed : bool) (own : OwnDb) : bool * OwnDb :=
  match os with
  | [] => (failed, own)
  | o :: os =>
      let '(r, own) := heartbeat_ownership session ttl (env k).1 (env k).2 o own in
      let failed := match r with Ok true => failed | _ => true end in
      heartbeat_ownerships session ttl env (S k) os failed own
  end.

Definition heartbeat_active_write_ownerships (ttl : Z) (env : nat -> bool * (nat -> Z)) (m : OwnMount) (own : OwnDb)
    : bool * OwnDb :=
  let ownerships := distinct_owners [] (omap (fun kv => fhs_write_ownership kv.2) (map_to_list (om_fh_table m))) in
  heartbeat_ownerships (default 0 (om_session_id m)) ttl env 0 ownerships false own.

(** ** One ownership per file and mount *)

(** All handles of a file that have an ownership have the same one. *)
Definition one_ownership (m : OwnMount) : Prop :=
  forall fh1 fh2 s1 s2 fid o1 o2,
    om_fh_table m !! fh1 = Some s1 -> om_fh_table m !! fh2 = Some s2 ->
    fhs_file_id s1 = Some fid -> fhs_file_id s2 = Some fid ->
    fhs_write_ownership s1 = Some o1 -> fhs_write_ownership s2 = Some o2 -> o1 = o2.

(** The steps of the threads of one mount on its handle table; each holds the
    mutexes it needs, so that they interleave in any order. In particular the
    release of the ownership and the removal of the handle are two steps. *)
Inductive mount_step : OwnMount * OpenDb -> OwnMount * OpenDb -> Prop :=
| ms_open path file_id flags resource locked clk m db :
    mount_step (m, db)
      (let '(_, m', db') := create_writable_handle_with_ownership path file_id flags resource locked clk m db in (m', db'))
| ms_release fh m db : mount_step (m, db) (m, (release_write_ownership_for_handle fh m db).2)
| ms_take fh m db :
    mount_step (m, db) (let '(_, m', db') := take_handle_state fh m db in (m', db'))
| ms_unlink file_id parent_id name m db :
    mount_step (m, db) (mark_unlink_destination_released file_id parent_id name m, db)
| ms_database m db db' : mount_step (m, db) (m, db').

Lemma local_ownership_Some file_id m o :
  local_write_ownership_for_file file_id m = Some o ->
  exists fh s, om_fh_table m !! fh = Some s /\ fhs_file_id s = Some file_id /\ fhs_write_ownership s = Some o.
Proof.
  unfold local_write_ownership_for_file. intros H. apply head_Some_elem_of in H.
  apply list_elem_of_omap in H as ([fh s] & Hin & Ho). apply elem_of_map_to_list in Hin.
  unfold state_ownership_of in Ho. case_bool_decide; [|done]. eauto.
Qed.

Lemma local_ownership_None file_id m :
  local_write_ownership_for_file file_id m = None ->
  forall fh s, om_fh_table m !! fh = Some s -> fhs_file_id s = Some file_id -> fhs_write_ownership s = None.
Proof.
  unfold local_write_ownership_for_file. intros H fh s Hs Hf. apply head_None in H.
  destruct (fhs_write_ownership s) as [o|] eqn:Ho; [|done].
  assert (Hin : o ∈ omap (fun kv => state_ownership_of file_id kv.2) (map_to_list (om_fh_table m))).
  { apply list_elem_of_omap. exists (fh, s). split; [by apply elem_of_map_to_list|].
    unfold state_ownership_of. by rewrite bool_decide_eq_true_2. }
  rewrite H in Hin. by apply not_elem_of_nil in Hin.
Qed.

(** Inserting a handle that agrees with the others of its file. *)
Lemma one_ownership_insert fh path file_id flags o m :
  one_ownership m ->
  (forall fh' s o', om_fh_table m !! fh' = Some s -> fhs_file_id s = Some file_id ->
                    fhs_write_ownership s = Some o' -> o' = o) ->
  one_ownership (insert_handle_for_file fh path (Some file_id) flags (Some o) m).
Proof.
  intros Hone Ho fh1 fh2 s1 s2 fid o1 o2 H1 H2 F1 F2 O1 O2. cbn in H1, H2.
  apply lookup_insert_Some in H1 as [[_ <-]|[_ H1]], H2 as [[_ <-]|[_ H2]]; cbn in *; simplify_eq.
  - done.
  - symmetry. by eapply Ho.
  - by eapply Ho.
  - exact (Hone fh1 fh2 s1 s2 fid o1 o2 H1 H2 F1 F2 O1 O2).
Qed.

Lemma one_ownership_open path file_id flags resource locked clk m db :
  one_ownership m ->
  one_ownership (create_writable_handle_with_ownership path file_id flags resource locked clk m db).1.2.
Proof.
  intros Hone. unfold create_writable_handle_with_ownership. cbn [next_handle].
  set (m1 := {| om_session_id := _ |}). assert (Hone1 : one_ownership m1) by exact Hone.
  destruct (local_write_ownership_for_file file_id m1) as [o|] eqn:L.
  - apply local_ownership_Some in L as (fh0 & s0 & H0 & F0 & O0).
    destruct (register_file_open_lease_for_handle _ _ _ _ _) as [[[]| |] db1]; [|done..].
    apply one_ownership_insert; [done|]. intros fh' s o' H F O. exact (Hone1 fh' fh0 s s0 file_id o' o H H0 F F0 O O0).
  - pose proof (local_ownership_None _ _ L) as HN.
    destruct (om_session_id m1); [|done]. destruct resource as [[parent_id name]| |]; [|done..].
    destruct (acquire_write_ownership _ _ _ _ _ _ _ _ _) as [[[lease|]| |] own]; [|done..].
    destruct (register_file_open_lease_for_handle _ _ _ _ _) as [[[]| |] db1]; [|done..].
    apply one_ownership_insert; [done|]. intros fh' s o' H F O. by rewrite (HN fh' s H F) in O.
Qed.

Lemma one_ownership_mark file_id parent_id name m :
  one_ownership m -> one_ownership (mark_unlink_destination_released file_id parent_id name m).
Proof.
  intros Hone fh1 fh2 s1 s2 fid o1 o2 H1 H2 F1 F2 O1 O2. cbn in H1, H2.
  apply lookup_fmap_Some in H1 as (t1 & <- & H1), H2 as (t2 & <- & H2).
  pose proof (Hone fh1 fh2 t1 t2 fid) as Hq.
  destruct (fhs_write_ownership t1) as [q1|] eqn:Q1; [|congruence].
  destruct (fhs_write_ownership t2) as [q2|] eqn:Q2; [|congruence].
  assert (F1' : fhs_file_id t1 = Some fid) by (clear -F1; by case_match).
  assert (F2' : fhs_file_id t2 = Some fid) by (clear -F2; by case_match).
  specialize (Hq q1 q2 H1 H2 F1' F2' eq_refl eq_refl). subst q2.
  rewrite F1' in O1. rewrite F2' in O2. clear -O1 O2 Q1 Q2. case_match; cbn in *; congruence.
Qed.

Lemma one_ownership_step c c' : mount_step c c' -> one_ownership c.1 -> one_ownership c'.1.
Proof.
  destruct 1 as [path file_id flags resource locked clk m db| |fh m db| |]; cbn [fst]; intros Hone; try done.
  - pose proof (one_ownership_open path file_id flags resource locked clk m db Hone) as H.
    by destruct (create_writable_handle_with_ownership _ _ _ _ _ _ _ _) as [[? ?] ?].
  - intros fh1 fh2 s1 s2 fid o1 o2. unfold take_handle_state.
    destruct (om_fh_table m !! fh) as [s|]; cbn; [destruct (fhs_file_id s), (om_session_id m); cbn|];
      rewrite !lookup_delete_Some; intros [_ H1] [_ H2]; exact (Hone fh1 fh2 s1 s2 fid o1 o2 H1 H2).
  - by apply one_ownership_mark.
Qed.


(** ** Handing a file over *)

(** The lease rows an ownership of session [session] refers to. *)
Definition owns_rows (session : Z) (o : FileWriteOwnership) (own : OwnDb) : Prop :=
  exists ld lf token,
    destination_row (parent_key (ow_parent_id o), ow_name o) own = Some ld /\
    file_row (ow_file_id o) own = Some lf /\
    ol_file_fencing_token (ow_lease o) = Some token /\
    held_by (ol_destination_fencing_token (ow_lease o)) session (ow_owner_key o) ld = true /\
    held_by token session (ow_owner_key o) lf = true /\
    ol_destination_fencing_token (ow_lease o) <> 0 /\ token <> 0.

Lemma release_frees session o own :
  0 < session -> owns_rows session o own ->
  exists own', release_write_ownership session (ow_owner_key o) (ow_lease o) own = (Ok tt, own') /\
    destination_row (parent_key (ow_parent_id o), ow_name o) own' = None /\ file_row (ow_file_id o) own' = None /\
    db_files (od_db own') = db_files (od_db own) /\ db_client_sessions (od_db own') = db_client_sessions (od_db own).
Proof.
  intros Hs (ld & lf & token & D & F & T & HD & HF & Nd & Nt).
  unfold release_write_ownership, validate_write_ownership_lease_tokens. rewrite T.
  rewrite (proj2 (Z.eqb_neq _ _) Nd), bool_decide_eq_false_2 by congruence. cbn [orb].
  rewrite (proj2 (Z.leb_gt _ _)) by lia. eexists. split; [reflexivity|].
  unfold destination_row, file_row in *. cbn. destruct (od_db own). cbn in *.
  split; [|split; [|done]].
  - apply map_lookup_filter_None. right. intros l. rewrite D. intros [= <-]. cbn. congruence.
  - apply map_lookup_filter_None. right. intros l. rewrite F. intros [= <-]. cbn. congruence.
Qed.

(** A request on resources nobody holds is granted. *)
Lemma acquire_free session parent_id name fid owner ttl clk own :
  request_valid session parent_id name fid ttl own = true ->
  session_active session (clk 0%nat) own = true -> clk 1%nat <= clk 2%nat -> clk 3%nat <= clk 4%nat ->
  destination_row (parent_key parent_id, name) own = None -> file_row fid own = None ->
  exists lease token own',
    acquire_write_ownership session parent_id name (Some fid) owner ttl true clk own = (Ok (Some lease), own') /\
    ol_file_fencing_token lease = Some token /\
    granted_lease session owner token (clk 6%nat + ttl) (file_row fid own') /\ own_frame own' = own_frame own.
Proof.
  intros Hv Hs H12 H34 D F. pose proof (acquire_run session parent_id name fid owner ttl clk own Hv Hs H12 H34) as H.
  pose proof (frame_acquire session parent_id name (Some fid) owner ttl true clk own) as Hf. cbv zeta in H.
  destruct (acquire_write_ownership _ _ _ _ _ _ _ _ own) as [res own']. rewrite D, F in H. cbn in H, Hf.
  destruct H as (lease & token & -> & T & _ & G). eauto 10.
Qed.

Lemma granted_fence_live session owner token expires fid own t :
  granted_lease session owner token expires (file_row fid own) ->
  t < expires -> session_active session t own = true ->
  fence_live (set_clock t (od_db own)) fid
    {| wf_session_id := session; wf_owner_key := owner; wf_file_fencing_token := token |} = true.
Proof.
  intros (l & R & Hh & Ht & He) Hlt Hs. unfold fence_live, session_active, file_row in *.
  destruct (od_db own). cbn in *. rewrite R. unfold held_until in Hh. cbn in Hh.
  destruct (Z.eqb_spec (wl_session_id l) session) as [Es|]; [|done].
  destruct (Z.eqb_spec (wl_owner_key l) owner); [|done]. rewrite Ht, Z.eqb_refl, He, (proj2 (Z.ltb_lt _ _) Hlt).
  by rewrite Es.
Qed.

(** C18: Handing over a file between mounts. When the last handle of a mount on a file
    is closed, its ownership is released in the database, and an open for writing on
    another mount with a live session then succeeds at once: it gets the next handle,
    and the fence that handle's writes carry is accepted by the store for as long as
    the lease lasts and the session is alive. *)
Theorem close_hands_over fh st o m1 s1 m2 s2 path flags clk db t :
  om_session_id m1 = Some s1 -> 0 < s1 ->
  om_fh_table m1 !! fh = Some st -> fhs_write_ownership st = Some o ->
  shared_locally fh o m1 = false -> owns_rows s1 o (op_own db) ->
  om_session_id m2 = Some s2 -> om_degraded_read_only m2 = false ->
  local_write_ownership_for_file (ow_file_id o) m2 = None ->
  request_valid s2 (ow_parent_id o) (ow_name o) (ow_file_id o) (om_lease_ttl m2) (op_own db) = true ->
  ow_file_id o ∉ op_unlinked db ->
  (forall k, session_active s2 (clk k) (op_own db) = true) ->
  clk 1%nat <= clk 2%nat -> clk 3%nat <= clk 4%nat ->
  t < clk 6%nat + om_lease_ttl m2 -> session_active s2 t (op_own db) = true ->
  let db1 := (release_write_ownership_for_handle fh m1 db).2 in
  let '(r, m2', db2) := create_writable_handle_with_ownership path (ow_file_id o) flags
                          (Ok (ow_parent_id o, ow_name o)) true clk m2 db1 in
  r = Ok (om_next_fh m2) /\
  exists fence, write_persistence_fence_for_handle m2' (om_next_fh m2) = Some (ow_file_id o, fence) /\
    fence_live (set_clock t (od_db (op_own db2))) (ow_file_id o) fence = true.
Proof.
  intros M1 Hs1 Hst Ho Hsh Hown M2 Hdeg Hloc Hv Hul Hact H12 H34 Ht Hst2. cbv zeta.
  destruct (release_frees s1 o (op_own db) Hs1 Hown) as (own1 & R & D1 & F1 & Ef & Es).
  unfold release_write_ownership_for_handle. rewrite Hst. cbn [mbind option_bind]. rewrite Ho, Hsh, M1. cbn [default].
  unfold default, Datatypes.id in *. rewrite R. cbn [snd].
  assert (Hact1 : forall u, session_active s2 u own1 = session_active s2 u (op_own db)).
  { intros u. unfold session_active. by rewrite Es. }
  assert (Hv1 : request_valid s2 (ow_parent_id o) (ow_name o) (ow_file_id o) (om_lease_ttl m2) own1 = true).
  { rewrite <- Hv. unfold request_valid. by rewrite Ef. }
  destruct (acquire_free s2 (ow_parent_id o) (ow_name o) (ow_file_id o) (om_next_fh m2) (om_lease_ttl m2) clk own1
    Hv1 (eq_trans (Hact1 _) (Hact 0%nat)) H12 H34 D1 F1) as (lease & token & own2 & A & T & G & Hf).
  injection Hf as Ef2 Es2.
  assert (Hact2 : forall u, session_active s2 u own2 = session_active s2 u (op_own db)).
  { intros u. unfold session_active. by rewrite Es2, Es. }
  unfold create_writable_handle_with_ownership. cbn [next_handle].
  change (local_write_ownership_for_file (ow_file_id o) {| om_session_id := _ |})
    with (local_write_ownership_for_file (ow_file_id o) m2). rewrite Hloc. cbn [om_session_id om_lease_ttl]. rewrite M2.
  cbn [op_own with_own]. rewrite A. unfold register_file_open_lease_for_handle. cbn [om_degraded_read_only om_session_id om_lease_ttl].
  rewrite Hdeg, ?M2. unfold register_file_open_lease, linked_file. cbn [op_own op_unlinked with_own].
  rewrite Hact2, (Hact 7%nat), Ef2, Ef. unfold request_valid in Hv. rewrite !andb_true_iff, !negb_true_iff in Hv.
  destruct Hv as (((_ & Httl) & _) & Hfile). rewrite Httl, Hfile, (bool_decide_eq_true_2 _ Hul). cbn [andb].
  split; [done|]. unfold write_persistence_fence_for_handle. cbn. rewrite ?M2. cbn. rewrite lookup_insert_eq. cbn. rewrite T.
  eexists. split; [reflexivity|]. apply (granted_fence_live _ _ _ (clk 6%nat + om_lease_ttl m2)); [done|done|].
  by rewrite Hact2.
Qed.

(** ** A release in two steps *)

(** A mount of session 5 with one handle, the writer of file 11. *)
Definition sample_ownership : FileWriteOwnership :=
  {| ow_parent_id := None; ow_name := "report"%string; ow_file_id := 11; ow_owner_key := 1;
     ow_lease := sample_lease; ow_destination_released := false |}.

Definition empty_mount (session : Z) : OwnMount :=
  {| om_session_id := Some session; om_degraded_read_only := false; om_lease_ttl := 30; om_next_fh := 1;
     om_fh_table := ∅; om_write_states := ∅; om_operation_locks := ∅ |}.

Definition empty_open_db : OpenDb := {| op_own := sample_own; op_unlinked := ∅; op_open_leases := ∅ |}.

Definition open_report (m : OwnMount) (db : OpenDb) : outcome Z Z * OwnMount * OpenDb :=
  create_writable_handle_with_ownership "/report"%string 11 2 (Ok (None, "report"%string)) true (at_time 100) m db.

Definition opened_mount : OwnMount := (open_report (empty_mount 5) empty_open_db).1.2.
Definition opened_db : OpenDb := (open_report (empty_mount 5) empty_open_db).2.

(** [release] of handle 1 has given up the lease but not yet removed the handle,
    another thread opens the file, and then the handle is removed. *)
Definition raced_db : OpenDb := (release_write_ownership_for_handle 1 opened_mount opened_db).2.
Definition raced_open : outcome Z Z * OwnMount * OpenDb := open_report opened_mount raced_db.
Definition raced_end : option FileHandleState * OwnMount * OpenDb := take_handle_state 1 raced_open.1.2 raced_open.2.

(** With several event threads an open can succeed with a lease that is gone: it
    finds the ownership of a handle whose release has already deleted the lease but
    not yet removed the handle. Every write through the new handle is then rejected
    when it is persisted, although nobody else has touched the file. *)
Theorem open_during_release_is_fenced_out :
  raced_open.1.1 = Ok 2 /\
  exists fence, write_persistence_fence_for_handle raced_end.1.2 2 = Some (11, fence) /\
    persist_file_blocks sample_cfg (sample_request 11 (Some fence)) (od_db (op_own raced_end.2))
    = (Err fence_rejected, od_db (op_own raced_end.2)).
Proof.
  split; [vm_compute; reflexivity|]. exists sample_stale. split; [vm_compute; reflexivity|].
  apply (persist_rejects_dead _ _ sample_stale); vm_compute; reflexivity.
Qed.

Definition sample_state : FileHandleState :=
  {| fhs_path := "/report"%string; fhs_file_id := Some 11; fhs_flags := 2;
     fhs_write_ownership := Some sample_ownership |}.

Lemma sample_owns_rows : owns_rows 5 sample_ownership (op_own opened_db).
Proof.
  eexists _, _, 1. split; [vm_compute; reflexivity|]. split; [vm_compute; reflexivity|].
  split; [reflexivity|]. split; [vm_compute; reflexivity|]. split; [vm_compute; reflexivity|]. by split.
Qed.


Lemma close_hands_over_witness :
  (create_writable_handle_with_ownership "/report"%string (ow_file_id sample_ownership) 2
     (Ok (ow_parent_id sample_ownership, ow_name sample_ownership)) true (at_time 110) (empty_mount 6)
     (release_write_ownership_for_handle 1 opened_mount opened_db).2).1.1 = Ok 1.
Proof.
  assert (Hact : forall k, session_active 6 (at_time 110 k) (op_own opened_db) = true).
  { intros k. unfold at_time. vm_compute. reflexivity. }
  pose proof (close_hands_over 1 sample_state sample_ownership opened_mount 5 (empty_mount 6) 6
     "/report"%string 2 (at_time 110) opened_db 120
     ltac:(vm_compute; reflexivity) ltac:(lia) ltac:(vm_compute; reflexivity) ltac:(reflexivity)
     ltac:(vm_compute; reflexivity) sample_owns_rows ltac:(reflexivity) ltac:(reflexivity)
     ltac:(vm_compute; reflexivity) ltac:(vm_compute; reflexivity) ltac:(apply not_elem_of_empty) Hact
     ltac:(unfold at_time; lia) ltac:(unfold at_time; lia) ltac:(unfold at_time; cbn; lia)
     ltac:(vm_compute; reflexivity)) as H.
  cbv zeta in H. destruct (create_writable_handle_with_ownership _ _ _ _ _ _ _ _) as [[r m2] db2].
  exact (proj1 H).
Defined.
