(* ===== verification/Namespace.v ===== *)
(** * The namespace tables

    Model of the tables [directories], [files] (their name columns),
    [hardlinks], [symlinks] and [symlink_hardlinks] of
    src/migrations/base_schema.sql, of the checks every namespace transaction of
    src/rust_hotpath/src/pg.rs makes (parent permission, sticky bit, vacancy,
    inheritance) and of the lookups of
    src/rust_hotpath/src/pg/namespace_lookup.rs. The operations are in
    NamespaceOps.v. Timestamps of entries are not modelled. *)

From stdpp Require Import prelude list numbers gmap strings sorting.
From Stdlib Require Import ZArith Lia Ascii.
From S2P Require Import Prelude Text Errno Acl BlockStore StoreSafety WriteOwnership.

#[local] Open Scope Z_scope.
Set Default Proof Using "Type".

(** ** Rows *)

(** The name columns of a row of [files]; the rest of it is in BlockStore.v. *)
Record FileEntry := { fe_parent : option Z; fe_name : string; fe_unlinked : bool }.

(** The mode column holds an octal text of at most four digits, kept as its
    value; the two ACLs are the rows of [xattrs] the directory owns. *)
Record DirectoryRow := {
  d_parent : option Z;
  d_name : string;
  d_mode : Z;
  d_uid : Z;
  d_gid : Z;
  d_inode_seed : string;
  d_access_acl : option bytes;
  d_default_acl : option bytes;
}.

Record HardlinkRow := { h_file : Z; h_parent : option Z; h_name : string; h_uid : Z; h_gid : Z }.

Record SymlinkRow := {
  s_parent : option Z;
  s_name : string;
  s_target : string;
  s_uid : Z;
  s_gid : Z;
  s_inode_seed : string;
}.

Record SymlinkHardlinkRow := { sh_symlink : Z; sh_parent : option Z; sh_name : string }.

(** The shared database: block store, name tables, device nodes, open leases (by
    session and handle: file and expiry) and destination leases. *)
Record NsDb : Type := {
  ns_db : Db;
  ns_files : gmap Z FileEntry;
  ns_directories : gmap Z DirectoryRow;
  ns_hardlinks : gmap Z HardlinkRow;
  ns_symlinks : gmap Z SymlinkRow;
  ns_symlink_hardlinks : gmap Z SymlinkHardlinkRow;
  ns_special_files : gmap Z (string * Z * Z);
  ns_open_leases : gmap (Z * Z) (Z * Z);
  ns_destinations : gmap (Z * string) WriteLeaseRow;
}.

Definition set_ns_db (x : Db) (ns : NsDb) : NsDb :=
  let '(Build_NsDb _ fs ds hs ss sh sp ol de) := ns in Build_NsDb x fs ds hs ss sh sp ol de.
Definition set_ns_files (x : gmap Z FileEntry) (ns : NsDb) : NsDb :=
  let '(Build_NsDb db _ ds hs ss sh sp ol de) := ns in Build_NsDb db x ds hs ss sh sp ol de.
Definition set_directories (x : gmap Z DirectoryRow) (ns : NsDb) : NsDb :=
  let '(Build_NsDb db fs _ hs ss sh sp ol de) := ns in Build_NsDb db fs x hs ss sh sp ol de.
Definition set_hardlinks (x : gmap Z HardlinkRow) (ns : NsDb) : NsDb :=
  let '(Build_NsDb db fs ds _ ss sh sp ol de) := ns in Build_NsDb db fs ds x ss sh sp ol de.
Definition set_symlinks (x : gmap Z SymlinkRow) (ns : NsDb) : NsDb :=
  let '(Build_NsDb db fs ds hs _ sh sp ol de) := ns in Build_NsDb db fs ds hs x sh sp ol de.
Definition set_symlink_hardlinks (x : gmap Z SymlinkHardlinkRow) (ns : NsDb) : NsDb :=
  let '(Build_NsDb db fs ds hs ss _ sp ol de) := ns in Build_NsDb db fs ds hs ss x sp ol de.
Definition set_special_files (x : gmap Z (string * Z * Z)) (ns : NsDb) : NsDb :=
  let '(Build_NsDb db fs ds hs ss sh _ ol de) := ns in Build_NsDb db fs ds hs ss sh x ol de.
Definition set_open_leases (x : gmap (Z * Z) (Z * Z)) (ns : NsDb) : NsDb :=
  let '(Build_NsDb db fs ds hs ss sh sp _ de) := ns in Build_NsDb db fs ds hs ss sh sp x de.
Definition set_destinations (x : gmap (Z * string) WriteLeaseRow) (ns : NsDb) : NsDb :=
  let '(Build_NsDb db fs ds hs ss sh sp ol _) := ns in Build_NsDb db fs ds hs ss sh sp ol x.

(** ** Statements *)

Definition Nx (A : Type) : Type := NsDb -> outcome string (A * NsDb).

#[global] Instance nx_ret : MRet Nx := fun _ a ns => Ok (a, ns).
#[global] Instance nx_bind : MBind Nx := fun _ _ f m ns =>
  match m ns with
  | Ok (a, ns) => f a ns
  | Err e => Err e
  | Panic => Panic
  end.

Definition nx_err {A} (e : string) : Nx A := fun _ => Err e.
Definition nx_get : Nx NsDb := fun ns => Ok (ns, ns).
Definition nx_update (f : NsDb -> NsDb) : Nx unit := fun ns => Ok (tt, f ns).

(** A check that only reads. *)
Definition nx_read {A} (f : NsDb -> outcome string A) : Nx A := fun ns =>
  match f ns with Ok a => Ok (a, ns) | Err e => Err e | Panic => Panic end.

(** Statements on the tables of the block store. *)
Definition nx_store {A} (m : Tx A) : Nx A := fun ns =>
  match m (ns_db ns) with
  | Ok (a, db) => Ok (a, set_ns_db db ns)
  | Err e => Err e
  | Panic => Panic
  end.

(** COMMIT on success, ROLLBACK on an error. *)
Definition ns_transaction {A} (m : Nx A) (ns : NsDb) : outcome string A * NsDb :=
  match m ns with
  | Ok (a, ns') => (Ok a, ns')
  | Err e => (Err e, ns)
  | Panic => (Panic, ns)
  end.

(** One attempt of [transactional_replay_confirmed]. *)
Definition ns_replay_confirmed {A} (probe : NsDb -> option A) (body : Nx A) : Nx A := fun ns =>
  match probe ns with
  | Some a => Ok (a, ns)
  | None => body ns
  end.

(** ** Names *)

Inductive EntryKind : Set := KFile | KHardlink | KSymlink | KSymlinkHardlink | KDir.
#[global] Instance entry_kind_eq_dec : EqDecision EntryKind.
Proof. solve_decision. Defined.

(** Where a row is found: its parent ([None] is NULL, the root) and its name. *)
Definition file_place (f : FileEntry) : option (option Z * string) :=
  if fe_unlinked f then None else Some (fe_parent f, fe_name f).
Definition directory_place (d : DirectoryRow) : option (option Z * string) := Some (d_parent d, d_name d).
Definition hardlink_place (h : HardlinkRow) : option (option Z * string) := Some (h_parent h, h_name h).
Definition symlink_place (s : SymlinkRow) : option (option Z * string) := Some (s_parent s, s_name s).
Definition symlink_hardlink_place (a : SymlinkHardlinkRow) : option (option Z * string) :=
  Some (sh_parent a, sh_name a).

(** [COALESCE(parent, 0)] and the name. *)
Definition place_key (place : option Z * string) : Z * string := (parent_key place.1, place.2).

(** [SELECT ... FROM table WHERE COALESCE(parent, 0) = $1 AND name = $2]. *)
Definition rows_at {R} (place_of : R -> option (option Z * string)) (key : Z * string) (table : gmap Z R)
    : list (Z * R) :=
  filter (fun row => place_key <$> place_of row.2 = Some key) (map_to_list table).

(** The rows of [sql_resolve_entry]: kind, entry and, for the names of a file,
    the file. [ORDER BY kind, entry_id LIMIT 2]; a table has at most one row. *)
Definition resolve_entry_rows (key : Z * string) (ns : NsDb) : list (EntryKind * Z * option Z) :=
  take 2
    (((fun r => (KDir, r.1, None)) <$> rows_at directory_place key (ns_directories ns))
     ++ ((fun r => (KFile, r.1, Some r.1)) <$> rows_at file_place key (ns_files ns))
     ++ ((fun r => (KHardlink, r.1, Some (h_file r.2))) <$> rows_at hardlink_place key (ns_hardlinks ns))
     ++ ((fun r => (KSymlink, r.1, None)) <$> rows_at symlink_place key (ns_symlinks ns))
     ++ ((fun r => (KSymlinkHardlink, r.1, None))
           <$> rows_at symlink_hardlink_place key (ns_symlink_hardlinks ns))).

(** [Err tt] is a malformed or ambiguous result. *)
Definition parse_resolved_rename_entry (rows : list (EntryKind * Z * option Z))
    : outcome unit (option (EntryKind * Z * option Z)) :=
  match rows with
  | [] => Ok None
  | [(kind, entry_id, file_id)] =>
      if entry_id <=? 0 then Err tt
      else if match file_id with Some id => id <=? 0 | None => false end then Err tt
      else
        let is_file_entry := bool_decide (kind = KFile \/ kind = KHardlink) in
        if negb (Bool.eqb is_file_entry (bool_decide (is_Some file_id))) then Err tt
        else Ok (Some (kind, entry_id, file_id))
  | _ => Err tt
  end.

(** [namespace_serialization_key]: [CString::new] refuses a NUL byte. *)
Definition namespace_serialization_key (parent_id : option Z) (name : string) : outcome string (Z * string) :=
  if has_nul name then Err "namespace key contains NUL byte"%string else Ok (parent_key parent_id, name).

(** [WHERE id_parent IS NULL AND name = '/']. *)
Definition root_directory (ns : NsDb) : option (Z * DirectoryRow) :=
  head (filter (fun row => d_parent row.2 = None /\ d_name row.2 = "/"%string) (map_to_list (ns_directories ns))).

(** ** Checks *)

Record Actor := { ac_uid : Z; ac_gid : Z; ac_groups : list Z }.

Definition posix_class_bits (a : Actor) (owner_uid owner_gid mode : Z) : Z :=
  if ac_uid a =? owner_uid then Z.land (Z.shiftr mode 6) 7
  else if (ac_gid a =? owner_gid) || mem owner_gid (ac_groups a) then Z.land (Z.shiftr mode 3) 7
  else Z.land mode 7.

Definition require_parent_write_search_on_conn (parent_id : option Z) (a : Actor) (ns : NsDb) : outcome string unit :=
  if ac_uid a =? 0 then Ok tt
  else match parent_id with
       | None => Ok tt
       | Some parent =>
           match ns_directories ns !! parent with
           | None => Err (NAMESPACE_PARENT_MISSING_PREFIX ++ " parent directory disappeared")%string
           | Some d =>
               let allowed := posix_class_bits a (d_uid d) (d_gid d) (d_mode d) in
               if negb (Z.land allowed 3 =? 3) then Err PARENT_ACCESS_DENIED else Ok tt
           end
       end.

(** [directory_acl_allows_on_conn]: no answer without an access ACL. *)
Definition directory_acl_allows_on_conn (d : DirectoryRow) (a : Actor) (requested : Z) : outcome string (option bool) :=
  match d_access_acl d with
  | None => Ok None
  | Some acl => Some <$> acl_has_permissions acl (ac_uid a) (ac_groups a) (d_uid d) (d_gid d) requested
  end.

(** Without a parent id the stored row of the logical root is meant. *)
Definition parent_row (parent_id : option Z) (ns : NsDb) : option (Z * DirectoryRow) :=
  match parent_id with
  | Some parent => pair parent <$> ns_directories ns !! parent
  | None => root_directory ns
  end.

Definition require_parent_write_search_acl_on_conn (parent_id : option Z) (a : Actor) (ns : NsDb)
    : outcome string unit :=
  if ac_uid a =? 0 then Ok tt
  else match parent_row parent_id ns with
       | None => Err (NAMESPACE_PARENT_MISSING_PREFIX ++ " parent directory disappeared")%string
       | Some (_, d) =>
           acl_allowed ← directory_acl_allows_on_conn d a 3;
           let allowed :=
             default (Z.land (posix_class_bits a (d_uid d) (d_gid d) (d_mode d)) 3 =? 3) acl_allowed in
           if allowed then Ok tt else Err PARENT_ACCESS_DENIED
       end.

Definition check_parent (use_posix_acl : bool) (parent_id : option Z) (a : Actor) (ns : NsDb) : outcome string unit :=
  if use_posix_acl then require_parent_write_search_acl_on_conn parent_id a ns
  else require_parent_write_search_on_conn parent_id a ns.

(** The owner of the inode behind a removed name. *)
Definition sticky_owner (kind : EntryKind) (id : Z) (ns : NsDb) : outcome string (option Z) :=
  match kind with
  | KFile => Ok (f_uid <$> db_files (ns_db ns) !! id)
  | KDir => Ok (d_uid <$> ns_directories ns !! id)
  | KSymlink => Ok (s_uid <$> ns_symlinks ns !! id)
  | _ => Err "invalid sticky owner kind"%string
  end.

Definition require_sticky_removal_on_conn (parent_id : option Z) (owner_kind : EntryKind) (owner_id actor_uid : Z)
    (ns : NsDb) : outcome string unit :=
  if actor_uid =? 0 then Ok tt
  else match parent_id with
       | None => Ok tt
       | Some parent =>
           match ns_directories ns !! parent with
           | None => Err (NAMESPACE_PARENT_MISSING_PREFIX ++ " sticky parent disappeared")%string
           | Some d =>
               if (Z.land (d_mode d) 512 =? 0) || (actor_uid =? d_uid d) then Ok tt
               else
                 owner ← sticky_owner owner_kind owner_id ns;
                 match owner with
                 | None => Err NAMESPACE_SOURCE_CHANGED
                 | Some uid => if negb (actor_uid =? uid) then Err STICKY_PERMISSION_DENIED else Ok tt
                 end
           end
       end.

(** The kind of an entry with the name, in the order of the [UNION ALL]. *)
Definition occupied_by (key : Z * string) (ns : NsDb) : option string :=
  head
    (((fun _ => "file"%string) <$> rows_at file_place key (ns_files ns))
     ++ ((fun _ => "directory"%string) <$> rows_at directory_place key (ns_directories ns))
     ++ ((fun _ => "hardlink"%string) <$> rows_at hardlink_place key (ns_hardlinks ns))
     ++ ((fun _ => "symlink"%string) <$> rows_at symlink_place key (ns_symlinks ns))
     ++ ((fun _ => "symlink"%string) <$> rows_at symlink_hardlink_place key (ns_symlink_hardlinks ns))).

Definition require_namespace_vacant_on_conn (parent_id : option Z) (name : string) (ns : NsDb) : outcome string unit :=
  if match parent_id with Some parent => bool_decide (ns_directories ns !! parent = None) | None => false end
  then Err (NAMESPACE_PARENT_MISSING_PREFIX ++ " parent directory is absent")%string
  else if has_nul name then Err "namespace name contains NUL byte"%string
  else match occupied_by (parent_key parent_id, name) ns with
       | Some kind => Err (NAMESPACE_ENTRY_EXISTS_PREFIX ++ kind)%string
       | None => Ok tt
       end.

(** The group and mode of a new entry. *)
Definition inherit_parent_setgid_on_conn (parent_id : option Z) (requested_gid requested_mode : Z)
    (child_is_directory : bool) (ns : NsDb) : outcome string (Z * Z) :=
  match parent_row parent_id ns with
  | None => Err (NAMESPACE_PARENT_MISSING_PREFIX ++ " parent directory disappeared")%string
  | Some (_, d) =>
      if Z.land (d_mode d) 1024 =? 0 then Ok (requested_gid, requested_mode)
      else Ok (d_gid d, if child_is_directory then Z.lor requested_mode 1024 else requested_mode)
  end.

(** The mode of a new entry and the ACLs it starts with: access and default. *)
Definition prepare_default_acl_inheritance_on_conn (parent_id : option Z) (requested_mode umask : Z)
    (child_is_directory : bool) (ns : NsDb) : outcome string (Z * option (bytes * option bytes)) :=
  match parent_id, parent_row parent_id ns with
  | None, None => Err "FOD_NAMESPACE_PARENT_MISSING: logical root is missing"%string
  | Some _, None => Err LOCKED_PARENT_MISSING
  | _, Some (_, d) =>
      match d_default_acl d with
      | None => Ok (Z.land requested_mode (Z.lnot umask), None)
      | Some default_acl =>
          '(access_acl, mode) ← constrain_default_acl_to_mode default_acl requested_mode;
          Ok (mode, Some (access_acl, if child_is_directory then Some default_acl else None))
      end
  end.

(** ** Lookups (src/rust_hotpath/src/pg/namespace_lookup.rs) *)

(** [SELECT ... WHERE parent IS NULL / parent = $2 AND name = $1]. *)
Definition rows_in {R} (place_of : R -> option (option Z * string)) (parent_id : option Z) (name : string)
    (table : gmap Z R) : list (Z * R) :=
  filter (fun row => place_of row.2 = Some (parent_id, name)) (map_to_list table).

(** [parse_optional_namespace_id]. *)
Definition parse_optional_namespace_id (ids : list Z) : outcome string (option Z) :=
  match ids with
  | [] => Ok None
  | [id] => if id <=? 0 then Err "lookup returned a non-positive id"%string else Ok (Some id)
  | _ => Err "lookup returned an invalid result"%string
  end.

(** [PreparedStatement::GetDirId]: the walk over the components of the path. *)
Fixpoint walk_directories (parent_id : option Z) (parts : list string) (ns : NsDb) : list Z :=
  match parts with
  | [] => []
  | [part] => (fun r => r.1) <$> rows_in directory_place parent_id part (ns_directories ns)
  | part :: parts =>
      mjoin ((fun r => walk_directories (Some r.1) parts ns)
               <$> rows_in directory_place parent_id part (ns_directories ns))
  end.

Definition SLASH : ascii := ascii_of_nat 47.
Definition trim_slashes (s : text) : text :=
  reverse (drop_while (Ascii.eqb SLASH) (reverse (drop_while (Ascii.eqb SLASH) s))).
(** [string_to_array(btrim($1, '/'), '/')]: no element for the empty text. *)
Definition path_parts (path : text) : list string :=
  match trim_slashes path with
  | [] => []
  | trimmed => String.string_of_list_ascii <$> split SLASH trimmed
  end.

(** [LIMIT 1]. *)
Definition get_dir_id (path : text) (ns : NsDb) : outcome string (option Z) :=
  if bool_decide (Ascii.zero ∈ path) then Err "path contains NUL byte"%string
  else parse_optional_namespace_id (take 1 (walk_directories None (path_parts path) ns)).

Inductive DirectoryLookup : Set := LookupRoot | LookupDirectory (id : Z) | LookupMissing.

Definition lookup_directory (path : text) (ns : NsDb) : outcome string DirectoryLookup :=
  if bool_decide (trim_slashes path = []) then Ok LookupRoot
  else
    found ← get_dir_id path ns;
    Ok (match found with Some id => LookupDirectory id | None => LookupMissing end).

(** [str::rsplit_once('/')]. *)
Definition rsplit_slash (path : text) : option (text * text) :=
  match split_once SLASH (reverse path) with
  | Some (name, parent) => Some (reverse parent, reverse name)
  | None => None
  end.

Definition split_parent (path : text) : text * text :=
  match rsplit_slash path with
  | Some (parent, (_ :: _) as name) => (match parent with [] => [SLASH] | _ => parent end, name)
  | _ => ([SLASH], path)
  end.

(** [GetFileIdRoot] and [GetFileIdNested]. *)
Definition get_file_id (path : text) (ns : NsDb) : outcome string (option Z) :=
  let '(parent_path, file_name) := split_parent path in
  directory ← lookup_directory parent_path ns;
  match directory with
  | LookupMissing => Ok None
  | _ =>
      let parent_id := match directory with LookupDirectory id => Some id | _ => None end in
      if bool_decide (Ascii.zero ∈ file_name) then Err "path contains NUL byte"%string
      else
        let name := String.string_of_list_ascii file_name in
        parse_optional_namespace_id
          (take 1 (((fun r => h_file r.2) <$> rows_in hardlink_place parent_id name (ns_hardlinks ns))
                   ++ ((fun r => r.1) <$> rows_in file_place parent_id name (ns_files ns))))
  end.

Record ResolvedPath := { rp_parent_id : option Z; rp_kind : option EntryKind; rp_entry_id : option Z }.

(** [ResolvePathRoot] and [ResolvePathNested], by precedence, [LIMIT 2]. *)
Definition resolve_path_rows (parent_id : option Z) (name : string) (ns : NsDb) : list (EntryKind * Z) :=
  take 2
    (((fun r => (KHardlink, r.1)) <$> rows_in hardlink_place parent_id name (ns_hardlinks ns))
     ++ ((fun r => (KSymlink, r.1)) <$> rows_in symlink_place parent_id name (ns_symlinks ns))
     ++ ((fun r => (KSymlinkHardlink, r.1))
           <$> rows_in symlink_hardlink_place parent_id name (ns_symlink_hardlinks ns))
     ++ ((fun r => (KFile, r.1)) <$> rows_in file_place parent_id name (ns_files ns))
     ++ ((fun r => (KDir, r.1)) <$> rows_in directory_place parent_id name (ns_directories ns))).

Definition parse_optional_resolved_entry (rows : list (EntryKind * Z)) : outcome string (option (EntryKind * Z)) :=
  match rows with
  | [] => Ok None
  | [(kind, entry_id)] =>
      if entry_id <=? 0 then Err "path lookup returned a non-positive entry id"%string
      else Ok (Some (kind, entry_id))
  | _ => Err "path lookup returned an invalid result"%string
  end.

Definition resolve_path (path : text) (ns : NsDb) : outcome string ResolvedPath :=
  let missing := {| rp_parent_id := None; rp_kind := None; rp_entry_id := None |} in
  match path with
  | [] => Ok missing
  | _ =>
      let '(parent_path, name) := split_parent path in
      directory ← lookup_directory parent_path ns;
      match directory with
      | LookupMissing => Ok missing
      | _ =>
          let parent_id := match directory with LookupDirectory id => Some id | _ => None end in
          if bool_decide (Ascii.zero ∈ name) then Err "path contains NUL byte"%string
          else
            entry ← parse_optional_resolved_entry (resolve_path_rows parent_id (String.string_of_list_ascii name) ns);
            Ok {| rp_parent_id := parent_id; rp_kind := fst <$> entry; rp_entry_id := snd <$> entry |}
      end
  end.

(** The entries of a directory ([list_directory_entry_metadata_for_id]): name,
    kind, entry, inode seed. The order, that of the database's collation, is not
    modelled; the stored root row is not listed. *)
Definition entries_of {R} (place_of : R -> option (option Z * string)) (kind : EntryKind)
    (seed : Z -> R -> option string) (parent_id : option Z) (table : gmap Z R)
    : list (string * EntryKind * Z * string) :=
  omap (fun row =>
          match place_of row.2, seed row.1 row.2 with
          | Some (parent, name), Some seed =>
              if bool_decide (parent = parent_id) then Some (name, kind, row.1, seed) else None
          | _, _ => None
          end) (map_to_list table).

(** The seed of a file that is not unlinked: the join of the hard links. *)
Definition linked_file_seed (file_id : Z) (ns : NsDb) : option string :=
  f ← ns_files ns !! file_id;
  if fe_unlinked f then None else f_inode_seed <$> db_files (ns_db ns) !! file_id.

Definition list_directory_entry_metadata_for_id (parent_id : option Z) (ns : NsDb)
    : list (string * EntryKind * Z * string) :=
  entries_of file_place KFile (fun id _ => linked_file_seed id ns) parent_id (ns_files ns)
  ++ entries_of hardlink_place KHardlink (fun _ h => linked_file_seed (h_file h) ns) parent_id (ns_hardlinks ns)
  ++ entries_of directory_place KDir
       (fun _ d => if bool_decide (parent_id = None /\ d_name d = "/"%string) then None else Some (d_inode_seed d))
       parent_id (ns_directories ns)
  ++ entries_of symlink_place KSymlink (fun _ s => Some (s_inode_seed s)) parent_id (ns_symlinks ns)
  ++ entries_of symlink_hardlink_place KSymlinkHardlink
       (fun _ a => s_inode_seed <$> ns_symlinks ns !! sh_symlink a) parent_id (ns_symlink_hardlinks ns).

(** ** Row changes and the constraints they meet *)

Definition UNIQUE_VIOLATION : string := "SQLSTATE 23505: duplicate key value violates unique constraint".
Definition FOREIGN_KEY_VIOLATION : string := "SQLSTATE 23503: violates foreign key constraint".
Definition CHECK_VIOLATION : string := "SQLSTATE 23514: violates check constraint".

(** The constraints a row of a name table meets under [parent_id] and [name]: the
    length of the name, the partial unique indexes (which also cover unlinked
    files) and the reference to the parent directory. *)
Definition name_constraints {R} (where_ : R -> option Z * string) (table : gmap Z R) (id : Z)
    (parent_id : option Z) (name : string) (ns : NsDb) : outcome string unit :=
  if 255 <? Z.of_nat (String.length name) then Err CHECK_VIOLATION
  else if bool_decide (Exists (fun row => row.1 <> id /\ where_ row.2 = (parent_id, name)) (map_to_list table))
  then Err UNIQUE_VIOLATION
  else if match parent_id with Some parent => bool_decide (ns_directories ns !! parent = None) | None => false end
  then Err FOREIGN_KEY_VIOLATION
  else Ok tt.

Definition file_where (f : FileEntry) : option Z * string := (fe_parent f, fe_name f).
Definition directory_where (d : DirectoryRow) : option Z * string := (d_parent d, d_name d).
Definition hardlink_where (h : HardlinkRow) : option Z * string := (h_parent h, h_name h).
Definition symlink_where (s : SymlinkRow) : option Z * string := (s_parent s, s_name s).
Definition symlink_hardlink_where (a : SymlinkHardlinkRow) : option Z * string := (sh_parent a, sh_name a).

(** [UPDATE table SET ... WHERE id = $n], the new row under its constraints; an
    absent row is no error. *)
Definition update_row {R} (where_ : R -> option Z * string) (table : NsDb -> gmap Z R)
    (put : gmap Z R -> NsDb -> NsDb) (id : Z) (change : R -> R) : Nx unit := fun ns =>
  match table ns !! id with
  | None => Ok (tt, ns)
  | Some row =>
      let row' := change row in
      _ ← name_constraints where_ (table ns) id (where_ row').1 (where_ row').2 ns;
      Ok (tt, put (<[id := row']> (table ns)) ns)
  end.

(** [INSERT INTO table ... RETURNING id], [id] the number of its sequence. *)
Definition insert_row {R} (where_ : R -> option Z * string) (table : NsDb -> gmap Z R)
    (put : gmap Z R -> NsDb -> NsDb) (id : Z) (row : R) : Nx Z := fun ns =>
  if bool_decide (is_Some (table ns !! id)) then Err UNIQUE_VIOLATION
  else
    _ ← name_constraints where_ (table ns) id (where_ row).1 (where_ row).2 ns;
    if id <=? 0 then Err "insert RETURNING returned a non-positive id"%string
    else Ok (id, put (<[id := row]> (table ns)) ns).

Definition update_file_entry := update_row file_where ns_files set_ns_files.
Definition update_directory := update_row directory_where ns_directories set_directories.
Definition update_hardlink := update_row hardlink_where ns_hardlinks set_hardlinks.
Definition update_symlink := update_row symlink_where ns_symlinks set_symlinks.
Definition update_symlink_hardlink := update_row symlink_hardlink_where ns_symlink_hardlinks set_symlink_hardlinks.

Definition move_file (parent_id : option Z) (name : string) (f : FileEntry) : FileEntry :=
  {| fe_parent := parent_id; fe_name := name; fe_unlinked := fe_unlinked f |}.
Definition hide_file (name : string) (f : FileEntry) : FileEntry :=
  {| fe_parent := fe_parent f; fe_name := name; fe_unlinked := true |}.
Definition move_directory (parent_id : option Z) (name : string) (d : DirectoryRow) : DirectoryRow :=
  {| d_parent := parent_id; d_name := name; d_mode := d_mode d; d_uid := d_uid d; d_gid := d_gid d;
     d_inode_seed := d_inode_seed d; d_access_acl := d_access_acl d; d_default_acl := d_default_acl d |}.
Definition move_hardlink (parent_id : option Z) (name : string) (h : HardlinkRow) : HardlinkRow :=
  {| h_file := h_file h; h_parent := parent_id; h_name := name; h_uid := h_uid h; h_gid := h_gid h |}.
Definition move_symlink (parent_id : option Z) (name : string) (s : SymlinkRow) : SymlinkRow :=
  {| s_parent := parent_id; s_name := name; s_target := s_target s; s_uid := s_uid s; s_gid := s_gid s;
     s_inode_seed := s_inode_seed s |}.
Definition move_symlink_hardlink (parent_id : option Z) (name : string) (a : SymlinkHardlinkRow)
    : SymlinkHardlinkRow :=
  {| sh_symlink := sh_symlink a; sh_parent := parent_id; sh_name := name |}.

Definition delete_hardlink (id : Z) : Nx unit :=
  nx_update (fun ns => set_hardlinks (delete id (ns_hardlinks ns)) ns).
Definition delete_symlink_hardlink (id : Z) : Nx unit :=
  nx_update (fun ns => set_symlink_hardlinks (delete id (ns_symlink_hardlinks ns)) ns).

(** Refused while an alias references the row. *)
Definition delete_symlink (id : Z) : Nx unit := fun ns =>
  if bool_decide (map_Exists (fun _ a => sh_symlink a = id) (ns_symlink_hardlinks ns))
  then Err FOREIGN_KEY_VIOLATION
  else Ok (tt, set_symlinks (delete id (ns_symlinks ns)) ns).

(** A row that names the directory as its parent, unlinked files included. *)
Definition directory_referenced (id : Z) (ns : NsDb) : bool :=
  bool_decide (map_Exists (fun _ d => d_parent d = Some id) (ns_directories ns)
               \/ map_Exists (fun _ f => fe_parent f = Some id) (ns_files ns)
               \/ map_Exists (fun _ h => h_parent h = Some id) (ns_hardlinks ns)
               \/ map_Exists (fun _ s => s_parent s = Some id) (ns_symlinks ns)
               \/ map_Exists (fun _ a => sh_parent a = Some id) (ns_symlink_hardlinks ns)).

Definition delete_directory (id : Z) : Nx unit := fun ns =>
  if directory_referenced id ns && bool_decide (is_Some (ns_directories ns !! id))
  then Err FOREIGN_KEY_VIOLATION
  else Ok (tt, set_directories (delete id (ns_directories ns)) ns).

(** The children the emptiness checks count: unlinked files are not among them. *)
Definition directory_has_children (id : Z) (ns : NsDb) : bool :=
  bool_decide (map_Exists (fun _ f => fe_parent f = Some id /\ fe_unlinked f = false) (ns_files ns)
               \/ map_Exists (fun _ h => h_parent h = Some id) (ns_hardlinks ns)
               \/ map_Exists (fun _ d => d_parent d = Some id) (ns_directories ns)
               \/ map_Exists (fun _ s => s_parent s = Some id) (ns_symlinks ns)
               \/ map_Exists (fun _ a => sh_parent a = Some id) (ns_symlink_hardlinks ns)).

(** What goes with a row of [files] (ON DELETE CASCADE). *)
Definition cascade_file (file_id : Z) (ns : NsDb) : NsDb :=
  set_ns_files (delete file_id (ns_files ns))
    (set_hardlinks (filter (fun row => h_file row.2 <> file_id) (ns_hardlinks ns))
       (set_special_files (delete file_id (ns_special_files ns))
          (set_open_leases (filter (fun row => row.2.1 <> file_id) (ns_open_leases ns)) ns))).
