(* ===== verification/NamespaceOps.v ===== *)
(** * Namespace operations

    Model of the namespace transactions of src/rust_hotpath/src/pg.rs over the
    tables of Namespace.v: creating and linking entries, unlinking them (with the
    promotion of a hard link and the deferred removal of open files), removing
    directories, rename with replacement, and the purge of unlinked files. A
    number that PostgreSQL draws from a sequence is an argument; [clk k] is the
    time the [k]-th statement that reads the clock sees. The transactions of a
    mount carry no materialization fence. *)

From stdpp Require Import prelude list numbers gmap strings sorting.
From Stdlib Require Import ZArith Lia Ascii.
From S2P Require Import Prelude Text Errno Acl BlockStore StoreSafety WriteOwnership Namespace.

#[local] Open Scope Z_scope.
Set Default Proof Using "Type".

Definition LINK_SOURCE_UNAVAILABLE : string := "FOD_LINK_SOURCE_UNAVAILABLE".
Definition UNIQUE_VIOLATION_ERROR_PREFIX : string := "SQLSTATE 23505:".

Definition error_is_unique_violation (err : string) : bool := starts_with err UNIQUE_VIOLATION_ERROR_PREFIX.

(** A create that fails with a unique violation asks whether the entry that is
    there is the one it meant to create. *)
Definition confirm_unique_violation {A} (err : string) (confirm : NsDb -> option A) (ns : NsDb) : outcome string A :=
  if negb (error_is_unique_violation err) then Err err
  else match confirm ns with
       | Some value => Ok value
       | None => Err err
       end.

Definition run_create (m : Nx Z) (confirm : NsDb -> option Z) (ns : NsDb) : outcome string Z * NsDb :=
  match ns_transaction m ns with
  | (Err err, ns') => (confirm_unique_violation err confirm ns', ns')
  | r => r
  end.

Definition z_text (n : Z) : string := String.string_of_list_ascii (print_u n).
Definition blank (s : string) : bool := bool_decide (trim (txt s) = []).
Definition trim_text (s : string) : string := String.string_of_list_ascii (trim (txt s)).

(** [SELECT id FROM table WHERE id = $1 AND COALESCE(parent, 0) = $2 AND name = $3]. *)
Definition row_named {R} (place_of : R -> option (option Z * string)) (id : Z) (key : Z * string) (table : gmap Z R)
    : bool :=
  match table !! id with
  | Some row => bool_decide (place_key <$> place_of row = Some key)
  | None => false
  end.

(** ** Files, their links and their open leases *)

Definition lock_file_lifecycle_on_conn (file_id : Z) (ns : NsDb) : bool := bool_decide (is_Some (ns_files ns !! file_id)).

(** [ORDER BY id_hardlink ASC LIMIT 1]. *)
Definition first_hardlink (file_id : Z) (ns : NsDb) : option (Z * HardlinkRow) :=
  id ← head (sort_z (fst <$> filter (fun row => h_file row.2 = file_id) (map_to_list (ns_hardlinks ns))));
  pair id <$> ns_hardlinks ns !! id.

Definition has_hardlinks (file_id : Z) (ns : NsDb) : bool :=
  bool_decide (map_Exists (fun _ h => h_file h = file_id) (ns_hardlinks ns)).

(** An open lease and its session, both unexpired. *)
Definition session_live (session now : Z) (ns : NsDb) : bool :=
  match db_client_sessions (ns_db ns) !! session with Some expires => now <? expires | None => false end.
Definition live_open_lease (file_id now : Z) (ns : NsDb) : bool :=
  bool_decide (map_Exists (fun k l => l.1 = file_id /\ now < l.2 /\ session_live k.1 now ns = true)
                 (ns_open_leases ns)).

Definition hidden_rename_name (file_id : Z) : string := (".fod-unlinked-rename-" ++ z_text file_id)%string.

Definition defer_open_file (file_id : Z) : Nx unit := fun ns =>
  match ns_files ns !! file_id with
  | Some f => if fe_unlinked f then Ok (tt, ns)
              else update_file_entry file_id (hide_file (hidden_rename_name file_id)) ns
  | None => Ok (tt, ns)
  end.

Definition remove_primary_file_or_promote_hardlink_on_conn (file_id now : Z) : Nx unit := fun ns =>
  if negb (lock_file_lifecycle_on_conn file_id ns)
  then Err "target file disappeared during namespace removal"%string
  else match first_hardlink file_id ns with
       | Some (hardlink_id, h) =>
           (_ ← update_file_entry file_id (move_file (h_parent h) (h_name h));
            delete_hardlink hardlink_id) ns
       | None =>
           if live_open_lease file_id now ns then defer_open_file file_id ns
           else (_ ← nx_store (release_replaced_file file_id);
                 nx_update (cascade_file file_id)) ns
       end.

Definition purge_primary_file_on_conn (file_id now now' : Z) : Nx unit := fun ns =>
  if negb (lock_file_lifecycle_on_conn file_id ns) then Ok (tt, ns)
  else if has_hardlinks file_id ns then Err "file has surviving hardlinks"%string
  else if live_open_lease file_id now ns then Err "file has active open leases"%string
  else remove_primary_file_or_promote_hardlink_on_conn file_id now' ns.

Definition purge_primary_file (file_id : Z) (clk : nat -> Z) (ns : NsDb) : outcome string unit * NsDb :=
  ns_transaction
    (ns_replay_confirmed
       (fun ns => if lock_file_lifecycle_on_conn file_id ns then None else Some tt)
       (purge_primary_file_on_conn file_id (clk 0%nat) (clk 1%nat))) ns.

(** The unlinked files nobody holds open, oldest number first. *)
Definition orphaned_unlinked_files (now : Z) (ns : NsDb) : list Z :=
  sort_z (fst <$> filter (fun row => fe_unlinked row.2 = true /\ live_open_lease row.1 now ns = false)
                    (map_to_list (ns_files ns))).

(** One transaction per file; an error ends the pass. [clks k] is the clock of the
    [k]-th purge. *)
Fixpoint purge_files (file_ids : list Z) (clks : nat -> nat -> Z) (purged : Z) (ns : NsDb) : outcome string Z * NsDb :=
  match file_ids with
  | [] => (Ok purged, ns)
  | file_id :: file_ids =>
      match purge_primary_file file_id (clks (length file_ids)) ns with
      | (Ok tt, ns) => purge_files file_ids clks (sat_add purged 1) ns
      | (Err e, ns) => (Err e, ns)
      | (Panic, ns) => (Panic, ns)
      end
  end.

Definition purge_orphaned_unlinked_files (limit now : Z) (clks : nat -> nat -> Z) (ns : NsDb)
    : outcome string Z * NsDb :=
  if limit =? 0 then (Ok 0, ns)
  else purge_files (take (Z.to_nat limit) (orphaned_unlinked_files now ns)) clks 0 ns.

(** The answer is stored under a request token drawn for this call. *)
Definition promote_hardlink_to_primary (file_id : Z) (ns : NsDb) : outcome string bool * NsDb :=
  ns_transaction (fun ns =>
    if negb (lock_file_lifecycle_on_conn file_id ns) then Ok (false, ns)
    else match first_hardlink file_id ns with
         | None => Ok (false, ns)
         | Some (hardlink_id, h) =>
             (_ ← update_file_entry file_id (move_file (h_parent h) (h_name h));
              _ ← delete_hardlink hardlink_id;
              mret true) ns
         end) ns.

(** ** Unlink *)

Inductive FileUnlinkOutcome : Set := PromotedHardlink | RemovedHardlink | Deferred | Purged | SourceChanged.
#[global] Instance file_unlink_outcome_eq_dec : EqDecision FileUnlinkOutcome.
Proof. solve_decision. Defined.

Definition check_parent_actor (parent_id : option Z) (parent_actor : option (Actor * bool)) (ns : NsDb)
    : outcome string unit :=
  match parent_actor with
  | Some (a, use_posix_acl) => check_parent use_posix_acl parent_id a ns
  | None => Ok tt
  end.

(** The hard link of the file with the name (at most one by its index). *)
Definition hardlink_named (file_id : Z) (key : Z * string) (ns : NsDb) : option Z :=
  fst <$> head (filter (fun row => h_file row.2 = file_id) (rows_at hardlink_place key (ns_hardlinks ns))).

Definition unlink_file_body (file_id : Z) (hidden_name : string) (parent_id : option Z) (old_name : string)
    (actor_uid : Z) (parent_actor : option (Actor * bool)) (clk : nat -> Z) : Nx FileUnlinkOutcome := fun ns =>
  let key := (parent_key parent_id, old_name) in
  match db_files (ns_db ns) !! file_id with
  | None => Ok (SourceChanged, ns)
  | Some f =>
      if blank (f_inode_seed f) then Ok (SourceChanged, ns)
      else if negb (lock_file_lifecycle_on_conn file_id ns) then Ok (SourceChanged, ns)
      else
        let primary := row_named file_place file_id key (ns_files ns) in
        (_ ← nx_read (check_parent_actor parent_id parent_actor);
         _ ← nx_read (require_sticky_removal_on_conn parent_id KFile file_id actor_uid);
         outcome ←
           (if primary then
              if has_hardlinks file_id ns then
                _ ← remove_primary_file_or_promote_hardlink_on_conn file_id (clk 0%nat);
                mret (Some PromotedHardlink)
              else
                _ ← update_file_entry file_id (hide_file hidden_name);
                ns ← nx_get;
                if live_open_lease file_id (clk 0%nat) ns then mret (Some Deferred)
                else
                  _ ← purge_primary_file_on_conn file_id (clk 1%nat) (clk 2%nat);
                  mret (Some Purged)
            else match hardlink_named file_id key ns with
                 | Some hardlink_id => _ ← delete_hardlink hardlink_id; mret (Some RemovedHardlink)
                 | None => mret None
                 end);
         match outcome with
         | None => mret SourceChanged
         | Some outcome =>
             _ ← nx_update (fun ns => set_destinations (delete key (ns_destinations ns)) ns);
             mret outcome
         end) ns
  end.

Definition unlink_file_entry_internal (file_id : Z) (hidden_name : string) (parent_id : option Z) (old_name : string)
    (actor_uid : Z) (parent_actor : option (Actor * bool)) (clk : nat -> Z) (ns : NsDb)
    : outcome string FileUnlinkOutcome * NsDb :=
  if String.eqb hidden_name EmptyString || String.eqb old_name EmptyString
  then (Err "unlink name is empty"%string, ns)
  else if has_nul hidden_name then (Err "unlink hidden name contains NUL byte"%string, ns)
  else if has_nul old_name then (Err "unlink name contains NUL byte"%string, ns)
  else ns_transaction (unlink_file_body file_id hidden_name parent_id old_name actor_uid parent_actor clk) ns.

(** ** Symbolic links *)

Definition first_alias (symlink_id : Z) (ns : NsDb) : option (Z * SymlinkHardlinkRow) :=
  id ← head (sort_z (fst <$> filter (fun row => sh_symlink row.2 = symlink_id)
                               (map_to_list (ns_symlink_hardlinks ns))));
  pair id <$> ns_symlink_hardlinks ns !! id.

(** [NULLIF(COALESCE(id_parent, 0), 0)]. *)
Definition nullif_zero (parent_id : option Z) : option Z :=
  if parent_key parent_id =? 0 then None else parent_id.

Definition remove_symlink_entry_or_promote_on_conn (symlink_id : Z) : Nx unit := fun ns =>
  match first_alias symlink_id ns with
  | None => delete_symlink symlink_id ns
  | Some (alias_id, a) =>
      (_ ← update_symlink symlink_id (move_symlink (nullif_zero (sh_parent a)) (sh_name a));
       delete_symlink_hardlink alias_id) ns
  end.

Definition unlink_symlink_entry_internal (symlink_id : Z) (parent_id : option Z) (name : string) (actor_uid : Z)
    (parent_actor : option (Actor * bool)) (ns : NsDb) : outcome string unit * NsDb :=
  match namespace_serialization_key parent_id name with
  | Ok key =>
      ns_transaction (fun ns =>
        if row_named symlink_place symlink_id key (ns_symlinks ns)
        then (_ ← nx_read (check_parent_actor parent_id parent_actor);
              _ ← nx_read (require_sticky_removal_on_conn parent_id KSymlink symlink_id actor_uid);
              remove_symlink_entry_or_promote_on_conn symlink_id) ns
        else Err NAMESPACE_SOURCE_CHANGED) ns
  | Err e => (Err e, ns)
  | Panic => (Panic, ns)
  end.

Definition unlink_symlink_hardlink_entry_for_subject_acl (symlink_hardlink_id : Z) (parent_id : option Z)
    (name : string) (a : Actor) (use_posix_acl : bool) (ns : NsDb) : outcome string unit * NsDb :=
  match namespace_serialization_key parent_id name with
  | Ok key =>
      ns_transaction (fun ns =>
        match ns_symlink_hardlinks ns !! symlink_hardlink_id with
        | Some alias =>
            if negb (bool_decide (place_key <$> symlink_hardlink_place alias = Some key))
            then Err NAMESPACE_SOURCE_CHANGED
            else if bool_decide (ns_symlinks ns !! sh_symlink alias = None) then Err NAMESPACE_SOURCE_CHANGED
            else (_ ← nx_read (check_parent use_posix_acl parent_id a);
                  _ ← nx_read (require_sticky_removal_on_conn parent_id KSymlink (sh_symlink alias) (ac_uid a));
                  delete_symlink_hardlink symlink_hardlink_id) ns
        | None => Err NAMESPACE_SOURCE_CHANGED
        end) ns
  | Err e => (Err e, ns)
  | Panic => (Panic, ns)
  end.

(** ** Directories *)

Inductive DirectoryUnlinkOutcome : Set := Removed | NotEmpty | DirectorySourceChanged.

Definition detached (directory_id : Z) (f : FileEntry) : FileEntry :=
  if bool_decide (fe_parent f = Some directory_id /\ fe_unlinked f = true)
  then {| fe_parent := None; fe_name := fe_name f; fe_unlinked := true |} else f.

(** [UPDATE files SET id_directory = NULL WHERE id_directory = $1 AND unlinked],
    under the index on the names of the root. *)
Definition detach_unlinked_files (directory_id : Z) : Nx unit := fun ns =>
  let files := detached directory_id <$> ns_files ns in
  if bool_decide (Exists (fun row =>
       fe_parent row.2 = Some directory_id /\ fe_unlinked row.2 = true /\
       Exists (fun other => other.1 <> row.1 /\ file_where other.2 = (None, fe_name row.2)) (map_to_list files))
       (map_to_list (ns_files ns)))
  then Err UNIQUE_VIOLATION
  else Ok (tt, set_ns_files files ns).

Definition DIRECTORY_NOT_EMPTY : string := "FOD_DIRECTORY_NOT_EMPTY".

Definition unlink_directory_body (directory_id : Z) (parent_id : option Z) (key : Z * string) (actor_uid : Z)
    (parent_actor : option (Actor * bool)) : Nx DirectoryUnlinkOutcome := fun ns =>
  if negb (row_named directory_place directory_id key (ns_directories ns)) then Ok (DirectorySourceChanged, ns)
  else
    (_ ← nx_read (check_parent_actor parent_id parent_actor);
     _ ← nx_read (require_sticky_removal_on_conn parent_id KDir directory_id actor_uid);
     if directory_has_children directory_id ns then mret NotEmpty
     else
       _ ← detach_unlinked_files directory_id;
       ns ← nx_get;
       if negb (row_named directory_place directory_id key (ns_directories ns)) then nx_err NAMESPACE_SOURCE_CHANGED
       else if directory_has_children directory_id ns then nx_err DIRECTORY_NOT_EMPTY
       else
         _ ← delete_directory directory_id;
         mret Removed) ns.

Definition unlink_directory_entry_internal (directory_id : Z) (parent_id : option Z) (name : string) (actor_uid : Z)
    (parent_actor : option (Actor * bool)) (ns : NsDb) : outcome string DirectoryUnlinkOutcome * NsDb :=
  if bool_decide (name ∈ [""; "/"; "."; ".."]%string) || bool_decide (SLASH ∈ txt name)
  then (Err "invalid directory unlink name"%string, ns)
  else match namespace_serialization_key parent_id name with
       | Ok key =>
           match ns_transaction (unlink_directory_body directory_id parent_id key actor_uid parent_actor) ns with
           | (Err err, ns') => (if String.eqb err DIRECTORY_NOT_EMPTY then Ok NotEmpty else Err err, ns')
           | r => r
           end
       | Err e => (Err e, ns)
       | Panic => (Panic, ns)
       end.

(** ** Plain removals *)

Definition delete_hardlink_entry (hardlink_id : Z) (ns : NsDb) : outcome string unit * NsDb :=
  ns_transaction (fun ns =>
    match ns_hardlinks ns !! hardlink_id with
    | None => Ok (tt, ns)
    | Some _ => delete_hardlink hardlink_id ns
    end) ns.

Definition delete_symlink_entry (symlink_id : Z) (ns : NsDb) : outcome string unit * NsDb :=
  ns_transaction (delete_symlink symlink_id) ns.

Definition delete_symlink_hardlink_entry (symlink_hardlink_id : Z) (ns : NsDb) : outcome string unit * NsDb :=
  ns_transaction (delete_symlink_hardlink symlink_hardlink_id) ns.

Definition delete_directory_entry (directory_id : Z) (ns : NsDb) : outcome string unit * NsDb :=
  ns_transaction (delete_directory directory_id) ns.

(** ** Creating entries *)

(** The expected name of the source of a link. *)
Record SourceNamespaceBinding := { sb_kind : EntryKind; sb_entry_id : Z; sb_parent_id : option Z; sb_name : string }.

Definition source_namespace_binding_matches_on_conn (b : SourceNamespaceBinding) (backing_id : Z) (ns : NsDb) : bool :=
  let key := (parent_key (sb_parent_id b), sb_name b) in
  match sb_kind b with
  | KFile => row_named file_place (sb_entry_id b) key (ns_files ns) && (sb_entry_id b =? backing_id)
  | KHardlink =>
      row_named hardlink_place (sb_entry_id b) key (ns_hardlinks ns)
      && bool_decide (h_file <$> ns_hardlinks ns !! sb_entry_id b = Some backing_id)
  | _ => false
  end.

Definition symlink_source_namespace_binding_matches_on_conn (b : SourceNamespaceBinding) (symlink_id : Z)
    (ns : NsDb) : bool :=
  let key := (parent_key (sb_parent_id b), sb_name b) in
  match sb_kind b with
  | KSymlink => row_named symlink_place (sb_entry_id b) key (ns_symlinks ns) && (sb_entry_id b =? symlink_id)
  | KSymlinkHardlink =>
      row_named symlink_hardlink_place (sb_entry_id b) key (ns_symlink_hardlinks ns)
      && bool_decide (sh_symlink <$> ns_symlink_hardlinks ns !! sb_entry_id b = Some symlink_id)
  | _ => false
  end.

(** A name that no [CString] or key can carry. *)
Definition name_refused (name : string) (binding : option SourceNamespaceBinding) : option string :=
  if has_nul name then Some "target name contains NUL byte"%string
  else match binding with
       | Some b => if has_nul (sb_name b) then Some "namespace key contains NUL byte"%string else None
       | None => None
       end.

Definition check_create_parent (use_posix_acl : bool) (parent_id : option Z) (parent_actor : option Actor) (ns : NsDb)
    : outcome string unit :=
  match parent_actor with
  | Some a => check_parent use_posix_acl parent_id a ns
  | None => Ok tt
  end.

Definition create_hardlink_body (hardlink_id source_file_id : Z) (parent_id : option Z) (name : string) (uid gid : Z)
    (parent_actor : option Actor) (binding : option SourceNamespaceBinding) (use_posix_acl : bool) : Nx Z := fun ns =>
  if negb (lock_file_lifecycle_on_conn source_file_id ns) then Err LINK_SOURCE_UNAVAILABLE
  else if match binding with
          | Some b => negb (source_namespace_binding_matches_on_conn b source_file_id ns)
          | None => false
          end then Err NAMESPACE_SOURCE_CHANGED
  else if bool_decide (fe_unlinked <$> ns_files ns !! source_file_id = Some true) then Err LINK_SOURCE_UNAVAILABLE
  else
    (_ ← nx_read (check_create_parent use_posix_acl parent_id parent_actor);
     _ ← nx_read (require_namespace_vacant_on_conn parent_id name);
     insert_row hardlink_where ns_hardlinks set_hardlinks hardlink_id
       {| h_file := source_file_id; h_parent := parent_id; h_name := name; h_uid := uid; h_gid := gid |}) ns.

Definition confirm_created_hardlink (parent_id : option Z) (name : string) (source_file_id uid gid : Z) (ns : NsDb)
    : option Z :=
  row ← head (rows_in hardlink_place parent_id name (ns_hardlinks ns));
  if (h_file row.2 =? source_file_id) && (h_uid row.2 =? uid) && (h_gid row.2 =? gid) then Some row.1 else None.

Definition create_hardlink_internal (hardlink_id source_file_id : Z) (parent_id : option Z) (name : string)
    (uid gid : Z) (parent_actor : option Actor) (binding : option SourceNamespaceBinding) (use_posix_acl : bool)
    (ns : NsDb) : outcome string Z * NsDb :=
  match name_refused name binding with
  | Some e => (Err e, ns)
  | None =>
      run_create
        (create_hardlink_body hardlink_id source_file_id parent_id name uid gid parent_actor binding use_posix_acl)
        (confirm_created_hardlink parent_id name source_file_id uid gid) ns
  end.

Definition create_symlink_hardlink_body (alias_id symlink_id : Z) (parent_id : option Z) (name : string)
    (parent_actor : option Actor) (binding : option SourceNamespaceBinding) (use_posix_acl : bool) : Nx Z := fun ns =>
  if bool_decide (ns_symlinks ns !! symlink_id = None) then Err LINK_SOURCE_UNAVAILABLE
  else if match binding with
          | Some b => negb (symlink_source_namespace_binding_matches_on_conn b symlink_id ns)
          | None => false
          end then Err NAMESPACE_SOURCE_CHANGED
  else
    (_ ← nx_read (check_create_parent use_posix_acl parent_id parent_actor);
     _ ← nx_read (require_namespace_vacant_on_conn parent_id name);
     insert_row symlink_hardlink_where ns_symlink_hardlinks set_symlink_hardlinks alias_id
       {| sh_symlink := symlink_id; sh_parent := parent_id; sh_name := name |}) ns.

Definition confirm_created_symlink_hardlink (parent_id : option Z) (name : string) (symlink_id : Z) (ns : NsDb)
    : option Z :=
  fst <$> head (filter (fun row => sh_symlink row.2 = symlink_id)
                  (rows_in symlink_hardlink_place parent_id name (ns_symlink_hardlinks ns))).

Definition create_symlink_hardlink_internal (alias_id symlink_id : Z) (parent_id : option Z) (name : string)
    (parent_actor : option Actor) (binding : option SourceNamespaceBinding) (use_posix_acl : bool) (ns : NsDb)
    : outcome string Z * NsDb :=
  match name_refused name binding with
  | Some e => (Err e, ns)
  | None =>
      run_create
        (create_symlink_hardlink_body alias_id symlink_id parent_id name parent_actor binding use_posix_acl)
        (confirm_created_symlink_hardlink parent_id name symlink_id) ns
  end.

(** What a new inode starts with: its group, its mode, its ACLs. *)
Definition created_attributes (parent_id : option Z) (name : string) (gid mode umask : Z)
    (parent_actor : option Actor) (inherit_default_acl child_is_directory : bool) (ns : NsDb)
    : outcome string (Z * Z * option (bytes * option bytes)) :=
  _ ← check_create_parent inherit_default_acl parent_id parent_actor ns;
  _ ← require_namespace_vacant_on_conn parent_id name ns;
  '(effective_gid, inherited_mode) ← inherit_parent_setgid_on_conn parent_id gid mode child_is_directory ns;
  '(effective_mode, inherited_acl) ←
    (if inherit_default_acl
     then prepare_default_acl_inheritance_on_conn parent_id inherited_mode umask child_is_directory ns
     else Ok (inherited_mode, None));
  Ok (effective_gid, effective_mode, inherited_acl).

(** The group and mode the confirmation expects: those of this attempt once it
    got that far, else those an earlier attempt left ([prior], at first the
    requested ones). *)
Definition expected_attributes (attributes : outcome string (Z * Z * option (bytes * option bytes))) (prior : Z * Z)
    : Z * Z :=
  match attributes with
  | Ok (gid, mode, _) => (gid, mode)
  | _ => prior
  end.

Definition create_symlink_internal (symlink_id : Z) (parent_id : option Z) (name target : string) (uid gid : Z)
    (inode_seed : string) (parent_actor : option Actor) (use_posix_acl : bool) (prior_gid : Z) (ns : NsDb)
    : outcome string Z * NsDb :=
  let attributes ns :=
    _ ← check_create_parent use_posix_acl parent_id parent_actor ns;
    _ ← require_namespace_vacant_on_conn parent_id name ns;
    '(effective_gid, _) ← inherit_parent_setgid_on_conn parent_id gid 0 false ns;
    Ok (effective_gid, 0, None) in
  if has_nul name then (Err "target name contains NUL byte"%string, ns)
  else if has_nul target then (Err "symlink target contains NUL byte"%string, ns)
  else if has_nul inode_seed then (Err "inode seed contains NUL byte"%string, ns)
  else
    run_create
      ('(effective_gid, _, _) ← nx_read attributes;
       insert_row symlink_where ns_symlinks set_symlinks symlink_id
         {| s_parent := parent_id; s_name := name; s_target := target; s_uid := uid; s_gid := effective_gid;
            s_inode_seed := inode_seed |})
      (fun ns' =>
         row ← head (rows_in symlink_place parent_id name (ns_symlinks ns'));
         if String.eqb (trim_text (s_target row.2)) target && (s_uid row.2 =? uid)
            && (s_gid row.2 =? (expected_attributes (attributes ns) (prior_gid, 0)).1)
            && String.eqb (trim_text (s_inode_seed row.2)) inode_seed
         then Some row.1 else None) ns.

(** The mode column takes an octal text of at most four digits. *)
Definition check_mode (mode : Z) : Nx unit := if 4095 <? mode then nx_err CHECK_VIOLATION else mret tt.

Definition create_directory_internal (directory_id : Z) (parent_id : option Z) (name : string) (mode uid gid : Z)
    (inode_seed : string) (umask : Z) (parent_actor : option Actor) (inherit_default_acl : bool)
    (prior : Z * Z) (ns : NsDb) : outcome string Z * NsDb :=
  let attributes := created_attributes parent_id name gid mode umask parent_actor inherit_default_acl true in
  if has_nul name then (Err "target name contains NUL byte"%string, ns)
  else if has_nul inode_seed then (Err "inode seed contains NUL byte"%string, ns)
  else
    run_create
      ('(effective_gid, effective_mode, inherited_acl) ← nx_read attributes;
       _ ← check_mode effective_mode;
       insert_row directory_where ns_directories set_directories directory_id
         {| d_parent := parent_id; d_name := name; d_mode := effective_mode; d_uid := uid; d_gid := effective_gid;
            d_inode_seed := inode_seed; d_access_acl := fst <$> inherited_acl;
            d_default_acl := acls ← inherited_acl; acls.2 |})
      (fun ns' =>
         let '(expected_gid, expected_mode) := expected_attributes (attributes ns) prior in
         row ← head (rows_in directory_place parent_id name (ns_directories ns'));
         if (d_mode row.2 =? expected_mode) && (d_uid row.2 =? uid) && (d_gid row.2 =? expected_gid)
            && String.eqb (trim_text (d_inode_seed row.2)) inode_seed
         then Some row.1 else None) ns.

(** A seed no other file has: the requested one, or with the largest number of
    the files that already carry it. *)
Definition open_unlink_prefix (seed : string) : string := (seed ++ "#open-unlink:")%string.
Definition seed_users (requested : string) (ns : NsDb) : list Z :=
  fst <$> filter (fun row => f_inode_seed row.2 = requested
                             \/ starts_with (f_inode_seed row.2) (open_unlink_prefix requested) = true)
            (map_to_list (db_files (ns_db ns))).
Definition effective_file_inode_seed_on_conn (requested : string) (ns : NsDb) : string :=
  match seed_users requested ns with
  | [] => requested
  | ids => (open_unlink_prefix requested ++ z_text (foldr Z.max 0 ids))%string
  end.

Definition created_inode_seed_matches (actual requested : string) : bool :=
  String.eqb actual requested
  || match strip_prefix (txt (open_unlink_prefix requested)) (txt actual) with
     | Some suffix => negb (bool_decide (suffix = [])) && forallb is_digit suffix
     | None => false
     end.

Definition with_acl (acl : option bytes) (f : FileRow) : FileRow :=
  let '(Build_FileRow o s g m u gr sd _ c) := f in Build_FileRow o s g m u gr sd acl c.

(** A device node's kind and numbers; [file_kind] is a VARCHAR(10). *)
Definition store_special (file_id : Z) (special : option (string * Z * Z)) : Nx () :=
  match special with
  | Some node =>
      if 10 <? Z.of_nat (String.length node.1.1) then nx_err "SQLSTATE 22001: value too long"%string
      else nx_update (fun ns => set_special_files (<[file_id := node]> (ns_special_files ns)) ns)
  | None => mret tt
  end.

(** A file only stores the access ACL it inherits. *)
Definition store_inherited_default_acl_on_conn (file_id : Z) (inherited_acl : option (bytes * option bytes)) : Nx () :=
  match inherited_acl with
  | Some (access_acl, _) => nx_store (sql_update_file file_id (with_acl (Some access_acl)))
  | None => mret tt
  end.

(** The rows of a new file; [special] is the device node, if it is one. *)
Definition create_file_body (file_id : Z) (parent_id : option Z) (name : string) (uid : Z) (inode_seed : string)
    (special : option (string * Z * Z))
    (attributes : NsDb -> outcome string (Z * Z * option (bytes * option bytes))) : Nx Z :=
  '(effective_gid, effective_mode, inherited_acl) ← nx_read attributes;
  _ ← check_mode effective_mode;
  ns ← nx_get;
  let seed := effective_file_inode_seed_on_conn inode_seed ns in
  _ ← nx_store (insert_file_rows file_id effective_mode uid effective_gid seed);
  id ← insert_row file_where ns_files set_ns_files file_id
         {| fe_parent := parent_id; fe_name := name; fe_unlinked := false |};
  _ ← store_special file_id special;
  _ ← store_inherited_default_acl_on_conn file_id inherited_acl;
  mret id.

(** The file that is there is the one the create meant: empty, with the expected
    attributes and seed, and of the same kind. *)
Definition confirm_created_file (parent_id : option Z) (name : string) (uid : Z) (inode_seed : string)
    (special : option (string * Z * Z)) (expected : Z * Z) (ns : NsDb) : option Z :=
  row ← head (rows_in file_place parent_id name (ns_files ns));
  f ← db_files (ns_db ns) !! row.1;
  if bool_decide (ns_special_files ns !! row.1 = special) && (f_size f =? 0) && (f_mode f =? expected.2)
     && (f_uid f =? uid) && (f_gid f =? expected.1) && created_inode_seed_matches (trim_text (f_inode_seed f)) inode_seed
  then Some row.1 else None.

Definition create_file_with (special : option (string * Z * Z)) (file_id : Z) (parent_id : option Z) (name : string)
    (mode uid gid : Z) (inode_seed : string) (umask : Z) (parent_actor : option Actor) (inherit_default_acl : bool)
    (prior : Z * Z) (ns : NsDb) : outcome string Z * NsDb :=
  let attributes := created_attributes parent_id name gid mode umask parent_actor inherit_default_acl false in
  if has_nul name then (Err "namespace key contains NUL byte"%string, ns)
  else if has_nul inode_seed then (Err "file create serialization key contains NUL byte"%string, ns)
  else
    run_create (create_file_body file_id parent_id name uid inode_seed special attributes)
      (confirm_created_file parent_id name uid inode_seed special (expected_attributes (attributes ns) prior)) ns.

Definition create_file_internal := create_file_with None.

Definition create_special_file_internal (file_kind : string) (rdev_major rdev_minor : Z) (file_id : Z)
    (parent_id : option Z) (name : string) (mode uid gid : Z) (inode_seed : string) (umask : Z)
    (parent_actor : option Actor) (inherit_default_acl : bool) (prior : Z * Z) (ns : NsDb)
    : outcome string Z * NsDb :=
  if has_nul file_kind then (Err "file kind contains NUL byte"%string, ns)
  else create_file_with (Some (file_kind, rdev_major, rdev_minor)) file_id parent_id name mode uid gid inode_seed
         umask parent_actor inherit_default_acl prior ns.

(** ** Rename *)

(** [RenameNamespaceSource] and [RenameNamespaceTarget] have the same variants. *)
Inductive RenameNamespaceSource : Set :=
  | RenameFile (file_id : Z)
  | RenameHardlink (hardlink_id file_id : Z)
  | RenameSymlink (symlink_id : Z)
  | RenameSymlinkHardlink (hardlink_id symlink_id : Z)
  | RenameDirectory (directory_id : Z).
Definition RenameNamespaceTarget : Set := RenameNamespaceSource.

Definition entry_kind (e : RenameNamespaceSource) : EntryKind :=
  match e with
  | RenameFile _ => KFile
  | RenameHardlink _ _ => KHardlink
  | RenameSymlink _ => KSymlink
  | RenameSymlinkHardlink _ _ => KSymlinkHardlink
  | RenameDirectory _ => KDir
  end.
Definition rename_entry_id (e : RenameNamespaceSource) : Z :=
  match e with
  | RenameFile id | RenameSymlink id | RenameDirectory id => id
  | RenameHardlink id _ | RenameSymlinkHardlink id _ => id
  end.
Definition rename_file_id (e : RenameNamespaceSource) : option Z :=
  match e with
  | RenameFile file_id | RenameHardlink _ file_id => Some file_id
  | _ => None
  end.
Definition rename_symlink_id (e : RenameNamespaceSource) : option Z :=
  match e with
  | RenameSymlink symlink_id | RenameSymlinkHardlink _ symlink_id => Some symlink_id
  | _ => None
  end.

Inductive RenameFileReplaceOutcome : Set :=
  Applied | NoOpSameFile | Busy | SourceMissing | TargetExists | TargetNotEmpty | InvalidDirectoryCycle.

(** What [sql_resolve_entry] must return for the entry. *)
Definition resolves_to (e : RenameNamespaceSource) (resolved : option (EntryKind * Z * option Z)) : bool :=
  bool_decide (resolved = Some (entry_kind e, rename_entry_id e, rename_file_id e)).
Definition matches_target (target : option RenameNamespaceTarget) (resolved : option (EntryKind * Z * option Z))
    : bool :=
  match target with
  | None => bool_decide (resolved = None)
  | Some t => resolves_to t resolved
  end.

(** The recursive query [subtree]: a directory and everything below it. Every
    round adds the children of the directories found, so one round for each
    directory is enough. *)
Definition has_parent_in (found : gset Z) (d : DirectoryRow) : bool :=
  match d_parent d with Some parent => bool_decide (parent ∈ found) | None => false end.
Definition children_of (found : gset Z) (dirs : gmap Z DirectoryRow) : gset Z :=
  dom (filter (fun row => has_parent_in found row.2 = true) dirs).
Fixpoint subtree_from (rounds : nat) (found : gset Z) (dirs : gmap Z DirectoryRow) : gset Z :=
  match rounds with
  | O => found
  | S rounds => subtree_from rounds (found ∪ children_of found dirs) dirs
  end.
Definition subtree (directory_id : Z) (dirs : gmap Z DirectoryRow) : gset Z :=
  if bool_decide (is_Some (dirs !! directory_id)) then subtree_from (size dirs) {[directory_id]} dirs else ∅.

(** [source] is a directory and the new parent lies below it. *)
Definition rename_cycle (source : RenameNamespaceSource) (new_parent_id : option Z) (ns : NsDb) : bool :=
  match source, new_parent_id with
  | RenameDirectory directory_id, Some parent_id => bool_decide (parent_id ∈ subtree directory_id (ns_directories ns))
  | _, _ => false
  end.

(** [parent_ids.sort_unstable(); parent_ids.dedup()]: None comes first. *)
Definition sorted_parents (old_parent_id new_parent_id : option Z) : list (option Z) :=
  if bool_decide (old_parent_id = new_parent_id) then [old_parent_id]
  else if match old_parent_id, new_parent_id with
          | None, _ => true
          | Some old, Some new => old <? new
          | Some _, None => false
          end then [old_parent_id; new_parent_id]
  else [new_parent_id; old_parent_id].

Fixpoint check_parents (parents : list (option Z)) (parent_actor : option (Actor * bool)) (ns : NsDb)
    : outcome string unit :=
  match parents with
  | [] => Ok tt
  | parent_id :: parents => _ ← check_parent_actor parent_id parent_actor ns; check_parents parents parent_actor ns
  end.

(** The inode whose owner the sticky bit asks for. *)
Definition sticky_check (parent_id : option Z) (e : RenameNamespaceSource) (actor_uid : Z) (ns : NsDb)
    : outcome string unit :=
  let kind := match rename_file_id e, rename_symlink_id e with
              | Some _, _ => KFile
              | None, Some _ => KSymlink
              | None, None => entry_kind e
              end in
  let id := match rename_file_id e, rename_symlink_id e with
            | Some file_id, _ => file_id
            | None, Some symlink_id => symlink_id
            | None, None => rename_entry_id e
            end in
  require_sticky_removal_on_conn parent_id kind id actor_uid ns.

Definition same_inode (source : RenameNamespaceSource) (target : RenameNamespaceTarget) : bool :=
  match rename_file_id source, rename_file_id target with
  | Some s, Some t => s =? t
  | _, _ => false
  end
  || (bool_decide (is_Some (rename_symlink_id source))
      && bool_decide (rename_symlink_id source = rename_symlink_id target)).

(** [false]: the target directory is not empty. *)
Definition remove_target (target : RenameNamespaceTarget) (now : Z) : Nx bool := fun ns =>
  match target with
  | RenameFile file_id => (_ ← remove_primary_file_or_promote_hardlink_on_conn file_id now; mret true) ns
  | RenameHardlink hardlink_id _ => (_ ← delete_hardlink hardlink_id; mret true) ns
  | RenameSymlink symlink_id => (_ ← remove_symlink_entry_or_promote_on_conn symlink_id; mret true) ns
  | RenameSymlinkHardlink hardlink_id _ => (_ ← delete_symlink_hardlink hardlink_id; mret true) ns
  | RenameDirectory directory_id =>
      if directory_has_children directory_id ns then Ok (false, ns)
      else (_ ← delete_directory directory_id; mret true) ns
  end.

Definition move_source (source : RenameNamespaceSource) (new_parent_id : option Z) (new_name : string) : Nx unit :=
  match source with
  | RenameFile file_id => update_file_entry file_id (move_file new_parent_id new_name)
  | RenameHardlink hardlink_id _ => update_hardlink hardlink_id (move_hardlink new_parent_id new_name)
  | RenameSymlink symlink_id => update_symlink symlink_id (move_symlink new_parent_id new_name)
  | RenameSymlinkHardlink hardlink_id _ =>
      update_symlink_hardlink hardlink_id (move_symlink_hardlink new_parent_id new_name)
  | RenameDirectory directory_id => update_directory directory_id (move_directory new_parent_id new_name)
  end.

(** Expired leases on the two names go; a live one is a conflict. *)
Definition prune_destination (now : Z) (key : Z * string) (ns : NsDb) : NsDb :=
  set_destinations (partial_alter (prune_lease now) key (ns_destinations ns)) ns.
Definition write_lease_live (now : Z) (row : option WriteLeaseRow) : bool :=
  match row with Some l => now <? wl_lease_expires_at l | None => false end.

Definition prune_file_lease (now file_id : Z) (ns : NsDb) : NsDb :=
  set_ns_db (set_file_leases (partial_alter (prune_lease now) file_id (db_file_write_leases (ns_db ns))) (ns_db ns)) ns.

(** [true]: a file of the rename has a live write lease. [clk k] and [clk (k + 1)]
    are the times of the two statements. *)
Fixpoint file_lease_conflicts (file_ids : list Z) (k : nat) (clk : nat -> Z) (ns : NsDb) : bool * NsDb :=
  match file_ids with
  | [] => (false, ns)
  | file_id :: file_ids =>
      let ns := prune_file_lease (clk k) file_id ns in
      if write_lease_live (clk (S k)) (db_file_write_leases (ns_db ns) !! file_id) then (true, ns)
      else file_lease_conflicts file_ids (S (S k)) clk ns
  end.

Definition symlinks_present (ids : list Z) (ns : NsDb) : bool :=
  forallb (fun id => bool_decide (is_Some (ns_symlinks ns !! id))) ids.
Definition alias_as_expected (e : RenameNamespaceSource) (ns : NsDb) : bool :=
  match e with
  | RenameSymlinkHardlink hardlink_id symlink_id =>
      bool_decide (sh_symlink <$> ns_symlink_hardlinks ns !! hardlink_id = Some symlink_id)
  | _ => true
  end.

(** The permission checks, the removal of the target, the move. *)
Definition rename_apply (source : RenameNamespaceSource) (old_parent_id new_parent_id : option Z) (new_name : string)
    (target : option RenameNamespaceTarget) (actor_uid : Z) (parent_actor : option (Actor * bool)) (now : Z)
    : Nx RenameFileReplaceOutcome :=
  _ ← nx_read (check_parents (sorted_parents old_parent_id new_parent_id) parent_actor);
  _ ← nx_read (sticky_check old_parent_id source actor_uid);
  _ ← nx_read (fun ns => match target with Some t => sticky_check new_parent_id t actor_uid ns | None => Ok tt end);
  match target with
  | None => _ ← move_source source new_parent_id new_name; mret Applied
  | Some t =>
      if same_inode source t then mret NoOpSameFile
      else
        removed ← remove_target t now;
        if negb removed then mret TargetNotEmpty
        else _ ← move_source source new_parent_id new_name; mret Applied
  end.

(** From the two resolutions on. *)
Definition rename_resolved (source : RenameNamespaceSource) (old_parent_id : option Z) (new_parent_id : option Z)
    (new_name : string) (target : option RenameNamespaceTarget) (actor_uid : Z)
    (parent_actor : option (Actor * bool)) (now : Z) : Nx RenameFileReplaceOutcome := fun ns =>
  let entries := source :: option_list target in
  if negb (symlinks_present (omap rename_symlink_id entries) ns) then Ok (SourceMissing, ns)
  else if negb (forallb (fun e => alias_as_expected e ns) entries) then Ok (Busy, ns)
  else if rename_cycle source new_parent_id ns then Ok (InvalidDirectoryCycle, ns)
  else rename_apply source old_parent_id new_parent_id new_name target actor_uid parent_actor now ns.

Definition rename_body (source : RenameNamespaceSource) (old_parent_id : option Z) (old_name : string)
    (new_parent_id : option Z) (new_name : string) (target : option RenameNamespaceTarget) (actor_uid : Z)
    (no_replace : bool) (parent_actor : option (Actor * bool)) (locked : bool) (clk : nat -> Z)
    : Nx RenameFileReplaceOutcome := fun ns =>
  let old_key := (parent_key old_parent_id, old_name) in
  let new_key := (parent_key new_parent_id, new_name) in
  if negb locked then Ok (Busy, ns)
  else
    let ns := prune_destination (clk 0%nat) new_key (prune_destination (clk 0%nat) old_key ns) in
    if write_lease_live (clk 1%nat) (ns_destinations ns !! old_key) || write_lease_live (clk 1%nat) (ns_destinations ns !! new_key)
    then Ok (Busy, ns)
    else
      let '(conflict, ns) :=
        file_lease_conflicts (option_list (rename_file_id source) ++ omap rename_file_id (option_list target))
          2 clk ns in
      if conflict then Ok (Busy, ns)
      else match parse_resolved_rename_entry (resolve_entry_rows old_key ns) with
           | Ok current_source =>
               if negb (resolves_to source current_source) then Ok (SourceMissing, ns)
               else match parse_resolved_rename_entry (resolve_entry_rows new_key ns) with
                    | Ok current_target =>
                        if no_replace && bool_decide (is_Some current_target) then Ok (TargetExists, ns)
                        else if negb (matches_target target current_target) then Ok (Busy, ns)
                        else rename_resolved source old_parent_id new_parent_id new_name target actor_uid
                               parent_actor (clk 6%nat) ns
                    | _ => Ok (Busy, ns)
                    end
           | _ => Ok (Busy, ns)
           end.

(** [locked]: whether the try-locks on the names, files and symlinks are granted. *)
Definition rename_namespace_replace_with_ownership_guard_internal (source : RenameNamespaceSource)
    (old_parent_id : option Z) (old_name : string) (new_parent_id : option Z) (new_name : string)
    (expected_target : option RenameNamespaceTarget) (actor_uid : Z) (no_replace : bool)
    (parent_actor : option (Actor * bool)) (locked : bool) (clk : nat -> Z) (ns : NsDb)
    : outcome string RenameFileReplaceOutcome * NsDb :=
  if String.eqb old_name EmptyString || String.eqb new_name EmptyString
  then (Err "rename destination name is empty"%string, ns)
  else if has_nul old_name then (Err "old name contains NUL byte"%string, ns)
  else if has_nul new_name then (Err "new name contains NUL byte"%string, ns)
  else
    let target := if no_replace then None else expected_target in
    ns_transaction
      (ns_replay_confirmed
         (fun ns => match parse_resolved_rename_entry (resolve_entry_rows (parent_key new_parent_id, new_name) ns) with
                    | Ok resolved => if resolves_to source resolved then Some Applied else None
                    | _ => None
                    end)
         (rename_body source old_parent_id old_name new_parent_id new_name target actor_uid no_replace parent_actor
            locked clk)) ns.
