(* ===== verification/NamespaceTree.v ===== *)
(** * The namespace as a map from names to inodes

    What the five name tables of Namespace.v mean together: [view] gives every
    entry its name and inode, [lookup_name] is the inode a name resolves to
    through the query the transactions use. [ns_wf] is the invariant of the
    tables: one entry per name over all tables, existing parents and link
    targets, no links to unlinked files, and a directory forest without cycles. *)

From stdpp Require Import prelude list numbers gmap strings sorting relations.
From Stdlib Require Import ZArith Lia Ascii.
From S2P Require Import Prelude Text Errno Acl BlockStore StoreSafety WriteOwnership Namespace NamespaceOps.

#[local] Open Scope Z_scope.
Set Default Proof Using "Type".

(** ** Views *)

Inductive Inode : Set := IFile (id : Z) | ISymlink (id : Z) | IDir (id : Z).
#[global] Instance inode_eq_dec : EqDecision Inode.
Proof. solve_decision. Defined.

Definition Entry : Set := EntryKind * Z.
Definition name : Set := Z * string.
Definition View : Type := Entry -> option (name * Inode).

Definition row_view {R} (place_of : R -> option (option Z * string)) (inode_of : R -> Inode) (id : Z)
    (table : gmap Z R) : option (name * Inode) :=
  row ← table !! id;
  place ← place_of row;
  Some (place_key place, inode_of row).

Definition view (ns : NsDb) : View := fun e =>
  match e.1 with
  | KFile => row_view file_place (fun _ => IFile e.2) e.2 (ns_files ns)
  | KHardlink => row_view hardlink_place (fun h => IFile (h_file h)) e.2 (ns_hardlinks ns)
  | KSymlink => row_view symlink_place (fun _ => ISymlink e.2) e.2 (ns_symlinks ns)
  | KSymlinkHardlink => row_view symlink_hardlink_place (fun a => ISymlink (sh_symlink a)) e.2 (ns_symlink_hardlinks ns)
  | KDir => row_view directory_place (fun _ => IDir e.2) e.2 (ns_directories ns)
  end.

(** One entry per name. *)
Definition view_inj (v : View) : Prop :=
  forall e1 e2 k i1 i2, v e1 = Some (k, i1) -> v e2 = Some (k, i2) -> e1 = e2.
Definition binds (v : View) (k : name) (i : Inode) : Prop := exists e, v e = Some (k, i).
Definition free (v : View) (k : name) : Prop := forall e i, v e <> Some (k, i).

Definition vset (e : Entry) (x : option (name * Inode)) (v : View) : View :=
  fun e' => if decide (e' = e) then x else v e'.

Lemma vset_eq e x v : vset e x v e = x.
Proof. unfold vset. by rewrite decide_True. Qed.
Lemma vset_ne e e' x v : e' <> e -> vset e x v e' = v e'.
Proof. intros. unfold vset. by rewrite decide_False. Qed.

Lemma view_inj_ext v v' : (forall e, v' e = v e) -> view_inj v -> view_inj v'.
Proof. intros He Hv e1 e2 k i1 i2. rewrite !He. apply Hv. Qed.

Lemma view_inj_sub v v' : (forall e x, v' e = Some x -> v e = Some x) -> view_inj v -> view_inj v'.
Proof. intros He Hv e1 e2 k i1 i2 H1%He H2%He. by eapply Hv. Qed.

Lemma view_inj_vset v e k i :
  (forall e' i', e' <> e -> v e' <> Some (k, i')) -> view_inj v -> view_inj (vset e (Some (k, i)) v).
Proof.
  intros Hfree Hv e1 e2 k' i1 i2. unfold vset. do 2 case_decide; subst; [done|..].
  - intros [= <- <-] Hx. by destruct (Hfree e2 i2).
  - intros Hx [= <- <-]. by destruct (Hfree e1 i1).
  - apply Hv.
Qed.

Lemma view_inj_clear v e : view_inj v -> view_inj (vset e None v).
Proof. apply view_inj_sub. intros e' x. unfold vset. by case_decide. Qed.

(** The names and inodes of a view as a map. *)
Definition same_binds (v : View) (B : name -> Inode -> Prop) : Prop := forall k i, binds v k i <-> B k i.

Lemma binds_fun v k i i' : view_inj v -> binds v k i -> binds v k i' -> i = i'.
Proof. intros Hv [e H] [e' H']. assert (e = e') as -> by by eapply Hv. congruence. Qed.

Lemma binds_clear v e k i : view_inj v -> v e = Some (k, i) ->
  forall k' i', binds (vset e None v) k' i' <-> k' <> k /\ binds v k' i'.
Proof.
  intros Hv He k' i'. split.
  - intros [e' H]. unfold vset in H. case_decide as Hd; [done|]. split; [|by exists e'].
    intros ->. apply Hd. by eapply Hv.
  - intros [Hk [e' H]]. exists e'. rewrite vset_ne; [done|]. intros ->. congruence.
Qed.

Lemma binds_vset v e k i : view_inj v -> v e = None -> free v k ->
  forall k' i', binds (vset e (Some (k, i)) v) k' i' <-> (k' = k /\ i' = i) \/ (k' <> k /\ binds v k' i').
Proof.
  intros Hv He Hf k' i'. split.
  - intros [e' H]. unfold vset in H. case_decide as Hd; [left; by injection H as <- <-|right].
    split; [|by exists e']. intros ->. by eapply Hf.
  - intros [[-> ->]|[Hk [e' H]]]; [exists e; by rewrite vset_eq|]. exists e'. rewrite vset_ne; [done|].
    intros ->. congruence.
Qed.

(** Moving an entry to a free name. *)
Lemma binds_move v e k0 k i : view_inj v -> v e = Some (k0, i) -> free v k ->
  forall k' i', binds (vset e (Some (k, i)) v) k' i' <->
    (k' = k /\ i' = i) \/ (k' <> k /\ k' <> k0 /\ binds v k' i').
Proof.
  intros Hv He Hf k' i'.
  assert (Hx : forall e', vset e (Some (k, i)) v e' = vset e (Some (k, i)) (vset e None v) e').
  { intros e'. unfold vset. by case_decide. }
  assert (binds (vset e (Some (k, i)) v) k' i' <-> binds (vset e (Some (k, i)) (vset e None v)) k' i') as ->.
  { unfold binds. by setoid_rewrite Hx. }
  assert (Hfree : free (vset e None v) k) by (intros e' j; unfold vset; case_decide; [done|apply Hf]).
  rewrite binds_vset, (binds_clear v e k0 i) by (done || apply vset_eq || by apply view_inj_clear). tauto.
Qed.

(** A primary entry takes over the name of another entry of the same inode, which
    goes: only the old name of the primary is lost. *)
Lemma binds_promote v e h ke kh i : view_inj v -> e <> h -> v e = Some (ke, i) -> v h = Some (kh, i) ->
  forall k' i', binds (vset h None (vset e (Some (kh, i)) v)) k' i' <-> k' <> ke /\ binds v k' i'.
Proof.
  intros Hv Hne He Hh k' i'.
  assert (Hk : ke <> kh) by (intros ->; by apply Hne; eapply Hv).
  split.
  - intros [e' H]. unfold vset in H. repeat case_decide; subst; try done.
    + injection H as <- <-. split; [congruence|by exists h].
    + split; [|by exists e']. intros ->. by assert (e' = e) by by eapply Hv.
  - intros [Hke [e' H]]. destruct (decide (e' = h)) as [->|Hd].
    + exists e. rewrite vset_ne, vset_eq by done. congruence.
    + exists e'. rewrite !vset_ne; [done|..]; congruence.
Qed.

Lemma view_inj_promote v e h ke kh i : view_inj v -> e <> h -> v e = Some (ke, i) -> v h = Some (kh, i) ->
  view_inj (vset h None (vset e (Some (kh, i)) v)).
Proof.
  intros Hv Hne He Hh e1 e2 k i1 i2. unfold vset. repeat case_decide; subst; try done.
  - intros [= <- <-] Hx. by assert (e2 = h) by by eapply Hv.
  - intros Hx [= <- <-]. by assert (e1 = h) by by eapply Hv.
  - apply Hv.
Qed.

(** ** The directory forest *)

(** Following the parents ends at the root. *)
Inductive rooted (dirs : gmap Z DirectoryRow) : Z -> Prop :=
  | rooted_top d row : dirs !! d = Some row -> d_parent row = None -> rooted dirs d
  | rooted_below d row p : dirs !! d = Some row -> d_parent row = Some p -> rooted dirs p -> rooted dirs d.

(** [below dirs d x]: [x] is [d] or lies below it. *)
Inductive below (dirs : gmap Z DirectoryRow) (d : Z) : Z -> Prop :=
  | below_refl : is_Some (dirs !! d) -> below dirs d d
  | below_child x row p : dirs !! x = Some row -> d_parent row = Some p -> below dirs d p -> below dirs d x.

(** ** The invariant *)

(** [d] is named as a parent. *)
Definition parent_named (ns : NsDb) (d : Z) : Prop :=
  map_Exists (fun _ x => d_parent x = Some d) (ns_directories ns)
  \/ map_Exists (fun _ x => fe_parent x = Some d) (ns_files ns)
  \/ map_Exists (fun _ x => h_parent x = Some d) (ns_hardlinks ns)
  \/ map_Exists (fun _ x => s_parent x = Some d) (ns_symlinks ns)
  \/ map_Exists (fun _ x => sh_parent x = Some d) (ns_symlink_hardlinks ns).

(** [id] is a row of one of the tables. *)
Definition row_present (ns : NsDb) (id : Z) : Prop :=
  is_Some (ns_directories ns !! id) \/ is_Some (ns_files ns !! id) \/ is_Some (ns_hardlinks ns !! id)
  \/ is_Some (ns_symlinks ns !! id) \/ is_Some (ns_symlink_hardlinks ns !! id).

Definition linked (ns : NsDb) (file_id : Z) : Prop :=
  exists f, ns_files ns !! file_id = Some f /\ fe_unlinked f = false.

Record ns_wf (ns : NsDb) : Prop := {
  nw_inj : view_inj (view ns);
  nw_pos : forall id, row_present ns id -> 0 < id;
  nw_parents : forall d, parent_named ns d -> is_Some (ns_directories ns !! d);
  nw_files : forall id, is_Some (ns_files ns !! id) <-> is_Some (db_files (ns_db ns) !! id);
  nw_links : forall id h, ns_hardlinks ns !! id = Some h -> linked ns (h_file h);
  nw_aliases : forall id a, ns_symlink_hardlinks ns !! id = Some a -> is_Some (ns_symlinks ns !! sh_symlink a);
  nw_tree : forall d, is_Some (ns_directories ns !! d) -> rooted (ns_directories ns) d;
  nw_db : wf_db (ns_db ns);
  nw_specials : forall id, is_Some (ns_special_files ns !! id) -> is_Some (ns_files ns !! id);
}.

(** ** Resolution *)

Definition inode_file (i : Inode) : option Z := match i with IFile f => Some f | _ => None end.

Lemma elem_of_rows_at {R} place_of key (table : gmap Z R) id row :
  (id, row) ∈ rows_at place_of key table <-> table !! id = Some row /\ place_key <$> place_of row = Some key.
Proof. unfold rows_at. rewrite list_elem_of_filter, elem_of_map_to_list. cbn. tauto. Qed.

Lemma rows_at_NoDup {R} place_of key (table : gmap Z R) : NoDup (rows_at place_of key table).
Proof. apply NoDup_filter, NoDup_map_to_list. Qed.

(** The rows of one table, tagged with their kind. *)
Lemma elem_of_tagged {R} (tag : Z * R -> EntryKind * Z * option Z) place_of inode_of key (table : gmap Z R) kind k id fid :
  (forall id row, tag (id, row) = (kind, id, inode_file (inode_of id row))) ->
  (k, id, fid) ∈ (tag <$> rows_at place_of key table) <->
  k = kind /\ exists i, row_view place_of (inode_of id) id table = Some (key, i) /\ fid = inode_file i.
Proof.
  intros Ht. rewrite list_elem_of_fmap. unfold row_view. split.
  - intros ([id' row] & Heq & Hin). rewrite Ht in Heq. injection Heq as -> -> ->.
    apply elem_of_rows_at in Hin as [Hl Hp]. split; [done|]. exists (inode_of id' row). rewrite Hl. cbn.
    destruct (place_of row) as [p|]; [|done]. injection Hp as Hp. cbn. by rewrite Hp.
  - intros (-> & i & Hv & ->). destruct (table !! id) as [row|] eqn:Hl; [|done]. cbn in Hv.
    destruct (place_of row) as [p|] eqn:Hp; [|done]. injection Hv as Hk <-. exists (id, row).
    rewrite Ht, elem_of_rows_at, Hp. cbn. by rewrite Hk.
Qed.

Lemma tagged_NoDup {R} (tag : Z * R -> EntryKind * Z * option Z) place_of key (table : gmap Z R) :
  (forall x y, (tag x).1 = (tag y).1 -> x.1 = y.1) -> NoDup (tag <$> rows_at place_of key table).
Proof.
  intros Ht. apply NoDup_fmap_2_strong; [|apply rows_at_NoDup].
  intros [id row] [id' row'] H%elem_of_rows_at H'%elem_of_rows_at Heq.
  assert (id = id') as -> by (apply (Ht (id, row) (id', row')); by rewrite Heq). f_equal. naive_solver.
Qed.

Definition all_entry_rows (key : name) (ns : NsDb) : list (EntryKind * Z * option Z) :=
  ((fun r => (KDir, r.1, None)) <$> rows_at directory_place key (ns_directories ns))
  ++ ((fun r => (KFile, r.1, Some r.1)) <$> rows_at file_place key (ns_files ns))
  ++ ((fun r => (KHardlink, r.1, Some (h_file r.2))) <$> rows_at hardlink_place key (ns_hardlinks ns))
  ++ ((fun r => (KSymlink, r.1, None)) <$> rows_at symlink_place key (ns_symlinks ns))
  ++ ((fun r => (KSymlinkHardlink, r.1, None)) <$> rows_at symlink_hardlink_place key (ns_symlink_hardlinks ns)).

Lemma elem_of_all_rows key ns k id fid :
  (k, id, fid) ∈ all_entry_rows key ns <-> exists i, view ns (k, id) = Some (key, i) /\ fid = inode_file i.
Proof.
  unfold all_entry_rows. rewrite !elem_of_app,
    (elem_of_tagged _ _ (fun id (_ : DirectoryRow) => IDir id) _ _ KDir),
    (elem_of_tagged _ _ (fun id (_ : FileEntry) => IFile id) _ _ KFile),
    (elem_of_tagged _ _ (fun _ h => IFile (h_file h)) _ _ KHardlink),
    (elem_of_tagged _ _ (fun id (_ : SymlinkRow) => ISymlink id) _ _ KSymlink),
    (elem_of_tagged _ _ (fun _ a => ISymlink (sh_symlink a)) _ _ KSymlinkHardlink) by done.
  unfold view. cbn [fst snd]. destruct k; naive_solver.
Qed.

Lemma all_rows_NoDup key ns : NoDup (all_entry_rows key ns).
Proof.
  unfold all_entry_rows. rewrite !NoDup_app. split_and!;
    try (apply tagged_NoDup; by intros [] [] [= ->]);
    intros [[k id] fid]; rewrite ?elem_of_app, !list_elem_of_fmap; naive_solver.
Qed.

(** Distinct rows for one name would be two entries with it. *)
Lemma all_rows_singleton key ns : view_inj (view ns) ->
  all_entry_rows key ns = [] \/ exists x, all_entry_rows key ns = [x].
Proof.
  intros Hinj. pose proof (all_rows_NoDup key ns) as Hnd.
  assert (Heq : forall x y, x ∈ all_entry_rows key ns -> y ∈ all_entry_rows key ns -> x = y).
  { intros [[k id] fid] [[k' id'] fid'] (i & Hv & ->)%elem_of_all_rows (i' & Hv' & ->)%elem_of_all_rows.
    assert ((k, id) = (k', id')) as [= -> ->] by by eapply Hinj. rewrite Hv in Hv'. by injection Hv' as ->. }
  destruct (all_entry_rows key ns) as [|x [|y l]]; [by left|right; by exists x|exfalso].
  apply NoDup_cons in Hnd as [Hx _]. apply Hx. rewrite (Heq x y) by set_solver. left.
Qed.

Definition resolve (key : name) (ns : NsDb) : outcome unit (option (EntryKind * Z * option Z)) :=
  parse_resolved_rename_entry (resolve_entry_rows key ns).

Lemma row_positive ns k id : ns_wf ns -> is_Some (view ns (k, id)) -> 0 < id.
Proof.
  intros Hwf [x Hv]. apply (nw_pos _ Hwf). unfold view, row_view in Hv. cbn [fst snd] in Hv. unfold row_present.
  destruct k; (match type of Hv with context [?m !! id] => destruct (m !! id) eqn:?; [|done] end); eauto 10.
Qed.

Lemma view_file_kind ns k id key i : view ns (k, id) = Some (key, i) ->
  bool_decide (k = KFile \/ k = KHardlink) = bool_decide (is_Some (inode_file i)).
Proof.
  intros Hv. unfold view, row_view in Hv. cbn [fst snd] in Hv.
  destruct k; (match type of Hv with context [?m !! id] => destruct (m !! id) eqn:?; [|done] end); cbn in Hv;
    try (destruct (file_place _); [|done]); cbn in Hv; injection Hv as _ <-; cbn; repeat case_bool_decide; naive_solver.
Qed.

Lemma view_file_positive ns e key f : ns_wf ns -> view ns e = Some (key, IFile f) -> 0 < f.
Proof.
  intros Hwf Hv. apply (nw_pos _ Hwf). destruct e as [k id]. unfold view, row_view in Hv. cbn [fst snd] in Hv.
  destruct k; (match type of Hv with context [?m !! id] => destruct (m !! id) eqn:Hl; [|done] end); cbn in Hv;
    try (destruct (file_place _); [|done]); try done; cbn in Hv; injection Hv as _ <-.
  - unfold row_present. eauto.
  - destruct (nw_links _ Hwf _ _ Hl) as (g & Hg & _). unfold row_present. eauto.
Qed.

(** The query answers for every name: nothing, or its one entry. *)
Lemma resolve_cases key ns : ns_wf ns ->
  (resolve key ns = Ok None /\ free (view ns) key) \/
  exists k id i, resolve key ns = Ok (Some (k, id, inode_file i)) /\ view ns (k, id) = Some (key, i).
Proof.
  intros Hwf. unfold resolve, resolve_entry_rows. fold (all_entry_rows key ns).
  destruct (all_rows_singleton key ns (nw_inj _ Hwf)) as [E|([[k id] fid] & E)]; rewrite E; [left|right].
  - split; [done|]. intros [k id] i Hv. assert (Hin : (k, id, inode_file i) ∈ all_entry_rows key ns)
      by (apply elem_of_all_rows; by exists i). rewrite E in Hin. by apply not_elem_of_nil in Hin.
  - assert (Hin : (k, id, fid) ∈ all_entry_rows key ns) by (rewrite E; set_solver).
    apply elem_of_all_rows in Hin as (i & Hv & ->). exists k, id, i. split; [|done]. cbn.
    pose proof (row_positive ns k id Hwf ltac:(by rewrite Hv)). replace (id <=? 0) with false by lia.
    rewrite (view_file_kind _ _ _ _ _ Hv), eqb_reflx.
    destruct i as [f| |]; cbn; try done.
    pose proof (view_file_positive _ _ _ _ Hwf Hv). by replace (f <=? 0) with false by lia.
Qed.

(** The inode a name resolves to. *)
Definition lookup_name (key : name) (ns : NsDb) : option Inode :=
  match resolve key ns with
  | Ok (Some (k, id, _)) => snd <$> view ns (k, id)
  | _ => None
  end.

Lemma lookup_name_binds key ns i : ns_wf ns -> lookup_name key ns = Some i <-> binds (view ns) key i.
Proof.
  intros Hwf. unfold lookup_name.
  destruct (resolve_cases key ns Hwf) as [[-> Hfree]|(k & id & j & -> & Hv)].
  - split; [done|]. intros [e He]. by destruct (Hfree e i).
  - rewrite Hv. cbn. split; [intros [= <-]; by exists (k, id)|].
    intros Hb. f_equal. apply (binds_fun (view ns) key); [apply Hwf|by exists (k, id)|done].
Qed.

Lemma resolve_lookup key ns k id fid : ns_wf ns -> resolve key ns = Ok (Some (k, id, fid)) ->
  exists i, view ns (k, id) = Some (key, i) /\ fid = inode_file i.
Proof.
  intros Hwf. destruct (resolve_cases key ns Hwf) as [[-> _]|(k' & id' & i & -> & Hv)]; [done|].
  intros [= <- <- <-]. by exists i.
Qed.

Lemma resolve_free key ns : ns_wf ns -> resolve key ns = Ok None -> free (view ns) key.
Proof. intros Hwf. by destruct (resolve_cases key ns Hwf) as [[-> ?]|(k & id & i & -> & _)]. Qed.

(** The vacancy check sees the same entries. *)
Lemma occupied_free key ns : occupied_by key ns = None -> free (view ns) key.
Proof.
  intros Ho [k id] i Hv. unfold occupied_by in Ho. apply head_None in Ho.
  assert (Hin : (k, id, inode_file i) ∈ all_entry_rows key ns) by (apply elem_of_all_rows; by exists i).
  unfold all_entry_rows in Hin. repeat setoid_rewrite app_nil in Ho. destruct Ho as (E1 & E2 & E3 & E4 & E5).
  apply fmap_nil_inv in E1, E2, E3, E4, E5. rewrite E1, E2, E3, E4, E5 in Hin. set_solver.
Qed.

Lemma vacant_free parent_id nm ns u : require_namespace_vacant_on_conn parent_id nm ns = Ok u ->
  free (view ns) (parent_key parent_id, nm) /\
  (forall p, parent_id = Some p -> is_Some (ns_directories ns !! p)).
Proof.
  unfold require_namespace_vacant_on_conn. destruct (match parent_id with Some _ => _ | None => false end) eqn:Hp; [done|].
  destruct (has_nul nm); [done|]. destruct (occupied_by _ ns) eqn:Ho; [done|]. intros _. split.
  - by apply occupied_free.
  - intros p ->. apply bool_decide_eq_false in Hp. destruct (ns_directories ns !! p); [eauto|done].
Qed.

(** ** The subtree query and the forest *)

Lemma elem_of_children found dirs x :
  x ∈ children_of found dirs <-> exists row p, dirs !! x = Some row /\ d_parent row = Some p /\ p ∈ found.
Proof.
  unfold children_of. rewrite elem_of_dom. unfold is_Some. setoid_rewrite map_lookup_filter_Some. unfold has_parent_in.
  cbn. split.
  - intros (row & Hl & Hp). destruct (d_parent row) as [p|] eqn:E; [|done]. apply bool_decide_eq_true in Hp. eauto.
  - intros (row & p & Hl & E & Hp). exists row. rewrite E. by rewrite bool_decide_eq_true.
Qed.

Lemma subtree_from_sound dirs d n : forall found,
  (forall x, x ∈ found -> below dirs d x) -> forall x, x ∈ subtree_from n found dirs -> below dirs d x.
Proof.
  induction n as [|n IH]; intros found Hf x; [apply Hf|]. cbn. apply IH. intros y [Hy|Hy]%elem_of_union; [by apply Hf|].
  apply elem_of_children in Hy as (row & p & Hl & Hp & Hin). by eapply below_child; [..|apply Hf].
Qed.

Lemma subtree_from_fix dirs n : forall found, children_of found dirs ⊆ found -> subtree_from n found dirs = found.
Proof.
  induction n as [|n IH]; intros found Hf; [done|]. cbn.
  assert (found ∪ children_of found dirs = found) as -> by set_solver. by apply IH.
Qed.

(** Enough rounds close the set under children. *)
Lemma subtree_from_closed dirs n : forall found,
  found ⊆ dom dirs -> (size dirs <= n + size found)%nat ->
  children_of (subtree_from n found dirs) dirs ⊆ subtree_from n found dirs.
Proof.
  assert (Hch : forall found, children_of found dirs ⊆ dom dirs).
  { intros found x (row & p & Hl & _)%elem_of_children. apply elem_of_dom. eauto. }
  induction n as [|n IH]; intros found Hf Hn.
  - cbn in *. etrans; [apply Hch|]. assert (found = dom dirs) as ->; [|done].
    apply set_subseteq_size_eq; [done|]. by rewrite size_dom.
  - destruct (decide (children_of found dirs ⊆ found)) as [Hc|Hc]; [by rewrite subtree_from_fix|]. cbn.
    apply IH; [specialize (Hch found); set_solver|].
    assert (found ⊂ found ∪ children_of found dirs) as Hlt%subset_size by set_solver. lia.
Qed.

Lemma subtree_from_sub dirs n : forall found, found ⊆ subtree_from n found dirs.
Proof. induction n as [|n IH]; intros found; [done|]. cbn. etrans; [|apply IH]. set_solver. Qed.

(** The query finds exactly the directory and what lies below it. *)
Lemma elem_of_subtree dirs d x : x ∈ subtree d dirs <-> below dirs d x.
Proof.
  unfold subtree. case_bool_decide as Hd.
  - split.
    + apply subtree_from_sound. intros y ->%elem_of_singleton. by constructor.
    + assert (Hsub : {[d]} ⊆ dom dirs) by (apply singleton_subseteq_l, elem_of_dom, Hd).
      pose proof (subtree_from_closed dirs (size dirs) {[d]} Hsub ltac:(lia)) as Hc.
      induction 1 as [_|y row p Hl Hp _ IH]; [apply subtree_from_sub; set_solver|].
      apply Hc, elem_of_children. eauto.
  - split; [set_solver|]. induction 1 as [Hs|y row p Hl Hp _ IH]; [done|exact IH].
Qed.

Lemma rooted_present dirs d : rooted dirs d -> is_Some (dirs !! d).
Proof. destruct 1; eauto. Qed.

(** A chain that avoids [d] does not see a change of [d]'s row. *)
Lemma rooted_avoid dirs dirs' d x :
  is_Some (dirs !! d) -> (forall y, y <> d -> dirs' !! y = dirs !! y) -> rooted dirs x -> ~ below dirs d x -> rooted dirs' x.
Proof.
  intros Hd Heq Hr. induction Hr as [x row Hl Hp|x row p Hl Hp _ IH]; intros Hb.
  - apply (rooted_top dirs' x row); [|done]. rewrite Heq; [done|]. intros ->. apply Hb. by constructor.
  - apply (rooted_below dirs' x row p); [|done|].
    + rewrite Heq; [done|]. intros ->. apply Hb. by constructor.
    + apply IH. intros Hb'. apply Hb. by eapply below_child.
Qed.

(** Moving a directory to a place that is not below it keeps the forest. *)
Lemma rooted_move dirs d row row' :
  (forall x, is_Some (dirs !! x) -> rooted dirs x) -> dirs !! d = Some row ->
  (forall p, d_parent row' = Some p -> is_Some (dirs !! p) /\ ~ below dirs d p) ->
  forall x, is_Some (<[d := row']> dirs !! x) -> rooted (<[d := row']> dirs) x.
Proof.
  intros Hall Hd Hp. set (dirs' := <[d := row']> dirs).
  assert (Heq : forall y, y <> d -> dirs' !! y = dirs !! y) by (intros y Hy; by apply lookup_insert_ne).
  assert (Hself : rooted dirs' d).
  { destruct (d_parent row') as [p|] eqn:E.
    - destruct (Hp p eq_refl) as [Hex Hnb]. apply (rooted_below dirs' d row' p); [apply lookup_insert_eq|done|].
      apply (rooted_avoid dirs dirs' d p); [eauto|done|by apply Hall|done].
    - apply (rooted_top dirs' d row'); [apply lookup_insert_eq|done]. }
  intros x Hx. destruct (decide (x = d)) as [->|Hne]; [done|]. rewrite Heq in Hx by done.
  pose proof (Hall x Hx) as Hr. clear Hx. induction Hr as [x rw Hl Hpr|x rw p Hl Hpr Hr IH].
  - apply (rooted_top dirs' x rw); [by rewrite Heq|done].
  - apply (rooted_below dirs' x rw p); [by rewrite Heq|done|].
    destruct (decide (p = d)) as [->|]; [done|]. by apply IH.
Qed.

Lemma rooted_insert dirs d row :
  (forall x, is_Some (dirs !! x) -> rooted dirs x) -> dirs !! d = None ->
  (forall p, d_parent row = Some p -> is_Some (dirs !! p)) ->
  forall x, is_Some (<[d := row]> dirs !! x) -> rooted (<[d := row]> dirs) x.
Proof.
  intros Hall Hd Hp.
  assert (Hold : forall x, rooted dirs x -> rooted (<[d := row]> dirs) x).
  { induction 1 as [x rw Hl Hpr|x rw p Hl Hpr Hr IH].
    - apply (rooted_top _ x rw); [|done]. rewrite lookup_insert_ne; [done|congruence].
    - apply (rooted_below _ x rw p); [|done..]. rewrite lookup_insert_ne; [done|congruence]. }
  intros x. rewrite lookup_insert_is_Some. intros [<-|[Hne Hx]]; [|by apply Hold, Hall].
  destruct (d_parent row) as [p|] eqn:E.
  - apply (rooted_below _ d row p); [apply lookup_insert_eq|done|]. apply Hold, Hall, Hp, eq_refl.
  - apply (rooted_top _ d row); [apply lookup_insert_eq|done].
Qed.

Lemma rooted_delete dirs d :
  (forall x, is_Some (dirs !! x) -> rooted dirs x) -> (forall x row, dirs !! x = Some row -> d_parent row <> Some d) ->
  forall x, is_Some (delete d dirs !! x) -> rooted (delete d dirs) x.
Proof.
  intros Hall Hno x Hx. destruct (decide (x = d)) as [->|Hne]; [by rewrite lookup_delete_eq in Hx; destruct Hx|].
  rewrite lookup_delete_ne in Hx by done. pose proof (Hall x Hx) as Hr. clear Hx.
  induction Hr as [x row Hl Hp|x row p Hl Hp Hr IH].
  - apply (rooted_top _ x row); [by rewrite lookup_delete_ne|done].
  - apply (rooted_below _ x row p); [by rewrite lookup_delete_ne|done|]. apply IH. intros ->. by apply (Hno x row).
Qed.

(** No directory is below itself's child: the walk up from [x] never returns to [x]. *)
Lemma rooted_acyclic dirs d row p : rooted dirs d -> dirs !! d = Some row -> d_parent row = Some p -> ~ below dirs d p.
Proof.
  intros Hr. revert row p. induction Hr as [d rw Hl Hp|d rw q Hl Hp Hr IH]; intros row p Hd Hpp; [congruence|].
  assert (row = rw) as -> by congruence. assert (p = q) as -> by congruence. intros Hb. clear Hd.
  destruct (rooted_present _ _ Hr) as [rq Hq].
  inversion Hb as [Hs|x row' p' Hl' Hp' Hb']; subst.
  - eapply IH; [exact Hl|exact Hp|]. constructor. eauto.
  - apply (IH row' p'); [done|done|].
    clear -Hb' Hl Hp Hq. induction Hb' as [Hs|x r p' Hx Hpx Hb IHb].
    + eapply below_child; [exact Hl|exact Hp|]. constructor. eauto.
    + by eapply below_child.
Qed.
