(* ===== verification/NamespaceSafety.v ===== *)
(** * What the namespace operations preserve and do

    Every statement that changes a name table of Namespace.v keeps the invariant
    of NamespaceTree.v under the conditions the operations establish, and changes
    the [view] at one entry. From these lemmas follow the theorems on the
    operations of NamespaceOps.v: the invariant, the effect on the map from names
    to inodes, and what happens to the file behind a removed name. *)

From stdpp Require Import prelude list numbers gmap strings sorting relations.
From Stdlib Require Import ZArith Lia Ascii.
From S2P Require Import Prelude Text Errno Acl BlockStore StoreSafety WriteOwnership Namespace.
From S2P Require Import NamespaceOps NamespaceTree.

#[local] Open Scope Z_scope.
Set Default Proof Using "Type".

(** ** Monad and statement inversions *)

Lemma nx_bind_Ok {A B} (m : Nx A) (k : A -> Nx B) ns b ns' :
  (x ← m; k x) ns = Ok (b, ns') -> exists a ns1, m ns = Ok (a, ns1) /\ k a ns1 = Ok (b, ns').
Proof. unfold mbind, nx_bind. destruct (m ns) as [[a ns1]| |]; [|done..]. eauto. Qed.

Lemma nx_read_Ok {A} (f : NsDb -> outcome string A) ns a ns' :
  nx_read f ns = Ok (a, ns') -> f ns = Ok a /\ ns' = ns.
Proof. unfold nx_read. destruct (f ns); [|done..]. by intros [= -> ->]. Qed.

Ltac nx_inv H :=
  let a := fresh "r" in let ns1 := fresh "ns" in let H1 := fresh "H" in let H2 := fresh "H" in
  apply nx_bind_Ok in H as (a & ns1 & H1 & H2).

Definition parent_exists (parent_id : option Z) (ns : NsDb) : Prop :=
  forall p, parent_id = Some p -> is_Some (ns_directories ns !! p).

Lemma name_constraints_parent {R} (w : R -> option Z * string) table id parent_id nm ns u :
  name_constraints w table id parent_id nm ns = Ok u -> parent_exists parent_id ns.
Proof.
  unfold name_constraints. destruct (255 <? _); [done|]. destruct (bool_decide (Exists _ _)); [done|].
  destruct parent_id as [p|]; [|by intros _ ? [=]]. case_bool_decide as Hp; [done|].
  intros _ q [= <-]. destruct (ns_directories ns !! p); [eauto|done].
Qed.

Lemma update_row_Ok {R} (w : R -> option Z * string) table put id change ns u ns' :
  update_row w table put id change ns = Ok (u, ns') ->
  (table ns !! id = None /\ ns' = ns) \/
  exists row, table ns !! id = Some row /\ parent_exists (w (change row)).1 ns /\
    ns' = put (<[id := change row]> (table ns)) ns.
Proof.
  unfold update_row. destruct (table ns !! id) as [row|] eqn:Hl; [|intros [= _ <-]; by left].
  destruct (name_constraints _ _ _ _ _ _) eqn:Hc; cbn; [|done..]. intros [= _ <-]. right.
  apply name_constraints_parent in Hc. eauto.
Qed.

Lemma insert_row_Ok {R} (w : R -> option Z * string) table put id row ns r ns' :
  insert_row w table put id row ns = Ok (r, ns') ->
  table ns !! id = None /\ 0 < id /\ parent_exists (w row).1 ns /\ r = id /\ ns' = put (<[id := row]> (table ns)) ns.
Proof.
  unfold insert_row. case_bool_decide as Hs; [done|]. destruct (name_constraints _ _ _ _ _ _) eqn:Hc; cbn; [|done..].
  apply name_constraints_parent in Hc. destruct (Z.leb_spec id 0); [done|]. intros [= <- <-].
  split_and!; try done. by apply eq_None_not_Some.
Qed.

(** ** Changing a table under [map_Exists] *)

Lemma map_Exists_put {R} (P : Z -> R -> Prop) i x (m : gmap Z R) :
  map_Exists P (<[i := x]> m) -> P i x \/ map_Exists P m.
Proof. apply map_Exists_insert_1. Qed.

Lemma map_Exists_sub {R} (P : Z -> R -> Prop) (m m' : gmap Z R) :
  m' ⊆ m -> map_Exists P m' -> map_Exists P m.
Proof. intros Hs (i & x & Hl & Hp). exists i, x. split; [by eapply lookup_weaken|done]. Qed.

(** Where a table is changed at [id], a row of the new table is the new one or an
    old one. *)
Lemma is_Some_put {R} i (x : R) (m : gmap Z R) j : is_Some (<[i := x]> m !! j) -> j = i \/ is_Some (m !! j).
Proof. rewrite lookup_insert_is_Some. naive_solver. Qed.

Lemma is_Some_sub {R} (m m' : gmap Z R) j : m' ⊆ m -> is_Some (m' !! j) -> is_Some (m !! j).
Proof. intros Hs [x Hx]. exists x. by eapply lookup_weaken. Qed.

(** The view after a change of one row of one table. *)
Ltac view_cases :=
  intros [[] ?id]; unfold view, vset, row_view; cbn;
  repeat case_decide; simplify_eq; rewrite ?lookup_insert_eq, ?lookup_delete_eq; cbn; try done;
  rewrite ?lookup_insert_ne, ?lookup_delete_ne by congruence; done.

(** A parent named after the change is the new row's or was named before. *)
Ltac named_parents W Hp :=
  unfold parent_named in *; cbn in *;
  let d := fresh "d" in let Hd := fresh "Hd" in
  intros d Hd; repeat (destruct Hd as [Hd|Hd]);
  try (apply map_Exists_put in Hd as [Hd|Hd]; [by apply Hp|]);
  try apply (map_Exists_sub _ _ _ (delete_subseteq _ _)) in Hd;
  try apply (map_Exists_sub _ _ _ (map_filter_subseteq _ _)) in Hd;
  apply W; eauto 8.

Ltac present_rows W :=
  unfold row_present in *; cbn in *;
  let j := fresh "j" in let Hj := fresh "Hj" in
  intros j Hj; repeat (destruct Hj as [Hj|Hj]);
  try (apply is_Some_put in Hj as [->|Hj]; [done|]);
  try apply (is_Some_sub _ _ _ (delete_subseteq _ _)) in Hj;
  try apply (is_Some_sub _ _ _ (map_filter_subseteq _ _)) in Hj;
  apply W; eauto 8.

Definition taken_only_by (e : Entry) (k : name) (ns : NsDb) : Prop :=
  forall e' i, e' <> e -> view ns e' <> Some (k, i).

Lemma free_taken e k ns : free (view ns) k -> taken_only_by e k ns.
Proof. intros H e' i _. apply H. Qed.

Section put.
Context (ns : NsDb) (Hwf : ns_wf ns).

Ltac wf_parts :=
  destruct Hwf as [W1 W2 W3 W4 W5 W6 W7 W8 W9]; destruct ns as [db fs ds hs ss sh sp ol de]; cbn in *.

Lemma wf_put_hardlink id h :
  0 < id -> parent_exists (h_parent h) ns -> linked ns (h_file h) ->
  taken_only_by (KHardlink, id) (parent_key (h_parent h), h_name h) ns ->
  let ns' := set_hardlinks (<[id := h]> (ns_hardlinks ns)) ns in
  ns_wf ns' /\
  forall e, view ns' e = vset (KHardlink, id) (Some ((parent_key (h_parent h), h_name h), IFile (h_file h))) (view ns) e.
Proof using Hwf.
  intros Hid Hp Hl Hk ns'.
  assert (Hview : forall e, view ns' e =
    vset (KHardlink, id) (Some ((parent_key (h_parent h), h_name h), IFile (h_file h))) (view ns) e).
  { subst ns'. clear. destruct ns. view_cases. }
  split; [|done]. subst ns'. wf_parts. split; cbn; try done.
  - eapply view_inj_ext; [exact Hview|]. by apply view_inj_vset.
  - present_rows W2.
  - named_parents W3 Hp.
  - intros j g. rewrite lookup_insert_Some. intros [[<- <-]|[_ ?]]; [done|by apply (W5 j)].
Qed.

Lemma wf_del_hardlink id :
  let ns' := set_hardlinks (delete id (ns_hardlinks ns)) ns in
  ns_wf ns' /\ forall e, view ns' e = vset (KHardlink, id) None (view ns) e.
Proof using Hwf.
  intros ns'.
  assert (Hview : forall e, view ns' e = vset (KHardlink, id) None (view ns) e) by (subst ns'; clear; destruct ns; view_cases).
  split; [|done]. subst ns'. wf_parts. split; cbn; try done.
  - eapply view_inj_ext; [exact Hview|]. by apply view_inj_clear.
  - present_rows W2.
  - named_parents W3 W3.
  - intros j g [_ ?]%lookup_delete_Some. by apply (W5 j).
Qed.

Lemma wf_put_symlink id s :
  0 < id -> parent_exists (s_parent s) ns ->
  taken_only_by (KSymlink, id) (parent_key (s_parent s), s_name s) ns ->
  let ns' := set_symlinks (<[id := s]> (ns_symlinks ns)) ns in
  ns_wf ns' /\ forall e, view ns' e = vset (KSymlink, id) (Some ((parent_key (s_parent s), s_name s), ISymlink id)) (view ns) e.
Proof using Hwf.
  intros Hid Hp Hk ns'.
  assert (Hview : forall e, view ns' e =
    vset (KSymlink, id) (Some ((parent_key (s_parent s), s_name s), ISymlink id)) (view ns) e)
    by (subst ns'; clear; destruct ns; view_cases).
  split; [|done]. subst ns'. wf_parts. split; cbn; try done.
  - eapply view_inj_ext; [exact Hview|]. by apply view_inj_vset.
  - present_rows W2.
  - named_parents W3 Hp.
  - intros j a Ha. apply lookup_insert_is_Some'. right. by apply (W6 j).
Qed.

Lemma wf_del_symlink id :
  ~ map_Exists (fun _ a => sh_symlink a = id) (ns_symlink_hardlinks ns) ->
  let ns' := set_symlinks (delete id (ns_symlinks ns)) ns in
  ns_wf ns' /\ forall e, view ns' e = vset (KSymlink, id) None (view ns) e.
Proof using Hwf.
  intros Hno ns'.
  assert (Hview : forall e, view ns' e = vset (KSymlink, id) None (view ns) e) by (subst ns'; clear; destruct ns; view_cases).
  split; [|done]. subst ns'. wf_parts. split; cbn; try done.
  - eapply view_inj_ext; [exact Hview|]. by apply view_inj_clear.
  - present_rows W2.
  - named_parents W3 W3.
  - intros j a Ha. rewrite lookup_delete_ne; [by apply (W6 j)|]. intros Heq. apply Hno. exists j, a. by split; [|congruence].
Qed.

Lemma wf_put_alias id a :
  0 < id -> parent_exists (sh_parent a) ns -> is_Some (ns_symlinks ns !! sh_symlink a) ->
  taken_only_by (KSymlinkHardlink, id) (parent_key (sh_parent a), sh_name a) ns ->
  let ns' := set_symlink_hardlinks (<[id := a]> (ns_symlink_hardlinks ns)) ns in
  ns_wf ns' /\
  forall e, view ns' e =
    vset (KSymlinkHardlink, id) (Some ((parent_key (sh_parent a), sh_name a), ISymlink (sh_symlink a))) (view ns) e.
Proof using Hwf.
  intros Hid Hp Hs Hk ns'.
  assert (Hview : forall e, view ns' e =
    vset (KSymlinkHardlink, id) (Some ((parent_key (sh_parent a), sh_name a), ISymlink (sh_symlink a))) (view ns) e)
    by (subst ns'; clear; destruct ns; view_cases).
  split; [|done]. subst ns'. wf_parts. split; cbn; try done.
  - eapply view_inj_ext; [exact Hview|]. by apply view_inj_vset.
  - present_rows W2.
  - named_parents W3 Hp.
  - intros j b. rewrite lookup_insert_Some. intros [[<- <-]|[_ ?]]; [done|by apply (W6 j)].
Qed.

Lemma wf_del_alias id :
  let ns' := set_symlink_hardlinks (delete id (ns_symlink_hardlinks ns)) ns in
  ns_wf ns' /\ forall e, view ns' e = vset (KSymlinkHardlink, id) None (view ns) e.
Proof using Hwf.
  intros ns'.
  assert (Hview : forall e, view ns' e = vset (KSymlinkHardlink, id) None (view ns) e)
    by (subst ns'; clear; destruct ns; view_cases).
  split; [|done]. subst ns'. wf_parts. split; cbn; try done.
  - eapply view_inj_ext; [exact Hview|]. by apply view_inj_clear.
  - present_rows W2.
  - named_parents W3 W3.
  - intros j a [_ ?]%lookup_delete_Some. by apply (W6 j).
Qed.

(** A directory is put at a place that is not below it. *)
Lemma wf_put_directory id d :
  0 < id -> parent_exists (d_parent d) ns ->
  (forall p, d_parent d = Some p -> ~ below (ns_directories ns) id p) ->
  taken_only_by (KDir, id) (parent_key (d_parent d), d_name d) ns ->
  let ns' := set_directories (<[id := d]> (ns_directories ns)) ns in
  ns_wf ns' /\ forall e, view ns' e = vset (KDir, id) (Some ((parent_key (d_parent d), d_name d), IDir id)) (view ns) e.
Proof using Hwf.
  intros Hid Hp Hb Hk ns'.
  assert (Hview : forall e, view ns' e = vset (KDir, id) (Some ((parent_key (d_parent d), d_name d), IDir id)) (view ns) e)
    by (subst ns'; clear; destruct ns; view_cases).
  split; [|done]. subst ns'. wf_parts. split; cbn; try done.
  - eapply view_inj_ext; [exact Hview|]. by apply view_inj_vset.
  - present_rows W2.
  - intros q Hq. apply lookup_insert_is_Some'. destruct (decide (id = q)) as [->|Hne]; [by left|right].
    revert q Hq Hne. intros q Hq _. revert q Hq. named_parents W3 Hp.
  - destruct (ds !! id) as [row|] eqn:Hl; [apply (rooted_move ds id row d)|apply (rooted_insert ds id d)]; auto.
Qed.

Lemma wf_del_directory id :
  ~ parent_named ns id ->
  let ns' := set_directories (delete id (ns_directories ns)) ns in
  ns_wf ns' /\ forall e, view ns' e = vset (KDir, id) None (view ns) e.
Proof using Hwf.
  intros Hno ns'.
  assert (Hview : forall e, view ns' e = vset (KDir, id) None (view ns) e) by (subst ns'; clear; destruct ns; view_cases).
  split; [|done]. subst ns'. wf_parts. split; cbn; try done.
  - eapply view_inj_ext; [exact Hview|]. by apply view_inj_clear.
  - present_rows W2.
  - intros q Hq. assert (Hq' : parent_named (Build_NsDb db fs ds hs ss sh sp ol de) q).
    { unfold parent_named in *. cbn in *. repeat (destruct Hq as [Hq|Hq]);
        try apply (map_Exists_sub _ _ _ (delete_subseteq _ _)) in Hq; eauto 8. }
    rewrite lookup_delete_ne; [by apply W3|]. by intros <-.
  - apply rooted_delete; [done|]. intros x row Hx Hpr. apply Hno. left. by exists x, row.
Qed.

(** ** Files *)

Definition no_hardlinks (file_id : Z) : Prop := forall id h, ns_hardlinks ns !! id = Some h -> h_file h <> file_id.

(** A row of [files] is changed, or a new one put beside its row of the store. *)
Lemma wf_put_file id f db' :
  0 < id -> parent_exists (fe_parent f) ns -> wf_db db' ->
  (forall j, is_Some (db_files db' !! j) <-> j = id \/ is_Some (db_files (ns_db ns) !! j)) ->
  (fe_unlinked f = false -> taken_only_by (KFile, id) (parent_key (fe_parent f), fe_name f) ns) ->
  (fe_unlinked f = true -> no_hardlinks id) ->
  let ns' := set_ns_files (<[id := f]> (ns_files ns)) (set_ns_db db' ns) in
  ns_wf ns' /\
  forall e, view ns' e =
    vset (KFile, id) (if fe_unlinked f then None else Some ((parent_key (fe_parent f), fe_name f), IFile id)) (view ns) e.
Proof using Hwf.
  intros Hid Hp Hdb' Hdom Hk Hh ns'. unfold no_hardlinks in Hh.
  assert (Hview : forall e, view ns' e =
    vset (KFile, id) (if fe_unlinked f then None else Some ((parent_key (fe_parent f), fe_name f), IFile id)) (view ns) e).
  { subst ns'. clear. destruct ns as [db fs ds hs ss sh sp ol de]. intros [[] j]; unfold view, vset, row_view; cbn;
      case_decide; simplify_eq; rewrite ?lookup_insert_eq, ?lookup_insert_ne by congruence; cbn; try done.
    unfold file_place. by destruct (fe_unlinked f). }
  split; [|done]. subst ns'. wf_parts. split; cbn; try done.
  - eapply view_inj_ext; [exact Hview|].
    destruct (fe_unlinked f); [by apply view_inj_clear|apply view_inj_vset; [|done]; by apply Hk].
  - present_rows W2.
  - named_parents W3 Hp.
  - intros j. rewrite lookup_insert_is_Some', Hdom, W4. naive_solver.
  - intros j h Hj. destruct (W5 _ _ Hj) as (g & Hg & Hu). unfold linked. cbn.
    destruct (decide (id = h_file h)) as [->|Hne]; [|exists g; by rewrite lookup_insert_ne].
    exists f. rewrite lookup_insert_eq. split; [done|]. destruct (fe_unlinked f); [|done]. by destruct (Hh eq_refl j h).
  - intros j Hj. apply lookup_insert_is_Some'. right. by apply W9.
Qed.

(** A row that is in the store already stays there. *)
Lemma same_store id : is_Some (ns_files ns !! id) ->
  forall j, is_Some (db_files (ns_db ns) !! j) <-> j = id \/ is_Some (db_files (ns_db ns) !! j).
Proof using Hwf. intros Hid%(nw_files _ Hwf) j. naive_solver. Qed.

(** The primary name goes and the one of a hard link takes its place. *)
Lemma wf_promote id f hid h k :
  ns_files ns !! id = Some f -> fe_unlinked f = false -> ns_hardlinks ns !! hid = Some h -> h_file h = id ->
  view ns (KFile, id) = Some (k, IFile id) ->
  let ns' := set_hardlinks (delete hid (ns_hardlinks ns))
               (set_ns_files (<[id := move_file (h_parent h) (h_name h) f]> (ns_files ns)) ns) in
  ns_wf ns' /\
  forall e, view ns' e =
    vset (KHardlink, hid) None (vset (KFile, id) (Some ((parent_key (h_parent h), h_name h), IFile id)) (view ns)) e.
Proof using Hwf.
  intros Hf Hu Hh Hid Hk ns'. set (kh := (parent_key (h_parent h), h_name h)).
  assert (Hvh : view ns (KHardlink, hid) = Some (kh, IFile id)).
  { unfold view, row_view. cbn. rewrite Hh. cbn. by rewrite Hid. }
  assert (Hview : forall e, view ns' e =
    vset (KHardlink, hid) None (vset (KFile, id) (Some (kh, IFile id)) (view ns)) e).
  { subst ns' kh. clear -Hu. destruct ns as [db fs ds hs ss sh sp ol de]. intros [[] j]; unfold view, vset, row_view; cbn;
      repeat case_decide; simplify_eq; rewrite ?lookup_insert_eq, ?lookup_delete_eq; cbn; try done;
      rewrite ?lookup_insert_ne, ?lookup_delete_ne by congruence; try done.
    unfold file_place, move_file. cbn. by rewrite Hu. }
  split; [|done]. subst ns'. wf_parts. split; cbn; try done.
  - eapply view_inj_ext; [exact Hview|]. eapply (view_inj_promote _ (KFile, id) (KHardlink, hid)); done.
  - assert (0 < id) by (apply W2; unfold row_present; cbn; eauto). present_rows W2.
  - assert (Hp : forall d, h_parent h = Some d -> is_Some (ds !! d)).
    { intros d Hd. apply W3. unfold parent_named. cbn. right; right; left. by exists hid, h. }
    named_parents W3 Hp.
  - intros j. rewrite lookup_insert_is_Some', <- W4. naive_solver.
  - intros j g [Hne Hj]%lookup_delete_Some. destruct (W5 _ _ Hj) as (g' & Hg & Hug). unfold linked. cbn.
    destruct (decide (id = h_file g)) as [->|Hn]; [|exists g'; by rewrite lookup_insert_ne].
    eexists. rewrite lookup_insert_eq. split; [done|]. done.
  - intros j Hj. apply lookup_insert_is_Some'. right. by apply W9.
Qed.

(** The file goes for good. *)
Lemma wf_remove_file id db' :
  no_hardlinks id -> wf_db db' ->
  (forall j, is_Some (db_files db' !! j) <-> j <> id /\ is_Some (db_files (ns_db ns) !! j)) ->
  let ns' := cascade_file id (set_ns_db db' ns) in
  ns_wf ns' /\ forall e, view ns' e = vset (KFile, id) None (view ns) e.
Proof using Hwf.
  intros Hh Hdb' Hdom ns'. unfold no_hardlinks in Hh.
  assert (Hhs : filter (fun row => h_file row.2 <> id) (ns_hardlinks ns) = ns_hardlinks ns).
  { apply map_filter_id. intros j h Hj. by apply (Hh j). }
  assert (Hview : forall e, view ns' e = vset (KFile, id) None (view ns) e).
  { subst ns'. clear -Hhs. destruct ns as [db fs ds hs ss sh sp ol de]. cbn in *. rewrite Hhs. view_cases. }
  split; [|done]. subst ns'. wf_parts. rewrite Hhs in *. split; cbn; try done.
  - eapply view_inj_ext; [exact Hview|]. by apply view_inj_clear.
  - present_rows W2.
  - named_parents W3 W3.
  - intros j. rewrite lookup_delete_is_Some, Hdom, W4. naive_solver.
  - intros j h Hj. destruct (W5 _ _ Hj) as (g & Hg & Hug). exists g. cbn. split; [|done].
    rewrite lookup_delete_ne; [done|]. intros Heq. by apply (Hh _ _ Hj).
  - intros j. rewrite !lookup_delete_is_Some. naive_solver.
Qed.

(** Tables the invariant does not speak of. *)
Lemma ns_wf_frame ns' :
  ns_files ns' = ns_files ns -> ns_directories ns' = ns_directories ns -> ns_hardlinks ns' = ns_hardlinks ns ->
  ns_symlinks ns' = ns_symlinks ns -> ns_symlink_hardlinks ns' = ns_symlink_hardlinks ns ->
  (forall j, is_Some (ns_special_files ns' !! j) -> is_Some (ns_files ns !! j)) ->
  wf_db (ns_db ns') -> (forall j, is_Some (db_files (ns_db ns') !! j) <-> is_Some (db_files (ns_db ns) !! j)) ->
  ns_wf ns' /\ forall e, view ns' e = view ns e.
Proof using Hwf.
  intros E1 E2 E3 E4 E5 Hsp Hdb Hdom.
  assert (Hview : forall e, view ns' e = view ns e) by (intros e; unfold view; by rewrite E1, E2, E3, E4, E5).
  split; [|done]. destruct Hwf as [W1 W2 W3 W4 W5 W6 W7 W8 W9].
  split; unfold row_present, parent_named, linked in *; rewrite ?E1, ?E2, ?E3, ?E4, ?E5; try done.
  - by eapply view_inj_ext.
  - intros j. by rewrite Hdom.
Qed.

(** Unlinked files leave a directory for the root. *)
Lemma wf_detach directory_id :
  let ns' := set_ns_files (detached directory_id <$> ns_files ns) ns in
  ns_wf ns' /\ forall e, view ns' e = view ns e.
Proof using Hwf.
  intros ns'.
  assert (Hu : forall f, fe_unlinked (detached directory_id f) = fe_unlinked f).
  { intros f. unfold detached. by case_bool_decide as H; [destruct H|]. }
  assert (Hfp : forall f, file_place (detached directory_id f) = file_place f).
  { intros f. unfold detached, file_place. by case_bool_decide as H; [destruct H as [_ ->]|]. }
  assert (Hview : forall e, view ns' e = view ns e).
  { subst ns'. clear -Hfp. destruct ns as [db fs ds hs ss sh sp ol de]. intros [[] j]; unfold view, row_view; cbn; try done.
    rewrite lookup_fmap. destruct (fs !! j); cbn; [|done]. by rewrite Hfp. }
  split; [|done]. subst ns'. wf_parts. split; cbn; try done.
  - by eapply view_inj_ext.
  - intros j Hj. apply W2. unfold row_present in *. cbn in *. by rewrite lookup_fmap, fmap_is_Some in Hj.
  - intros d Hd. apply W3. unfold parent_named in *. cbn in *.
    destruct Hd as [?|[(j & g & Hj & Hg)|?]]; eauto 8. right; left.
    rewrite lookup_fmap in Hj. destruct (fs !! j) as [f|] eqn:Hf; [|done]. injection Hj as <-. exists j, f.
    split; [done|]. unfold detached in Hg. by case_bool_decide.
  - intros j. by rewrite lookup_fmap, fmap_is_Some.
  - intros j h Hj. destruct (W5 _ _ Hj) as (g & Hg & Hug). exists (detached directory_id g). cbn in *.
    by rewrite lookup_fmap, Hg, Hu.
  - intros j Hj. rewrite lookup_fmap, fmap_is_Some. by apply W9.
Qed.

End put.

(** ** Effects on the map from names to inodes *)

Definition same_names (ns ns' : NsDb) : Prop := ns_wf ns' /\ forall k i, binds (view ns') k i <-> binds (view ns) k i.
Definition unbound (k : name) (ns ns' : NsDb) : Prop :=
  ns_wf ns' /\ forall k' i, binds (view ns') k' i <-> k' <> k /\ binds (view ns) k' i.
Definition bound (k : name) (j : Inode) (ns ns' : NsDb) : Prop :=
  ns_wf ns' /\ forall k' i, binds (view ns') k' i <-> (k' = k /\ i = j) \/ (k' <> k /\ binds (view ns) k' i).

Lemma binds_ext v v' : (forall e, v' e = v e) -> forall k i, binds v' k i <-> binds v k i.
Proof. intros He k i. unfold binds. by setoid_rewrite He. Qed.

Lemma same_names_refl ns : ns_wf ns -> same_names ns ns.
Proof. by split. Qed.

Lemma same_names_view ns ns' : ns_wf ns' -> (forall e, view ns' e = view ns e) -> same_names ns ns'.
Proof. intros Hw Hv. split; [done|]. by apply binds_ext. Qed.

Lemma unbound_clear ns ns' e k i : ns_wf ns -> view ns e = Some (k, i) ->
  ns_wf ns' -> (forall e', view ns' e' = vset e None (view ns) e') -> unbound k ns ns'.
Proof.
  intros Hwf He Hw Hv. split; [done|]. intros k' i'. rewrite (binds_ext _ _ Hv). apply (binds_clear _ e k i); [apply Hwf|done].
Qed.

Lemma bound_vset ns ns' e k i : ns_wf ns -> view ns e = None -> free (view ns) k ->
  ns_wf ns' -> (forall e', view ns' e' = vset e (Some (k, i)) (view ns) e') -> bound k i ns ns'.
Proof.
  intros Hwf He Hf Hw Hv. split; [done|]. intros k' i'. rewrite (binds_ext _ _ Hv). apply binds_vset; [apply Hwf|done..].
Qed.

Lemma same_names_clear ns ns' e : ns_wf ns -> view ns e = None ->
  ns_wf ns' -> (forall e', view ns' e' = vset e None (view ns) e') -> same_names ns ns'.
Proof.
  intros Hwf He Hw Hv. apply same_names_view; [done|]. intros e'. rewrite Hv. unfold vset. by case_decide; subst.
Qed.

(** ** Lowest link *)

Lemma first_hardlink_Some file_id ns id h : first_hardlink file_id ns = Some (id, h) ->
  ns_hardlinks ns !! id = Some h /\ h_file h = file_id.
Proof.
  unfold first_hardlink. set (ids := fst <$> _). destruct (head (sort_z ids)) as [id'|] eqn:E; [|done]. cbn.
  destruct (ns_hardlinks ns !! id') as [h'|] eqn:Hl; [|done]. intros [= <- <-]. split; [done|].
  apply head_Some_elem_of, elem_of_sort_z, list_elem_of_fmap in E as ([j g] & -> & Hin).
  apply list_elem_of_filter in Hin as [Hf Hin%elem_of_map_to_list]. cbn in *. congruence.
Qed.

Lemma first_hardlink_None file_id ns : first_hardlink file_id ns = None -> no_hardlinks ns file_id.
Proof.
  unfold first_hardlink. set (ids := fst <$> _). intros E id h Hl Hf.
  assert (Hin : id ∈ ids) by (apply list_elem_of_fmap; exists (id, h); split; [done|]; apply list_elem_of_filter;
    split; [done|by apply elem_of_map_to_list]).
  destruct (head (sort_z ids)) as [id'|] eqn:E'.
  - apply head_Some_elem_of, elem_of_sort_z, list_elem_of_fmap in E' as ([j g] & -> & Hj).
    apply list_elem_of_filter in Hj as [_ Hj%elem_of_map_to_list]. cbn in E. by rewrite Hj in E.
  - apply head_None in E'. apply elem_of_sort_z in Hin. rewrite E' in Hin. by apply not_elem_of_nil in Hin.
Qed.

Lemma has_hardlinks_false file_id ns : has_hardlinks file_id ns = false -> no_hardlinks ns file_id.
Proof. unfold has_hardlinks. case_bool_decide as H; [done|]. intros _ id h Hl Hf. apply H. by exists id, h. Qed.

(** ** Removing the primary name of a file *)

Lemma release_deletes fid db u db' : release_replaced_file fid db = Ok (u, db') ->
  forall j, is_Some (db_files db' !! j) <-> j <> fid /\ is_Some (db_files db !! j).
Proof.
  unfold release_replaced_file, sql_delete_file, sql_update_object, sql_delete_object, tx_update, tx_get, mbind, tx_bind.
  destruct (db_files db !! fid) as [f|] eqn:Hf; [|done]. destruct (db_data_objects db !! _); [|done].
  destruct db; cbn in *. destruct (_ <=? 1); cbn; [case_bool_decide; [done|]|];
    intros [= _ <-] j; cbn; rewrite lookup_delete_is_Some; naive_solver.
Qed.

(** What becomes of the file behind a removed name: it stays, or it goes because
    no name is left and nobody has it open; no other file changes. *)
Definition store_effect (file_id now : Z) (ns ns' : NsDb) : Prop :=
  ns_db ns' = ns_db ns \/
  (isolated file_id (ns_db ns) (ns_db ns') /\ db_files (ns_db ns') !! file_id = None /\
   live_open_lease file_id now ns = false /\ no_hardlinks ns file_id).

Lemma view_file ns id : view ns (KFile, id) =
  match ns_files ns !! id with
  | Some f => if fe_unlinked f then None else Some ((parent_key (fe_parent f), fe_name f), IFile id)
  | None => None
  end.
Proof.
  unfold view, row_view. cbn. destruct (ns_files ns !! id) as [f|]; [|done]. cbn. unfold file_place.
  by destruct (fe_unlinked f).
Qed.

(** The entries of other inodes are left alone. *)
Definition keeps_others (j : Inode) (ns ns' : NsDb) : Prop :=
  forall e k i, view ns e = Some (k, i) -> i <> j -> view ns' e = Some (k, i).

Lemma keeps_others_vset e j x ns ns' :
  (forall k i, view ns e = Some (k, i) -> i = j) -> (forall e', view ns' e' = vset e x (view ns) e') -> keeps_others j ns ns'.
Proof. intros He Hv e' k i Hk Hi. rewrite Hv, vset_ne; [done|]. intros ->. by apply Hi, (He k). Qed.

(** Only the name of the primary entry is lost, if it has one. *)
Definition primary_unbound (file_id : Z) (ns ns' : NsDb) : Prop :=
  keeps_others (IFile file_id) ns ns' /\
  match view ns (KFile, file_id) with
  | Some (k, _) => unbound k ns ns'
  | None => same_names ns ns'
  end.

Lemma view_file_inode ns file_id k i : view ns (KFile, file_id) = Some (k, i) -> i = IFile file_id.
Proof. rewrite view_file. repeat case_match; naive_solver. Qed.

Lemma hide_file_Ok ns file_id nm u ns' :
  ns_wf ns -> is_Some (ns_files ns !! file_id) -> no_hardlinks ns file_id ->
  update_file_entry file_id (hide_file nm) ns = Ok (u, ns') ->
  primary_unbound file_id ns ns' /\ ns_db ns' = ns_db ns /\ view ns' (KFile, file_id) = None.
Proof.
  intros Hwf Hid Hno H. apply update_row_Ok in H as [[Hn _]|(f & Hf & Hp & ->)]; [destruct Hid; congruence|].
  assert (Hpos : 0 < file_id) by (apply (nw_pos _ Hwf); unfold row_present; eauto).
  destruct (wf_put_file ns Hwf file_id (hide_file nm f) (ns_db ns)) as [Hw Hv]; try done.
  { apply Hwf. } { by apply same_store. }
  assert (Heq : set_ns_db (ns_db ns) ns = ns) by by destruct ns. rewrite Heq in Hw, Hv. cbn in Hv.
  split; [|split; [by destruct ns|by rewrite Hv, vset_eq]].
  split; [eapply keeps_others_vset; [apply view_file_inode|exact Hv]|].
  rewrite view_file, Hf. destruct (fe_unlinked f) eqn:Hu.
  - eapply same_names_clear; [done| |done|exact Hv]. by rewrite view_file, Hf, Hu.
  - eapply unbound_clear; [done| |done|exact Hv]. by rewrite view_file, Hf, Hu.
Qed.

Lemma promote_Ok ns file_id hid h u ns' :
  ns_wf ns -> first_hardlink file_id ns = Some (hid, h) ->
  (_ ← update_file_entry file_id (move_file (h_parent h) (h_name h)); delete_hardlink hid) ns = Ok (u, ns') ->
  primary_unbound file_id ns ns' /\ ns_db ns' = ns_db ns /\ is_Some (view ns (KFile, file_id)).
Proof.
  intros Hwf [Hh Hfile]%first_hardlink_Some H. nx_inv H. injection H1 as <- <-.
  destruct (nw_links _ Hwf _ _ Hh) as (f & Hf & Hu). rewrite Hfile in Hf.
  apply update_row_Ok in H0 as [[Hn _]|(f' & Hf' & Hp & ->)]; [congruence|]. assert (f' = f) as -> by congruence.
  set (k := (parent_key (fe_parent f), fe_name f)).
  assert (Hk : view ns (KFile, file_id) = Some (k, IFile file_id)) by by rewrite view_file, Hf, Hu.
  replace (ns_hardlinks (set_ns_files _ ns)) with (ns_hardlinks ns) by by destruct ns.
  destruct (wf_promote ns Hwf file_id f hid h k) as [Hw Hv]; try done.
  assert (Hkh : view ns (KHardlink, hid) = Some ((parent_key (h_parent h), h_name h), IFile file_id))
    by (unfold view, row_view; cbn; rewrite Hh; cbn; by rewrite Hfile).
  unfold primary_unbound. rewrite Hk. split; [|split; [by destruct ns|eauto]]. split; [|split; [done|]].
  - intros e k' i He Hi. rewrite Hv, !vset_ne; [done|..]; intros ->; congruence.
  - intros k' i. rewrite (binds_ext _ _ Hv).
    by apply (binds_promote _ (KFile, file_id) (KHardlink, hid) k _ (IFile file_id)); [apply Hwf|..].
Qed.

Lemma remove_primary_Ok ns file_id now u ns' :
  ns_wf ns -> remove_primary_file_or_promote_hardlink_on_conn file_id now ns = Ok (u, ns') ->
  primary_unbound file_id ns ns' /\ store_effect file_id now ns ns'.
Proof.
  intros Hwf. unfold remove_primary_file_or_promote_hardlink_on_conn, lock_file_lifecycle_on_conn.
  case_bool_decide as Hid; [|done]. cbn. destruct (first_hardlink file_id ns) as [[hid h]|] eqn:Hfirst.
  { intros H. apply promote_Ok in H as (Hpu & Hdb & _); [|done..]. split; [done|by left]. }
  apply first_hardlink_None in Hfirst. destruct (live_open_lease file_id now ns) eqn:Hlive.
  - unfold defer_open_file. destruct (ns_files ns !! file_id) as [f|] eqn:Hf; [|by destruct Hid].
    destruct (fe_unlinked f) eqn:Hu.
    + intros [= _ <-]. split; [|by left]. split; [by intros e k i|]. rewrite view_file, Hf, Hu. by apply same_names_refl.
    + intros H. apply hide_file_Ok in H as (Hpu & Hdb & _); [|done|eauto|done]. split; [done|by left].
  - intros H. nx_inv H. injection H1 as <- <-. unfold nx_store in H0.
    destruct (release_replaced_file file_id (ns_db ns)) as [[u' db']| |] eqn:Hr; [|done..]. injection H0 as <- <-.
    pose proof (release_isolates _ _ _ _ (nw_db _ Hwf) Hr) as Hiso. pose proof (release_deletes _ _ _ _ Hr) as Hdel.
    destruct (wf_remove_file ns Hwf file_id db') as [Hw Hv]; [done|by destruct Hiso|done|].
    assert (Hdb : ns_db (cascade_file file_id (set_ns_db db' ns)) = db') by by destruct ns.
    split.
    + split; [eapply keeps_others_vset; [apply view_file_inode|exact Hv]|].
      destruct (view ns (KFile, file_id)) as [[k i]|] eqn:Hk.
      * by eapply unbound_clear.
      * by eapply same_names_clear.
    + right. rewrite Hdb. split_and!; try done. apply eq_None_not_Some. rewrite Hdel. naive_solver.
Qed.

(** ** Composition *)

Lemma unbound_same k ns ns1 ns2 : unbound k ns ns1 -> same_names ns1 ns2 -> unbound k ns ns2.
Proof. intros [_ H1] [Hw H2]. split; [done|]. intros k' i. by rewrite H2, H1. Qed.
Lemma same_unbound k ns ns1 ns2 : same_names ns ns1 -> unbound k ns1 ns2 -> unbound k ns ns2.
Proof. intros [_ H1] [Hw H2]. split; [done|]. intros k' i. by rewrite H2, H1. Qed.
Lemma same_trans ns ns1 ns2 : same_names ns ns1 -> same_names ns1 ns2 -> same_names ns ns2.
Proof. intros [_ H1] [Hw H2]. split; [done|]. intros k' i. by rewrite H2, H1. Qed.

Lemma unbound_view_None ns ns' e k i : ns_wf ns -> unbound k ns ns' -> view ns e = Some (k, i) ->
  keeps_others i ns ns' -> forall j, view ns' e <> Some (k, j).
Proof.
  intros Hwf [_ Hu] He Hk j Hj. assert (Hb : binds (view ns') k j) by by exists e. apply Hu in Hb as [Hb _]. by apply Hb.
Qed.

Lemma frame_destinations ns x : ns_wf ns ->
  same_names ns (set_destinations x ns) /\ (forall e, view (set_destinations x ns) e = view ns e).
Proof.
  intros Hwf. destruct (ns_wf_frame ns Hwf (set_destinations x ns)) as [Hw Hv];
    [by destruct ns..|destruct ns; apply Hwf|destruct ns; apply Hwf|by destruct ns|].
  split; [by apply same_names_view|done].
Qed.

(** ** Purge and unlink *)

Lemma purge_on_conn_Ok ns file_id now now' u ns' :
  ns_wf ns -> purge_primary_file_on_conn file_id now now' ns = Ok (u, ns') ->
  primary_unbound file_id ns ns' /\ store_effect file_id now' ns ns'.
Proof.
  intros Hwf. unfold purge_primary_file_on_conn, lock_file_lifecycle_on_conn. case_bool_decide as Hid; cbn.
  - destruct (has_hardlinks file_id ns); [done|]. destruct (live_open_lease file_id now ns); [done|].
    by apply remove_primary_Ok.
  - intros [= _ <-]. split; [|by left]. split; [by intros e k i|]. rewrite view_file.
    destruct (ns_files ns !! file_id) eqn:E; [exfalso; eauto|]. by apply same_names_refl.
Qed.

Lemma row_named_view {R} place_of (inode_of : R -> Inode) id key (table : gmap Z R) :
  row_named place_of id key table = true ->
  exists row, table !! id = Some row /\ row_view place_of inode_of id table = Some (key, inode_of row).
Proof.
  unfold row_named, row_view. destruct (table !! id) as [row|]; [|done]. rewrite bool_decide_eq_true. intros Hp.
  exists row. split; [done|]. cbn. destruct (place_of row) as [pl|]; [|done]. cbn in *. by injection Hp as ->.
Qed.

Lemma hardlink_named_Some file_id key ns id : hardlink_named file_id key ns = Some id ->
  view ns (KHardlink, id) = Some (key, IFile file_id).
Proof.
  unfold hardlink_named. destruct (head _) as [[j h]|] eqn:E; [|done]. intros [= <-].
  apply head_Some_elem_of, list_elem_of_filter in E as [Hf E]. apply elem_of_rows_at in E as [Hl Hp]. cbn in *.
  unfold view, row_view. cbn. rewrite Hl. cbn in *. by injection Hp as <-; subst.
Qed.

Lemma delete_hardlink_Ok ns id k i u ns' : ns_wf ns -> view ns (KHardlink, id) = Some (k, i) ->
  delete_hardlink id ns = Ok (u, ns') ->
  unbound k ns ns' /\ keeps_others i ns ns' /\ ns_db ns' = ns_db ns.
Proof.
  intros Hwf He [= _ <-]. destruct (wf_del_hardlink ns Hwf id) as [Hw Hv]. split_and!.
  - by eapply unbound_clear.
  - eapply keeps_others_vset; [|exact Hv]. naive_solver.
  - by destruct ns.
Qed.

Definition unlink_outcome_effect (out : FileUnlinkOutcome) (file_id now : Z) (key : name) (ns ns' : NsDb) : Prop :=
  match out with
  | SourceChanged => ns' = ns
  | _ => binds (view ns) key (IFile file_id) /\ unbound key ns ns' /\ store_effect file_id now ns ns'
  end.

Lemma primary_unbound_key ns ns' file_id k : view ns (KFile, file_id) = Some (k, IFile file_id) ->
  primary_unbound file_id ns ns' -> unbound k ns ns'.
Proof. intros Hk [_ Hu]. by rewrite Hk in Hu. Qed.

Lemma update_file_frame id change ns u ns' : update_file_entry id change ns = Ok (u, ns') ->
  ns_db ns' = ns_db ns /\ ns_hardlinks ns' = ns_hardlinks ns /\ ns_open_leases ns' = ns_open_leases ns.
Proof. intros [[_ ->]|(row & _ & _ & ->)]%update_row_Ok; [done|by destruct ns]. Qed.

(** The removal of the primary name of a file without hard links. *)
Lemma hide_then_purge_Ok ns ns1 file_id hidden key clk u b ns' :
  ns_wf ns -> view ns (KFile, file_id) = Some (key, IFile file_id) -> no_hardlinks ns file_id ->
  update_file_entry file_id (hide_file hidden) ns = Ok (u, ns1) ->
  (if live_open_lease file_id (clk 0%nat) ns1 then mret (Some Deferred)
   else _ ← purge_primary_file_on_conn file_id (clk 1%nat) (clk 2%nat); mret (Some Purged)) ns1 = Ok (b, ns') ->
  (b = Some Deferred \/ b = Some Purged) /\ unbound key ns ns' /\ store_effect file_id (clk 2%nat) ns ns'.
Proof.
  intros Hwf Hk Hno Hhide Hrest. destruct (update_file_frame _ _ _ _ _ Hhide) as (Hdb & Hh & Ho).
  apply hide_file_Ok in Hhide as (Hpu & _ & Hnone); [|done| |done].
  2: { rewrite view_file in Hk. destruct (ns_files ns !! file_id); [eauto|done]. }
  pose proof (primary_unbound_key _ _ _ _ Hk Hpu) as Hun. assert (Hw1 : ns_wf ns1) by apply Hun.
  destruct (live_open_lease file_id (clk 0%nat) ns1).
  - injection Hrest as <- <-. split; [by left|]. split; [done|by left].
  - nx_inv Hrest. injection H0 as <- <-. apply purge_on_conn_Ok in H as [[_ Hpu2] Hst]; [|done].
    rewrite Hnone in Hpu2. split; [by right|]. split; [by eapply unbound_same|].
    unfold store_effect, live_open_lease, session_live, no_hardlinks in *. by rewrite Hdb, Hh, Ho in Hst.
Qed.

Lemma unlink_file_Ok ns file_id hidden parent_id old_name actor_uid parent_actor clk out ns' :
  ns_wf ns ->
  unlink_file_body file_id hidden parent_id old_name actor_uid parent_actor clk ns = Ok (out, ns') ->
  unlink_outcome_effect out file_id (clk 2%nat) (parent_key parent_id, old_name) ns ns'.
Proof.
  intros Hwf. unfold unlink_file_body. destruct (db_files (ns_db ns) !! file_id) as [f|]; [|by intros [= <- <-]].
  destruct (blank _); [by intros [= <- <-]|]. destruct (negb _); [by intros [= <- <-]|].
  set (key := (parent_key parent_id, old_name)). intros H.
  nx_inv H. apply nx_read_Ok in H0 as [_ ->]. nx_inv H1. apply nx_read_Ok in H as [_ ->].
  nx_inv H0.
  assert (Hmain : match r1 with
    | None => ns0 = ns
    | Some out => out <> SourceChanged /\ binds (view ns) key (IFile file_id) /\ unbound key ns ns0 /\
        store_effect file_id (clk 2%nat) ns ns0
    end).
  { clear H1. destruct (row_named file_place file_id key (ns_files ns)) eqn:Hprim.
    - apply (row_named_view _ (fun _ => IFile file_id)) in Hprim as (e & _ & Hk).
      change (view ns (KFile, file_id) = Some (key, IFile file_id)) in Hk.
      destruct (has_hardlinks file_id ns) eqn:Hh.
      + nx_inv H. injection H1 as <- <-. split; [done|]. split; [by exists (KFile, file_id)|].
        unfold remove_primary_file_or_promote_hardlink_on_conn in H0. destruct (negb _); [done|].
        destruct (first_hardlink file_id ns) as [[hid h]|] eqn:Hfirst.
        * apply promote_Ok in H0 as (Hpu & Hdb & _); [|done..]. split; [by eapply primary_unbound_key|by left].
        * apply first_hardlink_None in Hfirst. apply bool_decide_eq_true in Hh as (j & h & Hj & Hf). by destruct (Hfirst j h).
      + apply has_hardlinks_false in Hh. nx_inv H. nx_inv H1. injection H as <- <-.
        eapply (hide_then_purge_Ok ns _ file_id hidden key clk) in H2 as (Hout & Hun & Hst); [|done..].
        destruct Hout as [->| ->]; (split; [done|]); (split; [by exists (KFile, file_id)|done]).
    - destruct (hardlink_named file_id key ns) as [hid|] eqn:Hn; [|by injection H as <- <-].
      apply hardlink_named_Some in Hn. nx_inv H. injection H1 as <- <-.
      eapply delete_hardlink_Ok in H0 as (Hun & _ & Hdb); [|done..].
      split; [done|]. split; [by exists (KHardlink, hid)|]. split; [done|by left]. }
  destruct r1 as [out'|]; [|injection H1 as <- <-; by subst].
  destruct Hmain as (Hne & Hb & Hun & Hst). nx_inv H1. injection H0 as <- <-. injection H2 as <- <-.
  destruct (frame_destinations ns0 (delete key (ns_destinations ns0))) as [Hs _]; [apply Hun|].
  assert (Hgoal : binds (view ns) key (IFile file_id) /\ unbound key ns (set_destinations (delete key (ns_destinations ns0)) ns0)
    /\ store_effect file_id (clk 2%nat) ns (set_destinations (delete key (ns_destinations ns0)) ns0)).
  { split; [done|]. split; [by eapply unbound_same|]. unfold store_effect in *. by destruct ns0. }
  by destruct out'.
Qed.

(** ** Symbolic links *)

Lemma view_symlink ns id :
  view ns (KSymlink, id) = (fun s => ((parent_key (s_parent s), s_name s), ISymlink id)) <$> ns_symlinks ns !! id.
Proof. unfold view, row_view. cbn. by destruct (ns_symlinks ns !! id). Qed.
Lemma view_alias ns id :
  view ns (KSymlinkHardlink, id) =
  (fun a => ((parent_key (sh_parent a), sh_name a), ISymlink (sh_symlink a))) <$> ns_symlink_hardlinks ns !! id.
Proof. unfold view, row_view. cbn. by destruct (ns_symlink_hardlinks ns !! id). Qed.
Lemma view_hardlink ns id :
  view ns (KHardlink, id) =
  (fun h => ((parent_key (h_parent h), h_name h), IFile (h_file h))) <$> ns_hardlinks ns !! id.
Proof. unfold view, row_view. cbn. by destruct (ns_hardlinks ns !! id). Qed.
Lemma view_directory ns id :
  view ns (KDir, id) = (fun d => ((parent_key (d_parent d), d_name d), IDir id)) <$> ns_directories ns !! id.
Proof. unfold view, row_view. cbn. by destruct (ns_directories ns !! id). Qed.

Lemma first_alias_Some symlink_id ns id a : first_alias symlink_id ns = Some (id, a) ->
  ns_symlink_hardlinks ns !! id = Some a /\ sh_symlink a = symlink_id.
Proof.
  unfold first_alias. set (ids := fst <$> _). destruct (head (sort_z ids)) as [id'|] eqn:E; [|done]. cbn.
  destruct (ns_symlink_hardlinks ns !! id') as [h'|] eqn:Hl; [|done]. intros [= <- <-]. split; [done|].
  apply head_Some_elem_of, elem_of_sort_z, list_elem_of_fmap in E as ([j g] & -> & Hin).
  apply list_elem_of_filter in Hin as [Hf Hin%elem_of_map_to_list]. cbn in *. congruence.
Qed.

Lemma wf_promote_alias ns id s aid a :
  ns_wf ns -> ns_symlinks ns !! id = Some s -> ns_symlink_hardlinks ns !! aid = Some a -> sh_symlink a = id ->
  let ns' := set_symlink_hardlinks (delete aid (ns_symlink_hardlinks ns))
               (set_symlinks (<[id := move_symlink (sh_parent a) (sh_name a) s]> (ns_symlinks ns)) ns) in
  ns_wf ns' /\
  forall e, view ns' e =
    vset (KSymlinkHardlink, aid) None
      (vset (KSymlink, id) (Some ((parent_key (sh_parent a), sh_name a), ISymlink id)) (view ns)) e.
Proof.
  intros Hwf Hs Ha Hid ns'. set (ka := (parent_key (sh_parent a), sh_name a)).
  assert (Hva : view ns (KSymlinkHardlink, aid) = Some (ka, ISymlink id)) by (rewrite view_alias, Ha; cbn; by rewrite Hid).
  assert (Hvs : view ns (KSymlink, id) = Some ((parent_key (s_parent s), s_name s), ISymlink id))
    by by rewrite view_symlink, Hs.
  assert (Hview : forall e, view ns' e = vset (KSymlinkHardlink, aid) None (vset (KSymlink, id) (Some (ka, ISymlink id)) (view ns)) e)
    by (subst ns' ka; clear; destruct ns as [db fs ds hs ss sh sp ol de]; view_cases).
  split; [|done]. subst ns'. destruct Hwf as [W1 W2 W3 W4 W5 W6 W7 W8 W9]. destruct ns as [db fs ds hs ss sh sp ol de]. cbn in *.
  split; cbn; try done.
  - eapply view_inj_ext; [exact Hview|]. by eapply (view_inj_promote _ (KSymlink, id) (KSymlinkHardlink, aid)).
  - assert (0 < id) by (apply W2; unfold row_present; cbn; eauto 8). present_rows W2.
  - assert (Hp : forall d, sh_parent a = Some d -> is_Some (ds !! d)).
    { intros d Hd. apply W3. unfold parent_named. cbn. do 4 right. by exists aid, a. }
    named_parents W3 Hp.
  - intros j b [_ Hj]%lookup_delete_Some. apply lookup_insert_is_Some'. right. by apply (W6 j).
Qed.

(** The effect of removing the name [k] of the inode [j]. *)
Definition removal (k : name) (j : Inode) (ns ns' : NsDb) : Prop :=
  unbound k ns ns' /\ keeps_others j ns ns' /\ ns_directories ns' ⊆ ns_directories ns.

Lemma nullif_zero_wf ns aid a : ns_wf ns -> ns_symlink_hardlinks ns !! aid = Some a -> nullif_zero (sh_parent a) = sh_parent a.
Proof.
  intros Hwf Ha. unfold nullif_zero, parent_key. destruct (sh_parent a) as [p|] eqn:E; [|done]. cbn. unfold id.
  assert (Hp : is_Some (ns_directories ns !! p)).
  { apply (nw_parents _ Hwf). unfold parent_named. do 4 right. by exists aid, a. }
  assert (0 < p) by (apply (nw_pos _ Hwf); unfold row_present; eauto). by replace (p =? 0) with false by lia.
Qed.

Lemma remove_symlink_Ok ns symlink_id k i u ns' :
  ns_wf ns -> view ns (KSymlink, symlink_id) = Some (k, i) ->
  remove_symlink_entry_or_promote_on_conn symlink_id ns = Ok (u, ns') ->
  removal k (ISymlink symlink_id) ns ns' /\ ns_db ns' = ns_db ns.
Proof.
  intros Hwf Hk. rewrite view_symlink in Hk. destruct (ns_symlinks ns !! symlink_id) as [s|] eqn:Hs; [|done].
  assert (Hv0 : view ns (KSymlink, symlink_id) = Some (k, ISymlink symlink_id)) by (rewrite view_symlink, Hs; cbn in *; by injection Hk as <- _).
  unfold remove_symlink_entry_or_promote_on_conn. destruct (first_alias symlink_id ns) as [[aid a]|] eqn:Hfirst.
  - apply first_alias_Some in Hfirst as [Ha Hsym]. intros H. nx_inv H. injection H1 as <- <-.
    rewrite (nullif_zero_wf ns aid a) in H0 by done.
    apply update_row_Ok in H0 as [[Hn _]|(s' & Hs' & Hp & ->)]; [congruence|]. assert (s' = s) as -> by congruence.
    replace (ns_symlink_hardlinks (set_symlinks _ ns)) with (ns_symlink_hardlinks ns) by by destruct ns.
    destruct (wf_promote_alias ns symlink_id s aid a) as [Hw Hv]; try done.
    assert (Hva : view ns (KSymlinkHardlink, aid) = Some ((parent_key (sh_parent a), sh_name a), ISymlink symlink_id))
      by (rewrite view_alias, Ha; cbn; by rewrite Hsym).
    split; [split; [|split]|by destruct ns].
    + split; [done|]. intros k' i'. rewrite (binds_ext _ _ Hv).
      by apply (binds_promote _ (KSymlink, symlink_id) (KSymlinkHardlink, aid) k _ (ISymlink symlink_id)); [apply Hwf|..].
    + intros e k' i' He Hi. rewrite Hv, !vset_ne; [done|..]; intros ->; congruence.
    + by destruct ns.
  - unfold delete_symlink. case_bool_decide as Hno; [done|]. intros [= _ <-].
    destruct (wf_del_symlink ns Hwf symlink_id Hno) as [Hw Hv]. split; [split; [|split]|by destruct ns].
    + by eapply unbound_clear.
    + eapply keeps_others_vset; [|exact Hv]. naive_solver.
    + by destruct ns.
Qed.

Lemma delete_alias_Ok ns id k i u ns' : ns_wf ns -> view ns (KSymlinkHardlink, id) = Some (k, i) ->
  delete_symlink_hardlink id ns = Ok (u, ns') -> removal k i ns ns' /\ ns_db ns' = ns_db ns.
Proof.
  intros Hwf He [= _ <-]. destruct (wf_del_alias ns Hwf id) as [Hw Hv]. split; [split; [|split]|by destruct ns].
  - by eapply unbound_clear.
  - eapply keeps_others_vset; [|exact Hv]. naive_solver.
  - by destruct ns.
Qed.

Lemma delete_directory_Ok ns id k i u ns' : ns_wf ns -> view ns (KDir, id) = Some (k, i) ->
  delete_directory id ns = Ok (u, ns') -> removal k i ns ns' /\ ns_db ns' = ns_db ns.
Proof.
  intros Hwf He. unfold delete_directory, directory_referenced.
  assert (Hd : is_Some (ns_directories ns !! id)) by (rewrite view_directory in He; destruct (ns_directories ns !! id); [eauto|done]).
  rewrite (bool_decide_eq_true_2 _ Hd), andb_true_r. case_bool_decide as Hno; [done|]. intros [= _ <-].
  destruct (wf_del_directory ns Hwf id Hno) as [Hw Hv]. split; [split; [|split]|by destruct ns].
  - by eapply unbound_clear.
  - eapply keeps_others_vset; [|exact Hv]. naive_solver.
  - destruct ns; cbn. apply delete_subseteq.
Qed.

(** ** Rename *)

Definition source_inode (e : RenameNamespaceSource) : Inode :=
  match e with
  | RenameFile file_id | RenameHardlink _ file_id => IFile file_id
  | RenameSymlink symlink_id | RenameSymlinkHardlink _ symlink_id => ISymlink symlink_id
  | RenameDirectory directory_id => IDir directory_id
  end.
Definition source_entry (e : RenameNamespaceSource) : Entry := (entry_kind e, rename_entry_id e).

Lemma remove_primary_dirs file_id now ns u ns' :
  remove_primary_file_or_promote_hardlink_on_conn file_id now ns = Ok (u, ns') -> ns_directories ns' = ns_directories ns.
Proof.
  assert (Hup : forall change ns u ns', update_file_entry file_id change ns = Ok (u, ns') -> ns_directories ns' = ns_directories ns).
  { intros change ns0 u0 ns0' [[_ ->]|(row & _ & _ & ->)]%update_row_Ok; [done|by destruct ns0]. }
  unfold remove_primary_file_or_promote_hardlink_on_conn. destruct (negb _); [done|].
  destruct (first_hardlink file_id ns) as [[hid h]|].
  - intros H. nx_inv H. injection H1 as <- <-. apply Hup in H0. by destruct ns0.
  - destruct (live_open_lease file_id now ns).
    + unfold defer_open_file. destruct (ns_files ns !! file_id) as [f|]; [|by intros [= _ <-]].
      destruct (fe_unlinked f); [by intros [= _ <-]|apply Hup].
    + intros H. nx_inv H. injection H1 as <- <-. unfold nx_store in H0.
      destruct (release_replaced_file _ _) as [[]| |]; [|done..]. injection H0 as <- <-. by destruct ns.
Qed.

(** What a removed target leaves of the store. *)
Definition target_store (t : RenameNamespaceTarget) (now : Z) (ns ns' : NsDb) : Prop :=
  match t with
  | RenameFile file_id => store_effect file_id now ns ns'
  | _ => ns_db ns' = ns_db ns
  end.

Lemma remove_target_Ok ns t now k b ns' :
  ns_wf ns -> view ns (source_entry t) = Some (k, source_inode t) -> remove_target t now ns = Ok (b, ns') ->
  if b then removal k (source_inode t) ns ns' /\ target_store t now ns ns' else ns' = ns.
Proof.
  intros Hwf Hk. destruct t as [fid|hid fid|sid|aid sid|did]; cbn.
  - intros H. nx_inv H. injection H1 as <- <-. pose proof (remove_primary_dirs _ _ _ _ _ H0) as Hd.
    apply remove_primary_Ok in H0 as [Hpu Hst]; [|done]. split; [|done]. split; [by eapply primary_unbound_key|].
    split; [apply Hpu|by rewrite Hd].
  - intros H. nx_inv H. injection H1 as <- <-. pose proof H0 as [= _ E]. eapply delete_hardlink_Ok in H0 as (Hu & Hko & Hdb); [|done..].
    split; [|done]. split; [done|]. split; [done|]. rewrite <- E. by destruct ns.
  - intros H. nx_inv H. injection H1 as <- <-. by eapply remove_symlink_Ok.
  - intros H. nx_inv H. injection H1 as <- <-. by eapply delete_alias_Ok.
  - destruct (directory_has_children did ns); [by intros [= <- <-]|]. intros H. nx_inv H. injection H1 as <- <-.
    by eapply delete_directory_Ok.
Qed.

Definition moved (old new : name) (j : Inode) (ns ns' : NsDb) : Prop :=
  ns_wf ns' /\ forall k i, binds (view ns') k i <-> (k = new /\ i = j) \/ (k <> new /\ k <> old /\ binds (view ns) k i).

Lemma moved_vset ns ns' e old new j : ns_wf ns -> view ns e = Some (old, j) -> free (view ns) new ->
  ns_wf ns' -> (forall e', view ns' e' = vset e (Some (new, j)) (view ns) e') -> moved old new j ns ns'.
Proof.
  intros Hwf He Hf Hw Hv. split; [done|]. intros k' i'. rewrite (binds_ext _ _ Hv). by apply binds_move; [apply Hwf|..].
Qed.

(** The new parent does not lie in the moved directory. *)
Definition not_inside (source : RenameNamespaceSource) (new_parent_id : option Z) (ns : NsDb) : Prop :=
  forall d p, source = RenameDirectory d -> new_parent_id = Some p -> ~ below (ns_directories ns) d p.

Lemma view_row_present ns k id x : view ns (k, id) = Some x -> row_present ns id.
Proof.
  unfold view, row_view, row_present. cbn. intros Hv.
  destruct k; (match type of Hv with context [?m !! id] => destruct (m !! id) eqn:?; [|done] end); eauto 10.
Qed.

Lemma move_source_Ok ns source np nn old u ns' :
  ns_wf ns -> view ns (source_entry source) = Some (old, source_inode source) ->
  free (view ns) (parent_key np, nn) -> not_inside source np ns ->
  move_source source np nn ns = Ok (u, ns') ->
  moved old (parent_key np, nn) (source_inode source) ns ns' /\ ns_db ns' = ns_db ns.
Proof.
  intros Hwf Hk Hfree Hcyc H.
  assert (Hpos : 0 < rename_entry_id source) by (apply (nw_pos _ Hwf); by eapply view_row_present).
  pose proof (free_taken (source_entry source) _ _ Hfree) as Ht.
  unfold source_entry in *. destruct source as [fid|hid fid|sid|aid sid|did];
    cbn [move_source entry_kind rename_entry_id source_inode] in *;
    (apply update_row_Ok in H as [[Hn _]|(row & Hl & Hp & ->)];
     [exfalso; unfold view, row_view in Hk; cbn in Hk; by rewrite Hn in Hk|cbn in Hp]).
  - rewrite view_file, Hl in Hk. destruct (fe_unlinked row) eqn:Hu; [done|].
    destruct (wf_put_file ns Hwf fid (move_file np nn row) (ns_db ns)) as [Hw Hv]; cbn; try done;
      [apply Hwf|by apply same_store|congruence|].
    assert (Heq : set_ns_db (ns_db ns) ns = ns) by by destruct ns. rewrite Heq in Hw, Hv. cbn in Hv. rewrite Hu in Hv.
    split; [|by destruct ns]. eapply moved_vset; [done| |done|done|exact Hv]. by rewrite view_file, Hl, Hu.
  - pose proof Hk as Hk'. rewrite view_hardlink, Hl in Hk. cbn in Hk.
    injection Hk as <- <-. pose proof (nw_links _ Hwf _ _ Hl) as Hlink.
    destruct (wf_put_hardlink ns Hwf hid (move_hardlink np nn row)) as [Hw Hv]; cbn; try done.
    split; [|by destruct ns]. by eapply moved_vset.
  - destruct (wf_put_symlink ns Hwf sid (move_symlink np nn row)) as [Hw Hv]; cbn; try done.
    split; [|by destruct ns]. by eapply moved_vset.
  - pose proof Hk as Hk'. rewrite view_alias, Hl in Hk. cbn in Hk.
    injection Hk as <- <-. pose proof (nw_aliases _ Hwf _ _ Hl) as Hlink.
    destruct (wf_put_alias ns Hwf aid (move_symlink_hardlink np nn row)) as [Hw Hv]; cbn; try done.
    split; [|by destruct ns]. by eapply moved_vset.
  - destruct (wf_put_directory ns Hwf did (move_directory np nn row)) as [Hw Hv]; cbn; try done.
    { intros p ->. by apply (Hcyc did p). }
    split; [|by destruct ns]. by eapply moved_vset.
Qed.

Lemma resolved_view ns key r e : ns_wf ns -> resolve key ns = Ok r -> resolves_to e r = true -> alias_as_expected e ns = true ->
  view ns (source_entry e) = Some (key, source_inode e).
Proof.
  intros Hwf Hr He Ha. apply bool_decide_eq_true in He as ->. apply resolve_lookup in Hr as (i & Hv & Hi); [|done].
  unfold source_entry. rewrite Hv. f_equal. f_equal. destruct e; cbn [entry_kind rename_entry_id rename_file_id source_inode] in *.
  - by apply view_file_inode in Hv.
  - rewrite view_hardlink in Hv. destruct (ns_hardlinks ns !! _); [|done]. cbn in Hv. injection Hv as _ <-. cbn in Hi. congruence.
  - rewrite view_symlink in Hv. destruct (ns_symlinks ns !! _); [|done]. cbn in Hv. by injection Hv as _ <-.
  - rewrite view_alias in Hv. cbn in Ha. apply bool_decide_eq_true in Ha.
    destruct (ns_symlink_hardlinks ns !! _); [|done]. cbn in *. injection Hv as _ <-. congruence.
  - rewrite view_directory in Hv. destruct (ns_directories ns !! _); [|done]. cbn in Hv. by injection Hv as _ <-.
Qed.

Lemma same_inode_false source t k k' ns :
  view ns (source_entry source) = Some (k, source_inode source) -> view ns (source_entry t) = Some (k', source_inode t) ->
  k <> k' -> same_inode source t = false -> source_inode source <> source_inode t.
Proof.
  intros Hs Ht Hk Hsame Heq. unfold same_inode in Hsame. apply orb_false_iff in Hsame as [H1 H2].
  destruct source, t; cbn in *; try discriminate Heq; try (injection Heq as ->; lia || (rewrite Z.eqb_refl in H1; done)).
  all: injection Heq as ->; try (rewrite !bool_decide_eq_true_2 in H2 by eauto; done).
  rewrite Hs in Ht. by injection Ht.
Qed.

Lemma below_mono dirs dirs' d p : dirs' ⊆ dirs -> below dirs' d p -> below dirs d p.
Proof.
  intros Hs. induction 1 as [Hd|x row q Hl Hp _ IH]; [constructor; by eapply is_Some_sub|].
  eapply below_child; [by eapply lookup_weaken|done|done].
Qed.

Lemma rename_cycle_false source np ns : rename_cycle source np ns = false -> not_inside source np ns.
Proof.
  intros Hc d p -> ->. cbn in Hc. apply bool_decide_eq_false in Hc. by rewrite elem_of_subtree in Hc.
Qed.

Lemma unbound_moved old new j ns ns1 ns2 : unbound new ns ns1 -> moved old new j ns1 ns2 -> moved old new j ns ns2.
Proof. intros [_ H1] [Hw H2]. split; [done|]. intros k i. rewrite H2, H1. naive_solver. Qed.

(** What a rename does once source and target have been found. *)
Definition rename_effect (out : RenameFileReplaceOutcome) (source : RenameNamespaceSource)
    (target : option RenameNamespaceTarget) (old new : name) (now : Z) (ns ns' : NsDb) : Prop :=
  match out with
  | Applied =>
      binds (view ns) old (source_inode source) /\ old <> new /\ moved old new (source_inode source) ns ns' /\
      match target with
      | Some t => binds (view ns) new (source_inode t) /\ target_store t now ns ns'
      | None => free (view ns) new /\ ns_db ns' = ns_db ns
      end
  | _ => ns' = ns
  end.

Lemma rename_resolved_Ok ns source opid np nn target actor_uid actor now old out ns' :
  let new := (parent_key np, nn) in
  ns_wf ns ->
  (exists r, resolve old ns = Ok r /\ resolves_to source r = true) ->
  (exists r, resolve new ns = Ok r /\ matches_target target r = true /\ resolves_to source r = false) ->
  rename_resolved source opid np nn target actor_uid actor now ns = Ok (out, ns') ->
  rename_effect out source target old new now ns ns'.
Proof.
  intros new Hwf (rs & Hrs & Hms) (rt & Hrt & Hmt & Hns) H. unfold rename_resolved, rename_apply in H.
  destruct (negb (symlinks_present _ _)); [by injection H as <- <-|].
  destruct (forallb _ _) eqn:Hal; [|by injection H as <- <-]. cbn in Hal. apply andb_true_iff in Hal as [Has Hat]. cbn [negb] in H.
  destruct (rename_cycle source np ns) eqn:Hc; [by injection H as <- <-|]. apply rename_cycle_false in Hc.
  nx_inv H. apply nx_read_Ok in H0 as [_ ->]. nx_inv H1. apply nx_read_Ok in H as [_ ->]. nx_inv H0. apply nx_read_Ok in H as [_ ->].
  pose proof (resolved_view _ _ _ _ Hwf Hrs Hms Has) as Hvs.
  assert (Hne : old <> new).
  { intros ->. rewrite Hrs in Hrt. injection Hrt as ->. congruence. }
  destruct target as [t|].
  - cbn in Hat. rewrite andb_true_r in Hat. pose proof (resolved_view _ _ _ _ Hwf Hrt Hmt Hat) as Hvt.
    destruct (same_inode source t) eqn:Hsi; [by injection H1 as <- <-|].
    apply nx_bind_Ok in H1 as (removed & ns1 & Hrm & Hmv).
    pose proof (remove_target_Ok _ _ _ _ _ _ Hwf Hvt Hrm) as Hrem.
    destruct removed; cbn in Hmv; [|injection Hmv as <- <-; by subst].
    destruct Hrem as [(Hun & Hko & Hd) Hst]. apply nx_bind_Ok in Hmv as (u & ns2 & Hmv & [= <- <-]).
    pose proof (same_inode_false _ _ _ _ _ Hvs Hvt Hne Hsi) as Hino.
    eapply move_source_Ok in Hmv as [Hmv Hdb]; [|apply Hun|by apply (Hko _ _ _ Hvs)| |].
    + split; [by eexists|]. split; [done|]. split; [by eapply unbound_moved|]. split; [by eexists|].
      unfold target_store, store_effect in *. destruct t; rewrite Hdb; done.
    + intros e i He. assert (Hb : binds (view ns1) new i) by by exists e. apply Hun in Hb. by destruct Hb.
    + intros d p Hd' Hp Hb. by apply (Hc d p Hd' Hp), (below_mono _ (ns_directories ns1)).
  - nx_inv H1. injection H0 as <- <-. cbn in Hmt. apply bool_decide_eq_true in Hmt as ->.
    eapply move_source_Ok in H as [Hmv Hdb]; [|done|exact Hvs|by apply resolve_free|done].
    split; [by eexists|]. split; [done|]. split; [done|]. split; [by apply resolve_free|done].
Qed.

(** Write leases may go: everything else stays. *)
Record leases_only (ns ns' : NsDb) : Prop := {
  lo_files : ns_files ns' = ns_files ns;
  lo_directories : ns_directories ns' = ns_directories ns;
  lo_hardlinks : ns_hardlinks ns' = ns_hardlinks ns;
  lo_symlinks : ns_symlinks ns' = ns_symlinks ns;
  lo_aliases : ns_symlink_hardlinks ns' = ns_symlink_hardlinks ns;
  lo_special : ns_special_files ns' = ns_special_files ns;
  lo_open : ns_open_leases ns' = ns_open_leases ns;
  lo_sessions : db_client_sessions (ns_db ns') = db_client_sessions (ns_db ns);
  lo_store : store_view (ns_db ns') = store_view (ns_db ns);
}.

#[global] Instance leases_only_preorder : PreOrder leases_only.
Proof.
  split; [done|]. intros ns1 ns2 ns3 [] []. split; congruence.
Qed.

Lemma prune_destination_leases now key ns : leases_only ns (prune_destination now key ns).
Proof. by destruct ns. Qed.
Lemma prune_file_lease_leases now fid ns : leases_only ns (prune_file_lease now fid ns).
Proof. destruct ns as [[] ? ? ? ? ? ? ? ?]. done. Qed.
Lemma file_lease_conflicts_leases fids : forall k clk ns, leases_only ns (file_lease_conflicts fids k clk ns).2.
Proof.
  induction fids as [|fid fids IH]; intros k clk ns; cbn; [done|]. pose proof (prune_file_lease_leases (clk k) fid ns).
  destruct (write_lease_live _ _); [done|]. etrans; [done|apply IH].
Qed.

Lemma leases_only_wf ns ns' : leases_only ns ns' -> ns_wf ns -> ns_wf ns' /\ forall e, view ns' e = view ns e.
Proof.
  intros [E1 E2 E3 E4 E5 Esp _ _ Hst] Hwf. apply ns_wf_frame; try done.
  - rewrite Esp. apply Hwf.
  - eapply wf_store_view; [exact Hst|apply Hwf].
  - intros j. by injection Hst as ->.
Qed.

Lemma leases_only_names ns ns' : leases_only ns ns' -> ns_wf ns -> same_names ns ns'.
Proof. intros Hl Hwf. destruct (leases_only_wf _ _ Hl Hwf). by apply same_names_view. Qed.

Lemma leases_only_store fid now ns ns1 ns' : leases_only ns ns1 -> ns_wf ns ->
  store_effect fid now ns1 ns' -> 
  isolated fid (ns_db ns) (ns_db ns') /\
  (db_files (ns_db ns') !! fid = db_files (ns_db ns) !! fid \/
   db_files (ns_db ns') !! fid = None /\ live_open_lease fid now ns = false /\ no_hardlinks ns fid).
Proof.
  intros [E1 E2 E3 E4 E5 _ E6 E7 Hst] Hwf.
  assert (Hi : isolated fid (ns_db ns) (ns_db ns1)) by (apply isolated_store_view; [done|apply Hwf]).
  intros [->|(Hiso & Hn & Hl & Hh)]; [split; [done|left; by injection Hst as ->]|].
  split; [by eapply isolated_trans|]. right. unfold live_open_lease, session_live, no_hardlinks in *.
  by rewrite E6, E7, ?E3 in *.
Qed.

Lemma rename_body_Ok ns source op on np nn target actor_uid no_replace actor locked clk out ns' :
  let old := (parent_key op, on) in let new := (parent_key np, nn) in
  ns_wf ns -> (forall r, resolve new ns = Ok r -> resolves_to source r = false) ->
  rename_body source op on np nn target actor_uid no_replace actor locked clk ns = Ok (out, ns') ->
  exists ns1, leases_only ns ns1 /\
    match out with
    | Applied => rename_effect Applied source target old new (clk 6%nat) ns1 ns'
    | _ => ns' = ns1
    end.
Proof.
  intros old new Hwf Hprobe H. unfold rename_body in H. fold old new in H.
  destruct locked; cbn [negb] in H; [|injection H as <- <-; by exists ns].
  set (ns0 := prune_destination _ new _) in H.
  assert (Hl0 : leases_only ns ns0) by (subst ns0; etrans; apply prune_destination_leases).
  destruct (_ || _) in H; [injection H as <- <-; by exists ns0|].
  destruct (file_lease_conflicts _ 2 clk ns0) as [conflict ns1] eqn:Ec.
  assert (Hl1 : leases_only ns ns1).
  { etrans; [done|]. pose proof (file_lease_conflicts_leases
      (option_list (rename_file_id source) ++ omap rename_file_id (option_list target)) 2 clk ns0) as Hx. by rewrite Ec in Hx. }
  exists ns1. split; [done|]. destruct (leases_only_wf _ _ Hl1 Hwf) as [Hw1 Hv1].
  assert (Hres : forall k, resolve k ns1 = resolve k ns).
  { intros k. unfold resolve, resolve_entry_rows. destruct Hl1 as [-> -> -> -> -> _ _ _]. done. }
  destruct conflict; [by injection H as <- <-|]. fold (resolve old ns1) in H. fold (resolve new ns1) in H.
  destruct (resolve old ns1) as [rs| |] eqn:Hrs; [|by injection H as <- <-..].
  destruct (resolves_to source rs) eqn:Hms; cbn [negb] in H; [|by injection H as <- <-].
  destruct (resolve new ns1) as [rt| |] eqn:Hrt; [|by injection H as <- <-..].
  destruct (no_replace && _); [by injection H as <- <-|].
  destruct (matches_target target rt) eqn:Hmt; cbn [negb] in H; [|by injection H as <- <-].
  assert (Hns : resolves_to source rt = false) by (apply Hprobe; by rewrite <- Hres).
  apply (rename_resolved_Ok _ _ _ _ _ _ _ _ _ old) in H; [|done|by exists rs|by exists rt].
  by destruct out.
Qed.

(** ** Creating entries *)

(** The name [k] now leads to the inode [j]: newly, or because an earlier attempt
    has already made the entry. *)
Definition created (k : name) (j : Inode) (ns ns' : NsDb) : Prop :=
  bound k j ns ns' \/ (binds (view ns) k j /\ ns' = ns).

Lemma run_create_cases m confirm ns r ns' : run_create m confirm ns = (r, ns') ->
  (exists id, r = Ok id /\ m ns = Ok (id, ns')) \/
  (ns' = ns /\ forall id, r = Ok id -> confirm ns = Some id).
Proof.
  unfold run_create, ns_transaction. destruct (m ns) as [[id ns1]|e|]; intros [= <- <-]; [left; eauto|right..]; split; try done.
  intros id. unfold confirm_unique_violation. destruct (negb _); [done|]. by destruct (confirm ns); intros [= ->].
Qed.

Lemma rows_in_head {R} place_of parent_id nm (table : gmap Z R) row :
  head (rows_in place_of parent_id nm table) = Some row -> table !! row.1 = Some row.2 /\ place_of row.2 = Some (parent_id, nm).
Proof.
  intros H%head_Some_elem_of. unfold rows_in in H. apply list_elem_of_filter in H as [Hp Hin]. destruct row.
  by apply elem_of_map_to_list in Hin.
Qed.

Lemma rows_in_view {R} place_of (inode_of : R -> Inode) parent_id nm (table : gmap Z R) row :
  head (rows_in place_of parent_id nm table) = Some row ->
  row_view place_of inode_of row.1 table = Some ((parent_key parent_id, nm), inode_of row.2).
Proof. intros [Hl Hp]%rows_in_head. unfold row_view. rewrite Hl. cbn. by rewrite Hp. Qed.

Lemma create_hardlink_free hid src parent_id nm uid gid actor binding acl ns id ns' :
  create_hardlink_body hid src parent_id nm uid gid actor binding acl ns = Ok (id, ns') ->
  free (view ns) (parent_key parent_id, nm).
Proof.
  unfold create_hardlink_body. destruct (negb _); [done|].
  destruct (match binding with Some _ => _ | None => false end); [done|]. case_bool_decide; [done|]. intros H'.
  nx_inv H'. apply nx_read_Ok in H0 as [_ ->]. nx_inv H1. apply nx_read_Ok in H0 as [Hvac ->].
  by apply vacant_free in Hvac as [Hfree _].
Qed.

Lemma create_alias_free aid sid parent_id nm actor binding acl ns id ns' :
  create_symlink_hardlink_body aid sid parent_id nm actor binding acl ns = Ok (id, ns') ->
  free (view ns) (parent_key parent_id, nm).
Proof.
  unfold create_symlink_hardlink_body. case_bool_decide; [done|].
  destruct (match binding with Some _ => _ | None => false end); [done|]. intros H'.
  nx_inv H'. apply nx_read_Ok in H0 as [_ ->]. nx_inv H1. apply nx_read_Ok in H0 as [Hvac ->].
  by apply vacant_free in Hvac as [Hfree _].
Qed.

Lemma create_hardlink_Ok hid src parent_id nm uid gid actor binding acl ns id ns' :
  ns_wf ns -> create_hardlink_body hid src parent_id nm uid gid actor binding acl ns = Ok (id, ns') ->
  bound (parent_key parent_id, nm) (IFile src) ns ns' /\ ns_db ns' = ns_db ns.
Proof.
  intros Hwf. unfold create_hardlink_body, lock_file_lifecycle_on_conn. case_bool_decide as Hsrc; [|done]. cbn [negb].
  destruct (match binding with Some _ => _ | None => false end); [done|]. case_bool_decide as Hu; [done|]. intros H.
  nx_inv H. apply nx_read_Ok in H0 as [_ ->]. nx_inv H1. apply nx_read_Ok in H as [Hvac ->].
  apply vacant_free in Hvac as [Hfree _]. apply insert_row_Ok in H0 as (Hn & Hpos & Hp & _ & ->).
  assert (Hlink : linked ns src).
  { destruct Hsrc as [f Hf]. exists f. rewrite Hf in Hu. cbn in Hu. split; [done|]. by destruct (fe_unlinked f). }
  destruct (wf_put_hardlink ns Hwf hid {| h_file := src; h_parent := parent_id; h_name := nm; h_uid := uid; h_gid := gid |})
    as [Hw Hv]; cbn; try done; [by apply free_taken|].
  split; [|by destruct ns]. eapply bound_vset; [done| |done|done|exact Hv]. by rewrite view_hardlink, Hn.
Qed.

Lemma create_alias_Ok aid sid parent_id nm actor binding acl ns id ns' :
  ns_wf ns -> create_symlink_hardlink_body aid sid parent_id nm actor binding acl ns = Ok (id, ns') ->
  bound (parent_key parent_id, nm) (ISymlink sid) ns ns' /\ ns_db ns' = ns_db ns.
Proof.
  intros Hwf. unfold create_symlink_hardlink_body. case_bool_decide as Hs; [done|].
  destruct (match binding with Some _ => _ | None => false end); [done|]. intros H.
  nx_inv H. apply nx_read_Ok in H0 as [_ ->]. nx_inv H1. apply nx_read_Ok in H as [Hvac ->].
  apply vacant_free in Hvac as [Hfree _]. apply insert_row_Ok in H0 as (Hn & Hpos & Hp & _ & ->).
  assert (Hsome : is_Some (ns_symlinks ns !! sid)) by (destruct (ns_symlinks ns !! sid); [eauto|done]).
  destruct (wf_put_alias ns Hwf aid {| sh_symlink := sid; sh_parent := parent_id; sh_name := nm |}) as [Hw Hv];
    cbn; try done; [by apply free_taken|].
  split; [|by destruct ns]. eapply bound_vset; [done| |done|done|exact Hv]. by rewrite view_alias, Hn.
Qed.

(** The attributes are only computed for a vacant name. *)
Lemma created_attributes_free parent_id nm gid mode umask actor inherit dir ns r :
  created_attributes parent_id nm gid mode umask actor inherit dir ns = Ok r -> free (view ns) (parent_key parent_id, nm).
Proof.
  unfold created_attributes. intros H. apply bind_Ok in H as (u & _ & H). apply bind_Ok in H as (u' & Hvac & _).
  by apply vacant_free in Hvac as [Hfree _].
Qed.

Lemma insert_file_rows_dom fid mode uid gid seed db r db' : insert_file_rows fid mode uid gid seed db = Ok (r, db') ->
  forall j, is_Some (db_files db' !! j) <-> j = fid \/ is_Some (db_files db !! j).
Proof.
  unfold insert_file_rows. intros H. apply tx_bind_Ok in H as (oid & db1 & Hc & H).
  assert (Hf1 : db_files db1 = db_files db).
  { revert Hc. unfold create_data_object_on_conn, sql_bigint, tx_get, tx_update, mbind, tx_bind, mret, tx_ret.
    destruct db. cbn. repeat (case_match; cbn); naive_solver. }
  unfold tx_get, tx_update, mbind, tx_bind in H. rewrite Hf1 in H. destruct (db_files db !! fid); [done|].
  destruct (fid =? 0); [done|]. injection H as _ <-. intros j. destruct db1; cbn in *. subst.
  rewrite lookup_insert_is_Some'. naive_solver.
Qed.

(** The two optional steps after the file's row: its device numbers and its inherited ACL. *)
Lemma store_special_Ok fid (special : option (string * Z * Z)) ns u ns' : ns_wf ns -> is_Some (ns_files ns !! fid) ->
  store_special fid special ns = Ok (u, ns') -> same_names ns ns' /\ ns_db ns' = ns_db ns.
Proof.
  intros Hwf Hfile. unfold store_special. destruct special as [[[kd ma] mi]|]; [|intros [= <- <-]; split; [by apply same_names_refl|done]].
  destruct (10 <? _); [done|]. intros [= <- <-].
  destruct (ns_wf_frame ns Hwf (set_special_files (<[fid := (kd, ma, mi)]> (ns_special_files ns)) ns)) as [Hw3 Hv3];
    [by destruct ns..| |destruct ns; apply Hwf|by destruct ns|split; [by apply same_names_view|by destruct ns]].
  intros j Hj. destruct ns. apply is_Some_put in Hj as [->|Hj]; [done|]. by apply (nw_specials _ Hwf).
Qed.

Lemma store_acl_Ok fid acl ns u ns' : ns_wf ns -> store_inherited_default_acl_on_conn fid acl ns = Ok (u, ns') ->
  same_names ns ns' /\ isolated fid (ns_db ns) (ns_db ns').
Proof.
  intros Hwf. unfold store_inherited_default_acl_on_conn.
  destruct acl as [[access ?]|]; intros [= <- <-]; [|split; [by apply same_names_refl|apply isolated_refl, Hwf]].
  assert (Hi : isolated fid (ns_db ns) (set_files (alter (with_acl (Some access)) fid (db_files (ns_db ns))) (ns_db ns)))
    by (apply isolated_update_file; [by intros []|apply Hwf]).
  destruct (ns_wf_frame ns Hwf (set_ns_db (set_files (alter (with_acl (Some access)) fid (db_files (ns_db ns))) (ns_db ns)) ns))
    as [Hw4 Hv4]; [by destruct ns..|destruct ns; apply Hwf| | |split; [by apply same_names_view|by destruct ns]].
  - destruct Hi, ns; done.
  - intros j. destruct ns as [[] ? ? ? ? ? ? ? ?]; cbn. apply lookup_alter_is_Some.
Qed.

Lemma create_file_Ok fid parent_id nm uid seed special attributes ns id ns' :
  ns_wf ns -> (forall r, attributes ns = Ok r -> free (view ns) (parent_key parent_id, nm)) ->
  create_file_body fid parent_id nm uid seed special attributes ns = Ok (id, ns') ->
  id = fid /\ bound (parent_key parent_id, nm) (IFile fid) ns ns' /\
  isolated fid (ns_db ns) (ns_db ns') /\ ns_files ns !! fid = None.
Proof.
  intros Hwf Hfree H. unfold create_file_body in H.
  apply nx_bind_Ok in H as ([[g m] acl] & ns0 & [Hattr ->]%nx_read_Ok & H). apply Hfree in Hattr.
  apply nx_bind_Ok in H as (u & ns0 & Hm & H).
  assert (ns0 = ns) as -> by (revert Hm; unfold check_mode; destruct (4095 <? m); [done|by intros [= _ <-]]).
  apply nx_bind_Ok in H as (x & ns0 & [= -> ->] & H). set (sd := effective_file_inode_seed_on_conn _ _) in H.
  apply nx_bind_Ok in H as (o & ns1 & Hins & H). unfold nx_store in Hins.
  destruct (insert_file_rows fid m uid g sd (ns_db ns0)) as [[o' db1]| |] eqn:Hi; [|done..]. injection Hins as <- <-.
  pose proof (insert_file_isolates _ _ _ _ _ _ _ _ (nw_db _ Hwf) Hi) as Hiso1. pose proof (insert_file_rows_dom _ _ _ _ _ _ _ _ Hi) as Hdom.
  apply nx_bind_Ok in H as (id' & ns2 & Hrow & H). apply insert_row_Ok in Hrow as (Hn & Hpos & Hp & -> & ->).
  assert (Hn0 : ns_files ns0 !! fid = None) by by destruct ns0.
  destruct (wf_put_file ns0 Hwf fid {| fe_parent := parent_id; fe_name := nm; fe_unlinked := false |} db1) as [Hw2 Hv2]; cbn; try done.
  { intros p Hpp. specialize (Hp p Hpp). by destruct ns0. } { by destruct Hiso1. } { intros _. by apply free_taken. }
  replace (ns_files (set_ns_db db1 ns0)) with (ns_files ns0) in H by by destruct ns0.
  set (ns2 := set_ns_files _ _) in *.
  assert (Hb2 : bound (parent_key parent_id, nm) (IFile fid) ns0 ns2).
  { eapply bound_vset; [done| |done|done|exact Hv2]. by rewrite view_file, Hn0. }
  apply nx_bind_Ok in H as (u2 & ns3 & Hsp & H).
  apply store_special_Ok in Hsp as [Hs3 Hd3]; [|done|subst ns2; destruct ns0; cbn; rewrite lookup_insert_eq; eauto]. assert (Hw3 : ns_wf ns3) by apply Hs3.
  apply nx_bind_Ok in H as (u3 & ns4 & Hacl & [= <- <-]).
  assert (Hdb2 : ns_db ns2 = db1) by (subst ns2; by destruct ns0).
  apply store_acl_Ok in Hacl as [Hs4 Hi4]; [|done]. split; [done|]. split; [|split; [|done]].
  - destruct Hb2 as [_ Hb2], Hs3 as [_ Hs3], Hs4 as [Hw4 Hs4]. split; [done|]. intros k i. by rewrite Hs4, Hs3.
  - eapply isolated_trans; [exact Hiso1|]. by rewrite <- Hdb2, <- Hd3.
Qed.
