(* ===== verification/NamespaceRefine.v ===== *)
(** * The namespace operations implement a map from names to inodes

    The contract of the namespace component: seen through [lookup_name], every
    operation of NamespaceOps.v is the plain map operation its POSIX call
    promises, whatever promotion, deferral or pruning happens in the tables. On
    top of it: the invariant along every history, the lifetime of files, and
    where the code falls short of the contract. *)

From stdpp Require Import prelude list numbers gmap strings sorting relations.
From Stdlib Require Import ZArith Lia Ascii.
From S2P Require Import Prelude Text Errno Acl BlockStore StoreSafety WriteOwnership Namespace.
From S2P Require Import NamespaceOps NamespaceTree NamespaceSafety.

#[local] Open Scope Z_scope.
Set Default Proof Using "Type".

(** ** The contract *)

Definition Names : Type := name -> option Inode.
Definition names (ns : NsDb) : Names := fun k => lookup_name k ns.

Definition unchanged (L L' : Names) : Prop := forall k, L' k = L k.
Definition inserted (k : name) (i : Inode) (L L' : Names) : Prop := forall k', L' k' = if decide (k' = k) then Some i else L k'.
Definition removed (k : name) (L L' : Names) : Prop := forall k', L' k' = if decide (k' = k) then None else L k'.
Definition renamed (old new : name) (i : Inode) (L L' : Names) : Prop :=
  forall k, L' k = if decide (k = new) then Some i else if decide (k = old) then None else L k.

Inductive NsOp : Type :=
  | OpCreateFile (special : option (string * Z * Z)) (file_id : Z) (parent_id : option Z) (nm : string)
      (mode uid gid : Z) (inode_seed : string) (umask : Z) (actor : option Actor) (acl : bool) (prior : Z * Z)
  | OpCreateDirectory (directory_id : Z) (parent_id : option Z) (nm : string) (mode uid gid : Z)
      (inode_seed : string) (umask : Z) (actor : option Actor) (acl : bool) (prior : Z * Z)
  | OpCreateSymlink (symlink_id : Z) (parent_id : option Z) (nm target : string) (uid gid : Z)
      (inode_seed : string) (actor : option Actor) (acl : bool) (prior_gid : Z)
  | OpLinkFile (hardlink_id source_file_id : Z) (parent_id : option Z) (nm : string) (uid gid : Z)
      (actor : option Actor) (binding : option SourceNamespaceBinding) (acl : bool)
  | OpLinkSymlink (alias_id symlink_id : Z) (parent_id : option Z) (nm : string)
      (actor : option Actor) (binding : option SourceNamespaceBinding) (acl : bool)
  | OpUnlinkFile (file_id : Z) (hidden : string) (parent_id : option Z) (nm : string) (actor_uid : Z)
      (actor : option (Actor * bool)) (clk : nat -> Z)
  | OpUnlinkSymlink (symlink_id : Z) (parent_id : option Z) (nm : string) (actor_uid : Z)
      (actor : option (Actor * bool))
  | OpUnlinkAlias (alias_id : Z) (parent_id : option Z) (nm : string) (actor : Actor) (acl : bool)
  | OpRmdir (directory_id : Z) (parent_id : option Z) (nm : string) (actor_uid : Z) (actor : option (Actor * bool))
  | OpRename (source : RenameNamespaceSource) (old_parent_id : option Z) (old_name : string)
      (new_parent_id : option Z) (new_name : string) (target : option RenameNamespaceTarget) (actor_uid : Z)
      (no_replace : bool) (actor : option (Actor * bool)) (locked : bool) (clk : nat -> Z)
  | OpDeleteHardlink (id : Z)
  | OpDeleteSymlink (id : Z)
  | OpDeleteAlias (id : Z)
  | OpDeleteDirectory (id : Z)
  | OpPromote (file_id : Z)
  | OpPurge (file_id : Z) (clk : nat -> Z)
  | OpPurgeOrphans (limit now : Z) (clks : nat -> nat -> Z).

Inductive NsReply : Type :=
  | RId (r : outcome string Z)
  | RUnlink (r : outcome string FileUnlinkOutcome)
  | RRmdir (r : outcome string DirectoryUnlinkOutcome)
  | RRename (r : outcome string RenameFileReplaceOutcome)
  | RUnit (r : outcome string unit)
  | RPromote (r : outcome string bool).

Definition run_op (op : NsOp) (ns : NsDb) : NsReply * NsDb :=
  match op with
  | OpCreateFile sp fid p nm mode uid gid seed umask a acl prior =>
      prod_map RId id (create_file_with sp fid p nm mode uid gid seed umask a acl prior ns)
  | OpCreateDirectory did p nm mode uid gid seed umask a acl prior =>
      prod_map RId id (create_directory_internal did p nm mode uid gid seed umask a acl prior ns)
  | OpCreateSymlink sid p nm target uid gid seed a acl prior =>
      prod_map RId id (create_symlink_internal sid p nm target uid gid seed a acl prior ns)
  | OpLinkFile hid src p nm uid gid a b acl => prod_map RId id (create_hardlink_internal hid src p nm uid gid a b acl ns)
  | OpLinkSymlink aid sid p nm a b acl => prod_map RId id (create_symlink_hardlink_internal aid sid p nm a b acl ns)
  | OpUnlinkFile fid hidden p nm uid a clk => prod_map RUnlink id (unlink_file_entry_internal fid hidden p nm uid a clk ns)
  | OpUnlinkSymlink sid p nm uid a => prod_map RUnit id (unlink_symlink_entry_internal sid p nm uid a ns)
  | OpUnlinkAlias aid p nm a acl => prod_map RUnit id (unlink_symlink_hardlink_entry_for_subject_acl aid p nm a acl ns)
  | OpRmdir did p nm uid a => prod_map RRmdir id (unlink_directory_entry_internal did p nm uid a ns)
  | OpRename src op on np nn t uid nr a locked clk =>
      prod_map RRename id
        (rename_namespace_replace_with_ownership_guard_internal src op on np nn t uid nr a locked clk ns)
  | OpDeleteHardlink hid => prod_map RUnit id (delete_hardlink_entry hid ns)
  | OpDeleteSymlink sid => prod_map RUnit id (delete_symlink_entry sid ns)
  | OpDeleteAlias aid => prod_map RUnit id (delete_symlink_hardlink_entry aid ns)
  | OpDeleteDirectory did => prod_map RUnit id (delete_directory_entry did ns)
  | OpPromote fid => prod_map RPromote id (promote_hardlink_to_primary fid ns)
  | OpPurge fid clk => prod_map RUnit id (purge_primary_file fid clk ns)
  | OpPurgeOrphans limit now clks => prod_map RId id (purge_orphaned_unlinked_files limit now clks ns)
  end.

Definition key_of (parent_id : option Z) (nm : string) : name := (parent_key parent_id, nm).

(** A create succeeds on a free name, or finds the entry it made itself. *)
Definition create_effect (k : name) (i : Inode) (L L' : Names) : Prop :=
  (L k = None \/ L k = Some i) /\ inserted k i L L'.

(** A rename that finds itself done: of an alias only its own row is compared. *)
Definition already_renamed (source : RenameNamespaceSource) (new : name) (L L' : Names) : Prop :=
  unchanged L L' /\
  match source with
  | RenameSymlinkHardlink _ _ => exists symlink_id, L new = Some (ISymlink symlink_id)
  | _ => L new = Some (source_inode source)
  end.

(** What the caller of an operation is promised, by its reply. *)
Definition posix_effect (op : NsOp) (reply : NsReply) (L L' : Names) : Prop :=
  match op, reply with
  | OpCreateFile _ _ p nm _ _ _ _ _ _ _ _, RId (Ok id) => create_effect (key_of p nm) (IFile id) L L'
  | OpCreateDirectory _ p nm _ _ _ _ _ _ _ _, RId (Ok id) => create_effect (key_of p nm) (IDir id) L L'
  | OpCreateSymlink _ p nm _ _ _ _ _ _ _, RId (Ok id) => create_effect (key_of p nm) (ISymlink id) L L'
  | OpLinkFile _ src p nm _ _ _ _ _, RId (Ok _) => create_effect (key_of p nm) (IFile src) L L'
  | OpLinkSymlink _ sid p nm _ _ _, RId (Ok _) => create_effect (key_of p nm) (ISymlink sid) L L'
  | OpUnlinkFile fid _ p nm _ _ _, RUnlink (Ok out) =>
      if bool_decide (out = SourceChanged) then unchanged L L'
      else L (key_of p nm) = Some (IFile fid) /\ removed (key_of p nm) L L'
  | OpUnlinkSymlink sid p nm _ _, RUnit (Ok tt) =>
      L (key_of p nm) = Some (ISymlink sid) /\ removed (key_of p nm) L L'
  | OpUnlinkAlias _ p nm _ _, RUnit (Ok tt) =>
      (exists sid, L (key_of p nm) = Some (ISymlink sid)) /\ removed (key_of p nm) L L'
  | OpRmdir did p nm _ _, RRmdir (Ok Removed) =>
      L (key_of p nm) = Some (IDir did) /\ (forall child, L (did, child) = None) /\ removed (key_of p nm) L L'
  | OpRename src op on np nn t _ nr _ _ _, RRename (Ok Applied) =>
      let i := source_inode src in
      already_renamed src (key_of np nn) L L'
      \/ (L (key_of op on) = Some i /\ L (key_of np nn) = source_inode <$> (if nr then None else t) /\
          renamed (key_of op on) (key_of np nn) i L L')
  | (OpDeleteHardlink _ | OpDeleteSymlink _ | OpDeleteAlias _ | OpDeleteDirectory _), RUnit (Ok tt) =>
      unchanged L L' \/ exists k i, L k = Some i /\ removed k L L'
  | OpPromote fid, RPromote (Ok true) => exists k, L k = Some (IFile fid) /\ removed k L L'
  | OpPurge fid _, RUnit (Ok tt) =>
      unchanged L L' \/ exists k, L k = Some (IFile fid) /\ removed k L L'
  | _, _ => unchanged L L'
  end.

(** ** From the tables to the map *)

Lemma names_binds ns k i : ns_wf ns -> names ns k = Some i <-> binds (view ns) k i.
Proof. apply lookup_name_binds. Qed.

(** Two maps agree when they bind the same. *)
Lemma names_ext ns (x : option Inode) k : ns_wf ns -> (forall i, binds (view ns) k i <-> x = Some i) -> names ns k = x.
Proof. intros Hwf H. apply option_eq. intros i. by rewrite names_binds, H. Qed.

Lemma same_names_unchanged ns ns' : ns_wf ns -> same_names ns ns' -> unchanged (names ns) (names ns').
Proof. intros Hwf [Hw H] k. apply names_ext; [done|]. intros i. by rewrite H, names_binds. Qed.

Lemma unbound_removed ns ns' k : ns_wf ns -> unbound k ns ns' -> removed k (names ns) (names ns').
Proof.
  intros Hwf [Hw H] k'. apply names_ext; [done|]. intros i. rewrite H. case_decide; [naive_solver|].
  rewrite names_binds by done. tauto.
Qed.

Lemma bound_inserted ns ns' k i : ns_wf ns -> bound k i ns ns' -> inserted k i (names ns) (names ns').
Proof.
  intros Hwf [Hw H] k'. apply names_ext; [done|]. intros j. rewrite H. case_decide; [naive_solver|].
  rewrite names_binds by done. naive_solver.
Qed.

Lemma moved_renamed ns ns' old new i : ns_wf ns -> moved old new i ns ns' -> renamed old new i (names ns) (names ns').
Proof.
  intros Hwf [Hw H] k. apply names_ext; [done|]. intros j. rewrite H. repeat case_decide; [naive_solver..|].
  rewrite names_binds by done. naive_solver.
Qed.

Lemma free_names ns k : ns_wf ns -> free (view ns) k -> names ns k = None.
Proof.
  intros Hwf Hf. destruct (names ns k) as [i|] eqn:E; [|done]. apply names_binds in E as [e He]; [|done]. by destruct (Hf e i).
Qed.

Lemma create_effect_bound ns ns' k i : ns_wf ns -> free (view ns) k -> bound k i ns ns' ->
  create_effect k i (names ns) (names ns').
Proof. intros Hwf Hf Hb. split; [left; by apply free_names|by apply bound_inserted]. Qed.

Lemma create_effect_there ns k i : ns_wf ns -> binds (view ns) k i -> create_effect k i (names ns) (names ns).
Proof.
  intros Hwf Hb. apply names_binds in Hb; [|done]. split; [by right|]. intros k'. by case_decide; subst.
Qed.

(** ** Every operation *)

(** The goal for one operation. *)
Definition op_ok (op : NsOp) (ns : NsDb) : Prop :=
  forall reply ns', run_op op ns = (reply, ns') -> ns_wf ns' /\ posix_effect op reply (names ns) (names ns').

Lemma unchanged_refl L : unchanged L L.
Proof. by intros k. Qed.
#[local] Hint Resolve unchanged_refl : core.

Lemma transaction_cases {A} (m : Nx A) ns r ns' : ns_transaction m ns = (r, ns') ->
  (exists a, r = Ok a /\ m ns = Ok (a, ns')) \/ (ns' = ns /\ forall a, r <> Ok a).
Proof. unfold ns_transaction. destruct (m ns) as [[a ns1]| |]; intros [= <- <-]; eauto. Qed.

Lemma op_intro {A} (f : A -> NsReply) (x : A * NsDb) op ns : run_op op ns = prod_map f id x ->
  (forall r ns', x = (r, ns') -> ns_wf ns' /\ posix_effect op (f r) (names ns) (names ns')) -> op_ok op ns.
Proof. intros Hx H reply ns' Hr. rewrite Hx in Hr. destruct x as [r ns1]. injection Hr as <- <-. by apply H. Qed.

Ltac op_start := eapply op_intro; [reflexivity|]; intros r ns' E.

(** A failed transaction has changed nothing. *)
Tactic Notation "tx_start" hyp(E) "as" simple_intropattern(a) ident(H) :=
  apply transaction_cases in E as [(a & -> & H)|[-> Hr]];
  [|split; [done|]; match goal with r : outcome _ _ |- _ => destruct r as [x| |]; [by destruct (Hr x)|done|done] end].

(** A create through [run_create] whose body and confirmation are understood. *)
Lemma run_create_ok m confirm ns r ns' k (inode : Z -> Inode) :
  ns_wf ns -> run_create m confirm ns = (r, ns') ->
  (forall id ns1, m ns = Ok (id, ns1) -> free (view ns) k /\ bound k (inode id) ns ns1) ->
  (forall id, confirm ns = Some id -> binds (view ns) k (inode id)) ->
  ns_wf ns' /\ match r with Ok id => create_effect k (inode id) (names ns) (names ns') | _ => unchanged (names ns) (names ns') end.
Proof.
  intros Hwf H Hm Hc. apply run_create_cases in H as [(id & -> & H)|[-> H]].
  - destruct (Hm id ns' H) as [Hf Hb]. split; [apply Hb|by apply create_effect_bound].
  - split; [done|]. destruct r as [id| |]; [|done..]. apply create_effect_there; [done|]. by apply Hc, H.
Qed.

Section ops.
Context (ns : NsDb) (Hwf : ns_wf ns).

Lemma create_file_ok sp fid p nm mode uid gid seed umask a acl prior :
  op_ok (OpCreateFile sp fid p nm mode uid gid seed umask a acl prior) ns.
Proof using Hwf.
  op_start. unfold create_file_with in E. destruct (has_nul nm); [by injection E as <- <-|].
  destruct (has_nul seed); [by injection E as <- <-|]. eapply (run_create_ok _ _ _ _ _ (key_of p nm) IFile) in E; [|done|..].
  - by destruct r.
  - intros id ns1 H. assert (Hf : free (view ns) (key_of p nm)).
    { unfold create_file_body in H. apply nx_bind_Ok in H as (x & ns0 & [Hx _]%nx_read_Ok & _).
      by eapply created_attributes_free. }
    eapply create_file_Ok in H as (-> & Hb & _); [done|done|done].
  - intros id H. unfold confirm_created_file in H.
    destruct (head (rows_in file_place p nm (ns_files ns))) as [row|] eqn:Hh; [|done]. cbn in H.
    destruct (db_files (ns_db ns) !! row.1); [|done]. cbn in H. destruct (_ && _); [|done]. injection H as <-.
    exists (KFile, row.1). by apply (rows_in_view _ (fun _ => IFile row.1)) in Hh.
Qed.

Lemma create_directory_ok did p nm mode uid gid seed umask a acl prior :
  op_ok (OpCreateDirectory did p nm mode uid gid seed umask a acl prior) ns.
Proof using Hwf.
  op_start. unfold create_directory_internal in E. destruct (has_nul nm); [by injection E as <- <-|].
  destruct (has_nul seed); [by injection E as <- <-|]. eapply (run_create_ok _ _ _ _ _ (key_of p nm) IDir) in E; [|done|..].
  - by destruct r.
  - intros id ns1 H. apply nx_bind_Ok in H as ([[g m] ac] & ns0 & [Hx ->]%nx_read_Ok & H).
    apply created_attributes_free in Hx. split; [done|]. apply nx_bind_Ok in H as (u & ns0' & Hm & H).
    assert (ns0' = ns) as -> by (revert Hm; unfold check_mode; destruct (4095 <? m); [done|by intros [= _ <-]]).
    apply insert_row_Ok in H as (Hn & Hpos & Hp & -> & ->). cbn in Hp.
    match goal with |- bound _ _ _ (set_directories (<[_ := ?row]> _) _) =>
      destruct (wf_put_directory ns Hwf did row) as [Hw Hv]; cbn; try done end.
    { intros q -> Hb. clear -Hb Hn Hp Hwf. specialize (Hp q eq_refl).
      induction Hb as [[? ?]|x rw p' Hl Hpr _ IH]; [congruence|]. apply IH. apply (nw_parents _ Hwf). left. by exists x, rw. }
    { by apply free_taken. }
    eapply bound_vset; [done| |done|done|exact Hv]. by rewrite view_directory, Hn.
  - intros id H. destruct (expected_attributes _ _) as [eg em] in H.
    destruct (head (rows_in directory_place p nm (ns_directories ns))) as [row|] eqn:Hh; [|done]. cbn in H.
    destruct (_ && _); [|done]. injection H as <-.
    exists (KDir, row.1). by apply (rows_in_view _ (fun _ => IDir row.1)) in Hh.
Qed.

Lemma create_symlink_ok sid p nm target uid gid seed a acl prior :
  op_ok (OpCreateSymlink sid p nm target uid gid seed a acl prior) ns.
Proof using Hwf.
  op_start. unfold create_symlink_internal in E. destruct (has_nul nm); [by injection E as <- <-|].
  destruct (has_nul target); [by injection E as <- <-|]. destruct (has_nul seed); [by injection E as <- <-|].
  eapply (run_create_ok _ _ _ _ _ (key_of p nm) ISymlink) in E; [|done|..].
  - by destruct r.
  - intros id ns1 H. apply nx_bind_Ok in H as ([[g m] ac] & ns0 & [Hx ->]%nx_read_Ok & H).
    apply bind_Ok in Hx as (u & _ & Hx). apply bind_Ok in Hx as (u' & Hvac & _). apply vacant_free in Hvac as [Hf _].
    split; [done|]. apply insert_row_Ok in H as (Hn & Hpos & Hp & -> & ->).
    match goal with |- bound _ _ _ (set_symlinks (<[_ := ?row]> _) _) =>
      destruct (wf_put_symlink ns Hwf sid row) as [Hw Hv]; cbn; try done; [by apply free_taken|] end.
    eapply bound_vset; [done| |done|done|exact Hv]. by rewrite view_symlink, Hn.
  - intros id H. destruct (head (rows_in symlink_place p nm (ns_symlinks ns))) as [row|] eqn:Hh; [|done]. cbn in H.
    destruct (_ && _); [|done]. injection H as <-.
    exists (KSymlink, row.1). by apply (rows_in_view _ (fun _ => ISymlink row.1)) in Hh.
Qed.

Lemma link_file_ok hid src p nm uid gid a b acl : op_ok (OpLinkFile hid src p nm uid gid a b acl) ns.
Proof using Hwf.
  op_start. unfold create_hardlink_internal in E. destruct (name_refused nm b); [by injection E as <- <-|].
  eapply (run_create_ok _ _ _ _ _ (key_of p nm) (fun _ => IFile src)) in E; [by destruct r|done|..].
  - intros id ns1 H. pose proof (create_hardlink_free _ _ _ _ _ _ _ _ _ _ _ _ H). split; [done|].
    by eapply create_hardlink_Ok in H as [Hb _].
  - intros id H. unfold confirm_created_hardlink in H.
    destruct (head (rows_in hardlink_place p nm (ns_hardlinks ns))) as [[j h]|] eqn:Hh; [|done]. cbn in H.
    destruct (h_file h =? src) eqn:Hf; [|done]. apply Z.eqb_eq in Hf as <-.
    exists (KHardlink, j). by apply (rows_in_view _ (fun h => IFile (h_file h))) in Hh.
Qed.

Lemma link_symlink_ok aid sid p nm a b acl : op_ok (OpLinkSymlink aid sid p nm a b acl) ns.
Proof using Hwf.
  op_start. unfold create_symlink_hardlink_internal in E. destruct (name_refused nm b); [by injection E as <- <-|].
  eapply (run_create_ok _ _ _ _ _ (key_of p nm) (fun _ => ISymlink sid)) in E; [by destruct r|done|..].
  - intros id ns1 H. pose proof (create_alias_free _ _ _ _ _ _ _ _ _ _ H). split; [done|].
    by eapply create_alias_Ok in H as [Hb _].
  - intros id H. unfold confirm_created_symlink_hardlink in H.
    destruct (head _) as [[j h]|] eqn:Hh; [|done]. injection H as <-.
    apply head_Some_elem_of, list_elem_of_filter in Hh as [Hf Hh]. cbn in Hf. apply list_elem_of_filter in Hh as [Hp Hin].
    apply elem_of_map_to_list in Hin. cbn in Hp. exists (KSymlinkHardlink, j). rewrite view_alias, Hin.
    cbn. injection Hp as -> ->. by rewrite Hf.
Qed.

Lemma unlink_file_ok fid hidden p nm uid a clk : op_ok (OpUnlinkFile fid hidden p nm uid a clk) ns.
Proof using Hwf.
  op_start. unfold unlink_file_entry_internal in E. destruct (_ || _); [by injection E as <- <-|].
  do 2 (destruct (has_nul _); [by injection E as <- <-|]).
  tx_start E as out H.
  apply unlink_file_Ok in H; [|done]. cbn. unfold unlink_outcome_effect in H.
  case_bool_decide as Hout; [subst out; by subst ns'|].
  assert (H' : binds (view ns) (key_of p nm) (IFile fid) /\ unbound (key_of p nm) ns ns') by (destruct out; naive_solver).
  destruct H' as [Hb Hu]. split; [apply Hu|]. split; [by apply names_binds|by apply unbound_removed].
Qed.

Lemma unlink_symlink_ok sid p nm uid a : op_ok (OpUnlinkSymlink sid p nm uid a) ns.
Proof using Hwf.
  op_start. unfold unlink_symlink_entry_internal in E.
  destruct (namespace_serialization_key p nm) as [key| |] eqn:Hkey; [|by injection E as <- <-..].
  tx_start E as [] H.
  assert (key = key_of p nm) as -> by (revert Hkey; unfold namespace_serialization_key; repeat case_match; naive_solver).
  destruct (row_named symlink_place sid (key_of p nm) (ns_symlinks ns)) eqn:Hn; [|done].
  apply (row_named_view _ (fun _ => ISymlink sid)) in Hn as (e & _ & Hk).
  nx_inv H. apply nx_read_Ok in H0 as [_ ->]. nx_inv H1. apply nx_read_Ok in H as [_ ->].
  eapply (remove_symlink_Ok ns sid (key_of p nm)) in H0 as [(Hu & _) _]; [|done|exact Hk].
  split; [apply Hu|]. split; [apply names_binds; [done|]; by exists (KSymlink, sid)|by apply unbound_removed].
Qed.

Lemma unlink_alias_ok aid p nm a acl : op_ok (OpUnlinkAlias aid p nm a acl) ns.
Proof using Hwf.
  op_start. unfold unlink_symlink_hardlink_entry_for_subject_acl in E.
  destruct (namespace_serialization_key p nm) as [key| |] eqn:Hkey; [|by injection E as <- <-..].
  tx_start E as [] H.
  assert (key = key_of p nm) as -> by (revert Hkey; unfold namespace_serialization_key; repeat case_match; naive_solver).
  destruct (ns_symlink_hardlinks ns !! aid) as [al|] eqn:Ha; [|done].
  case_bool_decide as Hk; [|done]. cbn [negb] in H. case_bool_decide; [done|].
  nx_inv H. apply nx_read_Ok in H1 as [_ ->]. nx_inv H2. apply nx_read_Ok in H as [_ ->].
  assert (Hv : view ns (KSymlinkHardlink, aid) = Some (key_of p nm, ISymlink (sh_symlink al)))
    by (rewrite view_alias, Ha; unfold key_of; cbn; by injection Hk as -> ->).
  eapply (delete_alias_Ok ns aid (key_of p nm)) in H1 as [(Hu & _) _]; [|done|exact Hv].
  split; [apply Hu|]. split; [eexists; apply names_binds; [done|]; by eexists|by apply unbound_removed].
Qed.

Lemma no_children_free id child : 0 < id -> directory_has_children id ns = false -> free (view ns) (id, child).
Proof using.
  intros Hpos Hno e i He. apply bool_decide_eq_false in Hno. apply Hno.
  assert (Hkey : forall p, parent_key p = id -> p = Some id) by (intros [q|]; cbn; [by intros ->|lia]).
  destruct e as [[] j]; revert He.
  1: rewrite view_file. 2: rewrite view_hardlink. 3: rewrite view_symlink. 4: rewrite view_alias. 5: rewrite view_directory.
  all: destruct (_ !! j) as [row|] eqn:Hj; [|done]; cbn; repeat case_match; intros [= Hp%Hkey ? ?].
  - left. by exists j, row.
  - right; left. by exists j, row.
  - do 3 right; left. by exists j, row.
  - do 4 right. by exists j, row.
  - do 2 right; left. by exists j, row.
Qed.
End ops.

Lemma detach_Ok ns did u ns' : ns_wf ns -> detach_unlinked_files did ns = Ok (u, ns') ->
  same_names ns ns' /\ (forall e, view ns' e = view ns e).
Proof.
  intros Hwf. unfold detach_unlinked_files. case_bool_decide; [done|]. intros [= _ <-].
  destruct (wf_detach ns Hwf did) as [Hw Hv]. split; [by apply same_names_view|done].
Qed.

Lemma rmdir_Ok ns did p key uid a out ns' : ns_wf ns -> unlink_directory_body did p key uid a ns = Ok (out, ns') ->
  match out with
  | Removed => binds (view ns) key (IDir did) /\ (forall child, free (view ns) (did, child)) /\ unbound key ns ns'
  | _ => ns' = ns
  end.
Proof.
  intros Hwf. unfold unlink_directory_body.
  destruct (row_named directory_place did key (ns_directories ns)) eqn:Hn; [|by intros [= <- <-]]. cbn [negb]. intros H.
  apply nx_bind_Ok in H as (u1 & ns1 & [_ ->]%nx_read_Ok & H). apply nx_bind_Ok in H as (u2 & ns1 & [_ ->]%nx_read_Ok & H).
  destruct (directory_has_children did ns) eqn:Hc; [by injection H as <- <-|].
  apply nx_bind_Ok in H as (u3 & ns1 & Hd & H). apply detach_Ok in Hd as [Hs Hv]; [|done].
  apply nx_bind_Ok in H as (ns1' & ns1'' & [= -> ->] & H).
  destruct (negb _); [done|]. destruct (directory_has_children did ns1''); [done|].
  apply nx_bind_Ok in H as (u4 & ns2 & Hdel & [= <- <-]).
  apply (row_named_view _ (fun _ => IDir did)) in Hn as (e & Hrow & Hk). change (view ns (KDir, did) = Some (key, IDir did)) in Hk.
  eapply (delete_directory_Ok _ did key (IDir did)) in Hdel as [(Hu & _) _]; [|apply Hs|by rewrite Hv].
  split; [by exists (KDir, did)|]. split; [|by eapply same_unbound]. intros child. apply no_children_free; [|done].
  apply (nw_pos _ Hwf). eapply view_row_present, Hk.
Qed.

(** A file no name leads to. *)
Definition nameless (ns : NsDb) (file_id : Z) : Prop := view ns (KFile, file_id) = None.

Lemma purge_Ok ns fid clk r ns' : ns_wf ns -> purge_primary_file fid clk ns = (r, ns') ->
  ns' = ns \/ primary_unbound fid ns ns'.
Proof.
  intros Hwf E. apply transaction_cases in E as [(u & -> & H)|[-> Hr]]; [|by left].
  unfold ns_replay_confirmed in H. destruct (lock_file_lifecycle_on_conn _ _); [|injection H as _ <-; by left].
  apply purge_on_conn_Ok in H as [Hpu _]; [by right|done].
Qed.

Lemma same_names_nameless ns ns' fid : ns_wf ns -> same_names ns ns' -> nameless ns fid -> nameless ns' fid.
Proof.
  intros Hwf [Hw Hs] Hn. unfold nameless. destruct (view ns' (KFile, fid)) as [[k i]|] eqn:Hk; [|done].
  pose proof (view_file_inode _ _ _ _ Hk) as ->. assert (Hb : binds (view ns') k (IFile fid)) by by exists (KFile, fid).
  apply Hs in Hb as [[[] j] He]; revert He.
  - intros He. pose proof (view_file_inode _ _ _ _ He) as [= ->]. congruence.
  - rewrite view_hardlink. destruct (ns_hardlinks ns !! j) as [h|] eqn:Hj; [|done]. intros [= _ Hf].
    destruct (nw_links _ Hwf _ _ Hj) as (f & Hlf & Hu). unfold nameless in Hn. by rewrite view_file, <- Hf, Hlf, Hu in Hn.
  - rewrite view_symlink. by destruct (_ !! _).
  - rewrite view_alias. by destruct (_ !! _).
  - rewrite view_directory. by destruct (_ !! _).
Qed.

Lemma primary_unbound_wf fid ns ns' : primary_unbound fid ns ns' -> ns_wf ns'.
Proof. intros [_ H]. destruct (view ns (KFile, fid)) as [[k i]|]; apply H. Qed.

Lemma primary_unbound_effect fid ns ns' : ns_wf ns -> primary_unbound fid ns ns' ->
  unchanged (names ns) (names ns') \/ exists k, names ns k = Some (IFile fid) /\ removed k (names ns) (names ns').
Proof.
  intros Hwf [_ H]. destruct (view ns (KFile, fid)) as [[k i]|] eqn:Hk; [right|left; by apply same_names_unchanged].
  pose proof (view_file_inode _ _ _ _ Hk) as ->. exists k.
  split; [apply names_binds; [done|by eexists]|by apply unbound_removed].
Qed.

(** A run of purges of nameless files changes no name. *)
Lemma purge_files_Ok clks ids : forall ns n r ns', ns_wf ns -> Forall (nameless ns) ids ->
  purge_files ids clks n ns = (r, ns') -> same_names ns ns'.
Proof.
  induction ids as [|fid ids IH]; intros ns n r ns' Hwf Hids E; cbn in E; [injection E as <- <-; by apply same_names_refl|].
  apply Forall_cons in Hids as [Hn Hids]. destruct (purge_primary_file _ _ ns) as [r1 ns1] eqn:Ep.
  assert (Hs : same_names ns ns1).
  { apply purge_Ok in Ep as [->|[_ Hpu]]; [by apply same_names_refl|..|done]. unfold nameless in Hn. by rewrite Hn in Hpu. }
  destruct r1 as [[]| |]; [|by injection E as <- <-..].
  eapply same_trans; [exact Hs|]. eapply IH; [apply Hs| |exact E]. eapply Forall_impl; [exact Hids|].
  intros x Hx. by eapply same_names_nameless.
Qed.

Section more_ops.
Context (ns : NsDb) (Hwf : ns_wf ns).

Lemma rmdir_ok did p nm uid a : op_ok (OpRmdir did p nm uid a) ns.
Proof using Hwf.
  op_start. unfold unlink_directory_entry_internal in E. destruct (_ || _); [by injection E as <- <-|].
  destruct (namespace_serialization_key p nm) as [key| |] eqn:Hkey; [|by injection E as <- <-..].
  assert (key = key_of p nm) as -> by (revert Hkey; unfold namespace_serialization_key; repeat case_match; naive_solver).
  destruct (ns_transaction _ ns) as [r1 ns1] eqn:Et. assert (ns1 = ns') as -> by (by destruct r1; injection E).
  apply transaction_cases in Et as [(out & -> & H)|[-> Hr]].
  - injection E as <-. apply rmdir_Ok in H; [|done]. destruct out; [|by subst ns'..].
    destruct H as (Hb & Hc & Hu). split; [apply Hu|]. split; [by apply names_binds|]. split; [|by apply unbound_removed].
    intros child. by apply free_names.
  - split; [done|]. destruct r1 as [x|e|]; [by destruct (Hr x)| |by injection E as <-].
    injection E as <-. by destruct (String.eqb _ _).
Qed.

Lemma already_renamed_view src r np nn : resolve (key_of np nn) ns = Ok r -> resolves_to src r = true ->
  already_renamed src (key_of np nn) (names ns) (names ns).
Proof using Hwf.
  intros Hr Hs. split; [done|].
  assert (Hv : alias_as_expected src ns = true -> names ns (key_of np nn) = Some (source_inode src)).
  { intros Ha. apply names_binds; [done|]. exists (source_entry src). by eapply resolved_view. }
  destruct src as [| | |aid sid|]; try by apply Hv.
  apply bool_decide_eq_true in Hs as ->. apply resolve_lookup in Hr as (i & Hi & _); [|done].
  cbn [entry_kind rename_entry_id] in Hi. pose proof Hi as Hi'. rewrite view_alias in Hi.
  destruct (ns_symlink_hardlinks ns !! aid) as [al|]; [|done]. injection Hi as _ _ <-. exists (sh_symlink al).
  apply names_binds; [done|by eexists].
Qed.

Lemma rename_ok src op on np nn t uid nr a locked clk : op_ok (OpRename src op on np nn t uid nr a locked clk) ns.
Proof using Hwf.
  op_start. unfold rename_namespace_replace_with_ownership_guard_internal in E.
  destruct (_ || _); [by injection E as <- <-|]. do 2 (destruct (has_nul _); [by injection E as <- <-|]).
  tx_start E as out H. unfold ns_replay_confirmed in H.
  change (parse_resolved_rename_entry (resolve_entry_rows (parent_key np, nn) ns)) with (resolve (key_of np nn) ns) in H.
  assert (Hbody : (forall x, resolve (key_of np nn) ns = Ok x -> resolves_to src x = false) ->
    rename_body src op on np nn (if nr then None else t) uid nr a locked clk ns = Ok (out, ns') ->
    ns_wf ns' /\ posix_effect (OpRename src op on np nn t uid nr a locked clk) (RRename (Ok out)) (names ns) (names ns')).
  { intros Hp Hb. apply rename_body_Ok in Hb as (ns1 & Hl & Hout); [|done|done].
    pose proof (leases_only_names _ _ Hl Hwf) as Hs. pose proof Hs as [Hw1 Hs1].
    destruct out; cbn; try (subst ns'; split; [done|by apply same_names_unchanged]).
    destruct Hout as (Hb & _ & Hm & Ht). split; [apply Hm|]. right. split; [apply names_binds; [done|]; by apply Hs1|].
    split.
    { assert (Hfree : free (view ns1) (key_of np nn) -> names ns (key_of np nn) = None)
        by (intros Hf; rewrite <- (same_names_unchanged ns ns1) by done; by apply free_names).
      destruct nr; [|destruct t as [tg|]]; destruct Ht as [Ht _]; [by apply Hfree| |by apply Hfree].
      apply names_binds; [done|]. by apply Hs1. }
    apply moved_renamed; [done|]. destruct Hm as [Hw Hm]. split; [done|]. intros k i. by rewrite Hm, Hs1. }
  destruct (resolve (key_of np nn) ns) as [x| |] eqn:Hr; [|by apply Hbody..].
  destruct (resolves_to src x) eqn:Hx; [|apply Hbody; [by intros ? [= <-]|done]].
  injection H as <- <-. split; [done|]. left. by eapply already_renamed_view.
Qed.

Lemma unbound_effect k i ns' : view ns k = Some i -> unbound i.1 ns ns' ->
  ns_wf ns' /\ (unchanged (names ns) (names ns') \/ exists k i, names ns k = Some i /\ removed k (names ns) (names ns')).
Proof using Hwf.
  intros Hv Hu. split; [apply Hu|]. right. exists i.1, i.2.
  split; [apply names_binds; [done|]; exists k; by destruct i|by apply unbound_removed].
Qed.
End more_ops.

Lemma delete_hardlink_op_ok id ns : ns_wf ns -> op_ok (OpDeleteHardlink id) ns.
Proof.
  intros Hwf. op_start. unfold delete_hardlink_entry in E. tx_start E as [] H; cbn.
  destruct (ns_hardlinks ns !! id) as [h|] eqn:Hh; [|injection H as <-; by split; [|left]].
  assert (Hv : view ns (KHardlink, id) = Some ((parent_key (h_parent h), h_name h), IFile (h_file h)))
    by by rewrite view_hardlink, Hh.
  eapply delete_hardlink_Ok in H as (Hu & _); [|done|exact Hv]. by eapply unbound_effect.
Qed.

Lemma delete_symlink_op_ok id ns : ns_wf ns -> op_ok (OpDeleteSymlink id) ns.
Proof.
  intros Hwf. op_start. unfold delete_symlink_entry in E. tx_start E as [] H; cbn.
  unfold delete_symlink in H. case_bool_decide as Hno; [done|]. injection H as <-.
  destruct (wf_del_symlink ns Hwf id Hno) as [Hw Hv]. destruct (view ns (KSymlink, id)) as [[k i]|] eqn:Hk.
  - eapply unbound_effect; [done|exact Hk|by eapply unbound_clear].
  - split; [done|]. left. apply same_names_unchanged; [done|by eapply same_names_clear].
Qed.

Lemma delete_alias_op_ok id ns : ns_wf ns -> op_ok (OpDeleteAlias id) ns.
Proof.
  intros Hwf. op_start. unfold delete_symlink_hardlink_entry in E. tx_start E as [] H; cbn.
  destruct (view ns (KSymlinkHardlink, id)) as [[k i]|] eqn:Hk.
  - eapply delete_alias_Ok in H as [(Hu & _) _]; [|done..]. by eapply unbound_effect.
  - injection H as <-. destruct (wf_del_alias ns Hwf id) as [Hw Hv].
    split; [done|]. left. apply same_names_unchanged; [done|by eapply same_names_clear].
Qed.

Lemma delete_directory_op_ok id ns : ns_wf ns -> op_ok (OpDeleteDirectory id) ns.
Proof.
  intros Hwf. op_start. unfold delete_directory_entry in E. tx_start E as [] H; cbn.
  destruct (view ns (KDir, id)) as [[k i]|] eqn:Hk.
  - eapply delete_directory_Ok in H as [(Hu & _) _]; [|done..]. by eapply unbound_effect.
  - unfold delete_directory in H. rewrite view_directory in Hk. destruct (ns_directories ns !! id) eqn:Hd; [done|].
    rewrite bool_decide_eq_false_2, andb_false_r, delete_id in H by (try done; by intros []).
    injection H as <-. replace (set_directories _ ns) with ns by by destruct ns. by split; [|left].
Qed.

Lemma promote_op_ok fid ns : ns_wf ns -> op_ok (OpPromote fid) ns.
Proof.
  intros Hwf. op_start. unfold promote_hardlink_to_primary in E. tx_start E as b H. destruct (lock_file_lifecycle_on_conn _ _); cbn [negb] in H; [|by injection H as <- <-].
  destruct (first_hardlink fid ns) as [[hid h]|] eqn:Hf; [|by injection H as <- <-].
  apply nx_bind_Ok in H as (u & ns1 & Hup & H). apply nx_bind_Ok in H as (u' & ns2 & Hd & [= <- <-]).
  destruct (promote_Ok ns fid hid h u' ns2) as (Hpu & _ & [[k i] Hk]); [done|done| |].
  { unfold mbind, nx_bind in *. by rewrite Hup. }
  split; [by eapply primary_unbound_wf|]. pose proof (view_file_inode _ _ _ _ Hk) as ->. exists k.
  destruct Hpu as [_ Hu]. rewrite Hk in Hu. split; [apply names_binds; [done|by eexists]|by apply unbound_removed].
Qed.

Lemma purge_op_ok fid clk ns : ns_wf ns -> op_ok (OpPurge fid clk) ns.
Proof.
  intros Hwf. op_start. pose proof E as E'. apply purge_Ok in E as [->|Hpu]; [|..|done].
  - split; [done|]. destruct r as [[]| |]; [by left|done..].
  - split; [by eapply primary_unbound_wf|]. destruct r as [[]| |]; [by apply primary_unbound_effect|..];
      apply transaction_cases in E' as [(u & ? & _)|[-> _]]; done.
Qed.

Lemma orphaned_nameless now limit ns : Forall (nameless ns) (take (Z.to_nat limit) (orphaned_unlinked_files now ns)).
Proof.
  apply Forall_forall. intros fid Hin. apply elem_of_take in Hin as (j & Hj & _). apply list_elem_of_lookup_2 in Hj.
  unfold orphaned_unlinked_files in Hj. apply elem_of_sort_z, list_elem_of_fmap in Hj as ([id f] & -> & Hj).
  apply list_elem_of_filter in Hj as [[Hu _] Hj%elem_of_map_to_list]. cbn in *. unfold nameless.
  by rewrite view_file, Hj, Hu.
Qed.

Lemma purge_orphans_op_ok limit now clks ns : ns_wf ns -> op_ok (OpPurgeOrphans limit now clks) ns.
Proof.
  intros Hwf. op_start. unfold purge_orphaned_unlinked_files in E. destruct (limit =? 0); [by injection E as <- <-|].
  apply purge_files_Ok in E as Hs; [|done|apply orphaned_nameless].
  split; [apply Hs|]. apply same_names_unchanged in Hs; [|done]. by destruct r.
Qed.

Lemma run_op_ok op ns : ns_wf ns -> op_ok op ns.
Proof.
  intros Hwf. destruct op.
  - by apply create_file_ok.
  - by apply create_directory_ok.
  - by apply create_symlink_ok.
  - by apply link_file_ok.
  - by apply link_symlink_ok.
  - by apply unlink_file_ok.
  - by apply unlink_symlink_ok.
  - by apply unlink_alias_ok.
  - by apply rmdir_ok.
  - by apply rename_ok.
  - by apply delete_hardlink_op_ok.
  - by apply delete_symlink_op_ok.
  - by apply delete_alias_op_ok.
  - by apply delete_directory_op_ok.
  - by apply promote_op_ok.
  - by apply purge_op_ok.
  - by apply purge_orphans_op_ok.
Qed.
