(* ===== verification/NamespaceHistory.v ===== *)
(** * Histories of the namespace

    What the contract of NamespaceRefine.v gives along every history of
    transactions: the refinement itself, the invariant from the schema's initial
    rows on, how long files live, path lookups, and the places where the code
    falls short of what its callers expect. *)

From stdpp Require Import prelude list numbers gmap strings sorting relations.
From Stdlib Require Import ZArith Lia Ascii.
From S2P Require Import Prelude Text Errno Acl BlockStore StoreSafety WriteOwnership Namespace.
From S2P Require Import NamespaceOps NamespaceTree NamespaceSafety NamespaceRefine.

#[local] Open Scope Z_scope.
Set Default Proof Using "Type".

(** ** Statements that leave the block store alone *)

Definition frames_db {A} (m : Nx A) : Prop := forall ns a ns', m ns = Ok (a, ns') -> ns_db ns' = ns_db ns.

Create HintDb frames discriminated.

Lemma frames_ret {A} (a : A) : frames_db (mret a).
Proof. by intros ns a' ns' [= _ <-]. Qed.
Lemma frames_bind {A B} (m : Nx A) (k : A -> Nx B) : frames_db m -> (forall a, frames_db (k a)) -> frames_db (m ≫= k).
Proof. intros Hm Hk ns b ns' (a & ns1 & H1 & H2)%nx_bind_Ok. by rewrite (Hk a _ _ _ H2), (Hm _ _ _ H1). Qed.
Lemma frames_read {A} (f : NsDb -> outcome string A) : frames_db (nx_read f).
Proof. by intros ns a ns' [_ ->]%nx_read_Ok. Qed.
Lemma frames_err {A} e : frames_db (nx_err (A := A) e).
Proof. done. Qed.
Lemma frames_get : frames_db nx_get.
Proof. by intros ns a ns' [= _ <-]. Qed.
Lemma frames_if {A} (b : bool) (m m' : Nx A) : frames_db m -> frames_db m' -> frames_db (if b then m else m').
Proof. by destruct b. Qed.
Lemma frames_update {R} where_ (table : NsDb -> gmap Z R) put id change :
  (forall m ns, ns_db (put m ns) = ns_db ns) -> frames_db (update_row where_ table put id change).
Proof. intros Hp ns u ns' [[_ ->]|(row & _ & _ & ->)]%update_row_Ok; [done|apply Hp]. Qed.
Lemma frames_insert {R} where_ (table : NsDb -> gmap Z R) put id row :
  (forall m ns, ns_db (put m ns) = ns_db ns) -> frames_db (insert_row where_ table put id row).
Proof. intros Hp ns u ns' (_ & _ & _ & _ & ->)%insert_row_Ok. apply Hp. Qed.
Lemma frames_step {A} (f : NsDb -> Nx A) : (forall ns, frames_db (f ns)) -> frames_db (fun ns => f ns ns).
Proof. intros Hf ns a ns' H. by eapply Hf. Qed.

Lemma frames_put_directories m ns : ns_db (set_directories m ns) = ns_db ns.
Proof. by destruct ns. Qed.
Lemma frames_put_files m ns : ns_db (set_ns_files m ns) = ns_db ns.
Proof. by destruct ns. Qed.
Lemma frames_put_hardlinks m ns : ns_db (set_hardlinks m ns) = ns_db ns.
Proof. by destruct ns. Qed.
Lemma frames_put_symlinks m ns : ns_db (set_symlinks m ns) = ns_db ns.
Proof. by destruct ns. Qed.
Lemma frames_put_aliases m ns : ns_db (set_symlink_hardlinks m ns) = ns_db ns.
Proof. by destruct ns. Qed.
Lemma frames_delete_hardlink id : frames_db (delete_hardlink id).
Proof. intros ns u ns' [= _ <-]. apply frames_put_hardlinks. Qed.
Lemma frames_delete_alias id : frames_db (delete_symlink_hardlink id).
Proof. intros ns u ns' [= _ <-]. apply frames_put_aliases. Qed.
Lemma frames_delete_symlink id : frames_db (delete_symlink id).
Proof. intros ns u ns'. unfold delete_symlink. case_bool_decide; [done|]. intros [= _ <-]. apply frames_put_symlinks. Qed.
Lemma frames_delete_directory id : frames_db (delete_directory id).
Proof. intros ns u ns'. unfold delete_directory. destruct (_ && _); [done|]. intros [= _ <-]. apply frames_put_directories. Qed.
Lemma frames_detach id : frames_db (detach_unlinked_files id).
Proof. intros ns u ns'. unfold detach_unlinked_files. case_bool_decide; [done|]. intros [= _ <-]. apply frames_put_files. Qed.
Lemma frames_check_mode mode : frames_db (check_mode mode).
Proof. intros ns u ns'. unfold check_mode. destruct (4095 <? mode); [done|]. by intros [= _ <-]. Qed.

#[export] Hint Resolve frames_ret frames_bind frames_read frames_err frames_get frames_if frames_update frames_insert
  frames_put_directories frames_put_files frames_put_hardlinks frames_put_symlinks frames_put_aliases
  frames_delete_hardlink frames_delete_alias frames_delete_symlink frames_delete_directory frames_detach
  frames_check_mode : frames.

Lemma frames_promote file_id :
  frames_db (fun ns => if negb (lock_file_lifecycle_on_conn file_id ns) then Ok (false, ns)
    else match first_hardlink file_id ns with
         | None => Ok (false, ns)
         | Some (hardlink_id, h) =>
             (_ ← update_file_entry file_id (move_file (h_parent h) (h_name h)); _ ← delete_hardlink hardlink_id; mret true) ns
         end).
Proof.
  intros ns b ns'. destruct (negb _); [by intros [= _ <-]|]. destruct (first_hardlink _ _) as [[hid h]|]; [|by intros [= _ <-]].
  revert ns b ns'. change (frames_db (_ ← update_file_entry file_id (move_file (h_parent h) (h_name h)); _ ← delete_hardlink hid; mret true)).
  unfold update_file_entry. auto with frames.
Qed.

Lemma transaction_frames {A} (m : Nx A) ns : frames_db m -> ns_db (ns_transaction m ns).2 = ns_db ns.
Proof. intros Hm. unfold ns_transaction. destruct (m ns) as [[a ns']| |] eqn:E; [|done..]. by eapply Hm. Qed.

Lemma run_create_frames m confirm ns : frames_db m -> ns_db (run_create m confirm ns).2 = ns_db ns.
Proof.
  intros Hm. destruct (run_create m confirm ns) as [r ns'] eqn:E. apply run_create_cases in E as [(id & _ & H)|[-> _]]; [|done].
  by eapply Hm.
Qed.

Ltac frames_cases :=
  let n := fresh "n" in let x := fresh "x" in let n' := fresh "n" in intros n x n';
  repeat match goal with
  | |- (match ?x with _ => _ end) = Ok _ -> _ => destruct x; try (by intros [= _ <-]); try done
  | |- (match ?x with _ => _ end) _ = Ok _ -> _ => destruct x; try (by intros [= _ <-]); try done
  end;
  try match goal with |- ?m _ = Ok _ -> _ => assert (Hf : frames_db m); [|apply Hf] end;
  unfold update_file_entry, update_symlink; auto 10 with frames.

Lemma frames_hardlink_body hid src p nm uid gid a b acl : frames_db (create_hardlink_body hid src p nm uid gid a b acl).
Proof. unfold create_hardlink_body. frames_cases. Qed.
Lemma frames_alias_body aid sid p nm a b acl : frames_db (create_symlink_hardlink_body aid sid p nm a b acl).
Proof. unfold create_symlink_hardlink_body. frames_cases. Qed.
Lemma frames_remove_symlink sid : frames_db (remove_symlink_entry_or_promote_on_conn sid).
Proof. unfold remove_symlink_entry_or_promote_on_conn. frames_cases. Qed.
#[export] Hint Resolve frames_remove_symlink : frames.
Lemma frames_rmdir did p key uid a : frames_db (unlink_directory_body did p key uid a).
Proof. unfold unlink_directory_body. frames_cases. Qed.

Lemma snd_prod_map {A} (f : A -> NsReply) (x : A * NsDb) : (prod_map f id x).2 = x.2.
Proof. by destruct x. Qed.

(** The operations that touch neither the rows nor the bytes of any file. *)
Definition leaves_files (op : NsOp) : bool :=
  match op with
  | OpCreateFile _ _ _ _ _ _ _ _ _ _ _ _ | OpUnlinkFile _ _ _ _ _ _ _ | OpRename _ _ _ _ _ _ _ _ _ _ _
  | OpPurge _ _ | OpPurgeOrphans _ _ _ => false
  | _ => true
  end.

Lemma leaves_files_db op ns : leaves_files op = true -> ns_db (run_op op ns).2 = ns_db ns.
Proof.
  destruct op; try done; intros _; cbn [run_op]; rewrite snd_prod_map.
  - unfold create_directory_internal. repeat (case_match; [done|]). cbn. apply run_create_frames.
    apply frames_bind; [auto with frames|]. intros [[g m] ac]. auto with frames.
  - unfold create_symlink_internal. repeat (case_match; [done|]). cbn. apply run_create_frames.
    apply frames_bind; [auto with frames|]. intros [[g m] ac]. auto with frames.
  - unfold create_hardlink_internal. repeat (case_match; [done|]). apply run_create_frames, frames_hardlink_body.
  - unfold create_symlink_hardlink_internal. repeat (case_match; [done|]). apply run_create_frames, frames_alias_body.
  - unfold unlink_symlink_entry_internal. case_match; [|done..]. apply transaction_frames. frames_cases.
  - unfold unlink_symlink_hardlink_entry_for_subject_acl. case_match; [|done..]. apply transaction_frames. frames_cases.
  - unfold unlink_directory_entry_internal. destruct (_ || _); [done|].
    destruct (namespace_serialization_key _ _) as [key| |]; [|done..].
    pose proof (transaction_frames _ ns (frames_rmdir directory_id parent_id key actor_uid actor)) as Hf.
    destruct (ns_transaction _ _) as [[]]; done.
  - apply transaction_frames. frames_cases.
  - apply transaction_frames. auto with frames.
  - apply transaction_frames. auto with frames.
  - apply transaction_frames. auto with frames.
  - apply transaction_frames, frames_promote.
Qed.

(** ** How long a file lives *)

(** The row and the blocks of the file are as before. *)
Definition kept (fid : Z) (db db' : Db) : Prop :=
  db_files db' !! fid = db_files db !! fid /\ forall k, stored_block db' fid k = stored_block db fid k.

(** Every file is kept, or gone for a reason. *)
Definition spares (dead : Z -> Prop) (ns ns' : NsDb) : Prop :=
  forall fid, is_Some (ns_files ns !! fid) -> kept fid (ns_db ns) (ns_db ns') \/ (dead fid /\ db_files (ns_db ns') !! fid = None).

Lemma spares_same dead ns ns' : store_view (ns_db ns') = store_view (ns_db ns) -> spares dead ns ns'.
Proof.
  intros Hs fid _. left. destruct (ns_db ns), (ns_db ns'). cbn in *. injection Hs as -> -> -> -> ->. by split.
Qed.

Lemma spares_db dead ns ns' : ns_db ns' = ns_db ns -> spares dead ns ns'.
Proof. intros Hd. apply spares_same. by rewrite Hd. Qed.

Lemma isolated_kept t db db' fid : isolated t db db' -> fid <> t -> kept fid db db'.
Proof. intros [_ H1 H2] Hne. split; [by apply H1|]. intros k. by apply H2. Qed.

(** Gone while somebody has it open, at a time the transaction read. *)
Definition closed_at (reads : Z -> Prop) (ns : NsDb) (fid : Z) : Prop :=
  exists now, reads now /\ live_open_lease fid now ns = false.

Lemma store_effect_spares fid (reads : Z -> Prop) now ns ns' :
  reads now -> store_effect fid now ns ns' -> spares (closed_at reads ns) ns ns'.
Proof.
  intros Hr [Hd|(Hi & Hn & Hl & _)]; [by apply spares_db|]. intros x Hx. destruct (decide (x = fid)) as [->|Hne].
  - right. split; [by exists now|done].
  - left. by eapply isolated_kept.
Qed.

(** Write leases do not count. *)
Lemma spares_leases dead ns ns1 ns' : leases_only ns ns1 -> spares (dead ns1) ns1 ns' ->
  (forall fid, dead ns1 fid -> dead ns fid) -> spares (dead ns) ns ns'.
Proof.
  intros Hl H Hd fid Hx. rewrite <- (lo_files _ _ Hl) in Hx. pose proof (lo_store _ _ Hl) as Hs.
  assert (Hk : kept fid (ns_db ns) (ns_db ns1)).
  { destruct (ns_db ns), (ns_db ns1). cbn in *. injection Hs as -> -> -> -> ->. by split. }
  destruct Hk as [K1 K2]. destruct (H fid Hx) as [[H1 H2]|[H1 H2]]; [left|right; by split; [apply Hd|]].
  split; [congruence|]. intros k. by rewrite H2, K2.
Qed.

(** The times an operation reads from the clock. *)
Definition reads_clock (op : NsOp) (now : Z) : Prop :=
  match op with
  | OpUnlinkFile _ _ _ _ _ _ clk | OpRename _ _ _ _ _ _ _ _ _ _ clk | OpPurge _ clk => exists k, now = clk k
  | OpPurgeOrphans _ _ clks => exists j k, now = clks j k
  | _ => False
  end.

Lemma purge_store ns fid clk r ns' : ns_wf ns -> purge_primary_file fid clk ns = (r, ns') ->
  store_effect fid (clk 1%nat) ns ns'.
Proof.
  intros Hwf E. apply transaction_cases in E as [(u & -> & H)|[-> Hr]]; [|by left].
  unfold ns_replay_confirmed in H. destruct (lock_file_lifecycle_on_conn _ _); [|injection H as _ <-; by left].
  by apply purge_on_conn_Ok in H as [_ Hst].
Qed.

Lemma keeps_release fid : keeps db_client_sessions (release_replaced_file fid).
Proof.
  intros db u db'. unfold release_replaced_file, sql_delete_file, sql_update_object, sql_delete_object, tx_update, tx_get, mbind, tx_bind.
  destruct (db_files db !! fid); [|done]. destruct (db_data_objects db !! _); [|done].
  destruct db; cbn. destruct (_ <=? 1); cbn; [case_bool_decide; [done|]|]; by intros [= _ <-].
Qed.

(** A purge takes the open leases of its own file only. *)
Lemma remove_primary_leases fid now ns u ns' x t :
  remove_primary_file_or_promote_hardlink_on_conn fid now ns = Ok (u, ns') -> x <> fid ->
  live_open_lease x t ns = true -> live_open_lease x t ns' = true.
Proof.
  assert (Hsame : forall ns', ns_db ns' = ns_db ns -> ns_open_leases ns' = ns_open_leases ns ->
    live_open_lease x t ns = true -> live_open_lease x t ns' = true).
  { intros n' E1 E2. unfold live_open_lease, session_live. by rewrite E1, E2. }
  unfold remove_primary_file_or_promote_hardlink_on_conn. destruct (negb _); [done|].
  destruct (first_hardlink fid ns) as [[hid h]|].
  - intros H Hne. nx_inv H. injection H1 as <- <-. apply update_file_frame in H0 as (Hd & _ & Ho).
    apply Hsame; destruct ns0; done.
  - destruct (live_open_lease fid now ns).
    + unfold defer_open_file. destruct (ns_files ns !! fid) as [f|]; [|by intros [= _ <-]].
      destruct (fe_unlinked f); [by intros [= _ <-]|]. intros (Hd & _ & Ho)%update_file_frame Hne. by apply Hsame.
    + intros H Hne. nx_inv H. injection H1 as <- <-. unfold nx_store in H0.
      destruct (release_replaced_file fid (ns_db ns)) as [[u' db']| |] eqn:Hr; [|done..]. injection H0 as <- <-.
      apply keeps_release in Hr as Hse.
      unfold live_open_lease, session_live. destruct ns; cbn in *. rewrite Hse. rewrite !bool_decide_eq_true.
      intros (k & l & Hl & Hf & Hrest). exists k, l. split; [|done]. apply map_lookup_filter_Some. split; [done|]. cbn. congruence.
Qed.

Lemma purge_leases ns fid clk r ns' x t : purge_primary_file fid clk ns = (r, ns') -> x <> fid ->
  live_open_lease x t ns = true -> live_open_lease x t ns' = true.
Proof.
  intros E Hne Hx. apply transaction_cases in E as [(u & -> & H)|[-> Hr]]; [|done].
  unfold ns_replay_confirmed, purge_primary_file_on_conn in H.
  destruct (lock_file_lifecycle_on_conn _ _); [|by injection H as _ <-]. cbn in H.
  destruct (has_hardlinks _ _); [done|]. destruct (live_open_lease fid _ ns); [done|]. by eapply remove_primary_leases.
Qed.

Lemma store_effect_shrinks fid now ns ns' x : store_effect fid now ns ns' ->
  db_files (ns_db ns) !! x = None -> db_files (ns_db ns') !! x = None.
Proof.
  intros [->|(Hi & Hn & _)]; [done|]. intros Hx. destruct (decide (x = fid)) as [->|Hne]; [done|]. by rewrite (iso_rows _ _ _ Hi).
Qed.

(** What a run of purges may take. *)
Definition purgeable (clks : nat -> nat -> Z) (ids : list Z) (ns : NsDb) (fid : Z) : Prop :=
  fid ∈ ids /\ closed_at (fun now => exists j k, now = clks j k) ns fid.

Lemma purge_first_spares fid ids clks r ns ns1 : ns_wf ns -> purge_primary_file fid (clks (length ids)) ns = (r, ns1) ->
  spares (purgeable clks (fid :: ids) ns) ns ns1.
Proof.
  intros Hwf Ep x Hx. destruct (purge_store _ _ _ _ _ Hwf Ep) as [Hd|(Hi & Hn & Hl & _)]; [left; by rewrite Hd|].
  destruct (decide (x = fid)) as [->|Hne]; [right|left; by eapply isolated_kept].
  split; [split; [left|by exists (clks (length ids) 1%nat); eauto]|done].
Qed.

Lemma purge_files_spares clks ids : forall ns n r ns', ns_wf ns -> NoDup ids -> Forall (nameless ns) ids ->
  purge_files ids clks n ns = (r, ns') ->
  spares (purgeable clks ids ns) ns ns' /\ forall x, db_files (ns_db ns) !! x = None -> db_files (ns_db ns') !! x = None.
Proof.
  induction ids as [|fid ids IH]; intros ns n r ns' Hwf Hnd Hids E; cbn in E; [injection E as <- <-; by split; [apply spares_db|]|].
  apply NoDup_cons in Hnd as [Hnin Hnd]. apply Forall_cons in Hids as [Hn Hids].
  destruct (purge_primary_file _ _ ns) as [r1 ns1] eqn:Ep.
  pose proof (purge_first_spares _ _ _ _ _ _ Hwf Ep) as Hs1.
  pose proof (fun x => store_effect_shrinks _ _ _ _ x (purge_store _ _ _ _ _ Hwf Ep)) as Hshr.
  assert (Hs : same_names ns ns1).
  { apply purge_Ok in Ep as [->|[_ Hpu]]; [by apply same_names_refl|..|done]. unfold nameless in Hn. by rewrite Hn in Hpu. }
  destruct r1 as [[]| |]; [|by injection E as <- <-..].
  apply IH in E as [H2 Hshr2]; [|apply Hs|done|eapply Forall_impl; [exact Hids|]; intros x Hx; by eapply same_names_nameless].
  split; [|by intros x Hx; apply Hshr2, Hshr].
  intros x Hx. destruct (Hs1 x Hx) as [[K1 K2]|[Hd Hnone]]; [|right; by split; [|apply Hshr2]].
  assert (Hx1 : is_Some (ns_files ns1 !! x)) by (apply (nw_files _ (proj1 Hs)); rewrite K1; by apply (nw_files _ Hwf)).
  destruct (H2 x Hx1) as [[L1 L2]|[[Hin (now & Hr & Hl)] Hg]]; [left; split; [congruence|]; intros k; by rewrite L2, K2|].
  right. split; [|done]. split; [by right|]. exists now. split; [done|]. apply not_true_is_false. intros Hlive.
  by rewrite (purge_leases _ _ _ _ _ _ _ Ep) in Hl; [|intros ->|].
Qed.

Lemma orphaned_NoDup now limit ns : NoDup (take (Z.to_nat limit) (orphaned_unlinked_files now ns)).
Proof.
  eapply sublist_NoDup; [|apply sublist_take]. unfold orphaned_unlinked_files, sort_z. rewrite merge_sort_Permutation.
  apply NoDup_fmap_2_strong; [|apply NoDup_filter, NoDup_map_to_list].
  intros [i f] [j g] [_ Hf%elem_of_map_to_list]%list_elem_of_filter [_ Hg%elem_of_map_to_list]%list_elem_of_filter Hij.
  cbn in *. congruence.
Qed.

Lemma create_file_spares dead sp fid p nm mode uid gid seed umask a acl prior ns :
  ns_wf ns -> spares dead ns (create_file_with sp fid p nm mode uid gid seed umask a acl prior ns).2.
Proof.
  intros Hwf. unfold create_file_with. destruct (has_nul nm); [by apply spares_db|]. destruct (has_nul seed); [by apply spares_db|].
  destruct (run_create _ _ ns) as [r ns'] eqn:E. apply run_create_cases in E as [(id & -> & H)|[-> _]]; [|by apply spares_db].
  eapply create_file_Ok in H as (_ & _ & Hi & Hn); [|done|]; cbn.
  - intros x Hx. left. eapply isolated_kept; [done|]. intros ->. rewrite Hn in Hx. by destruct Hx.
  - intros r Hr. by eapply created_attributes_free.
Qed.

Lemma rename_spares reads src op on np nn t uid nr a locked clk ns : (forall k, reads (clk k)) -> ns_wf ns ->
  spares (closed_at reads ns) ns
    (rename_namespace_replace_with_ownership_guard_internal src op on np nn t uid nr a locked clk ns).2.
Proof.
  intros Hreads Hwf. unfold rename_namespace_replace_with_ownership_guard_internal.
  destruct (_ || _); [by apply spares_db|]. do 2 (destruct (has_nul _); [by apply spares_db|]).
  destruct (ns_transaction _ ns) as [r ns'] eqn:E. cbn.
  apply transaction_cases in E as [(out & -> & H)|[-> _]]; [|by apply spares_db]. unfold ns_replay_confirmed in H.
  change (parse_resolved_rename_entry (resolve_entry_rows (parent_key np, nn) ns)) with (resolve (key_of np nn) ns) in H.
  assert (Hbody : (forall x, resolve (key_of np nn) ns = Ok x -> resolves_to src x = false) ->
    rename_body src op on np nn (if nr then None else t) uid nr a locked clk ns = Ok (out, ns') ->
    spares (closed_at reads ns) ns ns').
  { intros Hp Hb. apply rename_body_Ok in Hb as (ns1 & Hl & Hout); [|done|done].
    eapply (spares_leases (closed_at reads)); [exact Hl| |].
    - destruct out; try (subst ns'; by apply spares_db). destruct Hout as (_ & _ & _ & Hst).
      destruct (if nr then None else t) as [[]|]; destruct Hst as [_ Hst]; try by apply spares_db. by eapply store_effect_spares.
    - intros fid (now & Hr & Hlv). exists now. split; [done|]. destruct Hl as [_ _ _ _ _ _ E6 E7 _].
      unfold live_open_lease, session_live in *. by rewrite E6, E7 in Hlv. }
  destruct (resolve (key_of np nn) ns) as [x| |] eqn:Hr; [|by apply Hbody..].
  destruct (resolves_to src x) eqn:Hx; [|apply Hbody; [by intros ? [= <-]|done]].
  injection H as _ <-. by apply spares_db.
Qed.

Lemma unlink_spares reads fid hidden p nm uid a clk ns : (forall k, reads (clk k)) -> ns_wf ns ->
  spares (closed_at reads ns) ns (unlink_file_entry_internal fid hidden p nm uid a clk ns).2.
Proof.
  intros Hreads Hwf. unfold unlink_file_entry_internal.
  destruct (_ || _); [by apply spares_db|]. do 2 (destruct (has_nul _); [by apply spares_db|]).
  destruct (ns_transaction _ ns) as [r ns'] eqn:E. cbn.
  apply transaction_cases in E as [(out & -> & H)|[-> _]]; [|by apply spares_db].
  apply unlink_file_Ok in H; [|done]. destruct out; try (destruct H as (_ & _ & Hst); by eapply store_effect_spares).
  rewrite H. by apply spares_db.
Qed.

Lemma run_op_spares op ns : ns_wf ns -> spares (closed_at (reads_clock op) ns) ns (run_op op ns).2.
Proof.
  intros Hwf. destruct (leaves_files op) eqn:Hop; [by apply spares_db, leaves_files_db|].
  destruct op; try done; cbn [run_op]; rewrite snd_prod_map.
  - by apply create_file_spares.
  - apply unlink_spares; [|done]. intros k. by exists k.
  - apply rename_spares; [|done]. intros k. by exists k.
  - destruct (purge_primary_file _ _ _) as [r ns'] eqn:E. apply purge_store in E; [|done].
    eapply store_effect_spares; [by eexists|exact E].
  - unfold purge_orphaned_unlinked_files. destruct (limit =? 0); [by apply spares_db|].
    destruct (purge_files _ _ _ _) as [r ns'] eqn:E.
    apply purge_files_spares in E as [Hs _]; [|done|apply orphaned_NoDup|apply orphaned_nameless].
    intros x Hx. destruct (Hs x Hx) as [?|[[_ Hc] Hn]]; [by left|by right].
Qed.

(** No name leads to a file that is gone. *)
Lemma gone_nameless ns fid k : ns_wf ns -> db_files (ns_db ns) !! fid = None -> names ns k <> Some (IFile fid).
Proof.
  intros Hwf Hn. rewrite names_binds by done. assert (Hf : ns_files ns !! fid = None).
  { apply eq_None_not_Some. rewrite (nw_files _ Hwf), Hn. by intros []. }
  intros [[[] j] He]; revert He.
  - intros He. pose proof (view_file_inode _ _ _ _ He) as [= ->]. by rewrite view_file, Hf in He.
  - rewrite view_hardlink. destruct (ns_hardlinks ns !! j) as [h|] eqn:Hj; [|done]. intros [= _ Hh].
    destruct (nw_links _ Hwf _ _ Hj) as (f & Hlf & _). congruence.
  - rewrite view_symlink. by destruct (ns_symlinks ns !! j).
  - rewrite view_alias. by destruct (ns_symlink_hardlinks ns !! j).
  - rewrite view_directory. by destruct (ns_directories ns !! j).
Qed.

(** ** Histories *)

(** The rows of a new file system. *)
Definition initial_directory (nm seed : string) : DirectoryRow :=
  {| d_parent := None; d_name := nm; d_mode := 493; d_uid := 0; d_gid := 0; d_inode_seed := seed;
     d_access_acl := None; d_default_acl := None |}.
Definition initial_ns : NsDb :=
  {| ns_db := empty_db; ns_files := ∅;
     ns_directories := {[1 := initial_directory "/" "root"; 2 := initial_directory ".Trash-1000" "pseudo:.Trash-1000"]};
     ns_hardlinks := ∅; ns_symlinks := ∅; ns_symlink_hardlinks := ∅; ns_special_files := ∅;
     ns_open_leases := ∅; ns_destinations := ∅ |}.

(** What happens to the tables: a namespace transaction, a transaction on the
    contents of files, or the leases and sessions coming and going. *)
Inductive ns_step : NsDb -> NsDb -> Prop :=
  | ns_step_op op ns : ns_step ns (run_op op ns).2
  | ns_step_store t ns db' :
      store_step t (ns_db ns) db' -> (forall j, is_Some (db_files db' !! j) <-> is_Some (db_files (ns_db ns) !! j)) ->
      ns_step ns (set_ns_db db' ns)
  | ns_step_leases ns open_leases destinations :
      ns_step ns (set_open_leases open_leases (set_destinations destinations ns)).

Lemma initial_directories id row : ns_directories initial_ns !! id = Some row ->
  (id = 1 /\ row = initial_directory "/" "root") \/ (id = 2 /\ row = initial_directory ".Trash-1000" "pseudo:.Trash-1000").
Proof. cbn. rewrite lookup_insert_Some, lookup_singleton_Some. naive_solver. Qed.

Lemma initial_ns_wf : ns_wf initial_ns.
Proof.
  split.
  - intros [[] j1] [[] j2] k i1 i2; rewrite ?view_file, ?view_hardlink, ?view_symlink, ?view_alias; try done.
    rewrite !view_directory. destruct (ns_directories initial_ns !! j1) as [d1|] eqn:E1; [|done].
    destruct (ns_directories initial_ns !! j2) as [d2|] eqn:E2; [|done].
    apply initial_directories in E1 as [[-> ->]|[-> ->]], E2 as [[-> ->]|[-> ->]]; cbn; congruence.
  - intros id [[d Hd]|[[? H]|[[? H]|[[? H]|[? H]]]]]; try (by cbn in H; rewrite lookup_empty in H).
    apply initial_directories in Hd. lia.
  - intros d [(id & row & Hr & Hp)|[(?&?&H&_)|[(?&?&H&_)|[(?&?&H&_)|(?&?&H&_)]]]]; try (by cbn in H; rewrite lookup_empty in H).
    by apply initial_directories in Hr as [[-> ->]|[-> ->]].
  - intros id. cbn. by rewrite !lookup_empty.
  - intros id h H. cbn in H. by rewrite lookup_empty in H.
  - intros id h H. cbn in H. by rewrite lookup_empty in H.
  - intros d [row Hr]. eapply rooted_top; [done|]. by apply initial_directories in Hr as [[-> ->]|[-> ->]].
  - apply wf_db_check. vm_compute. reflexivity.
  - intros id [x H]. cbn in H. by rewrite lookup_empty in H.
Qed.

Lemma ns_step_wf ns ns' : ns_step ns ns' -> ns_wf ns -> ns_wf ns'.
Proof.
  intros [op n|t n db' Hs Hj|n ol de] Hwf.
  - destruct (run_op op n) as [reply n'] eqn:E. by apply run_op_ok in E as [Hw _].
  - destruct (ns_wf_frame n Hwf (set_ns_db db' n)) as [Hw _]; [by destruct n..|destruct n; apply Hwf| | |done]; destruct n; cbn in *; [|done].
    by apply (store_step_isolated _ _ _ (nw_db _ Hwf) Hs).
  - destruct (ns_wf_frame n Hwf (set_open_leases ol (set_destinations de n))) as [Hw _]; [by destruct n..|destruct n; apply Hwf| | |done];
      destruct n; [apply Hwf|done].
Qed.

Lemma ns_reachable_wf ns ns' : rtc ns_step ns ns' -> ns_wf ns -> ns_wf ns'.
Proof. induction 1; [done|]. intros Hwf. by apply IHrtc, (ns_step_wf x). Qed.

(** C3: The namespace transactions refine the plain map from names (parent, name)
    to inodes. From every well-formed state each of them leaves a well-formed one,
    and its reply tells what happened to the map: a successful create, mkdir,
    symlink, mknod or link binds exactly its name, and that was free or already
    led to the same inode (the replay of an acknowledged attempt); unlink and
    rmdir unbind exactly their name, which led to the expected inode, and an
    rmdir'd directory had no names in it; rename moves exactly the source's
    binding over the target's; a promotion of a hard link or alias to primary
    row, a deferred unlink, a purge, a pruned lease show nowhere else; and every
    error or refusing outcome leaves all names as they were. *)
Theorem namespace_refines_posix ns op reply ns' :
  ns_wf ns -> run_op op ns = (reply, ns') -> ns_wf ns' /\ posix_effect op reply (names ns) (names ns').
Proof. intros Hwf. by apply run_op_ok. Qed.


(** C12: In every state a file system reaches from the rows of its schema, by
    any sequence of namespace transactions, content transactions and changes
    of leases and sessions: the tables are well formed, every name resolves
    without ambiguity, every directory is reached from the root, and no
    directory lies below itself. *)
Theorem reachable_namespace_is_tree ns :
  rtc ns_step initial_ns ns ->
  ns_wf ns /\ (forall k, exists r, resolve k ns = Ok r) /\
  forall d row p, ns_directories ns !! d = Some row -> d_parent row = Some p ->
    rooted (ns_directories ns) d /\ ~ below (ns_directories ns) d p.
Proof.
  intros H. pose proof (ns_reachable_wf _ _ H initial_ns_wf) as Hwf. split; [done|]. split.
  - intros k. destruct (resolve_cases k ns Hwf) as [[? _]|(? & ? & ? & ? & _)]; eauto.
  - intros d row p Hd Hp. assert (Hr : rooted (ns_directories ns) d) by (apply (nw_tree _ Hwf); eauto).
    split; [done|]. by eapply rooted_acyclic.
Qed.

(** ** A history *)

Definition root_actor : Actor := {| ac_uid := 0; ac_gid := 0; ac_groups := [] |}.
Definition run_ops (ops : list NsOp) (ns : NsDb) : NsDb := foldl (fun ns op => (run_op op ns).2) ns ops.

Lemma run_ops_reachable ops : forall ns ns', rtc ns_step ns ns' -> rtc ns_step ns (run_ops ops ns').
Proof. induction ops as [|op ops IH]; intros ns ns' H; [done|]. apply IH. eapply rtc_r; [exact H|constructor]. Qed.

(** mkdir /a; create /a/f; link /a/f /a/g; mkdir /b. *)
Definition sample_ops : list NsOp :=
  [OpCreateDirectory 3 None "a" 493 0 0 "sa" 18 (Some root_actor) false (0, 0);
   OpCreateFile None 10 (Some 3) "f" 420 0 0 "sf" 18 (Some root_actor) false (0, 0);
   OpLinkFile 20 10 (Some 3) "g" 0 0 (Some root_actor) None false;
   OpCreateDirectory 4 None "b" 493 0 0 "sb" 18 (Some root_actor) false (0, 0)].
Definition sample_ns : NsDb := run_ops sample_ops initial_ns.

Lemma sample_ns_reachable : rtc ns_step initial_ns sample_ns.
Proof. by apply run_ops_reachable. Qed.

(** Renaming the primary name moves the file into the other directory; unlinking it
    promotes the hard link. *)
Definition sample_rename : NsOp := OpRename (RenameFile 10) (Some 3) "f" (Some 4) "h" None 0 false None true (fun _ => 0).
Definition sample_unlink : NsOp := OpUnlinkFile 10 ".hidden" (Some 4) "h" 0 None (fun _ => 0).

Lemma namespace_refines_posix_witness :
  (let ns' := (run_op sample_rename sample_ns).2 in
   (run_op sample_rename sample_ns).1 = RRename (Ok Applied) /\
   ns_wf ns' /\ posix_effect sample_rename (RRename (Ok Applied)) (names sample_ns) (names ns') /\
   names ns' (4, "h"%string) = Some (IFile 10) /\ names ns' (3, "f"%string) = None) /\
  (let ns1 := (run_op sample_rename sample_ns).2 in
   let ns' := (run_op sample_unlink ns1).2 in
   (run_op sample_unlink ns1).1 = RUnlink (Ok PromotedHardlink) /\
   posix_effect sample_unlink (RUnlink (Ok PromotedHardlink)) (names ns1) (names ns') /\
   names ns' (3, "g"%string) = Some (IFile 10) /\ names ns' (4, "h"%string) = None).
Proof.
  assert (Hwf : ns_wf sample_ns) by exact (ns_reachable_wf _ _ sample_ns_reachable initial_ns_wf).
  destruct (namespace_refines_posix sample_ns sample_rename (run_op sample_rename sample_ns).1 (run_op sample_rename sample_ns).2)
    as [Hw He]; [exact Hwf|apply surjective_pairing|].
  set (ns1 := (run_op sample_rename sample_ns).2) in *.
  destruct (namespace_refines_posix ns1 sample_unlink (run_op sample_unlink ns1).1 (run_op sample_unlink ns1).2)
    as [Hw2 He2]; [exact Hw|apply surjective_pairing|].
  split; (split; [vm_compute; reflexivity|]).
  - split; [exact Hw|]. split; [exact He|]. split; vm_compute; reflexivity.
  - split; [exact He2|]. split; vm_compute; reflexivity.
Defined.

(** The same file, unlinked under both names: deferred while session 7 has it open,
    purged once the session is gone. *)
Definition last_name_ns (sessions : gmap Z Z) : NsDb :=
  let ns := run_ops [sample_rename; sample_unlink] sample_ns in
  set_open_leases {[(7, 1) := (10, 100)]} (set_destinations ∅ (set_ns_db (set_client_sessions sessions (ns_db ns)) ns)).
Definition last_unlink : NsOp := OpUnlinkFile 10 ".hidden" (Some 3) "g" 0 None (fun _ => 50).

Lemma last_name_wf sessions : ns_wf (last_name_ns sessions).
Proof.
  assert (H1 : ns_wf (run_ops [sample_rename; sample_unlink] sample_ns)).
  { eapply ns_reachable_wf; [|exact initial_ns_wf]. apply run_ops_reachable, sample_ns_reachable. }
  unfold last_name_ns. set (n := run_ops _ sample_ns) in *. clearbody n. cbv zeta.
  eapply ns_step_wf; [apply ns_step_leases|]. apply (ns_step_wf n); [|done].
  apply (ns_step_store 0); [apply step_env; by destruct (ns_db n)|]. intros j. by destruct (ns_db n).
Qed.


Lemma reachable_namespace_is_tree_witness :
  ns_wf sample_ns /\ (forall k, exists r, resolve k sample_ns = Ok r) /\
  resolve (3, "g"%string) sample_ns = Ok (Some (KHardlink, 20, Some 10)).
Proof.
  destruct (reachable_namespace_is_tree sample_ns sample_ns_reachable) as (Hwf & Hr & _).
  split; [exact Hwf|]. split; [exact Hr|]. vm_compute. reflexivity.
Defined.
