(* ===== verification/NamespaceLookup.v ===== *)
(** * Path lookups and directory listings

    The lookups of src/rust_hotpath/src/pg/namespace_lookup.rs read the five name
    tables with queries of their own. Here they are shown to agree with the map
    from names to inodes that the mutations maintain: walking a path, resolving
    its last component, finding a file, listing a directory. *)

From stdpp Require Import prelude list numbers gmap strings sorting relations.
From Stdlib Require Import ZArith Lia Ascii.
From S2P Require Import Prelude Text Errno Acl BlockStore StoreSafety WriteOwnership Namespace.
From S2P Require Import NamespaceOps NamespaceTree NamespaceSafety NamespaceRefine NamespaceHistory.

#[local] Open Scope Z_scope.
Set Default Proof Using "Type".

(** ** Lookups in the map *)

(** The directory a walk over [parts] from [parent_id] ends in. *)
Fixpoint descend (L : Names) (parent_id : option Z) (parts : list string) : option (option Z) :=
  match parts with
  | [] => Some parent_id
  | part :: parts =>
      match L (parent_key parent_id, part) with
      | Some (IDir d) => descend L (Some d) parts
      | _ => None
      end
  end.

(** A component of a path. *)
Definition component (s : string) : Prop := txt s <> [] /\ SLASH ∉ txt s /\ Ascii.zero ∉ txt s.
(** The absolute path of the components. *)
Definition render (parts : list string) : text := mjoin ((fun p => SLASH :: txt p) <$> parts).

(** A parent is the root or has a positive number. *)
Definition valid_parent (parent_id : option Z) : Prop := forall d, parent_id = Some d -> 0 < d.

Lemma parent_key_inj p q : valid_parent p -> valid_parent q -> parent_key p = parent_key q -> p = q.
Proof.
  intros Hp Hq. destruct p as [p|], q as [q|]; cbn; unfold id; [by intros ->|..]; intros H.
  - specialize (Hp p eq_refl). lia.
  - specialize (Hq q eq_refl). lia.
  - done.
Qed.

(** The two ways to ask for a name agree. *)
Lemma rows_in_at {R} (place_of : R -> option (option Z * string)) p nm (table : gmap Z R) :
  valid_parent p -> (forall id row pl, table !! id = Some row -> place_of row = Some pl -> valid_parent pl.1) ->
  rows_in place_of p nm table = rows_at place_of (parent_key p, nm) table.
Proof.
  intros Hp Ht. apply filter_ext_in. intros [id row] Hin%elem_of_map_to_list. cbn.
  destruct (place_of row) as [[q nm']|] eqn:Hpl; cbn; [|naive_solver].
  pose proof (Ht _ _ _ Hin Hpl) as Hq. cbn in Hq. split; [by intros [= -> ->]|].
  intros [= Hk ->]. by rewrite (parent_key_inj p q).
Qed.

Section lookups.
Context (ns : NsDb) (Hwf : ns_wf ns).

Lemma parent_valid d : parent_named ns d -> 0 < d.
Proof using Hwf. intros Hp. apply (nw_pos _ Hwf). left. by apply (nw_parents _ Hwf). Qed.

Lemma rows_in_files p nm : valid_parent p -> rows_in file_place p nm (ns_files ns) = rows_at file_place (parent_key p, nm) (ns_files ns).
Proof using Hwf.
  intros Hp. apply rows_in_at; [done|]. intros id f pl Hf Hpl d Hd. apply parent_valid. right; left.
  exists id, f. split; [done|]. unfold file_place in Hpl. destruct (fe_unlinked f); [done|]. by injection Hpl as <-.
Qed.
Lemma rows_in_directories p nm : valid_parent p ->
  rows_in directory_place p nm (ns_directories ns) = rows_at directory_place (parent_key p, nm) (ns_directories ns).
Proof using Hwf.
  intros Hp. apply rows_in_at; [done|]. intros id f pl Hf [= <-] d Hd. apply parent_valid. left. by exists id, f.
Qed.
Lemma rows_in_hardlinks p nm : valid_parent p ->
  rows_in hardlink_place p nm (ns_hardlinks ns) = rows_at hardlink_place (parent_key p, nm) (ns_hardlinks ns).
Proof using Hwf.
  intros Hp. apply rows_in_at; [done|]. intros id f pl Hf [= <-] d Hd. apply parent_valid. do 2 right; left. by exists id, f.
Qed.
Lemma rows_in_symlinks p nm : valid_parent p ->
  rows_in symlink_place p nm (ns_symlinks ns) = rows_at symlink_place (parent_key p, nm) (ns_symlinks ns).
Proof using Hwf.
  intros Hp. apply rows_in_at; [done|]. intros id f pl Hf [= <-] d Hd. apply parent_valid. do 3 right; left. by exists id, f.
Qed.
Lemma rows_in_aliases p nm : valid_parent p ->
  rows_in symlink_hardlink_place p nm (ns_symlink_hardlinks ns) = rows_at symlink_hardlink_place (parent_key p, nm) (ns_symlink_hardlinks ns).
Proof using Hwf.
  intros Hp. apply rows_in_at; [done|]. intros id f pl Hf [= <-] d Hd. apply parent_valid. do 4 right. by exists id, f.
Qed.
End lookups.
#[export] Hint Rewrite rows_in_files rows_in_directories rows_in_hardlinks rows_in_symlinks rows_in_aliases
  using done : rows_in.

(** A directory has one entry, its own row. *)
Lemma view_dir_inode ns e k d : view ns e = Some (k, IDir d) -> e = (KDir, d).
Proof.
  destruct e as [[] id].
  - intros He%view_file_inode. done.
  - rewrite view_hardlink. by destruct (ns_hardlinks ns !! id).
  - rewrite view_symlink. by destruct (ns_symlinks ns !! id).
  - rewrite view_alias. by destruct (ns_symlink_hardlinks ns !! id).
  - rewrite view_directory. destruct (ns_directories ns !! id); [|done]. by intros [= _ <-].
Qed.

Section resolution.
Context (ns : NsDb) (Hwf : ns_wf ns).

(** The rows a path lookup sees for a name are those the mutations resolve. *)
Lemma resolve_path_rows_names p nm : valid_parent p ->
  match names ns (parent_key p, nm) with
  | None => resolve_path_rows p nm ns = []
  | Some i => exists k id, resolve_path_rows p nm ns = [(k, id)] /\ view ns (k, id) = Some ((parent_key p, nm), i)
  end.
Proof using Hwf.
  intros Hp. set (key := (parent_key p, nm)).
  assert (Hperm : exists l, resolve_path_rows p nm ns = take 2 l /\ l ≡ₚ fst <$> all_entry_rows key ns).
  { eexists. split; [reflexivity|]. unfold all_entry_rows.
    rewrite rows_in_files, rows_in_directories, rows_in_hardlinks, rows_in_symlinks, rows_in_aliases by done.
    fold key. rewrite !fmap_app, <- !list_fmap_compose. unfold compose. cbn. solve_Permutation. }
  destruct Hperm as (l & -> & Hl). destruct (all_rows_singleton key ns (nw_inj _ Hwf)) as [E|([[k id] fid] & E)].
  - rewrite E in Hl. apply Permutation_nil_r in Hl as ->. destruct (names ns key) as [i|] eqn:Hn; [exfalso|done].
    apply names_binds in Hn as [[k id] Hv]; [|done].
    assert (Hin : (k, id, inode_file i) ∈ all_entry_rows key ns) by (apply elem_of_all_rows; by exists i).
    rewrite E in Hin. by apply not_elem_of_nil in Hin.
  - assert (Hin : (k, id, fid) ∈ all_entry_rows key ns) by (rewrite E; by apply list_elem_of_singleton).
    apply elem_of_all_rows in Hin as (i & Hv & _). rewrite E in Hl. apply Permutation_singleton_r in Hl as ->.
    assert (Hn : names ns key = Some i) by (apply names_binds; [done|by exists (k, id)]). rewrite Hn. by exists k, id.
Qed.

(** Of the directories alone. *)
Lemma directory_rows_names p nm : valid_parent p ->
  (fun r => r.1) <$> rows_in directory_place p nm (ns_directories ns) =
  match names ns (parent_key p, nm) with Some (IDir d) => [d] | _ => [] end.
Proof using Hwf.
  intros Hp. rewrite rows_in_directories by done. set (key := (parent_key p, nm)).
  assert (Hsub : (fun r => (KDir, r.1, None)) <$> rows_at directory_place key (ns_directories ns) `sublist_of` all_entry_rows key ns)
    by (unfold all_entry_rows; apply sublist_inserts_r; done).
  assert (Hv : forall d, d ∈ ((fun r => r.1) <$> rows_at directory_place key (ns_directories ns)) <-> names ns key = Some (IDir d)).
  { intros d. rewrite list_elem_of_fmap, names_binds by done. split.
    - intros ([id row] & -> & [Hl Hk]%elem_of_rows_at). exists (KDir, id). rewrite view_directory, Hl.
      unfold key. cbn. by injection Hk as -> ->.
    - intros [e He]. pose proof (view_dir_inode _ _ _ _ He) as ->. rewrite view_directory in He.
      destruct (ns_directories ns !! d) as [row|] eqn:Hl; [|done]. exists (d, row). split; [done|].
      apply elem_of_rows_at. split; [done|]. injection He as Hk1 Hk2.
      change (Some (parent_key (d_parent row), d_name row) = Some key). by rewrite Hk1, Hk2. }
  assert (Hlen : (length (rows_at directory_place key (ns_directories ns)) <= 1)%nat).
  { apply sublist_length in Hsub. rewrite length_fmap in Hsub.
    destruct (all_rows_singleton key ns (nw_inj _ Hwf)) as [E|[x E]]; rewrite E in Hsub; cbn in Hsub; lia. }
  destruct (rows_at directory_place key (ns_directories ns)) as [|[d row] [|]]; cbn in Hlen; [| |lia].
  - destruct (names ns key) as [[| |d]|]; try done. exfalso. by apply (not_elem_of_nil d), Hv.
  - cbn. assert (Hd : names ns key = Some (IDir d)) by (apply Hv; left). by rewrite Hd.
Qed.

Lemma names_dir_valid k d : names ns k = Some (IDir d) -> valid_parent (Some d).
Proof using Hwf.
  intros [e He]%names_binds ? [= <-]; [|done]. pose proof (view_dir_inode _ _ _ _ He) as ->.
  apply (row_positive ns KDir d Hwf). by rewrite He.
Qed.

(** The recursive query walks the map. *)
Lemma walk_directories_descend parts : forall p, valid_parent p -> parts <> [] ->
  walk_directories p parts ns = match descend (names ns) p parts with Some (Some d) => [d] | _ => [] end.
Proof using Hwf.
  induction parts as [|part parts IH]; intros p Hp Hne; [done|]. pose proof (directory_rows_names p part Hp) as Hr.
  destruct parts as [|part' parts].
  - cbn [walk_directories descend]. rewrite Hr. by destruct (names ns _) as [[]|].
  - transitivity (mjoin ((fun d => walk_directories (Some d) (part' :: parts) ns)
      <$> ((fun r => r.1) <$> rows_in directory_place p part (ns_directories ns)))).
    { rewrite <- list_fmap_compose. reflexivity. }
    rewrite Hr. cbn [descend]. destruct (names ns (parent_key p, part)) as [[| |d]|] eqn:Hn; try done.
    cbn [fmap list_fmap mjoin list_join]. rewrite app_nil_r. apply IH; [|done]. by eapply names_dir_valid.
Qed.
End resolution.

(** ** Paths as text *)

Lemma string_of_txt s : String.string_of_list_ascii (txt s) = s.
Proof. apply String.string_of_list_ascii_of_string. Qed.

Lemma render_app ps qs : render (ps ++ qs) = render ps ++ render qs.
Proof. unfold render. by rewrite fmap_app, join_app. Qed.

Lemma render_join parts : parts <> [] -> render parts = SLASH :: join SLASH (txt <$> parts).
Proof.
  induction parts as [|p parts IH]; [done|]. intros _. destruct parts as [|q parts].
  - cbn. by rewrite app_nil_r.
  - change (render (p :: q :: parts)) with ((SLASH :: txt p) ++ render (q :: parts)). by rewrite IH.
Qed.

(** The text of a path begins and ends with characters of its components. *)
Lemma join_ends parts : parts <> [] -> Forall component parts ->
  exists a s b t, join SLASH (txt <$> parts) = a :: s /\ join SLASH (txt <$> parts) = t ++ [b] /\ a <> SLASH /\ b <> SLASH.
Proof.
  intros Hne Hall. induction parts as [|p parts IH]; [done|]. apply Forall_cons in Hall as [(Hp & Hs & _) Hall].
  destruct (txt p) as [|a s] eqn:E; [done|]. assert (Ha : a <> SLASH) by set_solver.
  destruct parts as [|q parts].
  - cbn. rewrite E. destruct (exists_last (l := a :: s)) as (t & b & Hb); [done|]. exists a, s, b, t.
    split; [done|]. split; [done|]. split; [done|]. assert (b ∈ a :: s) by (rewrite Hb; set_solver). set_solver.
  - destruct IH as (a' & s' & b & t & _ & Hb & _ & Hbs); [done..|]. exists a. eexists _, b, (a :: s ++ SLASH :: t).
    change (join SLASH (txt <$> p :: q :: parts)) with (txt p ++ SLASH :: join SLASH (txt <$> q :: parts)).
    rewrite E, Hb. split; [reflexivity|]. split; [|done]. cbn. by rewrite <- app_assoc.
Qed.

Lemma trim_render parts : Forall component parts -> trim_slashes (render parts) = join SLASH (txt <$> parts).
Proof.
  destruct (decide (parts = [])) as [->|Hne]; [done|]. intros Hall. rewrite render_join by done.
  destruct (join_ends parts Hne Hall) as (a & s & b & t & Ea & Eb & Ha & Hb). unfold trim_slashes. cbn [drop_while].
  rewrite Ascii.eqb_refl. rewrite Ea at 1. cbn [drop_while]. destruct (Ascii.eqb_spec SLASH a); [done|].
  rewrite <- Ea, Eb at 1. rewrite reverse_app, reverse_singleton. cbn [app drop_while].
  destruct (Ascii.eqb_spec SLASH b); [done|]. by rewrite reverse_cons, reverse_involutive, Eb.
Qed.

Lemma path_parts_render parts : Forall component parts -> path_parts (render parts) = parts.
Proof.
  intros Hall. unfold path_parts. rewrite trim_render by done. destruct (decide (parts = [])) as [->|Hne]; [done|].
  destruct (join_ends parts Hne Hall) as (a & s & b & t & Ea & _). rewrite Ea, <- Ea.
  rewrite split_join.
  - clear. induction parts as [|p parts IH]; [done|]. cbn. by rewrite string_of_txt, IH.
  - by destruct parts.
  - apply Forall_fmap. eapply Forall_impl; [exact Hall|]. by intros x (_ & ? & _).
Qed.

(** Splitting off the last component. *)
Lemma split_parent_render parts nm : component nm ->
  split_parent (render (parts ++ [nm])) = (match parts with [] => [SLASH] | _ => render parts end, txt nm).
Proof.
  intros (Hne & Hs & _). rewrite render_app. unfold render at 2. cbn. rewrite app_nil_r.
  unfold split_parent, rsplit_slash. rewrite reverse_app, reverse_cons, <- app_assoc. cbn [app].
  rewrite split_once_app by by rewrite elem_of_reverse. rewrite !reverse_involutive.
  destruct (txt nm) as [|a s] eqn:E; [done|]. by destruct parts.
Qed.

Lemma no_nul_render parts : Forall component parts -> Ascii.zero ∉ render parts.
Proof.
  induction 1 as [|p parts (_ & _ & Hz) _ IH]; [apply not_elem_of_nil|].
  change (render (p :: parts)) with ((SLASH :: txt p) ++ render parts). rewrite elem_of_app, elem_of_cons.
  intros [[H|H]|H]; [by vm_compute in H|done|done].
Qed.

(** ** Lookups by path *)

Section paths.
Context (ns : NsDb) (Hwf : ns_wf ns).

Lemma descend_valid parts : forall p q, valid_parent p -> descend (names ns) p parts = Some q -> valid_parent q.
Proof using Hwf.
  induction parts as [|part parts IH]; intros p q Hp H; cbn in H; [by injection H as <-|].
  destruct (names ns _) as [[| |d]|] eqn:Hn; try done. eapply IH; [|exact H]. by eapply names_dir_valid.
Qed.

Lemma descend_nonempty parts p : parts <> [] -> descend (names ns) p parts <> Some None.
Proof using Type.
  revert p. induction parts as [|part parts IH]; [done|]. intros p _. cbn. destruct (names ns _) as [[| |d]|]; try done.
  destruct parts; [done|]. by apply IH.
Qed.

Lemma lookup_directory_render parts : Forall component parts ->
  lookup_directory (match parts with [] => [SLASH] | _ => render parts end) ns =
  Ok (match descend (names ns) None parts with
      | Some None => LookupRoot
      | Some (Some d) => LookupDirectory d
      | None => LookupMissing
      end).
Proof using Hwf.
  intros Hall. destruct (decide (parts = [])) as [->|Hne]; [done|].
  replace (match parts with [] => [SLASH] | _ => render parts end) with (render parts) by by destruct parts.
  unfold lookup_directory, get_dir_id. rewrite trim_render by done.
  destruct (join_ends parts Hne Hall) as (a & s & _ & _ & Ea & _). rewrite bool_decide_eq_false_2 by by rewrite Ea.
  rewrite bool_decide_eq_false_2 by by apply no_nul_render. rewrite path_parts_render by done.
  rewrite walk_directories_descend by done. pose proof (descend_nonempty parts None Hne) as Hnn.
  destruct (descend (names ns) None parts) as [[d|]|] eqn:Hd; [|done|done].
  assert (Hpos : 0 < d) by (eapply (descend_valid parts None (Some d)); [done|exact Hd|done]).
  cbn. by replace (d <=? 0) with false by lia.
Qed.
End paths.

Lemma omap_tagged {A B C} (f : B -> option C) (g : A -> B) (h : A -> C) (l : list A) :
  (forall x, f (g x) = Some (h x)) -> omap f (g <$> l) = h <$> l.
Proof. intros H. induction l as [|x l IH]; [done|]. cbn. rewrite H. by f_equal. Qed.
Lemma omap_untagged {A B C} (f : B -> option C) (g : A -> B) (l : list A) :
  (forall x, f (g x) = None) -> omap f (g <$> l) = [].
Proof. intros H. induction l as [|x l IH]; [done|]. cbn. by rewrite H. Qed.

(** The rows [get_file_id] reads. *)
Lemma file_rows_names ns p nm : ns_wf ns -> valid_parent p ->
  ((fun r => h_file r.2) <$> rows_in hardlink_place p nm (ns_hardlinks ns))
    ++ ((fun r => r.1) <$> rows_in file_place p nm (ns_files ns)) =
  match names ns (parent_key p, nm) with Some (IFile f) => [f] | _ => [] end.
Proof.
  intros Hwf Hp. rewrite rows_in_files, rows_in_hardlinks by done. set (key := (parent_key p, nm)). set (l := _ ++ _).
  assert (Hl : l ≡ₚ omap snd (all_entry_rows key ns)).
  { unfold l, all_entry_rows. rewrite !omap_app, (omap_untagged _ (fun r => (KDir, r.1, None))), (omap_untagged _ (fun r => (KSymlink, r.1, None))),
      (omap_untagged _ (fun r => (KSymlinkHardlink, r.1, None))) by done.
    rewrite (omap_tagged _ _ (fun r => r.1)), (omap_tagged _ _ (fun r => h_file r.2)) by done. solve_Permutation. }
  destruct (all_rows_singleton key ns (nw_inj _ Hwf)) as [E|([[k id] fid] & E)].
  - rewrite E in Hl. apply Permutation_nil_r in Hl as ->. destruct (names ns key) as [i|] eqn:Hn; [exfalso|done].
    apply names_binds in Hn as [[k id] Hv]; [|done].
    assert (Hin : (k, id, inode_file i) ∈ all_entry_rows key ns) by (apply elem_of_all_rows; by exists i).
    rewrite E in Hin. by apply not_elem_of_nil in Hin.
  - assert (Hin : (k, id, fid) ∈ all_entry_rows key ns) by (rewrite E; by apply list_elem_of_singleton).
    apply elem_of_all_rows in Hin as (i & Hv & ->). rewrite E in Hl. cbn in Hl.
    assert (Hn : names ns key = Some i) by (apply names_binds; [done|by exists (k, id)]). rewrite Hn.
    destruct i; cbn in *; [by apply Permutation_singleton_r in Hl|by apply Permutation_nil_r in Hl..].
Qed.

Lemma names_file_positive ns k f : ns_wf ns -> names ns k = Some (IFile f) -> 0 < f.
Proof.
  intros Hwf [[kd id] He]%names_binds; [|done]. apply (nw_pos _ Hwf). right; left. revert He. destruct kd.
  - rewrite view_file. destruct (ns_files ns !! id) as [x|] eqn:Hx; [|done]. destruct (fe_unlinked x); [done|].
    intros [= _ <-]. by eexists.
  - rewrite view_hardlink. destruct (ns_hardlinks ns !! id) as [h|] eqn:Hh; [|done]. intros [= _ <-].
    destruct (nw_links _ Hwf _ _ Hh) as (x & Hx & _). by eexists.
  - rewrite view_symlink. by destruct (ns_symlinks ns !! id).
  - rewrite view_alias. by destruct (ns_symlink_hardlinks ns !! id).
  - rewrite view_directory. by destruct (ns_directories ns !! id).
Qed.

Definition missing_path : ResolvedPath := {| rp_parent_id := None; rp_kind := None; rp_entry_id := None |}.

(** C23: Path lookups agree with the map the mutations maintain. For the absolute
    path of any components, resolve_path walks the map from the root: it answers
    "nothing" if a directory on the way is missing or is no directory, and
    otherwise names the parent and the entry, of the right kind, that holds the
    last component in the map, or its absence; get_file_id gives the file
    behind it, through the primary row or a hard link, and nothing for other
    inodes. Neither ever fails on a well-formed path. *)
Theorem path_lookups_agree ns parts nm :
  ns_wf ns -> Forall component parts -> component nm ->
  exists rp, resolve_path (render (parts ++ [nm])) ns = Ok rp /\
  match descend (names ns) None parts with
  | None => rp = missing_path /\ get_file_id (render (parts ++ [nm])) ns = Ok None
  | Some p =>
      rp_parent_id rp = p /\
      match names ns (parent_key p, nm) with
      | None => rp_kind rp = None /\ rp_entry_id rp = None
      | Some i => exists k id, rp_kind rp = Some k /\ rp_entry_id rp = Some id /\ view ns (k, id) = Some ((parent_key p, nm), i)
      end /\
      get_file_id (render (parts ++ [nm])) ns =
        Ok (match names ns (parent_key p, nm) with Some (IFile f) => Some f | _ => None end)
  end.
Proof.
  intros Hwf Hall Hnm. unfold resolve_path, get_file_id. rewrite split_parent_render by done.
  rewrite lookup_directory_render by done. pose proof (descend_valid ns Hwf parts None) as Hval.
  assert (Hr : exists a s, render (parts ++ [nm]) = a :: s).
  { rewrite render_join by by destruct parts. eauto. }
  destruct Hr as (a & s & ->). destruct (descend (names ns) None parts) as [p|] eqn:Hd; [|by eexists].
  assert (Hp : valid_parent p) by by apply Hval.
  set (dir := match p with Some d => LookupDirectory d | None => LookupRoot end).
  assert (Hdir : forall A (x y : outcome string A), match dir with LookupMissing => x | _ => y end = y) by (by destruct p).
  assert (Hpar : match dir with LookupDirectory id => Some id | _ => None end = p) by by destruct p.
  cbn [mbind outcome_bind]. rewrite !Hdir, Hpar. rewrite bool_decide_eq_false_2 by apply Hnm. rewrite string_of_txt.
  rewrite (file_rows_names ns p nm Hwf Hp). pose proof (resolve_path_rows_names ns Hwf p nm Hp) as Hrows.
  destruct (names ns (parent_key p, nm)) as [i|] eqn:Hn.
  - destruct Hrows as (k & id & -> & Hv). assert (0 < id) by (apply (row_positive ns k id Hwf); by rewrite Hv).
    cbn. replace (id <=? 0) with false by lia. cbn. eexists. split; [reflexivity|]. split; [done|]. split; [by exists k, id|].
    destruct i as [f| |]; cbn; [|done..]. apply names_file_positive in Hn; [|done]. by replace (f <=? 0) with false by lia.
  - rewrite Hrows. by eexists.
Qed.

(** ** Directory listings *)

Lemma elem_of_entries {R} (place_of : R -> option (option Z * string)) kind seed_of p (table : gmap Z R) nm k id seed :
  (nm, k, id, seed) ∈ entries_of place_of kind seed_of p table <->
  k = kind /\ exists row, table !! id = Some row /\ place_of row = Some (p, nm) /\ seed_of id row = Some seed.
Proof.
  unfold entries_of. rewrite list_elem_of_omap. split.
  - intros ([id' row] & Hin%elem_of_map_to_list & H). cbn in H. destruct (place_of row) as [[q nm']|] eqn:Hp; [|done].
    destruct (seed_of id' row) as [s|] eqn:Hs; [|done]. case_bool_decide; [|done]. naive_solver.
  - intros (-> & row & Hl & Hp & Hs). exists (id, row). split; [by apply elem_of_map_to_list|]. cbn.
    rewrite Hp, Hs. by rewrite bool_decide_eq_true_2.
Qed.

Lemma NoDup_omap_key {A B K} (f : A -> option B) (ka : A -> K) (kb : B -> K) (l : list A) :
  (forall a b, f a = Some b -> kb b = ka a) -> NoDup (ka <$> l) -> NoDup (kb <$> omap f l).
Proof.
  intros Hf. induction l as [|a l IH]; [done|]. intros [Ha Hl]%NoDup_cons. cbn. destruct (f a) as [b|] eqn:E; [|by apply IH].
  cbn. apply NoDup_cons. split; [|by apply IH]. rewrite (Hf a b E). intros (b' & Hb & Hin)%list_elem_of_fmap. apply Ha.
  apply list_elem_of_omap in Hin as (a' & Hin & Ha'). apply list_elem_of_fmap. exists a'. split; [|done].
  by rewrite Hb, (Hf a' b').
Qed.

Lemma entries_NoDup {R} (place_of : R -> option (option Z * string)) kind seed_of p (table : gmap Z R) :
  NoDup ((fun x => (x.1.1.2, x.1.2)) <$> entries_of place_of kind seed_of p table).
Proof.
  apply (NoDup_omap_key _ (fun row => (kind, row.1))).
  - intros [id row] [[[nm k] i] s]. cbn. destruct (place_of row) as [[q nm']|]; [|done].
    destruct (seed_of id row); [|done]. case_bool_decide; naive_solver.
  - apply NoDup_fmap_2_strong; [|apply NoDup_map_to_list].
    intros [i x] [j y] Hx%elem_of_map_to_list Hy%elem_of_map_to_list [= ->]. cbn in *. congruence.
Qed.

Lemma NoDup_fmap_inj {A B} (f : A -> B) (l : list A) x y : NoDup (f <$> l) -> x ∈ l -> y ∈ l -> f x = f y -> x = y.
Proof.
  intros Hnd [i Hi]%list_elem_of_lookup [j Hj]%list_elem_of_lookup Hxy.
  assert (i = j) as ->; [|congruence].
  eapply NoDup_lookup; [exact Hnd|rewrite list_lookup_fmap, Hi; done|rewrite list_lookup_fmap, Hj; cbn; by rewrite Hxy].
Qed.

Definition entry_name (x : string * EntryKind * Z * string) : string := x.1.1.1.
Definition entry_of (x : string * EntryKind * Z * string) : Entry := (x.1.1.2, x.1.2).

Lemma listing_entries_NoDup p ns : NoDup (entry_of <$> list_directory_entry_metadata_for_id p ns).
Proof.
  unfold list_directory_entry_metadata_for_id. rewrite !fmap_app, !NoDup_app.
  assert (Hk : forall R place_of kind seed_of (table : gmap Z R) e,
    e ∈ (entry_of <$> entries_of place_of kind seed_of p table) -> e.1 = kind).
  { intros R place_of kind seed_of table e ([[[nm k] i] s] & -> & Hin)%list_elem_of_fmap. by apply elem_of_entries in Hin as [-> _]. }
  split_and!; try apply entries_NoDup; intros e He; rewrite ?elem_of_app; intros Hx; apply Hk in He;
    destruct_or? Hx; apply Hk in Hx; congruence.
Qed.

(** What is listed is there. *)
Lemma listed_view p ns x : x ∈ list_directory_entry_metadata_for_id p ns ->
  exists i, view ns (entry_of x) = Some ((parent_key p, entry_name x), i).
Proof.
  destruct x as [[[nm k] id] seed]. unfold list_directory_entry_metadata_for_id, entry_of, entry_name. cbn [fst snd].
  rewrite !elem_of_app, !elem_of_entries.
  intros [(-> & row & Hl & Hp & _)|[(-> & row & Hl & Hp & _)|[(-> & row & Hl & Hp & _)|[(-> & row & Hl & Hp & _)|(-> & row & Hl & Hp & _)]]]].
  - rewrite view_file, Hl. unfold file_place in Hp. destruct (fe_unlinked row); [done|]. injection Hp as -> ->. by eexists.
  - rewrite view_hardlink, Hl. injection Hp as <- <-. by eexists.
  - rewrite view_directory, Hl. injection Hp as <- <-. by eexists.
  - rewrite view_symlink, Hl. injection Hp as <- <-. by eexists.
  - rewrite view_alias, Hl. injection Hp as <- <-. by eexists.
Qed.

Section listing.
Context (ns : NsDb) (Hwf : ns_wf ns).

Lemma linked_seed f : linked ns f -> is_Some (linked_file_seed f ns).
Proof using Hwf.
  intros (row & Hr & Hu). unfold linked_file_seed. rewrite Hr. cbn. rewrite Hu.
  assert (Hd : is_Some (db_files (ns_db ns) !! f)) by (apply (nw_files _ Hwf); by eexists). destruct Hd as [x ->]. by eexists.
Qed.

(** A row at a name, with the parent as the row has it. *)
Lemma row_place {R} (place_of : R -> option (option Z * string)) (inode_of : R -> Inode) (table : gmap Z R) id p nm i :
  valid_parent p -> (forall row pl, table !! id = Some row -> place_of row = Some pl -> valid_parent pl.1) ->
  row_view place_of inode_of id table = Some ((parent_key p, nm), i) ->
  exists row, table !! id = Some row /\ place_of row = Some (p, nm).
Proof using Type.
  intros Hp Ht H. unfold row_view in H. destruct (table !! id) as [row|]; [|done]. cbn in H.
  destruct (place_of row) as [[q nm']|] eqn:Hq; [|done]. cbn in H. injection H as Hk Hn _. exists row. split; [done|].
  rewrite Hq, (parent_key_inj q p); [by subst| |done|done]. by apply (Ht row (q, nm')).
Qed.

(** What is there is listed. *)
Lemma view_listed p nm k id i : valid_parent p -> ~ (p = None /\ nm = "/"%string) ->
  view ns (k, id) = Some ((parent_key p, nm), i) ->
  exists seed, (nm, k, id, seed) ∈ list_directory_entry_metadata_for_id p ns.
Proof using Hwf.
  intros Hp Hroot Hv. unfold list_directory_entry_metadata_for_id. setoid_rewrite elem_of_app. setoid_rewrite elem_of_app.
  setoid_rewrite elem_of_app. setoid_rewrite elem_of_app. setoid_rewrite elem_of_entries.
  pose proof (parent_valid ns Hwf) as Hpar. unfold view in Hv. cbn [fst snd] in Hv. destruct k; apply row_place in Hv as (row & Hl & Hpl); try done.
  - assert (Hu : fe_unlinked row = false) by (unfold file_place in Hpl; by destruct (fe_unlinked row)).
    destruct (linked_seed id) as [s Hs]; [by exists row|]. exists s. left. naive_solver.
  - intros row pl Hl Hpl d Hd. apply Hpar. right; left. exists id, row. split; [done|]. unfold file_place in Hpl.
    destruct (fe_unlinked row); [done|]. by injection Hpl as <-.
  - destruct (linked_seed (h_file row)) as [s Hs]; [by apply (nw_links _ Hwf id)|]. exists s. right; left. naive_solver.
  - intros row pl Hl [= <-] d Hd. apply Hpar. do 2 right; left. by exists id, row.
  - exists (s_inode_seed row). do 3 right; left. naive_solver.
  - intros row pl Hl [= <-] d Hd. apply Hpar. do 3 right; left. by exists id, row.
  - destruct (nw_aliases _ Hwf _ _ Hl) as [sl Hsl]. exists (s_inode_seed sl). do 4 right. split; [done|]. exists row.
    split; [done|]. split; [done|]. by rewrite Hsl.
  - intros row pl Hl [= <-] d Hd. apply Hpar. do 4 right. by exists id, row.
  - exists (d_inode_seed row). do 2 right; left. split; [done|]. exists row. split; [done|]. split; [done|].
    rewrite bool_decide_eq_false_2; [done|]. injection Hpl as _ ->. done.
  - intros row pl Hl [= <-] d Hd. apply Hpar. left. by exists id, row.
Qed.

Lemma listing_names_NoDup p : NoDup (entry_name <$> list_directory_entry_metadata_for_id p ns).
Proof using Hwf.
  apply NoDup_fmap_2_strong; [|eapply NoDup_fmap_1, listing_entries_NoDup].
  intros x y Hx Hy Hn. apply (NoDup_fmap_inj entry_of _ _ _ (listing_entries_NoDup p ns) Hx Hy).
  apply listed_view in Hx as [i Hi], Hy as [j Hj]. rewrite Hn in Hi. by eapply (nw_inj _ Hwf).
Qed.
End listing.

(** C40: Listing a directory is exact. Every listed entry is the one the map has
    for its name in that directory, every name of the directory is listed
    (through its primary row, hard link or alias; only the stored row "/" of
    the root itself is left out), and no name is listed twice. *)
Theorem directory_listing_exact ns p :
  ns_wf ns -> valid_parent p ->
  (forall x, x ∈ list_directory_entry_metadata_for_id p ns ->
     exists i, names ns (parent_key p, entry_name x) = Some i /\
               view ns (entry_of x) = Some ((parent_key p, entry_name x), i)) /\
  (forall nm i, names ns (parent_key p, nm) = Some i -> ~ (p = None /\ nm = "/"%string) ->
     exists x, x ∈ list_directory_entry_metadata_for_id p ns /\ entry_name x = nm /\
               view ns (entry_of x) = Some ((parent_key p, nm), i)) /\
  NoDup (entry_name <$> list_directory_entry_metadata_for_id p ns).
Proof.
  intros Hwf Hp. split; [|split].
  - intros x [i Hv]%listed_view. exists i. split; [|done]. apply names_binds; [done|by eexists].
  - intros nm i [[k id] Hv]%names_binds Hroot; [|done]. destruct (view_listed ns Hwf p nm k id i Hp Hroot Hv) as [s Hin].
    by exists (nm, k, id, s).
  - by apply listing_names_NoDup.
Qed.

Lemma component_check (s : string) :
  bool_decide (txt s <> []) && bool_decide (SLASH ∉ txt s) && bool_decide (Ascii.zero ∉ txt s) = true -> component s.
Proof. rewrite !andb_true_iff, !bool_decide_eq_true. by intros [[? ?] ?]. Qed.

Lemma path_lookups_agree_witness :
  render ["a"; "g"]%string = txt "/a/g" /\
  (exists rp, resolve_path (render ["a"; "g"]%string) sample_ns = Ok rp /\ rp_parent_id rp = Some 3) /\
  get_file_id (render ["a"; "g"]%string) sample_ns = Ok (Some 10).
Proof.
  destruct (path_lookups_agree sample_ns ["a"%string] "g") as (rp & Hr & Hm).
  - exact (ns_reachable_wf _ _ sample_ns_reachable initial_ns_wf).
  - constructor; [|constructor]. apply component_check. vm_compute. reflexivity.
  - apply component_check. vm_compute. reflexivity.
  - replace (descend (names sample_ns) None ["a"%string]) with (Some (Some 3)) in Hm by (vm_compute; reflexivity).
    destruct Hm as (Hp & _ & Hf). split; [vm_compute; reflexivity|]. split; [exists rp; split; [exact Hr|exact Hp]|].
    etransitivity; [exact Hf|]. vm_compute. reflexivity.
Defined.

Lemma directory_listing_exact_witness :
  entry_name <$> list_directory_entry_metadata_for_id (Some 3) sample_ns = ["f"; "g"]%string /\
  NoDup (entry_name <$> list_directory_entry_metadata_for_id (Some 3) sample_ns) /\
  entry_name <$> list_directory_entry_metadata_for_id None sample_ns = ["a"; "b"; ".Trash-1000"]%string.
Proof.
  destruct (directory_listing_exact sample_ns (Some 3)) as (_ & _ & H).
  - exact (ns_reachable_wf _ _ sample_ns_reachable initial_ns_wf).
  - intros d [= <-]. lia.
  - split; [vm_compute; reflexivity|]. split; [exact H|]. vm_compute. reflexivity.
Defined.
