(* ===== verification/NamespaceRaces.v ===== *)
(** * Where the namespace falls short

    Two behaviours of [rename] that its callers do not expect. The check for
    directory cycles and the move are statements of one READ COMMITTED
    transaction with no lock on the directories between them, so two of them can
    each pass the check before the other moves. And a directory that is empty
    but for unlinked files still held open can be removed with rmdir, which
    detaches them, but not replaced by rename, which does not. *)

From stdpp Require Import prelude list numbers gmap strings sorting relations.
From Stdlib Require Import ZArith Lia Ascii.
From S2P Require Import Prelude Text Errno Acl BlockStore StoreSafety WriteOwnership Namespace.
From S2P Require Import NamespaceOps NamespaceTree NamespaceSafety NamespaceRefine NamespaceHistory.

#[local] Open Scope Z_scope.
Set Default Proof Using "Type".

(** ** Renames by root *)

Definition root_subject (a : option (Actor * bool)) : Prop := forall x, a = Some x -> ac_uid x.1 = 0.

Lemma check_parents_root ps a ns : root_subject a -> check_parents ps a ns = Ok tt.
Proof.
  intros Ha. induction ps as [|p ps IH]; [done|]. cbn. unfold check_parent_actor. destruct a as [[x acl]|]; [|done].
  specialize (Ha _ eq_refl). cbn in Ha.
  unfold check_parent, require_parent_write_search_acl_on_conn, require_parent_write_search_on_conn. rewrite Ha. cbn.
  by destruct acl.
Qed.

Lemma rename_apply_root source op np nn target a now ns : root_subject a ->
  rename_apply source op np nn target 0 a now ns =
  (match target with
   | None => _ ← move_source source np nn; mret Applied
   | Some t =>
       if same_inode source t then mret NoOpSameFile
       else removed ← remove_target t now;
            if negb removed then mret TargetNotEmpty else _ ← move_source source np nn; mret Applied
   end) ns.
Proof.
  intros Ha. unfold rename_apply, mbind, nx_bind, nx_read. rewrite check_parents_root by done. cbn.
  by destruct target.
Qed.

(** Moving a directory to a free name. *)
Lemma move_directory_free d p nm ns row : ns_directories ns !! d = Some row -> is_Some (ns_directories ns !! p) ->
  (forall id r, ns_directories ns !! id = Some r -> (d_parent r, d_name r) <> (Some p, nm)) ->
  (String.length nm <= 255)%nat ->
  update_directory d (move_directory (Some p) nm) ns =
  Ok (tt, set_directories (<[d := move_directory (Some p) nm row]> (ns_directories ns)) ns).
Proof.
  intros Hd [rp Hp] Hfree Hlen. unfold update_directory, update_row. rewrite Hd. cbn. unfold name_constraints.
  replace (255 <? Z.of_nat (String.length nm)) with false by lia.
  rewrite bool_decide_eq_false_2; [|].
  - by rewrite bool_decide_eq_false_2 by by rewrite Hp.
  - rewrite Exists_exists. intros ([id r] & Hin%elem_of_map_to_list & _ & Hw). by eapply Hfree.
Qed.

(** Two directories under each other hang from nothing. *)
Lemma mutual_parents_not_rooted dirs d1 d2 r1 r2 : dirs !! d1 = Some r1 -> d_parent r1 = Some d2 ->
  dirs !! d2 = Some r2 -> d_parent r2 = Some d1 -> ~ rooted dirs d1 /\ ~ rooted dirs d2.
Proof.
  intros H1 P1 H2 P2. assert (Hn : forall d, rooted dirs d -> d <> d1 /\ d <> d2).
  { induction 1 as [d row Hd Hp|d row p Hd Hp _ [IH1 IH2]]; [split; congruence|]. split; intros ->; congruence. }
  split; intros H; by destruct (Hn _ H).
Qed.

Lemma directory_name_free ns p nm : free (view ns) (p, nm) ->
  forall id r, ns_directories ns !! id = Some r -> (d_parent r, d_name r) <> (Some p, nm).
Proof.
  intros Hf id r Hr [= Hp Hn]. apply (Hf (KDir, id) (IDir id)). rewrite view_directory, Hr. cbn. by rewrite Hp, Hn.
Qed.

(** Concurrent directory renames can detach a cycle. Take two directories,
    neither below the other. The renames of each into the other, from two
    mounts, both pass the cycle check when both checks read the state before
    either move (READ COMMITTED, and neither the advisory locks on the four
    names nor the updates conflict); then both moves are applied, and the two
    directories hang from each other, with everything below them, unreachable
    from the root for good. Run one after the other, the second is refused. *)
Theorem concurrent_directory_renames_make_cycle ns d1 d2 p1 p2 n1 n2 a1 a2 t1 t2 :
  ns_wf ns -> is_Some (ns_directories ns !! d1) -> is_Some (ns_directories ns !! d2) ->
  rename_cycle (RenameDirectory d1) (Some d2) ns = false -> rename_cycle (RenameDirectory d2) (Some d1) ns = false ->
  free (view ns) (d2, n1) -> free (view ns) (d1, n2) ->
  (String.length n1 <= 255)%nat -> (String.length n2 <= 255)%nat -> root_subject a1 -> root_subject a2 ->
  exists ns1 ns2,
    rename_resolved (RenameDirectory d1) p1 (Some d2) n1 None 0 a1 t1 ns = Ok (Applied, ns1) /\
    rename_resolved (RenameDirectory d2) p2 (Some d1) n2 None 0 a2 t2 ns1 = Ok (InvalidDirectoryCycle, ns1) /\
    rename_apply (RenameDirectory d2) p2 (Some d1) n2 None 0 a2 t2 ns1 = Ok (Applied, ns2) /\
    ~ rooted (ns_directories ns2) d1 /\ ~ rooted (ns_directories ns2) d2.
Proof.
  intros Hwf [r1 H1] [r2 H2] C1 C2 F1 F2 L1 L2 A1 A2.
  assert (Hne : d1 <> d2).
  { intros ->. apply rename_cycle_false in C1. by apply (C1 d2 d2), below_refl. }
  set (ns1 := set_directories (<[d1 := move_directory (Some d2) n1 r1]> (ns_directories ns)) ns).
  assert (D1 : ns_directories ns1 = <[d1 := move_directory (Some d2) n1 r1]> (ns_directories ns)) by by destruct ns.
  assert (H12 : ns_directories ns1 !! d1 = Some (move_directory (Some d2) n1 r1)) by by rewrite D1, lookup_insert_eq.
  assert (H22 : ns_directories ns1 !! d2 = Some r2) by by rewrite D1, lookup_insert_ne.
  exists ns1, (set_directories (<[d2 := move_directory (Some d1) n2 r2]> (ns_directories ns1)) ns1).
  assert (Happly1 : rename_apply (RenameDirectory d1) p1 (Some d2) n1 None 0 a1 t1 ns = Ok (Applied, ns1)).
  { rewrite rename_apply_root by done. cbn [move_source]. unfold mbind, nx_bind.
    rewrite (move_directory_free d1 d2 n1 ns r1); [done|done|eauto|by apply directory_name_free|done]. }
  split; [unfold rename_resolved; by rewrite C1|]. split; [|split].
  - unfold rename_resolved. replace (rename_cycle _ _ ns1) with true; [done|]. symmetry. unfold rename_cycle. apply bool_decide_eq_true.
    apply elem_of_subtree. eapply below_child; [exact H12|done|]. by apply below_refl.
  - rewrite rename_apply_root by done. cbn [move_source]. unfold mbind, nx_bind.
    rewrite (move_directory_free d2 d1 n2 ns1 r2); [done|done|eauto| |done].
    intros id r Hr. rewrite D1 in Hr. apply lookup_insert_Some in Hr as [[<- <-]|[_ Hr]]; [|by eapply directory_name_free].
    cbn. congruence.
  - apply (mutual_parents_not_rooted _ d1 d2 (move_directory (Some d2) n1 r1) (move_directory (Some d1) n2 r2)); try done.
    + destruct ns; cbn in *. rewrite lookup_insert_ne by done. by rewrite lookup_insert_eq.
    + destruct ns; cbn in *. by rewrite lookup_insert_eq.
Qed.

(** mv /a /b/a and mv /b /a/b. *)
Lemma concurrent_directory_renames_make_cycle_witness :
  let ns1 := (run_op (OpRename (RenameDirectory 3) None "a" (Some 4) "a" None 0 false None true (fun _ => 0)) sample_ns).2 in
  names sample_ns (0, "a"%string) = Some (IDir 3) /\ names ns1 (4, "a"%string) = Some (IDir 3) /\
  exists ns1 ns2,
    rename_resolved (RenameDirectory 3) None (Some 4) "a" None 0 None 0 sample_ns = Ok (Applied, ns1) /\
    rename_resolved (RenameDirectory 4) None (Some 3) "b" None 0 None 0 ns1 = Ok (InvalidDirectoryCycle, ns1) /\
    rename_apply (RenameDirectory 4) None (Some 3) "b" None 0 None 0 ns1 = Ok (Applied, ns2) /\
    ~ rooted (ns_directories ns2) 3 /\ ~ rooted (ns_directories ns2) 4.
Proof.
  cbv zeta. split; [vm_compute; reflexivity|]. split; [vm_compute; reflexivity|].
  assert (Hwf : ns_wf sample_ns) by exact (ns_reachable_wf _ _ sample_ns_reachable initial_ns_wf).
  apply concurrent_directory_renames_make_cycle; try (by vm_compute; lia); try (vm_compute; reflexivity).
  - exact Hwf.
  - vm_compute. eauto.
  - vm_compute. eauto.
  - apply resolve_free; [exact Hwf|]. vm_compute. reflexivity.
  - apply resolve_free; [exact Hwf|]. vm_compute. reflexivity.
  - intros x [=].
  - intros x [=].
Defined.

(** ** Replacing an emptied directory *)

Lemma detached_unreferenced did ns ns1 : directory_has_children did ns = false -> detach_unlinked_files did ns = Ok (tt, ns1) ->
  ns_directories ns1 = ns_directories ns /\ directory_has_children did ns1 = false /\ directory_referenced did ns1 = false.
Proof.
  unfold directory_has_children, directory_referenced, detach_unlinked_files. rewrite !bool_decide_eq_false. intros Hno.
  case_bool_decide; [done|]. intros [= <-]. split; [by destruct ns|].
  assert (Hfile : forall P : FileEntry -> Prop, (forall f, P f -> fe_parent f = Some did) ->
    map_Exists (fun _ f => P f) (detached did <$> ns_files ns) ->
    map_Exists (fun _ f => fe_parent f = Some did /\ fe_unlinked f = false) (ns_files ns)).
  { intros P HP (i & f' & Hl & Hf'). rewrite lookup_fmap in Hl. destruct (ns_files ns !! i) as [f|] eqn:Hf; [|done].
    injection Hl as <-. exists i, f. split; [done|]. apply HP in Hf'. unfold detached in Hf'.
    case_bool_decide as Hd; [done|]. split; [done|]. destruct (fe_unlinked f); [|done]. by destruct Hd. }
  destruct ns; cbn in *. split; intros Hx; apply Hno.
  - destruct Hx as [Hx|Hx]; [|by right]. left. eapply Hfile; [|exact Hx]. by intros f [? _].
  - destruct Hx as [Hx|[Hx|[Hx|Hx]]]; [by right; right; left| |by right; left|by right; right; right].
    left. eapply Hfile; [|exact Hx]. done.
Qed.

(** rename cannot replace a directory that holds nothing but unlinked files
    still open somewhere, though it counts as empty: the rows of those files
    still reference it, the DELETE is refused with a foreign-key violation and
    the caller gets EIO. rmdir of the same directory moves those rows away and
    succeeds. *)
Theorem rename_over_emptied_directory_fails ns source did fid f op np nn p key a now ns1 :
  row_named directory_place did key (ns_directories ns) = true ->
  directory_has_children did ns = false ->
  ns_files ns !! fid = Some f -> fe_parent f = Some did -> fe_unlinked f = true ->
  rename_cycle (RenameDirectory source) np ns = false -> root_subject a ->
  detach_unlinked_files did ns = Ok (tt, ns1) ->
  rename_resolved (RenameDirectory source) op np nn (Some (RenameDirectory did)) 0 a now ns = Err FOREIGN_KEY_VIOLATION /\
  namespace_mutation_errno FOREIGN_KEY_VIOLATION = EIO /\
  exists ns2, unlink_directory_body did p key 0 a ns = Ok (Removed, ns2).
Proof.
  intros Hrow Hno Hf Hp Hu Hc Ha Hdet.
  assert (Hdir : is_Some (ns_directories ns !! did)) by (unfold row_named in Hrow; destruct (ns_directories ns !! did); [eauto|done]).
  assert (Href : directory_referenced did ns = true).
  { apply bool_decide_eq_true. right; left. by exists fid, f. }
  split; [|split; [vm_compute; reflexivity|]].
  - unfold rename_resolved. rewrite Hc, rename_apply_root by done.
    assert (Hrm : remove_target (RenameDirectory did) now ns = Err FOREIGN_KEY_VIOLATION).
    { unfold remove_target. rewrite Hno. unfold mbind, nx_bind, delete_directory. by rewrite Href, bool_decide_eq_true_2. }
    replace (same_inode _ _) with false by done. unfold mbind at 1, nx_bind at 1. by rewrite Hrm.
  - destruct (detached_unreferenced did ns ns1 Hno Hdet) as (Hdirs & Hno1 & Href1).
    eexists. unfold unlink_directory_body. rewrite Hrow. cbn [negb].
    unfold mbind, nx_bind, nx_read.
    assert (Hchk : check_parent_actor p a ns = Ok tt) by (pose proof (check_parents_root [p] a ns Ha) as H; cbn in H;
      by destruct (check_parent_actor p a ns) as [[]| |]).
    rewrite Hchk. cbn [require_sticky_removal_on_conn Z.eqb]. rewrite Hno, Hdet. cbn [nx_get].
    rewrite Hdirs, Hrow. cbn [negb]. rewrite Hno1. unfold delete_directory. rewrite Href1. reflexivity.
Qed.

(** /b holds only the file that was unlinked while open. *)
Definition emptied_ns : NsDb :=
  (run_op (OpUnlinkFile 10 ".hidden" (Some 4) "h" 0 None (fun _ => 50))
     (set_open_leases {[(7, 1) := (10, 100)]} (set_destinations ∅
        (let ns := run_ops [OpRename (RenameFile 10) (Some 3) "f" (Some 4) "h" None 0 false None true (fun _ => 0);
                            OpDeleteHardlink 20] sample_ns in
         set_ns_db (set_client_sessions {[7 := 60]} (ns_db ns)) ns)))).2.

Lemma rename_over_emptied_directory_fails_witness :
  (run_op (OpRename (RenameDirectory 3) None "a" None "b" (Some (RenameDirectory 4)) 0 false None true (fun _ => 50)) emptied_ns).1
    = RRename (Err FOREIGN_KEY_VIOLATION) /\
  rename_resolved (RenameDirectory 3) None None "b" (Some (RenameDirectory 4)) 0 None 50 emptied_ns = Err FOREIGN_KEY_VIOLATION /\
  exists ns2, unlink_directory_body 4 None (0, "b"%string) 0 None emptied_ns = Ok (Removed, ns2).
Proof.
  split; [vm_compute; reflexivity|].
  destruct (rename_over_emptied_directory_fails emptied_ns 3 4 10 {| fe_parent := Some 4; fe_name := ".hidden"; fe_unlinked := true |}
    None None "b" None (0, "b"%string) None 50 (set_ns_files (detached 4 <$> ns_files emptied_ns) emptied_ns)) as (H1 & _ & H2);
    try (vm_compute; reflexivity).
  - intros x [=].
  - split; [exact H1|exact H2].
Defined.
