(* ===== verification/InodePaths.v ===== *)
(** * Inode numbers and the path tables of a mount

    The part of src/rust_fuse/src/fs.rs that ties the kernel's inode numbers to
    paths: building and checking path text, the stable inode numbers hashed from
    the seeds, device numbers, and the tables [inode_to_path], [path_to_inode],
    [lookup_refs] with the operations that keep them. *)

From stdpp Require Import prelude list numbers gmap strings sorting.
From Stdlib Require Import ZArith Lia Ascii.
From S2P Require Import Prelude Text Errno Namespace.

#[local] Open Scope Z_scope.
Set Default Proof Using "Type".

(** ** Errors *)
Definition ENOTDIR : Z := 20.
Definition EISDIR : Z := 21.
Definition ENAMETOOLONG : Z := 36.
Definition ENOTEMPTY : Z := 39.
Definition EILSEQ : Z := 84.

(** ** Path text *)

(** [core::str::from_utf8]: the well-formed byte sequences of Unicode. *)
Definition in_range (lo hi : Z) (c : ascii) : bool := (lo <=? char_code c) && (char_code c <=? hi).
Definition continuation : ascii -> bool := in_range 128 191.
Fixpoint utf8_valid (s : text) : bool :=
  match s with
  | [] => true
  | a :: s =>
      if in_range 0 127 a then utf8_valid s
      else match s with
           | b :: s =>
               if in_range 194 223 a then continuation b && utf8_valid s
               else match s with
                    | c :: s =>
                        let second :=
                          if char_code a =? 224 then in_range 160 191
                          else if char_code a =? 237 then in_range 128 159
                          else continuation in
                        if in_range 224 239 a then second b && continuation c && utf8_valid s
                        else match s with
                             | d :: s =>
                                 let second :=
                                   if char_code a =? 240 then in_range 144 191
                                   else if char_code a =? 244 then in_range 128 143
                                   else continuation in
                                 in_range 240 244 a && second b && continuation c && continuation d && utf8_valid s
                             | [] => false
                             end
                    | [] => false
                    end
           | [] => false
           end
  end.

Definition os_str_as_utf8 (value : text) : outcome Z text := if utf8_valid value then Ok value else Err EILSEQ.

Definition validate_component_name (name : text) : outcome Z text :=
  if 255 <? Z.of_nat (length name) then Err ENAMETOOLONG else os_str_as_utf8 name.

Definition is_slash (c : ascii) : bool := Ascii.eqb SLASH c.
(** [trim_end_matches('/')]. *)
Definition trim_end_slashes (s : text) : text := reverse (drop_while is_slash (reverse s)).

(** [while value.len() > 1 && value.ends_with('/') { value.pop(); }]. *)
Definition strip_trailing_slashes (s : text) : text :=
  match s with
  | [] => []
  | c :: s => c :: trim_end_slashes s
  end.

Definition normalize_path (path : text) : text :=
  match path with
  | [] => [SLASH]
  | c :: _ => strip_trailing_slashes (if is_slash c then path else SLASH :: path)
  end.

Definition join_path (parent name : text) : text :=
  if bool_decide (parent = [SLASH]) then SLASH :: name else trim_end_slashes parent ++ SLASH :: name.

(** ** Inode numbers *)

Definition ROOT_INO : Z := 1.

Definition kind_text (kind : EntryKind) : string :=
  match kind with
  | KFile => "file"
  | KHardlink => "hardlink"
  | KSymlink => "symlink"
  | KSymlinkHardlink => "symlink_hardlink"
  | KDir => "dir"
  end.

Definition FNV_OFFSET_BASIS : Z := 14695981039346656037.
Definition FNV_PRIME : Z := 1099511628211.

Definition hash_inode64 (data : text) : Z :=
  foldl (fun hash byte => (Z.lxor hash (char_code byte) * FNV_PRIME) mod 2 ^ 64) FNV_OFFSET_BASIS data.

Definition logical_inode (kind : EntryKind) (entry_id : Z) : Z :=
  match kind with
  | KFile | KHardlink => (1000000 + entry_id) mod 2 ^ 64
  | KDir => (2000000 + entry_id) mod 2 ^ 64
  | KSymlink => (3000000 + entry_id) mod 2 ^ 64
  | KSymlinkHardlink => entry_id
  end.

Definition normalized_kind (kind : EntryKind) : EntryKind :=
  match kind with KHardlink => KFile | KSymlinkHardlink => KSymlink | kind => kind end.

Definition stable_inode (kind : EntryKind) (inode_seed : string) (entry_id : Z) : outcome Z Z :=
  if bool_decide (trim (txt inode_seed) = []) then Err EIO
  else
    let payload := txt (kind_text (normalized_kind kind)) ++ txt ":" ++ txt inode_seed in
    let inode := Z.land (hash_inode64 payload) (2 ^ 63 - 1) in
    if inode =? 0 then Ok (logical_inode kind entry_id) else Ok inode.

(** ** Device numbers *)

Definition decode_fuse_rdev (rdev : Z) : Z * Z :=
  (Z.land (Z.shiftr rdev 8) 4095, Z.lor (Z.land rdev 255) (Z.land (Z.shiftr rdev 12) 1048320)).

(** On 32 bits: the shifts drop what leaves the word. *)
Definition encode_fuse_rdev (major minor : Z) : outcome Z Z :=
  if (4095 <? major) || (1048575 <? minor) then Err EIO
  else Ok (Z.lor (Z.lor (Z.shiftl major 8 mod 2 ^ 32) (Z.land minor 255))
             (Z.shiftl (Z.land minor 1048320) 12 mod 2 ^ 32)).

Inductive FileType : Set := RegularFile | Directory | Symlink | NamedPipe | CharDevice | BlockDevice.
#[global] Instance file_type_eq_dec : EqDecision FileType.
Proof. solve_decision. Defined.

Definition file_type_from_special (special_type : string) : option FileType :=
  if bool_decide (special_type = "fifo"%string) then Some NamedPipe
  else if bool_decide (special_type = "char"%string) then Some CharDevice
  else if bool_decide (special_type = "block"%string) then Some BlockDevice
  else None.

(** ** The tables *)

(** [lookup_refs] counts what the kernel holds; a handle of [fh_table] has its
    path and its file. *)
Record PathTables := {
  pt_inode_to_path : gmap Z text;
  pt_path_to_inode : gmap text Z;
  pt_lookup_refs : gmap Z Z;
  pt_handles : gmap Z (text * option Z);
}.

Definition set_inode_to_path (m : gmap Z text) (t : PathTables) : PathTables :=
  {| pt_inode_to_path := m; pt_path_to_inode := pt_path_to_inode t; pt_lookup_refs := pt_lookup_refs t;
     pt_handles := pt_handles t |}.
Definition set_path_to_inode (m : gmap text Z) (t : PathTables) : PathTables :=
  {| pt_inode_to_path := pt_inode_to_path t; pt_path_to_inode := m; pt_lookup_refs := pt_lookup_refs t;
     pt_handles := pt_handles t |}.
Definition set_lookup_refs (m : gmap Z Z) (t : PathTables) : PathTables :=
  {| pt_inode_to_path := pt_inode_to_path t; pt_path_to_inode := pt_path_to_inode t; pt_lookup_refs := m;
     pt_handles := pt_handles t |}.
Definition set_handles (m : gmap Z (text * option Z)) (t : PathTables) : PathTables :=
  {| pt_inode_to_path := pt_inode_to_path t; pt_path_to_inode := pt_path_to_inode t; pt_lookup_refs := pt_lookup_refs t;
     pt_handles := m |}.

Definition initial_tables : PathTables :=
  {| pt_inode_to_path := {[ROOT_INO := [SLASH]]}; pt_path_to_inode := {[[SLASH] := ROOT_INO]};
     pt_lookup_refs := ∅; pt_handles := ∅ |}.

Definition inode_for_path (path : text) (t : PathTables) : option Z := pt_path_to_inode t !! path.
Definition path_for_inode (ino : Z) (t : PathTables) : option text := pt_inode_to_path t !! ino.

Definition entry_path_for_ino (ino : Z) (t : PathTables) : outcome Z text :=
  if ino =? ROOT_INO then Ok [SLASH]
  else match path_for_inode ino t with Some path => Ok path | None => Err ENOENT end.

Definition register_path (path : text) (ino : Z) (t : PathTables) : PathTables :=
  set_inode_to_path (<[ino := path]> (pt_inode_to_path t))
    (set_path_to_inode (<[path := ino]> (pt_path_to_inode t)) t).

(** An existing reverse mapping is kept. *)
Definition register_lookup_path (path : text) (ino : Z) (t : PathTables) : PathTables :=
  set_lookup_refs (<[ino := sat_add (default 0 (pt_lookup_refs t !! ino)) 1]> (pt_lookup_refs t))
    (set_inode_to_path
       (match pt_inode_to_path t !! ino with
        | Some _ => pt_inode_to_path t
        | None => <[ino := path]> (pt_inode_to_path t)
        end)
       (set_path_to_inode (<[path := ino]> (pt_path_to_inode t)) t)).

(** Another path of the inode, in the order in which the hash map is walked. *)
Definition replacement_path (order : list (text * Z) -> list (text * Z)) (ino : Z) (t : PathTables) : option text :=
  fst <$> head (filter (fun row => row.2 = ino) (order (map_to_list (pt_path_to_inode t)))).

Definition remove_cached_path (order : list (text * Z) -> list (text * Z)) (path : text) (t : PathTables) : PathTables :=
  match pt_path_to_inode t !! path with
  | None => t
  | Some ino =>
      let t := set_path_to_inode (delete path (pt_path_to_inode t)) t in
      if bool_decide (pt_inode_to_path t !! ino = Some path) then
        set_inode_to_path
          (match replacement_path order ino t with
           | Some other => <[ino := other]> (pt_inode_to_path t)
           | None => delete ino (pt_inode_to_path t)
           end) t
      else t
  end.

Definition remove_cached_handle_paths (path : text) (t : PathTables) : PathTables :=
  set_handles (filter (fun row => row.2.1 <> path) (pt_handles t)) t.

Definition move_cached_path (order : list (text * Z) -> list (text * Z)) (old_path new_path : text) (ino : Z)
    (t : PathTables) : PathTables :=
  let t := register_path new_path ino (remove_cached_path order old_path t) in
  set_handles ((fun h => if bool_decide (h.1 = old_path) then (new_path, h.2) else h) <$> pt_handles t) t.

Definition inode_has_active_handle (ino : Z) (t : PathTables) : bool :=
  bool_decide (map_Exists (fun _ h => pt_path_to_inode t !! h.1 = Some ino) (pt_handles t)).

Definition remove_cached_inode_paths (ino : Z) (t : PathTables) : PathTables :=
  if ino =? ROOT_INO then t
  else set_inode_to_path (delete ino (pt_inode_to_path t))
         (set_path_to_inode (filter (fun row => row.2 <> ino) (pt_path_to_inode t)) t).

Definition evict_inode_if_unreferenced (ino : Z) (t : PathTables) : bool * PathTables :=
  if ino =? ROOT_INO then (false, t)
  else if negb (default 0 (pt_lookup_refs t !! ino) =? 0) then (false, t)
  else if inode_has_active_handle ino t then (false, t)
  else (true, remove_cached_inode_paths ino t).

Definition apply_forget_ref_delta (refs : gmap Z Z) (ino nlookup : Z) : (Z * bool) * gmap Z Z :=
  if ino =? ROOT_INO then ((0, false), refs)
  else match refs !! ino with
       | None => ((0, false), refs)
       | Some current =>
           let remaining := sat_sub current nlookup in
           if negb (remaining =? 0) then ((remaining, false), <[ino := remaining]> refs)
           else ((0, true), delete ino refs)
       end.

Definition forget_lookup_refs (ino nlookup : Z) (t : PathTables) : (Z * bool) * PathTables :=
  let '((remaining, retire_candidate), refs) := apply_forget_ref_delta (pt_lookup_refs t) ino nlookup in
  let t := set_lookup_refs refs t in
  if retire_candidate then
    let '(evicted, t) := evict_inode_if_unreferenced ino t in ((remaining, evicted), t)
  else ((remaining, false), t).

(** ** Bounds of the numbers *)

Lemma hash_inode64_u64 data : 0 <= hash_inode64 data < 2 ^ 64.
Proof.
  unfold hash_inode64. assert (H0 : 0 <= FNV_OFFSET_BASIS < 2 ^ 64) by (unfold FNV_OFFSET_BASIS; lia).
  revert H0. generalize FNV_OFFSET_BASIS. induction data as [|b data IH]; intros h Hh; cbn [foldl]; [done|].
  apply IH, Z.mod_pos_bound. lia.
Qed.

Lemma masked_inode h : 0 <= h < 2 ^ 64 -> Z.land h (2 ^ 63 - 1) = h mod 2 ^ 63.
Proof. intros _. replace (2 ^ 63 - 1) with (Z.ones 63) by done. by rewrite Z.land_ones by lia. Qed.

(** Every inode number the mount hands out is positive and fits a signed
    64-bit integer, whatever the seed hashes to, for all row numbers the
    fallback can be asked for; and the entries of one inode get one number: a
    hard link that of its file, an alias that of its symlink, as long as the
    hash is not zero. *)
Theorem stable_inode_bounds kind seed entry_id ino :
  0 < entry_id < 2 ^ 62 -> stable_inode kind seed entry_id = Ok ino ->
  0 < ino < 2 ^ 63 /\
  (Z.land (hash_inode64 (txt (kind_text (normalized_kind kind)) ++ txt ":" ++ txt seed)) (2 ^ 63 - 1) <> 0 ->
   forall kind' other_id, normalized_kind kind' = normalized_kind kind -> stable_inode kind' seed other_id = Ok ino).
Proof.
  intros Hid. unfold stable_inode. case_bool_decide; [done|]. set (payload := _ ++ _).
  assert (Hh : 0 <= Z.land (hash_inode64 payload) (2 ^ 63 - 1) < 2 ^ 63).
  { rewrite masked_inode by apply hash_inode64_u64. apply Z.mod_pos_bound. lia. }
  destruct (Z.land (hash_inode64 payload) (2 ^ 63 - 1) =? 0) eqn:E; intros [= <-].
  - split; [|intros H0; lia]. unfold logical_inode. destruct kind; rewrite ?Z.mod_small; lia.
  - split; [lia|]. intros _ kind' other_id ->. subst payload. by rewrite E.
Qed.

(** Bits above the width of a number. *)
Lemma testbit_high x k n : 0 <= x < 2 ^ k -> 0 <= k <= n -> Z.testbit x n = false.
Proof.
  intros Hx Hn. rewrite <- (Z.mod_small x (2 ^ k)) by done. by apply Z.mod_pow2_bits_high.
Qed.

Lemma testbit_mask n : 0 <= n -> Z.testbit 1048320 n = (8 <=? n) && (n <? 20).
Proof.
  intros Hn. change 1048320 with (Z.shiftl (Z.ones 12) 8). rewrite Z.shiftl_spec by done.
  destruct (Z.leb_spec 8 n); [|by rewrite Z.testbit_neg_r by lia].
  rewrite Z.testbit_ones_nonneg by lia. cbn. destruct (Z.ltb_spec (n - 8) 12), (Z.ltb_spec n 20); done || lia.
Qed.

(** The bits of an encoded device number. *)
Definition rdev_word (major minor : Z) : Z :=
  Z.lor (Z.lor (Z.shiftl major 8 mod 2 ^ 32) (Z.land minor 255)) (Z.shiftl (Z.land minor 1048320) 12 mod 2 ^ 32).

Lemma rdev_word_bits major minor n : 0 <= major < 2 ^ 12 -> 0 <= minor < 2 ^ 20 -> 0 <= n ->
  Z.testbit (rdev_word major minor) n =
  if n <? 8 then Z.testbit minor n else if n <? 20 then Z.testbit major (n - 8)
  else if n <? 32 then Z.testbit minor (n - 12) else false.
Proof.
  intros Hma Hmi Hn. unfold rdev_word. change 255 with (Z.ones 8). rewrite !Z.lor_spec, Z.land_spec, Z.testbit_ones_nonneg by lia.
  destruct (Z.ltb_spec n 32).
  - rewrite !Z.mod_pow2_bits_low, !Z.shiftl_spec by lia.
    destruct (Z.ltb_spec n 8); [rewrite (Z.testbit_neg_r major), (Z.testbit_neg_r (Z.land _ _)) by lia; by destruct (Z.testbit minor n)|].
    rewrite andb_false_r, orb_false_r. destruct (Z.ltb_spec n 20).
    + destruct (Z.ltb_spec n 12); [by rewrite (Z.testbit_neg_r _ (n - 12)), orb_false_r by lia|].
      rewrite Z.land_spec, testbit_mask by lia. replace (8 <=? n - 12) with false by lia. by rewrite andb_false_r, orb_false_r.
    + rewrite (testbit_high major 12) by lia. rewrite Z.land_spec, testbit_mask by lia.
      replace (8 <=? n - 12) with true by lia. replace (n - 12 <? 20) with true by lia. by rewrite andb_true_r.
  - rewrite !Z.mod_pow2_bits_high by lia. replace (n <? 8) with false by lia. replace (n <? 20) with false by lia.
    by rewrite andb_false_r.
Qed.

Lemma rdev_word_range major minor : 0 <= major < 2 ^ 12 -> 0 <= minor < 2 ^ 20 -> 0 <= rdev_word major minor < 2 ^ 32.
Proof.
  intros Hma Hmi. assert (H : rdev_word major minor = rdev_word major minor mod 2 ^ 32); [|rewrite H; apply Z.mod_pos_bound; lia].
  apply Z.bits_inj'. intros n Hn. destruct (Z.ltb_spec n 32); [by rewrite Z.mod_pow2_bits_low|].
  rewrite Z.mod_pow2_bits_high by lia. rewrite rdev_word_bits by lia.
  replace (n <? 8) with false by lia. replace (n <? 20) with false by lia. by replace (n <? 32) with false by lia.
Qed.

(** The bits of the decoded pair. *)
Lemma decode_major_bits r n : 0 <= n -> Z.testbit (decode_fuse_rdev r).1 n = (n <? 12) && Z.testbit r (n + 8).
Proof.
  intros Hn. cbn [decode_fuse_rdev fst]. change 4095 with (Z.ones 12).
  rewrite Z.land_spec, Z.shiftr_spec, Z.testbit_ones_nonneg by lia. apply andb_comm.
Qed.
Lemma decode_minor_bits r n : 0 <= n -> Z.testbit (decode_fuse_rdev r).2 n =
  if n <? 8 then Z.testbit r n else (n <? 20) && Z.testbit r (n + 12).
Proof.
  intros Hn. cbn [decode_fuse_rdev snd]. change 255 with (Z.ones 8).
  rewrite Z.lor_spec, !Z.land_spec, Z.shiftr_spec, testbit_mask, Z.testbit_ones_nonneg by lia.
  destruct (Z.ltb_spec n 8); [replace (8 <=? n) with false by lia; by rewrite andb_true_r, andb_false_r, orb_false_r|].
  replace (8 <=? n) with true by lia. rewrite andb_false_r. cbn. apply andb_comm.
Qed.

Lemma decode_range rdev : 0 <= (decode_fuse_rdev rdev).1 < 2 ^ 12 /\ 0 <= (decode_fuse_rdev rdev).2 < 2 ^ 20.
Proof.
  split; match goal with |- 0 <= ?x < 2 ^ ?k => assert (H : x = x mod 2 ^ k); [|rewrite H; apply Z.mod_pos_bound; lia] end;
    apply Z.bits_inj'; intros n Hn.
  - destruct (Z.ltb_spec n 12); [by rewrite Z.mod_pow2_bits_low|]. rewrite Z.mod_pow2_bits_high, decode_major_bits by lia.
    by replace (n <? 12) with false by lia.
  - destruct (Z.ltb_spec n 20); [by rewrite Z.mod_pow2_bits_low|]. rewrite Z.mod_pow2_bits_high, decode_minor_bits by lia.
    replace (n <? 8) with false by lia. by replace (n <? 20) with false by lia.
Qed.

Lemma decode_rdev_word major minor : 0 <= major < 2 ^ 12 -> 0 <= minor < 2 ^ 20 ->
  decode_fuse_rdev (rdev_word major minor) = (major, minor).
Proof.
  intros Hma Hmi. rewrite (surjective_pairing (decode_fuse_rdev _)). f_equal; apply Z.bits_inj'; intros n Hn.
  - rewrite decode_major_bits, rdev_word_bits by lia. replace (n + 8 <? 8) with false by lia.
    destruct (Z.ltb_spec n 12); [|by rewrite (testbit_high major 12 n) by lia].
    replace (n + 8 <? 20) with true by lia. cbn. f_equal. lia.
  - rewrite decode_minor_bits, !rdev_word_bits by lia. destruct (Z.ltb_spec n 8); [done|].
    replace (n + 12 <? 8) with false by lia. replace (n + 12 <? 20) with false by lia.
    destruct (Z.ltb_spec n 20); [|by rewrite (testbit_high minor 20 n) by lia].
    replace (n + 12 <? 32) with true by lia. cbn. f_equal. lia.
Qed.

Lemma rdev_word_decode rdev : 0 <= rdev < 2 ^ 32 -> rdev_word (decode_fuse_rdev rdev).1 (decode_fuse_rdev rdev).2 = rdev.
Proof.
  intros Hr. destruct (decode_range rdev) as [Hma Hmi]. apply Z.bits_inj'. intros n Hn. rewrite rdev_word_bits by done.
  destruct (Z.ltb_spec n 8); [rewrite decode_minor_bits by lia; by replace (n <? 8) with true by lia|].
  destruct (Z.ltb_spec n 20).
  - rewrite decode_major_bits by lia. replace (n - 8 <? 12) with true by lia. cbn. f_equal. lia.
  - destruct (Z.ltb_spec n 32); [|by rewrite (testbit_high rdev 32 n) by lia].
    rewrite decode_minor_bits by lia. replace (n - 12 <? 8) with false by lia. replace (n - 12 <? 20) with true by lia.
    cbn. f_equal. lia.
Qed.

(** Device numbers survive the kernel's 32-bit encoding: encoding any pair of
    a 12-bit major and a 20-bit minor number fits 32 bits and decodes to the
    same pair, larger numbers are refused, and every 32-bit device number the
    kernel sends decodes to a pair that encodes back to it. *)
Theorem rdev_roundtrip major minor rdev :
  0 <= major -> 0 <= minor -> 0 <= rdev < 2 ^ 32 ->
  match encode_fuse_rdev major minor with
  | Ok r => 0 <= r < 2 ^ 32 /\ decode_fuse_rdev r = (major, minor)
  | _ => 4095 < major \/ 1048575 < minor
  end /\
  encode_fuse_rdev (decode_fuse_rdev rdev).1 (decode_fuse_rdev rdev).2 = Ok rdev.
Proof.
  intros Hma Hmi Hr. unfold encode_fuse_rdev. fold (rdev_word major minor).
  fold (rdev_word (decode_fuse_rdev rdev).1 (decode_fuse_rdev rdev).2). destruct (decode_range rdev) as [D1 D2]. split.
  - destruct (Z.ltb_spec 4095 major); [left; lia|]. destruct (Z.ltb_spec 1048575 minor); [right; lia|]. cbn [orb].
    split; [apply rdev_word_range; lia|apply decode_rdev_word; lia].
  - replace (4095 <? _) with false by lia. replace (1048575 <? _) with false by lia. cbn [orb]. by rewrite rdev_word_decode.
Qed.

Lemma rdev_roundtrip_witness :
  encode_fuse_rdev 8 1048575 = Ok 4293921023 /\ decode_fuse_rdev 4293921023 = (8, 1048575) /\ encode_fuse_rdev 4096 0 = Err EIO.
Proof.
  destruct (rdev_roundtrip 8 1048575 4293921023) as [H1 H2]; [lia|lia|lia|].
  replace (encode_fuse_rdev 8 1048575) with (Ok (E := Z) 4293921023) in H1 by (vm_compute; reflexivity).
  split; [vm_compute; reflexivity|]. split; [exact (proj2 H1)|]. vm_compute. reflexivity.
Defined.

Lemma stable_inode_bounds_witness :
  0 < 6530236465310691386 < 2 ^ 63 /\ stable_inode KFile "fod:file:7:1" 10 = Ok 6530236465310691386.
Proof.
  destruct (stable_inode_bounds KHardlink "fod:file:7:1" 20 6530236465310691386) as [H1 H2]; [lia|vm_compute; reflexivity|].
  split; [exact H1|]. apply H2; [vm_compute; discriminate|reflexivity].
Defined.
