(* ===== verification/FuseNamespace.v ===== *)
(** * The FUSE handlers of the namespace

    The handlers lookup, mkdir, mknod, symlink, link, unlink, rmdir and rename of
    src/rust_fuse/src/fs.rs: from an inode number and a name through the path
    tables (InodePaths.v) and the path lookups to the namespace transactions
    (NamespaceOps.v), and from their outcomes to an errno and the tables again. *)

From stdpp Require Import prelude list numbers gmap strings sorting relations.
From Stdlib Require Import ZArith Lia Ascii.
From S2P Require Import Prelude Text Errno Acl BlockStore StoreSafety WriteOwnership Namespace.
From S2P Require Import NamespaceOps NamespaceTree NamespaceSafety NamespaceRefine NamespaceHistory.
From S2P Require Import NamespaceLookup InodePaths.

#[local] Open Scope Z_scope.
Set Default Proof Using "Type".

(** ** Attributes *)

(** The fields of the attributes the handlers of this file use: the times, the
    size and the link count are left out. *)
Record ParsedAttrs := {
  pa_ino : Z; pa_kind : FileType; pa_perm : Z; pa_uid : Z; pa_gid : Z;
  pa_owner_kind : EntryKind; pa_owner_id : Z;
}.

(** The type of a file: what its row of [special_files] says, if it has one. *)
Definition special_kind (file_id : Z) (ns : NsDb) : outcome Z FileType :=
  match ns_special_files ns !! file_id with
  | None => Ok RegularFile
  | Some (special_type, major, minor) =>
      match file_type_from_special special_type with
      | None => Err EIO
      | Some kind => _ ← encode_fuse_rdev major minor; Ok kind
      end
  end.

Definition file_attrs (kind : EntryKind) (entry_id file_id : Z) (f : FileRow) (ns : NsDb) : outcome Z (option ParsedAttrs) :=
  file_type ← special_kind file_id ns;
  ino ← stable_inode kind (f_inode_seed f) entry_id;
  Ok (Some {| pa_ino := ino; pa_kind := file_type; pa_perm := f_mode f; pa_uid := f_uid f; pa_gid := f_gid f;
              pa_owner_kind := KFile; pa_owner_id := file_id |}).

Definition symlink_attrs (kind : EntryKind) (symlink_id : Z) (s : SymlinkRow) : outcome Z (option ParsedAttrs) :=
  if bool_decide (s_target s = EmptyString) then Err EIO
  else
    ino ← stable_inode kind (s_inode_seed s) symlink_id;
    Ok (Some {| pa_ino := ino; pa_kind := Symlink; pa_perm := 511; pa_uid := s_uid s; pa_gid := s_gid s;
                pa_owner_kind := KSymlink; pa_owner_id := symlink_id |}).

(** [fetch_entry_attrs_blob_by_id] with [parse_attrs_blob]. *)
Definition attrs_for_entry_id_from_repo (kind : EntryKind) (entry_id : Z) (is_root : bool) (ns : NsDb)
    : outcome Z (option ParsedAttrs) :=
  match kind with
  | KFile =>
      match db_files (ns_db ns) !! entry_id with
      | None => Ok None
      | Some f => file_attrs KFile entry_id entry_id f ns
      end
  | KHardlink =>
      match ns_hardlinks ns !! entry_id with
      | None => Ok None
      | Some h =>
          match db_files (ns_db ns) !! h_file h with
          | None => Ok None
          | Some f => file_attrs KHardlink entry_id (h_file h) f ns
          end
      end
  | KDir =>
      match ns_directories ns !! entry_id with
      | None => Ok None
      | Some d =>
          ino ← stable_inode KDir (d_inode_seed d) entry_id;
          Ok (Some {| pa_ino := if is_root then ROOT_INO else ino; pa_kind := Directory; pa_perm := d_mode d;
                      pa_uid := d_uid d; pa_gid := d_gid d; pa_owner_kind := KDir;
                      pa_owner_id := if is_root then 0 else entry_id |})
      end
  | KSymlink =>
      match ns_symlinks ns !! entry_id with
      | None => Ok None
      | Some s => symlink_attrs KSymlink entry_id s
      end
  | KSymlinkHardlink =>
      match ns_symlink_hardlinks ns !! entry_id with
      | None => Ok None
      | Some a =>
          match ns_symlinks ns !! sh_symlink a with
          | None => Ok None
          | Some s => symlink_attrs KSymlinkHardlink (sh_symlink a) s
          end
      end
  end.

(** The kind and number of the entry at a path. *)
Definition resolve_kind (path : text) (ns : NsDb) : outcome Z (option (EntryKind * Z)) :=
  match resolve_path path ns with
  | Ok rp => Ok (match rp_kind rp, rp_entry_id rp with Some kind, Some id => Some (kind, id) | _, _ => None end)
  | Err _ => Err EIO
  | Panic => Panic
  end.

Definition attrs_for_path_from_repo (path : text) (ns : NsDb) : outcome Z (option ParsedAttrs) :=
  entry ← resolve_kind path ns;
  match entry with
  | None => Ok None
  | Some (kind, entry_id) =>
      attrs_for_entry_id_from_repo kind entry_id (bool_decide (normalize_path path = [SLASH])) ns
  end.

(** [directory_entry_metadata_for_id_and_name], its kind and number. *)
Definition directory_entry_for_id_and_name (parent_id : option Z) (name : string) (ns : NsDb)
    : outcome Z (option (EntryKind * Z)) :=
  if bool_decide (parent_id = Some 0) then Err EIO
  else if has_nul name then Err EIO
  else
    let rows := filter (fun x => x.1.1.1 = name /\ ~ (x.1.1.2 = KDir /\ name = "/"%string)) (list_directory_entry_metadata_for_id parent_id ns) in
    match rows with
    | [] => Ok None
    | [(_, kind, entry_id, _)] => Ok (Some (kind, entry_id))
    | _ => Err EIO
    end.

(** The directory a request's parent inode stands for; the root has none. *)
Definition parent_entry_id_for_inode (ino : Z) (t : PathTables) (ns : NsDb) : outcome Z (option Z) :=
  if ino =? ROOT_INO then Ok None
  else
    path ← entry_path_for_ino ino t;
    attrs ← attrs_for_path_from_repo path ns;
    match attrs with
    | None => Err ENOENT
    | Some attrs =>
        if negb (pa_ino attrs =? ino) then Err ENOENT
        else if negb (bool_decide (pa_kind attrs = Directory) && bool_decide (pa_owner_kind attrs = KDir)) then Err ENOENT
        else if pa_owner_id attrs =? 0 then Err EIO
        else Ok (Some (pa_owner_id attrs))
    end.

(** The attributes of an inode number: the path it is known under must still
    lead to it. *)
Definition entry_attrs_for_ino (ino : Z) (t : PathTables) (ns : NsDb) : outcome Z (text * ParsedAttrs) :=
  path ← entry_path_for_ino ino t;
  attrs ← attrs_for_path_from_repo (normalize_path path) ns;
  match attrs with
  | None => Err ENOENT
  | Some attrs => if negb (pa_ino attrs =? ino) then Err ENOENT else Ok (path, attrs)
  end.

(** ** Requests *)

Record FuseConfig := { fc_read_only : bool; fc_acl_enabled : bool; fc_session_id : option Z }.

(** A request: who asks, and what the mount and the database draw for it: the
    request's number, the next handle number, the number of a new row, the clock
    readings of the transaction, whether its advisory locks are granted, and
    the order in which the hash map of paths is walked. *)
Record Request := {
  rq_subject : Actor; rq_id : Z; rq_next_handle : Z; rq_row : Z; rq_clk : nat -> Z; rq_locked : bool;
  rq_order : list (text * Z) -> list (text * Z);
}.

Definition actor_is_root (a : Actor) : bool := ac_uid a =? 0.

(** A handler's steps: what is committed stays when a later step fails. *)
Definition FuseState : Type := PathTables * NsDb.
Definition Fs (A : Type) : Type := FuseState -> outcome Z A * FuseState.
#[global] Instance fs_ret : MRet Fs := fun _ a st => (Ok a, st).
#[global] Instance fs_bind : MBind Fs := fun _ _ f m st =>
  match m st with
  | (Ok a, st) => f a st
  | (Err e, st) => (Err e, st)
  | (Panic, st) => (Panic, st)
  end.

Definition fs_err {A} (errno : Z) : Fs A := fun st => (Err errno, st).
Definition fs_lift {A} (o : outcome Z A) : Fs A := fun st => (o, st).
(** A read of the tables and the database. *)
Definition fs_read {A} (f : PathTables -> NsDb -> outcome Z A) : Fs A := fun st => (f st.1 st.2, st).
Definition fs_tables (f : PathTables -> PathTables) : Fs () := fun st => (Ok tt, (f st.1, st.2)).
(** A transaction, its error kept as a value. *)
Definition fs_repo {A} (op : NsDb -> outcome string A * NsDb) : Fs (outcome string A) := fun st =>
  let '(r, ns) := op st.2 in (Ok r, (st.1, ns)).
(** The answer of a transaction, or the errno of its error. *)
Definition mutation {A} (r : outcome string A) : Fs A :=
  match r with
  | Ok a => mret a
  | Err e => fs_err (namespace_mutation_errno e)
  | Panic => fs_lift Panic
  end.

Definition text_string (t : text) : string := String.string_of_list_ascii t.

Definition new_inode_seed (cfg : FuseConfig) (rq : Request) (object_type : string) : outcome Z string :=
  match fc_session_id cfg with
  | None => Err EIO
  | Some session_id => Ok ("fod:" ++ object_type ++ ":" ++ z_text session_id ++ ":" ++ z_text (rq_next_handle rq))%string
  end.

(** ** lookup *)

Definition S_ISUID : Z := 2048.
Definition S_ISGID : Z := 1024.

(** The parent's attributes must have its number, and the subject must be allowed
    to search it: what the ACL and mode say is the argument [permitted]. *)
Definition lookup_parent (permitted : bool) (parent : Z) (parent_id : option Z) (ns : NsDb) : outcome Z unit :=
  attrs ← (match parent_id with
           | Some directory_id => attrs_for_entry_id_from_repo KDir directory_id false ns
           | None => if parent =? ROOT_INO then attrs_for_path_from_repo [SLASH] ns else Ok None
           end);
  match attrs with
  | Some attrs => if pa_ino attrs =? parent then if permitted then Ok tt else Err EACCES else Err ENOENT
  | None => Err ENOENT
  end.

(** A negative reply is ENOENT to the caller, cached or not. *)
Definition fuse_lookup (permitted : bool) (parent : Z) (name : text) : Fs ParsedAttrs :=
  name ← fs_lift (validate_component_name name);
  parent_path ← fs_read (fun t _ => entry_path_for_ino parent t);
  parent_id ← fs_read (parent_entry_id_for_inode parent);
  _ ← fs_read (fun _ ns => lookup_parent permitted parent parent_id ns);
  let child_path := join_path parent_path name in
  entry ← fs_read (fun _ ns => directory_entry_for_id_and_name parent_id (text_string name) ns);
  match entry with
  | None => fs_err ENOENT
  | Some (kind, entry_id) =>
      attrs ← fs_read (fun _ ns => attrs_for_entry_id_from_repo kind entry_id false ns);
      match attrs with
      | None => fs_err ENOENT
      | Some attrs =>
          _ ← fs_tables (register_lookup_path child_path (pa_ino attrs));
          mret attrs
      end
  end.

(** ** Creating *)

(** The mode a new inode is asked for. *)
Definition requested_mode (cfg : FuseConfig) (a : Actor) (mode umask : Z) : Z :=
  let mode := if fc_acl_enabled cfg then mode else Z.land mode (Z.lnot umask) in
  if actor_is_root a then mode else Z.land mode (Z.lnot (Z.lor S_ISUID S_ISGID)).
(** The umask only reaches the repository with ACLs. *)
Definition repo_umask (cfg : FuseConfig) (umask : Z) : Z := if fc_acl_enabled cfg then umask else 0.

(** What the create handlers do after the commit: the new inode's attributes,
    its path, the reply. *)
Definition reply_entry (attrs_of : NsDb -> outcome Z (option ParsedAttrs)) (child_path : text) : Fs ParsedAttrs :=
  attrs ← fs_read (fun _ ns => attrs_of ns);
  match attrs with
  | None => fs_err EIO
  | Some attrs => _ ← fs_tables (register_lookup_path child_path (pa_ino attrs)); mret attrs
  end.

Definition writable (cfg : FuseConfig) : Fs () := if fc_read_only cfg then fs_err EROFS else mret tt.

Definition fuse_mkdir (cfg : FuseConfig) (rq : Request) (parent : Z) (name : text) (mode umask : Z) : Fs ParsedAttrs :=
  let a := rq_subject rq in
  _ ← writable cfg;
  name ← fs_lift (validate_component_name name);
  parent_path ← fs_read (fun t _ => entry_path_for_ino parent t);
  let child_path := join_path parent_path name in
  parent_id ← fs_read (parent_entry_id_for_inode parent);
  let mode := requested_mode cfg a mode umask in
  inode_seed ← fs_lift (new_inode_seed cfg rq "directory");
  r ← fs_repo (create_directory_internal (rq_row rq) parent_id (text_string name) mode (ac_uid a) (ac_gid a)
                 inode_seed (repo_umask cfg umask) (Some a) (fc_acl_enabled cfg) (ac_gid a, mode));
  directory_id ← mutation r;
  reply_entry (attrs_for_entry_id_from_repo KDir directory_id false) child_path.

(** [attrs_for_open_file_id]. *)
Definition attrs_for_open_file_id (file_id : Z) (ns : NsDb) : outcome Z (option ParsedAttrs) :=
  match db_files (ns_db ns) !! file_id with
  | None => Ok None
  | Some f => file_attrs KFile file_id file_id f ns
  end.

Definition S_IFMT : Z := 61440.
Definition S_IFREG : Z := 32768.
Definition S_IFIFO : Z := 4096.
Definition S_IFCHR : Z := 8192.
Definition S_IFBLK : Z := 24576.

(** The table's name for a kind of special file. *)
Definition special_file_kind (file_type : Z) : option string :=
  if file_type =? S_IFIFO then Some "fifo"%string
  else if file_type =? S_IFCHR then Some "char"%string
  else if file_type =? S_IFBLK then Some "block"%string
  else None.

Definition fuse_mknod (cfg : FuseConfig) (rq : Request) (parent : Z) (name : text) (mode umask rdev : Z) : Fs ParsedAttrs :=
  let a := rq_subject rq in
  _ ← writable cfg;
  name ← fs_lift (validate_component_name name);
  let file_type := Z.land mode S_IFMT in
  parent_path ← fs_read (fun t _ => entry_path_for_ino parent t);
  let child_path := join_path parent_path name in
  parent_id ← fs_read (parent_entry_id_for_inode parent);
  let mode := requested_mode cfg a (Z.land mode (Z.lnot S_IFMT)) umask in
  r ← (if file_type =? S_IFREG then
         inode_seed ← fs_lift (new_inode_seed cfg rq "file");
         fs_repo (create_file_internal (rq_row rq) parent_id (text_string name) mode (ac_uid a) (ac_gid a) inode_seed
                    (repo_umask cfg umask) (Some a) (fc_acl_enabled cfg) (ac_gid a, mode))
       else match special_file_kind file_type with
            | None => fs_err EINVAL
            | Some file_kind =>
                let '(rdev_major, rdev_minor) := decode_fuse_rdev rdev in
                inode_seed ← fs_lift (new_inode_seed cfg rq file_kind);
                fs_repo (create_special_file_internal file_kind rdev_major rdev_minor (rq_row rq) parent_id
                           (text_string name) mode (ac_uid a) (ac_gid a) inode_seed (repo_umask cfg umask) (Some a)
                           (fc_acl_enabled cfg) (ac_gid a, mode))
            end);
  file_id ← mutation r;
  reply_entry (attrs_for_open_file_id file_id) child_path.

Definition fuse_symlink (cfg : FuseConfig) (rq : Request) (parent : Z) (link_name target : text) : Fs ParsedAttrs :=
  let a := rq_subject rq in
  _ ← writable cfg;
  link_name ← fs_lift (validate_component_name link_name);
  target ← fs_lift (os_str_as_utf8 target);
  parent_path ← fs_read (fun t _ => entry_path_for_ino parent t);
  let child_path := join_path parent_path link_name in
  parent_id ← fs_read (parent_entry_id_for_inode parent);
  inode_seed ← fs_lift (new_inode_seed cfg rq "symlink");
  r ← fs_repo (create_symlink_internal (rq_row rq) parent_id (text_string link_name) (text_string target) (ac_uid a)
                 (ac_gid a) inode_seed (Some a) (fc_acl_enabled cfg) (ac_gid a));
  symlink_id ← mutation r;
  reply_entry (attrs_for_entry_id_from_repo KSymlink symlink_id false) child_path.

(** The inode behind a source entry of link(2). *)
Definition link_source (kind : EntryKind) (entry_id : Z) (ns : NsDb) : option (EntryKind * Z) :=
  match kind with
  | KFile => Some (KFile, entry_id)
  | KHardlink => pair KFile ∘ h_file <$> ns_hardlinks ns !! entry_id
  | KSymlink => Some (KSymlink, entry_id)
  | KSymlinkHardlink => pair KSymlink ∘ sh_symlink <$> ns_symlink_hardlinks ns !! entry_id
  | KDir => None
  end.

(** [rsplit('/').next()]. *)
Definition last_component (path : text) : text :=
  match rsplit_slash path with Some (_, name) => name | None => path end.

Definition fuse_link (cfg : FuseConfig) (rq : Request) (ino newparent : Z) (newname : text) : Fs ParsedAttrs :=
  let a := rq_subject rq in
  _ ← writable cfg;
  newname ← fs_lift (validate_component_name newname);
  source_path ← fs_read (fun t _ => entry_path_for_ino ino t);
  source_entry ← fs_read (fun _ ns => match resolve_path source_path ns with
                                      | Ok rp => Ok rp | Err _ => Err EIO | Panic => Panic end);
  '(entry_kind, entry_id, source_kind, source_id) ←
    fs_read (fun _ ns =>
      match rp_kind source_entry, rp_entry_id source_entry with
      | Some kind, Some id =>
          match link_source kind id ns with
          | Some (source_kind, source_id) => Ok (kind, id, source_kind, source_id)
          | None => Err ENOENT
          end
      | _, _ => Err ENOENT
      end);
  let source_name := last_component source_path in
  _ ← (if bool_decide (source_name = []) then fs_err ENOENT else mret tt);
  _ ← fs_read (fun _ ns =>
         attrs ← attrs_for_entry_id_from_repo source_kind source_id false ns;
         match attrs with
         | Some attrs => if pa_ino attrs =? ino then Ok tt else Err ENOENT
         | None => Err ENOENT
         end);
  new_parent_path ← fs_read (fun t _ => entry_path_for_ino newparent t);
  let child_path := join_path new_parent_path newname in
  new_parent_id ← fs_read (parent_entry_id_for_inode newparent);
  let binding := Some {| sb_kind := entry_kind; sb_entry_id := entry_id; sb_parent_id := rp_parent_id source_entry;
                         sb_name := text_string source_name |} in
  r ← fs_repo (if bool_decide (source_kind = KSymlink)
               then create_symlink_hardlink_internal (rq_row rq) source_id new_parent_id (text_string newname) (Some a)
                      binding (fc_acl_enabled cfg)
               else create_hardlink_internal (rq_row rq) source_id new_parent_id (text_string newname) (ac_uid a)
                      (ac_gid a) (Some a) binding (fc_acl_enabled cfg));
  _ ← mutation r;
  reply_entry (attrs_for_entry_id_from_repo source_kind source_id false) child_path.

(** ** Removing *)

Definition hidden_unlink_name (cfg : FuseConfig) (rq : Request) (file_id : Z) : string :=
  (".fod-unlinked-" ++ z_text (default 0 (fc_session_id cfg)) ++ "-" ++ z_text file_id ++ "-" ++ z_text (rq_id rq))%string.

(** The open handles of a deferred file follow it to its hidden name. *)
Definition rename_handles (file_id : Z) (old_path hidden_path : text) (t : PathTables) : PathTables :=
  set_handles ((fun h => if bool_decide (h.2 = Some file_id /\ h.1 = old_path) then (hidden_path, h.2) else h)
                 <$> pt_handles t) t.

Definition unlink_file_with_primary_authority (cfg : FuseConfig) (rq : Request) (file_id : Z) (parent_id : option Z)
    (parent_path old_path old_name : text) : Fs (outcome string FileUnlinkOutcome) :=
  let hidden_name := hidden_unlink_name cfg rq file_id in
  let a := rq_subject rq in
  r ← fs_repo (unlink_file_entry_internal file_id hidden_name parent_id (text_string old_name) (ac_uid a)
                 (Some (a, fc_acl_enabled cfg)) (rq_clk rq));
  match r with
  | Ok SourceChanged => mret (Err "FOD_UNLINK_SOURCE_CHANGED"%string)
  | Ok outcome =>
      _ ← fs_tables (remove_cached_path (rq_order rq) old_path);
      _ ← (match outcome with
           | Deferred => fs_tables (rename_handles file_id old_path (join_path parent_path (txt hidden_name)))
           | _ => mret tt
           end);
      mret (Ok outcome)
  | r => mret r
  end.

Definition fuse_unlink (cfg : FuseConfig) (rq : Request) (parent : Z) (name : text) : Fs () :=
  let a := rq_subject rq in
  _ ← writable cfg;
  name ← fs_lift (validate_component_name name);
  parent_path ← fs_read (fun t _ => entry_path_for_ino parent t);
  expected_parent_id ← fs_read (parent_entry_id_for_inode parent);
  let child_path := join_path parent_path name in
  resolved ← fs_read (fun _ ns => match resolve_path child_path ns with
                                  | Ok rp => Ok rp | Err _ => Err EIO | Panic => Panic end);
  let parent_id := rp_parent_id resolved in
  _ ← (if negb (bool_decide (parent_id = expected_parent_id)) then fs_err ENOENT
       else if negb (bool_decide (parent_path = [SLASH])) && bool_decide (parent_id = None) then fs_err ENOENT
       else mret tt);
  r ← (match rp_kind resolved with
       | Some KFile | Some KHardlink =>
           file_id ← fs_read (fun _ ns => match get_file_id child_path ns with
                                          | Ok (Some file_id) => Ok file_id
                                          | Ok None => Err ENOENT
                                          | Err _ => Err EIO
                                          | Panic => Panic end);
           r ← unlink_file_with_primary_authority cfg rq file_id parent_id parent_path child_path name;
           mret ((fun _ => tt) <$> r)
       | Some KSymlink =>
           match rp_entry_id resolved with
           | Some symlink_id => fs_repo (unlink_symlink_entry_internal symlink_id parent_id (text_string name) (ac_uid a)
                                           (Some (a, fc_acl_enabled cfg)))
           | None => mret (Err "missing symlink id"%string)
           end
       | Some KSymlinkHardlink =>
           match rp_entry_id resolved with
           | Some alias_id => fs_repo (unlink_symlink_hardlink_entry_for_subject_acl alias_id parent_id (text_string name) a
                                         (fc_acl_enabled cfg))
           | None => mret (Err "missing symlink hardlink id"%string)
           end
       | Some KDir => fs_err EISDIR
       | None => fs_err ENOENT
       end);
  _ ← mutation r;
  fs_tables (remove_cached_path (rq_order rq) child_path).

Definition fuse_rmdir (cfg : FuseConfig) (rq : Request) (parent : Z) (name : text) : Fs () :=
  let a := rq_subject rq in
  _ ← writable cfg;
  name ← fs_lift (validate_component_name name);
  parent_path ← fs_read (fun t _ => entry_path_for_ino parent t);
  expected_parent_id ← fs_read (parent_entry_id_for_inode parent);
  let child_path := join_path parent_path name in
  resolved ← fs_read (fun _ ns => match resolve_path child_path ns with
                                  | Ok rp => Ok rp | Err _ => Err EIO | Panic => Panic end);
  _ ← (if negb (bool_decide (rp_parent_id resolved = expected_parent_id)) then fs_err ENOENT else mret tt);
  directory_id ← (match rp_kind resolved, rp_entry_id resolved with
                  | Some KDir, Some id => mret id
                  | None, _ => fs_err ENOENT
                  | _, _ => fs_err ENOTDIR
                  end);
  r ← fs_repo (unlink_directory_entry_internal directory_id (rp_parent_id resolved) (text_string name) (ac_uid a)
                 (Some (a, fc_acl_enabled cfg)));
  out ← mutation r;
  match out with
  | Removed => fs_tables (fun t => remove_cached_handle_paths child_path (remove_cached_path (rq_order rq) child_path t))
  | NotEmpty => fs_err ENOTEMPTY
  | DirectorySourceChanged => fs_err ENOENT
  end.

(** ** Renaming *)

Definition RENAME_NOREPLACE : Z := 1.

(** The argument of the transaction for an entry, with the inode behind a link. *)
Definition rename_entry (kind : EntryKind) (entry_id : Z) (ns : NsDb) : outcome Z RenameNamespaceSource :=
  match kind with
  | KFile => Ok (RenameFile entry_id)
  | KHardlink =>
      match ns_hardlinks ns !! entry_id with
      | Some h => Ok (RenameHardlink entry_id (h_file h))
      | None => Err EIO
      end
  | KSymlink => Ok (RenameSymlink entry_id)
  | KSymlinkHardlink =>
      match ns_symlink_hardlinks ns !! entry_id with
      | Some al => Ok (RenameSymlinkHardlink entry_id (sh_symlink al))
      | None => Err ENOENT
      end
  | KDir => Ok (RenameDirectory entry_id)
  end.

(** The checks on the kinds, which RENAME_NOREPLACE skips for an existing target. *)
Definition rename_kind_checks (no_replace : bool) (old_path new_parent_path : text) (kind existing : option EntryKind)
    : outcome Z unit :=
  if negb no_replace || bool_decide (existing = None) then
    if bool_decide (kind = Some KDir) then
      if bool_decide (new_parent_path = old_path)
         || text_starts_with new_parent_path (trim_end_slashes old_path ++ [SLASH])
      then Err EINVAL
      else if bool_decide (existing <> None) && negb (bool_decide (existing = Some KDir)) then Err ENOTDIR
      else Ok tt
    else if bool_decide (existing = Some KDir) then Err EISDIR
    else Ok tt
  else Ok tt.

(** The kinds the handler hands to the transaction. *)
Definition rename_supported (kind : EntryKind) : bool :=
  match kind with KFile | KHardlink | KSymlink | KDir => true | KSymlinkHardlink => false end.

Definition rename_reply (rq : Request) (old_path new_path : text) (old_ino : Z) (replaced : bool)
    (out : RenameFileReplaceOutcome) : Fs () :=
  match out with
  | Applied =>
      _ ← (if replaced
           then fs_tables (fun t => remove_cached_handle_paths new_path (remove_cached_path (rq_order rq) new_path t))
           else mret tt);
      fs_tables (move_cached_path (rq_order rq) old_path new_path old_ino)
  | NoOpSameFile => mret tt
  | Busy => fs_err EBUSY
  | SourceMissing => fs_err ENOENT
  | TargetExists => fs_err EEXIST
  | InvalidDirectoryCycle => fs_err EINVAL
  | TargetNotEmpty => fs_err ENOTEMPTY
  end.

Definition fuse_rename (cfg : FuseConfig) (rq : Request) (parent : Z) (name : text) (newparent : Z) (newname : text)
    (flags : Z) : Fs () :=
  let a := rq_subject rq in
  if negb (Z.land flags (Z.lnot RENAME_NOREPLACE) =? 0) then fs_err EINVAL
  else
    let no_replace := negb (Z.land flags RENAME_NOREPLACE =? 0) in
    _ ← writable cfg;
    name ← fs_lift (validate_component_name name);
    newname ← fs_lift (validate_component_name newname);
    old_parent_path ← fs_read (fun t _ => entry_path_for_ino parent t);
    new_parent_path ← fs_read (fun t _ => entry_path_for_ino newparent t);
    let old_path := join_path old_parent_path name in
    let new_path := join_path new_parent_path newname in
    source_entry ← fs_read (fun _ ns => resolve_kind old_path ns);
    new_parent_id ← fs_read (parent_entry_id_for_inode newparent);
    if bool_decide (old_path = new_path) then if no_replace then fs_err EEXIST else mret tt
    else
      existing ← fs_read (fun _ ns => resolve_kind new_path ns);
      _ ← fs_lift (rename_kind_checks no_replace old_path new_parent_path (fst <$> source_entry) (fst <$> existing));
      match source_entry with
      | Some (kind, entry_id) =>
          if rename_supported kind && default true (rename_supported ∘ fst <$> existing) then
            old_parent_id ← fs_read (parent_entry_id_for_inode parent);
            source ← fs_read (fun _ ns => rename_entry kind entry_id ns);
            old_attrs ← fs_read (fun _ ns => attrs_for_entry_id_from_repo kind entry_id false ns);
            old_ino ← (match old_attrs with Some attrs => mret (pa_ino attrs) | None => fs_err ENOENT end);
            expected_target ← (match existing with
                               | None => mret None
                               | Some (kind, id) => t ← fs_read (fun _ ns => rename_entry kind id ns); mret (Some t)
                               end);
            r ← fs_repo (rename_namespace_replace_with_ownership_guard_internal source old_parent_id (text_string name)
                           new_parent_id (text_string newname) (if no_replace then None else expected_target) (ac_uid a)
                           no_replace (Some (a, fc_acl_enabled cfg)) (rq_locked rq) (rq_clk rq));
            out ← mutation r;
            rename_reply rq old_path new_path old_ino (bool_decide (is_Some expected_target)) out
          else fs_err EIO
      | None => fs_err EIO
      end.

(** ** What a reply means for the names *)

Inductive FuseCall : Type :=
  | CallMkdir (parent : Z) (name : text) (mode umask : Z)
  | CallMknod (parent : Z) (name : text) (mode umask rdev : Z)
  | CallSymlink (parent : Z) (name target : text)
  | CallLink (ino newparent : Z) (newname : text)
  | CallUnlink (parent : Z) (name : text)
  | CallRmdir (parent : Z) (name : text)
  | CallRename (parent : Z) (name : text) (newparent : Z) (newname : text) (flags : Z).

Definition fuse_call (cfg : FuseConfig) (rq : Request) (call : FuseCall) : Fs () :=
  match call with
  | CallMkdir parent name mode umask => _ ← fuse_mkdir cfg rq parent name mode umask; mret tt
  | CallMknod parent name mode umask rdev => _ ← fuse_mknod cfg rq parent name mode umask rdev; mret tt
  | CallSymlink parent name target => _ ← fuse_symlink cfg rq parent name target; mret tt
  | CallLink ino newparent newname => _ ← fuse_link cfg rq ino newparent newname; mret tt
  | CallUnlink parent name => fuse_unlink cfg rq parent name
  | CallRmdir parent name => fuse_rmdir cfg rq parent name
  | CallRename parent name newparent newname flags => fuse_rename cfg rq parent name newparent newname flags
  end.

(** The name a request means: its parent's directory as the tables and the
    database resolve it, and the component. *)
Definition request_name (t : PathTables) (ns : NsDb) (parent : Z) (nm : text) (k : name) : Prop :=
  exists p, parent_entry_id_for_inode parent t ns = Ok p /\ k = key_of p (text_string nm).

Definition is_dir (i : Inode) : bool := match i with IDir _ => true | _ => false end.

Definition inode_attrs (i : Inode) (ns : NsDb) : outcome Z (option ParsedAttrs) :=
  match i with
  | IFile id => attrs_for_entry_id_from_repo KFile id false ns
  | ISymlink id => attrs_for_entry_id_from_repo KSymlink id false ns
  | IDir id => attrs_for_entry_id_from_repo KDir id false ns
  end.

(** The effect of a successful call. *)
Definition fuse_effect (call : FuseCall) (t : PathTables) (ns : NsDb) (L' : Names) : Prop :=
  let L := names ns in
  match call with
  | CallMkdir parent nm _ _ => exists k id, request_name t ns parent nm k /\ create_effect k (IDir id) L L'
  | CallMknod parent nm _ _ _ => exists k id, request_name t ns parent nm k /\ create_effect k (IFile id) L L'
  | CallSymlink parent nm _ => exists k id, request_name t ns parent nm k /\ create_effect k (ISymlink id) L L'
  | CallLink ino newparent nm =>
      exists k i at_, request_name t ns newparent nm k /\ is_dir i = false /\
        inode_attrs i ns = Ok (Some at_) /\ pa_ino at_ = ino /\ create_effect k i L L'
  | CallUnlink parent nm =>
      exists k i, request_name t ns parent nm k /\ is_dir i = false /\ L k = Some i /\ removed k L L'
  | CallRmdir parent nm =>
      exists k d, request_name t ns parent nm k /\ L k = Some (IDir d) /\ (forall child, L (d, child) = None) /\ removed k L L'
  | CallRename parent nm newparent newnm flags =>
      unchanged L L' \/
      exists old new i, request_name t ns parent nm old /\ request_name t ns newparent newnm new /\
        L old = Some i /\ renamed old new i L L' /\
        forall j, L new = Some j -> Z.land flags RENAME_NOREPLACE = 0 /\ is_dir j = is_dir i
  end.

(** ** Running a handler *)

Lemma fs_bind_inv {A B} (m : Fs A) (k : A -> Fs B) st res st' : (m ≫= k) st = (res, st') ->
  (exists a st1, m st = (Ok a, st1) /\ k a st1 = (res, st')) \/ ((forall b, res <> Ok b) /\ (m st).2 = st').
Proof. unfold mbind, fs_bind. destruct (m st) as [[a|e|] st1]; intros H; [left; eauto|right; by injection H as <- <-..]. Qed.

(** Steps that only look. *)
Definition fs_pure {A} (m : Fs A) : Prop := forall st, (m st).2 = st.

Lemma pure_lift {A} (o : outcome Z A) : fs_pure (fs_lift o).
Proof. done. Qed.
Lemma pure_read {A} (f : PathTables -> NsDb -> outcome Z A) : fs_pure (fs_read f).
Proof. done. Qed.
Lemma pure_err {A} e : fs_pure (fs_err (A := A) e).
Proof. done. Qed.
Lemma pure_ret {A} (a : A) : fs_pure (mret a).
Proof. done. Qed.
Lemma pure_if {A} (b : bool) (m m' : Fs A) : fs_pure m -> fs_pure m' -> fs_pure (if b then m else m').
Proof. by destruct b. Qed.
Lemma pure_writable cfg : fs_pure (writable cfg).
Proof. unfold writable. by destruct (fc_read_only cfg). Qed.
Lemma pure_bind {A B} (m : Fs A) (k : A -> Fs B) : fs_pure m -> (forall a, fs_pure (k a)) -> fs_pure (m ≫= k).
Proof.
  intros Hm Hk st. unfold mbind, fs_bind. specialize (Hm st). destruct (m st) as [[a|e|] st1]; cbn in *; subst; [apply Hk|done..].
Qed.
Lemma pure_mutation {A} (r : outcome string A) : fs_pure (mutation r).
Proof. by destruct r. Qed.

Create HintDb fuse discriminated.
#[export] Hint Resolve pure_lift pure_read pure_err pure_ret pure_if pure_writable pure_bind pure_mutation : fuse.

Lemma pure_step {A B} (m : Fs A) (k : A -> Fs B) st res st' : fs_pure m -> (m ≫= k) st = (res, st') ->
  (exists a, (m st).1 = Ok a /\ k a st = (res, st')) \/ ((forall b, res <> Ok b) /\ st' = st).
Proof.
  intros Hm [(a & st1 & H1 & H2)|[Hr Hs]]%fs_bind_inv.
  - left. exists a. specialize (Hm st). rewrite H1 in *. cbn in Hm. subst. done.
  - right. by rewrite Hm in Hs.
Qed.

Lemma mbind_assoc {A B C} (m : Fs A) (f : A -> Fs B) (g : B -> Fs C) st : ((m ≫= f) ≫= g) st = (m ≫= fun a => f a ≫= g) st.
Proof. unfold mbind, fs_bind. by destruct (m st) as [[]]. Qed.

(** The claim about a handler's run. *)
Definition outcome_ok {A} (eff : Prop) (res : outcome Z A) (ns ns' : NsDb) : Prop :=
  ns_wf ns' /\ match res with Ok _ => eff | _ => unchanged (names ns) (names ns') end.

Lemma outcome_failed {A} eff (res : outcome Z A) ns : (forall b, res <> Ok b) -> ns_wf ns -> outcome_ok eff res ns ns.
Proof. intros Hr Hwf. split; [done|]. destruct res as [u| |]; [by destruct (Hr u)|by intros k..]. Qed.

(** The next step only looks: it fails with the names as they are, or goes on. *)
Tactic Notation "look" hyp(H) "as" ident(x) ident(Hx) :=
  apply pure_step in H; [|by auto 8 with fuse];
  destruct H as [(x & Hx & H)|[Hfailed ->]]; [|first [by apply outcome_failed|by split]].

(** A transaction whose error becomes the reply. *)
Lemma repo_mutation {A B} (f : outcome string A -> NsReply) op (g : NsDb -> outcome string A * NsDb) (k : A -> Fs B)
    t ns res st' eff :
  run_op op ns = prod_map f id (g ns) -> ns_wf ns ->
  (forall r L L', (forall a, r <> Ok a) -> posix_effect op (f r) L L' -> unchanged L L') ->
  (r ← fs_repo g; a ← mutation r; k a) (t, ns) = (res, st') ->
  (forall a ns1, g ns = (Ok a, ns1) -> ns_wf ns1 -> posix_effect op (f (Ok a)) (names ns) (names ns1) ->
     k a (t, ns1) = (res, st') -> outcome_ok eff res ns st'.2) ->
  outcome_ok eff res ns st'.2.
Proof.
  intros Hop Hwf Herr H Hk. destruct (g ns) as [r ns1] eqn:E. cbn in Hop. apply (run_op_ok op ns Hwf) in Hop as [Hw He].
  unfold mbind at 1, fs_bind at 1, fs_repo in H. cbn in H. rewrite E in H.
  destruct r as [a|e|]; [by apply (Hk a ns1)|..]; injection H as <- <-; (split; [done|]); (eapply Herr; [|exact He]; done).
Qed.

(** Reading attributes after the commit. *)
Lemma reply_entry_ok attrs_of path t ns at_ : attrs_of ns = Ok (Some at_) ->
  reply_entry attrs_of path (t, ns) = (Ok at_, (register_lookup_path path (pa_ino at_) t, ns)).
Proof. intros H. unfold reply_entry, mbind, fs_bind, fs_read. cbn. by rewrite H. Qed.

(** ** Seeds *)

Definition nonblank (seed : string) : Prop := trim (txt seed) <> [].

Lemma trim_start_char c s : is_whitespace c = false -> trim (c :: s) <> [].
Proof.
  intros Hc. unfold trim, trim_start. cbn [drop_while]. rewrite Hc. unfold trim_end. rewrite reverse_cons.
  assert (H : forall l, drop_while is_whitespace (l ++ [c]) <> []).
  { induction l as [|x l IH]; cbn; [by rewrite Hc|]. by destruct (is_whitespace x). }
  intros E. apply (H (reverse s)). apply (f_equal reverse) in E. by rewrite reverse_involutive in E.
Qed.

Lemma nonblank_fod s : nonblank (String "f"%char s).
Proof. by apply trim_start_char. Qed.

Lemma stable_inode_ok kind seed id : nonblank seed -> exists ino, stable_inode kind seed id = Ok ino.
Proof. intros H. unfold stable_inode. rewrite bool_decide_eq_false_2 by done. destruct (_ =? 0); eauto. Qed.

Lemma new_inode_seed_nonblank cfg rq ty seed : new_inode_seed cfg rq ty = Ok seed -> exists s, seed = String "f"%char s.
Proof. unfold new_inode_seed. destruct (fc_session_id cfg); [|done]. intros [= <-]. by eexists. Qed.

(** A stored seed that trims to one beginning with a letter is not blank. *)
Lemma trim_text_nonblank s t : trim_text s = String "f"%char t -> nonblank s.
Proof. unfold trim_text, nonblank. intros H E. by rewrite E in H. Qed.

(** ** mkdir *)

Lemma created_directory_attrs did p nm mode uid gid s umask a acl prior ns id ns1 :
  create_directory_internal did p nm mode uid gid (String "f"%char s) umask a acl prior ns = (Ok id, ns1) ->
  exists at_, attrs_for_entry_id_from_repo KDir id false ns1 = Ok (Some at_).
Proof.
  intros E. assert (H : exists d, ns_directories ns1 !! id = Some d /\ nonblank (d_inode_seed d)).
  { unfold create_directory_internal in E. destruct (has_nul nm); [done|]. destruct (has_nul _); [done|].
    apply run_create_cases in E as [(id' & [= <-] & H)|[-> Hc]].
    - apply nx_bind_Ok in H as ([[g m] ac] & ns0 & [_ ->]%nx_read_Ok & H). apply nx_bind_Ok in H as (u & ns0' & Hm & H).
      apply insert_row_Ok in H as (_ & _ & _ & -> & ->). eexists. split; [destruct ns0'; cbn; apply lookup_insert_eq|].
      apply nonblank_fod.
    - specialize (Hc id eq_refl). destruct (expected_attributes _ _) as [eg em] in Hc.
      destruct (head (rows_in directory_place p nm (ns_directories ns))) as [row|] eqn:Hh; [|done]. cbn in Hc.
      destruct (_ && _) eqn:Hb; [|done]. injection Hc as <-. apply rows_in_head in Hh as [Hl _]. exists row.2. split; [done|].
      rewrite !andb_true_iff in Hb. destruct Hb as [_ Hb%String.eqb_eq]. by eapply trim_text_nonblank. }
  destruct H as (d & Hd & Hs). unfold attrs_for_entry_id_from_repo. rewrite Hd.
  destruct (stable_inode_ok KDir (d_inode_seed d) id Hs) as [ino ->]. by eexists.
Qed.

Lemma utf8_id nm nm' : os_str_as_utf8 nm = Ok nm' -> nm' = nm.
Proof. unfold os_str_as_utf8. destruct (utf8_valid nm); naive_solver. Qed.
Lemma validate_id nm nm' : validate_component_name nm = Ok nm' -> nm' = nm.
Proof. unfold validate_component_name. destruct (255 <? _); [done|]. apply utf8_id. Qed.

(** ** mknod *)

(** The foreign key of [special_files]. *)
Definition specials_ok (ns : NsDb) : Prop := forall id, ns_files ns !! id = None -> ns_special_files ns !! id = None.

Lemma specials_ok_wf ns : ns_wf ns -> specials_ok ns.
Proof.
  intros Hwf id Hn. destruct (ns_special_files ns !! id) eqn:E; [|done].
  destruct (nw_specials _ Hwf id) as [x Hx]; [by eexists|]. by rewrite Hx in Hn.
Qed.

Definition valid_special (sp : option (string * Z * Z)) : Prop :=
  match sp with
  | None => True
  | Some (kd, ma, mi) => is_Some (file_type_from_special kd) /\ exists r, encode_fuse_rdev ma mi = Ok r
  end.

Lemma special_kind_ok id ns : valid_special (ns_special_files ns !! id) -> exists ty, special_kind id ns = Ok ty.
Proof.
  unfold special_kind, valid_special. destruct (ns_special_files ns !! id) as [[[kd ma] mi]|]; [|eauto].
  intros [[ty ->] [r ->]]. by eexists.
Qed.

Lemma insert_file_rows_seed fid mode uid gid seed db r db' : insert_file_rows fid mode uid gid seed db = Ok (r, db') ->
  f_inode_seed <$> db_files db' !! fid = Some seed.
Proof.
  unfold insert_file_rows. intros H. apply tx_bind_Ok in H as (oid & db1 & _ & H).
  unfold tx_get, tx_update, mbind, tx_bind in H. destruct (db_files db1 !! fid); [done|]. destruct (fid =? 0); [done|].
  injection H as _ <-. destruct db1. cbn. by rewrite lookup_insert_eq.
Qed.

(** The rows a file creation leaves. *)
Lemma create_file_rows fid p nm uid seed sp attributes ns id ns' : specials_ok ns ->
  create_file_body fid p nm uid seed sp attributes ns = Ok (id, ns') ->
  id = fid /\ f_inode_seed <$> db_files (ns_db ns') !! fid = Some (effective_file_inode_seed_on_conn seed ns) /\
  ns_special_files ns' !! fid = sp.
Proof.
  intros Hsp H. unfold create_file_body in H. apply nx_bind_Ok in H as ([[g m] acl] & ns0 & [_ ->]%nx_read_Ok & H).
  apply nx_bind_Ok in H as (u & ns1 & Hm & H).
  assert (ns1 = ns) as -> by (revert Hm; unfold check_mode; destruct (4095 <? m); [done|by intros [= _ <-]]).
  apply nx_bind_Ok in H as (x & ns1 & [= -> ->] & H). apply nx_bind_Ok in H as (o & ns2 & Hins & H). unfold nx_store in Hins.
  destruct (insert_file_rows _ _ _ _ _ _) as [[o' db1]| |] eqn:Hi; [|done..]. injection Hins as <- <-.
  apply insert_file_rows_seed in Hi. apply nx_bind_Ok in H as (id' & ns2 & Hrow & H).
  apply insert_row_Ok in Hrow as (Hn & _ & _ & -> & ->). apply nx_bind_Ok in H as (u2 & ns3 & Hs3 & H).
  apply nx_bind_Ok in H as (u3 & ns4 & Hacl & [= <- <-]). split; [done|].
  assert (H3 : db_files (ns_db ns3) = db_files db1 /\ ns_special_files ns3 !! fid = sp).
  { destruct ns1 as [d0 f0 d1 h0 s0 a0 sp0 o0 de0]. cbn in *. unfold store_special in Hs3. destruct sp as [[[kd ma] mi]|].
    - destruct (10 <? _); [done|]. injection Hs3 as _ <-. cbn. split; [done|]. apply lookup_insert_eq.
    - injection Hs3 as _ <-. cbn. split; [done|]. by apply Hsp. }
  destruct H3 as [Hd3 Hsp3]. unfold store_inherited_default_acl_on_conn in Hacl.
  destruct acl as [[ac df]|]; [|injection Hacl as _ <-; by rewrite Hd3].
  injection Hacl as _ <-. destruct ns3 as [[] ? ? ? ? ? ? ? ?]. cbn in *. subst. split; [|done].
  rewrite lookup_alter_eq. destruct (_ !! fid) as [[]|]; [|done]. by cbn in *.
Qed.

Lemma created_file_attrs sp fid p nm mode uid gid s umask a acl prior ns id ns1 : specials_ok ns -> valid_special sp ->
  create_file_with sp fid p nm mode uid gid (String "f"%char s) umask a acl prior ns = (Ok id, ns1) ->
  exists at_, attrs_for_open_file_id id ns1 = Ok (Some at_).
Proof.
  intros Hfk Hvs E.
  assert (H : exists f, db_files (ns_db ns1) !! id = Some f /\ nonblank (f_inode_seed f) /\ ns_special_files ns1 !! id = sp).
  { unfold create_file_with in E. destruct (has_nul nm); [done|]. destruct (has_nul _); [done|].
    apply run_create_cases in E as [(id' & [= <-] & H)|[-> Hc]].
    - apply create_file_rows in H as (-> & Hs & Hsp); [|done]. destruct (db_files (ns_db ns1) !! fid) as [f|]; [|done].
      injection Hs as Hs. exists f. split; [done|]. split; [|done]. rewrite Hs. unfold effective_file_inode_seed_on_conn.
      destruct (seed_users _ _); apply nonblank_fod.
    - specialize (Hc id eq_refl). unfold confirm_created_file in Hc.
      destruct (head _) as [row|]; [|done]. cbn in Hc. destruct (db_files (ns_db ns) !! row.1) as [f|] eqn:Hf; [|done]. cbn in Hc.
      destruct (_ && _) eqn:Hb; [|done]. injection Hc as <-. rewrite !andb_true_iff in Hb.
      destruct Hb as [[[[[Hsp%bool_decide_eq_true _] _] _] _] Hseed]. exists f. split; [done|]. split; [|done].
      unfold created_inode_seed_matches, trim_text in Hseed. intros Hblank. by rewrite Hblank in Hseed. }
  destruct H as (f & Hf & Hs & Hsp). unfold attrs_for_open_file_id, file_attrs. rewrite Hf.
  destruct (special_kind_ok id ns1) as [ty ->]; [by rewrite Hsp|]. cbn.
  destruct (stable_inode_ok KFile (f_inode_seed f) id Hs) as [ino ->]. by eexists.
Qed.

(** ** symlink *)

Lemma created_symlink_attrs sid p nm target uid gid s a acl prior ns id ns1 : target <> EmptyString ->
  create_symlink_internal sid p nm target uid gid (String "f"%char s) a acl prior ns = (Ok id, ns1) ->
  exists at_, attrs_for_entry_id_from_repo KSymlink id false ns1 = Ok (Some at_).
Proof.
  intros Ht E. assert (H : exists d, ns_symlinks ns1 !! id = Some d /\ nonblank (s_inode_seed d) /\ s_target d <> EmptyString).
  { unfold create_symlink_internal in E. do 3 (destruct (has_nul _); [done|]).
    apply run_create_cases in E as [(id' & [= <-] & H)|[-> Hc]].
    - apply nx_bind_Ok in H as ([[g m] ac] & ns0 & [_ ->]%nx_read_Ok & H).
      apply insert_row_Ok in H as (_ & _ & _ & -> & ->). eexists. split; [destruct ns; cbn; apply lookup_insert_eq|].
      split; [apply nonblank_fod|done].
    - specialize (Hc id eq_refl).
      destruct (head (rows_in symlink_place p nm (ns_symlinks ns))) as [row|] eqn:Hh; [|done]. cbn in Hc.
      destruct (_ && _) eqn:Hb; [|done]. injection Hc as <-. apply rows_in_head in Hh as [Hl _]. exists row.2. split; [done|].
      rewrite !andb_true_iff in Hb. destruct Hb as [[[Hb1%String.eqb_eq _] _] Hb%String.eqb_eq].
      split; [by eapply trim_text_nonblank|]. intros E. apply Ht. rewrite <- Hb1, E. by vm_compute. }
  destruct H as (d & Hd & Hs & Htg). unfold attrs_for_entry_id_from_repo, symlink_attrs. rewrite Hd, bool_decide_eq_false_2 by done.
  destruct (stable_inode_ok KSymlink (s_inode_seed d) id Hs) as [ino ->]. by eexists.
Qed.

(** ** link *)

(** The new name leaves the attributes of the inode alone. *)
Lemma linked_file_attrs hid src p nm uid gid a b acl ns id ns1 i :
  create_hardlink_internal hid src p nm uid gid a b acl ns = (Ok id, ns1) -> inode_attrs i ns1 = inode_attrs i ns.
Proof.
  unfold create_hardlink_internal. destruct (name_refused nm b); [done|].
  intros [(id' & _ & H)|[-> _]]%run_create_cases; [|done]. unfold create_hardlink_body in H. revert H.
  destruct (negb _); [done|]. destruct (match b with Some _ => _ | None => false end); [done|]. case_bool_decide as Hb; [done|].
  intros (u & ns2 & [_ ->]%nx_read_Ok & H)%nx_bind_Ok. apply nx_bind_Ok in H as (u2 & ns2 & [_ ->]%nx_read_Ok & H).
  apply insert_row_Ok in H as (_ & _ & _ & _ & ->). by destruct ns, i.
Qed.

Lemma linked_symlink_attrs aid sid p nm a b acl ns id ns1 i :
  create_symlink_hardlink_internal aid sid p nm a b acl ns = (Ok id, ns1) -> inode_attrs i ns1 = inode_attrs i ns.
Proof.
  unfold create_symlink_hardlink_internal. destruct (name_refused nm b); [done|].
  intros [(id' & _ & H)|[-> _]]%run_create_cases; [|done]. unfold create_symlink_hardlink_body in H. revert H.
  case_bool_decide as Hb; [done|]. destruct (match b with Some _ => _ | None => false end); [done|].
  intros (u & ns2 & [_ ->]%nx_read_Ok & H)%nx_bind_Ok. apply nx_bind_Ok in H as (u2 & ns2 & [_ ->]%nx_read_Ok & H).
  apply insert_row_Ok in H as (_ & _ & _ & _ & ->). by destruct ns, i.
Qed.

Lemma link_source_kind kind id ns k' id' : link_source kind id ns = Some (k', id') -> k' = KFile \/ k' = KSymlink.
Proof. destruct kind; cbn; try (intros [= <- <-]; auto); [|..]; destruct (_ !! _); cbn; intros [=]; subst; auto. Qed.

Section handlers.
Context (cfg : FuseConfig) (rq : Request) (t : PathTables) (ns : NsDb) (Hwf : ns_wf ns).

Lemma mkdir_ok parent nm mode umask res st' :
  fuse_mkdir cfg rq parent nm mode umask (t, ns) = (res, st') ->
  outcome_ok (fuse_effect (CallMkdir parent nm mode umask) t ns (names st'.2)) res ns st'.2.
Proof using Hwf.
  intros H. unfold fuse_mkdir in H. look H as u Hu. look H as nm' Hnm. look H as pp Hpp. look H as pid Hpid. look H as seed Hseed.
  apply new_inode_seed_nonblank in Hseed as [s ->].
  apply validate_id in Hnm as ->.
  eapply (repo_mutation RId (OpCreateDirectory _ _ _ _ _ _ _ _ _ _ _)) in H; [exact H|reflexivity|done|by intros [x| |] L L' Hr; [destruct (Hr x)|..]|].
  intros id ns1 E Hw He Hk. destruct (created_directory_attrs _ _ _ _ _ _ _ _ _ _ _ _ _ _ E) as [at_ Hat].
  rewrite (reply_entry_ok _ _ _ _ at_) in Hk by done. injection Hk as <- <-. split; [done|].
  exists (key_of pid (text_string nm)), id. split; [by exists pid|done].
Qed.

Lemma mknod_ok parent nm mode umask rdev res st' :
  fuse_mknod cfg rq parent nm mode umask rdev (t, ns) = (res, st') ->
  outcome_ok (fuse_effect (CallMknod parent nm mode umask rdev) t ns (names st'.2)) res ns st'.2.
Proof using Hwf.
  intros H. pose proof (specials_ok_wf ns Hwf) as Hfk. unfold fuse_mknod in H. look H as u Hu. look H as nm' Hnm. look H as pp Hpp. look H as pid Hpid.
  apply validate_id in Hnm as ->.
  assert (Hdone : forall sp seed, valid_special sp -> (exists s, seed = String "f"%char s) ->
    forall mode' um, (r ← fs_repo (create_file_with sp (rq_row rq) pid (text_string nm) mode' (ac_uid (rq_subject rq))
        (ac_gid (rq_subject rq)) seed um (Some (rq_subject rq)) (fc_acl_enabled cfg) (ac_gid (rq_subject rq), mode'));
      file_id ← mutation r; reply_entry (attrs_for_open_file_id file_id) (join_path pp nm)) (t, ns) = (res, st') ->
    outcome_ok (fuse_effect (CallMknod parent nm mode umask rdev) t ns (names st'.2)) res ns st'.2).
  { intros sp seed Hvs [s ->] mode' um E.
    eapply (repo_mutation RId (OpCreateFile sp _ _ _ _ _ _ _ _ _ _ _)) in E; [exact E|reflexivity|done|by intros [x| |] L L' Hr; [destruct (Hr x)|..]|].
    intros id ns1 Ec Hw He Hk. destruct (created_file_attrs _ _ _ _ _ _ _ _ _ _ _ _ _ _ _ Hfk Hvs Ec) as [at_ Hat].
    rewrite (reply_entry_ok _ _ _ _ at_) in Hk by done. injection Hk as <- <-. split; [done|].
    exists (key_of pid (text_string nm)), id. split; [by exists pid|done]. }
  destruct (Z.land mode S_IFMT =? S_IFREG).
  - rewrite (mbind_assoc (fs_lift _)) in H. look H as seed Hseed. apply new_inode_seed_nonblank in Hseed.
    by eapply (Hdone None).
  - destruct (special_file_kind (Z.land mode S_IFMT)) as [kd|] eqn:Hkd; [|by injection H as <- <-; apply outcome_failed].
    destruct (decode_fuse_rdev rdev) as [ma mi] eqn:Hrd.
    rewrite (mbind_assoc (fs_lift _)) in H. look H as seed Hseed. apply new_inode_seed_nonblank in Hseed.
    assert (Hkind : has_nul kd = false /\ is_Some (file_type_from_special kd)).
    { unfold special_file_kind in Hkd. repeat case_match; try done; injection Hkd as <-; vm_compute; eauto. }
    destruct Hkind as [Hnul Hty]. unfold create_special_file_internal in H. rewrite Hnul in H.
    eapply (Hdone (Some (kd, ma, mi))); [|done|exact H]. split; [done|].
    destruct (decode_range rdev) as [D1 D2]. rewrite Hrd in D1, D2. cbn in D1, D2. unfold encode_fuse_rdev.
    replace (4095 <? ma) with false by lia. replace (1048575 <? mi) with false by lia. by eexists.
Qed.

Lemma symlink_ok parent nm target res st' : target <> [] ->
  fuse_symlink cfg rq parent nm target (t, ns) = (res, st') ->
  outcome_ok (fuse_effect (CallSymlink parent nm target) t ns (names st'.2)) res ns st'.2.
Proof using Hwf.
  intros Ht H. unfold fuse_symlink in H. look H as u Hu. look H as nm' Hnm. look H as tg Htg. look H as pp Hpp. look H as pid Hpid.
  look H as seed Hseed. apply validate_id in Hnm as ->. apply utf8_id in Htg as ->.
  apply new_inode_seed_nonblank in Hseed as [s ->].
  eapply (repo_mutation RId (OpCreateSymlink _ _ _ _ _ _ _ _ _ _)) in H; [exact H|reflexivity|done|by intros [x| |] L L' Hr; [destruct (Hr x)|..]|].
  intros id ns1 E Hw He Hk.
  assert (Htext : text_string target <> EmptyString) by (by destruct target).
  destruct (created_symlink_attrs _ _ _ _ _ _ _ _ _ _ _ _ _ Htext E) as [at_ Hat].
  rewrite (reply_entry_ok _ _ _ _ at_) in Hk by done. injection Hk as <- <-. split; [done|].
  exists (key_of pid (text_string nm)), id. split; [by exists pid|done].
Qed.

Lemma link_ok ino newparent nm res st' :
  fuse_link cfg rq ino newparent nm (t, ns) = (res, st') ->
  outcome_ok (fuse_effect (CallLink ino newparent nm) t ns (names st'.2)) res ns st'.2.
Proof using Hwf.
  intros H. unfold fuse_link in H. look H as u Hu. look H as nm' Hnm. look H as sp Hsp. look H as se Hse.
  look H as src Hsrc. destruct src as [[[ek eid] sk] sid]. look H as u1 Hne. look H as u2 Hat. look H as pp Hpp. look H as pid Hpid.
  apply validate_id in Hnm as ->. cbn in Hsrc, Hat.
  assert (Hk : sk = KFile \/ sk = KSymlink).
  { destruct (rp_kind se) as [k0|]; [|done]. destruct (rp_entry_id se) as [i0|]; [|done].
    destruct (link_source k0 i0 ns) as [[]|] eqn:El; [|done]. injection Hsrc as -> -> -> ->. by eapply link_source_kind. }
  destruct (attrs_for_entry_id_from_repo sk sid false ns) as [[at_|]| |] eqn:Ha; try done. cbn in Hat.
  destruct (Z.eqb_spec (pa_ino at_) ino); [|done].
  destruct Hk as [-> | ->]; cbn [bool_decide decide_rel] in H.
  - eapply (repo_mutation RId (OpLinkFile _ _ _ _ _ _ _ _ _)) in H; [exact H|reflexivity|done|by intros [x| |] L L' Hr; [destruct (Hr x)|..]|].
    intros id ns1 E Hw He Hk.
    assert (Hi : attrs_for_entry_id_from_repo KFile sid false ns1 = Ok (Some at_))
      by (rewrite <- Ha; exact (linked_file_attrs _ _ _ _ _ _ _ _ _ _ _ _ (IFile sid) E)).
    rewrite (reply_entry_ok _ _ _ _ at_) in Hk by done. injection Hk as <- <-. split; [done|].
    exists (key_of pid (text_string nm)), (IFile sid), at_. split; [by exists pid|]. by split_and!.
  - eapply (repo_mutation RId (OpLinkSymlink _ _ _ _ _ _ _)) in H; [exact H|reflexivity|done|by intros [x| |] L L' Hr; [destruct (Hr x)|..]|].
    intros id ns1 E Hw He Hk.
    assert (Hi : attrs_for_entry_id_from_repo KSymlink sid false ns1 = Ok (Some at_))
      by (rewrite <- Ha; exact (linked_symlink_attrs _ _ _ _ _ _ _ _ _ _ (ISymlink sid) E)).
    rewrite (reply_entry_ok _ _ _ _ at_) in Hk by done. injection Hk as <- <-. split; [done|].
    exists (key_of pid (text_string nm)), (ISymlink sid), at_. split; [by exists pid|]. by split_and!.
Qed.

Lemma fuse_rmdir_ok parent nm res st' :
  fuse_rmdir cfg rq parent nm (t, ns) = (res, st') ->
  outcome_ok (fuse_effect (CallRmdir parent nm) t ns (names st'.2)) res ns st'.2.
Proof using Hwf.
  intros H. unfold fuse_rmdir in H. look H as u Hu. look H as nm' Hnm. look H as pp Hpp. look H as pid Hpid. look H as rp Hrp.
  look H as u1 Hpar. apply validate_id in Hnm as ->.
  assert (Hp : rp_parent_id rp = pid) by (revert Hpar; by case_bool_decide).
  assert (Hpure : fs_pure (match rp_kind rp, rp_entry_id rp with
                  | Some KDir, Some id => mret id | None, _ => fs_err ENOENT | _, _ => fs_err ENOTDIR end : Fs Z))
    by (destruct (rp_kind rp) as [[]|], (rp_entry_id rp); done).
  apply pure_step in H; [|done]. destruct H as [(did & Hdid & H)|[Hfailed ->]]; [|by apply outcome_failed].
  eapply (repo_mutation RRmdir (OpRmdir _ _ _ _ _)) in H; [exact H|reflexivity|done|by intros [x| |] L L' Hr; [destruct (Hr x)|..]|].
  intros [] ns1 E Hw He Hk; cbn in Hk; injection Hk as <- <-; (split; [done|]); [|done..].
  rewrite Hp in He. destruct He as (Hb & Hch & Hr).
  exists (key_of pid (text_string nm)), did. split; [by exists pid|]. by split_and!.
Qed.

(** A transaction whose reply is followed by work on the tables only. *)
Lemma unlink_reply (r : outcome string unit) ns1 order path res st' eff :
  ns_wf ns1 -> match r with Ok _ => eff | _ => unchanged (names ns) (names ns1) end ->
  forall t1, (_ ← mutation r; fs_tables (remove_cached_path order path)) (t1, ns1) = (res, st') ->
  outcome_ok eff res ns st'.2.
Proof. intros Hw Hr t1 H. destruct r; injection H as <- <-; by split. Qed.

Lemma unlink_file_run file_id pid pp op on res st1 :
  unlink_file_with_primary_authority cfg rq file_id pid pp op on (t, ns) = (res, st1) ->
  let a := rq_subject rq in
  exists r0, unlink_file_entry_internal file_id (hidden_unlink_name cfg rq file_id) pid (text_string on) (ac_uid a)
               (Some (a, fc_acl_enabled cfg)) (rq_clk rq) ns = (r0, st1.2) /\
    res = Ok (match r0 with Ok SourceChanged => Err "FOD_UNLINK_SOURCE_CHANGED"%string | r => r end).
Proof.
  unfold unlink_file_with_primary_authority. unfold mbind at 1, fs_bind at 1, fs_repo. cbn.
  destruct (unlink_file_entry_internal _ _ _ _ _ _ _ ns) as [r0 ns1]. intros H. exists r0.
  destruct r0 as [[]| |]; injection H as <- <-; done.
Qed.

Definition unlink_claim (parent : Z) (nm : text) (res : outcome Z ()) (st' : FuseState) : Prop :=
  outcome_ok (fuse_effect (CallUnlink parent nm) t ns (names st'.2)) res ns st'.2.

Lemma unlink_done parent nm pid op r0 (r : outcome string ()) ns1 t1 i order path res st' :
  parent_entry_id_for_inode parent t ns = Ok pid -> is_dir i = false -> run_op op ns = (r0, ns1) ->
  (posix_effect op r0 (names ns) (names ns1) ->
    match r with
    | Ok _ => names ns (key_of pid (text_string nm)) = Some i /\ removed (key_of pid (text_string nm)) (names ns) (names ns1)
    | _ => unchanged (names ns) (names ns1) end) ->
  (_ ← mutation r; fs_tables (remove_cached_path order path)) (t1, ns1) = (res, st') ->
  unlink_claim parent nm res st'.
Proof using Hwf.
  intros Hp Hi Hop Hr E. apply run_op_ok in Hop as [Hw He]; [|done]. specialize (Hr He).
  assert (st'.2 = ns1) as Hst by (by destruct r; injection E as <- <-).
  eapply unlink_reply; [exact Hw| |exact E]. rewrite Hst. destruct r; [|done..].
  exists (key_of pid (text_string nm)), i. split; [by exists pid|]. by destruct Hr.
Qed.

Lemma unlink_file_branch parent nm pid pp order path res st' : parent_entry_id_for_inode parent t ns = Ok pid ->
  (r ← (file_id ← fs_read (fun _ ns => match get_file_id path ns with
                                       | Ok (Some file_id) => Ok file_id
                                       | Ok None => Err ENOENT
                                       | Err _ => Err EIO
                                       | Panic => Panic end);
        r ← unlink_file_with_primary_authority cfg rq file_id pid pp path nm;
        mret ((fun _ => tt) <$> r));
   _ ← mutation r; fs_tables (remove_cached_path order path)) (t, ns) = (res, st') ->
  unlink_claim parent nm res st'.
Proof using Hwf.
  intros Hpid H. rewrite (mbind_assoc (fs_read _)) in H. look H as fid Hfid. rewrite mbind_assoc in H.
  unfold mbind at 1, fs_bind at 1 in H.
  destruct (unlink_file_with_primary_authority _ _ _ _ _ _ _ _) as [r1 st1] eqn:E.
  apply unlink_file_run in E as (r0 & E & ->). destruct st1 as [t1 ns1]. cbn in E.
  set (op := OpUnlinkFile fid (hidden_unlink_name cfg rq fid) pid (text_string nm) (ac_uid (rq_subject rq))
      (Some (rq_subject rq, fc_acl_enabled cfg)) (rq_clk rq)).
  eapply (unlink_done _ _ _ op (RUnlink r0) _ ns1 t1 (IFile fid)); [done|done|cbn; by rewrite E| |exact H].
  cbn [posix_effect op]. by destruct r0 as [[]| |].
Qed.

Lemma fuse_unlink_ok parent nm res st' :
  fuse_unlink cfg rq parent nm (t, ns) = (res, st') -> unlink_claim parent nm res st'.
Proof using Hwf.
  intros H. unfold fuse_unlink in H. look H as u Hu. look H as nm' Hnm. look H as pp Hpp. look H as pid Hpid. look H as rp Hrp.
  look H as u1 Hpar. apply validate_id in Hnm as ->.
  assert (Hp : rp_parent_id rp = pid) by (revert Hpar; by case_bool_decide). cbn zeta in H. rewrite Hp in H.
  destruct (rp_kind rp) as [[]|]; [by eapply unlink_file_branch..| | | |]; [| |by injection H as <- <-; apply outcome_failed..].
  - destruct (rp_entry_id rp) as [sid|]; [|by injection H as <- <-; apply outcome_failed].
    unfold mbind at 1, fs_bind at 1, fs_repo in H. cbn [snd] in H.
    destruct (unlink_symlink_entry_internal _ _ _ _ _ ns) as [r1 ns1] eqn:E.
    eapply (unlink_done _ _ _ (OpUnlinkSymlink sid pid _ _ _) (RUnit r1) _ ns1 _ (ISymlink sid));
      [done|done|cbn; by rewrite E| |exact H]. by destruct r1 as [[]| |].
  - destruct (rp_entry_id rp) as [aid|]; [|by injection H as <- <-; apply outcome_failed].
    unfold mbind at 1, fs_bind at 1, fs_repo in H. cbn [snd] in H.
    destruct (unlink_symlink_hardlink_entry_for_subject_acl _ _ _ _ _ ns) as [r1 ns1] eqn:E.
    assert (Hop : run_op (OpUnlinkAlias aid pid (text_string nm) (rq_subject rq) (fc_acl_enabled cfg)) ns = (RUnit r1, ns1))
      by (cbn; by rewrite E).
    pose proof (run_op_ok _ _ Hwf _ _ Hop) as [_ He].
    assert (exists i, is_dir i = false /\ match r1 with
      | Ok _ => names ns (key_of pid (text_string nm)) = Some i /\ removed (key_of pid (text_string nm)) (names ns) (names ns1)
      | _ => unchanged (names ns) (names ns1) end) as (i & Hi & Hr).
    { destruct r1 as [[]| |]; [|by exists (IFile 0)..]. destruct He as [[sid Hs] Hrm]. by exists (ISymlink sid). }
    by eapply (unlink_done _ _ _ _ (RUnit r1)).
Qed.

Lemma rename_entry_dir kind id e : rename_entry kind id ns = Ok e -> is_dir (source_inode e) = bool_decide (kind = KDir).
Proof. unfold rename_entry. repeat case_match; intros [= <-]; done. Qed.

(** A rename that replaces has been checked: no flag against it, and a directory
    takes the place of a directory only. *)
Lemma rename_kinds no_replace op npp (kind ekind : EntryKind) :
  rename_kind_checks no_replace op npp (Some kind) (Some ekind) = Ok tt -> no_replace = false ->
  bool_decide (ekind = KDir) = bool_decide (kind = KDir).
Proof.
  unfold rename_kind_checks. intros H ->. cbn [negb orb] in H. destruct kind, ekind; try done; cbn in H; by destruct (_ || _) in H.
Qed.

Lemma rename_reply_names rq' op np ino replaced out st : (rename_reply rq' op np ino replaced out st).2.2 = st.2.
Proof. by destruct out, replaced. Qed.

Lemma rename_reply_applied rq' op np ino replaced st : (rename_reply rq' op np ino replaced Applied st).1 = Ok tt.
Proof. by destruct replaced. Qed.

Lemma fuse_rename_ok parent nm newparent newnm flags res st' :
  fuse_rename cfg rq parent nm newparent newnm flags (t, ns) = (res, st') ->
  outcome_ok (fuse_effect (CallRename parent nm newparent newnm flags) t ns (names st'.2)) res ns st'.2.
Proof using Hwf.
  intros H. unfold fuse_rename in H. destruct (negb (_ =? 0)); [by injection H as <- <-; apply outcome_failed|].
  look H as u Hu. look H as nm' Hnm. look H as nn' Hnn. look H as opp Hopp. look H as npp Hnpp. look H as src Hsrc.
  look H as npid Hnpid. apply validate_id in Hnm as ->, Hnn as ->.
  case_bool_decide as Hsame. { destruct (negb _); injection H as <- <-; [by apply outcome_failed|]. split; [done|]. by left. }
  look H as ex Hex. look H as u1 Hkinds. destruct src as [[kind eid]|]; [|by injection H as <- <-; apply outcome_failed].
  destruct (_ && _); [|by injection H as <- <-; apply outcome_failed].
  look H as opid Hopid. look H as source Hsource. look H as oat Hoat.
  assert (Hpure : fs_pure (match oat with Some attrs => mret (pa_ino attrs) | None => fs_err ENOENT end : Fs Z)) by by destruct oat.
  apply pure_step in H; [|done]. destruct H as [(oino & Hoino & H)|[Hfailed ->]]; [|by apply outcome_failed].
  assert (Hpure' : fs_pure (match ex with
      | None => mret None
      | Some (kind, id) => t ← fs_read (fun _ ns => rename_entry kind id ns); mret (Some t)
      end : Fs (option RenameNamespaceTarget))) by (destruct ex as [[]|]; auto with fuse).
  apply pure_step in H; [|done]. destruct H as [(target & Htarget & H)|[Hfailed ->]]; [|by apply outcome_failed].
  set (nr := negb (Z.land flags RENAME_NOREPLACE =? 0)) in *.
  eapply (repo_mutation RRename (OpRename _ _ _ _ _ _ _ _ _ _ _)) in H;
    [exact H|reflexivity|done|by intros [x| |] L L' Hr; [destruct (Hr x)|..]|].
  intros out ns1 E Hw He Hk.
  pose proof (rename_reply_names rq (join_path opp nm) (join_path npp newnm) oino (bool_decide (is_Some target)) out (t, ns1)) as Hst.
  rewrite Hk in Hst. cbn in Hst. rewrite Hst. split; [done|].
  assert (out = Applied \/ out <> Applied) as [-> |Hout] by (destruct out; auto).
  2: { assert (unchanged (names ns) (names ns1)) by by destruct out. destruct res; [by left|done..]. }
  apply (f_equal fst) in Hk. rewrite rename_reply_applied in Hk. cbn in Hk. subst res.
  destruct He as [[He _]|(Hold & Hnew & Hmoved)]; [by left|]. right.
  exists (key_of opid (text_string nm)), (key_of npid (text_string newnm)), (source_inode source).
  split; [by exists opid|]. split; [by exists npid|]. split; [done|]. split; [done|].
  intros j Hj. rewrite Hnew in Hj. destruct nr eqn:Hnr; [done|]. destruct target as [tg|]; [|done]. injection Hj as <-.
  split; [unfold nr in Hnr; by destruct (Z.eqb_spec (Z.land flags RENAME_NOREPLACE) 0)|].
  destruct ex as [[ek ei]|]; [|done]. unfold mbind, fs_bind, fs_read in Htarget. cbn [fst snd] in Htarget.
  destruct (rename_entry ek ei ns) as [e| |] eqn:Ee; [|done..].
  injection Htarget as ->. rewrite (rename_entry_dir _ _ _ Ee), (rename_entry_dir _ _ _ Hsource). destruct u1.
  eapply rename_kinds; [exact Hkinds|done].
Qed.
End handlers.

(** A handler that answers with attributes, as a call. *)
Lemma call_of {A} (m : Fs A) st res st' : (_ ← m; mret tt) st = (res, st') ->
  exists r, m st = (r, st') /\ res = ((fun _ => tt) <$> r).
Proof. unfold mbind, fs_bind. destruct (m st) as [[a|e|] st1]; intros [= <- <-]; by eexists. Qed.

Lemma outcome_ok_map {A} eff (r : outcome Z A) ns ns' : outcome_ok eff r ns ns' -> outcome_ok eff ((fun _ => tt) <$> r) ns ns'.
Proof. by destruct r. Qed.

(** The kernel never asks for a symlink without a target. *)
Definition call_valid (call : FuseCall) : Prop :=
  match call with CallSymlink _ _ target => target <> [] | _ => True end.

Lemma fuse_call_ok cfg rq call t ns res st' :
  ns_wf ns -> call_valid call -> fuse_call cfg rq call (t, ns) = (res, st') ->
  outcome_ok (fuse_effect call t ns (names st'.2)) res ns st'.2.
Proof.
  intros Hwf Hv H. destruct call; cbn [fuse_call] in H; try (apply call_of in H as (r & H & ->); apply outcome_ok_map).
  - by eapply mkdir_ok.
  - by eapply mknod_ok.
  - by eapply symlink_ok.
  - by eapply link_ok.
  - by eapply fuse_unlink_ok.
  - by eapply fuse_rmdir_ok.
  - by eapply fuse_rename_ok.
Qed.


(** ** A mount *)

Definition sample_config : FuseConfig := {| fc_read_only := false; fc_acl_enabled := true; fc_session_id := Some 7 |}.
Definition sample_request (row : Z) : Request :=
  {| rq_subject := root_actor; rq_id := row; rq_next_handle := row; rq_row := row; rq_clk := fun _ => 0; rq_locked := true;
     rq_order := id |}.

(** mkdir /d; mkdir /e, on a fresh file system. *)
Definition sample_mount : FuseState :=
  (fuse_call sample_config (sample_request 6) (CallMkdir ROOT_INO (txt "e") 493 0)
    (fuse_call sample_config (sample_request 5) (CallMkdir ROOT_INO (txt "d") 493 0) (initial_tables, initial_ns)).2).2.

Lemma call_wf cfg rq call st : ns_wf st.2 -> call_valid call -> ns_wf (fuse_call cfg rq call st).2.2.
Proof.
  intros Hwf Hv. destruct st as [t ns]. destruct (fuse_call cfg rq call (t, ns)) as [res [t' ns']] eqn:E.
  by apply fuse_call_ok in E as [Hw _].
Qed.

Lemma sample_mount_wf : ns_wf sample_mount.2.
Proof. by apply call_wf; [apply call_wf; [apply initial_ns_wf|]|]. Qed.


(** ** lookup finds the names *)

(** Rows with distinct keys: a search by key finds one or none. *)
Lemma filter_key {A K} (f : A -> K) (P : A -> Prop) `{!forall x, Decision (P x)} (l : list A) :
  NoDup (f <$> l) -> (forall x y, P x -> P y -> f x = f y) ->
  filter P l = [] /\ (forall x, x ∈ l -> ~ P x) \/ exists x, filter P l = [x] /\ x ∈ l /\ P x.
Proof.
  intros Hnd Hf. destruct (filter P l) as [|x r] eqn:E.
  - left. split; [done|]. intros x Hx Hp. assert (Hfx : x ∈ filter P l) by by apply list_elem_of_filter.
    rewrite E in Hfx. by apply elem_of_nil in Hfx.
  - right. assert (Hin : forall y, y ∈ x :: r -> P y /\ y ∈ l) by (intros y; rewrite <- E; by rewrite list_elem_of_filter).
    exists x. destruct (Hin x) as [Hx Hxl]; [left|]. split; [|done]. f_equal. destruct r as [|y r]; [done|exfalso].
    assert (Hnd' : NoDup (x :: y :: r)) by (rewrite <- E; apply NoDup_filter; by eapply NoDup_fmap_1).
    destruct (Hin y) as [Hy Hyl]; [right; left|]. apply NoDup_cons in Hnd' as [Hn _]. apply Hn.
    rewrite (NoDup_fmap_inj f l x y Hnd Hxl Hyl (Hf x y Hx Hy)). left.
Qed.

Lemma entry_by_name ns p nm : ns_wf ns -> valid_parent p -> has_nul nm = false -> nm <> "/"%string ->
  match names ns (key_of p nm) with
  | None => directory_entry_for_id_and_name p nm ns = Ok None
  | Some i => exists e, view ns e = Some (key_of p nm, i) /\ directory_entry_for_id_and_name p nm ns = Ok (Some e)
  end.
Proof.
  intros Hwf Hp Hnul Hslash. unfold directory_entry_for_id_and_name.
  rewrite bool_decide_eq_false_2 by (intros ->; specialize (Hp 0 eq_refl); lia). rewrite Hnul.
  destruct (filter_key entry_name (fun x => x.1.1.1 = nm /\ ~ (x.1.1.2 = KDir /\ nm = "/"%string))
    (list_directory_entry_metadata_for_id p ns)) as [[-> Hno]|([[[nm' k] id] seed] & -> & Hin & Hx & _)].
  - by apply listing_names_NoDup.
  - unfold entry_name. intros x y [-> _] [-> _]. done.
  - destruct (names ns (key_of p nm)) as [i|] eqn:Hn; [|done]. apply names_binds in Hn as [[k id] Hv]; [|done].
    destruct (view_listed ns Hwf p nm k id i Hp) as [s Hin]; [naive_solver|done|]. destruct (Hno _ Hin). naive_solver.
  - apply listed_view in Hin as [i Hi]. cbn in Hx. subst nm'. unfold entry_of, entry_name in Hi. cbn in Hi.
    assert (Hn : names ns (key_of p nm) = Some i) by (apply names_binds; [done|by eexists]).
    rewrite Hn. by exists (k, id).
Qed.

Lemma parent_id_valid ino t ns p : ns_wf ns -> parent_entry_id_for_inode ino t ns = Ok p -> valid_parent p.
Proof.
  intros Hwf H d ->. unfold parent_entry_id_for_inode in H. destruct (ino =? ROOT_INO); [done|].
  apply bind_Ok in H as (path & _ & H). apply bind_Ok in H as ([at_|] & Ha & H); [|done].
  destruct (negb (_ =? _)); [done|]. destruct (negb (_ && _)) eqn:Hk; [done|].
  apply negb_false_iff, andb_true_iff in Hk as [_ Hk%bool_decide_eq_true].
  destruct (pa_owner_id at_ =? 0) eqn:H0; [done|]. injection H as Hd.
  unfold attrs_for_path_from_repo in Ha. apply bind_Ok in Ha as ([[k id]|] & _ & Ha); [|done].
  assert (Hrow : k = KDir /\ is_Some (ns_directories ns !! id) /\ d = id).
  { unfold attrs_for_entry_id_from_repo, file_attrs, symlink_attrs in Ha.
    destruct k; repeat (case_match; try done); try (apply bind_Ok in Ha as (? & _ & Ha)); try (apply bind_Ok in Ha as (? & _ & Ha));
      injection Ha as <-; cbn in *; try done; subst; lia. }
  destruct Hrow as (-> & Hid & ->). apply (nw_pos _ Hwf). by left.
Qed.

(** Every name has attributes to be read. *)
Lemma entry_has_attrs ns e k i : ns_wf ns -> view ns e = Some (k, i) -> attrs_for_entry_id_from_repo e.1 e.2 false ns <> Ok None.
Proof.
  intros Hwf Hv. assert (Hfile : forall kd x fid f, file_attrs kd x fid f ns <> Ok None).
  { intros kd x fid f H. by repeat (apply bind_Ok in H as (? & _ & H)). }
  assert (Hsym : forall kd x s, symlink_attrs kd x s <> Ok None).
  { intros kd x s H. unfold symlink_attrs in H. case_bool_decide; [done|]. by apply bind_Ok in H as (? & _ & H). }
  destruct e as [[] id]; cbn [fst snd attrs_for_entry_id_from_repo].
  - rewrite view_file in Hv. destruct (ns_files ns !! id) eqn:Hf; [|done].
    destruct (db_files (ns_db ns) !! id) eqn:Hd; [apply Hfile|]. destruct (nw_files _ Hwf id) as [[x Hx] _]; [by eexists|]. congruence.
  - rewrite view_hardlink in Hv. destruct (ns_hardlinks ns !! id) as [h|] eqn:Hh; [|done].
    destruct (db_files (ns_db ns) !! h_file h) eqn:Hd; [apply Hfile|]. destruct (nw_links _ Hwf _ _ Hh) as (f & Hf & _).
    destruct (nw_files _ Hwf (h_file h)) as [[x Hx] _]; [by eexists|]. congruence.
  - rewrite view_symlink in Hv. destruct (ns_symlinks ns !! id); [apply Hsym|done].
  - rewrite view_alias in Hv. destruct (ns_symlink_hardlinks ns !! id) as [al|] eqn:Ha; [|done].
    destruct (nw_aliases _ Hwf _ _ Ha) as [x ->]. apply Hsym.
  - rewrite view_directory in Hv. destruct (ns_directories ns !! id); [|done]. intros H. by apply bind_Ok in H as (? & _ & H).
Qed.

Lemma component_name s : component s -> has_nul s = false /\ s <> "/"%string.
Proof.
  intros (_ & Hslash & Hnul). split; [|intros ->; apply Hslash; left].
  clear Hslash. induction s as [|c s IH]; [done|]. cbn. apply not_elem_of_cons in Hnul as [Hc Hs].
  rewrite IH by done. destruct (Ascii.eqb_spec c Ascii.zero); [by subst|done].
Qed.

(** C24: lookup answers what the map of names has. Once the parent is found and may
    be searched, a component that is bound there gets the attributes of the
    entry that holds it, and its path and its lookup count are recorded; a
    component that is not bound gets ENOENT; nothing else is ever answered,
    except the errno of attributes that cannot be read. The database does not
    change, and the tables only with a successful reply. *)
Theorem lookup_exact permitted parent nm t ns pid pp :
  ns_wf ns -> component (text_string nm) -> validate_component_name nm = Ok nm ->
  entry_path_for_ino parent t = Ok pp -> parent_entry_id_for_inode parent t ns = Ok pid ->
  lookup_parent permitted parent pid ns = Ok tt ->
  let k := key_of pid (text_string nm) in
  match names ns k with
  | None => fuse_lookup permitted parent nm (t, ns) = (Err ENOENT, (t, ns))
  | Some i =>
      exists e, view ns e = Some (k, i) /\
      match attrs_for_entry_id_from_repo e.1 e.2 false ns with
      | Ok (Some at_) =>
          fuse_lookup permitted parent nm (t, ns) =
            (Ok at_, (register_lookup_path (join_path pp nm) (pa_ino at_) t, ns))
      | Ok None => False
      | Err errno => fuse_lookup permitted parent nm (t, ns) = (Err errno, (t, ns))
      | Panic => fuse_lookup permitted parent nm (t, ns) = (Panic, (t, ns))
      end
  end.
Proof.
  intros Hwf Hcomp Hnm Hpp Hpid Hpar k. destruct (component_name _ Hcomp) as [Hnul Hslash].
  pose proof (entry_by_name ns pid (text_string nm) Hwf (parent_id_valid _ _ _ _ Hwf Hpid) Hnul Hslash) as He. fold k in He.
  assert (Hrun : fuse_lookup permitted parent nm (t, ns) =
    match directory_entry_for_id_and_name pid (text_string nm) ns with
    | Ok (Some (kind, id)) =>
        match attrs_for_entry_id_from_repo kind id false ns with
        | Ok (Some at_) => (Ok at_, (register_lookup_path (join_path pp nm) (pa_ino at_) t, ns))
        | Ok None => (Err ENOENT, (t, ns)) | Err e => (Err e, (t, ns)) | Panic => (Panic, (t, ns))
        end
    | Ok None => (Err ENOENT, (t, ns)) | Err e => (Err e, (t, ns)) | Panic => (Panic, (t, ns))
    end).
  { unfold fuse_lookup, mbind, fs_bind, fs_lift, fs_read. cbn [fst snd]. rewrite Hnm, Hpp, Hpid, Hpar.
    destruct (directory_entry_for_id_and_name _ _ _) as [[[kind id]|]| |]; [|done..]. cbn [fst snd].
    by destruct (attrs_for_entry_id_from_repo kind id false ns) as [[]| |]. }
  destruct (names ns k) as [i|]; [|by rewrite Hrun, He]. destruct He as ([kind id] & Hv & He). exists (kind, id). split; [done|].
  rewrite Hrun, He. cbn [fst snd]. pose proof (entry_has_attrs ns _ _ _ Hwf Hv) as Hat. cbn [fst snd] in Hat.
  by destruct (attrs_for_entry_id_from_repo kind id false ns) as [[]| |].
Qed.

Lemma lookup_exact_witness :
  (exists at_, fuse_lookup true ROOT_INO (txt "d") (sample_mount.1, sample_mount.2) =
     (Ok at_, (register_lookup_path (join_path [SLASH] (txt "d")) (pa_ino at_) sample_mount.1, sample_mount.2))) /\
  fuse_lookup true ROOT_INO (txt "q") (sample_mount.1, sample_mount.2) = (Err ENOENT, (sample_mount.1, sample_mount.2)).
Proof.
  assert (Hd : component (text_string (txt "d"))) by (apply component_check; vm_compute; reflexivity).
  assert (Hq : component (text_string (txt "q"))) by (apply component_check; vm_compute; reflexivity).
  pose proof (lookup_exact true ROOT_INO (txt "d") sample_mount.1 sample_mount.2 None [SLASH] sample_mount_wf Hd eq_refl eq_refl eq_refl) as Hf.
  pose proof (lookup_exact true ROOT_INO (txt "q") sample_mount.1 sample_mount.2 None [SLASH] sample_mount_wf Hq eq_refl eq_refl eq_refl) as Hn.
  assert (Hpar : lookup_parent true ROOT_INO None sample_mount.2 = Ok tt) by (vm_compute; reflexivity).
  specialize (Hf Hpar). specialize (Hn Hpar). cbv zeta in Hf, Hn.
  replace (names sample_mount.2 (key_of None (text_string (txt "d")))) with (Some (IDir 5)) in Hf by (vm_compute; reflexivity).
  replace (names sample_mount.2 (key_of None (text_string (txt "q")))) with (@None Inode) in Hn by (vm_compute; reflexivity).
  split; [|exact Hn]. destruct Hf as (e & Hv & Hr). apply view_dir_inode in Hv. subst e. cbn [fst snd] in Hr.
  destruct (attrs_for_entry_id_from_repo KDir 5 false sample_mount.2) as [[at_|]| |] eqn:Ha;
    [exists at_; exact Hr|destruct Hr|vm_compute in Ha; discriminate Ha..].
Defined.

(** ** Entries the mount cannot rename *)

Lemma rename_unsupported cfg rq t ns parent nm newparent newnm flags opp npp kind :
  entry_path_for_ino parent t = Ok opp -> entry_path_for_ino newparent t = Ok npp ->
  join_path opp nm <> join_path npp newnm -> rename_supported kind = false ->
  (exists id, resolve_kind (join_path opp nm) ns = Ok (Some (kind, id))) \/
  (exists id, resolve_kind (join_path npp newnm) ns = Ok (Some (kind, id))) ->
  (forall u, (fuse_rename cfg rq parent nm newparent newnm flags (t, ns)).1 <> Ok u) /\
  (fuse_rename cfg rq parent nm newparent newnm flags (t, ns)).2 = (t, ns).
Proof.
  intros Hopp Hnpp Hne Hsup Hkind.
  destruct (fuse_rename cfg rq parent nm newparent newnm flags (t, ns)) as [res st'] eqn:H. cbn [fst snd].
  enough ((forall u, res <> Ok u) /\ st' = (t, ns)) by done. unfold fuse_rename in H.
  destruct (negb (_ =? 0)); [by injection H as <- <-|].
  look H as u Hu. look H as nm' Hnm. look H as nn' Hnn. look H as opp' Hopp'. look H as npp' Hnpp'.
  apply validate_id in Hnm as ->, Hnn as ->. assert (opp' = opp) as -> by (assert (Ok opp' = (Ok opp : outcome Z text)) by (by etrans; [symmetry; exact Hopp'|]); congruence).
  assert (npp' = npp) as -> by (assert (Ok npp' = (Ok npp : outcome Z text)) by (by etrans; [symmetry; exact Hnpp'|]); congruence).
  look H as src Hsrc. look H as npid Hnpid. case_bool_decide as Heq; [by destruct Hne|]. look H as ex Hex. look H as u1 Hk.
  destruct src as [[k0 i0]|]; [|by injection H as <- <-].
  change (resolve_kind (join_path opp nm) ns = Ok (Some (k0, i0))) in Hsrc. change (resolve_kind (join_path npp newnm) ns = Ok ex) in Hex.
  assert (Hs : rename_supported k0 && default true (rename_supported ∘ fst <$> ex) = false).
  { destruct Hkind as [[id Hid]|[id Hid]]; [rewrite Hid in Hsrc|rewrite Hid in Hex]; simplify_eq; cbn;
      rewrite Hsup; [done|apply andb_false_r]. }
  rewrite Hs in H. by injection H as <- <-.
Qed.

(** The mount refuses every rename from or onto a further name of a symlink.
    The handler only hands files, hard links, symlinks and directories to the
    transaction: where either path resolves to a row of symlink_hardlinks the
    rename fails and changes nothing, whatever the flags and the caller. In the
    state of the witness the transaction itself applies the same rename. *)
Theorem alias_rename_refused cfg rq t ns parent nm newparent newnm flags opp npp :
  entry_path_for_ino parent t = Ok opp -> entry_path_for_ino newparent t = Ok npp ->
  join_path opp nm <> join_path npp newnm ->
  (exists id, resolve_kind (join_path opp nm) ns = Ok (Some (KSymlinkHardlink, id))) \/
  (exists id, resolve_kind (join_path npp newnm) ns = Ok (Some (KSymlinkHardlink, id))) ->
  (forall u, (fuse_rename cfg rq parent nm newparent newnm flags (t, ns)).1 <> Ok u) /\
  (fuse_rename cfg rq parent nm newparent newnm flags (t, ns)).2 = (t, ns).
Proof. intros Hopp Hnpp Hne Hk. by apply (rename_unsupported _ _ _ _ _ _ _ _ _ opp npp KSymlinkHardlink). Qed.

(** symlink /s; link /s /m. *)
Definition alias_mount : FuseState :=
  let st := (fuse_call sample_config (sample_request 5) (CallSymlink ROOT_INO (txt "s") (txt "x")) (initial_tables, initial_ns)).2 in
  let ino := default 0 (inode_for_path (txt "/s") st.1) in
  (fuse_call sample_config (sample_request 6) (CallLink ino ROOT_INO (txt "m")) st).2.

Lemma alias_rename_refused_witness :
  let rename := fuse_rename sample_config (sample_request 8) ROOT_INO (txt "m") ROOT_INO (txt "n") 0 alias_mount in
  rename.1 = Err EIO /\ rename.2 = alias_mount /\
  let transaction := run_op (OpRename (RenameSymlinkHardlink 6 5) None "m" None "n" None 0 false (Some (root_actor, true)) true
                              (fun _ => 0)) alias_mount.2 in
  transaction.1 = RRename (Ok Applied) /\ names transaction.2 (0, "n"%string) = Some (ISymlink 5).
Proof.
  cbv zeta. split; [vm_compute; reflexivity|]. split; [|vm_compute; split; reflexivity].
  apply (alias_rename_refused sample_config (sample_request 8) alias_mount.1 alias_mount.2 ROOT_INO (txt "m") ROOT_INO (txt "n") 0
    [SLASH] [SLASH]); [reflexivity|reflexivity|done|left; exists 6; vm_compute; reflexivity].
Defined.

(** ** Children of a renamed directory *)

Lemma remove_cached_path_other order path j q t :
  path_for_inode j t = Some q -> q <> path -> path_for_inode j (remove_cached_path order path t) = Some q.
Proof.
  intros Hj Hq. unfold remove_cached_path, path_for_inode in *. destruct (pt_path_to_inode t !! path) as [ino|]; [|done].
  cbn. case_bool_decide as Hi; [|done]. assert (ino <> j) by congruence.
  cbn. destruct (replacement_path _ _ _); [by rewrite lookup_insert_ne|by rewrite lookup_delete_ne].
Qed.

Lemma move_cached_path_other order old new ino j q t :
  path_for_inode j t = Some q -> q <> old -> j <> ino -> path_for_inode j (move_cached_path order old new ino t) = Some q.
Proof.
  intros Hj Hq Hne. unfold move_cached_path, path_for_inode, register_path. cbn. rewrite lookup_insert_ne by done.
  by apply (remove_cached_path_other order old j q t).
Qed.

Lemma register_lookup_path_known path j q t : path_for_inode j t = Some q -> path_for_inode j (register_lookup_path path j t) = Some q.
Proof. unfold path_for_inode, register_lookup_path. cbn. intros Hj. by rewrite Hj. Qed.

(** A renamed directory leaves its known children behind. The rename moves the
    exact path it is given in the path tables; an inode known under a path
    below the old one keeps that path, a later lookup under the new name
    included, and as long as the old path leads nowhere the number cannot be
    resolved again: attributes, open and every other request by inode number
    answer ENOENT until the kernel forgets the inode. *)
Theorem renamed_directory_strands_children order old new ino j q path t ns :
  j <> ROOT_INO -> j <> ino -> path_for_inode j t = Some q -> q <> old ->
  attrs_for_path_from_repo (normalize_path q) ns = Ok None ->
  let t' := move_cached_path order old new ino t in
  entry_attrs_for_ino j t' ns = Err ENOENT /\ entry_attrs_for_ino j (register_lookup_path path j t') ns = Err ENOENT.
Proof.
  intros Hroot Hne Hj Hq Hgone t'. assert (Hj' : path_for_inode j t' = Some q) by by apply move_cached_path_other.
  assert (H : forall t0, path_for_inode j t0 = Some q -> entry_attrs_for_ino j t0 ns = Err ENOENT).
  { intros t0 H0. unfold entry_attrs_for_ino, entry_path_for_ino. replace (j =? ROOT_INO) with false by lia. rewrite H0.
    cbn [mbind outcome_bind]. by rewrite Hgone. }
  split; apply H; [done|]. by apply register_lookup_path_known.
Qed.

(** mkdir /d; mknod /d/f; rename /d /e; lookup /e/f. *)
Definition child_mount : FuseState :=
  let st := (fuse_call sample_config (sample_request 5) (CallMkdir ROOT_INO (txt "d") 493 0) (initial_tables, initial_ns)).2 in
  let d := default 0 (inode_for_path (txt "/d") st.1) in
  (fuse_call sample_config (sample_request 6) (CallMknod d (txt "f") (S_IFREG + 420) 0 0) st).2.
Definition child_ino : Z := default 0 (inode_for_path (txt "/d/f") child_mount.1).
Definition parent_ino : Z := default 0 (inode_for_path (txt "/d") child_mount.1).
Definition renamed_mount : FuseState :=
  (fuse_call sample_config (sample_request 8) (CallRename ROOT_INO (txt "d") ROOT_INO (txt "e") 0) child_mount).2.

Lemma renamed_directory_strands_children_witness :
  (pa_ino ∘ snd <$> entry_attrs_for_ino child_ino child_mount.1 child_mount.2) = Ok child_ino /\
  (fuse_call sample_config (sample_request 8) (CallRename ROOT_INO (txt "d") ROOT_INO (txt "e") 0) child_mount).1 = Ok tt /\
  renamed_mount.1 = move_cached_path id (txt "/d") (txt "/e") parent_ino child_mount.1 /\
  entry_attrs_for_ino child_ino renamed_mount.1 renamed_mount.2 = Err ENOENT /\
  let found := fuse_lookup true parent_ino (txt "f") renamed_mount in
  (pa_ino <$> found.1) = Ok child_ino /\
  entry_attrs_for_ino child_ino found.2.1 found.2.2 = Err ENOENT.
Proof.
  cbv zeta. split; [vm_compute; reflexivity|]. split; [vm_compute; reflexivity|]. split; [vm_compute; reflexivity|].
  assert (H : forall path, entry_attrs_for_ino child_ino renamed_mount.1 renamed_mount.2 = Err ENOENT /\
    entry_attrs_for_ino child_ino (register_lookup_path path child_ino renamed_mount.1) renamed_mount.2 = Err ENOENT).
  { intros path. replace renamed_mount.1 with (move_cached_path id (txt "/d") (txt "/e") parent_ino child_mount.1) by (vm_compute; reflexivity).
    apply (renamed_directory_strands_children id (txt "/d") (txt "/e") parent_ino child_ino (txt "/d/f") path child_mount.1 renamed_mount.2);
      [by vm_compute|by vm_compute|vm_compute; reflexivity|done|vm_compute; reflexivity]. }
  split; [apply (H [])|]. split; [vm_compute; reflexivity|].
  destruct (H (txt "/e/f")) as [_ H2]. revert H2.
  replace (register_lookup_path (txt "/e/f") child_ino renamed_mount.1)
    with (fuse_lookup true parent_ino (txt "f") renamed_mount).2.1 by (vm_compute; reflexivity).
  replace (fuse_lookup true parent_ino (txt "f") renamed_mount).2.2 with renamed_mount.2 by (vm_compute; reflexivity). done.
Defined.
