(* ===== verification/ReadCache.v ===== *)
(** * The read cache of the FUSE layer

    Model of src/rust_fuse/src/read_cache.rs: the block cache with its two eviction
    policies, the overlay of recently written blocks, the generation gate that keeps
    late cache fills out, the coordinator of concurrent fills, and the fetch and
    merge of missing blocks. *)

From stdpp Require Import prelude list numbers gmap sorting strings.
From Stdlib Require Import ZArith Lia.
From S2P Require Import Prelude ReadPlan Errno.

#[local] Open Scope Z_scope.

(** ** Linked hash maps

    The LRU store is a LinkedHashMap of the linked_hash_map crate, which is not
    part of the repository. [LinkedMap] is its interface, [LinkedMapOk] what its
    documentation promises: iteration in insertion order, [get_refresh] moves an
    entry to the back, [pop_front] removes the oldest. *)

Abbreviation key := (Z * Z)%type.

Class LinkedMap (M : Type) : Type := {
  lm_empty : M;
  lm_iter : M -> list (key * bytes);
  lm_get : key -> M -> option bytes;
  lm_insert : key -> bytes -> M -> M;
  lm_refresh : key -> M -> M;
  lm_pop_front : M -> option M
}.

Definition lm_map {M} `{LinkedMap M} (m : M) : gmap key bytes := list_to_map (lm_iter m).

Class LinkedMapOk (M : Type) `{LinkedMap M} : Prop := {
  lm_empty_iter : lm_iter lm_empty = [];
  lm_nodup : forall m, NoDup (lm_iter m).*1;
  lm_get_map : forall k m, lm_get k m = lm_map m !! k;
  lm_insert_map : forall k v m, lm_map (lm_insert k v m) = <[k := v]> (lm_map m);
  lm_refresh_map : forall k m, lm_map (lm_refresh k m) = lm_map m;
  lm_pop_front_iter : forall m,
    match lm_pop_front m with
    | Some m' => exists e, lm_iter m = e :: lm_iter m'
    | None => lm_iter m = []
    end
}.

(** ** The block cache *)

Inductive ReadCacheEvictionPolicy : Set := Fifo | Lru.

Section BlockCache.
Context {M : Type} `{LinkedMapOk M}.

Inductive ReadCacheStore : Type :=
| FifoStore (entries : gmap key bytes) (order : list key)
| LruStore (entries : M).

Definition cache_new (policy : ReadCacheEvictionPolicy) : ReadCacheStore :=
  match policy with
  | Fifo => FifoStore ∅ []
  | Lru => LruStore lm_empty
  end.

Definition cache_len (c : ReadCacheStore) : Z :=
  match c with
  | FifoStore entries _ => Z.of_nat (size entries)
  | LruStore entries => zlen (lm_iter entries)
  end.

Definition cache_get (file_id block_index : Z) (c : ReadCacheStore) : option bytes * ReadCacheStore :=
  let k := (file_id, block_index) in
  match c with
  | FifoStore entries order => (entries !! k, c)
  | LruStore entries =>
      match lm_get k entries with
      | Some data => (Some data, LruStore (lm_refresh k entries))
      | None => (None, c)
      end
  end.

Fixpoint get_range_loop (file_id : Z) (indices : list Z) (c : ReadCacheStore)
    : list (Z * bytes) * list Z * ReadCacheStore :=
  match indices with
  | [] => ([], [], c)
  | block_index :: indices =>
      let '(block, c) := cache_get file_id block_index c in
      let '(cached, missing, c) := get_range_loop file_id indices c in
      match block with
      | Some block => ((block_index, block) :: cached, missing, c)
      | None => (cached, block_index :: missing, c)
      end
  end.

Definition cache_get_range (file_id first_block last_block : Z) (c : ReadCacheStore)
    : list (Z * bytes) * list Z * ReadCacheStore :=
  if last_block <? first_block then ([], [], c)
  else get_range_loop file_id (range_incl first_block last_block) c.

(** while entries.len() > limit { pop the oldest }: at most one turn per entry. *)
Fixpoint fifo_evict (limit_blocks : Z) (order : list key) (entries : gmap key bytes)
    : gmap key bytes * list key :=
  match order with
  | [] => (entries, [])
  | oldest :: order' =>
      if limit_blocks <? Z.of_nat (size entries)
      then fifo_evict limit_blocks order' (delete oldest entries)
      else (entries, order)
  end.

Fixpoint lru_evict (fuel : nat) (limit_blocks : Z) (entries : M) : M :=
  match fuel with
  | O => entries
  | S fuel =>
      if limit_blocks <? zlen (lm_iter entries) then
        match lm_pop_front entries with
        | None => entries
        | Some entries => lru_evict fuel limit_blocks entries
        end
      else entries
  end.

Definition fifo_insert (file_id : Z) (s : gmap key bytes * list key) (row : Z * bytes)
    : gmap key bytes * list key :=
  let k := (file_id, row.1) in
  (<[k := row.2]> s.1, if bool_decide (is_Some (s.1 !! k)) then s.2 else s.2 ++ [k]).

Definition lru_insert (file_id : Z) (entries : M) (row : Z * bytes) : M :=
  let k := (file_id, row.1) in
  let existed := bool_decide (is_Some (lm_get k entries)) in
  let entries := lm_insert k row.2 entries in
  if existed then lm_refresh k entries else entries.

Definition cache_insert_many (file_id : Z) (blocks : list (Z * bytes)) (limit_blocks : Z)
    (c : ReadCacheStore) : ReadCacheStore :=
  match c with
  | FifoStore entries order =>
      let '(entries, order) := foldl (fifo_insert file_id) (entries, order) blocks in
      let '(entries, order) := fifo_evict limit_blocks order entries in
      FifoStore entries order
  | LruStore entries =>
      let entries := foldl (lru_insert file_id) entries blocks in
      LruStore (lru_evict (length (lm_iter entries)) limit_blocks entries)
  end.

Definition cache_clear_file (file_id : Z) (c : ReadCacheStore) : ReadCacheStore :=
  match c with
  | FifoStore entries order =>
      FifoStore (filter (fun e => e.1.1 <> file_id) entries) (filter (fun k => k.1 <> file_id) order)
  | LruStore entries =>
      LruStore (foldl (fun filtered e => if negb (e.1.1 =? file_id) then lm_insert e.1 e.2 filtered else filtered)
                  lm_empty (lm_iter entries))
  end.

Definition cache_clear_all (c : ReadCacheStore) : ReadCacheStore :=
  match c with
  | FifoStore _ _ => FifoStore ∅ []
  | LruStore _ => LruStore lm_empty
  end.
End BlockCache.
Arguments ReadCacheStore M : clear implicits.

(** ** Settings and the overlay of recent writes *)

(** The reloadable settings the read path looks at, and the mount's direct-I/O flag. *)
Record ReadSettings : Set := {
  read_cache_blocks : Z;
  direct_io_read_prefetch_blocks : Z;
  workers_read : Z;
  workers_read_min_blocks : Z;
  small_file_read_threshold_blocks : Z;
  live_read_ahead_blocks : Z;
  live_sequential_read_ahead_blocks : Z;
  fopen_direct_io : bool
}.

Definition read_cache_limit_blocks (s : ReadSettings) : Z :=
  if read_cache_blocks s =? 0 then 0
  else
    let limit := read_cache_blocks s in
    let limit :=
      if fopen_direct_io s && (0 <? direct_io_read_prefetch_blocks s)
      then Z.max limit (direct_io_read_prefetch_blocks s) else limit in
    Z.min limit U64_MAX.

Definition recent_write_blocks_limit (s : ReadSettings) (total_blocks : Z) : Z :=
  let cache_limit := read_cache_limit_blocks s in
  if cache_limit =? 0 then 0
  else
    let recent_limit := Z.max (sat_mul cache_limit 16) 256 in
    let total_blocks := Z.min total_blocks U64_MAX in
    Z.min total_blocks recent_limit.

Definition read_workers (s : ReadSettings) : Z := Z.min (Z.max (workers_read s) 1) U64_MAX.
Definition read_workers_min_blocks (s : ReadSettings) : Z :=
  Z.min (Z.max (workers_read_min_blocks s) 1) U64_MAX.

Record ReadSequenceState : Set := { last_end : Z; streak : Z }.

Definition read_sequence_state_for_file (file_id offset end_offset : Z)
    (states : gmap Z ReadSequenceState) : bool * Z * gmap Z ReadSequenceState :=
  let previous := states !! file_id in
  let sequential := match previous with Some value => last_end value =? offset | None => false end in
  let streak' :=
    if sequential
    then match previous with Some value => sat_add (streak value) 1 | None => 0 end
    else 0 in
  (sequential, streak', <[file_id := {| last_end := end_offset; streak := streak' |}]> states).

(** [recent_write_block]; the atomic length it tests is the size of the map. *)
Definition recent_write_block (s : ReadSettings) (recent : gmap key bytes) (file_id block_index : Z)
    : option bytes :=
  if read_cache_limit_blocks s =? 0 then None
  else if Z.of_nat (size recent) =? 0 then None
  else recent !! (file_id, block_index).

(** The order of keys(sort_unstable): lexicographic. *)
Definition key_le (a b : key) : Prop := a.1 < b.1 \/ (a.1 = b.1 /\ a.2 <= b.2).
#[global] Instance key_le_dec a b : Decision (key_le a b).
Proof. unfold key_le. apply _. Defined.

Definition store_recent_write_blocks (s : ReadSettings) (block_size file_id file_size : Z)
    (truncate_pending : bool) (blocks : list (Z * bytes)) (recent : gmap key bytes)
    : gmap key bytes :=
  let block_size := Z.max block_size 1 in
  let total_blocks := if file_size =? 0 then 0 else 1 + (file_size - 1) / block_size in
  let keep_limit := recent_write_blocks_limit s total_blocks in
  let recent :=
    if truncate_pending || (total_blocks =? 0)
    then filter (fun e => e.1.1 <> file_id \/ e.1.2 < total_blocks) recent
    else recent in
  let recent :=
    foldl (fun recent row =>
             if row.1 <? total_blocks then <[(file_id, row.1) := row.2]> recent else recent)
      recent blocks in
  let over_limit := sat_sub (Z.of_nat (size recent)) keep_limit in
  if 0 <? over_limit then
    let keys := merge_sort key_le (map_to_list recent).*1 in
    foldl (fun recent k => delete k recent) recent (take (Z.to_nat over_limit) keys)
  else recent.

Definition clear_recent_write_blocks_for_file (file_id : Z) (recent : gmap key bytes)
    : gmap key bytes :=
  filter (fun e => e.1.1 <> file_id) recent.

(** ** Missing ranges, merging, fetching *)

Definition missing_block_ranges (missing : list Z) : list (Z * Z) :=
  match missing with
  | [] => []
  | first :: rest => run_ranges (fun e => wrap_add e 1) first first rest
  end.

Fixpoint merge_sorted_blocks (left : list (Z * bytes)) : list (Z * bytes) -> list (Z * bytes) :=
  fix merge_right right :=
    match left, right with
    | [], _ => right
    | _, [] => left
    | l :: left', r :: right' =>
        if l.1 <=? r.1 then l :: merge_sorted_blocks left' right else r :: merge_right right'
    end.

Definition row_le (a b : Z * bytes) : Prop := a.1 <= b.1.
#[global] Instance row_le_dec a b : Decision (row_le a b).
Proof. unfold row_le. apply _. Defined.

Section Fetch.
(** [fetch_block_range_shared] of the repository, for one file and block size. *)
Context (fetch : Z -> Z -> outcome string (list (Z * bytes))).

Definition fetch_block_range_profiled (first_block last_block : Z) : outcome string (list (Z * bytes)) :=
  rows ← fetch first_block last_block; Ok (merge_sort row_le rows).

Definition fetch_block_range_chunk (first_block last_block : Z) : outcome Z (list (Z * bytes)) :=
  if last_block <? first_block then Ok []
  else
    match fetch first_block last_block with
    | Ok rows => Ok rows
    | Err _ => Err EIO
    | Panic => Panic
    end.

(** The workers drain one queue of ranges and the rows are sorted at the end; the
    ranges are taken here in queue order. *)
Fixpoint fetch_ranges (ranges : list (Z * Z)) : outcome Z (list (Z * bytes)) :=
  match ranges with
  | [] => Ok []
  | (first_block, last_block) :: ranges =>
      chunk ← fetch_block_range_chunk first_block last_block;
      rest ← fetch_ranges ranges;
      Ok (chunk ++ rest)
  end.

Definition fetch_block_range_parallel (ranges : list (Z * Z)) : outcome Z (list (Z * bytes)) :=
  blocks ← fetch_ranges ranges; Ok (merge_sort row_le blocks).

Definition fetch_missing_read_blocks (s : ReadSettings) (missing : list Z) : outcome Z (list (Z * bytes)) :=
  match missing with
  | [] => Ok []
  | first :: _ =>
      let contiguous_ranges := missing_block_ranges missing in
      let workers :=
        read_missing_range_worker_count (read_workers s) (read_workers_min_blocks s)
          (zlen missing) (zlen contiguous_ranges) in
      if workers <=? 1 then
        match fetch_block_range_profiled first (List.last missing first) with
        | Ok rows => Ok rows
        | Err _ => Err EIO
        | Panic => Panic
        end
      else fetch_block_range_parallel contiguous_ranges
  end.
End Fetch.

(** ** The generation gate *)

Record FileCacheStamp : Set := { generation : Z; epoch : Z; cache_epoch : Z }.
#[global] Instance stamp_eq_dec : EqDecision FileCacheStamp.
Proof. solve_decision. Defined.

(** [files] holds (generation, epoch) per file. *)
Record FileCacheGenerationGate : Type := { gate_cache_epoch : Z; gate_files : gmap Z (Z * Z) }.

Definition gate_entry (g : FileCacheGenerationGate) (file_id : Z) : Z * Z :=
  default (0, 0) (gate_files g !! file_id).

Definition gate_snapshot (g : FileCacheGenerationGate) (file_id : Z) : FileCacheStamp :=
  let '(gen, ep) := gate_entry g file_id in
  {| generation := gen; epoch := ep; cache_epoch := gate_cache_epoch g |}.

(** The closures run while the gate is locked; they act on the rest of the state. *)
Definition invalidate_and {S} (file_id : Z) (invalidate : S -> S) (st : FileCacheGenerationGate * S)
    : FileCacheGenerationGate * S :=
  let '(g, s) := st in
  let '(gen, ep) := gate_entry g file_id in
  ({| gate_cache_epoch := gate_cache_epoch g;
      gate_files := <[file_id := (gen, sat_add ep 1)]> (gate_files g) |}, invalidate s).

(** [fetch_add] wraps. *)
Definition invalidate_all_and {S} (invalidate : S -> S) (st : FileCacheGenerationGate * S)
    : FileCacheGenerationGate * S :=
  let '(g, s) := st in
  ({| gate_cache_epoch := wrap_add (gate_cache_epoch g) 1; gate_files := gate_files g |}, invalidate s).

Definition publish_if_current {S} (file_id : Z) (stamp : FileCacheStamp) (publish : S -> S)
    (st : FileCacheGenerationGate * S) : bool * (FileCacheGenerationGate * S) :=
  let '(g, s) := st in
  if bool_decide (gate_snapshot g file_id = stamp) then (true, (g, publish s)) else (false, (g, s)).

Definition is_current (g : FileCacheGenerationGate) (file_id : Z) (stamp : FileCacheStamp) : bool :=
  bool_decide (gate_snapshot g file_id = stamp).

(** ** Reads through the caches *)

Section Reads.
Context {M : Type} `{LinkedMapOk M}.

Definition cached_read_block (s : ReadSettings) (recent : gmap key bytes) (file_id block_index : Z)
    (c : ReadCacheStore M) : option bytes * ReadCacheStore M :=
  if read_cache_limit_blocks s =? 0 then (None, c)
  else
    match recent_write_block s recent file_id block_index with
    | Some block => (Some block, c)
    | None => cache_get file_id block_index c
    end.

Fixpoint cached_blocks_loop (s : ReadSettings) (recent : gmap key bytes) (file_id : Z)
    (indices : list Z) (c : ReadCacheStore M) : list (Z * bytes) * list Z * ReadCacheStore M :=
  match indices with
  | [] => ([], [], c)
  | block_index :: indices =>
      let '(block, c) := cached_read_block s recent file_id block_index c in
      let '(cached, missing, c) := cached_blocks_loop s recent file_id indices c in
      match block with
      | Some block => ((block_index, block) :: cached, missing, c)
      | None => (cached, block_index :: missing, c)
      end
  end.

Definition cached_read_blocks_and_missing (s : ReadSettings) (recent : gmap key bytes)
    (file_id first_block last_block : Z) (c : ReadCacheStore M)
    : list (Z * bytes) * list Z * ReadCacheStore M :=
  if last_block <? first_block then ([], [], c)
  else if read_cache_limit_blocks s =? 0 then ([], range_incl first_block last_block, c)
  else if negb (Z.of_nat (size recent) =? 0)
  then cached_blocks_loop s recent file_id (range_incl first_block last_block) c
  else cache_get_range file_id first_block last_block c.

Definition store_read_blocks (s : ReadSettings) (file_id : Z) (blocks : list (Z * bytes))
    (c : ReadCacheStore M) : ReadCacheStore M :=
  let limit_blocks := read_cache_limit_blocks s in
  if bool_decide (blocks = []) || (limit_blocks =? 0) then c
  else cache_insert_many file_id blocks limit_blocks c.

Definition cached_read_block_map (s : ReadSettings) (recent : gmap key bytes)
    (file_id first_block last_block : Z) (c : ReadCacheStore M)
    : option (list (Z * bytes)) * ReadCacheStore M :=
  if last_block <? first_block then (Some [], c)
  else
    let '(blocks, missing, c) :=
      cached_read_blocks_and_missing s recent file_id first_block last_block c in
    (if bool_decide (missing = []) then Some blocks else None, c).

(** The fetch, publication and merge that end both read loops. *)
Definition fetch_publish_merge (s : ReadSettings) (fetch : Z -> Z -> outcome string (list (Z * bytes)))
    (file_id : Z) (stamp : FileCacheStamp) (cached : list (Z * bytes)) (missing : list Z)
    (st : FileCacheGenerationGate * ReadCacheStore M)
    : outcome Z (list (Z * bytes)) * (FileCacheGenerationGate * ReadCacheStore M) :=
  match fetch_missing_read_blocks fetch s missing with
  | Err e => (Err e, st)
  | Panic => (Panic, st)
  | Ok fetched =>
      let '(_, st) := publish_if_current file_id stamp (store_read_blocks s file_id fetched) st in
      (Ok (merge_sorted_blocks cached fetched), st)
  end.

(** [buffered_read_block_map_coalesced] when no invalidation of the file and no
    other fill happens meanwhile: the stamps stay current, the caller owns the fill
    and the loop body runs once, looking into the caches twice. *)
Definition buffered_read_block_map_coalesced (s : ReadSettings)
    (fetch : Z -> Z -> outcome string (list (Z * bytes)))
    (recent : gmap key bytes) (file_id fetch_first fetch_last : Z)
    (st : FileCacheGenerationGate * ReadCacheStore M)
    : outcome Z (list (Z * bytes)) * (FileCacheGenerationGate * ReadCacheStore M) :=
  let '(g, c) := st in
  let '(cached, missing, c) := cached_read_blocks_and_missing s recent file_id fetch_first fetch_last c in
  if bool_decide (missing = []) then (Ok cached, (g, c))
  else
    let stamp := gate_snapshot g file_id in
    let '(cached, missing, c) := cached_read_blocks_and_missing s recent file_id fetch_first fetch_last c in
    if bool_decide (missing = []) then (Ok cached, (g, c))
    else fetch_publish_merge s fetch file_id stamp cached missing (g, c).

(** [read_block_map], likewise without interference. *)
Definition read_block_map (s : ReadSettings) (fetch : Z -> Z -> outcome string (list (Z * bytes)))
    (recent : gmap key bytes) (file_id fetch_first fetch_last : Z)
    (st : FileCacheGenerationGate * ReadCacheStore M)
    : outcome Z (list (Z * bytes)) * (FileCacheGenerationGate * ReadCacheStore M) :=
  if fetch_last <? fetch_first then (Ok [], st)
  else if negb (fopen_direct_io s)
  then buffered_read_block_map_coalesced s fetch recent file_id fetch_first fetch_last st
  else
    let '(g, c) := st in
    let stamp := gate_snapshot g file_id in
    let '(cached, missing, c) := cached_read_blocks_and_missing s recent file_id fetch_first fetch_last c in
    if bool_decide (missing = []) then (Ok cached, (g, c))
    else fetch_publish_merge s fetch file_id stamp cached missing (g, c).

Definition read_block_map_target_block (s : ReadSettings)
    (fetch : Z -> Z -> outcome string (list (Z * bytes)))
    (recent : gmap key bytes) (file_id fetch_first fetch_last target_block : Z)
    (st : FileCacheGenerationGate * ReadCacheStore M)
    : outcome Z (option bytes) * (FileCacheGenerationGate * ReadCacheStore M) :=
  if (fetch_last <? fetch_first) || (target_block <? fetch_first) || (fetch_last <? target_block)
  then (Ok None, st)
  else if negb (fopen_direct_io s) then
    let '(blocks, st) :=
      buffered_read_block_map_coalesced s fetch recent file_id fetch_first fetch_last st in
    (blocks ← blocks; Ok (snd <$> find (fun row => row.1 =? target_block) blocks), st)
  else
    let '(g, c) := st in
    let stamp := gate_snapshot g file_id in
    let '(block, c) := cached_read_block s recent file_id target_block c in
    match block with
    | Some block => (Ok (Some block), (g, c))
    | None =>
        let '(cached, missing, c) := cached_read_blocks_and_missing s recent file_id fetch_first fetch_last c in
        let target := snd <$> find (fun row => row.1 =? target_block) cached in
        if bool_decide (missing = []) then (Ok target, (g, c))
        else
          match fetch_missing_read_blocks fetch s missing with
          | Err e => (Err e, (g, c))
          | Panic => (Panic, (g, c))
          | Ok fetched =>
              let '(_, st) := publish_if_current file_id stamp (store_read_blocks s file_id fetched) (g, c) in
              let target :=
                match target with
                | Some _ => target
                | None => snd <$> find (fun row => row.1 =? target_block) fetched
                end in
              (Ok target, st)
          end
    end.

Definition clear_read_cache_for_file (file_id : Z) (st : FileCacheGenerationGate * ReadCacheStore M)
    : FileCacheGenerationGate * ReadCacheStore M :=
  invalidate_and file_id (cache_clear_file file_id) st.
End Reads.

(** ** The fill coordinator *)

Definition read_fill_ranges (blocks : list Z) : list (Z * Z) :=
  match blocks with
  | [] => []
  | first :: rest => run_ranges (fun e => sat_add e 1) first first rest
  end.

Definition read_fill_ranges_overlap (left right : list (Z * Z)) : bool :=
  existsb (fun l => existsb (fun r => (l.1 <=? r.2) && (r.1 <=? l.2)) right) left.

(** A flight is an Arc; [fl_id] is its identity ([Arc::ptr_eq]). *)
Record ReadFillFlight : Set := { fl_id : nat; fl_ranges : list (Z * Z) }.

Record ReadFillCoordinator : Type := {
  flights : gmap Z (list ReadFillFlight);
  next_flight : nat;
  flights_done : gset nat
}.

Record ReadFillLease : Set := { le_file_id : Z; le_flight : ReadFillFlight; le_owner : bool }.

Definition fill_acquire (file_id : Z) (missing : list Z) (c : ReadFillCoordinator)
    : ReadFillLease * ReadFillCoordinator :=
  let requested_ranges := read_fill_ranges missing in
  let file_flights := default [] (flights c !! file_id) in
  match find (fun flight => read_fill_ranges_overlap requested_ranges (fl_ranges flight)) file_flights with
  | Some flight => ({| le_file_id := file_id; le_flight := flight; le_owner := false |},
                    {| flights := <[file_id := file_flights]> (flights c); next_flight := next_flight c;
                       flights_done := flights_done c |})
  | None =>
      let flight := {| fl_id := next_flight c; fl_ranges := requested_ranges |} in
      ({| le_file_id := file_id; le_flight := flight; le_owner := true |},
       {| flights := <[file_id := file_flights ++ [flight]]> (flights c);
          next_flight := S (next_flight c); flights_done := flights_done c |})
  end.

Definition fill_finish (file_id : Z) (flight : ReadFillFlight) (c : ReadFillCoordinator)
    : ReadFillCoordinator :=
  let file_flights :=
    (fun l => filter (fun current => fl_id current <> fl_id flight) l) <$> flights c !! file_id in
  {| flights := (match file_flights with
                 | None => flights c
                 | Some [] => delete file_id (flights c)
                 | Some l => <[file_id := l]> (flights c)
                 end);
     next_flight := next_flight c;
     flights_done := {[fl_id flight]} ∪ flights_done c |}.

(** Dropping a lease. *)
Definition fill_drop (lease : ReadFillLease) (c : ReadFillCoordinator) : ReadFillCoordinator :=
  if le_owner lease then fill_finish (le_file_id lease) (le_flight lease) c else c.

(** A waiter may go on. *)
Definition fill_ready (lease : ReadFillLease) (c : ReadFillCoordinator) : bool :=
  le_owner lease || bool_decide (fl_id (le_flight lease) ∈ flights_done c).

(** ** The block cache refines a map *)

Section BlockCacheProofs.
Context {M : Type} `{LinkedMapOk M}.
Implicit Types c : ReadCacheStore M.

Definition cache_map c : gmap key bytes :=
  match c with FifoStore entries _ => entries | LruStore entries => lm_map entries end.

(** The FIFO order lists the resident keys, once each. *)
Definition cache_wf c : Prop :=
  match c with
  | FifoStore entries order => NoDup order /\ forall k, k ∈ order <-> is_Some (entries !! k)
  | LruStore _ => True
  end.

Lemma cache_new_spec policy : cache_wf (cache_new policy : ReadCacheStore M) /\
  cache_map (cache_new policy : ReadCacheStore M) = ∅.
Proof.
  destruct policy; cbn; split; try done.
  - split; [constructor|]. intros k. rewrite lookup_empty. split; [set_solver|by intros []].
  - unfold lm_map. by rewrite lm_empty_iter.
Qed.

Lemma cache_len_map c : cache_len c = Z.of_nat (size (cache_map c)).
Proof.
  destruct c as [entries order|entries]; cbn; [done|]. unfold zlen, lm_map.
  rewrite <- (length_map_to_list (list_to_map (lm_iter entries))).
  f_equal. apply Permutation_length. symmetry. apply map_to_list_to_map, lm_nodup.
Qed.

Lemma cache_get_spec f k c :
  (cache_get f k c).1 = cache_map c !! (f, k) /\
  cache_map (cache_get f k c).2 = cache_map c /\ (cache_wf c -> cache_wf (cache_get f k c).2).
Proof.
  destruct c as [entries order|entries]; cbn; [done|]. rewrite lm_get_map.
  destruct (lm_map entries !! (f, k)); cbn; [by rewrite lm_refresh_map|done].
Qed.

Lemma cache_clear_all_spec c : cache_wf (cache_clear_all c) /\ cache_map (cache_clear_all c) = ∅.
Proof.
  destruct c as [e o|e]; cbn.
  - split; [|done]. split; [constructor|]. intros k. rewrite lookup_empty. split; [set_solver|by intros []].
  - split; [done|]. unfold lm_map. by rewrite lm_empty_iter.
Qed.

(** The rows of a fill on top of a map. *)
Definition insert_rows_map (f : Z) (rows : list (Z * bytes)) (m : gmap key bytes) : gmap key bytes :=
  foldl (fun m row => <[(f, row.1) := row.2]> m) m rows.

Lemma fifo_insert_all f rows : forall entries order,
  cache_wf (FifoStore entries order : ReadCacheStore M) ->
  let s := foldl (fifo_insert f) (entries, order) rows in
  s.1 = insert_rows_map f rows entries /\ cache_wf (FifoStore s.1 s.2 : ReadCacheStore M).
Proof.
  induction rows as [|[k d] rows IH]; intros entries order Hwf; [done|]. cbn.
  apply IH. destruct Hwf as [Hnd Hin]. case_bool_decide as Hs; split; try done.
  - intros k'. rewrite Hin, lookup_insert_is_Some. destruct (decide ((f, k) = k')) as [<-|]; [tauto|naive_solver].
  - apply NoDup_app. split; [done|]. split; [|apply NoDup_singleton].
    intros x Hx Hx'. apply list_elem_of_singleton in Hx' as ->. by apply Hin in Hx.
  - intros k'. rewrite elem_of_app, list_elem_of_singleton, Hin, lookup_insert_is_Some.
    destruct (decide ((f, k) = k')) as [<-|]; naive_solver.
Qed.

Lemma fifo_evict_spec limit order : forall entries,
  0 <= limit -> cache_wf (FifoStore entries order : ReadCacheStore M) ->
  let '(entries', order') := fifo_evict limit order entries in
  entries' ⊆ entries /\ Z.of_nat (size entries') <= limit /\
  cache_wf (FifoStore entries' order' : ReadCacheStore M).
Proof.
  induction order as [|k order IH]; intros entries Hl [Hnd Hin]; cbn.
  - assert (entries = ∅) as ->.
    { apply map_empty. intros k. apply eq_None_not_Some. rewrite <- Hin. set_solver. }
    rewrite map_size_empty. done.
  - destruct (Z.ltb_spec limit (Z.of_nat (size entries))); [|split; [done|split; [lia|done]]].
    inversion Hnd as [|? ? Hk Hnd']; subst.
    specialize (IH (delete k entries) Hl). destruct (fifo_evict limit order (delete k entries)) as [e' o'].
    destruct IH as (Hsub & Hsz & Hwf).
    + split; [done|]. intros k'. destruct (decide (k' = k)) as [->|Hne].
      * rewrite lookup_delete_eq. split; [done|by intros []].
      * rewrite lookup_delete_ne by done. rewrite <- Hin. set_solver.
    + split; [|done]. etrans; [exact Hsub|]. apply delete_subseteq.
Qed.

Lemma lru_insert_map f m row : lm_map (lru_insert f m row) = <[(f, row.1) := row.2]> (lm_map m).
Proof. unfold lru_insert. case_bool_decide; [rewrite lm_refresh_map|]; apply lm_insert_map. Qed.

Lemma lru_insert_all f rows : forall m, lm_map (foldl (lru_insert f) m rows) = insert_rows_map f rows (lm_map m).
Proof.
  induction rows as [|row rows IH]; intros m; [done|]. cbn. rewrite IH, lru_insert_map. done.
Qed.

Lemma lru_evict_spec fuel limit : forall m,
  0 <= limit -> zlen (lm_iter m) <= Z.of_nat fuel ->
  lm_map (lru_evict fuel limit m) ⊆ lm_map m /\ zlen (lm_iter (lru_evict fuel limit m)) <= limit.
Proof.
  induction fuel as [|fuel IH]; intros m Hl Hf; cbn [lru_evict]; [split; [done|lia]|].
  destruct (Z.ltb_spec limit (zlen (lm_iter m))); [|split; [done|lia]].
  pose proof (lm_pop_front_iter m) as Hp. destruct (lm_pop_front m) as [m'|].
  - destruct Hp as [[k d] Hp]. destruct (IH m' Hl) as [Hsub Hle].
    { rewrite Hp, zlen_cons in Hf. lia. }
    split; [|done]. etrans; [exact Hsub|]. unfold lm_map. rewrite Hp. cbn. apply insert_subseteq.
    apply not_elem_of_list_to_map_1. pose proof (lm_nodup m) as Hnd. rewrite Hp in Hnd. by inversion Hnd.
  - rewrite Hp, zlen_nil in *. lia.
Qed.

Lemma cache_insert_many_spec f rows limit c :
  0 <= limit -> cache_wf c ->
  let c' := cache_insert_many f rows limit c in
  cache_wf c' /\ cache_map c' ⊆ insert_rows_map f rows (cache_map c) /\ cache_len c' <= limit.
Proof.
  intros Hl Hwf. destruct c as [entries order|m]; cbn.
  - destruct (fifo_insert_all f rows entries order Hwf) as [H1 H2].
    destruct (foldl (fifo_insert f) (entries, order) rows) as [e o]. cbn in H1, H2. subst e.
    pose proof (fifo_evict_spec limit o _ Hl H2) as H3.
    destruct (fifo_evict limit o _) as [e' o']. tauto.
  - split; [done|]. rewrite <- lru_insert_all. apply lru_evict_spec; [done|]. unfold zlen. lia.
Qed.

Lemma lm_insert_all (l : list (key * bytes)) (P : key -> bool) : forall m,
  lm_map (foldl (fun m e => if P e.1 then lm_insert e.1 e.2 m else m) m l) =
  foldl (fun m e => if P e.1 then <[e.1 := e.2]> m else m) (lm_map m) l.
Proof.
  induction l as [|[k d] l IH]; intros m; [done|]. cbn. rewrite IH. destruct (P k); [by rewrite lm_insert_map|done].
Qed.

Lemma cache_clear_file_spec f c :
  cache_map (cache_clear_file f c) = filter (fun e => e.1.1 <> f) (cache_map c) /\
  (cache_wf c -> cache_wf (cache_clear_file f c)).
Proof.
  destruct c as [entries order|m]; cbn [cache_clear_file cache_map cache_wf].
  - split; [done|]. intros [Hnd Hin]. split; [by apply NoDup_filter|]. intros k.
    rewrite list_elem_of_filter, Hin. unfold is_Some. setoid_rewrite map_lookup_filter_Some. naive_solver.
  - split; [|done]. rewrite (lm_insert_all _ (fun k => negb (k.1 =? f))). unfold lm_map at 1. rewrite lm_empty_iter.
    cbn [list_to_map foldr]. unfold lm_map. pose proof (lm_nodup m) as Hnd. revert Hnd.
    generalize (lm_iter m). intros l. change (list_to_map []) with (∅ : gmap key bytes).
    assert (Hg : forall acc : gmap key bytes, (forall k, k ∈ l.*1 -> acc !! k = None) -> NoDup l.*1 ->
      foldl (fun m e => if negb (e.1.1 =? f) then <[e.1 := e.2]> m else m) acc l =
      filter (fun e => e.1.1 <> f) (list_to_map l : gmap key bytes) ∪ acc).
    { induction l as [|[k d] l IH]; intros acc Hacc Hnd; cbn.
      { by rewrite map_filter_empty, (left_id_L ∅ (∪)). }
      inversion Hnd as [|? ? Hk Hnd']; subst.
      assert (Hnone : (list_to_map l : gmap key bytes) !! k = None) by by apply not_elem_of_list_to_map_1.
      destruct (Z.eqb_spec k.1 f) as [Hf|Hf]; cbn [negb]; cycle 1.
      - rewrite IH; [|intros k' Hk'; rewrite lookup_insert_ne by (intros ->; done); apply Hacc; set_solver|done].
        rewrite map_filter_insert_True by done. rewrite <- insert_union_l, insert_union_r; [done|].
        apply map_lookup_filter_None. by left.
      - rewrite IH; [|intros k' Hk'; apply Hacc; set_solver|done]. rewrite map_filter_insert_False by (cbn; congruence).
        by rewrite delete_id. }
    intros Hnd. rewrite Hg; [by rewrite (right_id_L ∅ (∪))| |done]. intros k _. apply lookup_empty.
Qed.
End BlockCacheProofs.

Inductive cache_op : Type :=
| OpGet (file_id block_index : Z)
| OpInsertMany (file_id : Z) (blocks : list (Z * bytes)) (limit_blocks : Z)
| OpClearFile (file_id : Z)
| OpClearAll.

Section CacheHistories.
Context {M : Type} `{LinkedMapOk M}.

Definition cache_run_op (c : ReadCacheStore M) (op : cache_op) : ReadCacheStore M :=
  match op with
  | OpGet f k => (cache_get f k c).2
  | OpInsertMany f rows limit => cache_insert_many f rows limit c
  | OpClearFile f => cache_clear_file f c
  | OpClearAll => cache_clear_all c
  end.

(** The unbounded map the cache stands for. *)
Definition ideal_op (m : gmap key bytes) (op : cache_op) : gmap key bytes :=
  match op with
  | OpGet _ _ => m
  | OpInsertMany f rows _ => insert_rows_map f rows m
  | OpClearFile f => filter (fun e => e.1.1 <> f) m
  | OpClearAll => ∅
  end.

Lemma insert_rows_map_mono f rows : forall m1 m2,
  m1 ⊆ m2 -> insert_rows_map f rows m1 ⊆ insert_rows_map f rows m2.
Proof.
  induction rows as [|row rows IH]; intros m1 m2 Hs; [done|]. cbn. apply IH. by apply insert_mono.
Qed.

Lemma cache_run_op_refines L c m op :
  0 <= L -> (forall f rows limit, op = OpInsertMany f rows limit -> 0 <= limit <= L) ->
  cache_wf c -> cache_map c ⊆ m -> cache_len c <= L ->
  cache_wf (cache_run_op c op) /\ cache_map (cache_run_op c op) ⊆ ideal_op m op /\
  cache_len (cache_run_op c op) <= L.
Proof.
  intros HL Hop Hwf Hsub Hlen. destruct op as [f k|f rows limit|f|]; cbn.
  - destruct (cache_get_spec f k c) as (_ & Hm & Hw). rewrite cache_len_map, Hm, <- cache_len_map. auto.
  - destruct (Hop f rows limit eq_refl). destruct (cache_insert_many_spec f rows limit c) as (Hw & Hs & Hl); [done|done|].
    split; [done|]. split; [|lia]. etrans; [exact Hs|]. by apply insert_rows_map_mono.
  - destruct (cache_clear_file_spec f c) as [Hm Hw]. rewrite cache_len_map in Hlen |- *.
    rewrite Hm. split; [auto|]. split.
    + by apply map_filter_subseteq_mono.
    + etrans; [|exact Hlen]. apply inj_le, map_subseteq_size, map_filter_subseteq.
  - destruct (cache_clear_all_spec c) as [Hw Hm]. rewrite cache_len_map, Hm, map_size_empty.
    split; [done|]. split; [done|lia].
Qed.

Lemma cache_history_refines L ops : forall c m,
  0 <= L -> Forall (fun op => forall f rows limit, op = OpInsertMany f rows limit -> 0 <= limit <= L) ops ->
  cache_wf c -> cache_map c ⊆ m -> cache_len c <= L ->
  cache_map (foldl cache_run_op c ops) ⊆ foldl ideal_op m ops /\ cache_len (foldl cache_run_op c ops) <= L.
Proof.
  induction ops as [|op ops IH]; intros c m HL Hops Hwf Hsub Hlen; [done|].
  inversion Hops as [|? ? Hop Hops']; subst. cbn.
  destruct (cache_run_op_refines L c m op HL Hop Hwf Hsub Hlen) as (Hw & Hs & Hl). by apply IH.
Qed.

(** The block cache, under either eviction policy and after any history of
    lookups, fills and invalidations, holds at most as many blocks as the largest
    limit it was filled with, and a hit is never wrong: it returns what an unbounded
    map that had seen the same history would return, that is the last block filled
    in for that file and index that no invalidation has removed since. *)
Theorem cache_hits_are_current policy ops L f k d :
  0 <= L -> Forall (fun op => forall f rows limit, op = OpInsertMany f rows limit -> 0 <= limit <= L) ops ->
  let c := foldl cache_run_op (cache_new policy : ReadCacheStore M) ops in
  cache_len c <= L /\
  ((cache_get f k c).1 = Some d -> foldl ideal_op ∅ ops !! (f, k) = Some d).
Proof.
  intros HL Hops c. destruct (cache_new_spec (M := M) policy) as [Hw Hm].
  destruct (cache_history_refines L ops (cache_new policy) ∅) as [Hs Hl]; [done|done|done|by rewrite Hm| |].
  { rewrite cache_len_map, Hm, map_size_empty. lia. }
  split; [done|]. destruct (cache_get_spec f k c) as (-> & _ & _). intros Hd. by eapply lookup_weaken.
Qed.
End CacheHistories.

(** An association list as a linked hash map. *)
Section AssocMap.
Record assoc_map : Type := { am_list : list (key * bytes); am_nodup : bool_decide (NoDup am_list.*1) = true }.

Definition am_remove (k : key) (l : list (key * bytes)) : list (key * bytes) :=
  filter (fun e => e.1 <> k) l.

Lemma am_remove_nodup k l : NoDup l.*1 -> NoDup (am_remove k l).*1 /\ k ∉ (am_remove k l).*1.
Proof.
  intros Hnd. unfold am_remove. split.
  - induction l as [|e l IH]; [done|]. inversion Hnd as [|? ? He Hnd']; subst. rewrite filter_cons.
    case_decide; [|by apply IH]. cbn. constructor; [|by apply IH]. intros Hin. apply He.
    apply list_elem_of_fmap in Hin as (e' & E & Hin). apply list_elem_of_filter in Hin as [_ Hin].
    rewrite E. apply list_elem_of_fmap. by exists e'.
  - intros Hin. apply list_elem_of_fmap in Hin as (e & E & Hin). apply list_elem_of_filter in Hin as [Hne _]. congruence.
Qed.

Lemma am_remove_map k l : (list_to_map (am_remove k l) : gmap key bytes) = delete k (list_to_map l).
Proof.
  unfold am_remove. induction l as [|[k' d] l IH]; [symmetry; apply delete_empty|].
  rewrite filter_cons, (list_to_map_cons l k' d). case_decide as Hne; cbn [fst] in Hne.
  - rewrite list_to_map_cons, IH. by rewrite delete_insert_ne by congruence.
  - assert (k' = k) as -> by (destruct (decide (k' = k)); tauto). rewrite IH. by rewrite delete_insert_eq.
Qed.

Program Definition am_insert (k : key) (v : bytes) (m : assoc_map) : assoc_map :=
  {| am_list := am_remove k (am_list m) ++ [(k, v)] |}.
Next Obligation.
  intros k v [l Hl']. pose proof (bool_decide_eq_true_1 _ Hl') as Hl. apply bool_decide_eq_true_2. cbn.
  destruct (am_remove_nodup k l Hl) as [H1 H2]. rewrite fmap_app. apply NoDup_app. split; [done|].
  split; [|apply NoDup_singleton]. intros x Hx Hx'. apply list_elem_of_singleton in Hx' as ->. done.
Qed.

Definition am_get (k : key) (m : assoc_map) : option bytes := (list_to_map (am_list m) : gmap key bytes) !! k.

Definition am_refresh (k : key) (m : assoc_map) : assoc_map :=
  match am_get k m with Some v => am_insert k v m | None => m end.

Lemma am_tail_nodup m e l : am_list m = e :: l -> bool_decide (NoDup l.*1) = true.
Proof.
  intros E. destruct m as [l' Hl]. cbn in E. subst. apply bool_decide_eq_true_2.
  pose proof (bool_decide_eq_true_1 _ Hl) as Hnd. by inversion Hnd.
Qed.

Definition am_pop_front (m : assoc_map) : option assoc_map :=
  match am_list m as l0 return am_list m = l0 -> option assoc_map with
  | [] => fun _ => None
  | e :: l => fun E => Some {| am_list := l; am_nodup := am_tail_nodup m e l E |}
  end eq_refl.

#[global] Instance assoc_linked_map : LinkedMap assoc_map := {
  lm_empty := {| am_list := []; am_nodup := eq_refl |};
  lm_iter := am_list;
  lm_get := am_get;
  lm_insert := am_insert;
  lm_refresh := am_refresh;
  lm_pop_front := am_pop_front
}.

Lemma am_insert_map k v m : (lm_map (am_insert k v m) : gmap key bytes) = <[k := v]> (lm_map m).
Proof.
  unfold lm_map. cbn. rewrite list_to_map_app, am_remove_map. cbn.
  rewrite <- insert_union_r, (right_id_L ∅ (∪)); [by rewrite insert_delete_eq|apply lookup_delete_eq].
Qed.

#[global] Instance assoc_linked_map_ok : LinkedMapOk assoc_map.
Proof.
  split.
  - done.
  - intros [l Hl]. exact (bool_decide_eq_true_1 _ Hl).
  - done.
  - apply am_insert_map.
  - intros k m. change (lm_refresh k m) with (am_refresh k m). unfold am_refresh.
    destruct (am_get k m) as [v|] eqn:E; [|done]. rewrite am_insert_map. by apply insert_id.
  - intros [[|e l] Hl]; cbn; [done|by exists e].
Qed.
End AssocMap.

(** A cache of two blocks filled three times: the first block is evicted, the last
    one is found. *)
Lemma cache_hits_are_current_witness :
  let ops := [OpInsertMany 7 [(0, [1])] 2; OpInsertMany 7 [(1, [2]); (2, [3])] 2; OpGet 7 1] in
  let c := foldl cache_run_op (cache_new Lru : ReadCacheStore assoc_map) ops in
  cache_len c <= 2 /\ (foldl ideal_op ∅ ops !! (7, 2) = Some [3]).
Proof.
  destruct (cache_hits_are_current (M := assoc_map) Lru
    [OpInsertMany 7 [(0, [1])] 2; OpInsertMany 7 [(1, [2]); (2, [3])] 2; OpGet 7 1] 2 7 2 [3])
    as [Hl Hg]; [lia| |].
  - repeat first [apply Forall_nil_2 | apply Forall_cons_2; [intros ??? [=]; subst; lia|]].
  - split; [exact Hl|]. apply Hg. vm_compute. reflexivity.
Defined.

(** ** Late fills never resurrect stale blocks

    The interleavings of readers that fill the cache with writers that persist
    blocks and then invalidate. A reader takes a stamp, fetches rows from the store
    and publishes them; a writer first changes the store and later clears the
    file's cache entries, and [fs_pending] counts the writers in between. *)

Section FillSystem.
Context {M : Type} `{LinkedMapOk M} (settings : ReadSettings).
Hypothesis Hlimit : 0 <= read_cache_limit_blocks settings.

Record Reader : Type := {
  rd_file : Z;
  rd_stamp : FileCacheStamp;
  rd_fetched : option (list (Z * bytes))
}.

Record FillSystem : Type := {
  fs_store : Z -> Z -> option bytes;
  fs_cache : FileCacheGenerationGate * ReadCacheStore M;
  fs_pending : Z -> nat;
  fs_readers : gmap nat Reader
}.

Inductive fill_step (s : FillSystem) : FillSystem -> Prop :=
| fill_start i f : fs_readers s !! i = None ->
    fill_step s {| fs_store := fs_store s; fs_cache := fs_cache s; fs_pending := fs_pending s;
      fs_readers := <[i := {| rd_file := f; rd_stamp := gate_snapshot (fs_cache s).1 f;
                              rd_fetched := None |}]> (fs_readers s) |}
| fill_fetch i f stamp rows :
    fs_readers s !! i = Some {| rd_file := f; rd_stamp := stamp; rd_fetched := None |} ->
    (forall k d, (k, d) ∈ rows -> fs_store s f k = Some d) ->
    fill_step s {| fs_store := fs_store s; fs_cache := fs_cache s; fs_pending := fs_pending s;
      fs_readers := <[i := {| rd_file := f; rd_stamp := stamp; rd_fetched := Some rows |}]> (fs_readers s) |}
| fill_publish i f stamp rows :
    fs_readers s !! i = Some {| rd_file := f; rd_stamp := stamp; rd_fetched := Some rows |} ->
    fill_step s {| fs_store := fs_store s;
      fs_cache := (publish_if_current f stamp (store_read_blocks settings f rows) (fs_cache s)).2;
      fs_pending := fs_pending s; fs_readers := delete i (fs_readers s) |}
| fill_persist f blocks :
    fill_step s {| fs_store := fun f' => if f' =? f then blocks else fs_store s f';
      fs_cache := fs_cache s;
      fs_pending := fun f' => if f' =? f then S (fs_pending s f') else fs_pending s f';
      fs_readers := fs_readers s |}
| fill_invalidate f : (0 < fs_pending s f)%nat -> (gate_entry (fs_cache s).1 f).2 < U64_MAX ->
    fill_step s {| fs_store := fs_store s; fs_cache := clear_read_cache_for_file f (fs_cache s);
      fs_pending := fun f' => if f' =? f then pred (fs_pending s f') else fs_pending s f';
      fs_readers := fs_readers s |}
| fill_reload : 0 <= gate_cache_epoch (fs_cache s).1 < U64_MAX ->
    fill_step s {| fs_store := fs_store s; fs_cache := invalidate_all_and cache_clear_all (fs_cache s);
      fs_pending := fs_pending s; fs_readers := fs_readers s |}.

(** No reader, no writer, nothing cached. *)
Definition fill_initial (s : FillSystem) : Prop :=
  cache_wf (fs_cache s).2 /\ cache_map (fs_cache s).2 = ∅ /\ fs_readers s = ∅ /\ forall f, fs_pending s f = O.

(** No stamp is from the future; rows in flight under a current stamp, and cached
    blocks, are the store's when no writer of the file is pending. *)
Record fill_inv (s : FillSystem) : Prop := {
  fi_wf : cache_wf (fs_cache s).2;
  fi_stamps : forall i r, fs_readers s !! i = Some r ->
    epoch (rd_stamp r) <= (gate_entry (fs_cache s).1 (rd_file r)).2 /\
    cache_epoch (rd_stamp r) <= gate_cache_epoch (fs_cache s).1;
  fi_rows : forall i r rows k d, fs_readers s !! i = Some r -> rd_fetched r = Some rows ->
    fs_pending s (rd_file r) = O -> is_current (fs_cache s).1 (rd_file r) (rd_stamp r) = true ->
    (k, d) ∈ rows -> fs_store s (rd_file r) k = Some d;
  fi_cache : forall f k d, fs_pending s f = O -> cache_map (fs_cache s).2 !! (f, k) = Some d ->
    fs_store s f k = Some d
}.

Lemma insert_rows_map_lookup f rows : forall m g k d,
  insert_rows_map f rows m !! (g, k) = Some d -> (g = f /\ (k, d) ∈ rows) \/ m !! (g, k) = Some d.
Proof.
  induction rows as [|[k' d'] rows IH]; intros m g k d Hl; [by right|]. cbn in Hl.
  apply IH in Hl as [[-> Hin]|Hl]; [left; set_solver|].
  apply lookup_insert_Some in Hl as [[[= <- <-] <-]|[_ Hl]]; [left; set_solver|by right].
Qed.

Lemma store_read_blocks_spec f rows (c : ReadCacheStore M) :
  cache_wf c ->
  cache_wf (store_read_blocks settings f rows c) /\
  forall g k d, cache_map (store_read_blocks settings f rows c) !! (g, k) = Some d ->
    (g = f /\ (k, d) ∈ rows) \/ cache_map c !! (g, k) = Some d.
Proof.
  intros Hwf. unfold store_read_blocks. destruct (_ || _); [by auto|].
  destruct (cache_insert_many_spec f rows (read_cache_limit_blocks settings) c) as (H1 & H2 & _); [done|done|].
  split; [done|]. intros g k d Hl. eapply insert_rows_map_lookup. by eapply lookup_weaken.
Qed.

Lemma gate_entry_insert g f f' e :
  gate_entry {| gate_cache_epoch := gate_cache_epoch g; gate_files := <[f := e]> (gate_files g) |} f' =
  if decide (f' = f) then e else gate_entry g f'.
Proof.
  unfold gate_entry. cbn. case_decide as E; [subst; by rewrite lookup_insert_eq|by rewrite lookup_insert_ne].
Qed.

Lemma fill_inv_publish s i f stamp rows :
  fill_inv s -> fs_readers s !! i = Some {| rd_file := f; rd_stamp := stamp; rd_fetched := Some rows |} ->
  fill_inv {| fs_store := fs_store s;
    fs_cache := (publish_if_current f stamp (store_read_blocks settings f rows) (fs_cache s)).2;
    fs_pending := fs_pending s; fs_readers := delete i (fs_readers s) |}.
Proof.
  intros [Iw Is Ir Ic] Hi. destruct (fs_cache s) as [g c] eqn:Ec. cbn [fst snd] in *.
  destruct (store_read_blocks_spec f rows c Iw) as [Hw Hl]. unfold publish_if_current.
  case_bool_decide as Hcur; split; cbn [fs_store fs_cache fs_pending fs_readers fst snd]; try done.
  1, 4: intros j r Hj; apply lookup_delete_Some in Hj as [_ Hj]; by apply (Is j).
  1, 3: intros j r rows' k d Hj; apply lookup_delete_Some in Hj as [_ Hj]; by apply (Ir j).
  intros f' k d Hp Hd. apply Hl in Hd as [[-> Hin]|Hd]; [|by apply Ic].
  apply (Ir i _ rows k d Hi eq_refl Hp); [|done]. unfold is_current. by rewrite bool_decide_eq_true_2.
Qed.

Lemma fill_inv_invalidate s f :
  fill_inv s -> (gate_entry (fs_cache s).1 f).2 < U64_MAX ->
  fill_inv {| fs_store := fs_store s; fs_cache := clear_read_cache_for_file f (fs_cache s);
    fs_pending := fun f' => if f' =? f then pred (fs_pending s f') else fs_pending s f';
    fs_readers := fs_readers s |}.
Proof.
  intros [Iw Is Ir Ic] Hb. destruct (fs_cache s) as [g c] eqn:Ec. cbn [fst snd] in *.
  unfold clear_read_cache_for_file, invalidate_and. destruct (gate_entry g f) as [gen ep] eqn:Eg. cbn [snd] in Hb.
  destruct (cache_clear_file_spec f c) as [Hm Hw].
  assert (Hsat : sat_add ep 1 = ep + 1) by (unfold sat_add; lia).
  split; cbn [fs_store fs_cache fs_pending fs_readers fst snd].
  - auto.
  - intros i r Hi. destruct (Is i r Hi) as [H1 H2]. rewrite gate_entry_insert. split; [|done].
    case_decide as E; [|done]. rewrite E, Eg in H1. cbn in *. lia.
  - intros i r rows k d Hi Hf Hp Hcur Hin. revert Hp Hcur. unfold is_current, gate_snapshot.
    rewrite gate_entry_insert. case_decide as E.
    + intros _ Hcur. apply bool_decide_eq_true_1 in Hcur. destruct (Is i r Hi) as [H1 _].
      rewrite E, Eg in H1. rewrite <- Hcur in H1. cbn in H1. lia.
    + destruct (Z.eqb_spec (rd_file r) f); [done|]. intros Hp Hcur. by apply (Ir i r rows k d).
  - intros f' k d Hp Hd. rewrite Hm in Hd. apply map_lookup_filter_Some in Hd as [Hd Hne]. cbn in Hne.
    destruct (Z.eqb_spec f' f); [done|]. by apply Ic.
Qed.

Lemma fill_step_inv s s' : fill_inv s -> fill_step s s' -> fill_inv s'.
Proof.
  intros I Hs. pose proof I as [Iw Is Ir Ic]. destruct Hs as [i f Hi|i f st rows Hi Hrows|i f st rows Hi|f bl|f Hp Hb|Hb].
  - split; cbn; try done.
    + intros j r Hj. apply lookup_insert_Some in Hj as [[<- <-]|[_ Hj]]; [|by apply (Is j)]. cbn.
      unfold gate_snapshot. destruct (gate_entry _ f). cbn. lia.
    + intros j r rows k d Hj. apply lookup_insert_Some in Hj as [[<- <-]|[_ Hj]]; [done|by apply (Ir j)].
  - split; cbn; try done.
    + intros j r Hj. apply lookup_insert_Some in Hj as [[<- <-]|[_ Hj]]; [exact (Is i _ Hi)|by apply (Is j)].
    + intros j r rows' k d Hj. apply lookup_insert_Some in Hj as [[<- <-]|[_ Hj]]; [|by apply (Ir j)].
      cbn. intros [= <-] _ _. apply Hrows.
  - by apply fill_inv_publish.
  - split; cbn; try done.
    + intros j r rows k d Hj Hf Hp. destruct (Z.eqb_spec (rd_file r) f); [done|]. by apply (Ir j r rows k d).
    + intros f' k d Hp. destruct (Z.eqb_spec f' f); [done|]. by apply Ic.
  - by apply fill_inv_invalidate.
  - destruct (fs_cache s) as [g c] eqn:Ec. cbn [fst snd] in *.
    split; cbn [fs_store fs_cache fs_pending fs_readers fst snd invalidate_all_and].
    + by apply cache_clear_all_spec.
    + intros i r Hi. destruct (Is i r Hi) as [H1 H2]. split; [done|]. cbn. rewrite wrap_add_1; lia.
    + intros i r rows k d Hi Hf Hp Hcur. destruct (Is i r Hi) as [_ H2]. apply bool_decide_eq_true_1 in Hcur.
      rewrite <- Hcur in H2. unfold gate_snapshot in H2. destruct (gate_entry _ _). cbn in H2.
      rewrite wrap_add_1 in H2; lia.
    + intros f k d _. rewrite (proj2 (cache_clear_all_spec c)). by rewrite lookup_empty.
Qed.

(** C7: The generation gate keeps the read cache coherent under every interleaving
    of concurrent fills, writers and cache reloads: whenever no writer of a file is
    between its commit and its invalidation, a cache hit for that file is the block
    the store holds now, although readers fetch rows long before they publish them. *)
Theorem gate_keeps_cache_coherent s0 s f k d :
  fill_initial s0 -> rtc fill_step s0 s -> fs_pending s f = O ->
  (cache_get f k (fs_cache s).2).1 = Some d -> fs_store s f k = Some d.
Proof.
  intros (Hw & Hm & Hr & Hp) Hsteps. assert (I0 : fill_inv s0).
  { split; [done|..]; rewrite ?Hr, ?Hm; intros *; rewrite lookup_empty; done. }
  assert (I : fill_inv s) by (clear -Hsteps I0 H0 Hlimit; induction Hsteps; eauto using fill_step_inv).
  destruct (cache_get_spec f k (fs_cache s).2) as (-> & _ & _). intros Hz. by apply I.
Qed.
End FillSystem.

Definition sample_settings : ReadSettings := {|
  read_cache_blocks := 8; direct_io_read_prefetch_blocks := 0; workers_read := 1;
  workers_read_min_blocks := 1; small_file_read_threshold_blocks := 8; live_read_ahead_blocks := 4;
  live_sequential_read_ahead_blocks := 8; fopen_direct_io := false |}.

Definition sample_fill : FillSystem (M := assoc_map) := {|
  fs_store := fun _ _ => Some [1];
  fs_cache := ({| gate_cache_epoch := 0; gate_files := ∅ |}, cache_new Lru);
  fs_pending := fun _ => O;
  fs_readers := ∅ |}.

(** The steps of reader [i] on file 7, and a writer of that file. *)
Definition sample_start (i : nat) (s : FillSystem (M := assoc_map)) : FillSystem := {|
  fs_store := fs_store s; fs_cache := fs_cache s; fs_pending := fs_pending s;
  fs_readers := <[i := {| rd_file := 7; rd_stamp := gate_snapshot (fs_cache s).1 7; rd_fetched := None |}]>
    (fs_readers s) |}.
Definition sample_fetch (i : nat) (stamp : FileCacheStamp) (rows : list (Z * bytes))
    (s : FillSystem (M := assoc_map)) : FillSystem := {|
  fs_store := fs_store s; fs_cache := fs_cache s; fs_pending := fs_pending s;
  fs_readers := <[i := {| rd_file := 7; rd_stamp := stamp; rd_fetched := Some rows |}]> (fs_readers s) |}.
Definition sample_publish (i : nat) (stamp : FileCacheStamp) (rows : list (Z * bytes))
    (s : FillSystem (M := assoc_map)) : FillSystem := {|
  fs_store := fs_store s;
  fs_cache := (publish_if_current 7 stamp (store_read_blocks sample_settings 7 rows) (fs_cache s)).2;
  fs_pending := fs_pending s; fs_readers := delete i (fs_readers s) |}.
Definition sample_write (s : FillSystem (M := assoc_map)) : FillSystem := {|
  fs_store := fun f' => if f' =? 7 then (fun _ => Some [2]) else fs_store s f';
  fs_cache := fs_cache s;
  fs_pending := fun f' => if f' =? 7 then S (fs_pending s f') else fs_pending s f';
  fs_readers := fs_readers s |}.
Definition sample_invalidate (s : FillSystem (M := assoc_map)) : FillSystem := {|
  fs_store := fs_store s; fs_cache := clear_read_cache_for_file 7 (fs_cache s);
  fs_pending := fun f' => if f' =? 7 then pred (fs_pending s f') else fs_pending s f';
  fs_readers := fs_readers s |}.

Definition stamp_at (ep : Z) : FileCacheStamp := {| generation := 0; epoch := ep; cache_epoch := 0 |}.

(** Reader 1 fetches block 0 of file 7, a writer replaces it and invalidates, reader
    1 publishes too late, reader 2 fills the cache with the new block. *)
Definition sample_fill4 : FillSystem :=
  sample_invalidate (sample_write (sample_fetch 1 (stamp_at 0) [(0, [1])] (sample_start 1 sample_fill))).
Definition sample_fill8 : FillSystem :=
  sample_publish 2 (stamp_at 1) [(0, [2])]
    (sample_fetch 2 (stamp_at 1) [(0, [2])] (sample_start 2 (sample_publish 1 (stamp_at 0) [(0, [1])] sample_fill4))).

Lemma sample_fill_trace : rtc (fill_step sample_settings) sample_fill sample_fill8.
Proof.
  assert (Hrow : forall (b : Z) k d, (k, d) ∈ [(0, [b])] -> Some [b] = Some d)
    by (intros b k d Hk; apply list_elem_of_singleton in Hk as [= -> ->]; reflexivity).
  eapply rtc_l; [exact (fill_start _ sample_fill 1%nat 7 eq_refl)|].
  eapply rtc_l; [exact (fill_fetch _ (sample_start 1 sample_fill) 1%nat 7 (stamp_at 0) [(0, [1])] eq_refl (Hrow 1))|].
  eapply rtc_l; [exact (fill_persist _ (sample_fetch 1 (stamp_at 0) [(0, [1])] (sample_start 1 sample_fill)) 7
    (fun _ => Some [2]))|].
  eapply rtc_l; [exact (fill_invalidate _ (sample_write (sample_fetch 1 (stamp_at 0) [(0, [1])]
    (sample_start 1 sample_fill))) 7 Nat.lt_0_1 eq_refl)|].
  eapply rtc_l; [exact (fill_publish _ sample_fill4 1%nat 7 (stamp_at 0) [(0, [1])] eq_refl)|].
  eapply rtc_l; [exact (fill_start _ (sample_publish 1 (stamp_at 0) [(0, [1])] sample_fill4) 2%nat 7 eq_refl)|].
  eapply rtc_l; [exact (fill_fetch _ (sample_start 2 (sample_publish 1 (stamp_at 0) [(0, [1])] sample_fill4))
    2%nat 7 (stamp_at 1) [(0, [2])] eq_refl (Hrow 2))|].
  eapply rtc_l; [|apply rtc_refl].
  exact (fill_publish _ (sample_fetch 2 (stamp_at 1) [(0, [2])] (sample_start 2
    (sample_publish 1 (stamp_at 0) [(0, [1])] sample_fill4))) 2%nat 7 (stamp_at 1) [(0, [2])] eq_refl).
Qed.

Lemma gate_keeps_cache_coherent_witness :
  (cache_get 7 0 (fs_cache sample_fill8).2).1 = Some [2] /\ fs_store sample_fill8 7 0 = Some [2].
Proof.
  split; [vm_compute; reflexivity|].
  apply (gate_keeps_cache_coherent sample_settings ltac:(vm_compute; discriminate) sample_fill sample_fill8 7 0 [2]);
    [split_and!; done|exact sample_fill_trace|vm_compute; reflexivity|vm_compute; reflexivity].
Defined.

(** ** Concurrent fills have disjoint owners *)

Lemma read_fill_ranges_spec blocks :
  StronglySorted Z.lt blocks -> Forall (fun b => b <= U64_MAX) blocks ->
  forall x, in_ranges x (read_fill_ranges blocks) <-> x ∈ blocks.
Proof.
  intros Hs Hb x. destruct blocks as [|b blocks]; cbn [read_fill_ranges].
  { split; [by intros ?%in_ranges_nil|set_solver]. }
  destruct (run_ranges_spec (fun e => sat_add e 1) blocks b b) as [_ Hin]; [lia|done| |].
  - intros e v He Hv Hlt. rewrite Forall_forall in Hb. specialize (Hb v ltac:(set_solver)).
    unfold sat_add. lia.
  - rewrite Hin, elem_of_cons. split; intros [?|?]; auto; left; lia.
Qed.

Lemma ranges_overlap_false l r x :
  read_fill_ranges_overlap l r = false -> in_ranges x l -> in_ranges x r -> False.
Proof.
  intros Ho (a & Ha & Hxa) (b & Hb & Hxb). apply not_true_iff_false in Ho. apply Ho.
  unfold read_fill_ranges_overlap. apply existsb_exists. exists a. split; [by apply list_elem_of_In|].
  apply existsb_exists. exists b. split; [by apply list_elem_of_In|].
  apply andb_true_iff. rewrite !Z.leb_le. lia.
Qed.

(** Outstanding leases with the blocks they were requested for. *)
Record FillThreads : Type := {
  ft_coordinator : ReadFillCoordinator;
  ft_leases : gmap nat (ReadFillLease * list Z)
}.

Inductive fill_lease_step (s : FillThreads) : FillThreads -> Prop :=
| lease_acquire i f missing : ft_leases s !! i = None ->
    StronglySorted Z.lt missing -> Forall (fun b => b <= U64_MAX) missing ->
    fill_lease_step s (let '(lease, c) := fill_acquire f missing (ft_coordinator s) in
      {| ft_coordinator := c; ft_leases := <[i := (lease, missing)]> (ft_leases s) |})
| lease_drop i lease missing : ft_leases s !! i = Some (lease, missing) ->
    fill_lease_step s {| ft_coordinator := fill_drop lease (ft_coordinator s);
      ft_leases := delete i (ft_leases s) |}.

Definition file_flights (c : ReadFillCoordinator) (f : Z) : list ReadFillFlight :=
  default [] (flights c !! f).

Record fill_lease_inv (s : FillThreads) : Prop := {
  li_blocks : forall i l missing, ft_leases s !! i = Some (l, missing) -> le_owner l = true ->
    le_flight l ∈ file_flights (ft_coordinator s) (le_file_id l) /\
    (forall x, in_ranges x (fl_ranges (le_flight l)) <-> x ∈ missing);
  li_owner : forall f fl, fl ∈ file_flights (ft_coordinator s) f ->
    (fl_id fl < next_flight (ft_coordinator s))%nat /\
    exists i l missing, ft_leases s !! i = Some (l, missing) /\ le_owner l = true /\
      le_flight l = fl /\ le_file_id l = f;
  li_unique : forall i j l1 l2 m1 m2, ft_leases s !! i = Some (l1, m1) -> ft_leases s !! j = Some (l2, m2) ->
    le_owner l1 = true -> le_owner l2 = true -> fl_id (le_flight l1) = fl_id (le_flight l2) -> i = j;
  li_disjoint : forall f fl1 fl2 x, fl1 ∈ file_flights (ft_coordinator s) f ->
    fl2 ∈ file_flights (ft_coordinator s) f -> in_ranges x (fl_ranges fl1) -> in_ranges x (fl_ranges fl2) ->
    fl_id fl1 = fl_id fl2;
  li_waiting : forall i l missing, ft_leases s !! i = Some (l, missing) -> le_owner l = false ->
    fl_id (le_flight l) ∈ flights_done (ft_coordinator s) \/
    le_flight l ∈ file_flights (ft_coordinator s) (le_file_id l)
}.

Lemma file_flights_insert c f f' l n d :
  file_flights {| flights := <[f := l]> (flights c); next_flight := n; flights_done := d |} f' =
  if decide (f' = f) then l else file_flights c f'.
Proof.
  unfold file_flights. cbn. case_decide as E; [subst; by rewrite lookup_insert_eq|by rewrite lookup_insert_ne].
Qed.

Lemma file_flights_finish c f fl f' x :
  x ∈ file_flights (fill_finish f fl c) f' <->
  x ∈ file_flights c f' /\ (f' = f -> fl_id x <> fl_id fl).
Proof.
  unfold fill_finish, file_flights. cbn. destruct (flights c !! f) as [l|] eqn:E; cbn.
  2: { split; [|tauto]. intros Hx. split; [done|]. intros ->. rewrite E in Hx. set_solver. }
  destruct (filter (fun current => fl_id current <> fl_id fl) l) as [|a l'] eqn:Ef.
  - destruct (decide (f' = f)) as [->|Hne]; [|rewrite lookup_delete_ne by done; naive_solver].
    rewrite lookup_delete_eq, E. cbn. split; [set_solver|]. intros [Hx Hid].
    assert (Hin : x ∈ filter (fun current => fl_id current <> fl_id fl) l) by (apply list_elem_of_filter; auto).
    rewrite Ef in Hin. set_solver.
  - destruct (decide (f' = f)) as [->|Hne]; [|rewrite lookup_insert_ne by done; naive_solver].
    rewrite lookup_insert_eq, E. cbn. rewrite <- Ef, list_elem_of_filter. naive_solver.
Qed.

(** Joining a fill that is already under way. *)
Lemma fill_join_inv s i f missing fl :
  fill_lease_inv s -> ft_leases s !! i = None -> fl ∈ file_flights (ft_coordinator s) f ->
  fill_lease_inv {| ft_coordinator := {| flights := <[f := file_flights (ft_coordinator s) f]>
      (flights (ft_coordinator s)); next_flight := next_flight (ft_coordinator s);
      flights_done := flights_done (ft_coordinator s) |};
    ft_leases := <[i := ({| le_file_id := f; le_flight := fl; le_owner := false |}, missing)]> (ft_leases s) |}.
Proof.
  intros [Ib Io Iu Id Iw] Hi Hin.
  assert (Hff : forall f' x, x ∈ file_flights {| flights := <[f := file_flights (ft_coordinator s) f]>
    (flights (ft_coordinator s)); next_flight := next_flight (ft_coordinator s);
    flights_done := flights_done (ft_coordinator s) |} f' <-> x ∈ file_flights (ft_coordinator s) f').
  { intros f' x. rewrite file_flights_insert. case_decide; by subst. }
  split; cbn [ft_coordinator ft_leases next_flight flights_done].
  - intros j l m Hj Ho. apply lookup_insert_Some in Hj as [[<- [= <- <-]]|[_ Hj]]; [done|].
    rewrite Hff. by apply (Ib j).
  - intros f' fl' Hfl. rewrite Hff in Hfl. destruct (Io f' fl' Hfl) as (Hlt & j & l & m & Hj & ?).
    split; [done|]. exists j, l, m. rewrite lookup_insert_ne by congruence. done.
  - intros j1 j2 l1 l2 m1 m2 H1 H2 O1 O2. apply lookup_insert_Some in H1 as [[<- [= <- <-]]|[_ H1]]; [done|].
    apply lookup_insert_Some in H2 as [[<- [= <- <-]]|[_ H2]]; [done|]. by apply (Iu j1 j2 l1 l2 m1 m2).
  - intros f' a b x Ha Hb'. rewrite Hff in Ha, Hb'. by apply (Id f').
  - intros j l m Hj Ho. rewrite Hff. apply lookup_insert_Some in Hj as [[<- [= <- <-]]|[_ Hj]]; [by right|].
    by apply (Iw j l m).
Qed.

(** Starting a new one. *)
Lemma fill_own_inv s i f missing :
  fill_lease_inv s -> ft_leases s !! i = None ->
  StronglySorted Z.lt missing -> Forall (fun b => b <= U64_MAX) missing ->
  find (fun flight => read_fill_ranges_overlap (read_fill_ranges missing) (fl_ranges flight))
    (file_flights (ft_coordinator s) f) = None ->
  let nf := {| fl_id := next_flight (ft_coordinator s); fl_ranges := read_fill_ranges missing |} in
  fill_lease_inv {| ft_coordinator := {| flights := <[f := file_flights (ft_coordinator s) f ++ [nf]]>
      (flights (ft_coordinator s)); next_flight := S (next_flight (ft_coordinator s));
      flights_done := flights_done (ft_coordinator s) |};
    ft_leases := <[i := ({| le_file_id := f; le_flight := nf; le_owner := true |}, missing)]> (ft_leases s) |}.
Proof.
  intros [Ib Io Iu Id Iw] Hi Hs Hb Ef nf.
  assert (Hnov : forall a x, a ∈ file_flights (ft_coordinator s) f -> x ∈ missing ->
    in_ranges x (fl_ranges a) -> False).
  { intros a x Ha Hx Hxa. pose proof (find_none _ _ Ef a) as Hn.
    apply (ranges_overlap_false _ _ x (Hn (proj1 (list_elem_of_In _ _) Ha))); [|done].
    by apply read_fill_ranges_spec. }
  set (c' := {| flights := _ |}).
  assert (Hff : forall f' x, x ∈ file_flights c' f' <->
    x ∈ file_flights (ft_coordinator s) f' \/ (f' = f /\ x = nf)).
  { intros f' x. unfold c'. rewrite file_flights_insert. case_decide; set_solver. }
  assert (Hblk : forall x, in_ranges x (fl_ranges nf) <-> x ∈ missing) by by apply read_fill_ranges_spec.
  split; cbn [ft_coordinator ft_leases].
  - intros j l m Hj Ho. apply lookup_insert_Some in Hj as [[<- [= <- <-]]|[_ Hj]]; rewrite Hff.
    + cbn. auto.
    + destruct (Ib j l m Hj Ho). auto.
  - intros f' fl' Hfl. apply Hff in Hfl as [Hfl|[-> ->]].
    + destruct (Io f' fl' Hfl) as (Hlt & j & l & m & Hj & ?). split; [cbn; lia|]. exists j, l, m.
      rewrite lookup_insert_ne by congruence. done.
    + split; [cbn; lia|]. eexists i, _, missing. by rewrite lookup_insert_eq.
  - assert (Hnew : forall j l m, ft_leases s !! j = Some (l, m) -> le_owner l = true ->
      fl_id (le_flight l) <> fl_id nf).
    { intros j l m Hj Ho. destruct (Ib j l m Hj Ho) as [Hin _]. destruct (Io _ _ Hin) as [Hlt _]. cbn. lia. }
    intros j1 j2 l1 l2 m1 m2 H1 H2 O1 O2 Hid. apply lookup_insert_Some in H1 as [[<- [= <- <-]]|[_ H1]];
      apply lookup_insert_Some in H2 as [[<- [= <- <-]]|[_ H2]]; [done| | |by apply (Iu j1 j2 l1 l2 m1 m2)].
    + exfalso. by apply (Hnew j2 l2 m2 H2 O2).
    + exfalso. by apply (Hnew j1 l1 m1 H1 O1).
  - intros f' a b x Ha Hb' Hxa Hxb. apply Hff in Ha as [Ha|[-> ->]]; apply Hff in Hb' as [Hb'|[Hf' ->]]; subst.
    + by apply (Id f' a b x).
    + exfalso. apply (Hnov a x Ha); [by apply Hblk|done].
    + exfalso. apply (Hnov b x Hb'); [by apply Hblk|done].
    + done.
  - intros j l m Hj Ho. rewrite Hff. apply lookup_insert_Some in Hj as [[<- [= <- <-]]|[_ Hj]]; [done|].
    destruct (Iw j l m Hj Ho); [left|right; left]; done.
Qed.

Lemma fill_acquire_inv s i f missing :
  fill_lease_inv s -> ft_leases s !! i = None ->
  StronglySorted Z.lt missing -> Forall (fun b => b <= U64_MAX) missing ->
  fill_lease_inv (let '(lease, c) := fill_acquire f missing (ft_coordinator s) in
    {| ft_coordinator := c; ft_leases := <[i := (lease, missing)]> (ft_leases s) |}).
Proof.
  intros I Hi Hs Hb. unfold fill_acquire. fold (file_flights (ft_coordinator s) f).
  destruct (find _ (file_flights (ft_coordinator s) f)) as [fl|] eqn:Ef.
  - apply find_some in Ef as [Hin%list_elem_of_In _]. by apply fill_join_inv.
  - by apply fill_own_inv.
Qed.

Lemma fill_drop_inv s i lease missing :
  fill_lease_inv s -> ft_leases s !! i = Some (lease, missing) ->
  fill_lease_inv {| ft_coordinator := fill_drop lease (ft_coordinator s); ft_leases := delete i (ft_leases s) |}.
Proof.
  intros [Ib Io Iu Id Iw] Hi. unfold fill_drop. destruct (le_owner lease) eqn:Eo; cycle 1.
  { split; cbn [ft_coordinator ft_leases].
    - intros j l m Hj. apply lookup_delete_Some in Hj as [_ Hj]. by apply (Ib j).
    - intros f fl Hfl. destruct (Io f fl Hfl) as (Hlt & j & l & m & Hj & Ho & ?). split; [done|].
      exists j, l, m. rewrite lookup_delete_ne by (intros ->; congruence). done.
    - intros j1 j2 l1 l2 m1 m2 H1 H2. apply lookup_delete_Some in H1 as [_ H1].
      apply lookup_delete_Some in H2 as [_ H2]. by apply (Iu j1 j2 l1 l2 m1 m2).
    - done.
    - intros j l m Hj. apply lookup_delete_Some in Hj as [_ Hj]. by apply (Iw j l m). }
  split; cbn [ft_coordinator ft_leases].
  - intros j l m Hj Ho. apply lookup_delete_Some in Hj as [Hne Hj]. destruct (Ib j l m Hj Ho) as [H1 H2].
    rewrite file_flights_finish. split; [|done]. split; [done|]. intros _ Hid.
    apply Hne. symmetry. by apply (Iu j i l lease m missing).
  - intros f fl Hfl. apply file_flights_finish in Hfl as [Hfl Hid].
    destruct (Io f fl Hfl) as (Hlt & j & l & m & Hj & Ho & <- & <-). split; [done|]. exists j, l, m.
    rewrite lookup_delete_ne; [done|]. intros ->. rewrite Hi in Hj. injection Hj as -> ->. by apply Hid.
  - intros j1 j2 l1 l2 m1 m2 H1 H2. apply lookup_delete_Some in H1 as [_ H1].
    apply lookup_delete_Some in H2 as [_ H2]. by apply (Iu j1 j2 l1 l2 m1 m2).
  - intros f a b x Ha Hb. apply file_flights_finish in Ha as [Ha _]. apply file_flights_finish in Hb as [Hb _].
    by apply (Id f).
  - intros j l m Hj Ho. apply lookup_delete_Some in Hj as [_ Hj]. cbn [flights_done fill_finish].
    destruct (Iw j l m Hj Ho) as [Hd|Hfl]; [left; set_solver|].
    destruct (decide (fl_id (le_flight l) = fl_id (le_flight lease))) as [->|Hne]; [left; set_solver|right].
    apply file_flights_finish. auto.
Qed.

Definition fill_threads_initial : FillThreads :=
  {| ft_coordinator := {| flights := ∅; next_flight := O; flights_done := ∅ |}; ft_leases := ∅ |}.

Lemma fill_lease_reachable s : rtc fill_lease_step fill_threads_initial s -> fill_lease_inv s.
Proof.
  assert (I0 : fill_lease_inv fill_threads_initial).
  { split; cbn; intros *; unfold file_flights; cbn; rewrite ?lookup_empty; set_solver. }
  intros Hs. revert I0. induction Hs as [|x y z Hst Hs IH]; [done|]. intros I0. apply IH.
  destruct Hst; [by apply fill_acquire_inv|by eapply fill_drop_inv].
Qed.

(** The fill coordinator, under every interleaving of acquisitions and releases:
    two owners of fills of one file never fetch a common block, and a thread that
    has to wait always waits for a fill whose owner is still at work, so it is woken
    when that owner finishes. *)
Theorem fill_owners_disjoint s :
  rtc fill_lease_step fill_threads_initial s ->
  (forall i j l1 l2 m1 m2 x, ft_leases s !! i = Some (l1, m1) -> ft_leases s !! j = Some (l2, m2) ->
     i <> j -> le_owner l1 = true -> le_owner l2 = true -> le_file_id l1 = le_file_id l2 ->
     x ∈ m1 -> x ∈ m2 -> False) /\
  (forall i l m, ft_leases s !! i = Some (l, m) -> fill_ready l (ft_coordinator s) = false ->
     exists j l' m', ft_leases s !! j = Some (l', m') /\ le_owner l' = true /\ le_flight l' = le_flight l).
Proof.
  intros Hs. destruct (fill_lease_reachable s Hs) as [Ib Io Iu Id Iw]. split.
  - intros i j l1 l2 m1 m2 x H1 H2 Hne O1 O2 Hf X1 X2. apply Hne.
    destruct (Ib i l1 m1 H1 O1) as [F1 B1]. destruct (Ib j l2 m2 H2 O2) as [F2 B2].
    apply (Iu i j l1 l2 m1 m2); [done..|]. rewrite <- Hf in F2.
    apply (Id (le_file_id l1) _ _ x); [done|done|by apply B1|by apply B2].
  - intros i l m Hi Hr. unfold fill_ready in Hr. apply orb_false_iff in Hr as [Ho Hd].
    apply bool_decide_eq_false in Hd. destruct (Iw i l m Hi Ho) as [?|Hfl]; [done|].
    destruct (Io _ _ Hfl) as (_ & j & l' & m' & Hj & Hl' & Hfl' & _). by exists j, l', m'.
Qed.

(** Two readers of file 7 want blocks 1 to 3 and 3 to 4: the second waits. *)
Definition sample_threads : FillThreads :=
  let '(l1, c1) := fill_acquire 7 [1; 2; 3] (ft_coordinator fill_threads_initial) in
  let '(l2, c2) := fill_acquire 7 [3; 4] c1 in
  {| ft_coordinator := c2; ft_leases := <[2%nat := (l2, [3; 4])]> (<[1%nat := (l1, [1; 2; 3])]> ∅) |}.

Lemma sample_threads_reachable : rtc fill_lease_step fill_threads_initial sample_threads.
Proof.
  eapply rtc_l; [apply (lease_acquire fill_threads_initial 1%nat 7 [1; 2; 3] eq_refl)|].
  1, 2: repeat constructor; unfold U64_MAX; lia.
  eapply rtc_l; [eapply (lease_acquire _ 2%nat 7 [3; 4]); [reflexivity|..]|apply rtc_refl].
  all: repeat constructor; unfold U64_MAX; lia.
Qed.

Lemma fill_owners_disjoint_witness :
  exists j l' m', ft_leases sample_threads !! j = Some (l', m') /\ le_owner l' = true /\
    fl_ranges (le_flight l') = [(1, 3)].
Proof.
  destruct (proj2 (fill_owners_disjoint sample_threads sample_threads_reachable) 2%nat
    {| le_file_id := 7; le_flight := {| fl_id := 0; fl_ranges := [(1, 3)] |}; le_owner := false |} [3; 4])
    as (j & l' & m' & Hj & Ho & Hfl); [reflexivity|reflexivity|].
  exists j, l', m'. split; [exact Hj|]. split; [exact Ho|]. rewrite Hfl. reflexivity.
Defined.

(** ** Reads through coherent caches *)

Lemma elem_of_merge_sorted (l r : list (Z * bytes)) row :
  row ∈ merge_sorted_blocks l r <-> row ∈ l \/ row ∈ r.
Proof.
  revert r. induction l as [|a l IHl]; intros r; [destruct r; cbn; set_solver|].
  induction r as [|b r IHr]; [cbn; set_solver|]. cbn [merge_sorted_blocks].
  destruct (a.1 <=? b.1).
  - rewrite elem_of_cons, IHl. set_solver.
  - fold (merge_sorted_blocks (a :: l)). rewrite elem_of_cons, IHr. set_solver.
Qed.

Lemma missing_block_ranges_spec missing :
  StronglySorted Z.lt missing -> Forall is_u64 missing ->
  forall x, in_ranges x (missing_block_ranges missing) <-> x ∈ missing.
Proof.
  intros Hs Hb x. destruct missing as [|b missing]; cbn [missing_block_ranges].
  { split; [by intros ?%in_ranges_nil|set_solver]. }
  destruct (run_ranges_spec (fun e => wrap_add e 1) missing b b) as [_ Hin]; [lia|done| |].
  - intros e v He Hv Hlt. rewrite Forall_forall in Hb.
    pose proof (Hb v ltac:(set_solver)) as H1. pose proof (Hb e ltac:(set_solver)) as H2.
    unfold is_u64 in H1, H2. apply wrap_add_1. lia.
  - rewrite Hin, elem_of_cons. split; intros [?|?]; auto; left; lia.
Qed.

Lemma omap_sorted (keep : Z -> option Z) l :
  (forall k x, keep k = Some x -> x = k) -> StronglySorted Z.lt l ->
  StronglySorted Z.lt (omap keep l) /\ forall x, x ∈ omap keep l -> x ∈ l.
Proof.
  intros Hk. induction l as [|a l IH]; intros Hs; [split; [constructor|set_solver]|].
  apply StronglySorted_inv in Hs as [Hs Ha]. destruct (IH Hs) as [IH1 IH2]. cbn.
  destruct (keep a) as [x|] eqn:E; [|split; [done|set_solver]]. rewrite (Hk a x E). split; [|set_solver].
  constructor; [done|]. rewrite Forall_forall in *. intros y Hy. by apply Ha, IH2.
Qed.

(** A filter of [l] extended by a decision on one more element. *)
Lemma omap_extend (keep : Z -> option Z) k v (l : list Z) :
  k ∉ l -> exists g, g k = v /\ omap g l = omap keep l /\ forall a, g a = keep a \/ (a = k /\ g a = v).
Proof.
  intros Hk. exists (fun x => if x =? k then v else keep x). split; [by rewrite Z.eqb_refl|]. split.
  - induction l as [|a l IH]; [done|]. cbn. destruct (Z.eqb_spec a k); [set_solver|]. by rewrite IH by set_solver.
  - intros a. destruct (Z.eqb_spec a k); auto.
Qed.

Lemma sorted_last_max l k d : StronglySorted Z.lt l -> k ∈ l -> k <= List.last l d.
Proof.
  revert k. induction l as [|a l IH]; intros k Hs Hk; [set_solver|].
  apply StronglySorted_inv in Hs as [Hs Ha]. destruct l as [|b l].
  - apply list_elem_of_singleton in Hk. cbn. lia.
  - change (List.last (a :: b :: l) d) with (List.last (b :: l) d). apply elem_of_cons in Hk as [->|Hk]; [|by apply IH].
    rewrite Forall_forall in Ha. specialize (Ha b (list_elem_of_here b l)).
    specialize (IH b Hs (list_elem_of_here b l)). lia.
Qed.

Section CacheLookups.
Context {M : Type} `{LinkedMapOk M} (s : ReadSettings) (file_id : Z).

(** What a lookup in the caches over [indices] gives. *)
Record lookup_post (indices : list Z) (recent : gmap key bytes) (c : ReadCacheStore M)
    (cached : list (Z * bytes)) (missing : list Z) (c' : ReadCacheStore M) : Prop := {
  lp_map : cache_map c' = cache_map c;
  lp_cached : forall k d, (k, d) ∈ cached -> k ∈ indices /\
    (recent !! (file_id, k) = Some d \/ cache_map c !! (file_id, k) = Some d);
  lp_missing : exists keep, missing = omap keep indices /\ forall k x, keep k = Some x -> x = k;
  lp_keys : exists keep, cached.*1 = omap keep indices /\ forall k x, keep k = Some x -> x = k;
  lp_all : forall k, k ∈ indices -> k ∈ cached.*1 \/ k ∈ missing
}.

Lemma cached_read_block_spec recent k (c : ReadCacheStore M) :
  match (cached_read_block s recent file_id k c).1 with
  | Some d => recent !! (file_id, k) = Some d \/ cache_map c !! (file_id, k) = Some d
  | None => True
  end /\ cache_map (cached_read_block s recent file_id k c).2 = cache_map c.
Proof.
  unfold cached_read_block. destruct (read_cache_limit_blocks s =? 0) eqn:E; [done|].
  unfold recent_write_block. rewrite E. destruct (cache_get_spec file_id k c) as (H1 & H2 & _).
  destruct (Z.of_nat (size recent) =? 0); [|destruct (recent !! (file_id, k)) eqn:Er]; cbn.
  - rewrite H1, H2. split; [|done]. destruct (cache_map c !! _) eqn:Ec; auto.
  - auto.
  - rewrite H1, H2. split; [|done]. destruct (cache_map c !! _) eqn:Ec; auto.
Qed.

(** One more index in front. *)
Lemma lookup_post_cons k indices recent c c1 block cached missing c2 :
  match block with
  | Some d => recent !! (file_id, k) = Some d \/ cache_map c !! (file_id, k) = Some d
  | None => True
  end -> cache_map c1 = cache_map c -> k ∉ indices ->
  lookup_post indices recent c1 cached missing c2 ->
  lookup_post (k :: indices) recent c
    (match block with Some d => (k, d) :: cached | None => cached end)
    (match block with Some _ => missing | None => k :: missing end) c2.
Proof.
  intros Hb Hm Hk [L1 L2 (keep & -> & Hkeep) (keep' & Hc & Hkeep') L4]. rewrite Hm in L1, L2.
  split; [done| | | |].
  - intros k' d Hin. assert (Hcase : (k', d) ∈ cached \/ (block = Some d /\ k' = k))
      by (destruct block; [apply elem_of_cons in Hin as [[= -> ->]|?]; auto|auto]).
    destruct Hcase as [Hin'|[-> ->]]; [|set_solver]. destruct (L2 k' d Hin'). set_solver.
  - destruct (omap_extend keep k (match block with Some _ => None | None => Some k end) indices Hk) as (g & Hg1 & Hg2 & Hg3).
    exists g. cbn. rewrite Hg1, Hg2. split; [by destruct block|]. intros a x Ha. destruct (Hg3 a) as [E|[-> E]].
    + apply Hkeep. by rewrite <- E.
    + rewrite E in Ha. destruct block; congruence.
  - destruct (omap_extend keep' k (match block with Some _ => Some k | None => None end) indices Hk) as (g & Hg1 & Hg2 & Hg3).
    exists g. cbn. rewrite Hg1, Hg2. split; [destruct block; cbn; by rewrite Hc|]. intros a x Ha.
    destruct (Hg3 a) as [E|[-> E]].
    + apply Hkeep'. by rewrite <- E.
    + rewrite E in Ha. destruct block; congruence.
  - intros a Ha. apply elem_of_cons in Ha as [->|Ha].
    + destruct block; set_solver.
    + destruct (L4 a Ha); destruct block; set_solver.
Qed.

Lemma lookup_loops_spec recent indices : forall c : ReadCacheStore M, NoDup indices ->
  (let '(cached, missing, c') := cached_blocks_loop s recent file_id indices c in
   lookup_post indices recent c cached missing c') /\
  (let '(cached, missing, c') := get_range_loop file_id indices c in
   lookup_post indices recent c cached missing c').
Proof.
  induction indices as [|k indices IH]; intros c Hnd.
  { split; (split; [done|set_solver|exists Some; split; [done|congruence]|exists Some; split; [done|congruence]|set_solver]). }
  inversion Hnd as [|? ? Hk Hnd']; subst. cbn [cached_blocks_loop get_range_loop]. split.
  - destruct (cached_read_block_spec recent k c) as [Hb Hm].
    destruct (cached_read_block s recent file_id k c) as [block c1]. cbn [fst snd] in *.
    destruct (IH c1 Hnd') as [IH1 _]. destruct (cached_blocks_loop s recent file_id indices c1) as [[cached missing] c2].
    pose proof (lookup_post_cons k indices recent c c1 block cached missing c2 Hb Hm Hk IH1). by destruct block.
  - destruct (cache_get_spec file_id k c) as (Hb & Hm & _).
    destruct (cache_get file_id k c) as [block c1]. cbn [fst snd] in *.
    destruct (IH c1 Hnd') as [_ IH1]. destruct (get_range_loop file_id indices c1) as [[cached missing] c2].
    assert (Hb' : match block with
      | Some d => recent !! (file_id, k) = Some d \/ cache_map c !! (file_id, k) = Some d | None => True end)
      by (destruct block; auto).
    pose proof (lookup_post_cons k indices recent c c1 block cached missing c2 Hb' Hm Hk IH1). by destruct block.
Qed.

Lemma lookup_spec recent first last (c : ReadCacheStore M) :
  let '(cached, missing, c') := cached_read_blocks_and_missing s recent file_id first last c in
  lookup_post (range_incl first last) recent c cached missing c'.
Proof.
  unfold cached_read_blocks_and_missing, cache_get_range.
  destruct (lookup_loops_spec recent (range_incl first last) c) as [H1 H2]; [apply NoDup_seqZ|].
  destruct (Z.ltb_spec last first) as [Hlt|Hle].
  { rewrite range_incl_nil by done.
    split; [done|set_solver|exists Some; split; [done|congruence]|exists Some; split; [done|congruence]|set_solver]. }
  destruct (read_cache_limit_blocks s =? 0).
  { split; [done|set_solver| | |set_solver].
    - exists Some. split; [|congruence]. clear. induction (range_incl first last) as [|a l IH]; [done|]. cbn. by rewrite <- IH.
    - exists (fun _ => None). split; [|done]. clear. induction (range_incl first last) as [|a l IH]; [done|]. exact IH. }
  destruct (negb _); done.
Qed.

Lemma lookup_missing_sorted recent first last c cached missing c' :
  0 <= first -> last <= U64_MAX -> lookup_post (range_incl first last) recent c cached missing c' ->
  StronglySorted Z.lt missing /\ Forall is_u64 missing /\ forall x, x ∈ missing -> first <= x <= last.
Proof.
  intros Hf Hl [_ _ (keep & -> & Hk) _ _].
  destruct (omap_sorted keep (range_incl first last) Hk) as [H1 H2]; [apply seqZ_sorted|].
  assert (H3 : forall x, x ∈ omap keep (range_incl first last) -> first <= x <= last)
    by (intros x Hx; by apply elem_of_range_incl, H2).
  split; [done|]. split; [|done]. apply Forall_forall. intros x Hx. specialize (H3 x Hx). unfold is_u64. lia.
Qed.
End CacheLookups.

Section CoherentReads.
Context {M : Type} `{LinkedMapOk M} (s : ReadSettings) (file_id : Z).
Context (fetch : Z -> Z -> outcome string (list (Z * bytes))).
(** Whether [d] is the content of block [k] of the file, and whether the file has a
    hole there. *)
Context (good : Z -> bytes -> Prop) (hole : Z -> Prop).

Definition rows_agree (rows : list (Z * bytes)) : Prop := forall k d, (k, d) ∈ rows -> good k d.

(** A block of [P] without a row is a hole. *)
Definition rows_cover (P : Z -> Prop) (rows : list (Z * bytes)) : Prop :=
  forall k, P k -> k ∉ rows.*1 -> hole k.

(** The store answers range queries with the rows it has, in range. *)
Hypothesis Hfetch : forall a b, 0 <= a ->
  match fetch a b with
  | Ok rows => rows_agree rows /\ rows_cover (fun k => a <= k <= b) rows /\ Forall (fun row => 0 <= row.1) rows
  | Err _ => True
  | Panic => False
  end.

Definition caches_agree (recent : gmap key bytes) (c : ReadCacheStore M) : Prop :=
  (forall k d, recent !! (file_id, k) = Some d -> good k d) /\
  (forall k d, cache_map c !! (file_id, k) = Some d -> good k d).

Definition store_fails : Prop := exists a b err, fetch a b = Err err.

(** What a fetch of the blocks in [P] has to bring. *)
Definition fetch_post (P : Z -> Prop) (res : outcome Z (list (Z * bytes))) : Prop :=
  match res with
  | Ok rows => rows_agree rows /\ rows_cover P rows /\ Forall (fun row => 0 <= row.1) rows
  | Err e => e = EIO /\ store_fails
  | Panic => False
  end.

Lemma fetch_post_sort P rows :
  rows_agree rows /\ rows_cover P rows /\ Forall (fun row => 0 <= row.1) rows ->
  fetch_post P (Ok (merge_sort row_le rows)).
Proof.
  intros (H1 & H2 & H3). pose proof (merge_sort_Permutation row_le rows) as Hp. split_and!.
  - intros k d Hin. rewrite Hp in Hin. by apply H1.
  - intros k Hk Hn. apply H2; [done|]. by rewrite <- Hp.
  - by rewrite Hp.
Qed.

Lemma fetch_ranges_spec ranges :
  Forall (fun r => 0 <= r.1) ranges ->
  fetch_post (fun k => in_ranges k ranges) (fetch_ranges fetch ranges).
Proof.
  induction 1 as [|[a b] ranges Ha _ IH]; cbn [fetch_ranges].
  { split_and!; [intros ??; set_solver| |constructor]. intros k Hk. by apply in_ranges_nil in Hk. }
  unfold fetch_block_range_chunk. cbn [fst] in Ha. pose proof (Hfetch a b Ha) as Hft.
  assert (Hcons : forall chunk rest, rows_agree chunk /\ rows_cover (fun k => a <= k <= b) chunk /\
    Forall (fun row => 0 <= row.1) chunk -> fetch_post (fun k => in_ranges k ranges) (Ok rest) ->
    fetch_post (fun k => in_ranges k ((a, b) :: ranges)) (Ok (chunk ++ rest))).
  { intros chunk rest (C1 & C2 & C3) (R1 & R2 & R3). split_and!.
    - intros k d Hin. apply elem_of_app in Hin as [Hin|Hin]; [by apply C1|by apply R1].
    - intros k Hk. rewrite fmap_app, not_elem_of_app. intros [N1 N2].
      apply in_ranges_cons in Hk as [Hk|Hk]; [by apply C2|by apply R2].
    - by apply Forall_app. }
  destruct (Z.ltb_spec b a).
  - cbn [mbind outcome_bind]. destruct (fetch_ranges fetch ranges) as [rest|e|]; cbn; [|done|done].
    apply (Hcons []); [|done]. split_and!; [intros ??; set_solver|intros k ?; lia|constructor].
  - destruct (fetch a b) as [chunk|e|] eqn:Ef; cbn; [|by split; [|exists a, b, e]|done].
    destruct (fetch_ranges fetch ranges) as [rest|e|]; cbn; [|done|done]. by apply Hcons.
Qed.

Lemma fetch_missing_spec missing :
  StronglySorted Z.lt missing -> Forall is_u64 missing ->
  fetch_post (fun k => k ∈ missing) (fetch_missing_read_blocks fetch s missing).
Proof.
  intros Hs Hu. unfold fetch_missing_read_blocks. destruct missing as [|first rest] eqn:Em.
  { split_and!; [intros ??; set_solver|intros k ?; set_solver|constructor]. }
  rewrite <- Em in *. assert (Hfirst : 0 <= first) by (rewrite Em in Hu; inversion Hu as [|? ? [? ?] _]; lia).
  destruct (_ <=? 1).
  - unfold fetch_block_range_profiled. pose proof (Hfetch first (List.last missing first) Hfirst) as Hft.
    destruct (fetch first _) as [rows|e|] eqn:Ef; cbn [mbind outcome_bind];
      [|by split; [|exists first, (List.last missing first), e]|done].
    apply fetch_post_sort. destruct Hft as (R1 & R2 & R3). split_and!; [done| |done].
    intros k Hk Hn. apply R2; [|done]. split.
    + rewrite Em in Hk, Hs. apply StronglySorted_inv in Hs as [_ Hs]. rewrite Forall_forall in Hs.
      apply elem_of_cons in Hk as [->|Hk]; [lia|]. specialize (Hs k Hk). lia.
    + by apply sorted_last_max.
  - unfold fetch_block_range_parallel.
    assert (Hr : Forall (fun r => 0 <= r.1) (missing_block_ranges missing)).
    { rewrite Em. cbn. destruct (run_ranges_spec (fun e => wrap_add e 1) rest first first) as [Hsep _]; [lia|by rewrite <- Em| |].
      - rewrite Em, Forall_forall in Hu. intros e v He Hv Hlt. destruct (Hu v ltac:(set_solver)) as [? ?].
        apply wrap_add_1. destruct (Hu e ltac:(set_solver)) as [? ?]. lia.
      - apply Forall_forall. intros r Hin. pose proof (ranges_sep_elem _ _ _ Hsep Hin). lia. }
    pose proof (fetch_ranges_spec _ Hr) as Hf. destruct (fetch_ranges fetch _) as [rows|e|]; cbn; [|done|done].
    apply fetch_post_sort. destruct Hf as (R1 & R2 & R3). split_and!; [done| |done].
    intros k Hk Hn. apply R2; [|done]. by apply missing_block_ranges_spec.
Qed.

Lemma lookup_rows_agree indices recent c cached missing c' :
  caches_agree recent c -> lookup_post file_id indices recent c cached missing c' -> rows_agree cached.
Proof.
  intros [Ar Ac] [_ L2 _ _ _] k d Hin. destruct (L2 k d Hin) as [_ [Hd|Hd]]; [by apply (Ar k d)|by apply (Ac k d)].
Qed.

Lemma fetch_publish_merge_spec recent first last g c0 c cached missing stamp :
  caches_agree recent c0 -> 0 <= first -> last <= U64_MAX ->
  lookup_post file_id (range_incl first last) recent c0 cached missing c ->
  fetch_post (fun k => first <= k <= last)
    (fetch_publish_merge s fetch file_id stamp cached missing (g, c)).1.
Proof.
  intros Ha Hf Hl Hp. destruct (lookup_missing_sorted _ _ _ _ _ _ _ _ Hf Hl Hp) as (Ms & Mu & _).
  pose proof (lookup_rows_agree _ _ _ _ _ _ Ha Hp) as Hc. pose proof (fetch_missing_spec missing Ms Mu) as Hm.
  unfold fetch_publish_merge. destruct (fetch_missing_read_blocks fetch s missing) as [rows|e|]; [|done|done].
  destruct (publish_if_current _ _ _ _) as [b st]. cbn [fst]. destruct Hm as (R1 & R2 & R3). split_and!.
  - intros k d Hin. apply elem_of_merge_sorted in Hin as [Hin|Hin]; [by apply Hc|by apply R1].
  - intros k Hk Hn. assert (Hn' : k ∉ cached.*1 /\ k ∉ rows.*1).
    { split; intros Hin; apply Hn; apply list_elem_of_fmap in Hin as (row & -> & Hin);
        apply list_elem_of_fmap; exists row; split; [done| |done|]; apply elem_of_merge_sorted; auto. }
    apply R2; [|tauto]. destruct (lp_all _ _ _ _ _ _ _ Hp k) as [?|?]; [by apply elem_of_range_incl|tauto|done].
  - apply Forall_forall. intros [k d] Hin. apply elem_of_merge_sorted in Hin as [Hin|Hin].
    + destruct (lp_cached _ _ _ _ _ _ _ Hp k d Hin) as [Hk _]. apply elem_of_range_incl in Hk. cbn. lia.
    + rewrite Forall_forall in R3. by apply (R3 (k, d)).
Qed.

(** When every block of the window is cached. *)
Lemma lookup_hit_spec recent first last c0 c cached missing :
  caches_agree recent c0 -> 0 <= first -> missing = [] ->
  lookup_post file_id (range_incl first last) recent c0 cached missing c ->
  fetch_post (fun k => first <= k <= last) (Ok cached).
Proof.
  intros Ha Hf -> Hp. split_and!.
  - by eapply lookup_rows_agree.
  - intros k Hk Hn. destruct (lp_all _ _ _ _ _ _ _ Hp k) as [?|?]; [by apply elem_of_range_incl|done|set_solver].
  - apply Forall_forall. intros [k d] Hin. destruct (lp_cached _ _ _ _ _ _ _ Hp k d Hin) as [Hk _].
    apply elem_of_range_incl in Hk. cbn. lia.
Qed.

Lemma caches_agree_map recent c c' : cache_map c' = cache_map c -> caches_agree recent c -> caches_agree recent c'.
Proof. intros Hm [H1 H2]. split; [done|]. by rewrite Hm. Qed.

Lemma buffered_read_block_map_spec recent first last g c :
  caches_agree recent c -> 0 <= first -> last <= U64_MAX ->
  fetch_post (fun k => first <= k <= last)
    (buffered_read_block_map_coalesced s fetch recent file_id first last (g, c)).1.
Proof.
  intros Ha Hf Hl. unfold buffered_read_block_map_coalesced. pose proof (lookup_spec s file_id recent first last c) as Hp1.
  destruct (cached_read_blocks_and_missing s recent file_id first last c) as [[cached missing] c1].
  case_bool_decide as Hn; [by eapply lookup_hit_spec|].
  pose proof (caches_agree_map recent c c1 (lp_map _ _ _ _ _ _ _ Hp1) Ha) as Ha1.
  pose proof (lookup_spec s file_id recent first last c1) as Hp2.
  destruct (cached_read_blocks_and_missing s recent file_id first last c1) as [[cached2 missing2] c2].
  case_bool_decide as Hn2; [by eapply lookup_hit_spec|]. by eapply fetch_publish_merge_spec.
Qed.

Lemma read_block_map_spec recent first last g c :
  caches_agree recent c -> 0 <= first -> last <= U64_MAX ->
  fetch_post (fun k => first <= k <= last) (read_block_map s fetch recent file_id first last (g, c)).1.
Proof.
  intros Ha Hf Hl. unfold read_block_map. destruct (Z.ltb_spec last first).
  { split_and!; [intros ??; set_solver|intros k ?; lia|constructor]. }
  destruct (negb _); [by apply buffered_read_block_map_spec|]. pose proof (lookup_spec s file_id recent first last c) as Hp1.
  destruct (cached_read_blocks_and_missing s recent file_id first last c) as [[cached missing] c1].
  case_bool_decide as Hn; [by eapply lookup_hit_spec|by eapply fetch_publish_merge_spec].
Qed.

(** The answer for one block. *)
Definition target_ok (target : Z) (res : outcome Z (option bytes)) : Prop :=
  match res with
  | Ok (Some d) => good target d
  | Ok None => hole target
  | Err e => e = EIO /\ store_fails
  | Panic => False
  end.

Lemma find_target P rows target :
  fetch_post P (Ok rows) -> P target -> target_ok target (Ok (snd <$> find (fun row => row.1 =? target) rows)).
Proof.
  intros (R1 & R2 & _) HP. destruct (find _ rows) as [[k d]|] eqn:E; cbn.
  - apply find_some in E as [Hin Hk]. apply Z.eqb_eq in Hk. cbn in Hk. subst.
    apply R1. by apply list_elem_of_In.
  - apply R2; [done|]. intros Hin. apply list_elem_of_fmap in Hin as (row & -> & Hin).
    apply list_elem_of_In in Hin. pose proof (find_none _ _ E row Hin) as Hf. cbn in Hf. by rewrite Z.eqb_refl in Hf.
Qed.

Lemma target_spec recent first last target g c :
  caches_agree recent c -> 0 <= first -> last <= U64_MAX -> first <= target <= last ->
  target_ok target (read_block_map_target_block s fetch recent file_id first last target (g, c)).1.
Proof.
  intros Ha Hf Hl Ht. unfold read_block_map_target_block.
  destruct (Z.ltb_spec last first), (Z.ltb_spec target first), (Z.ltb_spec last target); try lia. cbn [orb].
  destruct (negb _).
  { pose proof (buffered_read_block_map_spec recent first last g c Ha Hf Hl) as Hb.
    destruct (buffered_read_block_map_coalesced _ _ _ _ _ _ _) as [[rows|e|] st]; cbn in Hb |- *; [|done|done].
    by eapply find_target. }
  destruct (cached_read_block_spec s file_id recent target c) as [Hb Hm].
  destruct (cached_read_block s recent file_id target c) as [[d|] c1]; cbn [fst snd] in *.
  { destruct Ha as [Ar Ac]. destruct Hb; [by apply Ar|by apply Ac]. }
  pose proof (caches_agree_map recent c c1 Hm Ha) as Ha1. pose proof (lookup_spec s file_id recent first last c1) as Hp1.
  destruct (cached_read_blocks_and_missing s recent file_id first last c1) as [[cached missing] c2].
  case_bool_decide as Hn.
  { cbn [fst]. eapply find_target; [by eapply lookup_hit_spec|done]. }
  destruct (lookup_missing_sorted _ _ _ _ _ _ _ _ Hf Hl Hp1) as (Ms & Mu & _).
  pose proof (fetch_missing_spec missing Ms Mu) as Hfm.
  destruct (fetch_missing_read_blocks fetch s missing) as [rows|e|]; [|done|done].
  destruct (publish_if_current _ _ _ _) as [b st]. cbn [fst].
  destruct (find (fun row => row.1 =? target) cached) as [[k d]|] eqn:E; cbn.
  - apply find_some in E as [Hin Hk]. apply Z.eqb_eq in Hk. cbn in Hk. subst.
    apply (lookup_rows_agree _ _ _ _ _ _ Ha1 Hp1). by apply list_elem_of_In.
  - eapply find_target; [exact Hfm|]. destruct (lp_all _ _ _ _ _ _ _ Hp1 target) as [Hin|?];
      [by apply elem_of_range_incl| |done].
    apply list_elem_of_fmap in Hin as (row & -> & Hin). apply list_elem_of_In in Hin.
    pose proof (find_none _ _ E row Hin) as Hfn. cbn in Hfn. by rewrite Z.eqb_refl in Hfn.
Qed.
End CoherentReads.
