(* ===== verification/FileRead.v ===== *)
(** * The read handler

    Model of the part of [read] in src/rust_fuse/src/fs.rs that answers a read from
    the caches and the store (the handle has no buffered writes): the single-block
    and multi-block fast paths, the fetch window with read-ahead, and the assembly
    of the reply. *)

From stdpp Require Import prelude list numbers gmap sorting strings.
From Stdlib Require Import ZArith Lia.
From S2P Require Import Prelude ReadPlan Errno ReadCache.

#[local] Open Scope Z_scope.

Section ReadHandler.
Context {M : Type} `{LinkedMapOk M}.

(** The mount's state a read works on. *)
Record ReadState : Type := {
  rs_sequences : gmap Z ReadSequenceState;
  rs_recent : gmap key bytes;
  rs_cache : FileCacheGenerationGate * ReadCacheStore M
}.

Definition with_cache (c : FileCacheGenerationGate * ReadCacheStore M) (st : ReadState) : ReadState :=
  {| rs_sequences := rs_sequences st; rs_recent := rs_recent st; rs_cache := c |}.

(** The first and last block of a fetch. *)
Definition read_fetch_window (s : ReadSettings) (first_block last_block total_blocks : Z)
    (sequential : bool) (streak : Z) : Z * Z :=
  if total_blocks <=? small_file_read_threshold_blocks s then (0, sat_sub total_blocks 1)
  else
    let requested_blocks := sat_add (sat_sub last_block first_block) 1 in
    let read_ahead := live_read_ahead_blocks s in
    let read_ahead :=
      if sequential then
        let dynamic_ahead := sat_mul (live_sequential_read_ahead_blocks s) (Z.max streak 1) in
        let read_ahead := Z.max read_ahead dynamic_ahead in
        let direct_io_ahead := sat_sub (direct_io_read_prefetch_blocks s) requested_blocks in
        if fopen_direct_io s && (0 <? direct_io_ahead) then Z.max read_ahead direct_io_ahead else read_ahead
      else read_ahead in
    let cache_cap := sat_sub (read_cache_limit_blocks s) 1 in
    let read_ahead := Z.min read_ahead cache_cap in
    (first_block, Z.min (sat_add last_block read_ahead) (sat_sub total_blocks 1)).

(** The slice of one block, when the block is long enough. *)
Definition block_slice (block : bytes) (block_offset offset end_offset : Z) : option bytes :=
  let slice_start := sat_sub offset block_offset in
  let slice_end := sat_sub end_offset block_offset in
  if (slice_end <=? zlen block) && (slice_start <=? slice_end)
  then Some (take (Z.to_nat (slice_end - slice_start)) (drop (Z.to_nat slice_start) block))
  else None.

(** After the fast paths: fetch and assemble. *)
Definition read_slow_path (s : ReadSettings) (fetch : Z -> Z -> outcome string (list (Z * bytes)))
    (block_size file_id offset end_offset first_block last_block : Z) (window : Z * Z) (st : ReadState)
    : outcome Z bytes * ReadState :=
  let '(fetch_first, fetch_last) := window in
  if first_block =? last_block then
    let '(target, c) :=
      read_block_map_target_block s fetch (rs_recent st) file_id fetch_first fetch_last first_block (rs_cache st) in
    (match target with
     | Ok (Some block) =>
         match block_slice block (sat_mul first_block block_size) offset end_offset with
         | Some data => Ok data
         | None => Err EIO
         end
     | Ok None => Ok (zeros (sat_sub end_offset offset))
     | Err errno => Err errno
     | Panic => Panic
     end, with_cache c st)
  else
    let '(blocks, c) := read_block_map s fetch (rs_recent st) file_id fetch_first fetch_last (rs_cache st) in
    (match blocks with
     | Ok blocks => infallible (assemble_read_slice fetch_first fetch_last offset end_offset block_size blocks)
     | Err errno => Err errno
     | Panic => Panic
     end, with_cache c st).

(** The reply to a read of [size] bytes at [offset] of a file of [file_size] bytes. *)
Definition read_file_slice (s : ReadSettings) (fetch : Z -> Z -> outcome string (list (Z * bytes)))
    (block_size file_id file_size offset size : Z) (st : ReadState) : outcome Z bytes * ReadState :=
  if file_size <=? offset then (Ok [], st)
  else if block_size =? 0 then (Panic, st)
  else
    let end_offset := Z.min (sat_add offset size) file_size in
    let first_block := offset / block_size in
    let last_block := sat_sub end_offset 1 / block_size in
    let total_blocks := 1 + (file_size - 1) / Z.max block_size 1 in
    let '(sequential, streak, seqs) :=
      read_sequence_state_for_file file_id offset end_offset (rs_sequences st) in
    let st := {| rs_sequences := seqs; rs_recent := rs_recent st; rs_cache := rs_cache st |} in
    let window := read_fetch_window s first_block last_block total_blocks sequential streak in
    let '(g, c) := rs_cache st in
    if first_block =? last_block then
      let '(block, c) := cached_read_block s (rs_recent st) file_id first_block c in
      let st := with_cache (g, c) st in
      match (block ← block; block_slice block (sat_mul first_block block_size) offset end_offset) with
      | Some data => (Ok data, st)
      | None => read_slow_path s fetch block_size file_id offset end_offset first_block last_block window st
      end
    else
      let '(blocks, c) := cached_read_block_map s (rs_recent st) file_id first_block last_block c in
      let st := with_cache (g, c) st in
      match blocks with
      | Some blocks => (infallible (assemble_read_slice first_block last_block offset end_offset block_size blocks), st)
      | None => read_slow_path s fetch block_size file_id offset end_offset first_block last_block window st
      end.
End ReadHandler.
Arguments ReadState M : clear implicits.

(** ** Correctness *)

(** The settings are unsigned. *)
Record settings_ok (s : ReadSettings) : Prop := {
  so_cache : 0 <= read_cache_blocks s;
  so_prefetch : 0 <= direct_io_read_prefetch_blocks s;
  so_ahead : 0 <= live_read_ahead_blocks s
}.

Lemma read_fetch_window_covers s first last total sequential streak :
  settings_ok s -> 0 <= first -> first <= last -> last < total -> total <= U64_MAX + 1 ->
  let '(ff, fl) := read_fetch_window s first last total sequential streak in
  0 <= ff /\ fl <= U64_MAX /\ ff <= first /\ last <= fl.
Proof.
  intros [Hc Hp Ha] Hf Hfl Hlt Ht. unfold read_fetch_window. destruct (total <=? _); [unfold sat_sub; lia|].
  set (ra := if sequential then _ else _).
  assert (Hra : 0 <= ra).
  { unfold ra. destruct sequential; [|done]. destruct (_ && _); lia. }
  unfold sat_add, sat_sub. lia.
Qed.

Lemma byte_at_block_slice block base offset end_ data :
  0 <= base <= offset -> offset <= end_ ->
  block_slice block base offset end_ = Some data ->
  zlen data = end_ - offset /\
  forall p, offset <= p < end_ -> byte_at data (p - offset) = byte_at block (p - base).
Proof.
  intros Hb Ho. unfold block_slice, sat_sub. rewrite !Z.max_l by lia.
  destruct (Z.leb_spec (end_ - base) (zlen block)); [|done].
  destruct (Z.leb_spec (offset - base) (end_ - base)); [|done]. cbn [andb]. intros [= <-].
  split; [zlen_simpl; lia|]. intros p Hp. rewrite byte_at_take, byte_at_drop by lia.
  rewrite !decide_True by lia. f_equal. lia.
Qed.

Lemma block_slice_long block base offset end_ :
  0 <= base <= offset -> offset <= end_ -> end_ - base <= zlen block ->
  is_Some (block_slice block base offset end_).
Proof.
  intros Hb Ho Hl. unfold block_slice, sat_sub. rewrite !Z.max_l by lia.
  destruct (Z.leb_spec (end_ - base) (zlen block)); [|lia].
  destruct (Z.leb_spec (offset - base) (end_ - base)); [|lia]. by eexists.
Qed.

Lemma rows_byte_agree ff fl bs p rows v :
  ff <= p / bs <= fl ->
  (forall d, (p / bs, d) ∈ rows -> byte_at d (p mod bs) = v) ->
  (p / bs ∉ rows.*1 -> v = 0) -> rows_byte ff fl bs p rows 0 = v.
Proof.
  intros Hw Hr Hh. unfold rows_byte.
  assert (Hg : forall acc, (acc = v \/ (acc = 0 /\ (p / bs ∉ rows.*1 -> v = 0))) ->
    foldl (fun acc row => if row_decides ff fl bs p row then byte_at row.2 (p mod bs) else acc) acc rows = v).
  2: { apply Hg. by right. }
  clear Hh. induction rows as [|[k d] rows IH]; intros acc Hacc; cbn.
  { destruct Hacc as [->|[-> Hv]]; [done|]. symmetry. apply Hv. set_solver. }
  apply IH; [intros d' Hd'; apply Hr; set_solver|]. unfold row_decides. cbn [fst snd].
  destruct (Z.eqb_spec k (p / bs)) as [->|Hne]; cbn [andb].
  - assert (Hd : byte_at d (p mod bs) = v) by (apply Hr; set_solver).
    destruct (Z.leb_spec ff (p / bs)), (Z.leb_spec (p / bs) fl); try lia. cbn [andb].
    destruct (Z.ltb_spec (p mod bs) (zlen d)); [by left|]. rewrite byte_at_ge in Hd by lia.
    destruct Hacc as [->|[-> _]]; [by left|by left].
  - destruct Hacc as [->|[-> Hv]]; [by left|]. right. split; [done|]. intros Hn. apply Hv. set_solver.
Qed.

Section ReadProofs.
Context {M : Type} `{LinkedMapOk M} (s : ReadSettings) (bs file_id : Z).
Context (fetch : Z -> Z -> outcome string (list (Z * bytes))).
(** The bytes of the file's blocks. *)
Context (view : Z -> Z -> Z).
Hypothesis Hbs : 0 < bs <= U64_MAX.
Hypothesis Hs : settings_ok s.

(** A block as the store and the caches have it: a full block with the file's bytes. *)
Definition full_block (k : Z) (d : bytes) : Prop :=
  bs <= zlen d /\ forall i, 0 <= i < bs -> byte_at d i = view k i.
Definition zero_block (k : Z) : Prop := forall i, 0 <= i < bs -> view k i = 0.

Hypothesis Hfetch : forall a b, 0 <= a ->
  match fetch a b with
  | Ok rows => rows_agree full_block rows /\ rows_cover zero_block (fun k => a <= k <= b) rows /\
               Forall (fun row => 0 <= row.1) rows
  | Err _ => True
  | Panic => False
  end.

(** What a read of [offset, end_) has to return. *)
Definition slice_post (offset end_ : Z) (res : outcome Z bytes) : Prop :=
  match res with
  | Ok out => zlen out = Z.max 0 (end_ - offset) /\
      forall p, offset <= p < end_ -> byte_at out (p - offset) = view (p / bs) (p mod bs)
  | Err e => e = EIO /\ store_fails fetch
  | Panic => False
  end.

Lemma assemble_post ff fl offset end_ rows :
  0 <= offset -> offset < end_ <= U64_MAX -> ff <= offset / bs -> (end_ - 1) / bs <= fl ->
  fetch_post fetch full_block zero_block (fun k => ff <= k <= fl) (Ok rows) ->
  slice_post offset end_ (infallible (assemble_read_slice ff fl offset end_ bs rows)).
Proof.
  intros Ho He Hf Hl (R1 & R2 & R3).
  assert (offset / bs <= (end_ - 1) / bs) by (apply Z.div_le_mono; lia).
  destruct (assemble_read_slice_run ff fl offset end_ bs rows) as (out & -> & Hlen & Hb);
    [unfold is_u64; lia|unfold is_u64; lia|lia|done|].
  rewrite Z.max_l in Hb by lia. split; [done|]. intros p Hp. rewrite Hb by done.
  pose proof (Z.mod_pos_bound p bs ltac:(lia)).
  assert (offset / bs <= p / bs <= (end_ - 1) / bs) by (split; apply Z.div_le_mono; lia).
  apply rows_byte_agree; [lia| |].
  - intros d Hd. by apply (R1 _ _ Hd).
  - intros Hn. apply (R2 (p / bs)); [lia|done|lia].
Qed.

(** A single-block slice from a full block. *)
Lemma block_slice_post k block offset end_ :
  0 <= k -> k * bs <= offset -> offset < end_ <= U64_MAX -> end_ <= k * bs + bs -> full_block k block ->
  exists data, block_slice block (sat_mul k bs) offset end_ = Some data /\ slice_post offset end_ (Ok data).
Proof.
  intros Hk Ho He Hend [Hlen Hb].
  assert (Hm : sat_mul k bs = k * bs) by (unfold sat_mul; lia). rewrite Hm.
  destruct (block_slice_long block (k * bs) offset end_) as [data Hd]; [nia|lia|lia|].
  exists data. split; [done|]. destruct (byte_at_block_slice block (k * bs) offset end_ data) as [Hz Hp]; [nia|lia|done|].
  split; [lia|]. intros p Hpp. rewrite Hp by done.
  assert (p / bs = k) as -> by (symmetry; apply in_block_iff; lia).
  rewrite (mod_in_block bs k p) by lia. apply Hb. lia.
Qed.

Definition state_agrees (st : ReadState M) : Prop :=
  caches_agree file_id full_block (rs_recent st) (rs_cache st).2.

Lemma read_slow_path_post offset end_ window st :
  state_agrees st -> 0 <= offset -> offset < end_ <= U64_MAX ->
  (let '(ff, fl) := window in 0 <= ff /\ fl <= U64_MAX /\ ff <= offset / bs /\ (end_ - 1) / bs <= fl) ->
  slice_post offset end_
    (read_slow_path s fetch bs file_id offset end_ (offset / bs) ((end_ - 1) / bs) window st).1.
Proof.
  intros Ha Ho He. destruct window as [ff fl]. intros (Hf0 & Hfl & Hf1 & Hl1).
  destruct st as [seqs recent [g c]]. unfold state_agrees in Ha. cbn in Ha.
  assert (offset / bs <= (end_ - 1) / bs) by (apply Z.div_le_mono; lia).
  unfold read_slow_path. cbn [rs_recent rs_cache]. destruct (Z.eqb_spec (offset / bs) ((end_ - 1) / bs)) as [E|E].
  - pose proof (target_spec s file_id fetch full_block zero_block Hfetch recent ff fl (offset / bs) g c Ha Hf0 Hfl
      ltac:(lia)) as Ht.
    destruct (read_block_map_target_block _ _ _ _ _ _ _ _) as [[[block|]|e|] st']; cbn in Ht |- *.
    + pose proof (div_block_bounds bs offset ltac:(lia)). pose proof (div_block_bounds bs (end_ - 1) ltac:(lia)).
      destruct (block_slice_post (offset / bs) block offset end_) as (data & -> & Hd);
        [apply Z.div_pos; lia|lia|lia|lia|done|]. done.
    + unfold sat_sub. rewrite Z.max_l by lia. split; [rewrite zlen_zeros; lia|]. intros p Hp. rewrite byte_at_zeros.
      assert (offset / bs <= p / bs <= (end_ - 1) / bs) by (split; apply Z.div_le_mono; lia).
      replace (p / bs) with (offset / bs) by lia. symmetry. apply Ht, Z.mod_pos_bound. lia.
    + done.
    + done.
  - pose proof (read_block_map_spec s file_id fetch full_block zero_block Hfetch recent ff fl g c Ha Hf0 Hfl) as Hm.
    destruct (read_block_map _ _ _ _ _ _ _) as [[rows|e|] st']; cbn in Hm |- *; [|done|done].
    by apply assemble_post.
Qed.

Lemma cached_read_block_map_post recent first last c :
  caches_agree file_id full_block recent c -> 0 <= first -> first <= last ->
  match (cached_read_block_map s recent file_id first last c).1 with
  | Some rows => fetch_post fetch full_block zero_block (fun k => first <= k <= last) (Ok rows)
  | None => True
  end /\ cache_map (cached_read_block_map s recent file_id first last c).2 = cache_map c.
Proof.
  intros Ha Hf Hl. unfold cached_read_block_map. destruct (Z.ltb_spec last first); [lia|].
  pose proof (lookup_spec s file_id recent first last c) as Hp.
  destruct (cached_read_blocks_and_missing s recent file_id first last c) as [[cached missing] c1]. cbn [fst snd].
  split; [|exact (lp_map _ _ _ _ _ _ _ Hp)]. case_bool_decide as Hn; [|done]. by eapply lookup_hit_spec.
Qed.

Lemma read_file_slice_run file_size offset size st :
  state_agrees st -> 0 <= offset -> 0 < size -> 0 <= file_size <= U64_MAX ->
  slice_post offset (Z.min (offset + size) file_size) (read_file_slice s fetch bs file_id file_size offset size st).1.
Proof.
  intros Ha Ho Hsz Hfs. unfold read_file_slice. destruct (Z.leb_spec file_size offset).
  { split; [rewrite zlen_nil; lia|lia]. }
  destruct (Z.eqb_spec bs 0); [lia|].
  replace (Z.min (sat_add offset size) file_size) with (Z.min (offset + size) file_size) by (unfold sat_add; lia).
  set (end_ := Z.min (offset + size) file_size). replace (sat_sub end_ 1) with (end_ - 1) by (unfold sat_sub; lia).
  destruct (read_sequence_state_for_file _ _ _ _) as [[sequential streak] seqs].
  rewrite Z.max_l by lia. assert (Hdiv : offset / bs <= (end_ - 1) / bs) by (apply Z.div_le_mono; lia).
  assert (0 <= offset / bs) by (apply Z.div_pos; lia).
  assert (Hlast : (end_ - 1) / bs < 1 + (file_size - 1) / bs)
    by (assert ((end_ - 1) / bs <= (file_size - 1) / bs) by (apply Z.div_le_mono; lia); lia).
  assert (Htot : (file_size - 1) / bs <= U64_MAX) by (apply Z.div_le_upper_bound; nia).
  pose proof (read_fetch_window_covers s (offset / bs) ((end_ - 1) / bs) (1 + (file_size - 1) / bs) sequential streak
    Hs ltac:(done) Hdiv Hlast ltac:(lia)) as Hw.
  set (window := read_fetch_window _ _ _ _ _ _) in *.
  destruct st as [seqs0 recent [g c]]. unfold state_agrees in Ha. cbn [rs_recent rs_cache fst snd] in *.
  assert (Hslow : forall c', cache_map c' = cache_map c -> slice_post offset end_
    (read_slow_path s fetch bs file_id offset end_ (offset / bs) ((end_ - 1) / bs) window
      (with_cache (g, c') {| rs_sequences := seqs; rs_recent := recent; rs_cache := (g, c) |})).1).
  { intros c' Hm. apply read_slow_path_post; [|lia|lia|].
    - unfold state_agrees. cbn. by apply (caches_agree_map _ _ _ c c').
    - destruct window as [ff fl]. tauto. }
  destruct (Z.eqb_spec (offset / bs) ((end_ - 1) / bs)) as [E|E].
  - destruct (cached_read_block_spec s file_id recent (offset / bs) c) as [Hb Hm].
    destruct (cached_read_block s recent file_id (offset / bs) c) as [block c1]. cbn [fst snd] in *.
    destruct block as [block|]; cbn [mbind option_bind]; [|by apply Hslow].
    pose proof (div_block_bounds bs offset ltac:(lia)). pose proof (div_block_bounds bs (end_ - 1) ltac:(lia)).
    destruct (block_slice_post (offset / bs) block offset end_) as (data & -> & Hd); [done|lia|lia|lia| |exact Hd].
    destruct Ha as [Ar Ac]. destruct Hb; [by apply Ar|by apply Ac].
  - destruct (cached_read_block_map_post recent (offset / bs) ((end_ - 1) / bs) c Ha ltac:(lia) Hdiv) as [Hb Hm].
    destruct (cached_read_block_map s recent file_id _ _ c) as [[rows|] c1]; cbn [fst snd] in *; [|by apply Hslow].
    apply assemble_post; [lia|lia|lia|lia|done].
Qed.

End ReadProofs.

(** A file of six bytes in blocks of four, its second block in the recent-write
    overlay, the first one fetched. *)
Definition sample_view (k i : Z) : Z := byte_at (if k =? 0 then [1; 2; 3; 4] else if k =? 1 then [5; 6; 0; 0] else []) i.
Definition sample_fetch (a b : Z) : outcome string (list (Z * bytes)) :=
  Ok (filter (fun row => a <= row.1 <= b) [(0, [1; 2; 3; 4]); (1, [5; 6; 0; 0])]).
Definition sample_read_state : ReadState assoc_map := {|
  rs_sequences := ∅; rs_recent := {[(7, 1) := [5; 6; 0; 0]]};
  rs_cache := ({| gate_cache_epoch := 0; gate_files := ∅ |}, cache_new Lru) |}.

Lemma sample_full_block row : row ∈ [(0, [1; 2; 3; 4]); (1, [5; 6; 0; 0])] -> full_block 4 sample_view row.1 row.2.
Proof.
  intros Hin. rewrite !elem_of_cons in Hin. destruct Hin as [->|[->|Hin]]; [..|set_solver]; by split.
Qed.

Lemma sample_fetch_ok a b : 0 <= a ->
  match sample_fetch a b with
  | Ok rows => rows_agree (full_block 4 sample_view) rows /\
      rows_cover (zero_block 4 sample_view) (fun k => a <= k <= b) rows /\ Forall (fun row => 0 <= row.1) rows
  | Err _ => True
  | Panic => False
  end.
Proof.
  intros Ha. cbn -[filter]. split_and!.
  - intros k d Hin. apply list_elem_of_filter in Hin as [_ Hin]. by apply (sample_full_block (k, d)).
  - intros k Hk Hn i Hi. unfold sample_view. destruct (Z.eqb_spec k 0) as [->|].
    { exfalso. apply Hn. apply list_elem_of_fmap. exists (0, [1; 2; 3; 4]). split; [done|].
      apply list_elem_of_filter. split; [done|set_solver]. }
    destruct (Z.eqb_spec k 1) as [->|]; [|apply byte_at_nil].
    exfalso. apply Hn. apply list_elem_of_fmap. exists (1, [5; 6; 0; 0]). split; [done|].
    apply list_elem_of_filter. split; [done|set_solver].
  - apply Forall_forall. intros row Hin. apply list_elem_of_filter in Hin as [? _]. lia.
Qed.


(** ** Short blocks in the overlay *)

Lemma find_merge_left (l r : list (Z * bytes)) k x :
  StronglySorted row_le l -> StronglySorted row_le r ->
  find (fun row => row.1 =? k) l = Some x -> find (fun row => row.1 =? k) (merge_sorted_blocks l r) = Some x.
Proof.
  revert r. induction l as [|a l IHl]; intros r Hl Hr Hx; [done|].
  pose proof Hl as Hl0. apply StronglySorted_inv in Hl as [Hl Ha].
  induction r as [|b r IHr]; [done|]. apply StronglySorted_inv in Hr as [Hr Hb].
  cbn [merge_sorted_blocks]. destruct (Z.leb_spec a.1 b.1).
  - cbn [find] in Hx |- *. destruct (a.1 =? k); [done|]. apply IHl; [done| |done]. by constructor.
  - fold (merge_sorted_blocks (a :: l)). cbn [find]. destruct (Z.eqb_spec b.1 k) as [E|]; [|by apply IHr].
    exfalso. apply find_some in Hx as [Hin Hk]. apply Z.eqb_eq in Hk.
    destruct Hin as [->|Hin]; [lia|]. rewrite Forall_forall in Ha.
    specialize (Ha x (proj2 (list_elem_of_In _ _) Hin)). unfold row_le in Ha. lia.
Qed.

Lemma sorted_keys_rows (l : list (Z * bytes)) : StronglySorted Z.lt l.*1 -> StronglySorted row_le l.
Proof.
  induction l as [|a l IH]; intros Hs; [constructor|]. cbn in Hs. apply StronglySorted_inv in Hs as [Hs Ha].
  constructor; [by apply IH|]. apply Forall_forall. intros x Hx. unfold row_le. rewrite Forall_forall in Ha.
  assert (a.1 < x.1); [|lia]. apply Ha, list_elem_of_fmap. by exists x.
Qed.

Lemma find_sorted_key (l : list (Z * bytes)) k d :
  StronglySorted Z.lt l.*1 -> (k, d) ∈ l -> find (fun row => row.1 =? k) l = Some (k, d).
Proof.
  induction l as [|a l IH]; intros Hs Hin; [set_solver|]. cbn in Hs. apply StronglySorted_inv in Hs as [Hs Ha].
  cbn [find]. apply elem_of_cons in Hin as [<-|Hin]; [cbn; by rewrite Z.eqb_refl|].
  destruct (Z.eqb_spec a.1 k) as [E|]; [|by apply IH]. exfalso. rewrite Forall_forall in Ha.
  specialize (Ha k). rewrite E in Ha. apply (Z.lt_irrefl k), Ha, list_elem_of_fmap. by exists (k, d).
Qed.

Section ShortBlocks.
Context {M : Type} `{LinkedMapOk M} (s : ReadSettings) (bs file_id : Z).
Context (fetch : Z -> Z -> outcome string (list (Z * bytes))).
Hypothesis Hfetch : forall a b, fetch a b <> Panic.
Hypothesis Henabled : read_cache_limit_blocks s <> 0.

Lemma merge_sort_sorted rows : StronglySorted row_le (merge_sort row_le rows).
Proof.
  apply Sorted_StronglySorted; [intros ???; unfold row_le; lia|]. apply Sorted_merge_sort.
  intros x y. unfold row_le. lia.
Qed.

Lemma fetch_missing_sorted missing :
  match fetch_missing_read_blocks fetch s missing with
  | Ok rows => StronglySorted row_le rows
  | Err e => e = EIO
  | Panic => False
  end.
Proof.
  unfold fetch_missing_read_blocks. destruct missing as [|first rest]; [constructor|].
  destruct (_ <=? 1).
  - unfold fetch_block_range_profiled. pose proof (Hfetch first (List.last (first :: rest) first)) as Hp.
    destruct (fetch _ _); cbn; [apply merge_sort_sorted|done|done].
  - unfold fetch_block_range_parallel.
    assert (Hr : forall ranges, match fetch_ranges fetch ranges with Ok _ => True | Err e => e = EIO | Panic => False end).
    { induction ranges as [|[a b] ranges IH]; cbn; [done|]. unfold fetch_block_range_chunk.
      pose proof (Hfetch a b). destruct (b <? a); [|destruct (fetch a b)]; cbn; try done;
        by destruct (fetch_ranges fetch ranges). }
    specialize (Hr (missing_block_ranges (first :: rest))).
    destruct (fetch_ranges _ _); cbn; [apply merge_sort_sorted|done|done].
Qed.

Lemma recent_hit recent k d (c : ReadCacheStore M) :
  recent !! (file_id, k) = Some d -> cached_read_block s recent file_id k c = (Some d, c).
Proof.
  intros Hr. unfold cached_read_block, recent_write_block. destruct (Z.eqb_spec (read_cache_limit_blocks s) 0); [done|].
  destruct (Z.eqb_spec (Z.of_nat (size recent)) 0) as [E|]; [|by rewrite Hr].
  assert (recent = ∅) as -> by (apply map_size_empty_inv; lia). by rewrite lookup_empty in Hr.
Qed.

Lemma recent_in_lookup recent k d first last (c : ReadCacheStore M) :
  recent !! (file_id, k) = Some d -> first <= k <= last ->
  let '(cached, _, _) := cached_read_blocks_and_missing s recent file_id first last c in (k, d) ∈ cached.
Proof.
  intros Hr Hk. unfold cached_read_blocks_and_missing. destruct (Z.ltb_spec last first); [lia|].
  destruct (Z.eqb_spec (read_cache_limit_blocks s) 0); [done|].
  destruct (Z.eqb_spec (Z.of_nat (size recent)) 0) as [E|]; cbn [negb].
  { assert (recent = ∅) as -> by (apply map_size_empty_inv; lia). by rewrite lookup_empty in Hr. }
  assert (Hin : k ∈ range_incl first last) by by apply elem_of_range_incl. revert c Hin.
  generalize (range_incl first last). induction l as [|a l IH]; intros c Hin; [set_solver|]. cbn [cached_blocks_loop].
  destruct (decide (a = k)) as [->|Hne].
  - rewrite (recent_hit recent k d c Hr). destruct (cached_blocks_loop s recent file_id l c) as [[cached missing] c1]. set_solver.
  - destruct (cached_read_block s recent file_id a c) as [block c1]. specialize (IH c1 ltac:(set_solver)).
    destruct (cached_blocks_loop s recent file_id l c1) as [[cached missing] c2]. destruct block; set_solver.
Qed.

(** Every answer for a block that is in the overlay is the overlay's block. *)
Lemma recent_target recent first last target d st :
  recent !! (file_id, target) = Some d -> first <= target <= last ->
  let res := (read_block_map_target_block s fetch recent file_id first last target st).1 in
  res = Ok (Some d) \/ res = Err EIO.
Proof.
  intros Hr Ht. destruct st as [g c]. unfold read_block_map_target_block.
  destruct (Z.ltb_spec last first), (Z.ltb_spec target first), (Z.ltb_spec last target); try lia. cbn [orb].
  destruct (fopen_direct_io s); cbn [negb]; [rewrite (recent_hit recent target d c Hr); by left|].
  assert (Hfind : forall c0 cached missing c1,
    cached_read_blocks_and_missing s recent file_id first last c0 = (cached, missing, c1) ->
    StronglySorted row_le cached /\ find (fun row => row.1 =? target) cached = Some (target, d)).
  { intros c0 cached missing c1 E. pose proof (lookup_spec s file_id recent first last c0) as Hp.
    pose proof (recent_in_lookup recent target d first last c0 Hr Ht) as Hin. rewrite E in Hp, Hin.
    destruct (lp_keys _ _ _ _ _ _ _ Hp) as (keep & Hk & Hkeep).
    destruct (omap_sorted keep (range_incl first last) Hkeep (seqZ_sorted _ _)) as [Hs _].
    rewrite <- Hk in Hs. split; [by apply sorted_keys_rows|by apply find_sorted_key]. }
  unfold buffered_read_block_map_coalesced.
  destruct (cached_read_blocks_and_missing s recent file_id first last c) as [[cached1 missing1] c1] eqn:E1.
  destruct (Hfind _ _ _ _ E1) as [_ F1]. case_bool_decide; [cbn [fst mbind outcome_bind]; rewrite F1; by left|].
  destruct (cached_read_blocks_and_missing s recent file_id first last c1) as [[cached2 missing2] c2] eqn:E2.
  destruct (Hfind _ _ _ _ E2) as [S2 F2]. case_bool_decide; [cbn [fst mbind outcome_bind]; rewrite F2; by left|].
  unfold fetch_publish_merge. pose proof (fetch_missing_sorted missing2) as Hm.
  destruct (fetch_missing_read_blocks fetch s missing2) as [rows|e|]; [|right; by subst|done].
  destruct (publish_if_current _ _ _ _) as [b st]. cbn [fst mbind outcome_bind].
  rewrite (find_merge_left cached2 rows target (target, d)) by done. by left.
Qed.

(** A block of the recent-write overlay that is shorter than the part of it a
    read asks for makes the read fail with EIO, whatever the store holds: the fast
    path finds the block too short, and so does the slow path, which is answered by
    the same overlay. Truncating a file inside a block leaves such a block behind,
    and extending the file by a write to a later block brings reads to it. *)
Theorem short_overlay_block_read_fails file_size offset size st d :
  settings_ok s -> 0 < bs <= U64_MAX -> 0 <= offset -> 0 < size -> offset < file_size <= U64_MAX ->
  let end_ := Z.min (offset + size) file_size in
  offset / bs = (end_ - 1) / bs ->
  rs_recent st !! (file_id, offset / bs) = Some d -> zlen d < end_ - offset / bs * bs ->
  (read_file_slice (M := M) s fetch bs file_id file_size offset size st).1 = Err EIO.
Proof.
  intros Hs Hbs Ho Hsz Hfs end_ Hblk Hr Hd. unfold read_file_slice.
  destruct (Z.leb_spec file_size offset); [lia|]. destruct (Z.eqb_spec bs 0); [lia|].
  replace (Z.min (sat_add offset size) file_size) with end_ by (unfold sat_add, end_; lia).
  replace (sat_sub end_ 1) with (end_ - 1) by (unfold sat_sub; lia).
  destruct (read_sequence_state_for_file _ _ _ _) as [[sequential streak] seqs].
  rewrite <- Hblk, Z.eqb_refl, Z.max_l by lia. destruct st as [seqs0 recent [g c]]. cbn [rs_recent rs_cache] in *.
  rewrite (recent_hit recent (offset / bs) d c Hr). cbn [mbind option_bind].
  pose proof (div_block_bounds bs offset ltac:(lia)).
  assert (Hnone : block_slice d (sat_mul (offset / bs) bs) offset end_ = None).
  { unfold block_slice. replace (sat_mul (offset / bs) bs) with (offset / bs * bs) by (unfold sat_mul; lia).
    unfold sat_sub. rewrite !Z.max_l by lia. by destruct (Z.leb_spec (end_ - offset / bs * bs) (zlen d)); [lia|]. }
  rewrite Hnone. unfold read_slow_path. cbn [rs_recent rs_cache with_cache].
  assert (Hq : (end_ - 1) / bs <= (file_size - 1) / bs) by (apply Z.div_le_mono; lia).
  assert (Htot : (file_size - 1) / bs <= U64_MAX) by (apply Z.div_le_upper_bound; nia).
  pose proof (read_fetch_window_covers s (offset / bs) (offset / bs) (1 + (file_size - 1) / bs) sequential streak
    Hs ltac:(apply Z.div_pos; lia) ltac:(lia) ltac:(lia) ltac:(lia)) as Hw.
  destruct (read_fetch_window _ _ _ _ _ _) as [ff fl]. rewrite Z.eqb_refl.
  destruct (recent_target recent ff fl (offset / bs) d (g, c)) as [Ht|Ht];
    [done|lia|..]; destruct (read_block_map_target_block _ _ _ _ _ _ _ _) as [res st']; cbn in Ht |- *; subst res;
    [by rewrite Hnone|done].
Qed.
End ShortBlocks.

(** After a truncation to two bytes the overlay has a block of two bytes; the file
    was then extended to ten bytes by a write to its third block. *)
Lemma short_overlay_block_read_fails_witness :
  (read_file_slice sample_settings sample_fetch 4 7 10 0 4
     ({| rs_sequences := ∅; rs_recent := {[(7, 0) := [1; 2]]};
         rs_cache := ({| gate_cache_epoch := 0; gate_files := ∅ |}, cache_new Lru) |} : ReadState assoc_map)).1 = Err EIO.
Proof.
  apply (short_overlay_block_read_fails (M := assoc_map) sample_settings 4 7 sample_fetch
    ltac:(intros a b; discriminate) ltac:(vm_compute; discriminate) 10 0 4 _ [1; 2]);
    [split; cbn; lia|unfold U64_MAX; lia|lia|lia|unfold U64_MAX; lia|reflexivity|reflexivity|vm_compute; reflexivity].
Defined.
