(* ===== verification/WriteBuffer.v ===== *)
(** * The write buffer

    Model of src/rust_fuse/src/write_buffer.rs: the per-handle overlay of dirty
    blocks, buffered writes and reads, the preparation of a truncate and the flush
    through the persistence plan into the repository. The repository is the
    interface [BlockRepo] with the laws [BlockRepoOk]; the block store of
    BlockStore.v with its default transport implements it (StoreRepo.v). *)

From stdpp Require Import prelude list numbers gmap sorting strings.
From Stdlib Require Import ZArith Lia.
From S2P Require Import Prelude PersistPlan Errno Crc32 CopyBinary BlockStore ReadCache.

#[local] Open Scope Z_scope.

(** ** The repository as the FUSE layer sees it *)

Class BlockRepo (R : Type) : Type := {
  (** [load_block_authoritative], by file, block and block size. *)
  repo_load_block : R -> Z -> Z -> Z -> outcome string (option bytes);
  (** [fetch_block_range_shared], by file, first and last block and block size. *)
  repo_fetch_range : R -> Z -> Z -> Z -> Z -> outcome string (list (Z * bytes));
  (** [file_size_authoritative]. *)
  repo_file_size : R -> Z -> outcome string (option Z);
  (** [persist_file_blocks_with_crc_flag_reservation_fence_and_authorization]. *)
  repo_persist : PersistRequest -> R -> outcome string unit * R
}.

(** ** State *)

Record WriteState : Type := {
  ws_file_id : Z;
  ws_file_size : Z;
  ws_truncate_pending : bool;
  ws_kill_suidgid : bool;
  ws_buffered_bytes : Z;
  ws_load_error : bool;
  ws_blocks : gmap Z bytes;
  ws_persistence_fence : option WritePersistenceFence;
  ws_write_authorization : option FileWriteAuthorization
}.

Definition ws_set_blocks (blocks : gmap Z bytes) (st : WriteState) : WriteState := {|
  ws_file_id := ws_file_id st; ws_file_size := ws_file_size st;
  ws_truncate_pending := ws_truncate_pending st; ws_kill_suidgid := ws_kill_suidgid st;
  ws_buffered_bytes := ws_buffered_bytes st; ws_load_error := ws_load_error st;
  ws_blocks := blocks; ws_persistence_fence := ws_persistence_fence st;
  ws_write_authorization := ws_write_authorization st |}.

Definition ws_set_size (size : Z) (st : WriteState) : WriteState := {|
  ws_file_id := ws_file_id st; ws_file_size := size;
  ws_truncate_pending := ws_truncate_pending st; ws_kill_suidgid := ws_kill_suidgid st;
  ws_buffered_bytes := ws_buffered_bytes st; ws_load_error := ws_load_error st;
  ws_blocks := ws_blocks st; ws_persistence_fence := ws_persistence_fence st;
  ws_write_authorization := ws_write_authorization st |}.

(** After a flush: nothing is dirty any more. *)
Definition ws_flushed (st : WriteState) : WriteState := {|
  ws_file_id := ws_file_id st; ws_file_size := ws_file_size st;
  ws_truncate_pending := false; ws_kill_suidgid := ws_kill_suidgid st;
  ws_buffered_bytes := 0; ws_load_error := false;
  ws_blocks := ∅; ws_persistence_fence := ws_persistence_fence st;
  ws_write_authorization := ws_write_authorization st |}.

(** The keys of the ordered map, ascending. *)
Definition dirty_keys (st : WriteState) : list Z := sort_z (map_to_list (ws_blocks st)).*1.

(** What of the mount's configuration the buffer uses. *)
Record FuseConfig : Type := {
  fz_block_size : Z;
  fz_settings : ReadSettings;
  fz_write_flush_threshold_bytes : Z;
  fz_copy_dedupe_crc_table : bool
}.

Definition new_write_state (file_id file_size : Z) (truncate_pending : bool) : WriteState := {|
  ws_file_id := file_id; ws_file_size := file_size; ws_truncate_pending := truncate_pending;
  ws_kill_suidgid := false; ws_buffered_bytes := 0; ws_load_error := false; ws_blocks := ∅;
  ws_persistence_fence := None; ws_write_authorization := None |}.

Definition write_state_has_pending_changes (st : WriteState) : bool :=
  ws_truncate_pending st || (0 <? ws_buffered_bytes st) || ws_load_error st
  || negb (bool_decide (ws_blocks st = ∅)).

Definition write_flush_threshold_reached (cfg : FuseConfig) (buffered_bytes : Z) : bool :=
  (0 <? fz_write_flush_threshold_bytes cfg) && (fz_write_flush_threshold_bytes cfg <=? buffered_bytes).

Definition write_visibility_requires_flush (shared_open_handles : Z) : bool := 1 <? shared_open_handles.

Definition should_flush_write_state (cfg : FuseConfig) (buffered_bytes shared_open_handles : Z) : bool :=
  write_flush_threshold_reached cfg buffered_bytes || write_visibility_requires_flush shared_open_handles.

(** [merge_write_state_into]: the dirty state of a sibling handle goes into the
    state of the handle that writes. *)
Definition merge_write_state_into (target source : WriteState) (block_size : Z) : WriteState :=
  let block_size := Z.max block_size 1 in
  let '(truncate_pending, file_size, blocks) :=
    if ws_truncate_pending source then
      (true, ws_file_size source,
       filter (fun e => sat_mul e.1 block_size < ws_file_size source) (ws_blocks target))
    else
      (ws_truncate_pending target,
       if ws_file_size target <? ws_file_size source then ws_file_size source else ws_file_size target,
       ws_blocks target) in
  {| ws_file_id := ws_file_id target; ws_file_size := file_size; ws_truncate_pending := truncate_pending;
     ws_kill_suidgid := ws_kill_suidgid target || ws_kill_suidgid source;
     ws_buffered_bytes := sat_add (ws_buffered_bytes target) (ws_buffered_bytes source);
     ws_load_error := ws_load_error target || ws_load_error source;
     ws_blocks := ws_blocks source ∪ blocks;
     ws_persistence_fence := ws_persistence_fence target;
     ws_write_authorization := ws_write_authorization target |}.

Section Buffer.
Context {R : Type} `{BlockRepo R} {M : Type} `{LinkedMapOk M} (cfg : FuseConfig).

Record Mount : Type := {
  mt_repo : R;
  mt_recent : gmap key bytes;
  mt_cache : FileCacheGenerationGate * ReadCacheStore M;
  mt_write_states : gmap Z WriteState
}.

Definition mt_clear_read_cache (file_id : Z) (mt : Mount) : Mount := {|
  mt_repo := mt_repo mt; mt_recent := mt_recent mt;
  mt_cache := clear_read_cache_for_file file_id (mt_cache mt);
  mt_write_states := mt_write_states mt |}.

Definition mt_set_states (states : gmap Z WriteState) (mt : Mount) : Mount := {|
  mt_repo := mt_repo mt; mt_recent := mt_recent mt; mt_cache := mt_cache mt; mt_write_states := states |}.

(** ** Loading a block to change it *)

Definition load_write_block_from_repo (block_size : Z) (load_result : outcome string (option bytes))
    : outcome Z bytes :=
  match load_result with
  | Ok (Some block) => Ok block
  | Ok None => Ok (zeros block_size)
  | Err _ => Err EIO
  | Panic => Panic
  end.

Definition load_write_block (mt : Mount) (st : WriteState) (block_index : Z) : outcome Z bytes :=
  match ws_blocks st !! block_index with
  | Some block => Ok block
  | None =>
      match recent_write_block (fz_settings cfg) (mt_recent mt) (ws_file_id st) block_index with
      | Some block => Ok block
      | None =>
          load_write_block_from_repo (fz_block_size cfg)
            (repo_load_block (mt_repo mt) (ws_file_id st) block_index (fz_block_size cfg))
      end
  end.

(** ** Buffered writes *)

(** The block a partial write is laid over. *)
Definition write_block_base (mt : Mount) (st : WriteState) (block_size block_index : Z) (src : bytes)
    (full_block_write brand_new_block : bool) (block_slice_start : Z) : outcome Z bytes :=
  if full_block_write then Ok src
  else
    match ws_blocks st !! block_index with
    | Some existing_block => Ok existing_block
    | None =>
        if brand_new_block && (block_slice_start =? 0) then Ok (zeros block_size)
        else load_write_block mt st block_index
    end.

(** The loop over the blocks of a write; a failing load leaves the blocks written
    before it in the buffer. *)
Fixpoint write_blocks_loop (mt : Mount) (block_size original_file_size offset end_ : Z) (data : bytes)
    (indices : list Z) (src_cursor : Z) (st : WriteState) : outcome Z unit * WriteState :=
  match indices with
  | [] => (Ok tt, st)
  | block_index :: indices =>
      let block_start := wrap_mul block_index block_size in
      let block_end := sat_add block_start block_size in
      let write_start := Z.max offset block_start in
      let write_end := Z.min end_ block_end in
      if write_end <=? write_start then
        write_blocks_loop mt block_size original_file_size offset end_ data indices src_cursor st
      else
        let block_slice_start := write_start - block_start in
        let block_slice_end := write_end - block_start in
        let src_len := sat_sub block_slice_end block_slice_start in
        let src_end := sat_add src_cursor src_len in
        if zlen data <? src_end then (Ok tt, st)
        else
          let full_block_write := (block_slice_start =? 0) && (block_slice_end =? block_size) in
          let brand_new_block := original_file_size <=? block_start in
          match
            src ← slice data src_cursor src_end;
            block ← write_block_base mt st block_size block_index src full_block_write brand_new_block
                      block_slice_start;
            copy_from_slice (if zlen block <? block_size then vec_resize block block_size else block)
              block_slice_start block_slice_end src
          with
          | Ok block =>
              write_blocks_loop mt block_size original_file_size offset end_ data indices src_end
                (ws_set_blocks (<[block_index := block]> (ws_blocks st)) st)
          | Err errno => (Err errno, st)
          | Panic => (Panic, st)
          end
  end.

Definition update_write_buffer (mt : Mount) (st : WriteState) (offset : Z) (data : bytes)
    : outcome Z unit * WriteState * Mount :=
  let block_size := Z.max (fz_block_size cfg) 1 in
  if bool_decide (data = []) then (Ok tt, st, mt)
  else
    let original_file_size := ws_file_size st in
    let end_ := sat_add offset (zlen data) in
    let st := if ws_file_size st <? end_ then ws_set_size end_ st else st in
    let first_block := offset / block_size in
    let last_block := sat_sub end_ 1 / block_size in
    let '(result, st) :=
      write_blocks_loop mt block_size original_file_size offset end_ data
        (range_incl first_block last_block) 0 st in
    (result, st,
     match result with Ok _ => mt_clear_read_cache (ws_file_id st) mt | _ => mt end).

(** ** Buffered reads *)

(** The scan that finds recently flushed blocks and the span left to fetch. *)
Fixpoint bulk_scan (mt : Mount) (st : WriteState) (indices : list Z)
    (acc : gmap Z bytes * option Z * option Z) : gmap Z bytes * option Z * option Z :=
  match indices with
  | [] => acc
  | block_index :: indices =>
      let '(recent_blocks, repo_first, repo_last) := acc in
      bulk_scan mt st indices
        (match ws_blocks st !! block_index with
         | Some _ => acc
         | None =>
             match recent_write_block (fz_settings cfg) (mt_recent mt) (ws_file_id st) block_index with
             | Some block => (<[block_index := block]> recent_blocks, repo_first, repo_last)
             | None =>
                 (recent_blocks, match repo_first with None => Some block_index | Some _ => repo_first end,
                  Some block_index)
             end
         end)
  end.

(** The copy of one block into the output. *)
Definition bulk_copy_block (block_size offset end_offset block_index : Z) (block : option bytes)
    (output : bytes) : outcome Z bytes :=
  let block_start := wrap_mul block_index block_size in
  let block_end := sat_add block_start block_size in
  let read_start := Z.max offset block_start in
  let read_end := Z.min end_offset block_end in
  if read_end <=? read_start then Ok output
  else
    match block with
    | None => Ok output
    | Some block =>
        let block_slice_start := read_start - block_start in
        let block_slice_end := read_end - block_start in
        if zlen block <=? block_slice_start then Ok output
        else
          let source_end := Z.min block_slice_end (zlen block) in
          if source_end <=? block_slice_start then Ok output
          else
            let out_start := read_start - offset in
            let out_end := out_start + source_end - block_slice_start in
            src ← slice block block_slice_start source_end;
            copy_from_slice output out_start out_end src
    end.

Fixpoint bulk_copy (block_size offset end_offset : Z) (block_of : Z -> option bytes) (indices : list Z)
    (output : bytes) : outcome Z bytes :=
  match indices with
  | [] => Ok output
  | block_index :: indices =>
      output ← bulk_copy_block block_size offset end_offset block_index (block_of block_index) output;
      bulk_copy block_size offset end_offset block_of indices output
  end.

Definition collect_rows (rows : list (Z * bytes)) : gmap Z bytes :=
  foldl (fun blocks row => <[row.1 := row.2]> blocks) ∅ rows.

Definition read_from_write_state (mt : Mount) (st : WriteState) (offset size : Z) : outcome Z bytes :=
  let block_size := Z.max (fz_block_size cfg) 1 in
  if ws_file_size st <=? offset then Ok []
  else
    let end_offset := Z.min (sat_add offset size) (ws_file_size st) in
    let output := zeros (end_offset - offset) in
    let first_block := offset / block_size in
    let last_block := sat_sub end_offset 1 / block_size in
    if first_block =? last_block then
      block ← load_write_block mt st first_block;
      let block_start := wrap_mul first_block block_size in
      let read_start := Z.max offset block_start in
      let read_end := Z.min end_offset (sat_add block_start block_size) in
      if read_start <? read_end then
        let block_slice_start := read_start - block_start in
        let block_slice_end := read_end - block_start in
        let out_start := read_start - offset in
        let out_end := out_start + block_slice_end - block_slice_start in
        src ← slice block block_slice_start block_slice_end;
        copy_from_slice output out_start out_end src
      else Ok output
    else
      let indices := range_incl first_block last_block in
      let '(recent_blocks, repo_first, repo_last) := bulk_scan mt st indices (∅, None, None) in
      repo_blocks ←
        match repo_first, repo_last with
        | Some repo_first, Some repo_last =>
            match fetch_block_range_profiled
                    (fun first last => repo_fetch_range (mt_repo mt) (ws_file_id st) first last block_size)
                    repo_first repo_last with
            | Ok rows => Ok (collect_rows rows)
            | Err _ => Err EIO
            | Panic => Panic
            end
        | _, _ => Ok ∅
        end;
      bulk_copy block_size offset end_offset
        (fun block_index =>
           match ws_blocks st !! block_index with
           | Some block => Some block
           | None =>
               match recent_blocks !! block_index with
               | Some block => Some block
               | None => repo_blocks !! block_index
               end
           end)
        indices output.
(** ** Preparation of a truncate *)

Definition load_existing_truncate_boundary_block (mt : Mount) (st : WriteState) (block_index block_size : Z)
    : outcome Z (option bytes) :=
  match ws_blocks st !! block_index with
  | Some block => Ok (Some block)
  | None =>
      match recent_write_block (fz_settings cfg) (mt_recent mt) (ws_file_id st) block_index with
      | Some block => Ok (Some block)
      | None =>
          match repo_load_block (mt_repo mt) (ws_file_id st) block_index block_size with
          | Ok block => Ok block
          | Err _ => Err EIO
          | Panic => Panic
          end
      end
  end.

Definition resize_existing_block_for_truncate (mt : Mount) (block_index target_len block_size : Z)
    (st : WriteState) : outcome Z WriteState :=
  if (target_len =? 0) || (block_size <? target_len) then Ok st
  else
    block ← load_existing_truncate_boundary_block mt st block_index block_size;
    match block with
    | None => Ok st
    | Some block => Ok (ws_set_blocks (<[block_index := vec_resize block target_len]> (ws_blocks st)) st)
    end.

Definition zero_extend_existing_block_from_eof (mt : Mount)
    (block_index previous_used_len target_len block_size : Z) (st : WriteState) : outcome Z WriteState :=
  if (previous_used_len =? 0) || (target_len <? previous_used_len) || (block_size <? target_len) then Ok st
  else
    block ← load_existing_truncate_boundary_block mt st block_index block_size;
    match block with
    | None => Ok st
    | Some block =>
        let block := vec_resize (take (Z.to_nat previous_used_len) block) target_len in
        Ok (ws_set_blocks (<[block_index := block]> (ws_blocks st)) st)
    end.

Definition trim_existing_block_at_eof (mt : Mount) (eof block_size : Z) (st : WriteState)
    : outcome Z WriteState :=
  if eof =? 0 then Ok st
  else
    let used_len := eof mod block_size in
    if used_len =? 0 then Ok st
    else resize_existing_block_for_truncate mt (eof / block_size) used_len block_size st.

Definition prepare_truncate_boundary_blocks (mt : Mount) (block_size : Z) (st : WriteState)
    : outcome Z WriteState :=
  if negb (ws_truncate_pending st) then Ok st
  else
    let had_dirty_payload := (0 <? ws_buffered_bytes st) || negb (bool_decide (ws_blocks st = ∅)) in
    let new_size := ws_file_size st in
    if had_dirty_payload then trim_existing_block_at_eof mt new_size block_size st
    else
      persisted_size ←
        match repo_file_size (mt_repo mt) (ws_file_id st) with
        | Ok size => Ok size
        | Err _ => Err EIO
        | Panic => Panic
        end;
      let previous_size := default new_size persisted_size in
      if previous_size <? new_size then
        let previous_used_len := previous_size mod block_size in
        if (0 <? previous_size) && negb (previous_used_len =? 0) then
          let block_index := previous_size / block_size in
          let block_start := sat_mul block_index block_size in
          let block_end := sat_add block_start block_size in
          let target_len := if new_size <? block_end then sat_sub new_size block_start else block_size in
          zero_extend_existing_block_from_eof mt block_index previous_used_len target_len block_size st
        else Ok st
      else trim_existing_block_at_eof mt new_size block_size st.

(** ** The flush *)

Definition persist_row_for_block (st : WriteState) (block_index used_len : Z) : option PersistBlockRow :=
  if used_len =? 0 then None
  else
    block ← ws_blocks st !! block_index;
    Some {| pbr_block_index := block_index; pbr_data := block; pbr_used_len := used_len |}.

Definition prepare_persist_rows_from_block_plan (st : WriteState) (plan : list PersistBlockPlanEntry)
    : list PersistBlockRow :=
  omap (fun entry => persist_row_for_block st (pbe_block_index entry) (pbe_used_len entry)) plan.

(** The request [execute_persist_plan] makes. *)
Definition persist_request (st : WriteState) (block_size : Z) (plan : PersistExecutionPlan)
    (capacity_reservation_token : option string) : PersistRequest :=
  let 'Blocks blocks := pep_payload plan in
  {| pr_file_id := ws_file_id st; pr_file_size := ws_file_size st; pr_block_size := block_size;
     pr_total_blocks := pep_total_blocks plan; pr_truncate_pending := ws_truncate_pending st;
     pr_blocks := prepare_persist_rows_from_block_plan st blocks;
     pr_maintain_copy_crc_table := fz_copy_dedupe_crc_table cfg;
     pr_capacity_reservation_token := capacity_reservation_token;
     pr_write_fence := ws_persistence_fence st;
     pr_write_authorization := ws_write_authorization st;
     pr_kill_suidgid := ws_kill_suidgid st |}.

Definition execute_persist_plan (mt : Mount) (st : WriteState) (block_size : Z)
    (plan : PersistExecutionPlan) (capacity_reservation_token : option string) : outcome Z unit * Mount :=
  let '(result, repo) :=
    repo_persist (persist_request st block_size plan capacity_reservation_token) (mt_repo mt) in
  (match result with
   | Ok tt => Ok tt
   | Err err => Err (persist_error_errno err)
   | Panic => Panic
   end,
   {| mt_repo := repo; mt_recent := mt_recent mt; mt_cache := mt_cache mt;
      mt_write_states := mt_write_states mt |}).

(** The plan of a flush of the prepared state. *)
Definition flush_plan (st : WriteState) (block_size : Z) : PersistExecutionPlan :=
  choose_persist_execution_plan
    {| ppi_file_size := ws_file_size st; ppi_block_size := block_size;
       ppi_truncate_pending := ws_truncate_pending st; ppi_dirty_blocks := dirty_keys st |}.

Definition flush_write_state_with_capacity_reservation (mt : Mount) (st : WriteState)
    (capacity_reservation_token : option string) : outcome Z unit * WriteState * Mount :=
  if ws_load_error st then (Err EIO, st, mt)
  else
    let block_size := Z.max (fz_block_size cfg) 1 in
    match prepare_truncate_boundary_blocks mt block_size st with
    | Err errno => (Err errno, st, mt)
    | Panic => (Panic, st, mt)
    | Ok st =>
        let '(result, mt) :=
          execute_persist_plan mt st block_size (flush_plan st block_size) capacity_reservation_token in
        match result with
        | Ok _ =>
            let recent :=
              store_recent_write_blocks (fz_settings cfg) (fz_block_size cfg) (ws_file_id st)
                (ws_file_size st) (ws_truncate_pending st)
                (map_to_list (ws_blocks st)) (mt_recent mt) in
            (Ok tt, ws_flushed st,
             mt_clear_read_cache (ws_file_id st)
               {| mt_repo := mt_repo mt; mt_recent := recent; mt_cache := mt_cache mt;
                  mt_write_states := mt_write_states mt |})
        | Err errno => (Err errno, st, mt)
        | Panic => (Panic, st, mt)
        end
    end.

Definition flush_write_state (mt : Mount) (st : WriteState) : outcome Z unit * WriteState * Mount :=
  flush_write_state_with_capacity_reservation mt st None.
End Buffer.

(** ** What the repository promises *)

(** The content of a repository: the bytes of each block of a file (for the block
    size of the mount), the size of each file, its consistency, and whether it has
    identifiers left for new data. *)
Class RepoView (R : Type) : Type := {
  repo_byte : R -> Z -> Z -> Z -> Z -> Z;
  repo_size : R -> Z -> option Z;
  repo_sane : R -> Prop;
  repo_live : R -> Prop
}.

(** A persist request as the flush builds it. *)
Record persist_shape (q : PersistRequest) : Prop := {
  sh_bs : 0 < pr_block_size q <= I32_MAX;
  sh_size : 0 <= pr_file_size q <= I64_MAX;
  sh_total : pr_total_blocks q = block_count_for_length (pr_file_size q) (pr_block_size q) false;
  sh_rows : rows_ok (pr_blocks q)
}.

(** The bytes of a file after a committed request: the rows, and the old bytes in
    the other blocks; past the end a truncate leaves zeroes, any other request
    leaves the block or drops it. *)
Definition persisted_bytes (q : PersistRequest) (old new : Z -> Z -> Z) : Prop :=
  forall k i, 0 <= k -> 0 <= i < pr_block_size q ->
    match row_for (pr_blocks q) k with
    | Some row => new k i = byte_at (pbr_data row) i
    | None =>
        if k * pr_block_size q <? pr_file_size q then new k i = old k i
        else new k i = 0 \/ (pr_truncate_pending q = false /\ new k i = old k i)
    end.

Class BlockRepoOk (R : Type) `{BlockRepo R} `{RepoView R} : Prop := {
  repo_load_ok : forall r fid k bs, repo_sane r -> 0 < bs <= I32_MAX -> 0 <= k ->
    match repo_load_block r fid k bs with
    | Ok (Some d) =>
        zlen d = bs /\ Forall is_byte d /\ forall i, 0 <= i < bs -> byte_at d i = repo_byte r fid bs k i
    | Ok None => forall i, 0 <= i < bs -> repo_byte r fid bs k i = 0
    | Err _ => True
    | Panic => False
    end;
  repo_fetch_ok : forall r fid first last bs, repo_sane r -> 0 < bs <= I32_MAX -> 0 <= first <= last ->
    match repo_fetch_range r fid first last bs with
    | Ok rows =>
        (forall k d, (k, d) ∈ rows -> first <= k <= last /\
           zlen d = bs /\ forall i, 0 <= i < bs -> byte_at d i = repo_byte r fid bs k i) /\
        (forall k i, first <= k <= last -> k ∉ rows.*1 -> 0 <= i < bs -> repo_byte r fid bs k i = 0)
    | Err _ => True
    | Panic => False
    end;
  repo_size_ok : forall r fid,
    match repo_file_size r fid with
    | Ok size => size = repo_size r fid
    | Err _ => True
    | Panic => False
    end;
  repo_persist_ok : forall q r, repo_sane r -> repo_live r -> is_Some (repo_size r (pr_file_id q)) -> persist_shape q ->
    match repo_persist q r with
    | (Ok _, r') =>
        repo_sane r' /\ repo_size r' (pr_file_id q) = Some (pr_file_size q) /\
        persisted_bytes q (repo_byte r (pr_file_id q) (pr_block_size q))
          (repo_byte r' (pr_file_id q) (pr_block_size q)) /\
        (forall fid, fid <> pr_file_id q ->
           repo_size r' fid = repo_size r fid /\ forall bs k i, repo_byte r' fid bs k i = repo_byte r fid bs k i)
    | (Err _, r') => r' = r
    | (Panic, _) => False
    end
}.

(** ** Correctness *)

(** The blocks of a range read do not depend on the order of the rows. *)
Lemma collect_rows_Some (rows : list (Z * bytes)) (m : gmap Z bytes) k d :
  foldl (fun blocks row => <[row.1 := row.2]> blocks) m rows !! k = Some d ->
  (k, d) ∈ rows \/ m !! k = Some d.
Proof.
  revert m. induction rows as [|[k' d'] rows IH]; intros m; cbn; [by right|]. intros [Hr|Hr]%IH.
  - left. set_solver.
  - apply lookup_insert_Some in Hr as [[<- <-]|[_ Hr]]; [left; set_solver|by right].
Qed.

Lemma collect_rows_None (rows : list (Z * bytes)) (m : gmap Z bytes) k :
  foldl (fun blocks row => <[row.1 := row.2]> blocks) m rows !! k = None -> k ∉ rows.*1 /\ m !! k = None.
Proof.
  revert m. induction rows as [|[k' d'] rows IH]; intros m; cbn; [set_solver|]. intros [Hr Hm]%IH.
  apply lookup_insert_None in Hm. set_solver.
Qed.

Lemma elem_of_dirty_keys st k : k ∈ dirty_keys st <-> is_Some (ws_blocks st !! k).
Proof.
  unfold dirty_keys. rewrite elem_of_sort_z, list_elem_of_fmap. split.
  - intros ([k' d] & -> & Hin%elem_of_map_to_list). by exists d.
  - intros [d Hd]. exists (k, d). split; [done|]. by apply elem_of_map_to_list.
Qed.

Lemma NoDup_omap_fmap {A B C} (f : A -> option B) (g : B -> C) (h : A -> C) (l : list A) :
  (forall a b, f a = Some b -> g b = h a) -> NoDup (h <$> l) -> NoDup (g <$> omap f l).
Proof.
  intros Hf. induction l as [|a l IH]; cbn; [constructor|]. intros [Hn Hnd]%NoDup_cons.
  destruct (f a) as [b|] eqn:E; [|by apply IH]. cbn. apply NoDup_cons. split; [|by apply IH].
  intros (b' & Eb & (a' & Ha' & Ea')%list_elem_of_omap)%list_elem_of_fmap. apply Hn.
  rewrite <- (Hf a b E), Eb, (Hf a' b' Ea'). by apply list_elem_of_fmap_2.
Qed.

(** *** The overlay of recent writes *)

Lemma foldl_delete_sub (keys : list key) (m : gmap key bytes) :
  foldl (fun recent k => delete k recent) m keys ⊆ m.
Proof.
  revert m. induction keys as [|k keys IH]; intros m; cbn; [done|].
  etrans; [apply IH|apply delete_subseteq].
Qed.

(** The flushed blocks below [total], put over the map. *)
Definition put_recent (fid total : Z) (blocks : list (Z * bytes)) (m : gmap key bytes) : gmap key bytes :=
  foldl (fun recent row => if row.1 <? total then <[(fid, row.1) := row.2]> recent else recent) m blocks.

Lemma put_recent_Some fid total blocks : forall m f k d,
  NoDup blocks.*1 -> put_recent fid total blocks m !! (f, k) = Some d ->
  (f = fid /\ k < total /\ (k, d) ∈ blocks) \/
  (m !! (f, k) = Some d /\ (f = fid -> k < total -> k ∉ blocks.*1)).
Proof.
  induction blocks as [|[k0 d0] blocks IH]; intros m f k d Hnd; unfold put_recent in *; cbn.
  { intros Hm. right. split; [done|set_solver]. }
  apply NoDup_cons in Hnd as [Hn Hnd]. intros Hl. apply IH in Hl; [|done]. cbn in Hn.
  destruct Hl as [(-> & ? & ?)|[Hm Hk]]; [left; set_solver|].
  destruct (Z.ltb_spec k0 total) as [Hlt|Hge].
  - apply lookup_insert_Some in Hm as [[[= <- <-] <-]|[Hne Hm]]; [left; set_solver|].
    right. split; [done|]. intros -> Hkt. apply not_elem_of_cons. split; [congruence|by apply Hk].
  - right. split; [done|]. intros -> Hkt. apply not_elem_of_cons. split; [lia|by apply Hk].
Qed.

(** The overlay after a flush: every entry is a flushed block inside the file, or was
    there before; a truncate leaves nothing of the file past its end. *)
Lemma store_recent_Some s bs fid size truncate blocks recent f k d :
  0 < bs -> 0 <= size -> NoDup blocks.*1 ->
  store_recent_write_blocks s bs fid size truncate blocks recent !! (f, k) = Some d ->
  (f = fid /\ k * bs < size /\ (k, d) ∈ blocks) \/
  (recent !! (f, k) = Some d /\
   (f = fid -> (k * bs < size -> k ∉ blocks.*1) /\ (truncate = true -> k * bs < size))).
Proof.
  intros Hbs Hsz Hnd. unfold store_recent_write_blocks. rewrite Z.max_l by lia.
  set (total := if size =? 0 then 0 else 1 + (size - 1) / bs).
  assert (Htotal : forall k, k < total <-> k * bs < size \/ (size = 0 /\ k < 0)).
  { intros j. unfold total. zcase; [nia|]. Z.to_euclidean_division_equations. nia. }
  set (m := if truncate || (total =? 0) then _ else recent). fold (put_recent fid total blocks m). intros Hl.
  assert (Hput : put_recent fid total blocks m !! (f, k) = Some d).
  { destruct (0 <? _); [|done]. eapply lookup_weaken; [exact Hl|apply foldl_delete_sub]. }
  apply put_recent_Some in Hput as [(-> & Hk & Hin)|[Hm Hk]]; [|right|done].
  - left. split; [done|]. split; [|done]. apply Htotal in Hk. nia.
  - assert (Hrec : recent !! (f, k) = Some d /\ (truncate = true -> f = fid -> k < total)).
    { unfold m in Hm. destruct (truncate || (total =? 0)) eqn:Et.
      - apply map_lookup_filter_Some in Hm as [Hm Hc]. cbn in Hc. split; [done|]. intros _ ->. destruct Hc; [done|lia].
      - split; [done|]. intros ->. done. }
    destruct Hrec as [Hrec Htr]. split; [done|]. intros ->. split.
    + intros Hlt. apply Hk; [done|]. apply Htotal. by left.
    + intros Ht. specialize (Htr Ht eq_refl). apply Htotal in Htr. nia.
Qed.

Section BufferProofs.
Context {R : Type} `{BlockRepoOk R} {M : Type} `{LinkedMapOk M} (cfg : FuseConfig) (bs : Z).
Context (Hcfg : fz_block_size cfg = bs) (Hbs : 0 < bs <= I32_MAX).
Implicit Types (mt : Mount (R := R) (M := M)) (st : WriteState).

(** The file as a handle with buffered writes sees it, by block and offset. *)
Definition state_byte mt st (k i : Z) : Z :=
  match ws_blocks st !! k with
  | Some b => byte_at b i
  | None => repo_byte (mt_repo mt) (ws_file_id st) bs k i
  end.

Definition block_ok (d : bytes) : Prop := zlen d <= bs /\ Forall is_byte d.

(** The overlay of recent writes repeats the repository, which has zeroes past the
    end of the file. *)
Record mount_ok mt (fid : Z) : Prop := {
  mo_sane : repo_sane (mt_repo mt);
  mo_recent : forall k d, mt_recent mt !! (fid, k) = Some d ->
    0 <= k /\ block_ok d /\ forall i, 0 <= i < bs -> byte_at d i = repo_byte (mt_repo mt) fid bs k i;
  mo_tail : forall n k i, repo_size (mt_repo mt) fid = Some n -> 0 <= k -> 0 <= i < bs ->
    n <= k * bs + i -> repo_byte (mt_repo mt) fid bs k i = 0
}.

Record state_ok mt st : Prop := {
  so_mount : mount_ok mt (ws_file_id st);
  so_blocks : forall k b, ws_blocks st !! k = Some b -> 0 <= k <= I64_MAX /\ block_ok b;
  so_size : 0 <= ws_file_size st <= I64_MAX;
  so_inside : ws_truncate_pending st = false -> forall k, is_Some (ws_blocks st !! k) -> k * bs < ws_file_size st;
  so_tail : ws_truncate_pending st = false -> forall k i, 0 <= k -> 0 <= i < bs ->
    ws_file_size st <= k * bs + i -> state_byte mt st k i = 0
}.

(** The repository refuses to read some block of the file. *)
Definition load_fails mt (fid : Z) : Prop :=
  exists k err, repo_load_block (mt_repo mt) fid k bs = Err err.

Lemma recent_block_spec mt st k d :
  mount_ok mt (ws_file_id st) ->
  recent_write_block (fz_settings cfg) (mt_recent mt) (ws_file_id st) k = Some d ->
  block_ok d /\ forall i, 0 <= i < bs -> byte_at d i = repo_byte (mt_repo mt) (ws_file_id st) bs k i.
Proof.
  intros Hm. unfold recent_write_block. destruct (_ =? 0); [done|]. destruct (_ =? 0); [done|].
  intros Hd. by apply (mo_recent _ _ Hm) in Hd as [_ ?].
Qed.

Lemma block_ok_zeros : block_ok (zeros bs).
Proof.
  split; [zlen_simpl; lia|]. unfold zeros. apply Forall_replicate. unfold is_byte. lia.
Qed.

Lemma boundary_block_spec mt st k :
  mount_ok mt (ws_file_id st) -> (forall b, ws_blocks st !! k = Some b -> block_ok b) -> 0 <= k ->
  match load_existing_truncate_boundary_block cfg mt st k bs with
  | Ok (Some d) => block_ok d /\ forall i, 0 <= i < bs -> byte_at d i = state_byte mt st k i
  | Ok None => ws_blocks st !! k = None /\ forall i, 0 <= i < bs -> state_byte mt st k i = 0
  | Err e => e = EIO /\ load_fails mt (ws_file_id st)
  | Panic => False
  end.
Proof.
  intros Hm Hb Hk. unfold load_existing_truncate_boundary_block, state_byte.
  destruct (ws_blocks st !! k) as [b|] eqn:E; [by split; [apply Hb|]|].
  destruct (recent_write_block _ _ _ _) as [d|] eqn:Er; [by apply (recent_block_spec mt st)|].
  pose proof (repo_load_ok (mt_repo mt) (ws_file_id st) k bs (mo_sane _ _ Hm) Hbs Hk) as Hl.
  destruct (repo_load_block _ _ _ _) as [[d|]|err|] eqn:El; [|done| |done].
  - destruct Hl as (Hl & Hd & Hi). split; [split; [lia|done]|done].
  - split; [done|]. by exists k, err.
Qed.

Lemma load_write_block_boundary mt st k :
  load_write_block cfg mt st k =
  (d ← load_existing_truncate_boundary_block cfg mt st k bs; Ok (default (zeros bs) d)).
Proof.
  unfold load_write_block, load_existing_truncate_boundary_block, load_write_block_from_repo. rewrite Hcfg.
  destruct (ws_blocks st !! k); [done|]. destruct (recent_write_block _ _ _ _); [done|].
  by destruct (repo_load_block _ _ _ _) as [[]| |].
Qed.

Lemma load_write_block_spec mt st k :
  mount_ok mt (ws_file_id st) -> (forall b, ws_blocks st !! k = Some b -> block_ok b) -> 0 <= k ->
  match load_write_block cfg mt st k with
  | Ok d => block_ok d /\ forall i, 0 <= i < bs -> byte_at d i = state_byte mt st k i
  | Err e => e = EIO /\ load_fails mt (ws_file_id st)
  | Panic => False
  end.
Proof.
  intros Hm Hb Hk. rewrite load_write_block_boundary. pose proof (boundary_block_spec mt st k Hm Hb Hk) as Hs.
  destruct (load_existing_truncate_boundary_block _ _ _ _ _) as [[d|]|e|]; cbn; [done| |done|done].
  split; [apply block_ok_zeros|]. intros i Hi. rewrite byte_at_zeros. symmetry. by apply Hs.
Qed.

(** *** Writes *)

Lemma write_block_base_spec mt st k src full brand_new ss se :
  mount_ok mt (ws_file_id st) -> (forall b, ws_blocks st !! k = Some b -> block_ok b) -> 0 <= k ->
  zlen src <= bs -> Forall is_byte src -> (full = true -> ss = 0 /\ se = bs) ->
  (brand_new = true -> forall i, 0 <= i < bs -> state_byte mt st k i = 0) ->
  match write_block_base cfg mt st bs k src full brand_new ss with
  | Ok d => block_ok d /\ forall i, 0 <= i < bs -> ~ ss <= i < se -> byte_at d i = state_byte mt st k i
  | Err e => e = EIO /\ load_fails mt (ws_file_id st)
  | Panic => False
  end.
Proof.
  intros Hm Hb Hk Hs Hd Hfull Hnew. unfold write_block_base.
  destruct full; [split; [done|]; destruct Hfull; [done|]; intros; lia|].
  pose proof (load_write_block_spec mt st k Hm Hb Hk) as Hl.
  destruct (ws_blocks st !! k) as [b|] eqn:E.
  { split; [by apply Hb|]. intros i _ _. unfold state_byte. by rewrite E. }
  destruct (brand_new && (ss =? 0)) eqn:Ez.
  { apply andb_true_iff in Ez as [Ez _]. split; [apply block_ok_zeros|]. intros i Hi _.
    by rewrite byte_at_zeros, Hnew. }
  destruct (load_write_block _ _ _ _); [|done|done]. split; [apply Hl|]. intros i Hi _. by apply Hl.
Qed.

(** The file after a write of [data] at [offset] from block [k] on. *)
Definition written (offset : Z) (data : bytes) (old : Z -> Z -> Z) (from k i : Z) : Z :=
  if decide (from <= k /\ offset <= k * bs + i < offset + zlen data)
  then byte_at data (k * bs + i - offset) else old k i.

(** What a run of the write loop over the blocks [from..last] does. *)
Definition loop_post mt st (offset : Z) (data : bytes) (from last : Z) (res : outcome Z unit * WriteState) : Prop :=
  match res with
  | (Ok _, st') =>
      (exists blocks, st' = ws_set_blocks blocks st) /\
      (forall k b, ws_blocks st' !! k = Some b -> ws_blocks st !! k = Some b \/ from <= k <= last /\ block_ok b) /\
      forall k i, 0 <= k -> 0 <= i < bs -> state_byte mt st' k i = written offset data (state_byte mt st) from k i
  | (Err e, _) => e = EIO /\ load_fails mt (ws_file_id st)
  | (Panic, _) => False
  end.

(** One block: the loop inserts a block that carries its part of the data. *)
Lemma write_block_step mt st orig offset data k :
  mount_ok mt (ws_file_id st) -> (forall b, ws_blocks st !! k = Some b -> block_ok b) ->
  0 <= offset -> Forall is_byte data -> offset + zlen data <= U64_MAX ->
  0 <= k -> offset < k * bs + bs -> k * bs < offset + zlen data ->
  (orig <= k * bs -> forall i, 0 <= i < bs -> state_byte mt st k i = 0) ->
  let ss := Z.max offset (k * bs) - k * bs in
  let se := Z.min (offset + zlen data) (k * bs + bs) - k * bs in
  let cursor := Z.max 0 (k * bs - offset) in
  match
    src ← slice data cursor (cursor + (se - ss));
    block ← write_block_base cfg mt st bs k src ((ss =? 0) && (se =? bs)) (orig <=? k * bs) ss;
    copy_from_slice (if zlen block <? bs then vec_resize block bs else block) ss se src
  with
  | Ok d => block_ok d /\ forall i, 0 <= i < bs -> byte_at d i = written offset data (state_byte mt st) k k i
  | Err e => e = EIO /\ load_fails mt (ws_file_id st)
  | Panic => False
  end.
Proof.
  intros Hm Hb Ho Hd He Hk Hk1 Hk2 Hnew ss se cursor.
  assert (Hss : ss = Z.max offset (k * bs) - k * bs) by done.
  assert (Hse : se = Z.min (offset + zlen data) (k * bs + bs) - k * bs) by done.
  assert (Hcur : cursor = Z.max 0 (k * bs - offset)) by done. clearbody ss se cursor.
  pose proof (zlen_nonneg data). rewrite slice_Ok by lia. cbn [mbind outcome_bind].
  set (src := take _ _).
  assert (Hsrc : zlen src = se - ss) by (unfold src; zlen_simpl; lia).
  assert (Hsb : Forall is_byte src) by (unfold src; by apply Forall_take, Forall_drop).
  pose proof (write_block_base_spec mt st k src ((ss =? 0) && (se =? bs)) (orig <=? k * bs) ss se
    Hm Hb Hk ltac:(lia) Hsb) as Hbase.
  destruct (write_block_base _ _ _ _ _ _ _ _ _) as [d|e|]; [| |by apply Hbase; intros; repeat zcase; try lia; apply Hnew].
  2: { apply Hbase; [intros; repeat zcase; try done; lia|]. intros E%Z.leb_le. by apply Hnew. }
  destruct Hbase as [[Hl Hdb] Hi]; [intros; repeat zcase; try done; lia|intros E%Z.leb_le; by apply Hnew|].
  cbn [mbind outcome_bind]. set (d' := if zlen d <? bs then vec_resize d bs else d).
  assert (Hd' : zlen d' = bs /\ Forall is_byte d' /\ forall i, 0 <= i < bs -> byte_at d' i = byte_at d i).
  { unfold d'. zcase; [|split; [lia|done]]. split; [zlen_simpl; lia|]. split.
    - unfold vec_resize. apply Forall_resize; [unfold is_byte; lia|done].
    - intros i ?. rewrite byte_at_vec_resize. by case_decide; [|lia]. }
  destruct Hd' as (Hl' & Hb' & Hi'). rewrite copy_from_slice_Ok by lia. split; [split|].
  - rewrite zlen_splice by lia. lia.
  - unfold splice. apply Forall_app. split; [by apply Forall_take|]. apply Forall_app. split; [done|by apply Forall_drop].
  - intros i Hir. rewrite byte_at_splice by lia. unfold written. case_decide; case_decide; try lia.
    + unfold src. rewrite byte_at_take, byte_at_drop by lia. case_decide; [|lia]. case_decide; [|lia]. f_equal. lia.
    + rewrite Hi' by lia. apply Hi; lia.
Qed.

Lemma state_byte_insert mt st k d j i :
  state_byte mt (ws_set_blocks (<[k := d]> (ws_blocks st)) st) j i =
  if decide (j = k) then byte_at d i else state_byte mt st j i.
Proof.
  unfold state_byte. cbn. case_decide as E; [subst; by rewrite lookup_insert_eq|by rewrite lookup_insert_ne].
Qed.

Lemma wrap_mul_block k offset (data : bytes) :
  0 <= k -> k * bs < offset + zlen data -> offset + zlen data <= U64_MAX -> wrap_mul k bs = k * bs.
Proof. intros. unfold wrap_mul, wrap64. apply Z.mod_small. unfold U64_MAX in *. nia. Qed.

Lemma write_blocks_loop_spec mt orig offset data last n : forall k st,
  mount_ok mt (ws_file_id st) -> (forall j b, ws_blocks st !! j = Some b -> block_ok b) ->
  0 <= offset -> Forall is_byte data -> 0 < zlen data -> offset + zlen data <= U64_MAX ->
  0 <= k -> offset < k * bs + bs -> last * bs < offset + zlen data -> last - k + 1 = Z.of_nat n ->
  offset + zlen data <= last * bs + bs ->
  (forall j i, k <= j -> orig <= j * bs -> 0 <= i < bs -> state_byte mt st j i = 0) ->
  loop_post mt st offset data k last
    (write_blocks_loop cfg mt bs orig offset (offset + zlen data) data (range_incl k last)
       (Z.max 0 (k * bs - offset)) st).
Proof.
  induction n as [|n IH]; intros k st Hm Hb Ho Hd Hz He Hk Hfirst Hlast Hn Hend Hnew.
  { rewrite range_incl_nil by lia. cbn. split; [by exists (ws_blocks st); destruct st|]. split; [by left|].
    intros j i Hj Hi. unfold written. case_decide; [nia|done]. }
  assert (Hkl : k * bs <= last * bs) by nia. rewrite range_incl_cons by lia. cbn [write_blocks_loop].
  rewrite (wrap_mul_block k offset data) by lia.
  replace (Z.min (offset + zlen data) (sat_add (k * bs) bs))
    with (Z.min (offset + zlen data) (k * bs + bs)) by (unfold sat_add; lia).
  destruct (Z.leb_spec (Z.min (offset + zlen data) (k * bs + bs)) (Z.max offset (k * bs))); [lia|].
  pose proof (write_block_step mt st orig offset data k Hm (Hb k) Ho Hd He Hk Hfirst ltac:(lia)
    ltac:(intros; by apply Hnew)) as Hstep. cbn zeta in Hstep.
  set (ss := Z.max offset (k * bs) - k * bs) in *.
  set (se := Z.min (offset + zlen data) (k * bs + bs) - k * bs) in *.
  replace (sat_add (Z.max 0 (k * bs - offset)) (sat_sub se ss)) with (Z.max 0 (k * bs - offset) + (se - ss))
    by (unfold ss, se, sat_add, sat_sub; lia).
  destruct (Z.ltb_spec (zlen data) (Z.max 0 (k * bs - offset) + (se - ss))); [unfold ss, se in *; lia|].
  destruct (_ ← slice _ _ _; _) as [d|e|]; [|done|done]. destruct Hstep as [Hdk Hdi].
  destruct (decide (k = last)) as [->|Hne].
  { rewrite range_incl_nil by lia. cbn [write_blocks_loop]. split; [by eexists|]. cbn [ws_blocks ws_set_blocks].
    split; [intros j b [[<- <-]|[_ ?]]%lookup_insert_Some; [right; split; [lia|done]|by left]|].
    intros j i Hj Hi. rewrite state_byte_insert. case_decide as E; [subst; by apply Hdi|].
    unfold written. case_decide; [nia|done]. }
  set (st1 := ws_set_blocks _ _).
  assert (Hnext : k * bs + bs <= last * bs) by nia.
  replace (Z.max 0 (k * bs - offset) + (se - ss)) with (Z.max 0 ((k + 1) * bs - offset))
    by (rewrite Z.mul_add_distr_r; unfold ss, se; lia).
  assert (Hb1 : forall j b, ws_blocks st1 !! j = Some b -> block_ok b).
  { intros j b. cbn. intros [[<- <-]|[_ ?]]%lookup_insert_Some; [done|by eapply Hb]. }
  specialize (IH (k + 1) st1 Hm Hb1 Ho Hd Hz He ltac:(lia) ltac:(nia) Hlast ltac:(lia) Hend).
  unfold loop_post in *. destruct (write_blocks_loop _ _ _ _ _ _ _ _ _ _) as [[[]|e|] st'].
  2,3: apply IH; intros j i ? ? ?; unfold st1; rewrite state_byte_insert; case_decide; [lia|by apply Hnew; [lia|..]].
  destruct IH as ((blocks & ->) & Hin & Hbyte).
  { intros j i ? ? ?. unfold st1. rewrite state_byte_insert. case_decide; [lia|]. apply Hnew; [lia|done..]. }
  split; [by exists blocks|]. split.
  - intros j b Hj. destruct (Hin j b Hj) as [Hj'|[? ?]]; [|right; split; [lia|done]].
    cbn in Hj'. apply lookup_insert_Some in Hj' as [[<- <-]|[_ ?]]; [right; split; [lia|done]|by left].
  - intros j i Hj Hi. rewrite Hbyte by done. unfold written at 1. unfold st1. rewrite state_byte_insert.
    destruct (decide (j = k)) as [->|Hjk].
    + rewrite decide_False by lia. by apply Hdi.
    + unfold written. do 2 case_decide; try lia; done.
Qed.

(** The file a handle sees, by position. *)
Definition state_at mt st (pos : Z) : Z := state_byte mt st (pos / bs) (pos mod bs).

Lemma pos_split pos : 0 <= pos -> 0 <= pos / bs /\ 0 <= pos mod bs < bs /\ pos / bs * bs + pos mod bs = pos.
Proof.
  intros. pose proof (Z.mod_pos_bound pos bs ltac:(lia)). pose proof (Z.div_mod pos bs ltac:(lia)).
  pose proof (Z.div_pos pos bs). lia.
Qed.

Lemma block_pos k i : 0 <= i < bs -> (k * bs + i) / bs = k /\ (k * bs + i) mod bs = i.
Proof.
  intros. split; [rewrite Z.div_add_l, Z.div_small by lia; lia|].
  rewrite Z.add_comm, Z.mod_add, Z.mod_small by lia. lia.
Qed.

Lemma mount_ok_ext mt mt' fid :
  mt_repo mt' = mt_repo mt -> mt_recent mt' = mt_recent mt -> mount_ok mt fid -> mount_ok mt' fid.
Proof. intros Er Ec [Ms Mr Mt]. split; rewrite Er; [done|by rewrite Ec|done]. Qed.

(** The state after a successful buffered write. *)
Record write_done mt st (offset : Z) (data : bytes) mt' st' : Prop := {
  wd_mount : mt_repo mt' = mt_repo mt /\ mt_recent mt' = mt_recent mt /\ mt_write_states mt' = mt_write_states mt;
  wd_state : exists blocks,
    st' = ws_set_blocks blocks (ws_set_size (Z.max (ws_file_size st)
            (if bool_decide (data = []) then 0 else offset + zlen data)) st);
  wd_ok : state_ok mt' st';
  wd_bytes : forall pos, 0 <= pos ->
    state_at mt' st' pos =
      if decide (offset <= pos < offset + zlen data) then byte_at data (pos - offset) else state_at mt st pos
}.

Lemma state_ok_grow mt st n :
  state_ok mt st -> ws_file_size st <= n <= I64_MAX -> state_ok mt (ws_set_size n st).
Proof.
  intros [Sm Sb Ss Si St] Hn. split; cbn; [done|done|lia| |].
  - intros Ht k Hk. specialize (Si Ht k Hk). lia.
  - intros Ht k i Hk Hi Hpos. apply St; [done..|lia].
Qed.

Lemma write_done_intro mt st offset data blocks :
  let n := Z.max (ws_file_size st) (offset + zlen data) in
  let st' := ws_set_blocks blocks (ws_set_size n st) in
  state_ok mt (ws_set_size n st) -> ws_truncate_pending st = false -> data <> [] -> 0 <= offset ->
  (forall k b, ws_blocks st' !! k = Some b -> ws_blocks st !! k = Some b \/
     offset / bs <= k <= (offset + zlen data - 1) / bs /\ block_ok b) ->
  (forall k i, 0 <= k -> 0 <= i < bs ->
     state_byte mt st' k i = written offset data (state_byte mt (ws_set_size n st)) (offset / bs) k i) ->
  0 <= offset + zlen data - 1 <= I64_MAX ->
  write_done mt st offset data (mt_clear_read_cache (ws_file_id st) mt) st'.
Proof.
  intros n st' [Sm Sb Ss Si St] Htr Hne Ho Hin Hbyte Hpos.
  assert (Hbytes : forall pos, 0 <= pos -> state_at mt st' pos =
    if decide (offset <= pos < offset + zlen data) then byte_at data (pos - offset) else state_at mt st pos).
  { intros pos Hp. destruct (pos_split pos Hp) as (P1 & P2 & P3). unfold state_at. rewrite Hbyte by done.
    unfold written. rewrite P3. pose proof (div_block_bounds bs offset ltac:(lia)).
    do 2 case_decide; try done; [lia|]. exfalso. assert (offset / bs <= pos / bs) by (apply Z.div_le_mono; lia). lia. }
  split; [done|by exists blocks; rewrite bool_decide_eq_false_2| |exact Hbytes].
  assert (Hdiv : 0 <= offset / bs) by (apply Z.div_pos; lia).
  pose proof (div_block_bounds bs (offset + zlen data - 1) ltac:(lia)).
  split; cbn; [by apply (mount_ok_ext mt)| |done| |].
  - intros k b Hk. destruct (Hin k b Hk) as [?|[? ?]]; [by eapply Sb|]. split; [nia|done].
  - intros _ k [b Hk]. destruct (Hin k b Hk) as [?|[? ?]]; [by apply (Si Htr); eexists|]. nia.
  - intros _ k i Hk Hi Hp. destruct (block_pos k i Hi) as [E1 E2].
    specialize (Hbytes (k * bs + i) ltac:(nia)). unfold state_at in Hbytes. rewrite E1, E2 in Hbytes.
    change (state_byte mt st' k i = 0). rewrite Hbytes, decide_False by (cbn in *; lia).
    by apply (St Htr).
Qed.

Lemma update_write_buffer_run mt st offset data :
  state_ok mt st -> ws_truncate_pending st = false -> Forall is_byte data ->
  0 <= offset -> offset + zlen data <= I64_MAX ->
  match update_write_buffer cfg mt st offset data with
  | (Ok _, st', mt') => write_done mt st offset data mt' st'
  | (Err e, _, mt') => e = EIO /\ mt' = mt /\ load_fails mt (ws_file_id st)
  | (Panic, _, _) => False
  end.
Proof.
  intros Hst Htr Hd Ho He. unfold update_write_buffer. rewrite Hcfg, Z.max_l by lia.
  case_bool_decide as E.
  { pose proof (so_size _ _ Hst). subst data. split; [done| |done|].
    - exists (ws_blocks st). rewrite bool_decide_eq_true_2, Z.max_l by (done || lia). by destruct st.
    - intros pos _. rewrite zlen_nil. by case_decide; [lia|]. }
  assert (Hz : 0 < zlen data) by (destruct data; [done|rewrite zlen_cons; pose proof (zlen_nonneg data); lia]).
  assert (Hmax : I64_MAX <= U64_MAX) by done.
  replace (sat_add offset (zlen data)) with (offset + zlen data) by (unfold sat_add; lia).
  replace (sat_sub (offset + zlen data) 1) with (offset + zlen data - 1) by (unfold sat_sub; lia).
  set (st1 := if ws_file_size st <? offset + zlen data then _ else st).
  set (n := Z.max (ws_file_size st) (offset + zlen data)).
  assert (Hst1 : st1 = ws_set_size n st) by (unfold st1, n; zcase; [f_equal; lia|rewrite Z.max_l by lia; by destruct st]).
  pose proof (so_size _ _ Hst) as Hsz. assert (Hn : ws_file_size st <= n <= I64_MAX) by (unfold n; lia).
  pose proof (state_ok_grow mt st n Hst Hn) as Hst1ok. rewrite <- Hst1 in Hst1ok.
  pose proof (div_block_bounds bs offset ltac:(lia)) as Hf.
  pose proof (div_block_bounds bs (offset + zlen data - 1) ltac:(lia)) as Hl.
  assert (Hfl : offset / bs <= (offset + zlen data - 1) / bs) by (apply Z.div_le_mono; lia).
  assert (Hf0 : 0 <= offset / bs) by (apply Z.div_pos; lia).
  pose proof (write_blocks_loop_spec mt (ws_file_size st) offset data ((offset + zlen data - 1) / bs)
    (Z.to_nat ((offset + zlen data - 1) / bs - offset / bs + 1)) (offset / bs) st1
    (so_mount _ _ Hst1ok) ltac:(intros j b Hj; by apply (so_blocks _ _ Hst1ok j b)) Ho Hd Hz ltac:(lia) Hf0
    ltac:(lia) ltac:(lia) ltac:(lia) ltac:(lia)) as Hloop.
  replace (Z.max 0 (offset / bs * bs - offset)) with 0 in Hloop by lia.
  assert (Hnew : forall j i, offset / bs <= j -> ws_file_size st <= j * bs -> 0 <= i < bs -> state_byte mt st1 j i = 0).
  { intros j i ? ? ?. rewrite Hst1. apply (so_tail _ _ Hst Htr); lia. }
  specialize (Hloop Hnew). destruct (write_blocks_loop _ _ _ _ _ _ _ _ _ _) as [[u|e|] st']; cbn in Hloop.
  2: { rewrite Hst1 in Hloop. by destruct Hloop. }
  2: done.
  destruct Hloop as ((blocks & ->) & Hin & Hbyte). rewrite Hst1 in *. apply (write_done_intro mt st offset data blocks); try done; lia.
Qed.

(** *** Reads *)

Lemma bulk_copy_block_spec offset end_ k block out :
  0 <= offset < end_ -> end_ <= U64_MAX -> 0 <= k -> offset < k * bs + bs -> k * bs < end_ ->
  zlen out = end_ - offset -> (forall i, 0 <= i -> (offset + i) / bs = k -> byte_at out i = 0) ->
  exists out', bulk_copy_block bs offset end_ k block out = Ok out' /\ zlen out' = zlen out /\
    forall i, 0 <= i < zlen out ->
      byte_at out' i = if decide ((offset + i) / bs = k) then byte_at (default [] block) ((offset + i) mod bs)
                       else byte_at out i.
Proof.
  intros Ho He Hk Hk1 Hk2 Hlen Hzero. unfold bulk_copy_block.
  assert (Hwrap : wrap_mul k bs = k * bs) by (unfold wrap_mul, wrap64; apply Z.mod_small; unfold U64_MAX in *; nia).
  rewrite Hwrap. replace (Z.min end_ (sat_add (k * bs) bs)) with (Z.min end_ (k * bs + bs)) by (unfold sat_add; lia).
  assert (Hsame : forall blk, (forall j, 0 <= j < bs -> offset <= k * bs + j < end_ -> byte_at blk j = 0) ->
    forall i, 0 <= i < zlen out -> byte_at out i =
      if decide ((offset + i) / bs = k) then byte_at blk ((offset + i) mod bs) else byte_at out i).
  { intros blk Hblk i Hi. case_decide as E; [|done]. destruct (pos_split (offset + i) ltac:(lia)) as (P1 & P2 & P3).
    rewrite E in P3. rewrite (Hzero i) by (done || lia). symmetry. apply Hblk; lia. }
  destruct (Z.leb_spec (Z.min end_ (k * bs + bs)) (Z.max offset (k * bs))); [lia|].
  destruct block as [d|]; [|exists out; split; [done|]; split; [done|]; apply Hsame; intros; apply byte_at_nil].
  change (default [] (Some d)) with d.
  set (ss := Z.max offset (k * bs) - k * bs). set (se := Z.min end_ (k * bs + bs) - k * bs).
  assert (Hss : ss = Z.max offset (k * bs) - k * bs) by done.
  assert (Hse : se = Z.min end_ (k * bs + bs) - k * bs) by done. clearbody ss se.
  destruct (Z.leb_spec (zlen d) ss).
  { exists out. split; [done|]. split; [done|]. apply Hsame. intros j ? ?. apply byte_at_ge. lia. }
  destruct (Z.leb_spec (Z.min se (zlen d)) ss); [lia|].
  rewrite slice_Ok by lia. cbn [mbind outcome_bind]. set (src := take _ _).
  assert (Hsrc : zlen src = Z.min se (zlen d) - ss) by (unfold src; pose proof (zlen_nonneg d); zlen_simpl; lia).
  rewrite copy_from_slice_Ok by lia. eexists. split; [done|]. split; [rewrite zlen_splice; lia|].
  intros i Hi. rewrite byte_at_splice by lia. destruct (pos_split (offset + i) ltac:(lia)) as (P1 & P2 & P3).
  destruct (decide ((offset + i) / bs = k)) as [E|E].
  - rewrite E in P3. case_decide as Ec.
    + unfold src. rewrite byte_at_take, byte_at_drop by lia. rewrite decide_True by lia.
      rewrite decide_True by lia. f_equal. lia.
    + rewrite Hzero by (done || lia). symmetry. apply byte_at_ge. lia.
  - rewrite decide_False; [done|]. intros Ec. apply E. symmetry. apply (Z.div_unique _ _ _ (offset + i - k * bs)); lia.
Qed.

Lemma bulk_copy_spec offset end_ block_of indices : forall out,
  0 <= offset < end_ -> end_ <= U64_MAX -> NoDup indices ->
  Forall (fun k => 0 <= k /\ offset < k * bs + bs /\ k * bs < end_) indices ->
  zlen out = end_ - offset -> (forall i, 0 <= i -> (offset + i) / bs ∈ indices -> byte_at out i = 0) ->
  exists out', bulk_copy bs offset end_ block_of indices out = Ok out' /\ zlen out' = zlen out /\
    forall i, 0 <= i < zlen out ->
      byte_at out' i = if decide ((offset + i) / bs ∈ indices)
                       then byte_at (default [] (block_of ((offset + i) / bs))) ((offset + i) mod bs)
                       else byte_at out i.
Proof.
  induction indices as [|k ks IH]; intros out Ho He Hnd Hall Hlen Hzero; cbn [bulk_copy].
  { exists out. split; [done|]. split; [done|]. intros i Hi. by rewrite decide_False by set_solver. }
  apply NoDup_cons in Hnd as [Hnk Hnd]. apply Forall_cons in Hall as [(K1 & K2 & K3) Hall].
  destruct (bulk_copy_block_spec offset end_ k (block_of k) out) as (o1 & -> & L1 & B1); [done..| |].
  { intros i Hi E. apply Hzero; [done|]. rewrite E. set_solver. }
  cbn [mbind outcome_bind]. destruct (IH o1) as (o2 & -> & L2 & B2); [done..|lia| |].
  { intros i Hi Hin. destruct (decide (i < zlen out)) as [Hlt|]; [|apply byte_at_ge; lia].
    rewrite B1 by lia. rewrite decide_False by (intros E; by rewrite E in Hin). apply Hzero; [done|set_solver]. }
  exists o2. split; [done|]. split; [lia|]. intros i Hi. rewrite B2, B1 by lia.
  destruct (decide ((offset + i) / bs = k)) as [E|Hne].
  - rewrite decide_False by (by rewrite E). rewrite decide_True by (rewrite E; set_solver). by rewrite E.
  - destruct (decide ((offset + i) / bs ∈ ks)); [by rewrite decide_True by set_solver|].
    by rewrite decide_False by set_solver.
Qed.

(** What the scan knows after the blocks [P]: the recent blocks it found, and a span
    of the repository that holds every block it has not. *)
Definition scan_ok mt st (P : Z -> Prop) (acc : gmap Z bytes * option Z * option Z) : Prop :=
  let '(recent_blocks, first, last) := acc in
  (forall k d, recent_blocks !! k = Some d ->
     recent_write_block (fz_settings cfg) (mt_recent mt) (ws_file_id st) k = Some d) /\
  match first, last with
  | Some a, Some b => P a /\ P b /\ a <= b
  | None, None => True
  | _, _ => False
  end /\
  forall k, P k -> ws_blocks st !! k = None -> is_Some (recent_blocks !! k) \/
    exists a b, first = Some a /\ last = Some b /\ a <= k <= b.

Lemma bulk_scan_spec mt st indices : forall P acc,
  StronglySorted Z.lt indices -> (forall x y, P x -> y ∈ indices -> x < y) -> scan_ok mt st P acc ->
  scan_ok mt st (fun k => P k \/ k ∈ indices) (bulk_scan cfg mt st indices acc).
Proof.
  induction indices as [|k ks IH]; intros P acc Hs Hp Hacc; cbn [bulk_scan].
  - destruct acc as [[rb f] l]. destruct Hacc as (A1 & A2 & A3). split; [done|]. split.
    + destruct f, l; try done. destruct A2 as (? & ? & ?). auto.
    + intros x [?|?] Hx; [by apply A3|set_solver].
  - apply StronglySorted_inv in Hs as [Hs Hk]. rewrite Forall_forall in Hk.
    destruct acc as [[rb f] l]. set (acc' := match ws_blocks st !! k with Some _ => _ | None => _ end).
    assert (Hacc' : scan_ok mt st (fun x => P x \/ x = k) acc').
    { destruct Hacc as (A1 & A2 & A3). unfold acc'. destruct (ws_blocks st !! k) eqn:E.
      { split; [done|]. split; [destruct f, l; try done; destruct A2 as (? & ? & ?); auto|].
        intros x [?| ->] Hx; [by apply A3|congruence]. }
      destruct (recent_write_block _ _ _ k) as [d|] eqn:Er.
      { split; [intros x d'; rewrite lookup_insert_Some; intros [[<- <-]|[_ ?]]; [done|by apply A1]|].
        split; [destruct f, l; try done; destruct A2 as (? & ? & ?); auto|].
        intros x [?| ->] Hx; [|left; by rewrite lookup_insert_eq].
        destruct (A3 x) as [?|?]; [done|done|left; apply lookup_insert_is_Some'; by right|by right]. }
      split; [done|]. split.
      { destruct f as [a|], l as [b|]; try done; [|auto with lia]. destruct A2 as (? & Pb & ?).
        specialize (Hp b k Pb ltac:(set_solver)). split; [by left|]. split; [by right|lia]. }
      intros x [Hx'| ->] Hx; [|right].
      - destruct (A3 x) as [?|(a & b & -> & -> & ?)]; [done|done|by left|]. right. exists a, k.
        destruct A2 as (? & Pb & ?). specialize (Hp b k Pb ltac:(set_solver)). split; [done|]. split; [done|lia].
      - destruct f as [a|], l as [b|]; try done; [|by exists k, k].
        destruct A2 as (? & Pb & ?). specialize (Hp b k Pb ltac:(set_solver)). exists a, k.
        split; [done|]. split; [done|lia]. }
    specialize (IH (fun x => P x \/ x = k) acc' Hs ltac:(intros x y [?| ->] ?; [apply Hp; set_solver|by apply Hk]) Hacc').
    revert IH. unfold scan_ok. destruct (bulk_scan cfg mt st ks acc') as [[rb' f'] l'].
    intros (B1 & B2 & B3). split; [done|]. split.
    + destruct f', l'; try done. destruct B2 as (B2 & B2' & ?). split; [set_solver|]. split; [set_solver|done].
    + intros x Hx. apply B3. set_solver.
Qed.

(** The repository refuses to read some range of the file. *)
Definition fetch_fails mt (fid : Z) : Prop :=
  exists a b err, repo_fetch_range (mt_repo mt) fid a b bs = Err err.

(** The answer to a read of the bytes [offset..end_). *)
Definition read_post mt st (offset end_ : Z) (res : outcome Z bytes) : Prop :=
  match res with
  | Ok out =>
      zlen out = Z.max 0 (end_ - offset) /\ forall i, 0 <= i < zlen out -> byte_at out i = state_at mt st (offset + i)
  | Err e => e = EIO /\ (load_fails mt (ws_file_id st) \/ fetch_fails mt (ws_file_id st))
  | Panic => False
  end.

(** The rows of the span, as an ordered map. *)
Lemma bulk_repo_blocks mt st a b :
  repo_sane (mt_repo mt) -> 0 <= a <= b ->
  match fetch_block_range_profiled
          (fun first last => repo_fetch_range (mt_repo mt) (ws_file_id st) first last bs) a b with
  | Ok rows => forall k i, a <= k <= b -> 0 <= i < bs ->
      byte_at (default [] (collect_rows rows !! k)) i = repo_byte (mt_repo mt) (ws_file_id st) bs k i
  | Err _ => fetch_fails mt (ws_file_id st)
  | Panic => False
  end.
Proof.
  intros Hsane Hab. unfold fetch_block_range_profiled.
  pose proof (repo_fetch_ok (mt_repo mt) (ws_file_id st) a b bs Hsane Hbs Hab) as Hf.
  destruct (repo_fetch_range _ _ _ _ _) as [rows|err|] eqn:E; cbn [mbind outcome_bind]; [|by exists a, b, err|done].
  destruct Hf as [Hrow Hnone]. intros k i Hk Hi. unfold collect_rows. destruct (foldl _ _ _ !! k) as [d|] eqn:Ec.
  - apply collect_rows_Some in Ec as [Ec|]; [|done]. rewrite merge_sort_Permutation in Ec. cbn. by apply (Hrow k d) in Ec as (_ & _ & Hd); apply Hd.
  - apply collect_rows_None in Ec as [Ec _]. cbn. rewrite byte_at_nil. symmetry. apply (Hnone k); [done| |done].
    intros Hin. apply Ec. apply list_elem_of_fmap in Hin as ([k' d'] & -> & Hin). apply list_elem_of_fmap. exists (k', d').
    split; [done|]. by rewrite merge_sort_Permutation.
Qed.

(** A read inside one block. *)
Lemma read_single_block mt st offset end_ d :
  0 <= offset < end_ -> end_ <= U64_MAX -> offset / bs = (end_ - 1) / bs -> end_ - offset / bs * bs <= zlen d ->
  (forall i, 0 <= i < bs -> byte_at d i = state_byte mt st (offset / bs) i) ->
  let start := offset / bs * bs in
  read_post mt st offset end_
    (src ← slice d (offset - start) (end_ - start);
     copy_from_slice (zeros (end_ - offset)) 0 (end_ - start - (offset - start)) src).
Proof.
  intros Ho He Hblk Hd Hb start. pose proof (div_block_bounds bs offset ltac:(lia)) as Hf.
  pose proof (div_block_bounds bs (end_ - 1) ltac:(lia)) as Hl. rewrite <- Hblk in Hl.
  assert (Hstart : start = offset / bs * bs) by done. clearbody start.
  rewrite slice_Ok by lia. cbn [mbind outcome_bind]. set (src := take _ _).
  assert (Hsrc : zlen src = end_ - offset) by (unfold src; zlen_simpl; lia).
  rewrite copy_from_slice_Ok; [|lia|zlen_simpl; lia|lia]. split; [rewrite zlen_splice; zlen_simpl; lia|].
  intros i Hi. rewrite zlen_splice in Hi by (zlen_simpl; lia). rewrite zlen_zeros in Hi.
  rewrite byte_at_splice by (zlen_simpl; lia). rewrite decide_True by lia.
  unfold src. rewrite byte_at_take, byte_at_drop by lia. rewrite decide_True by lia. rewrite decide_True by lia.
  unfold state_at. assert (E : (offset + i) / bs = offset / bs).
  { symmetry. apply (Z.div_unique _ _ _ (offset + i - start)); lia. }
  rewrite E, Z.mod_eq, E by lia. rewrite Hb by lia. f_equal. lia.
Qed.

Lemma read_bulk mt st offset end_ :
  state_ok mt st -> 0 <= offset < end_ -> end_ <= U64_MAX ->
  let indices := range_incl (offset / bs) ((end_ - 1) / bs) in
  read_post mt st offset end_
    (let '(recent_blocks, repo_first, repo_last) := bulk_scan cfg mt st indices (∅, None, None) in
     repo_blocks ←
       match repo_first, repo_last with
       | Some repo_first, Some repo_last =>
           match fetch_block_range_profiled
                   (fun first last => repo_fetch_range (mt_repo mt) (ws_file_id st) first last bs)
                   repo_first repo_last with
           | Ok rows => Ok (collect_rows rows)
           | Err _ => Err EIO
           | Panic => Panic
           end
       | _, _ => Ok ∅
       end;
     bulk_copy bs offset end_
       (fun k => match ws_blocks st !! k with
                 | Some block => Some block
                 | None => match recent_blocks !! k with Some block => Some block | None => repo_blocks !! k end
                 end)
       indices (zeros (end_ - offset))).
Proof.
  intros Hst Ho He indices. pose proof (div_block_bounds bs offset ltac:(lia)) as Hf.
  pose proof (div_block_bounds bs (end_ - 1) ltac:(lia)) as Hl.
  assert (Hf0 : 0 <= offset / bs) by (apply Z.div_pos; lia).
  assert (Hsort : StronglySorted Z.lt indices) by apply seqZ_sorted.
  pose proof (bulk_scan_spec mt st indices (fun _ => False) (∅, None, None) Hsort ltac:(done)) as Hscan.
  destruct (bulk_scan cfg mt st indices _) as [[rb f] l].
  destruct Hscan as (A1 & A2 & A3); [split; [intros k d; by rewrite lookup_empty|done]|].
  assert (Hcopy : forall repo_blocks : gmap Z bytes,
    (forall k i, k ∈ indices -> ws_blocks st !! k = None -> rb !! k = None -> 0 <= i < bs ->
       byte_at (default [] (repo_blocks !! k)) i = repo_byte (mt_repo mt) (ws_file_id st) bs k i) ->
    read_post mt st offset end_ (bulk_copy bs offset end_
       (fun k => match ws_blocks st !! k with
                 | Some block => Some block
                 | None => match rb !! k with Some block => Some block | None => repo_blocks !! k end
                 end) indices (zeros (end_ - offset)))).
  { intros repo_blocks Hrepo. edestruct (bulk_copy_spec offset end_) as (out & -> & Hlen & Hout);
      [done|done| | |rewrite zlen_zeros; lia|intros; apply byte_at_zeros|].
    - unfold indices, range_incl. apply NoDup_seqZ.
    - apply Forall_forall. intros k. unfold indices. rewrite elem_of_range_incl. nia.
    - rewrite zlen_zeros in *. split; [done|]. intros i Hi. rewrite Hout by lia.
      destruct (pos_split (offset + i) ltac:(lia)) as (P1 & P2 & P3).
      assert (Hin : (offset + i) / bs ∈ indices).
      { unfold indices. rewrite elem_of_range_incl. split; apply Z.div_le_mono; lia. }
      rewrite decide_True by done. unfold state_at, state_byte.
      destruct (ws_blocks st !! _) as [b|] eqn:Eb; [done|]. destruct (rb !! _) as [d|] eqn:Er; [|by apply Hrepo].
      apply A1 in Er. by apply (recent_block_spec mt st _ d (so_mount _ _ Hst) Er). }
  destruct f as [a|], l as [b|]; try done; [|apply Hcopy; intros k i Hk Hb Hr _].
  - destruct A2 as (Pa & Pb & Hab). assert (Ha : 0 <= a <= b).
    { destruct Pa as [[]|Pa]. unfold indices in Pa. rewrite elem_of_range_incl in Pa. lia. }
    pose proof (bulk_repo_blocks mt st a b (mo_sane _ _ (so_mount _ _ Hst)) Ha) as Hrows.
    destruct (fetch_block_range_profiled _ _ _) as [rows|err|]; cbn [mbind outcome_bind]; [|by split; [|right]|done].
    apply Hcopy. intros k i Hk Hb Hr Hi. apply Hrows; [|done].
    destruct (A3 k) as [[? ?]|(a' & b' & [= <-] & [= <-] & ?)]; [by right|done|congruence|done].
  - exfalso. destruct (A3 k) as [[? ?]|(a' & b' & [=] & _)]; [by right|done|congruence].
Qed.

Lemma read_from_write_state_run mt st offset size :
  state_ok mt st -> 0 <= offset -> 0 < size ->
  let end_ := Z.min (offset + size) (ws_file_size st) in
  (offset / bs = (end_ - 1) / bs -> forall d, load_write_block cfg mt st (offset / bs) = Ok d ->
     end_ - offset / bs * bs <= zlen d) ->
  read_post mt st offset end_ (read_from_write_state cfg mt st offset size).
Proof.
  intros Hst Ho Hsz end_ Hfull. unfold read_from_write_state. rewrite Hcfg, (Z.max_l bs 1) by lia.
  assert (Hmax : I64_MAX <= U64_MAX) by done. pose proof (so_size _ _ Hst) as Hss.
  destruct (Z.leb_spec (ws_file_size st) offset).
  { cbn [read_post]. change (zlen (@nil Z)) with 0. split; [unfold end_; lia|intros; lia]. }
  replace (Z.min (sat_add offset size) (ws_file_size st)) with end_ by (unfold sat_add, end_; lia).
  assert (He : offset < end_ <= I64_MAX) by (unfold end_; lia). clearbody end_.
  replace (sat_sub end_ 1) with (end_ - 1) by (unfold sat_sub; lia).
  destruct (Z.eqb_spec (offset / bs) ((end_ - 1) / bs)) as [E|E]; [|apply read_bulk; [done|lia|lia]].
  pose proof (div_block_bounds bs offset ltac:(lia)) as Hf. pose proof (div_block_bounds bs (end_ - 1) ltac:(lia)) as Hl.
  assert (Hf0 : 0 <= offset / bs) by (apply Z.div_pos; lia).
  pose proof (load_write_block_spec mt st (offset / bs) (so_mount _ _ Hst)
    ltac:(intros b Hb; by apply (so_blocks _ _ Hst) in Hb as [_ ?]) Hf0) as Hload.
  specialize (Hfull E). destruct (load_write_block cfg mt st (offset / bs)) as [d|e|]; cbn [mbind outcome_bind];
    [|split; [apply Hload|left; apply Hload]|done].
  specialize (Hfull d eq_refl). destruct Hload as [_ Hd]. rewrite <- E in Hl.
  assert (Hwrap : wrap_mul (offset / bs) bs = offset / bs * bs)
    by (unfold wrap_mul, wrap64; apply Z.mod_small; unfold U64_MAX in *; lia).
  rewrite Hwrap, (Z.max_l offset (offset / bs * bs)) by lia.
  replace (Z.min end_ (sat_add (offset / bs * bs) bs)) with end_ by (unfold sat_add; lia).
  destruct (Z.ltb_spec offset end_); [|lia]. replace (offset - offset) with 0 by lia.
  replace (0 + (end_ - offset / bs * bs) - (offset - offset / bs * bs))
    with (end_ - offset / bs * bs - (offset - offset / bs * bs)) by lia.
  apply (read_single_block mt st offset end_ d); [lia|lia|done|lia|done].
Qed.

(** *** The flush *)

(** The state after the preparation of a truncate: same bytes below the end of the
    file, zeroes in the rest of the last block. *)
Record prepared mt st st' : Prop := {
  pp_state : exists blocks, st' = ws_set_blocks blocks st;
  pp_blocks : forall k b, ws_blocks st' !! k = Some b -> 0 <= k <= I64_MAX /\ block_ok b;
  pp_same : forall k i, 0 <= k -> 0 <= i < bs -> k * bs + i < ws_file_size st ->
    state_byte mt st' k i = state_byte mt st k i;
  pp_tail : ws_truncate_pending st = true -> forall k i, 0 <= k -> 0 <= i < bs -> k * bs < ws_file_size st ->
    ws_file_size st <= k * bs + i -> state_byte mt st' k i = 0;
  pp_plain : ws_truncate_pending st = false -> st' = st
}.

Lemma block_ok_resize d n : 0 <= n <= bs -> Forall is_byte d -> block_ok (vec_resize d n).
Proof.
  intros. split; [zlen_simpl; lia|]. unfold vec_resize. apply Forall_resize; [unfold is_byte; lia|done].
Qed.

Lemma same_block k k' i n : 0 <= i < bs -> k * bs < n -> n <= k * bs + i -> k' = n / bs -> k = k'.
Proof. intros Hi Hlo Hhi ->. apply (Z.div_unique _ _ _ (n - k * bs)); lia. Qed.

Lemma trim_spec mt st :
  state_ok mt st -> ws_truncate_pending st = true ->
  match trim_existing_block_at_eof cfg mt (ws_file_size st) bs st with
  | Ok st' => prepared mt st st'
  | Err e => e = EIO /\ load_fails mt (ws_file_id st)
  | Panic => False
  end.
Proof.
  intros [Sm Sb Ss Si St] Htr. unfold trim_existing_block_at_eof. set (n := ws_file_size st) in *.
  pose proof (Z.mod_pos_bound n bs ltac:(lia)) as Hu. pose proof (Z.div_mod n bs ltac:(lia)) as Hdm.
  assert (Hkeep : n mod bs = 0 -> prepared mt st st).
  { intros E. split; [by exists (ws_blocks st); destruct st|done|done| |done]. fold n. intros _ k i ? Hir Hlo Hhi.
    exfalso. rewrite (same_block k (n / bs) i n Hir Hlo Hhi eq_refl) in Hlo. lia. }
  destruct (Z.eqb_spec n 0) as [E|E]; [apply Hkeep; by rewrite E, Z.mod_0_l by lia|].
  destruct (Z.eqb_spec (n mod bs) 0) as [E'|E']; [by apply Hkeep|].
  unfold resize_existing_block_for_truncate. destruct (Z.eqb_spec (n mod bs) 0); [lia|].
  destruct (Z.ltb_spec bs (n mod bs)); [lia|]. cbn [orb].
  assert (Hk : 0 <= n / bs <= I64_MAX) by nia.
  pose proof (boundary_block_spec mt st (n / bs) Sm ltac:(intros b Hb; by apply Sb in Hb as [_ ?]) ltac:(lia)) as Hl.
  destruct (load_existing_truncate_boundary_block _ _ _ _ _) as [[d|]|e|]; cbn [mbind outcome_bind]; [| |done|done].
  - destruct Hl as [[_ Hd] Hi]. split; cbn [ws_file_size ws_set_blocks ws_truncate_pending].
    + by eexists.
    + intros k b. cbn. intros [[<- <-]|[_ ?]]%lookup_insert_Some; [|by apply Sb]. split; [lia|]. apply block_ok_resize; [lia|done].
    + intros k i ? ? Hki. rewrite state_byte_insert. case_decide as E1; [|done]. subst k.
      rewrite byte_at_vec_resize, decide_True by (fold n in Hki; nia). by apply Hi.
    + fold n. intros _ k i ? Hir Hlo Hhi. pose proof (same_block k (n / bs) i n Hir Hlo Hhi eq_refl). subst k.
      rewrite state_byte_insert, decide_True by done. rewrite byte_at_vec_resize. by rewrite decide_False by lia.
    + congruence.
  - destruct Hl as [Hnone Hzero]. split; [by exists (ws_blocks st); destruct st|done|done| |done].
    fold n. intros _ k i ? Hir Hlo Hhi. rewrite (same_block k (n / bs) i n Hir Hlo Hhi eq_refl). by apply Hzero.
Qed.

(** Growing a file without dirty blocks: the last block of the old content gets
    zeroes after the old end. *)
Lemma zero_extend_spec mt st prev k target :
  state_ok mt st -> ws_truncate_pending st = true -> ws_blocks st = ∅ ->
  repo_size (mt_repo mt) (ws_file_id st) = Some prev -> prev < ws_file_size st -> 0 < prev ->
  k = prev / bs -> target = Z.min (ws_file_size st - k * bs) bs ->
  match zero_extend_existing_block_from_eof cfg mt k (prev mod bs) target bs st with
  | Ok st' => prepared mt st st'
  | Err e => e = EIO /\ load_fails mt (ws_file_id st)
  | Panic => False
  end.
Proof.
  intros [Sm Sb Ss Si St] Htr Hemp Hprev Hlt Hpos Hk Htarget. pose proof (div_block_bounds bs prev ltac:(lia)) as Hdb.
  pose proof (Z.mod_pos_bound prev bs ltac:(lia)) as Hu. pose proof (Z.div_mod prev bs ltac:(lia)) as Hdm.
  rewrite <- Hk in Hdb, Hdm.
  assert (Hrepo : forall j i, state_byte mt st j i = repo_byte (mt_repo mt) (ws_file_id st) bs j i).
  { intros. unfold state_byte. by rewrite Hemp, lookup_empty. }
  assert (Htail : forall j i, 0 <= j -> 0 <= i < bs -> prev <= j * bs + i -> state_byte mt st j i = 0).
  { intros. rewrite Hrepo. by eapply (mo_tail _ _ Sm). }
  assert (Hkeep : prepared mt st st).
  { split; [by exists (ws_blocks st); destruct st|done|done| |done]. intros _ j i ? ? ? ?. apply Htail; lia. }
  unfold zero_extend_existing_block_from_eof. destruct (_ || _) eqn:Eg; [done|].
  apply orb_false_iff in Eg as [[Eg1%Z.eqb_neq Eg2%Z.ltb_ge]%orb_false_iff Eg3%Z.ltb_ge].
  assert (Hk0 : 0 <= k) by (rewrite Hk; apply Z.div_pos; lia).
  pose proof (boundary_block_spec mt st k Sm ltac:(intros b Hb; by apply Sb in Hb as [_ ?]) Hk0) as Hl.
  destruct (load_existing_truncate_boundary_block _ _ _ _ _) as [[d|]|e|]; cbn [mbind outcome_bind]; [|done|done|done].
  destruct Hl as [[_ Hd] Hi].
  assert (Hbyte : forall i, 0 <= i < bs -> byte_at (vec_resize (take (Z.to_nat (prev mod bs)) d) target) i =
    if decide (i < prev mod bs) then state_byte mt st k i else 0).
  { intros i Hir. rewrite byte_at_vec_resize, byte_at_take. repeat case_decide; try done; [by apply Hi|lia]. }
  split; cbn [ws_file_size ws_set_blocks ws_truncate_pending].
  - by eexists.
  - intros j b. cbn. intros [[<- <-]|[_ ?]]%lookup_insert_Some; [|by apply Sb]. split; [nia|].
    apply block_ok_resize; [lia|by apply Forall_take].
  - intros j i ? ? _. rewrite state_byte_insert. case_decide as E1; [|done]. subst j. rewrite Hbyte by done.
    case_decide; [done|]. symmetry. apply Htail; [done..|lia].
  - intros _ j i ? ? Hlo Hhi. rewrite state_byte_insert. case_decide as E1; [|by apply Htail; [..|lia]]. subst j.
    rewrite Hbyte by done. by case_decide; [lia|].
  - congruence.
Qed.

(** The repository does not answer the size query. *)
Definition size_fails mt (fid : Z) : Prop := exists err, repo_file_size (mt_repo mt) fid = Err err.

Lemma prepare_spec mt st :
  state_ok mt st ->
  match prepare_truncate_boundary_blocks cfg mt bs st with
  | Ok st' => prepared mt st st'
  | Err e => e = EIO /\ (load_fails mt (ws_file_id st) \/ size_fails mt (ws_file_id st))
  | Panic => False
  end.
Proof.
  intros Hst. pose proof (so_size _ _ Hst) as Hss.
  unfold prepare_truncate_boundary_blocks. destruct (ws_truncate_pending st) eqn:Htr; cbn [negb].
  2: { split; [by exists (ws_blocks st); destruct st|apply Hst|done|congruence|done]. }
  assert (Htrim : match trim_existing_block_at_eof cfg mt (ws_file_size st) bs st with
    | Ok st' => prepared mt st st'
    | Err e => e = EIO /\ (load_fails mt (ws_file_id st) \/ size_fails mt (ws_file_id st))
    | Panic => False end).
  { pose proof (trim_spec mt st Hst Htr) as Ht. destruct (trim_existing_block_at_eof _ _ _ _ _); [done| |done].
    split; [apply Ht|left; apply Ht]. }
  destruct (_ || _) eqn:Ed; [done|]. apply orb_false_iff in Ed as [_ Ed]. apply negb_false_iff, bool_decide_eq_true_1 in Ed.
  pose proof (repo_size_ok (mt_repo mt) (ws_file_id st)) as Hsz.
  destruct (repo_file_size _ _) as [psize|err|] eqn:Es; cbn [mbind outcome_bind]; [|by split; [|right; exists err]|done].
  destruct (Z.ltb_spec (default (ws_file_size st) psize) (ws_file_size st)) as [Hlt|]; [|done].
  destruct psize as [prev|]; cbn in Hlt |- *; [|lia].
  destruct (Z.ltb_spec 0 prev) as [Hpos|Hpos]; cbn [andb].
  - destruct (Z.eqb_spec (prev mod bs) 0) as [E|E]; cbn [negb].
    + pose proof (Z.div_mod prev bs ltac:(lia)).
      pose proof (zero_extend_spec mt st prev (prev / bs) (Z.min (ws_file_size st - prev / bs * bs) bs) Hst Htr Ed
        (eq_sym Hsz) Hlt Hpos eq_refl eq_refl) as Hz. unfold zero_extend_existing_block_from_eof in Hz. by rewrite E in Hz.
    + pose proof (div_block_bounds bs prev ltac:(lia)). assert (Hmax : I64_MAX + I32_MAX < U64_MAX) by done.
      replace (sat_mul (prev / bs) bs) with (prev / bs * bs) by (unfold sat_mul; lia).
      replace (sat_add (prev / bs * bs) bs) with (prev / bs * bs + bs) by (unfold sat_add; lia).
      assert (Hsub : sat_sub (ws_file_size st) (prev / bs * bs) = ws_file_size st - prev / bs * bs) by (unfold sat_sub; lia).
      rewrite Hsub.
      match goal with |- context [zero_extend_existing_block_from_eof cfg mt _ _ ?t bs st] =>
        pose proof (zero_extend_spec mt st prev (prev / bs) t Hst Htr Ed (eq_sym Hsz) Hlt Hpos eq_refl) as Hz end.
      destruct (zero_extend_existing_block_from_eof _ _ _ _ _ _ _); [apply Hz; zcase; lia| |apply Hz; zcase; lia].
      split; [|left]; apply Hz; zcase; lia.
  - split; [by exists (ws_blocks st); destruct st|apply Hst|done| |congruence]. intros _ k i ? ? ? ?.
    unfold state_byte. rewrite Ed, lookup_empty. eapply (mo_tail _ _ (so_mount _ _ Hst)); [by symmetry|done..|lia].
Qed.

(** The rows of a flush are the dirty blocks that start inside the file. *)
Lemma flush_rows_spec st token :
  (forall k b, ws_blocks st !! k = Some b -> 0 <= k <= I64_MAX /\ block_ok b) -> 0 <= ws_file_size st <= I64_MAX ->
  let q := persist_request cfg st bs (flush_plan st bs) token in
  persist_shape q /\
  forall k, match row_for (pr_blocks q) k with
            | Some row => k * bs < ws_file_size st /\ ws_blocks st !! k = Some (pbr_data row)
            | None => ws_file_size st <= k * bs \/ ws_blocks st !! k = None
            end.
Proof.
  intros Hb Hs q. assert (Hmax : I64_MAX <= U64_MAX) by done.
  set (input := {| ppi_file_size := ws_file_size st; ppi_block_size := bs;
    ppi_truncate_pending := ws_truncate_pending st; ppi_dirty_blocks := dirty_keys st |}).
  destruct (persist_block_plan_spec input) as [Hsort Hent].
  { unfold is_u64. cbn. lia. }
  { apply Forall_forall. cbn. intros k [b Hk]%elem_of_dirty_keys. apply Hb in Hk. unfold is_u64. lia. }
  cbn [ppi_block_size ppi_file_size ppi_dirty_blocks input] in Hent. rewrite Z.max_l in Hent by lia.
  assert (Hrows : pr_blocks q = prepare_persist_rows_from_block_plan st (pbp_blocks (persist_block_plan input))) by done.
  assert (Hin : forall row, row ∈ pr_blocks q <-> pbr_block_index row * bs < ws_file_size st /\
    ws_blocks st !! pbr_block_index row = Some (pbr_data row) /\
    pbr_used_len row = Z.min bs (ws_file_size st - pbr_block_index row * bs)).
  { intros row. rewrite Hrows. unfold prepare_persist_rows_from_block_plan. rewrite list_elem_of_omap.
    unfold persist_row_for_block. split.
    - intros (e & (He & Hl & Hu)%Hent & Hr). destruct (Z.eqb_spec (pbe_used_len e) 0); [done|].
      destruct (ws_blocks st !! pbe_block_index e) eqn:E; [|done]. cbn in Hr. injection Hr as <-. done.
    - intros (Hl & Hk & Hu). exists {| pbe_block_index := pbr_block_index row; pbe_used_len := pbr_used_len row |}.
      split; [apply Hent; cbn; split; [apply elem_of_dirty_keys; by eexists|done]|]. cbn.
      destruct (Z.eqb_spec (pbr_used_len row) 0); [lia|]. rewrite Hk. cbn. by destruct row. }
  assert (Hnd : NoDup (pbr_block_index <$> pr_blocks q)).
  { rewrite Hrows. apply (NoDup_omap_fmap _ _ pbe_block_index).
    - intros e row. unfold persist_row_for_block. destruct (_ =? 0); [done|]. destruct (ws_blocks st !! _); [|done].
      intros [= <-]. done.
    - clear -Hsort. change (pbe_block_index <$> ?l) with (map pbe_block_index l).
      induction Hsort as [|x l Hs IH Hx]; constructor; [|done]. rewrite Forall_forall in Hx. intros Hin%Hx. lia. }
  assert (Htot : pr_total_blocks q = block_count_for_length (ws_file_size st) (Z.max bs 1) false) by done.
  rewrite Z.max_l in Htot by lia. split; [split; [done|done|done|split; [done|..]]|].
  - apply Forall_forall. intros row (_ & Hk & _)%Hin. apply Hb in Hk. lia.
  - apply Forall_forall. intros row (_ & Hk & _)%Hin. by apply Hb in Hk as [_ [_ ?]].
  - intros k. destruct (row_for (pr_blocks q) k) as [row|] eqn:E.
    + apply row_for_elem in E as [Hr%Hin <-]. tauto.
    + apply row_for_None in E. destruct (Z.le_gt_cases (ws_file_size st) (k * bs)) as [|Hlt]; [by left|right].
      destruct (ws_blocks st !! k) as [b|] eqn:Ek; [|done]. exfalso. apply E. apply list_elem_of_fmap.
      exists {| pbr_block_index := k; pbr_data := b; pbr_used_len := Z.min bs (ws_file_size st - k * bs) |}.
      split; [done|]. by apply Hin.
Qed.

(** A flush that succeeds: the repository has the bytes the handle saw and its size,
    the overlay agrees with it, and nothing else has changed. *)
Record flush_done mt st mt' st' : Prop := {
  fd_bytes : forall pos, 0 <= pos < ws_file_size st ->
    repo_byte (mt_repo mt') (ws_file_id st) bs (pos / bs) (pos mod bs) = state_at mt st pos;
  fd_size : repo_size (mt_repo mt') (ws_file_id st) = Some (ws_file_size st);
  fd_mount : mount_ok mt' (ws_file_id st);
  fd_state : st' = ws_flushed st;
  fd_states : mt_write_states mt' = mt_write_states mt;
  fd_others : forall fid, fid <> ws_file_id st ->
    repo_size (mt_repo mt') fid = repo_size (mt_repo mt) fid /\
    (forall k i, repo_byte (mt_repo mt') fid bs k i = repo_byte (mt_repo mt) fid bs k i) /\
    (mount_ok mt fid -> mount_ok mt' fid)
}.

(** The bytes of the repository after the rows of a prepared state are persisted. *)
Lemma persisted_view mt st st' token r' :
  let q := persist_request cfg st' bs (flush_plan st' bs) token in
  state_ok mt st -> prepared mt st st' ->
  persisted_bytes q (repo_byte (mt_repo mt) (ws_file_id st) bs) (repo_byte r' (ws_file_id st) bs) ->
  forall k i, 0 <= k -> 0 <= i < bs ->
    repo_byte r' (ws_file_id st) bs k i =
      if decide (k * bs + i < ws_file_size st) then state_byte mt st k i else 0.
Proof.
  intros q Hst Hp Hbytes k i Hk Hi.
  destruct (pp_state _ _ _ Hp) as [blocks Est]. pose proof (so_size _ _ Hst) as Hss.
  destruct (flush_rows_spec st' token (pp_blocks _ _ _ Hp) ltac:(by subst st')) as [_ Hrows].
  fold q in Hrows. specialize (Hrows k). specialize (Hbytes k i Hk Hi).
  assert (Eq : pr_block_size q = bs /\ pr_file_size q = ws_file_size st /\ pr_truncate_pending q = ws_truncate_pending st)
    by (by subst st'). destruct Eq as (E0 & E1 & E2). rewrite E0, E1, E2 in Hbytes.
  assert (E3 : ws_file_size st' = ws_file_size st /\ ws_file_id st' = ws_file_id st) by (by subst st').
  destruct E3 as [E3 E4]. rewrite E3 in Hrows. clearbody q.
  assert (Hlow : k * bs < ws_file_size st -> ws_file_size st <= k * bs + i -> state_byte mt st' k i = 0).
  { intros Hlo Hhi. destruct (ws_truncate_pending st) eqn:Et; [by apply (pp_tail _ _ _ Hp Et)|].
    rewrite (pp_plain _ _ _ Hp Et). by apply (so_tail _ _ Hst Et). }
  assert (Hin : k * bs < ws_file_size st -> repo_byte r' (ws_file_id st) bs k i = state_byte mt st' k i ->
    repo_byte r' (ws_file_id st) bs k i = if decide (k * bs + i < ws_file_size st) then state_byte mt st k i else 0).
  { intros Hlo ->. case_decide; [by apply (pp_same _ _ _ Hp)|]. apply Hlow; lia. }
  destruct (row_for _ k) as [row|].
  - destruct Hrows as [Hlo Hb]. apply Hin; [done|]. rewrite Hbytes. unfold state_byte. by rewrite Hb, ?E4.
  - revert Hbytes. destruct (Z.ltb_spec (k * bs) (ws_file_size st)) as [Hlo|Hhi]; intros Hbytes.
    + destruct Hrows as [?|Hb]; [lia|]. apply Hin; [done|]. rewrite Hbytes. unfold state_byte. by rewrite Hb, ?E4.
    + rewrite decide_False by lia. destruct Hbytes as [?|[Et ->]]; [done|].
      rewrite <- (so_tail _ _ Hst Et k i Hk Hi) by lia. unfold state_byte.
      destruct (ws_blocks st !! k) as [b|] eqn:Eb; [|done]. exfalso.
      pose proof (so_inside _ _ Hst Et k (ex_intro _ _ Eb)). lia.
Qed.

(** The overlay after a flush agrees with the repository after it. *)
Lemma flush_overlay mt st st' r' k d :
  state_ok mt st -> prepared mt st st' ->
  (forall k i, 0 <= k -> 0 <= i < bs ->
    repo_byte r' (ws_file_id st) bs k i =
      if decide (k * bs + i < ws_file_size st) then state_byte mt st k i else 0) ->
  (forall k b i, ws_blocks st' !! k = Some b -> k * bs < ws_file_size st -> 0 <= i < bs ->
    repo_byte r' (ws_file_id st) bs k i = byte_at b i) ->
  store_recent_write_blocks (fz_settings cfg) bs (ws_file_id st) (ws_file_size st) (ws_truncate_pending st)
    (map_to_list (ws_blocks st')) (mt_recent mt) !! (ws_file_id st, k) = Some d ->
  0 <= k /\ block_ok d /\ forall i, 0 <= i < bs -> byte_at d i = repo_byte r' (ws_file_id st) bs k i.
Proof.
  intros Hst Hp Hview Hrow Hl.
  apply store_recent_Some in Hl; [|lia|apply Hst|apply NoDup_fst_map_to_list].
  destruct Hl as [(_ & Hk & Hin%elem_of_map_to_list)|[Hr Hk]].
  - destruct (pp_blocks _ _ _ Hp k d Hin) as [? ?]. split; [lia|]. split; [done|]. intros i Hi. symmetry. by apply Hrow.
  - destruct (mo_recent _ _ (so_mount _ _ Hst) k d Hr) as (Hk0 & Hd & Hb). split; [done|]. split; [done|].
    intros i Hi. destruct (Hk eq_refl) as [Hk1 Hk2]. rewrite Hb, Hview by done.
    assert (Hclean : ws_blocks st' !! k = None -> state_byte mt st' k i = repo_byte (mt_repo mt) (ws_file_id st) bs k i).
    { intros E. unfold state_byte. rewrite E. by destruct (pp_state _ _ _ Hp) as [? ->]. }
    assert (Hfree : k * bs < ws_file_size st -> ws_blocks st' !! k = None).
    { intros Hlo. destruct (ws_blocks st' !! k) as [b|] eqn:E; [|done]. exfalso. apply (Hk1 Hlo).
      apply list_elem_of_fmap. exists (k, b). split; [done|]. by apply elem_of_map_to_list. }
    case_decide as Hlt.
    + assert (Hlo : k * bs < ws_file_size st) by lia. rewrite <- (Hclean (Hfree Hlo)). by apply (pp_same _ _ _ Hp).
    + destruct (Z.lt_ge_cases (k * bs) (ws_file_size st)) as [Hlo|Hhi].
      * rewrite <- (Hclean (Hfree Hlo)). destruct (ws_truncate_pending st) eqn:Et; [apply (pp_tail _ _ _ Hp Et); lia|].
        rewrite (pp_plain _ _ _ Hp Et). apply (so_tail _ _ Hst Et); lia.
      * assert (Et : ws_truncate_pending st = false)
          by (destruct (ws_truncate_pending st); [specialize (Hk2 eq_refl); lia|done]).
        rewrite (pp_plain _ _ _ Hp Et) in Hclean. rewrite <- Hclean; [apply (so_tail _ _ Hst Et); lia|].
        destruct (ws_blocks st !! k) as [b|] eqn:E; [|done]. pose proof (so_inside _ _ Hst Et k (ex_intro _ _ E)). lia.
Qed.

Lemma flush_run mt st token :
  state_ok mt st -> repo_live (mt_repo mt) -> is_Some (repo_size (mt_repo mt) (ws_file_id st)) ->
  match flush_write_state_with_capacity_reservation cfg mt st token with
  | (Ok _, st', mt') => flush_done mt st mt' st'
  | (Err _, st', mt') => mt' = mt /\ (st' = st \/ prepared mt st st')
  | (Panic, _, _) => False
  end.
Proof.
  intros Hst Hlive Hsz. unfold flush_write_state_with_capacity_reservation. rewrite Hcfg.
  destruct (ws_load_error st); [by split; [|left]|]. rewrite Z.max_l by lia.
  pose proof (prepare_spec mt st Hst) as Hprep.
  destruct (prepare_truncate_boundary_blocks cfg mt bs st) as [st1|e|]; [|by split; [|left]|done].
  destruct (pp_state _ _ _ Hprep) as [blocks Est]. pose proof (so_size _ _ Hst) as Hss.
  destruct (flush_rows_spec st1 token (pp_blocks _ _ _ Hprep) ltac:(by subst st1)) as [Hshape Hrows].
  assert (Hids : ws_file_id st1 = ws_file_id st /\ ws_file_size st1 = ws_file_size st /\
    ws_truncate_pending st1 = ws_truncate_pending st /\ ws_flushed st1 = ws_flushed st) by (by subst st1).
  destruct Hids as (Eid & Esz & Etr & Efl). clear Est blocks.
  unfold execute_persist_plan. set (q := persist_request cfg st1 bs (flush_plan st1 bs) token) in *.
  assert (Eq : pr_file_id q = ws_file_id st /\ pr_file_size q = ws_file_size st /\ pr_block_size q = bs) by done.
  destruct Eq as (Eq1 & Eq2 & Eq3).
  pose proof (repo_persist_ok q (mt_repo mt) (mo_sane _ _ (so_mount _ _ Hst)) Hlive) as Hpersist. rewrite Eq1 in Hpersist. specialize (Hpersist Hsz Hshape).
  destruct (repo_persist q (mt_repo mt)) as [[[]|err|] r'].
  - destruct Hpersist as (Hsane & Hsize & Hbytes & Hothers). rewrite Eq2 in Hsize. rewrite Eq3 in Hbytes.
    pose proof (persisted_view mt st st1 token r' Hst Hprep Hbytes) as Hview.
    rewrite Eid, Esz, Etr, Efl. split; cbn [mt_repo mt_recent mt_write_states mt_clear_read_cache]; [| | |done|done|].
    + intros pos Hpos. destruct (pos_split pos ltac:(lia)) as (P1 & P2 & P3). rewrite Hview by done.
      by rewrite P3, decide_True by lia.
    + done.
    + split; cbn [mt_repo mt_recent mt_clear_read_cache]; [done|..].
      * intros k d Hl. apply (flush_overlay mt st st1 r' k d); try done. intros j b i Hj Hlo Hi.
        destruct (pp_blocks _ _ _ Hprep j b Hj) as [? _].
        specialize (Hbytes j i ltac:(lia)). specialize (Hrows j). rewrite Eq3 in Hbytes. specialize (Hbytes Hi).
        destruct (row_for (pr_blocks q) j) as [row|]; [destruct Hrows as [_ Hr]; congruence|].
        rewrite Esz in Hrows. destruct Hrows as [?|?]; [lia|congruence].
      * intros n k i [= <-]%(eq_trans (eq_sym Hsize)) Hk Hi Hn. rewrite Hview by done. by rewrite decide_False by lia.
    + intros fid Hne. destruct (Hothers fid Hne) as [Ho1 Ho2]. split; [done|]. split; [by intros|].
      intros [_ Mr Mt]. split; cbn [mt_repo mt_recent mt_clear_read_cache]; [done|..].
      * intros k d Hl. apply store_recent_Some in Hl; [|lia|lia|apply NoDup_fst_map_to_list].
        destruct Hl as [(-> & _)|[Hr _]]; [done|]. destruct (Mr k d Hr) as (? & ? & Hb). split; [done|]. split; [done|].
        intros i Hi. rewrite Ho2. by apply Hb.
      * intros n k i Hn. rewrite Ho1 in Hn. rewrite Ho2. by apply Mt.
  - subst r'. split; [by destruct mt|by right].
  - done.
Qed.

(** *** Properties *)

(** C13: A flush persists what the handle saw. For any dirty blocks, with or without a
    pending size change, a flush that succeeds leaves in the repository exactly the
    handle's size and bytes, zeroes past the end, and the overlay of recent writes in
    agreement with it; the size and bytes of every other file are unchanged. A flush
    that fails leaves the mount unchanged, and the handle's bytes below the end of the
    file as they were. *)
Theorem flush_write_state_correct mt st token :
  state_ok mt st -> repo_live (mt_repo mt) -> is_Some (repo_size (mt_repo mt) (ws_file_id st)) ->
  match flush_write_state_with_capacity_reservation cfg mt st token with
  | (Ok _, st', mt') =>
      st' = ws_flushed st /\ repo_size (mt_repo mt') (ws_file_id st) = Some (ws_file_size st) /\
      (forall pos, 0 <= pos -> repo_byte (mt_repo mt') (ws_file_id st) bs (pos / bs) (pos mod bs) =
         if decide (pos < ws_file_size st) then state_at mt st pos else 0) /\
      mount_ok mt' (ws_file_id st) /\
      (forall fid, fid <> ws_file_id st ->
         repo_size (mt_repo mt') fid = repo_size (mt_repo mt) fid /\
         forall k i, repo_byte (mt_repo mt') fid bs k i = repo_byte (mt_repo mt) fid bs k i)
  | (Err _, st', mt') =>
      mt' = mt /\ ws_file_size st' = ws_file_size st /\
      forall pos, 0 <= pos < ws_file_size st -> state_at mt st' pos = state_at mt st pos
  | (Panic, _, _) => False
  end.
Proof.
  intros Hst Hlive Hsz. pose proof (flush_run mt st token Hst Hlive Hsz) as Hf.
  destruct (flush_write_state_with_capacity_reservation cfg mt st token) as [[[[]|e|] st'] mt']; [| |done].
  - destruct Hf as [F1 F2 F3 F4 F5 F6]. split; [done|]. split; [done|]. split; [|split; [done|intros fid Hne; by destruct (F6 fid Hne) as (? & ? & _)]].
    intros pos Hpos. case_decide as Hlt; [by apply F1|]. destruct (pos_split pos Hpos) as (P1 & P2 & P3).
    eapply (mo_tail _ _ F3); [done..|lia].
  - destruct Hf as [-> [->|Hp]]; [done|]. split; [done|]. split; [by destruct (pp_state _ _ _ Hp) as [? ->]|].
    intros pos Hpos. destruct (pos_split pos ltac:(lia)) as (P1 & P2 & P3). apply (pp_same _ _ _ Hp); [done|done|lia].
Qed.

(** A read through a handle with unflushed writes returns the file as the handle sees
    it: dirty blocks, then recently flushed ones, then the repository, zeroes in holes,
    cut at the end of the file; the only error is EIO when the repository fails. A
    read inside one block needs that block in full length, a read over several blocks
    does not. *)
Theorem read_from_write_state_correct mt st offset size :
  state_ok mt st -> 0 <= offset -> 0 < size ->
  let end_ := Z.min (offset + size) (ws_file_size st) in
  (offset / bs = (end_ - 1) / bs -> forall d, load_write_block cfg mt st (offset / bs) = Ok d ->
     end_ - offset / bs * bs <= zlen d) ->
  match read_from_write_state cfg mt st offset size with
  | Ok out =>
      zlen out = Z.max 0 (end_ - offset) /\ forall i, 0 <= i < zlen out -> byte_at out i = state_at mt st (offset + i)
  | Err e => e = EIO /\ (load_fails mt (ws_file_id st) \/ fetch_fails mt (ws_file_id st))
  | Panic => False
  end.
Proof. apply read_from_write_state_run. Qed.

(** A read inside one block panics when the block that the handle finds (its own, or
    the recently flushed one) is shorter than the range: the bytes between the end of
    a shortened block and the end of the file are not read as zeroes. *)
Theorem short_block_read_panics mt st offset size d :
  0 <= offset < ws_file_size st -> ws_file_size st <= I64_MAX -> 0 < size ->
  let end_ := Z.min (offset + size) (ws_file_size st) in
  offset / bs = (end_ - 1) / bs -> load_write_block cfg mt st (offset / bs) = Ok d ->
  zlen d < end_ - offset / bs * bs ->
  read_from_write_state cfg mt st offset size = Panic.
Proof.
  intros Ho Hs Hsz end_ E Hd Hlen. unfold read_from_write_state. rewrite Hcfg, (Z.max_l bs 1) by lia.
  assert (Hmax : I64_MAX <= U64_MAX) by done. destruct (Z.leb_spec (ws_file_size st) offset); [lia|].
  replace (Z.min (sat_add offset size) (ws_file_size st)) with end_ by (unfold sat_add, end_; lia).
  assert (He : offset < end_ <= I64_MAX) by (unfold end_; lia). clearbody end_.
  replace (sat_sub end_ 1) with (end_ - 1) by (unfold sat_sub; lia). rewrite <- E, Z.eqb_refl, Hd.
  pose proof (div_block_bounds bs offset ltac:(lia)) as Hf. pose proof (div_block_bounds bs (end_ - 1) ltac:(lia)) as Hl.
  assert (Hf0 : 0 <= offset / bs) by (apply Z.div_pos; lia). rewrite <- E in Hl. cbn [mbind outcome_bind].
  assert (Hwrap : wrap_mul (offset / bs) bs = offset / bs * bs)
    by (unfold wrap_mul, wrap64; apply Z.mod_small; unfold U64_MAX in *; lia).
  rewrite Hwrap, (Z.max_l offset (offset / bs * bs)) by lia.
  replace (Z.min end_ (sat_add (offset / bs * bs) bs)) with end_ by (unfold sat_add; lia).
  destruct (Z.ltb_spec offset end_); [|lia]. unfold slice.
  destruct (Z.leb_spec (end_ - offset / bs * bs) (zlen d)); [lia|]. by rewrite andb_false_r.
Qed.
End BufferProofs.
