(* ===== verification/FileWrite.v ===== *)
(** * The write, truncate and flush handlers

    Model of the FUSE callbacks of src/rust_fuse/src/fs.rs that change the content of
    an open file: [write], the size part of [setattr] and the flushes behind [flush],
    [fsync], [release], [open] and [read], on the write buffers of WriteBuffer.v. *)

From stdpp Require Import prelude list numbers gmap sorting strings.
From Stdlib Require Import ZArith Lia.
From S2P Require Import Prelude PersistPlan ReadPlan Errno Crc32 CopyBinary BlockStore ReadCache FileRead WriteBuffer.

#[local] Open Scope Z_scope.

(** What the handlers look up in the handle table: the flags of the open call, the file
    of a handle, and the file and fence of its write ownership. *)
Record FileHandle : Type := {
  hd_flags : Z;
  hd_file_id : option Z;
  hd_write_fence : option (Z * WritePersistenceFence)
}.

Definition open_handle_count_for_file (handles : gmap Z FileHandle) (file_id : Z) : Z :=
  Z.of_nat (size (filter (fun e => hd_file_id e.2 = Some file_id) handles)).

Definition ws_set_fence (fence : WritePersistenceFence) (st : WriteState) : WriteState := {|
  ws_file_id := ws_file_id st; ws_file_size := ws_file_size st;
  ws_truncate_pending := ws_truncate_pending st; ws_kill_suidgid := ws_kill_suidgid st;
  ws_buffered_bytes := ws_buffered_bytes st; ws_load_error := ws_load_error st;
  ws_blocks := ws_blocks st; ws_persistence_fence := Some fence;
  ws_write_authorization := ws_write_authorization st |}.

(** A write request reaches the state of its handle. *)
Definition ws_for_write (file_id : Z) (kill : bool) (st : WriteState) : WriteState := {|
  ws_file_id := file_id; ws_file_size := ws_file_size st;
  ws_truncate_pending := ws_truncate_pending st; ws_kill_suidgid := ws_kill_suidgid st || kill;
  ws_buffered_bytes := ws_buffered_bytes st; ws_load_error := ws_load_error st;
  ws_blocks := ws_blocks st; ws_persistence_fence := ws_persistence_fence st;
  ws_write_authorization := ws_write_authorization st |}.

Definition ws_add_buffered (n : Z) (st : WriteState) : WriteState := {|
  ws_file_id := ws_file_id st; ws_file_size := ws_file_size st;
  ws_truncate_pending := ws_truncate_pending st; ws_kill_suidgid := ws_kill_suidgid st;
  ws_buffered_bytes := sat_add (ws_buffered_bytes st) n; ws_load_error := ws_load_error st;
  ws_blocks := ws_blocks st; ws_persistence_fence := ws_persistence_fence st;
  ws_write_authorization := ws_write_authorization st |}.

(** A size change reaches the state of its handle. *)
Definition ws_for_truncate (file_id new_size : Z) (kill : bool) (authorization : option FileWriteAuthorization)
    (st : WriteState) : WriteState := {|
  ws_file_id := file_id; ws_file_size := new_size;
  ws_truncate_pending := true; ws_kill_suidgid := ws_kill_suidgid st || kill;
  ws_buffered_bytes := ws_buffered_bytes st; ws_load_error := ws_load_error st;
  ws_blocks := ws_blocks st; ws_persistence_fence := ws_persistence_fence st;
  ws_write_authorization := authorization |}.

Definition attach_write_persistence_fence_for_handle (handles : gmap Z FileHandle) (fh : Z) (st : WriteState)
    : outcome Z WriteState :=
  match ws_persistence_fence st with
  | Some _ => Ok st
  | None =>
      match (h ← handles !! fh; hd_write_fence h) with
      | None => Err EIO
      | Some (ownership_file_id, fence) =>
          if negb (ownership_file_id =? ws_file_id st) then Err EIO else Ok (ws_set_fence fence st)
      end
  end.

Definition is_pending_of (file_id : Z) (st : WriteState) : bool :=
  (ws_file_id st =? file_id) && write_state_has_pending_changes st.

(** The states of other handles of the file that have unflushed changes. *)
Definition pending_siblings (file_id except_fh : Z) (states : gmap Z WriteState) : list (Z * WriteState) :=
  map_to_list (filter (fun e => e.1 <> except_fh /\ is_pending_of file_id e.2 = true) states).

(** [take_write_states_for_file_except]: the handle's own state, the pending states of
    its siblings, and what stays in the table. *)
Definition take_write_states_for_file_except (file_id except_fh : Z) (states : gmap Z WriteState)
    : option WriteState * list (Z * WriteState) * gmap Z WriteState :=
  let target := states !! except_fh in
  let states := delete except_fh states in
  let siblings := pending_siblings file_id except_fh states in
  (target, siblings, foldl (fun states e => delete e.1 states) states siblings).

(** Putting states back under their handles. *)
Definition put_states (l : list (Z * WriteState)) (states : gmap Z WriteState) : gmap Z WriteState :=
  foldl (fun states e => <[e.1 := e.2]> states) states l.

Section Handlers.
Context {R : Type} `{BlockRepo R} {M : Type} `{LinkedMapOk M} (cfg : FuseConfig).
Context (handles : gmap Z FileHandle).

Definition file_size_for_update_file_id_or_errno (mt : Mount (R := R) (M := M)) (file_id : Z) : outcome Z Z :=
  match repo_file_size (mt_repo mt) file_id with
  | Ok (Some size) => Ok size
  | Ok None => Err ENOENT
  | Err _ => Err EIO
  | Panic => Panic
  end.

(** [assemble_file_slice_authoritative]. *)
Definition assemble_file_slice_for_update (mt : Mount (R := R) (M := M))
    (file_id first_block last_block offset end_offset : Z) : outcome string bytes :=
  blocks ← repo_fetch_range (mt_repo mt) file_id first_block last_block (fz_block_size cfg);
  infallible (assemble_read_slice first_block last_block offset end_offset (fz_block_size cfg) blocks).

(** The probe that suppresses a write of bytes the file already has. *)
Definition unchanged_slice (mt : Mount (R := R) (M := M)) (file_id offset end_offset : Z) (data : bytes) : bool :=
  match assemble_file_slice_for_update mt file_id (offset / fz_block_size cfg)
          (sat_sub end_offset 1 / fz_block_size cfg) offset end_offset with
  | Ok existing => bool_decide (existing = data)
  | _ => false
  end.

(** The end of [write]: the data goes into the merged state, which is flushed at once
    when the threshold is reached or other handles have the file open. *)
Definition write_into_state (mt : Mount (R := R) (M := M)) (fh file_id offset : Z) (data : bytes)
    (sibling_states : list (Z * WriteState)) (states : gmap Z WriteState) (st : WriteState)
    : outcome Z Z * Mount :=
  let mt := mt_set_states states mt in
  match update_write_buffer cfg mt st offset data with
  | (Err errno, _, mt) => (Err errno, mt_set_states (<[fh := st]> states) mt)
  | (Panic, _, mt) => (Panic, mt)
  | (Ok _, st, mt) =>
      let st := ws_add_buffered (zlen data) st in
      if should_flush_write_state cfg (ws_buffered_bytes st) (open_handle_count_for_file handles file_id)
      then
        match flush_write_state cfg mt st with
        | (Err errno, st, mt) =>
            (Err errno, mt_set_states (put_states sibling_states (<[fh := st]> states)) mt)
        | (Panic, _, mt) => (Panic, mt)
        | (Ok _, st, mt) =>
            (Ok (zlen data),
             mt_set_states (if write_state_has_pending_changes st then <[fh := st]> states else states) mt)
        end
      else (Ok (zlen data), mt_set_states (<[fh := st]> states) mt)
  end.

(** [write], after the request has been matched with a writable handle of the file;
    the block size is positive. *)
Definition write (mt : Mount (R := R) (M := M)) (fh file_id offset : Z) (data : bytes) (kill_suidgid : bool)
    : outcome Z Z * Mount :=
  if bool_decide (data = []) then (Ok 0, mt)
  else
    let '(existing_state, sibling_states, states) :=
      take_write_states_for_file_except file_id fh (mt_write_states mt) in
    match
      match existing_state with
      | Some st => Ok (ws_file_size st)
      | None => file_size_for_update_file_id_or_errno mt file_id
      end
    with
    | Err errno => (Err errno, mt_set_states (put_states sibling_states states) mt)
    | Panic => (Panic, mt)
    | Ok existing_size =>
        let existing_size := foldr Z.max existing_size ((fun e => ws_file_size e.2) <$> sibling_states) in
        let has_sibling_states := negb (bool_decide (sibling_states = [])) in
        let end_offset := sat_add offset (zlen data) in
        if negb (bool_decide (is_Some existing_state)) && negb has_sibling_states && (offset <=? existing_size)
           && (end_offset <=? existing_size) && negb kill_suidgid
           && unchanged_slice mt file_id offset end_offset data
        then (Ok (zlen data), mt)
        else
          let st := ws_for_write file_id kill_suidgid
                      (default (new_write_state file_id existing_size false) existing_state) in
          match attach_write_persistence_fence_for_handle handles fh st with
          | Err errno => (Err errno, mt_set_states (put_states sibling_states (<[fh := st]> states)) mt)
          | Panic => (Panic, mt)
          | Ok st =>
              write_into_state mt fh file_id offset data sibling_states states
                (foldl (fun st e => merge_write_state_into st e.2 (fz_block_size cfg)) st sibling_states)
          end
    end.

(** [flush_write_state_for_handle], behind flush, fsync and release. *)
Definition flush_write_state_for_handle (mt : Mount (R := R) (M := M)) (fh : Z) : outcome Z bool * Mount :=
  match mt_write_states mt !! fh with
  | None => (Ok false, mt)
  | Some st =>
      if negb (write_state_has_pending_changes st) then (Ok false, mt)
      else
        match attach_write_persistence_fence_for_handle handles fh st with
        | Err errno => (Err errno, mt)
        | Panic => (Panic, mt)
        | Ok st =>
            match flush_write_state cfg mt st with
            | (Err errno, _, mt) => (Err errno, mt)
            | (Panic, _, mt) => (Panic, mt)
            | (Ok _, st, mt) =>
                (Ok true,
                 mt_set_states (if write_state_has_pending_changes st then <[fh := st]> (mt_write_states mt)
                                else delete fh (mt_write_states mt)) mt)
            end
        end
  end.

(** [flush_pending_write_states_for_file_except]: the copies taken at the start are
    flushed one after the other. *)
Fixpoint flush_pending_loop (pending : list (Z * WriteState)) (mt : Mount (R := R) (M := M))
    : outcome Z unit * Mount :=
  match pending with
  | [] => (Ok tt, mt)
  | (fh, st) :: pending =>
      match flush_write_state cfg mt st with
      | (Err errno, _, mt) => (Err errno, mt)
      | (Panic, _, mt) => (Panic, mt)
      | (Ok _, st, mt) =>
          flush_pending_loop pending
            (mt_set_states (if write_state_has_pending_changes st then <[fh := st]> (mt_write_states mt)
                            else delete fh (mt_write_states mt)) mt)
      end
  end.

Definition flush_pending_write_states_for_file_except (mt : Mount (R := R) (M := M)) (file_id except_fh : Z)
    : outcome Z unit * Mount :=
  flush_pending_loop (pending_siblings file_id except_fh (mt_write_states mt)) mt.

(** The size part of [setattr] on an open handle. *)
Definition setattr_size_handle (mt : Mount (R := R) (M := M)) (fh file_id new_size : Z) (kill_suidgid : bool)
    : outcome Z unit * Mount :=
  let st := default (new_write_state file_id new_size true) (mt_write_states mt !! fh) in
  let st := ws_for_truncate file_id new_size kill_suidgid (ws_write_authorization st) st in
  match attach_write_persistence_fence_for_handle handles fh st with
  | Err errno => (Err errno, mt)
  | Panic => (Panic, mt)
  | Ok st =>
      match flush_write_state cfg mt st with
      | (Err errno, _, mt) => (Err errno, mt)
      | (Panic, _, mt) => (Panic, mt)
      | (Ok _, st, mt) =>
          (Ok tt,
           mt_set_states (if write_state_has_pending_changes st then <[fh := st]> (mt_write_states mt)
                          else delete fh (mt_write_states mt)) mt)
      end
  end.

(** The size part of [setattr] by path: a temporary handle gives the fence. *)
Definition setattr_size_path (mt : Mount (R := R) (M := M)) (ownership_fh file_id new_size : Z)
    (kill_suidgid : bool) (authorization : FileWriteAuthorization) : outcome Z unit * Mount :=
  let st := ws_for_truncate file_id new_size kill_suidgid (Some authorization)
              (new_write_state file_id new_size true) in
  match attach_write_persistence_fence_for_handle handles ownership_fh st with
  | Err errno => (Err errno, mt)
  | Panic => (Panic, mt)
  | Ok st =>
      let '(result, _, mt) := flush_write_state cfg mt st in (result, mt)
  end.
End Handlers.

(** ** The file behind all handles *)

Lemma elem_of_pending fid fh states fh' st :
  (fh', st) ∈ pending_siblings fid fh states <->
  states !! fh' = Some st /\ fh' <> fh /\ ws_file_id st = fid /\ write_state_has_pending_changes st = true.
Proof.
  unfold pending_siblings, is_pending_of. rewrite elem_of_map_to_list, map_lookup_filter_Some. cbn.
  rewrite andb_true_iff, Z.eqb_eq. tauto.
Qed.

Lemma list_singleton {A} (l : list A) (e : A) : NoDup l -> (forall x, x ∈ l <-> x = e) -> l = [e].
Proof.
  intros Hnd Hl. destruct l as [|a [|b l]].
  - exfalso. by apply (not_elem_of_nil e), Hl.
  - f_equal. apply Hl. set_solver.
  - assert (a = e) by (apply Hl; set_solver). assert (b = e) by (apply Hl; set_solver). subst.
    apply NoDup_cons in Hnd as [Hn _]. set_solver.
Qed.

Lemma delete_all_lookup (l : list (Z * WriteState)) : forall (states : gmap Z WriteState) fh st,
  foldl (fun states e => delete e.1 states) states l !! fh = Some st -> states !! fh = Some st /\ fh ∉ l.*1.
Proof.
  induction l as [|[k x] l IH]; intros states fh st; cbn; [set_solver|]. intros [Hl Hn]%IH.
  apply lookup_delete_Some in Hl as [? ?]. set_solver.
Qed.

(** The handle whose state holds the file's unflushed content. *)
Definition owner (fid : Z) (states : gmap Z WriteState) : option (Z * WriteState) :=
  head (map_to_list (filter (fun e => ws_file_id e.2 = fid) states)).

Lemma owner_Some fid states fh st :
  owner fid states = Some (fh, st) -> states !! fh = Some st /\ ws_file_id st = fid.
Proof.
  unfold owner. destruct (map_to_list _) as [|e l] eqn:E; [done|]. cbn. intros [= ->].
  assert (Hin : (fh, st) ∈ map_to_list (filter (fun e => ws_file_id e.2 = fid) states)) by (rewrite E; set_solver).
  apply elem_of_map_to_list, map_lookup_filter_Some in Hin. done.
Qed.

Lemma owner_None fid states :
  owner fid states = None <-> forall fh st, states !! fh = Some st -> ws_file_id st <> fid.
Proof.
  unfold owner. destruct (map_to_list _) as [|[fh0 st0] l] eqn:E; cbn; split; try done.
  - intros _ fh st Hst Hid. apply map_to_list_empty_iff in E.
    assert (Hf : filter (fun e => ws_file_id e.2 = fid) states !! fh = Some st) by (by apply map_lookup_filter_Some).
    by rewrite E in Hf.
  - intros Hall. assert (Hin : (fh0, st0) ∈ map_to_list (filter (fun e => ws_file_id e.2 = fid) states)) by (rewrite E; set_solver).
    apply elem_of_map_to_list, map_lookup_filter_Some in Hin as [Hl Hid]. by destruct (Hall fh0 st0).
Qed.

Section HandlerProofs.
Context {R : Type} `{BlockRepoOk R} {M : Type} `{LinkedMapOk M} (cfg : FuseConfig) (bs : Z).
Context (handles : gmap Z FileHandle).
Context (Hcfg : fz_block_size cfg = bs) (Hbs : 0 < bs <= I32_MAX).
Implicit Types (mt : Mount (R := R) (M := M)) (st : WriteState).

(** The size and the bytes of a file as its users see them through the mount. *)
Definition file_len mt (fid : Z) : Z :=
  match owner fid (mt_write_states mt) with
  | Some (_, st) => ws_file_size st
  | None => default 0 (repo_size (mt_repo mt) fid)
  end.

Definition file_byte mt (fid pos : Z) : Z :=
  match owner fid (mt_write_states mt) with
  | Some (_, st) => state_at bs mt st pos
  | None => repo_byte (mt_repo mt) fid bs (pos / bs) (pos mod bs)
  end.

(** A state in the table: dirty, without a pending size change, not behind the
    repository in size. *)
Record tabled mt (fid : Z) st : Prop := {
  tb_ok : state_ok bs mt st;
  tb_truncate : ws_truncate_pending st = false;
  tb_load : ws_load_error st = false;
  tb_buffered : 0 <= ws_buffered_bytes st;
  tb_pending : write_state_has_pending_changes st = true;
  tb_size : forall n, repo_size (mt_repo mt) fid = Some n -> n <= ws_file_size st
}.

(** The invariant of the handlers: at most one handle holds unflushed content of the
    file, in a well-formed state. *)
Record states_ok mt (fid : Z) : Prop := {
  sk_mount : mount_ok bs mt fid;
  sk_exists : exists n, repo_size (mt_repo mt) fid = Some n /\ 0 <= n <= I64_MAX;
  sk_one : forall fh1 fh2 st1 st2, mt_write_states mt !! fh1 = Some st1 -> mt_write_states mt !! fh2 = Some st2 ->
    ws_file_id st1 = fid -> ws_file_id st2 = fid -> fh1 = fh2;
  sk_state : forall fh st, mt_write_states mt !! fh = Some st -> ws_file_id st = fid -> tabled mt fid st
}.

Lemma owner_unique mt fid fh st :
  states_ok mt fid -> mt_write_states mt !! fh = Some st -> ws_file_id st = fid ->
  owner fid (mt_write_states mt) = Some (fh, st).
Proof.
  intros Hs Hst Hid. destruct (owner fid (mt_write_states mt)) as [[fh' st']|] eqn:E.
  - apply owner_Some in E as [E1 E2]. assert (fh' = fh) as -> by (by eapply (sk_one _ _ Hs)). congruence.
  - exfalso. by eapply (proj1 (owner_None _ _) E).
Qed.

(** The well-formedness of a state depends on few of its fields. *)
Lemma state_ok_ext mt mt' st st' :
  mt_repo mt' = mt_repo mt -> mt_recent mt' = mt_recent mt ->
  ws_file_id st' = ws_file_id st -> ws_file_size st' = ws_file_size st ->
  ws_truncate_pending st' = ws_truncate_pending st -> ws_blocks st' = ws_blocks st ->
  state_ok bs mt st -> state_ok bs mt' st'.
Proof.
  intros Er Ec Ei Es Et Eb [Sm Sb Ss Si St].
  assert (Hbyte : forall k i, state_byte bs mt' st' k i = state_byte bs mt st k i)
    by (intros; unfold state_byte; by rewrite Er, Ei, Eb).
  split; rewrite ?Ei, ?Es, ?Et, ?Eb; [by apply (mount_ok_ext bs mt)|done|done|done|].
  intros ? k i. rewrite Hbyte. auto.
Qed.

Lemma state_at_ext mt mt' st st' pos :
  mt_repo mt' = mt_repo mt -> ws_file_id st' = ws_file_id st -> ws_blocks st' = ws_blocks st ->
  state_at bs mt' st' pos = state_at bs mt st pos.
Proof. intros Er Ei Eb. unfold state_at, state_byte. by rewrite Er, Ei, Eb. Qed.

(** A dirty state put under a handle of a file that had none in the table. *)
Lemma table_state mt fh states st :
  (forall fh' st', states !! fh' = Some st' -> ws_file_id st' <> ws_file_id st) ->
  (exists n, repo_size (mt_repo mt) (ws_file_id st) = Some n /\ 0 <= n <= I64_MAX) ->
  tabled mt (ws_file_id st) st ->
  let mt' := mt_set_states (<[fh := st]> states) mt in
  states_ok mt' (ws_file_id st) /\ owner (ws_file_id st) (mt_write_states mt') = Some (fh, st).
Proof.
  intros Hnone Hex Ht mt'.
  assert (Hfh : forall fh' st', mt_write_states mt' !! fh' = Some st' -> ws_file_id st' = ws_file_id st -> fh' = fh /\ st' = st).
  { intros fh' st'. cbn. intros [[<- <-]|[_ Hl]]%lookup_insert_Some Hid; [done|]. by apply Hnone in Hl. }
  assert (Hok : states_ok mt' (ws_file_id st)).
  { split; [|done| |].
    - by apply (mount_ok_ext bs mt), Ht.
    - intros fh1 fh2 st1 st2 Hl1 Hl2 Hi1 Hi2. apply Hfh in Hl1 as [-> _]; [|done]. by apply Hfh in Hl2 as [-> _].
    - intros fh' st' Hl Hid. apply Hfh in Hl as [-> ->]; [|done]. destruct Ht as [T1 T2 T3 T4 T5 T6]. split; try done.
      by apply (state_ok_ext mt mt' st st). }
  split; [done|]. apply owner_unique; [done| |done]. cbn. by rewrite lookup_insert_eq.
Qed.

(** After a flush no handle holds content of the file. *)
Lemma flushed_table mt st mt' st' states :
  (forall fh' st', states !! fh' = Some st' -> ws_file_id st' <> ws_file_id st) ->
  state_ok bs mt st -> flush_done bs mt st mt' st' ->
  let mt2 := mt_set_states states mt' in
  states_ok mt2 (ws_file_id st) /\ owner (ws_file_id st) (mt_write_states mt2) = None /\
  file_len mt2 (ws_file_id st) = ws_file_size st /\
  forall pos, 0 <= pos -> file_byte mt2 (ws_file_id st) pos =
    if decide (pos < ws_file_size st) then state_at bs mt st pos else 0.
Proof.
  intros Hnone Hst Hf mt2. pose proof (so_size _ _ _ Hst) as Hsz.
  assert (Hown : owner (ws_file_id st) (mt_write_states mt2) = None) by (by apply owner_None).
  assert (Hm2 : mount_ok bs mt2 (ws_file_id st)) by (by apply (mount_ok_ext bs mt'); [..|apply Hf]).
  split; [split|split; [done|]].
  - done.
  - exists (ws_file_size st). split; [apply Hf|lia].
  - intros fh1 fh2 st1 st2 Hl _ Hid. exfalso. by apply (Hnone fh1 st1).
  - intros fh1 st1 Hl Hid. exfalso. by apply (Hnone fh1 st1).
  - split; [unfold file_len; rewrite Hown; cbn; by rewrite (fd_size _ _ _ _ _ Hf)|].
    intros pos Hpos. unfold file_byte. rewrite Hown. case_decide as Hlt.
    + by apply (fd_bytes _ _ _ _ _ Hf).
    + destruct (pos_split bs Hbs pos Hpos) as (P1 & P2 & P3). eapply (mo_tail _ _ _ Hm2); [apply Hf|done|done|lia].
Qed.

Lemma flushed_not_pending st : write_state_has_pending_changes (ws_flushed st) = false.
Proof. unfold write_state_has_pending_changes. cbn. by rewrite bool_decide_eq_true_2. Qed.

(** The file after a write of [data] at [offset] to a file with size [len] and bytes [old]. *)
Definition wrote mt' (fid offset : Z) (data : bytes) (len : Z) (old : Z -> Z) : Prop :=
  states_ok mt' fid /\ file_len mt' fid = Z.max len (offset + zlen data) /\
  forall pos, 0 <= pos -> file_byte mt' fid pos =
    if decide (offset <= pos < offset + zlen data) then byte_at data (pos - offset) else old pos.

(** The state a write works on: all of the file's unflushed content, out of the table. *)
Record collected mt (fid : Z) (states : gmap Z WriteState) st : Prop := {
  cl_ok : state_ok bs mt st;
  cl_id : ws_file_id st = fid;
  cl_truncate : ws_truncate_pending st = false;
  cl_load : ws_load_error st = false;
  cl_buffered : 0 <= ws_buffered_bytes st;
  cl_size : forall n, repo_size (mt_repo mt) fid = Some n -> n <= ws_file_size st;
  cl_exists : exists n, repo_size (mt_repo mt) fid = Some n /\ 0 <= n <= I64_MAX;
  cl_none : forall fh' st', states !! fh' = Some st' -> ws_file_id st' <> fid
}.

Lemma write_into_state_spec mt fh fid offset data siblings states st :
  collected mt fid states st -> repo_live (mt_repo mt) -> data <> [] -> Forall is_byte data ->
  0 <= offset -> offset + zlen data <= I64_MAX ->
  match write_into_state cfg handles mt fh fid offset data siblings states st with
  | (Ok n, mt') => n = zlen data /\ wrote mt' fid offset data (ws_file_size st) (state_at bs mt st)
  | (Err _, mt') => mt_repo mt' = mt_repo mt
  | (Panic, _) => False
  end.
Proof.
  intros [Cok <- Ct Cl Cb Cs Ce Cn] Hlive Hne Hd Ho He. unfold write_into_state.
  set (mt0 := mt_set_states states mt).
  assert (Hok0 : state_ok bs mt0 st) by (by apply (state_ok_ext mt mt0 st st)).
  pose proof (update_write_buffer_run cfg bs Hcfg Hbs mt0 st offset data Hok0 Ct Hd Ho He) as Hup.
  destruct (update_write_buffer cfg mt0 st offset data) as [[[[]|e|] st1] mt1]; [|by destruct Hup as (_ & -> & _)|done].
  destruct Hup as [(Wr & Wc & _) [blocks Wst] Wok Wb]. rewrite bool_decide_eq_false_2 in Wst by done.
  assert (Hz : 0 < zlen data) by (destruct data; [done|rewrite zlen_cons; pose proof (zlen_nonneg data); lia]).
  set (st2 := ws_add_buffered (zlen data) st1).
  assert (Hid : ws_file_id st2 = ws_file_id st) by (by unfold st2; rewrite Wst).
  assert (Hsz : ws_file_size st2 = Z.max (ws_file_size st) (offset + zlen data)) by (by unfold st2; rewrite Wst).
  assert (Hbuf : ws_buffered_bytes st2 = sat_add (ws_buffered_bytes st) (zlen data)) by (by unfold st2; rewrite Wst).
  assert (Hok2 : state_ok bs mt1 st2) by (by apply (state_ok_ext mt1 mt1 st1)).
  assert (Hat : forall pos, 0 <= pos -> state_at bs mt1 st2 pos =
    if decide (offset <= pos < offset + zlen data) then byte_at data (pos - offset) else state_at bs mt st pos).
  { intros pos Hpos. rewrite (state_at_ext mt1 mt1 st1 st2), Wb by done. done. }
  assert (Htr2 : ws_truncate_pending st2 = false) by (by unfold st2; rewrite Wst).
  destruct (should_flush_write_state _ _ _).
  - pose proof (flush_run cfg bs Hcfg Hbs mt1 st2 None Hok2) as Hfl. unfold flush_write_state.
    destruct (flush_write_state_with_capacity_reservation cfg mt1 st2 None) as [[[[]|e|] st3] mt3].
    + destruct Hfl as [F1 F2 F3 F4 F5 F6]; [rewrite Wr; done|rewrite Wr, Hid; destruct Ce as (n & Hn & _); cbn; by rewrite Hn|].
      pose proof F4 as F4'. rewrite F4, flushed_not_pending. split; [done|].
      destruct (flushed_table mt1 st2 mt3 st3 states) as (T1 & _ & T3 & T4); [by rewrite Hid|done|by split|].
      rewrite Hid in T1, T3, T4. unfold wrote. split; [done|]. split; [by rewrite T3|].
      intros pos Hpos. rewrite T4 by done. case_decide as Hlt; [by apply Hat|]. rewrite <- Hat by done.
      destruct (pos_split bs Hbs pos Hpos) as (P1 & P2 & P3). symmetry. apply (so_tail _ _ _ Hok2 Htr2); [done|done|lia].
    + destruct Hfl as [-> _]; [by rewrite Wr|rewrite Wr, Hid; destruct Ce as (n & Hn & _); cbn; by rewrite Hn|]. done.
    + apply Hfl; [by rewrite Wr|rewrite Wr, Hid; destruct Ce as (n & Hn & _); cbn; by rewrite Hn].
  - split; [done|]. rewrite <- Hid.
    destruct (table_state mt1 fh states st2) as [T1 T2].
    { by rewrite Hid. }
    { by rewrite Hid, Wr. }
    { split; [done|done|by unfold st2; rewrite Wst| | |].
      - rewrite Hbuf. unfold sat_add, U64_MAX. lia.
      - unfold write_state_has_pending_changes. rewrite Hbuf. assert (E : (0 <? sat_add (ws_buffered_bytes st) (zlen data)) = true)
          by (apply Z.ltb_lt; unfold sat_add, U64_MAX; lia). by rewrite E, orb_true_r.
      - rewrite Hid, Wr, Hsz. intros n Hn. specialize (Cs n Hn). lia. }
    split; [done|]. unfold file_len, file_byte. rewrite T2. split; [done|].
    intros pos Hpos. rewrite <- Hat by done. by apply state_at_ext.
Qed.

Lemma take_states_spec mt fid fh :
  states_ok mt fid -> (forall st, mt_write_states mt !! fh = Some st -> ws_file_id st = fid) ->
  let '(existing, siblings, states) := take_write_states_for_file_except fid fh (mt_write_states mt) in
  (forall fh' st', states !! fh' = Some st' -> ws_file_id st' <> fid) /\
  match owner fid (mt_write_states mt) with
  | None => existing = None /\ siblings = []
  | Some (fo, st) => (fo = fh /\ existing = Some st /\ siblings = []) \/ (existing = None /\ siblings = [(fo, st)])
  end.
Proof.
  intros Hs Hfh. unfold take_write_states_for_file_except. set (states := mt_write_states mt) in *.
  assert (Hsib : forall fo st, (fo, st) ∈ pending_siblings fid fh (delete fh states) <->
    states !! fo = Some st /\ fo <> fh /\ ws_file_id st = fid).
  { intros fo st. rewrite elem_of_pending, lookup_delete_Some. split; [tauto|]. intros (Hl & Hne & Hid).
    split; [done|]. split; [done|]. split; [done|]. by apply (tb_pending _ _ _ (sk_state _ _ Hs fo st Hl Hid)). }
  split.
  - intros fh' st' [Hl Hn]%delete_all_lookup Hid. apply lookup_delete_Some in Hl as [Hne Hl]. apply Hn.
    apply list_elem_of_fmap. exists (fh', st'). split; [done|]. by apply Hsib.
  - destruct (owner fid states) as [[fo st]|] eqn:Eo.
    + apply owner_Some in Eo as [Hl Hid]. destruct (decide (fo = fh)) as [->|Hne].
      * left. split; [done|]. split; [done|]. apply elem_of_nil_inv. intros [f x] (Hlx & Hne & Hix)%Hsib.
        apply Hne. by eapply (sk_one _ _ Hs).
      * right. split.
        -- destruct (states !! fh) as [st0|] eqn:E0; [|done]. exfalso. apply Hne. eapply (sk_one _ _ Hs); eauto.
        -- apply list_singleton; [apply NoDup_map_to_list|]. intros [f x]. rewrite Hsib. split.
           ++ intros (Hlx & _ & Hix). assert (f = fo) as -> by (by eapply (sk_one _ _ Hs)). congruence.
           ++ intros [= -> ->]. done.
    + rewrite owner_None in Eo. split.
      * destruct (states !! fh) as [st0|] eqn:E0; [|done]. exfalso. eapply Eo; eauto.
      * apply elem_of_nil_inv. intros [f x] (Hlx & _ & Hix)%Hsib. by eapply Eo.
Qed.

Lemma unchanged_slice_spec mt fid offset data :
  mount_ok bs mt fid -> data <> [] -> 0 <= offset -> offset + zlen data <= I64_MAX ->
  unchanged_slice cfg mt fid offset (offset + zlen data) data = true ->
  forall pos, offset <= pos < offset + zlen data ->
    repo_byte (mt_repo mt) fid bs (pos / bs) (pos mod bs) = byte_at data (pos - offset).
Proof.
  intros Hm Hne Ho He. unfold unchanged_slice, assemble_file_slice_for_update. rewrite Hcfg.
  assert (Hz : 0 < zlen data) by (destruct data; [done|rewrite zlen_cons; pose proof (zlen_nonneg data); lia]).
  replace (sat_sub (offset + zlen data) 1) with (offset + zlen data - 1) by (unfold sat_sub; lia).
  assert (Hf0 : 0 <= offset / bs) by (apply Z.div_pos; lia). assert (Hmax : I64_MAX <= U64_MAX) by done.
  assert (Hfl : offset / bs <= (offset + zlen data - 1) / bs) by (apply Z.div_le_mono; lia).
  pose proof (repo_fetch_ok (mt_repo mt) fid (offset / bs) ((offset + zlen data - 1) / bs) bs (mo_sane _ _ _ Hm) Hbs
    ltac:(lia)) as Hf. destruct (repo_fetch_range _ _ _ _ _) as [rows| |]; cbn [mbind outcome_bind]; [|done|done].
  destruct Hf as [Hrow Hnone].
  destruct (assemble_read_slice_run (offset / bs) ((offset + zlen data - 1) / bs) offset (offset + zlen data) bs rows)
    as (out & -> & Hlen & Hb); [unfold is_u64; lia|unfold is_u64; lia|lia| |].
  { apply Forall_forall. intros [k d] Hin. apply Hrow in Hin as [? _]. cbn. lia. }
  cbn [infallible]. intros ->%bool_decide_eq_true_1 pos Hpos. rewrite Hb by lia. rewrite Z.max_l by lia. symmetry.
  pose proof (Z.mod_pos_bound pos bs ltac:(lia)).
  assert (offset / bs <= pos / bs <= (offset + zlen data - 1) / bs) by (split; apply Z.div_le_mono; lia).
  apply rows_byte_agree; [lia| |].
  - intros d Hd. apply Hrow in Hd as (_ & _ & Hd). by apply Hd.
  - intros Hn. apply (Hnone (pos / bs)); [lia|done|lia].
Qed.

Lemma attach_fence_cases fh st :
  match attach_write_persistence_fence_for_handle handles fh st with
  | Ok st' => st' = st \/ exists fence, st' = ws_set_fence fence st
  | Err _ => True
  | Panic => False
  end.
Proof.
  unfold attach_write_persistence_fence_for_handle. destruct (ws_persistence_fence st); [by left|].
  destruct (_ ≫= _) as [[f fence]|]; [|done]. destruct (negb _); [done|]. right. by exists fence.
Qed.

Lemma collected_fence mt fid states st st' :
  st' = st \/ (exists fence, st' = ws_set_fence fence st) -> collected mt fid states st -> collected mt fid states st'.
Proof.
  intros [->|[fence ->]]; [done|]. intros [C1 C2 C3 C4 C5 C6 C7 C8]. split; try done. by apply (state_ok_ext mt mt st).
Qed.

Lemma new_state_ok mt fid n :
  mount_ok bs mt fid -> repo_size (mt_repo mt) fid = Some n -> 0 <= n <= I64_MAX ->
  state_ok bs mt (new_write_state fid n false).
Proof.
  intros Hm Hn Hr. split; cbn; [done| |done| |].
  - intros k b. by rewrite lookup_empty.
  - intros _ k [b Hb]. by rewrite lookup_empty in Hb.
  - intros _ k i Hk Hi Hpos. unfold state_byte. cbn. rewrite lookup_empty. by eapply (mo_tail _ _ _ Hm).
Qed.

(** What a write replies and leaves behind. *)
Definition write_post mt (fid offset : Z) (data : bytes) (res : outcome Z Z * Mount) : Prop :=
  match res with
  | (Ok n, mt') => n = zlen data /\ wrote mt' fid offset data (file_len mt fid) (file_byte mt fid)
  | (Err _, mt') => mt_repo mt' = mt_repo mt
  | (Panic, _) => False
  end.

(** The state that carries the whole content of the file. *)
Record carries mt (fid : Z) (states : gmap Z WriteState) st : Prop := {
  ca_collected : collected mt fid states st;
  ca_size : ws_file_size st = file_len mt fid;
  ca_bytes : forall pos, state_at bs mt st pos = file_byte mt fid pos
}.

Lemma carries_fence mt fid states fh st :
  carries mt fid states st ->
  match attach_write_persistence_fence_for_handle handles fh st with
  | Ok st' => carries mt fid states st'
  | Err _ => True
  | Panic => False
  end.
Proof.
  intros [C1 C2 C3]. pose proof (attach_fence_cases fh st) as Ha.
  destruct (attach_write_persistence_fence_for_handle handles fh st) as [st'|e|]; [|done|done].
  split; [by apply (collected_fence _ _ _ st)|by destruct Ha as [->|[? ->]]|].
  intros pos. rewrite <- C3. apply state_at_ext; by destruct Ha as [->|[? ->]].
Qed.

(** The handle's own state. *)
Lemma carries_own mt fid states fh st kill :
  states_ok mt fid -> (forall fh' st', states !! fh' = Some st' -> ws_file_id st' <> fid) ->
  owner fid (mt_write_states mt) = Some (fh, st) -> carries mt fid states (ws_for_write fid kill st).
Proof.
  intros Hs Hnone Eo. pose proof (owner_Some _ _ _ _ Eo) as [El Eid].
  pose proof (sk_state _ _ Hs fh st El Eid) as [T1 T2 T3 T4 T5 T6]. split.
  - split; cbn; try done; [by apply (state_ok_ext mt mt st)|apply Hs].
  - unfold file_len. by rewrite Eo.
  - intros pos. unfold file_byte. rewrite Eo. by apply state_at_ext.
Qed.

(** A fresh state, when no handle has unflushed content. *)
Lemma carries_new mt fid states n kill :
  states_ok mt fid -> (forall fh' st', states !! fh' = Some st' -> ws_file_id st' <> fid) ->
  owner fid (mt_write_states mt) = None -> repo_size (mt_repo mt) fid = Some n -> 0 <= n <= I64_MAX ->
  carries mt fid states (ws_for_write fid kill (new_write_state fid n false)).
Proof.
  intros Hs Hnone Eo Hn Hnr. split.
  - split; cbn; try done; [|by intros n' Hn'; assert (n' = n) by congruence; lia|by exists n].
    apply (state_ok_ext mt mt (new_write_state fid n false)); try done. apply new_state_ok; [apply Hs|done|done].
  - unfold file_len. by rewrite Eo, Hn.
  - intros pos. unfold file_byte, state_at, state_byte. rewrite Eo. cbn. by rewrite lookup_empty.
Qed.

(** A fresh state into which the state of the other handle is merged. *)
Lemma carries_merged mt fid states fo so fh kill :
  states_ok mt fid -> (forall fh' st', states !! fh' = Some st' -> ws_file_id st' <> fid) ->
  owner fid (mt_write_states mt) = Some (fo, so) ->
  match attach_write_persistence_fence_for_handle handles fh
          (ws_for_write fid kill (new_write_state fid (ws_file_size so) false)) with
  | Ok st => carries mt fid states (merge_write_state_into st so (fz_block_size cfg))
  | Err _ => True
  | Panic => False
  end.
Proof.
  intros Hs Hnone Eo. pose proof (owner_Some _ _ _ _ Eo) as [El Eid].
  pose proof (sk_state _ _ Hs fo so El Eid) as [T1 T2 T3 T4 T5 T6].
  set (st0 := ws_for_write _ _ _). pose proof (attach_fence_cases fh st0) as Ha.
  destruct (attach_write_persistence_fence_for_handle handles fh st0) as [st|e|]; [|done|done].
  set (st2 := merge_write_state_into st so (fz_block_size cfg)).
  assert (Hst2 : ws_file_id st2 = fid /\ ws_file_size st2 = ws_file_size so /\ ws_blocks st2 = ws_blocks so /\
    ws_truncate_pending st2 = false /\ ws_load_error st2 = false /\ 0 <= ws_buffered_bytes st2).
  { unfold st2, merge_write_state_into. rewrite T2. destruct Ha as [->|[? ->]]; cbn;
      rewrite T3, Z.ltb_irrefl, map_union_empty; (do 5 (split; [done|])); unfold sat_add, U64_MAX; lia. }
  destruct Hst2 as (E1 & E2 & E3 & E4 & E5 & E6). split.
  - split; try done; [apply (state_ok_ext mt mt so); try done; congruence|by rewrite E2|apply Hs].
  - unfold file_len. by rewrite Eo.
  - intros pos. unfold file_byte. rewrite Eo. apply state_at_ext; [done|congruence|done].
Qed.

Lemma write_run mt fh fid offset data kill :
  states_ok mt fid -> (forall st, mt_write_states mt !! fh = Some st -> ws_file_id st = fid) ->
  repo_live (mt_repo mt) -> data <> [] -> Forall is_byte data -> 0 <= offset -> offset + zlen data <= I64_MAX ->
  write_post mt fid offset data (write cfg handles mt fh fid offset data kill).
Proof.
  intros Hs Hfh Hlive Hne Hd Ho He. unfold write. rewrite bool_decide_eq_false_2 by done.
  assert (Hmax : I64_MAX <= U64_MAX) by done. pose proof (zlen_nonneg data).
  replace (sat_add offset (zlen data)) with (offset + zlen data) by (unfold sat_add; lia).
  pose proof (take_states_spec mt fid fh Hs Hfh) as Htake.
  destruct (take_write_states_for_file_except fid fh (mt_write_states mt)) as [[existing siblings] states].
  destruct Htake as [Hnone Hown]. destruct (sk_exists _ _ Hs) as (n & Hn & Hnr).
  assert (Hgo : forall st siblings', carries mt fid states st ->
    write_post mt fid offset data (write_into_state cfg handles mt fh fid offset data siblings' states st)).
  { intros st siblings' [Hc Hl Hb].
    pose proof (write_into_state_spec mt fh fid offset data siblings' states st Hc Hlive Hne Hd Ho He) as Hw.
    unfold write_post. destruct (write_into_state _ _ _ _ _ _ _ _ _ _) as [[r|e|] mt']; [|done|done].
    destruct Hw as (-> & W1 & W2 & W3). split; [done|]. split; [done|]. rewrite <- Hl. split; [done|].
    intros pos Hpos. rewrite W3 by done. by rewrite Hb. }
  pose proof (repo_size_ok (mt_repo mt) fid) as Hsz. unfold file_size_for_update_file_id_or_errno.
  destruct (owner fid (mt_write_states mt)) as [[fo so]|] eqn:Eo.
  - destruct Hown as [(-> & -> & ->)|[-> ->]].
    + cbn [fmap list_fmap foldr default]. rewrite bool_decide_eq_true_2 by (by eexists). cbn [negb andb].
      pose proof (carries_fence mt fid states fh _ (carries_own _ _ _ _ _ kill Hs Hnone Eo)) as Hc.
      destruct (attach_write_persistence_fence_for_handle _ _ _) as [st|e|]; [by apply Hgo|done|done].
    + destruct (repo_file_size (mt_repo mt) fid) as [[m|]|err|]; [|congruence|done|done].
      assert (m = n) as -> by congruence. cbn [fmap list_fmap foldr].
      pose proof (owner_Some _ _ _ _ Eo) as [El Eid]. pose proof (tb_size _ _ _ (sk_state _ _ Hs fo so El Eid) n Hn).
      rewrite (Z.max_l _ n), (bool_decide_eq_false_2 (_ = [])) by done. cbn [negb andb]. rewrite andb_false_r. cbn [andb].
      pose proof (carries_merged mt fid states fo so fh kill Hs Hnone Eo) as Hc.
      destruct (attach_write_persistence_fence_for_handle _ _ _) as [st|e|]; [by apply Hgo|done|done].
  - destruct Hown as [-> ->]. destruct (repo_file_size (mt_repo mt) fid) as [[m|]|err|]; [|congruence|done|done].
    assert (m = n) as -> by congruence. cbn [fmap list_fmap foldr].
    rewrite (bool_decide_eq_false_2 (is_Some None)), (bool_decide_eq_true_2 (_ = [])) by (done || by intros [? ?]).
    cbn [negb andb]. destruct (_ && _) eqn:Eu.
    + apply andb_true_iff in Eu as [[[_ E2%Z.leb_le]%andb_true_iff _]%andb_true_iff Eu].
      pose proof (unchanged_slice_spec mt fid offset data (sk_mount _ _ Hs) Hne Ho He Eu) as Hu.
      split; [done|]. split; [done|]. unfold file_len, file_byte. rewrite Eo, Hn. cbn. split; [lia|].
      intros pos Hpos. case_decide as Hp; [by apply Hu|done].
    + pose proof (carries_fence mt fid states fh _ (carries_new _ _ _ n kill Hs Hnone Eo Hn Hnr)) as Hc. cbn [default].
      destruct (attach_write_persistence_fence_for_handle _ _ _) as [st|e|]; [by apply Hgo|done|done].
Qed.

(** *** Size changes and flushes *)

(** A file's bytes past its end are zero. *)
Lemma file_byte_tail mt fid pos : states_ok mt fid -> 0 <= pos -> file_len mt fid <= pos -> file_byte mt fid pos = 0.
Proof.
  intros Hs Hpos. destruct (pos_split bs Hbs pos Hpos) as (P1 & P2 & P3). unfold file_len, file_byte.
  destruct (owner fid (mt_write_states mt)) as [[fh st]|] eqn:Eo.
  - apply owner_Some in Eo as [El Eid]. destruct (sk_state _ _ Hs fh st El Eid) as [T1 T2 _ _ _ _].
    intros Hlen. apply (so_tail _ _ _ T1 T2); [done|done|lia].
  - destruct (sk_exists _ _ Hs) as (n & Hn & _). rewrite Hn. cbn. intros Hlen.
    eapply (mo_tail _ _ _ (sk_mount _ _ Hs)); [done..|lia].
Qed.

(** A state with a pending size change: the old content below the new end. *)
Lemma truncate_state mt fid fh n kill auth :
  states_ok mt fid -> (forall st, mt_write_states mt !! fh = Some st -> ws_file_id st = fid) ->
  (forall fo so, owner fid (mt_write_states mt) = Some (fo, so) -> fo = fh) -> 0 <= n <= I64_MAX ->
  let st := ws_for_truncate fid n kill auth (default (new_write_state fid n true) (mt_write_states mt !! fh)) in
  state_ok bs mt st /\ forall pos, state_at bs mt st pos = file_byte mt fid pos.
Proof.
  intros Hs Hfh Hown Hn st. unfold st. destruct (mt_write_states mt !! fh) as [so|] eqn:El; cbn [default from_option id].
  - assert (Eid : ws_file_id so = fid) by (by apply Hfh).
    pose proof (owner_unique mt fid fh so Hs El Eid) as Eo.
    destruct (sk_state _ _ Hs fh so El Eid) as [[Sm Sb Ss Si St] _ _ _ _ _]. split.
    + split; cbn; try done. by apply Hs.
    + intros pos. unfold file_byte. rewrite Eo. by apply state_at_ext.
  - assert (Eo : owner fid (mt_write_states mt) = None).
    { destruct (owner fid (mt_write_states mt)) as [[fo so]|] eqn:Eo; [|done]. pose proof (Hown fo so eq_refl) as ->.
      apply owner_Some in Eo as [? _]. congruence. }
    split; [split; cbn; try done; by apply Hs|].
    intros pos. unfold file_byte, state_at, state_byte. rewrite Eo. cbn. by rewrite lookup_empty.
Qed.

Lemma setattr_size_handle_run mt fh fid n kill :
  states_ok mt fid -> (forall st, mt_write_states mt !! fh = Some st -> ws_file_id st = fid) ->
  (forall fo so, owner fid (mt_write_states mt) = Some (fo, so) -> fo = fh) ->
  repo_live (mt_repo mt) -> 0 <= n <= I64_MAX ->
  match setattr_size_handle cfg handles mt fh fid n kill with
  | (Ok _, mt') =>
      states_ok mt' fid /\ owner fid (mt_write_states mt') = None /\ file_len mt' fid = n /\
      forall pos, 0 <= pos -> file_byte mt' fid pos =
        if decide (pos < Z.min n (file_len mt fid)) then file_byte mt fid pos else 0
  | (Err _, mt') => mt' = mt
  | (Panic, _) => False
  end.
Proof.
  intros Hs Hfh Hown Hlive Hn. unfold setattr_size_handle. destruct (sk_exists _ _ Hs) as (m & Hm & _).
  destruct (truncate_state mt fid fh n kill
    (ws_write_authorization (default (new_write_state fid n true) (mt_write_states mt !! fh))) Hs Hfh Hown Hn) as [Hok Hat].
  set (st := ws_for_truncate _ _ _ _ _) in *. pose proof (attach_fence_cases fh st) as Ha.
  destruct (attach_write_persistence_fence_for_handle handles fh st) as [st1|e|]; [|done|done].
  assert (Hok1 : state_ok bs mt st1) by (destruct Ha as [->|[? ->]]; [done|by apply (state_ok_ext mt mt st)]).
  assert (E1 : ws_file_id st1 = fid /\ ws_file_size st1 = n /\ ws_blocks st1 = ws_blocks st) by (by destruct Ha as [->|[? ->]]).
  destruct E1 as (E1 & E2 & E3). unfold flush_write_state.
  pose proof (flush_run cfg bs Hcfg Hbs mt st1 None Hok1 Hlive) as Hf. rewrite E1, Hm in Hf. specialize (Hf ltac:(by eexists)).
  destruct (flush_write_state_with_capacity_reservation cfg mt st1 None) as [[[[]|e|] st2] mt2]; [|by apply Hf|done].
  rewrite (fd_state _ _ _ _ _ Hf), flushed_not_pending, (fd_states _ _ _ _ _ Hf).
  destruct (flushed_table mt st1 mt2 st2 (delete fh (mt_write_states mt))) as (T1 & T2 & T3 & T4); [|done|done|].
  { rewrite E1. intros fh' st' [Hne Hl]%lookup_delete_Some Hid. apply Hne. symmetry.
    by apply (Hown fh' st'), owner_unique. }
  rewrite E1, E2 in *. split; [done|]. split; [done|]. split; [done|]. intros pos Hpos. rewrite T4 by done.
  rewrite (state_at_ext mt mt st st1), Hat by (done || congruence).
  destruct (decide (pos < n)) as [Hlt|]; [|by rewrite decide_False by lia].
  destruct (decide (pos < file_len mt fid)); [by rewrite decide_True by lia|]. rewrite decide_False by lia.
  apply file_byte_tail; [done|done|lia].
Qed.

Lemma flush_handle_run mt fh fid :
  states_ok mt fid -> (forall st, mt_write_states mt !! fh = Some st -> ws_file_id st = fid) ->
  repo_live (mt_repo mt) ->
  match flush_write_state_for_handle cfg handles mt fh with
  | (Ok flushed, mt') =>
      states_ok mt' fid /\ flushed = bool_decide (is_Some (mt_write_states mt !! fh)) /\
      mt_write_states mt' !! fh = None /\ (flushed = true -> owner fid (mt_write_states mt') = None) /\
      file_len mt' fid = file_len mt fid /\ forall pos, 0 <= pos -> file_byte mt' fid pos = file_byte mt fid pos
  | (Err _, mt') => mt' = mt
  | (Panic, _) => False
  end.
Proof.
  intros Hs Hfh Hlive. unfold flush_write_state_for_handle. destruct (mt_write_states mt !! fh) as [st|] eqn:El; [|by rewrite bool_decide_eq_false_2 by (by intros [? ?])].
  assert (Eid : ws_file_id st = fid) by (by apply Hfh). pose proof (owner_unique mt fid fh st Hs El Eid) as Eo.
  destruct (sk_state _ _ Hs fh st El Eid) as [T1 T2 T3 T4 T5 T6]. rewrite T5. cbn [negb].
  destruct (sk_exists _ _ Hs) as (m & Hm & _). pose proof (attach_fence_cases fh st) as Ha.
  destruct (attach_write_persistence_fence_for_handle handles fh st) as [st1|e|]; [|done|done].
  assert (Hok1 : state_ok bs mt st1) by (destruct Ha as [->|[? ->]]; [done|by apply (state_ok_ext mt mt st)]).
  assert (E1 : ws_file_id st1 = fid /\ ws_file_size st1 = ws_file_size st /\ ws_blocks st1 = ws_blocks st /\
    ws_truncate_pending st1 = false) by (by destruct Ha as [->|[? ->]]).
  destruct E1 as (E1 & E2 & E3 & E4). unfold flush_write_state.
  pose proof (flush_run cfg bs Hcfg Hbs mt st1 None Hok1 Hlive) as Hf. rewrite E1, Hm in Hf. specialize (Hf ltac:(by eexists)).
  destruct (flush_write_state_with_capacity_reservation cfg mt st1 None) as [[[[]|e|] st2] mt2]; [|by apply Hf|done].
  rewrite (fd_state _ _ _ _ _ Hf), flushed_not_pending, (fd_states _ _ _ _ _ Hf), bool_decide_eq_true_2 by (by eexists).
  destruct (flushed_table mt st1 mt2 st2 (delete fh (mt_write_states mt))) as (F1 & F2 & F3 & F4); [|done|done|].
  { rewrite E1. intros fh' st' [Hne Hl]%lookup_delete_Some Hid. apply Hne. by eapply (sk_one _ _ Hs). }
  rewrite E1, E2 in *. split; [done|]. split; [done|]. split; [cbn; by rewrite lookup_delete_eq|]. split; [done|].
  split; [rewrite F3; unfold file_len; by rewrite Eo|]. intros pos Hpos. rewrite F4 by done.
  assert (Hfb : file_byte mt fid pos = state_at bs mt st1 pos).
  { unfold file_byte. rewrite Eo. symmetry. apply state_at_ext; [done|congruence|done]. }
  rewrite Hfb. case_decide; [done|]. destruct (pos_split bs Hbs pos Hpos) as (P1 & P2 & P3).
  symmetry. apply (so_tail _ _ _ Hok1 E4); [done|done|lia].
Qed.

(** A truncate by path does not look at the states in the table. *)
Lemma setattr_size_path_run mt fid ofh n kill auth mt1 :
  states_ok mt fid -> repo_live (mt_repo mt) -> 0 <= n <= I64_MAX ->
  setattr_size_path cfg handles mt ofh fid n kill auth = (Ok tt, mt1) ->
  mt_write_states mt1 = mt_write_states mt /\ mount_ok bs mt1 fid /\ repo_size (mt_repo mt1) fid = Some n /\
  forall k i, 0 <= k -> 0 <= i < bs -> repo_byte (mt_repo mt1) fid bs k i =
    if decide (k * bs + i < n) then repo_byte (mt_repo mt) fid bs k i else 0.
Proof.
  intros Hs Hlive Hn. unfold setattr_size_path. set (st := ws_for_truncate _ _ _ _ _).
  destruct (sk_exists _ _ Hs) as (m & Hm & _). pose proof (attach_fence_cases ofh st) as Ha.
  destruct (attach_write_persistence_fence_for_handle handles ofh st) as [st1|e|]; [|done|done].
  assert (Hok : state_ok bs mt st) by (split; cbn; try done; by apply Hs).
  assert (Hok1 : state_ok bs mt st1) by (destruct Ha as [->|[? ->]]; [done|by apply (state_ok_ext mt mt st)]).
  assert (E1 : ws_file_id st1 = fid /\ ws_file_size st1 = n /\ ws_blocks st1 = ∅) by (by destruct Ha as [->|[? ->]]).
  destruct E1 as (E1 & E2 & E3). unfold flush_write_state.
  pose proof (flush_run cfg bs Hcfg Hbs mt st1 None Hok1 Hlive) as Hf. rewrite E1, Hm in Hf. specialize (Hf ltac:(by eexists)).
  destruct (flush_write_state_with_capacity_reservation cfg mt st1 None) as [[[[]|e|] st2] mt2]; [|done|done].
  intros [= <-]. destruct Hf as [F1 F2 F3 F4 F5 F6]. rewrite E1, E2 in *. split; [done|]. split; [done|]. split; [done|].
  intros k i Hk Hi. destruct (block_pos bs Hbs k i Hi) as [P1 P2]. case_decide as Hlt.
  - specialize (F1 (k * bs + i) ltac:(nia)). rewrite P1, P2 in F1. rewrite F1. unfold state_at, state_byte.
    by rewrite P1, P2, E3, lookup_empty, E1.
  - eapply (mo_tail _ _ _ F3); [done..|lia].
Qed.

(** C2: A buffered write through an open handle does what a write to a file does. For any
    offset and length, whichever handle of the file holds unflushed data, the write
    replies with the full length, exactly the bytes of the range are replaced, bytes
    between the old end and the offset read as zeroes, the size is the larger of the
    old size and the end of the range, and at most one handle holds unflushed data
    afterwards, whether the data was suppressed as unchanged, buffered or flushed.
    A write that fails leaves the repository as it was. *)
Theorem write_correct mt fh fid offset data kill :
  states_ok mt fid -> (forall st, mt_write_states mt !! fh = Some st -> ws_file_id st = fid) ->
  repo_live (mt_repo mt) -> data <> [] -> Forall is_byte data -> 0 <= offset -> offset + zlen data <= I64_MAX ->
  match write cfg handles mt fh fid offset data kill with
  | (Ok n, mt') =>
      n = zlen data /\ states_ok mt' fid /\ file_len mt' fid = Z.max (file_len mt fid) (offset + zlen data) /\
      (forall pos, 0 <= pos -> file_byte mt' fid pos =
         if decide (offset <= pos < offset + zlen data) then byte_at data (pos - offset)
         else if decide (pos < file_len mt fid) then file_byte mt fid pos else 0)
  | (Err _, mt') => mt_repo mt' = mt_repo mt
  | (Panic, _) => False
  end.
Proof.
  intros Hs Hfh Hlive Hne Hd Ho He. pose proof (write_run mt fh fid offset data kill Hs Hfh Hlive Hne Hd Ho He) as Hw.
  unfold write_post, wrote in Hw. destruct (write cfg handles mt fh fid offset data kill) as [[n|e|] mt']; [|done|done].
  destruct Hw as (-> & W1 & W2 & W3). split; [done|]. split; [done|]. split; [done|]. intros pos Hpos. rewrite W3 by done.
  case_decide; [done|]. case_decide; [done|]. apply file_byte_tail; [done|done|lia].
Qed.

(** C25: A size change through an open handle, with or without unflushed writes of that
    handle: afterwards the file has the requested size, its old bytes below both
    sizes, and zeroes from the old end to the new one; nothing is left to flush. A
    size change that fails changes nothing. *)
Theorem ftruncate_correct mt fh fid n kill :
  states_ok mt fid -> (forall st, mt_write_states mt !! fh = Some st -> ws_file_id st = fid) ->
  (forall fo so, owner fid (mt_write_states mt) = Some (fo, so) -> fo = fh) ->
  repo_live (mt_repo mt) -> 0 <= n <= I64_MAX ->
  match setattr_size_handle cfg handles mt fh fid n kill with
  | (Ok _, mt') =>
      states_ok mt' fid /\ owner fid (mt_write_states mt') = None /\ file_len mt' fid = n /\
      forall pos, 0 <= pos -> file_byte mt' fid pos =
        if decide (pos < Z.min n (file_len mt fid)) then file_byte mt fid pos else 0
  | (Err _, mt') => mt' = mt
  | (Panic, _) => False
  end.
Proof. apply setattr_size_handle_run. Qed.

(** C39: flush, fsync and release of a handle publish its unflushed writes: when they
    succeed the handle holds nothing any more and the file, now as the repository has
    it, is byte for byte what its users saw before; when they fail nothing changes. *)
Theorem flush_handle_publishes mt fh fid :
  states_ok mt fid -> (forall st, mt_write_states mt !! fh = Some st -> ws_file_id st = fid) ->
  repo_live (mt_repo mt) ->
  match flush_write_state_for_handle cfg handles mt fh with
  | (Ok flushed, mt') =>
      states_ok mt' fid /\ flushed = bool_decide (is_Some (mt_write_states mt !! fh)) /\
      mt_write_states mt' !! fh = None /\ (flushed = true -> owner fid (mt_write_states mt') = None) /\
      file_len mt' fid = file_len mt fid /\ forall pos, 0 <= pos -> file_byte mt' fid pos = file_byte mt fid pos
  | (Err _, mt') => mt' = mt
  | (Panic, _) => False
  end.
Proof. apply flush_handle_run. Qed.

(** A truncate by path is undone by the unflushed writes of an open handle: the
    truncate reaches the repository but not the handle's state, and the flush of the
    handle gives the file back the size it had before the truncate, with every
    buffered block. *)
Theorem path_truncate_undone mt fid fh st ofh n kill auth mt1 flushed mt2 :
  states_ok mt fid -> owner fid (mt_write_states mt) = Some (fh, st) -> repo_live (mt_repo mt) ->
  0 <= n <= ws_file_size st ->
  setattr_size_path cfg handles mt ofh fid n kill auth = (Ok tt, mt1) -> repo_live (mt_repo mt1) ->
  flush_write_state_for_handle cfg handles mt1 fh = (Ok flushed, mt2) ->
  repo_size (mt_repo mt1) fid = Some n /\ repo_size (mt_repo mt2) fid = Some (ws_file_size st) /\
  forall k b i, ws_blocks st !! k = Some b -> 0 <= i < bs -> k * bs + i < ws_file_size st ->
    repo_byte (mt_repo mt2) fid bs k i = byte_at b i.
Proof.
  intros Hs Eo Hlive Hn Hpath Hlive1 Hflush. pose proof (owner_Some _ _ _ _ Eo) as [El Eid].
  pose proof (sk_state _ _ Hs fh st El Eid) as [[Sm Sb Ss Si St] T2 T3 T4 T5 T6].
  destruct (setattr_size_path_run mt fid ofh n kill auth mt1 Hs Hlive ltac:(lia) Hpath) as (P1 & P2 & P3 & P4).
  assert (Hs1 : states_ok mt1 fid).
  { split; [done|by exists n; split; [|lia]| |]; rewrite P1; [apply Hs|]. intros fh' st' Hl Hid.
    assert (fh' = fh) as -> by (by eapply (sk_one _ _ Hs)). assert (st' = st) as -> by congruence.
    split; [|done|done|done|done|intros n'; rewrite P3; intros [= <-]; lia]. split; [by rewrite Hid|done|done|done|].
    intros Ht k i Hk Hi Hpos. specialize (St Ht k i Hk Hi Hpos). unfold state_byte in *.
    destruct (ws_blocks st !! k); [done|]. rewrite Hid in *. rewrite P4 by done. by case_decide. }
  pose proof (flush_handle_run mt1 fh fid Hs1 ltac:(rewrite P1; intros st' Hl; congruence) Hlive1) as Hf.
  rewrite Hflush in Hf. destruct Hf as (F1 & -> & _ & Eo2 & F4 & F5).
  rewrite P1, bool_decide_eq_true_2 in Eo2 by (rewrite El; by eexists). specialize (Eo2 eq_refl).
  assert (Eo1 : owner fid (mt_write_states mt1) = Some (fh, st)) by (by rewrite P1).
  unfold file_len, file_byte in F4, F5. rewrite Eo1, Eo2 in F4, F5. split; [done|]. split.
  - destruct (sk_exists _ _ F1) as (m & Hm & _). rewrite Hm in *. cbn in F4. by subst.
  - intros k b i Hb Hi Hpos. destruct (Sb k b Hb) as [Hk _]. destruct (block_pos bs Hbs k i Hi) as [Q1 Q2].
    specialize (F5 (k * bs + i) ltac:(nia)). rewrite Q1, Q2 in F5. rewrite F5. unfold state_at, state_byte. by rewrite Q1, Q2, Hb.
Qed.
End HandlerProofs.
