(* ===== verification/StoreRepo.v ===== *)
(** * The block store implements the repository of the write buffer

    The tables of BlockStore.v with the default transport satisfy the interface
    [BlockRepo] and its laws, so that what WriteBuffer.v proves against the interface
    holds of the modelled store. *)

From stdpp Require Import prelude list numbers gmap sorting strings.
From Stdlib Require Import ZArith Lia.
From S2P Require Import Prelude PersistPlan Errno Crc32 CopyBinary Acl BlockStore StoreSafety ReadCache WriteBuffer FileWrite.

#[local] Open Scope Z_scope.

(** The repository handle: its settings and the database behind it. *)
Record Store : Type := { store_cfg : RepoConfig; store_db : Db }.

#[global] Instance store_repo : BlockRepo Store := {
  repo_load_block r fid k bs := load_block_authoritative (store_db r) fid k bs;
  repo_fetch_range r fid first last bs := fetch_block_range_shared (store_db r) fid first last bs;
  repo_file_size r fid := file_size_authoritative (store_db r) fid;
  repo_persist q r :=
    let '(res, db) := persist_file_blocks (store_cfg r) q (store_db r) in
    (res, {| store_cfg := store_cfg r; store_db := db |})
}.

(** Stored blocks are byte strings. *)
Definition byte_blocks (db : Db) : Prop :=
  forall fid k d, stored_block db fid k = Some d -> Forall is_byte d.

#[global] Instance store_view_inst : RepoView Store := {
  repo_byte r fid bs k i := byte_at (default [] (stored_block (store_db r) fid k)) i;
  repo_size r fid := f_size <$> db_files (store_db r) !! fid;
  repo_sane r :=
    wf_db (store_db r) /\ byte_blocks (store_db r) /\
    persist_block_transport (store_cfg r) = CopyBinaryStaging;
  repo_live r := db_data_object_seq (store_db r) <= I64_MAX
}.

(** ** Transactions that do not panic *)

Definition calm {A} (m : Tx A) : Prop := forall db, m db <> Panic.

Lemma calm_bind {A B} (m : Tx A) (k : A -> Tx B) : calm m -> (forall a, calm (k a)) -> calm (x ← m; k x).
Proof.
  intros Hm Hk db. unfold mbind, tx_bind. specialize (Hm db). destruct (m db) as [[a db']| |]; [apply Hk|done|done].
Qed.

Lemma calm_ret {A} (a : A) : calm (mret a : Tx A).
Proof. done. Qed.
Lemma calm_err {A} e : calm (tx_err e : Tx A).
Proof. done. Qed.
Lemma calm_get : calm tx_get.
Proof. done. Qed.
Lemma calm_update g : calm (tx_update g).
Proof. done. Qed.

Create HintDb calm.
#[export] Hint Resolve calm_ret calm_err calm_get calm_update : calm.

Ltac calm_auto :=
  repeat first
    [ progress auto with calm nocore
    | apply calm_bind; [|intros]
    | match goal with |- calm (match ?x with _ => _ end) => destruct x end ].

Lemma acl_scan_all_calm uid groups gid entries : forall s, acl_scan_all uid groups gid s entries <> Panic.
Proof.
  induction entries as [|e entries IH]; intros s; cbn; [done|].
  assert (He : acl_scan_entry uid groups gid s e <> Panic).
  { destruct s. unfold acl_scan_entry. repeat (case_match; try done). }
  destruct (acl_scan_entry uid groups gid s e); cbn; [apply IH|done|done].
Qed.

Lemma acl_write_access_calm acl uid groups ouid ogid : acl_write_access acl uid groups ouid ogid <> Panic.
Proof.
  unfold acl_write_access, acl_has_permissions. destruct (_ || _); [done|]. destruct (negb _); [done|].
  pose proof (acl_scan_all_calm uid groups ogid (chunks_exact_8 (drop 4 acl)) acl_scan_init) as Hs.
  destruct (acl_scan_all _ _ _ _ _) as [s| |]; cbn; [|done|done]. repeat (case_match; try done).
Qed.

Lemma calm_acl acl uid groups ouid ogid : calm (tx_lift (acl_write_access acl uid groups ouid ogid)).
Proof.
  intros db. unfold tx_lift. pose proof (acl_write_access_calm acl uid groups ouid ogid).
  by destruct (acl_write_access _ _ _ _ _).
Qed.
#[export] Hint Resolve calm_acl : calm.

Lemma calm_checks q : calm (persist_checks q).
Proof.
  unfold persist_checks, check_fence, validate_write_persistence_fence_on_conn,
    reject_unfenced_write_during_active_lease_on_conn, validate_file_write_authorization_on_conn,
    clear_file_privileges_on_conn, sql_update_file, tx_when. calm_auto.
Qed.

Lemma calm_quota : calm lock_payload_quota_on_conn.
Proof. unfold lock_payload_quota_on_conn. calm_auto. Qed.

Lemma calm_refresh quota token : calm (refresh_payload_reservation_on_conn quota token).
Proof. unfold refresh_payload_reservation_on_conn, persisted_and_reserved_payload_bytes_on_conn. calm_auto. Qed.

Lemma calm_enforce quota token : calm (enforce_payload_quota_on_conn quota token).
Proof. unfold enforce_payload_quota_on_conn, persisted_and_reserved_payload_bytes_on_conn. calm_auto. Qed.
#[export] Hint Resolve calm_checks calm_quota calm_refresh calm_enforce : calm.

(** ** The content of one file *)

(** What the bytes and the size of a file depend on. *)
Definition content_view (fid : Z) (db : Db) :=
  (db_data_blocks db, (fun f => (f_size f, f_data_object_id f)) <$> db_files db !! fid).

Lemma content_view_block fid db db' k :
  content_view fid db' = content_view fid db -> stored_block db' fid k = stored_block db fid k.
Proof.
  unfold content_view, stored_block, blocks_of. intros [= Hb Hf]. rewrite Hb.
  destruct (db_files db' !! fid), (db_files db !! fid); cbn in *; simplify_eq; [|done]. cbn. congruence.
Qed.

Lemma content_view_size fid db db' :
  content_view fid db' = content_view fid db -> f_size <$> db_files db' !! fid = f_size <$> db_files db !! fid.
Proof.
  unfold content_view. intros [= _ Hf]. destruct (db_files db' !! fid), (db_files db !! fid); cbn in *; simplify_eq; [|done].
  congruence.
Qed.

Lemma keeps_content_update fid g :
  (forall f, f_size (g f) = f_size f /\ f_data_object_id (g f) = f_data_object_id f) ->
  keeps (content_view fid) (sql_update_file fid g).
Proof.
  intros Hg. apply keeps_update. intros []. unfold content_view. cbn. f_equal. rewrite lookup_alter_eq.
  destruct (_ !! fid) as [f|]; [|done]. cbn. by destruct (Hg f) as [-> ->].
Qed.

Lemma keeps_content_checks q : keeps (content_view (pr_file_id q)) (persist_checks q).
Proof.
  unfold persist_checks. apply keeps_bind; [auto with keeps|intros _].
  apply keeps_bind; [destruct (pr_write_authorization q); [destruct (negb _)|]; auto with keeps|intros _].
  apply keeps_when. unfold clear_file_privileges_on_conn. apply keeps_bind; [auto with keeps|intros db].
  destruct (_ !! _); [|auto with keeps]. destruct (_ <? _); [auto with keeps|].
  apply keeps_bind; [|intros _]; by apply keeps_content_update; intros [].
Qed.

Lemma keeps_content_refresh fid quota token : keeps (content_view fid) (refresh_payload_reservation_on_conn quota token).
Proof. unfold refresh_payload_reservation_on_conn, persisted_and_reserved_payload_bytes_on_conn. keeps_auto. Qed.

(** ** A persist request on the store *)

(** The state in which the rows are written: the checks and the reservation have not
    changed any content. *)
Record rows_state (q : PersistRequest) (db db1 : Db) : Prop := {
  rw_content : content_view (pr_file_id q) db1 = content_view (pr_file_id q) db;
  rw_isolated : isolated (pr_file_id q) db db1;
  rw_seq : db_data_object_seq db1 = db_data_object_seq db
}.

Lemma checks_state q db u db1 : wf_db db -> persist_checks q db = Ok (u, db1) -> rows_state q db db1.
Proof.
  intros Hwf Hc. split; [by eapply keeps_content_checks|by eapply persist_checks_isolates|by eapply keeps_seq_checks].
Qed.

Lemma refresh_state q quota token db db1 u db2 :
  rows_state q db db1 -> refresh_payload_reservation_on_conn quota token db1 = Ok (u, db2) -> rows_state q db db2.
Proof.
  intros [Rc Ri Rs] Hr. pose proof (keeps_refresh_store _ _ _ _ _ Hr) as Hv.
  pose proof (keeps_content_refresh (pr_file_id q) _ _ _ _ _ Hr) as Hc. split; [congruence| |by injection Hv; congruence].
  eapply isolated_trans; [done|]. apply isolated_store_view; [done|apply Ri].
Qed.

(** A request is refused, or its rows are written in such a state. *)
Lemma persist_body_cases cfg q db :
  wf_db db -> (forall db1, rows_state q db db1 -> exists db2, persist_rows cfg q db1 = Ok (tt, db2)) ->
  match persist_body cfg q db with
  | Ok (_, db2) => exists db1, rows_state q db db1 /\ persist_rows cfg q db1 = Ok (tt, db2)
  | Err _ => True
  | Panic => False
  end.
Proof.
  intros Hwf Hrows. rewrite persist_body_split. unfold mbind at 1, tx_bind at 1.
  pose proof (calm_checks q db) as Hcalm. destruct (persist_checks q db) as [[u db1]| |] eqn:Ec; [|done|done].
  pose proof (checks_state q db u db1 Hwf Ec) as Hs1. destruct (pr_capacity_reservation_token q) as [token|].
  - unfold mbind at 1, tx_bind at 1. destruct (lock_payload_quota_on_conn db1) as [[quota db1']| |] eqn:El; [|done|by apply calm_quota in El].
    apply lock_quota_Ok in El as [-> _]. unfold mbind at 1, tx_bind at 1.
    destruct (refresh_payload_reservation_on_conn quota (Some token) db1) as [[u' db3]| |] eqn:Er; [|done|by apply calm_refresh in Er].
    pose proof (refresh_state _ _ _ _ _ _ _ Hs1 Er) as Hs3. destruct (Hrows db3 Hs3) as [db4 Hr].
    unfold mbind, tx_bind. rewrite Hr.
    destruct (enforce_payload_quota_on_conn quota (Some token) db4) as [[u'' db5]| |] eqn:Ee; [|done|by apply calm_enforce in Ee].
    apply (keeps_enforce id) in Ee. cbn in Ee. subst. by exists db3.
  - destruct (Hrows db1 Hs1) as [db4 Hr]. unfold mbind, tx_bind. rewrite Hr.
    destruct (lock_payload_quota_on_conn db4) as [[quota db4']| |] eqn:El; [|done|by apply calm_quota in El].
    apply lock_quota_Ok in El as [-> _].
    destruct (enforce_payload_quota_on_conn quota None db4) as [[u'' db5]| |] eqn:Ee; [|done|by apply calm_enforce in Ee].
    apply (keeps_enforce id) in Ee. cbn in Ee. subst. by exists db1.
Qed.

Lemma block_count_total size bs k :
  0 < bs -> 0 <= size -> 0 <= k -> (block_count_for_length size bs false <=? k) = negb (k * bs <? size).
Proof.
  intros Hbs Hs Hk. pose proof (block_count_lt size bs k Hs Hk) as H. rewrite Z.max_l in H by lia.
  destruct (Z.leb_spec (block_count_for_length size bs false) k), (Z.ltb_spec (k * bs) size); cbn; lia.
Qed.

(** The rows of a flush, written with the default transport. *)
Lemma rows_staging cfg q db f :
  persist_block_transport cfg = CopyBinaryStaging -> persist_shape q -> wf_db db ->
  db_data_object_seq db <= I64_MAX -> db_files db !! pr_file_id q = Some f ->
  let covers := persist_blocks_cover_full_file (pr_file_size q) (pr_block_size q) (pr_total_blocks q) (pr_blocks q) in
  exists db', persist_rows cfg q db = Ok (tt, db') /\ persist_post db (pr_file_id q) f (pr_file_size q) db' /\
    forall k, stored_block db' (pr_file_id q) k =
      match staged_block (pr_block_size q) <$> row_for (pr_blocks q) k with
      | Some v => v
      | None =>
          if covers || (pr_truncate_pending q && (pr_total_blocks q <=? k)) then None
          else stored_block db (pr_file_id q) k
      end.
Proof.
  intros Ht [Hb Hs Htot Hr] Hwf Hq Hf covers. assert (Hmax : I32_MAX < I64_MAX) by done.
  assert (Htotal : pr_total_blocks q <= I64_MAX).
  { rewrite Htot. unfold block_count_for_length. zcase; [done|]. rewrite Z.max_l by lia.
    Z.to_euclidean_division_equations. nia. }
  destruct (persist_staging_blocks cfg (pr_file_id q) (pr_file_size q) (pr_block_size q) (pr_total_blocks q)
    (pr_truncate_pending q) (pr_blocks q) (pr_maintain_copy_crc_table q) db f) as (db' & Hrun & Hpost & Hblk).
  { split; [done|done|lia|done|lia|done|done]. }
  exists db'. unfold persist_rows, persist_file_blocks_rows_on_conn. rewrite Ht. split; [done|]. split; [done|].
  intros k. rewrite Hblk, Z.max_l by lia. done.
Qed.

(** The bytes of the file after the rows. *)
Lemma rows_bytes_law cfg q db db1 db2 :
  persist_block_transport cfg = CopyBinaryStaging -> persist_shape q -> wf_db db ->
  db_data_object_seq db <= I64_MAX -> is_Some (db_files db !! pr_file_id q) -> rows_state q db db1 ->
  persist_rows cfg q db1 = Ok (tt, db2) ->
  isolated (pr_file_id q) db db2 /\ f_size <$> db_files db2 !! pr_file_id q = Some (pr_file_size q) /\
  (byte_blocks db -> byte_blocks db2) /\
  persisted_bytes q (fun k i => byte_at (default [] (stored_block db (pr_file_id q) k)) i)
    (fun k i => byte_at (default [] (stored_block db2 (pr_file_id q) k)) i).
Proof.
  intros Ht Hshape Hwf Hseq [f0 Hf0] [Rc Ri Rs] Hrun.
  assert (exists f, db_files db1 !! pr_file_id q = Some f) as [f Hf].
  { apply content_view_size in Rc. rewrite Hf0 in Rc. destruct (db_files db1 !! pr_file_id q); [by eexists|done]. }
  destruct (rows_staging cfg q db1 f Ht Hshape (iso_wf _ _ _ Ri) ltac:(lia) Hf) as (db' & Hrun' & Hpost & Hblk).
  assert (db' = db2) as -> by congruence. destruct Hshape as [Hb Hs Htot [Hnd Hidx Hbytes]].
  pose proof (persist_post_isolated _ _ _ _ _ Hf (iso_wf _ _ _ Ri) Hpost) as Ri2.
  pose proof (isolated_trans _ _ _ _ Ri Ri2) as Ri3. split; [done|]. split; [|split].
  - destruct (pp_file _ _ _ _ _ Hpost) as (f' & -> & <- & _). by rewrite lookup_insert_eq.
  - intros Hbb fid k d Hd. destruct (decide (fid = pr_file_id q)) as [->|Hne].
    + rewrite Hblk in Hd. destruct (row_for (pr_blocks q) k) as [row|] eqn:Er; cbn in Hd.
      * unfold staged_block in Hd. destruct (is_all_zero_block _); [done|]. injection Hd as <-.
        apply normalize_is_byte. apply row_for_elem in Er as [Hin _]. rewrite Forall_forall in Hbytes. by apply Hbytes.
      * destruct (_ || _); [done|]. rewrite (content_view_block _ _ _ _ Rc) in Hd. by eapply Hbb.
    + rewrite (iso_blocks _ _ _ Ri3) in Hd by done. by eapply Hbb.
  - intros k i Hk Hi. cbn beta. rewrite Hblk. destruct (row_for (pr_blocks q) k) as [row|] eqn:Er; cbn.
    { by apply staged_block_byte. }
    rewrite (content_view_block _ _ _ _ Rc), Htot, block_count_total by lia.
    destruct (Z.ltb_spec (k * pr_block_size q) (pr_file_size q)) as [Hlo|Hhi]; cbn [negb]; rewrite ?andb_false_r, ?andb_true_r, ?orb_false_r.
    + match goal with |- context [if ?c then None else _] => destruct c eqn:Ecov end; [|done].
      destruct (cover_full_row_for _ _ _ _ k (proj1 Hb) Ecov Hk Hlo) as [row Hrow]. congruence.
    + destruct (_ || _) eqn:Eo; [left; apply byte_at_nil|right]. apply orb_false_iff in Eo as [_ ->]. done.
Qed.

Lemma byte_at_normalize_arc d bs i : 0 <= i < bs -> byte_at (normalize_block_arc d bs) i = byte_at d i.
Proof.
  intros Hi. unfold normalize_block_arc. pose proof (zlen_nonneg d).
  rewrite byte_at_app, byte_at_take, byte_at_zeros. zlen_simpl. repeat case_decide; try done; try lia.
  symmetry. apply byte_at_ge. lia.
Qed.

Lemma zlen_normalize_arc d bs : 0 <= bs -> zlen (normalize_block_arc d bs) = bs.
Proof.
  intros. unfold normalize_block_arc, sat_sub. pose proof (zlen_nonneg d). zlen_simpl. lia.
Qed.

#[global] Instance store_repo_ok : BlockRepoOk Store.
Proof.
  split.
  - intros r fid k bs (_ & Hb & _) Hbs Hk. cbn. unfold load_block_authoritative. rewrite Z.max_l by lia.
    destruct (stored_block (store_db r) fid k) as [d|] eqn:E; cbn; [|intros; apply byte_at_nil].
    split; [by apply zlen_normalize; lia|]. split; [by eapply normalize_is_byte, Hb|].
    intros i Hi. rewrite byte_at_normalize. by rewrite decide_True by lia.
  - intros r fid first last bs _ Hbs Hfl. cbn. unfold fetch_block_range_shared.
    destruct (Z.ltb_spec last first); [lia|]. rewrite Z.max_l by lia. split.
    + intros k d (k' & Hk' & Hd)%list_elem_of_omap. destruct (stored_block (store_db r) fid k') as [d'|] eqn:E; [|done].
      cbn in Hd. injection Hd as -> <-. rewrite E. cbn. apply elem_of_range_incl in Hk'.
      split; [done|]. split; [apply zlen_normalize_arc; lia|].
      intros i Hi. by apply byte_at_normalize_arc.
    + intros k i Hk Hn Hi. destruct (stored_block (store_db r) fid k) as [d|] eqn:E; [|apply byte_at_nil].
      exfalso. apply Hn. apply list_elem_of_fmap. exists (k, normalize_block_arc d bs). split; [done|].
      apply list_elem_of_omap. exists k. split; [by apply elem_of_range_incl|]. by rewrite E.
  - done.
  - intros q r (Hwf & Hbb & Ht) Hlive [n Hn] Hshape. cbn in *. unfold persist_file_blocks, transactional.
    assert (Hsome : is_Some (db_files (store_db r) !! pr_file_id q)).
    { destruct (db_files (store_db r) !! pr_file_id q); [by eexists|done]. }
    assert (Hrows : forall db1, rows_state q (store_db r) db1 -> exists db2, persist_rows (store_cfg r) q db1 = Ok (tt, db2)).
    { intros db1 Hs. destruct Hsome as [f0 Hf0]. pose proof (content_view_size _ _ _ (rw_content _ _ _ Hs)) as Hz.
      rewrite Hf0 in Hz. destruct (db_files db1 !! pr_file_id q) as [f|] eqn:Hf; [|done].
      destruct (rows_staging (store_cfg r) q db1 f Ht Hshape (iso_wf _ _ _ (rw_isolated _ _ _ Hs))) as (db' & Hr & _);
        [rewrite (rw_seq _ _ _ Hs); lia|done|by exists db']. }
    pose proof (persist_body_cases (store_cfg r) q (store_db r) Hwf Hrows) as Hcases.
    destruct (persist_body (store_cfg r) q (store_db r)) as [[u db2]| |]; [|by destruct r|done].
    destruct Hcases as (db1 & Hs & Hrun).
    destruct (rows_bytes_law _ _ _ _ _ Ht Hshape Hwf Hlive Hsome Hs Hrun) as (Hiso & Hsize & Hbb2 & Hbytes).
    cbn. split; [split; [apply Hiso|split; [by apply Hbb2|done]]|]. split; [done|]. split; [done|].
    intros fid Hne. rewrite (iso_rows _ _ _ Hiso) by done. split; [done|]. intros _ k i.
    by rewrite (iso_blocks _ _ _ Hiso) by done.
Qed.

(** ** The handlers on a concrete store *)

Definition sample_fuse : FuseConfig := {|
  fz_block_size := 4; fz_settings := sample_settings; fz_write_flush_threshold_bytes := 0;
  fz_copy_dedupe_crc_table := true |}.

(** File 11 is open through handle 1, which owns its write lease. *)
Definition sample_handles : gmap Z FileHandle :=
  {[1 := {| hd_flags := 2; hd_file_id := Some 11; hd_write_fence := Some (11, sample_fence) |}]}.

Definition sample_mount : Mount (R := Store) (M := assoc_map) := {|
  mt_repo := {| store_cfg := sample_cfg; store_db := sample_db |}; mt_recent := ∅;
  mt_cache := ({| gate_cache_epoch := 0; gate_files := ∅ |}, cache_new Lru); mt_write_states := ∅ |}.

Lemma sample_blocks fid k d :
  stored_block sample_db fid k = Some d -> k = 0 /\ d = [1; 2; 3; 4] \/ k = 1 /\ d = [5; 6; 0; 0].
Proof.
  unfold stored_block, blocks_of. cbn [db_files db_data_blocks sample_db].
  destruct (_ !! fid) as [f|]; [|done]. cbn. destruct (decide (f_data_object_id f = 1)) as [->|Hne].
  - rewrite lookup_insert_eq. cbn. rewrite !lookup_insert_Some, lookup_empty. naive_solver.
  - rewrite lookup_insert_ne by done. rewrite lookup_empty. cbn. by rewrite lookup_empty.
Qed.

Lemma sample_sane : repo_sane (mt_repo sample_mount).
Proof.
  split; [apply sample_db_wf|]. split; [|done].
  intros fid k d [[_ ->]|[_ ->]]%sample_blocks; repeat constructor; unfold is_byte; lia.
Qed.

Lemma sample_states_ok : states_ok 4 sample_mount 11.
Proof.
  split.
  - split; [apply sample_sane|intros k d; cbn; by rewrite lookup_empty|].
    intros n k i Hn Hk Hi Hpos. assert (n = 6) as -> by (vm_compute in Hn; congruence).
    change (byte_at (default [] (stored_block sample_db 11 k)) i = 0).
    destruct (stored_block sample_db 11 k) as [d|] eqn:E; [|apply byte_at_nil].
    apply sample_blocks in E as [[-> ->]|[-> ->]]; [lia|].
    assert (i = 2 \/ i = 3) as [-> | ->] by lia; reflexivity.
  - exists 6. split; [reflexivity|unfold I64_MAX; lia].
  - intros fh1 fh2 st1 st2 Hl. cbn in Hl. by rewrite lookup_empty in Hl.
  - intros fh st Hl. cbn in Hl. by rewrite lookup_empty in Hl.
Qed.

Lemma sample_bs : 0 < 4 <= I32_MAX.
Proof. unfold I32_MAX. lia. Qed.

(** Two bytes past the end of file 11: buffered, the gap reads as zeroes. *)
Definition sample_written : Mount (R := Store) (M := assoc_map) :=
  (write sample_fuse sample_handles sample_mount 1 11 9 [7; 8] false).2.

Lemma write_correct_witness :
  (write sample_fuse sample_handles sample_mount 1 11 9 [7; 8] false).1 = Ok 2 /\
  file_len sample_written 11 = 11 /\ file_byte 4 sample_written 11 10 = 8 /\
  file_byte 4 sample_written 11 7 = 0 /\ file_byte 4 sample_written 11 5 = 6.
Proof.
  pose proof (write_correct sample_fuse 4 sample_handles eq_refl sample_bs sample_mount 1 11 9 [7; 8] false
    sample_states_ok ltac:(intros st Hl; cbn in Hl; by rewrite lookup_empty in Hl) ltac:(vm_compute; discriminate)
    ltac:(discriminate) ltac:(repeat constructor; unfold is_byte; lia) ltac:(lia) ltac:(vm_compute; discriminate)) as Hw.
  assert (E : (write sample_fuse sample_handles sample_mount 1 11 9 [7; 8] false).1 = Ok 2) by (vm_compute; reflexivity).
  split; [exact E|]. unfold sample_written.
  destruct (write sample_fuse sample_handles sample_mount 1 11 9 [7; 8] false) as [res mt']. cbn in E. subst res. cbn [snd].
  destruct Hw as (_ & _ & Hl & Hb). split; [rewrite Hl; reflexivity|].
  split; [rewrite Hb by lia; reflexivity|]. split; rewrite Hb by lia; reflexivity.
Defined.

Lemma write_Ok_run (mt : Mount (R := Store) (M := assoc_map)) fh fid offset data n mt' :
  write sample_fuse sample_handles mt fh fid offset data false = (Ok n, mt') ->
  states_ok 4 mt fid -> (forall st, mt_write_states mt !! fh = Some st -> ws_file_id st = fid) ->
  repo_live (mt_repo mt) -> data <> [] -> Forall is_byte data -> 0 <= offset -> offset + zlen data <= I64_MAX ->
  wrote 4 mt' fid offset data (file_len mt fid) (file_byte 4 mt fid).
Proof.
  intros E Hs Hfh Hl Hne Hd Ho He.
  pose proof (write_run sample_fuse 4 sample_handles eq_refl sample_bs mt fh fid offset data false Hs Hfh Hl Hne Hd Ho He) as Hw.
  rewrite E in Hw. apply Hw.
Qed.

Lemma pair_of {A B} (p : A * B) (a : A) : p.1 = a -> p = (a, p.2).
Proof. intros <-. by destruct p. Qed.

Lemma sample_written_ok : wrote 4 sample_written 11 9 [7; 8] 6 (file_byte 4 sample_mount 11).
Proof.
  change 6 with (file_len sample_mount 11). apply (write_Ok_run sample_mount 1 11 9 [7; 8] 2).
  - apply pair_of. vm_compute. reflexivity.
  - apply sample_states_ok.
  - intros st Hl. cbn in Hl. by rewrite lookup_empty in Hl.
  - vm_compute. discriminate.
  - discriminate.
  - repeat constructor; unfold is_byte; lia.
  - lia.
  - vm_compute. discriminate.
Qed.

(** The state of handle 1 after the write. *)
Definition sample_state (mt : Mount (R := Store) (M := assoc_map)) : WriteState :=
  default (new_write_state 11 0 false) (mt_write_states mt !! 1).

Lemma sample_written_state fh st : mt_write_states sample_written !! fh = Some st -> fh = 1 /\ st = sample_state sample_written.
Proof.
  assert (E : mt_write_states sample_written = {[1 := sample_state sample_written]}) by (vm_compute; reflexivity).
  rewrite E. by intros [-> ->]%lookup_singleton_Some.
Qed.

Lemma flush_handle_publishes_witness :
  (flush_write_state_for_handle sample_fuse sample_handles sample_written 1).1 = Ok true /\
  let mt := (flush_write_state_for_handle sample_fuse sample_handles sample_written 1).2 in
  owner 11 (mt_write_states mt) = None /\ file_byte 4 mt 11 10 = 8.
Proof.
  destruct sample_written_ok as (Hs & Hlen & Hb).
  pose proof (flush_handle_publishes sample_fuse 4 sample_handles eq_refl sample_bs sample_written 1 11 Hs
    ltac:(intros st [_ ->]%sample_written_state; vm_compute; reflexivity) ltac:(vm_compute; discriminate)) as Hf.
  assert (E : (flush_write_state_for_handle sample_fuse sample_handles sample_written 1).1 = Ok true) by (vm_compute; reflexivity).
  split; [exact E|]. cbv zeta.
  destruct (flush_write_state_for_handle sample_fuse sample_handles sample_written 1) as [res mt']. cbn in E. subst res. cbn [snd].
  destruct Hf as (_ & _ & _ & Ho & _ & Hb'). split; [by apply Ho|]. rewrite Hb', Hb by lia. reflexivity.
Defined.

Lemma ftruncate_correct_witness :
  (setattr_size_handle sample_fuse sample_handles sample_written 1 11 5 false).1 = Ok tt /\
  let mt := (setattr_size_handle sample_fuse sample_handles sample_written 1 11 5 false).2 in
  file_len mt 11 = 5 /\ file_byte 4 mt 11 4 = 5 /\ file_byte 4 mt 11 5 = 0.
Proof.
  destruct sample_written_ok as (Hs & Hlen & Hb).
  pose proof (ftruncate_correct sample_fuse 4 sample_handles eq_refl sample_bs sample_written 1 11 5 false Hs
    ltac:(intros st [_ ->]%sample_written_state; vm_compute; reflexivity)
    ltac:(intros fo so [[-> _]%sample_written_state _]%owner_Some; reflexivity) ltac:(vm_compute; discriminate)
    ltac:(unfold I64_MAX; lia)) as Hf.
  assert (E : (setattr_size_handle sample_fuse sample_handles sample_written 1 11 5 false).1 = Ok tt) by (vm_compute; reflexivity).
  split; [exact E|]. cbv zeta.
  destruct (setattr_size_handle sample_fuse sample_handles sample_written 1 11 5 false) as [res mt']. cbn in E. subst res. cbn [snd].
  destruct Hf as (_ & _ & Hl & Hb'). rewrite Hlen in Hb'. split; [exact Hl|]. split.
  - rewrite Hb', decide_True, Hb by (vm_compute; intuition discriminate). reflexivity.
  - rewrite Hb', decide_False by (vm_compute; intuition discriminate). reflexivity.
Defined.

(** The root user truncates the file by its path, through a temporary handle 2. *)
Definition sample_handles2 : gmap Z FileHandle :=
  <[2 := {| hd_flags := 2; hd_file_id := Some 11; hd_write_fence := Some (11, sample_fence) |}]> sample_handles.
Definition sample_root : FileWriteAuthorization := {|
  au_actor_uid := 0; au_actor_groups := []; au_expected_inode_seed := "seed"; au_use_posix_acl := false |}.
Definition sample_truncated : Mount (R := Store) (M := assoc_map) :=
  (setattr_size_path sample_fuse sample_handles2 sample_written 2 11 0 false sample_root).2.

Lemma path_truncate_undone_witness :
  repo_size (mt_repo sample_truncated) 11 = Some 0 /\
  let mt := (flush_write_state_for_handle sample_fuse sample_handles2 sample_truncated 1).2 in
  repo_size (mt_repo mt) 11 = Some 11 /\ repo_byte (mt_repo mt) 11 4 2 2 = 8.
Proof.
  destruct sample_written_ok as (Hs & _).
  destruct (path_truncate_undone sample_fuse 4 sample_handles2 eq_refl sample_bs sample_written 11 1
    (sample_state sample_written) 2 0 false sample_root sample_truncated true
    (flush_write_state_for_handle sample_fuse sample_handles2 sample_truncated 1).2) as (H1 & H2 & H3).
  - exact Hs.
  - vm_compute. reflexivity.
  - vm_compute. discriminate.
  - vm_compute. intuition discriminate.
  - apply pair_of. vm_compute. reflexivity.
  - vm_compute. discriminate.
  - apply pair_of. vm_compute. reflexivity.
  - split; [exact H1|]. split; [exact H2|]. apply (H3 2 [0; 7; 8; 0] 2); [vm_compute; reflexivity|lia|reflexivity].
Defined.

Lemma flush_write_state_correct_witness :
  let st := ws_set_fence sample_fence (new_write_state 11 5 true) in
  let res := flush_write_state_with_capacity_reservation sample_fuse sample_mount st None in
  res.1.1 = Ok tt /\ repo_size (mt_repo res.2) 11 = Some 5 /\ repo_byte (mt_repo res.2) 11 4 1 0 = 5 /\
  repo_byte (mt_repo res.2) 11 4 1 1 = 0.
Proof.
  cbv zeta. set (st := ws_set_fence sample_fence (new_write_state 11 5 true)).
  assert (Hok : state_ok 4 sample_mount st) by (split; cbn; try done; apply sample_states_ok).
  pose proof (flush_write_state_correct sample_fuse 4 eq_refl sample_bs sample_mount st None Hok
    ltac:(vm_compute; discriminate) ltac:(by eexists)) as Hf.
  assert (E : (flush_write_state_with_capacity_reservation sample_fuse sample_mount st None).1.1 = Ok tt)
    by (vm_compute; reflexivity).
  split; [exact E|].
  destruct (flush_write_state_with_capacity_reservation sample_fuse sample_mount st None) as [[res st'] mt'].
  cbn in E. subst res. cbn [fst snd]. destruct Hf as (_ & Hs & Hb & _). split; [exact Hs|]. split.
  - refine (eq_trans (Hb 4 _) _); [lia|reflexivity].
  - refine (eq_trans (Hb 5 _) _); [lia|reflexivity].
Defined.

Lemma sample_state_ok : state_ok 4 sample_written (sample_state sample_written).
Proof.
  destruct sample_written_ok as (Hs & _). apply (tb_ok 4 sample_written 11).
  eapply (sk_state 4 sample_written 11 Hs 1); vm_compute; reflexivity.
Qed.

Lemma read_from_write_state_correct_witness :
  read_from_write_state sample_fuse sample_written (sample_state sample_written) 4 7 = Ok [5; 6; 0; 0; 0; 7; 8] /\
  state_at 4 sample_written (sample_state sample_written) 10 = 8.
Proof.
  pose proof (read_from_write_state_correct sample_fuse 4 eq_refl sample_bs sample_written (sample_state sample_written) 4 7
    sample_state_ok ltac:(lia) ltac:(lia)) as Hr. cbv zeta in Hr.
  assert (E : read_from_write_state sample_fuse sample_written (sample_state sample_written) 4 7 = Ok [5; 6; 0; 0; 0; 7; 8])
    by (vm_compute; reflexivity).
  split; [exact E|]. rewrite E in Hr. destruct Hr as [_ Hb]; [vm_compute; discriminate|].
  specialize (Hb 6 ltac:(vm_compute; intuition discriminate)). symmetry. exact Hb.
Defined.

(** A file truncated to two bytes, then written at offset nine: a read of its first
    block. *)
Definition sample_shrunk : Mount (R := Store) (M := assoc_map) :=
  (setattr_size_handle sample_fuse sample_handles sample_mount 1 11 2 false).2.
Definition sample_extended : Mount (R := Store) (M := assoc_map) :=
  (write sample_fuse sample_handles sample_shrunk 1 11 9 [7; 8] false).2.

Lemma short_block_read_panics_witness :
  (setattr_size_handle sample_fuse sample_handles sample_mount 1 11 2 false).1 = Ok tt /\
  (write sample_fuse sample_handles sample_shrunk 1 11 9 [7; 8] false).1 = Ok 2 /\
  read_from_write_state sample_fuse sample_extended (sample_state sample_extended) 0 4 = Panic.
Proof.
  split; [vm_compute; reflexivity|]. split; [vm_compute; reflexivity|].
  apply (short_block_read_panics sample_fuse 4 eq_refl sample_bs sample_extended (sample_state sample_extended) 0 4 [1; 2]);
    vm_compute; intuition (reflexivity || discriminate).
Defined.
