(* ===== verification/StoreHoles.v ===== *)
(** * Punching holes

    Model of [punch_hole_keep_size_with_fence] (src/rust_hotpath/src/pg.rs): whole
    blocks of the range are deleted, the partial blocks at its ends are overlaid with
    zeroes and deleted when nothing but zeroes is left, the size stays. The columns
    content_hash and modification_date of data_objects are not part of the store. *)

From stdpp Require Import prelude list numbers gmap sorting strings.
From Stdlib Require Import ZArith Lia.
From S2P Require Import Prelude PersistPlan Errno Crc32 CopyBinary Acl BlockStore StoreSafety.

#[local] Open Scope Z_scope.

(** [overlay(data PLACING zeroes FROM slice_start + 1 FOR n)], where n bytes of the
    slice are inside the block. *)
Definition overlay_zeros (data : bytes) (slice_start slice_end : Z) : bytes :=
  let n := Z.max (Z.min slice_end (zlen data) - slice_start) 0 in
  take (Z.to_nat slice_start) data ++ zeros n ++ drop (Z.to_nat (slice_start + n)) data.

(** DELETE FROM copy_block_crc, of one block or of a range. *)
Definition delete_crc_blocks (maintain_copy_crc_table : bool) (data_object_id : Z) (gone : Z -> bool) : Tx unit :=
  tx_when maintain_copy_crc_table
    (tx_update (fun db =>
       set_crcs data_object_id (filter (fun e => gone e.1 = false) (crcs_of db data_object_id)) db)).

(** DELETE FROM data_blocks, of one block or of a range. *)
Definition delete_data_blocks (data_object_id : Z) (gone : Z -> bool) : Tx unit :=
  tx_update (fun db =>
    set_blocks data_object_id (filter (fun e => gone e.1 = false) (blocks_of db data_object_id)) db).

Definition zero_partial_block (maintain_copy_crc_table : bool) (data_object_id block_index slice_start slice_end : Z)
    : Tx unit :=
  if slice_end <=? slice_start then mret tt
  else
    _ ← tx_update (fun db =>
          set_blocks data_object_id
            (alter (fun data => if slice_start <? zlen data then overlay_zeros data slice_start slice_end else data)
               block_index (blocks_of db data_object_id)) db);
    _ ← tx_update (fun db =>
          set_blocks data_object_id
            (match blocks_of db data_object_id !! block_index with
             | Some data => if is_all_zero_block data then delete block_index (blocks_of db data_object_id)
                            else blocks_of db data_object_id
             | None => blocks_of db data_object_id
             end) db);
    delete_crc_blocks maintain_copy_crc_table data_object_id (fun k => k =? block_index).

(** The statements on the blocks of the range [offset..punch_end). *)
Definition punch_blocks (maintain_copy_crc_table : bool) (data_object_id block_size offset punch_end : Z) : Tx unit :=
  let first_block := offset / block_size in
  let last_block := sat_sub punch_end 1 / block_size in
  let start_in_first := offset mod block_size in
  let end_in_last := punch_end mod block_size in
  if first_block =? last_block then
    let slice_end := if end_in_last =? 0 then block_size else end_in_last in
    if (start_in_first =? 0) && (slice_end =? block_size) then
      _ ← delete_data_blocks data_object_id (fun k => k =? first_block);
      delete_crc_blocks maintain_copy_crc_table data_object_id (fun k => k =? first_block)
    else zero_partial_block maintain_copy_crc_table data_object_id first_block start_in_first slice_end
  else
    let full_start := if start_in_first =? 0 then first_block else sat_add first_block 1 in
    let full_end_exclusive := if end_in_last =? 0 then sat_add last_block 1 else last_block in
    let full k := (full_start <=? k) && (k <? full_end_exclusive) in
    _ ← tx_when (full_start <? full_end_exclusive)
          (_ ← delete_data_blocks data_object_id full;
           delete_crc_blocks maintain_copy_crc_table data_object_id full);
    _ ← tx_when (negb (start_in_first =? 0))
          (zero_partial_block maintain_copy_crc_table data_object_id first_block start_in_first block_size);
    tx_when (negb (end_in_last =? 0))
      (zero_partial_block maintain_copy_crc_table data_object_id last_block 0 end_in_last).

(** The transaction after its fence, for a range that reaches into the file. *)
Definition punch_inside (cfg : RepoConfig) (file_id block_size offset punch_end file_size : Z)
    (maintain_copy_crc_table : bool) : Tx unit :=
  target ← data_object_write_target_on_conn file_id file_size false maintain_copy_crc_table;
  match target with
  | None => tx_err "missing data object for punch hole"
  | Some target =>
      _ ← punch_blocks maintain_copy_crc_table (dt_data_object_id target) block_size offset punch_end;
      _ ← (finished ← finish_data_object_write_on_conn cfg file_id file_size target;
           if finished : bool then mret tt else bump_file_content_generation_on_conn file_id);
      quota ← lock_payload_quota_on_conn;
      enforce_payload_quota_on_conn quota None
  end.

Definition punch_body (cfg : RepoConfig) (file_id block_size offset requested_end : Z)
    (maintain_copy_crc_table : bool) (write_fence : WritePersistenceFence) : Tx unit :=
  _ ← validate_write_persistence_fence_on_conn file_id write_fence;
  db ← tx_get;
  match db_files db !! file_id with
  | None => tx_err "file not found for punch hole"
  | Some f =>
      let file_size := f_size f in
      if file_size <? 0 then tx_err "invalid file size for punch hole"
      else if file_size <=? offset then mret tt
      else
        let punch_end := Z.min requested_end file_size in
        if punch_end <=? offset then mret tt
        else punch_inside cfg file_id block_size offset punch_end file_size maintain_copy_crc_table
  end.

Definition punch_hole_keep_size_with_fence (cfg : RepoConfig) (file_id block_size offset length : Z)
    (maintain_copy_crc_table : bool) (write_fence : WritePersistenceFence) (db : Db) : outcome string unit * Db :=
  if block_size =? 0 then (Err "punch hole block size must be positive"%string, db)
  else if length =? 0 then (Err "punch hole length must be positive"%string, db)
  else
    match checked_add offset length with
    | None => (Err "punch hole range overflow"%string, db)
    | Some requested_end =>
        transactional (punch_body cfg file_id block_size offset requested_end maintain_copy_crc_table write_fence) db
    end.

(** ** Correctness *)

Definition block_byte (db : Db) (oid k i : Z) : Z := byte_at (default [] (blocks_of db oid !! k)) i.

(** The statements of a punch on object [oid]: the bytes that [hit] names are zero
    afterwards, the others are as before, and no block is new. *)
Record punched (oid : Z) (hit : Z -> Z -> bool) (db db' : Db) : Prop := {
  pu_frame : frame oid db db';
  pu_bytes : forall k i, 0 <= i -> block_byte db' oid k i = if hit k i then 0 else block_byte db oid k i;
  pu_stored : forall k d', blocks_of db' oid !! k = Some d' ->
    exists d, blocks_of db oid !! k = Some d /\ (Forall is_byte d -> Forall is_byte d')
}.

Lemma punched_refl oid hit db : (forall k i, 0 <= i -> hit k i = false) -> punched oid hit db db.
Proof. intros Hh. split; [apply frame_refl| |eauto]. intros k i Hi. by rewrite Hh. Qed.

Lemma punched_trans oid h1 h2 db1 db2 db3 :
  punched oid h1 db1 db2 -> punched oid h2 db2 db3 -> punched oid (fun k i => h1 k i || h2 k i) db1 db3.
Proof.
  intros [F1 B1 S1] [F2 B2 S2]. split; [by eapply frame_trans|..].
  - intros k i Hi. rewrite B2, B1 by done. by destruct (h1 k i), (h2 k i).
  - intros k d3 (d2 & Hd2 & Hb2)%S2. apply S1 in Hd2 as (d1 & Hd1 & Hb1). eauto.
Qed.

Lemma punched_ext oid h h' db db' :
  (forall k i, 0 <= i -> h k i = h' k i) -> punched oid h db db' -> punched oid h' db db'.
Proof. intros Hh [F B S]. split; [done| |done]. intros k i Hi. by rewrite B, Hh. Qed.

(** A change of the blocks of the object. *)
Lemma punched_set_blocks oid (hit : Z -> Z -> bool) (m : gmap Z bytes) db :
  (forall k i, 0 <= i -> byte_at (default [] (m !! k)) i = if hit k i then 0 else block_byte db oid k i) ->
  (forall (k : Z) (d' : bytes), m !! k = Some d' ->
     exists d, blocks_of db oid !! k = Some d /\ (Forall is_byte d -> Forall is_byte d')) ->
  punched oid hit db (set_blocks oid m db).
Proof.
  intros Hb Hs. split; [apply frame_set_blocks|..]; unfold block_byte in *; intros k; rewrite blocks_of_set_blocks, decide_True by done; auto.
Qed.

Lemma delete_crc_run maintain oid gone db :
  exists db', delete_crc_blocks maintain oid gone db = Ok (tt, db') /\ punched oid (fun _ _ => false) db db'.
Proof.
  unfold delete_crc_blocks. destruct maintain; cbn [tx_when]; (eexists; split; [reflexivity|]); [|by apply punched_refl].
  split; [apply frame_set_crcs|intros k i _; unfold block_byte; by rewrite blocks_of_set_crcs|].
  intros k d'. rewrite blocks_of_set_crcs. eauto.
Qed.

Lemma delete_blocks_run oid gone db :
  exists db', delete_data_blocks oid gone db = Ok (tt, db') /\ punched oid (fun k _ => gone k) db db'.
Proof.
  eexists. split; [reflexivity|]. apply punched_set_blocks.
  - intros k i _. unfold block_byte. rewrite map_lookup_filter. destruct (blocks_of db oid !! k) as [d|]; cbn.
    + case_guard as Hg; cbn; [by rewrite Hg|]. rewrite byte_at_nil. by destruct (gone k).
    + rewrite byte_at_nil. by destruct (gone k).
  - intros k d' [Hk _]%map_lookup_filter_Some. eauto.
Qed.

Lemma overlay_zeros_byte d s e i :
  0 <= s < zlen d -> s < e -> 0 <= i ->
  byte_at (overlay_zeros d s e) i = if (s <=? i) && (i <? e) then 0 else byte_at d i.
Proof.
  intros Hs He Hi. unfold overlay_zeros. set (n := Z.max _ 0).
  rewrite !byte_at_app, byte_at_take, byte_at_zeros, zlen_zeros, byte_at_drop by lia.
  replace (zlen (take (Z.to_nat s) d)) with s by (unfold zlen in *; rewrite length_take; lia).
  destruct (Z.leb_spec s i), (Z.ltb_spec i e); cbn [andb]; repeat case_decide; try lia; try done.
  - apply byte_at_ge. lia.
  - f_equal. lia.
Qed.

Lemma overlay_zeros_is_byte d s e : Forall is_byte d -> Forall is_byte (overlay_zeros d s e).
Proof.
  intros Hd. unfold overlay_zeros. rewrite !Forall_app. split_and!; [by apply Forall_take| |by apply Forall_drop].
  unfold zeros. apply Forall_replicate. unfold is_byte. lia.
Qed.

Lemma zero_partial_run maintain oid b s e db :
  0 <= s -> exists db', zero_partial_block maintain oid b s e db = Ok (tt, db')
    /\ punched oid (fun k i => (k =? b) && (s <=? i) && (i <? e)) db db'.
Proof.
  intros Hs. unfold zero_partial_block. destruct (Z.leb_spec e s).
  { exists db. split; [done|]. apply punched_refl. intros k i _. destruct (Z.leb_spec s i), (Z.ltb_spec i e); lia || by destruct (k =? b). }
  unfold mbind, tx_bind, tx_update. cbn beta iota. set (db1 := set_blocks oid (alter _ _ _) db).
  assert (H1 : punched oid (fun k i => (k =? b) && (s <=? i) && (i <? e)) db db1).
  { apply punched_set_blocks.
    - intros k i Hi. unfold block_byte. destruct (Z.eqb_spec k b) as [->|Hne]; cbn [andb].
      + rewrite lookup_alter_eq. destruct (blocks_of db oid !! b) as [d|]; cbn; [|rewrite byte_at_nil; by destruct (_ && _)].
        destruct (Z.ltb_spec s (zlen d)); [by apply overlay_zeros_byte|].
        destruct (_ && _) eqn:E; [|done]. apply andb_true_iff in E as [E _]. apply byte_at_ge. lia.
      + by rewrite lookup_alter_ne by done.
    - intros k d' Hd'. apply lookup_alter_Some in Hd' as [(-> & d & Hd & ->)|[_ Hd']]; [|eauto].
      exists d. split; [done|]. destruct (s <? zlen d); [apply overlay_zeros_is_byte|done]. }
  set (db2 := set_blocks oid _ db1).
  assert (H2 : punched oid (fun _ _ => false) db1 db2).
  { apply punched_set_blocks; unfold block_byte; intros k.
    - intros i _. destruct (blocks_of db1 oid !! b) as [d|] eqn:Ed; [|done].
      destruct (is_all_zero_block d) eqn:Ez; [|done]. destruct (decide (k = b)) as [->|Hne]; [|by rewrite lookup_delete_ne].
      rewrite lookup_delete_eq, Ed. cbn. rewrite byte_at_nil. symmetry. by apply is_all_zero_block_spec.
    - intros d' Hd'. exists d'. split; [|done]. destruct (blocks_of db1 oid !! b) as [d|]; [|done].
      destruct (is_all_zero_block d); [|done]. by apply lookup_delete_Some in Hd' as [_ ?]. }
  destruct (delete_crc_run maintain oid (fun k => k =? b) db2) as (db3 & Hrun & H3). exists db3. split; [done|].
  eapply punched_ext; [|eapply punched_trans; [exact H1|eapply punched_trans; [exact H2|exact H3]]].
  intros k i _. cbn. by destruct (_ && _).
Qed.

(** The bytes of the range, by block and offset. *)
Definition in_range (bs offset end_ k i : Z) : bool := (offset <=? k * bs + i) && (k * bs + i <? end_) && (i <? bs).

(** Positions compare by block, then by offset. *)
Lemma pos_le bs f s k i : 0 <= s < bs -> 0 <= i < bs -> bs * f + s <= k * bs + i <-> f < k \/ (k = f /\ s <= i).
Proof. intros. nia. Qed.

Lemma when_run (c : bool) oid (h : Z -> Z -> bool) (m : Tx unit) db :
  (c = true -> exists db', m db = Ok (tt, db') /\ punched oid h db db') ->
  exists db', tx_when c m db = Ok (tt, db') /\ punched oid (fun k i => c && h k i) db db'.
Proof.
  destruct c; cbn [tx_when andb]; intros H; [by apply H|]. exists db. split; [done|]. by apply punched_refl.
Qed.

Lemma bind_run oid h1 h2 (m1 m2 : Tx unit) db :
  (exists db', m1 db = Ok (tt, db') /\ punched oid h1 db db') ->
  (forall db, exists db', m2 db = Ok (tt, db') /\ punched oid h2 db db') ->
  exists db', (_ ← m1; m2) db = Ok (tt, db') /\ punched oid (fun k i => h1 k i || h2 k i) db db'.
Proof.
  intros (db1 & R1 & P1) H2. destruct (H2 db1) as (db2 & R2 & P2). exists db2. unfold mbind, tx_bind. rewrite R1.
  split; [done|by eapply punched_trans].
Qed.

Lemma delete_range_run maintain oid gone db :
  exists db', (_ ← delete_data_blocks oid gone; delete_crc_blocks maintain oid gone) db = Ok (tt, db')
    /\ punched oid (fun k _ => gone k) db db'.
Proof.
  destruct (bind_run oid _ _ _ _ db (delete_blocks_run oid gone db) (delete_crc_run maintain oid gone)) as (db' & R & P).
  exists db'. split; [done|]. eapply punched_ext; [|exact P]. intros k i _. cbn. apply orb_false_r.
Qed.

(** Equality of comparisons, by linear arithmetic. *)
Ltac bool_lia :=
  apply eq_true_iff_eq;
  rewrite ?orb_true_iff, ?andb_true_iff, ?negb_true_iff, ?Z.ltb_lt, ?Z.leb_le, ?Z.eqb_eq, ?Z.eqb_neq; lia.

(** The object after the statements on the range. *)
Lemma punch_blocks_run maintain oid bs offset end_ db :
  0 < bs -> 0 <= offset < end_ -> end_ <= I64_MAX ->
  exists db' hit, punch_blocks maintain oid bs offset end_ db = Ok (tt, db') /\ punched oid hit db db'
    /\ forall k i, 0 <= i < bs -> hit k i = in_range bs offset end_ k i.
Proof.
  intros Hbs Ho He. assert (Hmax : I64_MAX < U64_MAX) by done. unfold punch_blocks.
  replace (sat_sub end_ 1) with (end_ - 1) by (unfold sat_sub; lia).
  pose proof (Z.div_mod offset bs ltac:(lia)) as D1. pose proof (Z.mod_pos_bound offset bs ltac:(lia)) as M1.
  pose proof (Z.div_mod (end_ - 1) bs ltac:(lia)) as D2. pose proof (Z.mod_pos_bound (end_ - 1) bs ltac:(lia)) as M2.
  assert (Hend : end_ mod bs = if (end_ - 1) mod bs =? bs - 1 then 0 else (end_ - 1) mod bs + 1).
  { destruct (Z.eqb_spec ((end_ - 1) mod bs) (bs - 1)); symmetry; [apply (Z.mod_unique_pos _ _ ((end_ - 1) / bs + 1))|
      apply (Z.mod_unique_pos _ _ ((end_ - 1) / bs))]; lia. }
  rewrite Hend. assert (Hfl : offset / bs <= (end_ - 1) / bs) by (apply Z.div_le_mono; lia).
  assert (H0 : 0 <= offset / bs) by (apply Z.div_pos; lia).
  set (f := offset / bs) in *. set (s := offset mod bs) in *. set (l := (end_ - 1) / bs) in *. set (m := (end_ - 1) mod bs) in *.
  clearbody f s l m. assert (Hlmax : l < U64_MAX) by nia. clear Hend.
  assert (Hin : forall k i, 0 <= i < bs -> in_range bs offset end_ k i =
    ((f <? k) || ((k =? f) && (s <=? i))) && ((k <? l) || ((k =? l) && (i <=? m)))).
  { intros k i Hi. unfold in_range. rewrite D1. replace end_ with (bs * l + m + 1) by lia.
    pose proof (pos_le bs f s k i M1 Hi). pose proof (pos_le bs k i l m Hi M2). bool_lia. }
  clear D1 D2 Ho He. replace (sat_add f 1) with (f + 1) by (unfold sat_add; lia).
  replace (sat_add l 1) with (l + 1) by (unfold sat_add; lia).
  set (e := if m =? bs - 1 then 0 else m + 1).
  assert (He : (e = 0 /\ m = bs - 1) \/ (e = m + 1 /\ e < bs)) by (unfold e; destruct (Z.eqb_spec m (bs - 1)); lia).
  clearbody e. replace (if e =? 0 then bs else e) with (m + 1) by (destruct (Z.eqb_spec e 0); lia).
  destruct (Z.eqb_spec f l) as [<-|Hne].
  - destruct ((s =? 0) && (m + 1 =? bs)) eqn:Ew.
    + apply andb_true_iff in Ew as [Es%Z.eqb_eq Em%Z.eqb_eq].
      destruct (delete_range_run maintain oid (fun k => k =? f) db) as (db' & R & P). exists db'. eexists. split; [exact R|].
      split; [exact P|]. intros k i Hi. rewrite Hin by done. cbn. bool_lia.
    + destruct (zero_partial_run maintain oid f s (m + 1) db ltac:(lia)) as (db' & R & P). exists db'. eexists.
      split; [exact R|]. split; [exact P|]. intros k i Hi. rewrite Hin by done. cbn. bool_lia.
  - set (fs := if s =? 0 then f else f + 1). set (fe := if e =? 0 then l + 1 else l).
    destruct (bind_run oid _ _ _ _ db
      (when_run (fs <? fe) oid _ _ db
         (fun _ => delete_range_run maintain oid (fun k => (fs <=? k) && (k <? fe)) db))
      (fun db => bind_run oid _ _ _ _ db
        (when_run (negb (s =? 0)) oid _ _ db (fun _ => zero_partial_run maintain oid f s bs db ltac:(lia)))
        (fun db => when_run (negb (e =? 0)) oid _ _ db (fun _ => zero_partial_run maintain oid l 0 e db ltac:(lia)))))
      as (db' & R & P).
    exists db'. eexists. split; [exact R|]. split; [exact P|]. intros k i Hi. rewrite Hin by done. cbn beta.
    unfold fs, fe. destruct (Z.eqb_spec s 0), (Z.eqb_spec e 0); cbn [negb andb]; bool_lia.
Qed.

(** What a punch leaves: the size, the bytes of the range as zeroes and every other byte
    and file as they were. *)
Record hole_punched (bs : Z) (fid : Z) (f : FileRow) (offset end_ : Z) (db db' : Db) : Prop := {
  hp_isolated : isolated fid db db';
  hp_file : exists f', db_files db' !! fid = Some f' /\ f_size f' = f_size f;
  hp_bytes : forall k i, 0 <= i < bs ->
    byte_at (default [] (stored_block db' fid k)) i =
      if in_range bs offset end_ k i then 0 else byte_at (default [] (stored_block db fid k)) i;
  hp_stored : forall k d', stored_block db' fid k = Some d' ->
    exists d, stored_block db fid k = Some d /\ (Forall is_byte d -> Forall is_byte d')
}.

Lemma hole_punched_refl bs fid f offset end_ db :
  wf_db db -> db_files db !! fid = Some f -> end_ <= offset -> hole_punched bs fid f offset end_ db db.
Proof.
  intros Hwf Hf He. split; [by apply isolated_refl|by exists f| |eauto].
  intros k i Hi. replace (in_range bs offset end_ k i) with false; [done|]. unfold in_range.
  destruct (Z.leb_spec offset (k * bs + i)), (Z.ltb_spec (k * bs + i) end_); lia || done.
Qed.

Lemma quota_check_keeps db u db' :
  (quota ← lock_payload_quota_on_conn; enforce_payload_quota_on_conn quota None) db = Ok (u, db') -> db' = db.
Proof.
  intros H. apply tx_bind_Ok in H as (q & db1 & H1 & H2). apply (keeps_lock id) in H1. apply (keeps_enforce id) in H2.
  cbn in *. congruence.
Qed.

Lemma quota_check_calm db :
  (quota ← lock_payload_quota_on_conn; enforce_payload_quota_on_conn quota None) db <> Panic.
Proof.
  unfold lock_payload_quota_on_conn, enforce_payload_quota_on_conn, persisted_and_reserved_payload_bytes_on_conn. tx_run.
  destruct (0 <? _); cbn; [|done]. by destruct (_ <? _).
Qed.

Lemma punch_inside_run cfg fid bs offset end_ maintain db f :
  wf_db db -> db_files db !! fid = Some f -> 0 < bs -> 0 <= offset < end_ -> end_ <= f_size f <= I64_MAX ->
  match punch_inside cfg fid bs offset end_ (f_size f) maintain db with
  | Ok (_, db') => hole_punched bs fid f offset end_ db db'
  | Err _ => True
  | Panic => False
  end.
Proof.
  intros Hwf Hf Hbs Ho He. unfold punch_inside.
  destruct (write_target false db fid f (f_size f) maintain Hwf Hf ltac:(lia)) as (t & db1 & Ht & Hp).
  destruct (punch_blocks_run maintain (dt_data_object_id t) bs offset end_ db1 Hbs Ho ltac:(lia)) as (db2 & hit & Hr & P & Hhit).
  destruct (finish_write cfg false maintain db fid f t db1 db2 (f_size f) Hf Hp (pu_frame _ _ _ _ P) ltac:(lia))
    as (db4 & H4 & [Hw4 (f' & Hf4 & Hs & Hg & Hob) Hb4]).
  pose proof Hp as [_ _ _ Hpb Hpot _ _ _ _ _ _].
  assert (Hdone : hole_punched bs fid f offset end_ db db4).
  { assert (Hblocks : forall k, stored_block db4 fid k = blocks_of db2 (dt_data_object_id t) !! k).
    { intros k. unfold stored_block. rewrite Hf4, lookup_insert_eq. cbn. rewrite Hob, Hb4; [done|].
      rewrite <- Hob. apply (wf_file_object _ _ Hw4 fid). by rewrite Hf4, lookup_insert_eq. }
    assert (Hold : forall k, stored_block db fid k = blocks_of db1 (dt_data_object_id t) !! k)
      by (intros k; unfold stored_block; rewrite Hf; cbn; by rewrite Hpb).
    destruct P as [Pf Pb Ps]. split.
    - apply (persist_post_isolated db fid f (f_size f)); [done|done|]. split; [done|by exists f'|]. intros fid' k Hne [g Hg'].
      unfold stored_block. rewrite Hf4, lookup_insert_ne, Hg' by done. cbn. destruct (Hpot fid' g Hne Hg') as [Hog Hbg].
      rewrite Hb4, (frame_blocks_of _ _ _ _ Pf), Hbg by done || (apply (wf_file_object _ _ Hw4 fid'); by rewrite Hf4, lookup_insert_ne). done.
    - exists f'. by rewrite Hf4, lookup_insert_eq.
    - intros k i Hi. rewrite Hblocks, Hold, <- Hhit by done. apply (Pb k i). lia.
    - intros k d'. rewrite Hblocks, Hold. apply Ps. }
  unfold mbind at 1, tx_bind at 1. rewrite Ht. cbn iota. unfold mbind at 1, tx_bind at 1. rewrite Hr.
  unfold mbind at 1, tx_bind at 1. rewrite H4.
  pose proof (quota_check_keeps db4) as Hk. pose proof (quota_check_calm db4) as Hc.
  destruct ((quota ← lock_payload_quota_on_conn; enforce_payload_quota_on_conn quota None) db4) as [[u db5]| |]; [|done|done].
  by rewrite (Hk u db5).
Qed.

Lemma fence_run fid fence db :
  validate_write_persistence_fence_on_conn fid fence db = Ok (tt, db) /\ fence_live db fid fence = true
  \/ exists e, validate_write_persistence_fence_on_conn fid fence db = Err e.
Proof.
  unfold validate_write_persistence_fence_on_conn. destruct (_ || _); [by right; eexists|]. tx_run.
  destruct (fence_live db fid fence); [by left|by right; eexists].
Qed.

Lemma punch_hole_run cfg fid bs offset length maintain fence db f :
  wf_db db -> db_files db !! fid = Some f -> 0 < bs -> 0 <= offset -> 0 < length -> 0 <= f_size f <= I64_MAX ->
  match punch_hole_keep_size_with_fence cfg fid bs offset length maintain fence db with
  | (Ok _, db') =>
      fence_live db fid fence = true /\ offset + length <= U64_MAX
      /\ hole_punched bs fid f offset (Z.min (offset + length) (f_size f)) db db'
  | (Err _, db') => db' = db
  | (Panic, _) => False
  end.
Proof.
  intros Hwf Hf Hbs Ho Hl Hs. unfold punch_hole_keep_size_with_fence.
  destruct (Z.eqb_spec bs 0), (Z.eqb_spec length 0); try lia. unfold checked_add.
  destruct (Z.leb_spec (offset + length) U64_MAX) as [Hmax|]; [|done]. unfold transactional, punch_body.
  destruct (fence_run fid fence db) as [[Hv Hlive]|[e Hv]]; unfold mbind at 1, tx_bind at 1; rewrite Hv; [|done].
  unfold mbind, tx_bind, tx_get. cbn beta iota. rewrite Hf. destruct (Z.ltb_spec (f_size f) 0); [lia|].
  destruct (Z.leb_spec (f_size f) offset).
  { split_and!; try done. apply hole_punched_refl; [done..|lia]. }
  destruct (Z.leb_spec (Z.min (offset + length) (f_size f)) offset); [lia|].
  pose proof (punch_inside_run cfg fid bs offset (Z.min (offset + length) (f_size f)) maintain db f Hwf Hf Hbs
    ltac:(lia) ltac:(lia)) as Hrun.
  by destruct (punch_inside _ _ _ _ _ _ _ _) as [[u db']| |].
Qed.

(** A hole punched into a file reads as zeroes and changes nothing else. Under the
    write lease of its fence the transaction keeps the size of the file, leaves zeroes in
    exactly the bytes of the range that are inside the file and keeps every other byte,
    those of files that share the data object included; any refusal, a stale fence among
    them, leaves the store as it was. *)
Theorem punch_hole_correct cfg fid bs offset length maintain fence db f :
  wf_db db -> db_files db !! fid = Some f -> 0 < bs -> 0 <= offset -> 0 < length -> 0 <= f_size f <= I64_MAX ->
  match punch_hole_keep_size_with_fence cfg fid bs offset length maintain fence db with
  | (Ok _, db') =>
      fence_live db fid fence = true /\ offset + length <= U64_MAX
      /\ hole_punched bs fid f offset (Z.min (offset + length) (f_size f)) db db'
  | (Err _, db') => db' = db
  | (Panic, _) => False
  end.
Proof. apply punch_hole_run. Qed.

(** File 11 of the sample shares its object with file 10: after the punch of the bytes
    3 to 4 only file 11 has zeroes there. *)
Definition sample_hole : outcome string unit * Db :=
  punch_hole_keep_size_with_fence sample_cfg 11 4 3 2 true sample_fence sample_db.

Lemma punch_hole_correct_witness :
  match sample_hole with
  | (Ok _, db') =>
      hole_punched 4 11 (sample_file 1 6) 3 5 sample_db db'
      /\ (stored_byte db' 11 4 <$> [0; 1; 2; 3; 4; 5]) = [1; 2; 3; 0; 0; 6]
      /\ (stored_byte db' 10 4 <$> [0; 1; 2; 3; 4; 5]) = [1; 2; 3; 4; 5; 6]
  | _ => False
  end.
Proof.
  pose proof (punch_hole_correct sample_cfg 11 4 3 2 true sample_fence sample_db (sample_file 1 6) sample_db_wf
    ltac:(reflexivity) ltac:(lia) ltac:(lia) ltac:(lia) ltac:(cbn; unfold I64_MAX; lia)) as H.
  unfold sample_hole. destruct (punch_hole_keep_size_with_fence _ _ _ _ _ _ _ _) as [res db'] eqn:E.
  vm_compute in E. injection E as <- <-. split; [apply H|]. split; vm_compute; reflexivity.
Defined.
