(* ===== verification/FileHoles.v ===== *)
(** * Holes: the lseek and fallocate handlers

    Model of the FUSE callbacks [lseek] and [fallocate] of src/rust_fuse/src/fs.rs on
    the mount of WriteBuffer.v. Both flush every handle of the file first; [fallocate]
    then punches the hole in the repository and drops what the mount remembers of the
    file. The repository is used through the interface [HoleRepo], which the block store
    implements (StoreHoles.v). *)

From stdpp Require Import prelude list numbers gmap sorting strings.
From Stdlib Require Import ZArith Lia.
From S2P Require Import Prelude PersistPlan ReadPlan Errno Crc32 CopyBinary Acl BlockStore StoreSafety ReadCache FileRead WriteBuffer FileWrite StoreRepo StoreHoles.

#[local] Open Scope Z_scope.

(** ** The repository *)

Class HoleRepo (R : Type) : Type := {
  (** [punch_hole_keep_size_with_fence], by file, block size, offset and length. *)
  repo_punch : Z -> Z -> Z -> Z -> bool -> WritePersistenceFence -> R -> outcome string unit * R;
  (** [sparse_seek_blockwise], by file, file size, offset, block size and what to look for. *)
  repo_seek : R -> Z -> Z -> Z -> Z -> bool -> outcome string (option Z);
  (** [file_size]. *)
  repo_read_size : R -> Z -> outcome string (option Z)
}.

(** Constants of the platform (Linux). *)
Definition SEEK_DATA : Z := 3.
Definition SEEK_HOLE : Z := 4.
Definition FALLOC_FL_KEEP_SIZE : Z := 1.
Definition FALLOC_FL_PUNCH_HOLE : Z := 2.
Definition O_ACCMODE : Z := 3.
Definition O_RDONLY : Z := 0.
Definition O_WRONLY : Z := 1.
Definition ENXIO : Z := 6.
Definition EOVERFLOW : Z := 75.

Section Handlers.
Context {R : Type} `{BlockRepo R} `{HoleRepo R} {M : Type} `{LinkedMapOk M} (cfg : FuseConfig).
Context (handles : gmap Z FileHandle) (read_only : bool).

Definition file_id_for_handle_or_errno (fh : Z) : outcome Z Z :=
  match handles !! fh with
  | None => Err EBADF
  | Some handle => match hd_file_id handle with Some file_id => Ok file_id | None => Err ENOENT end
  end.

Definition file_size_for_file_id_or_errno (mt : Mount (R := R) (M := M)) (file_id : Z) : outcome Z Z :=
  match repo_read_size (mt_repo mt) file_id with
  | Ok (Some size) => Ok size
  | Ok None => Err ENOENT
  | Err _ => Err EIO
  | Panic => Panic
  end.

(** The answer of [lseek], when the file has been flushed. *)
Definition lseek_flushed (mt : Mount (R := R) (M := M)) (file_id offset : Z) (seek_data : bool) : outcome Z Z :=
  file_size ← file_size_for_file_id_or_errno mt file_id;
  if file_size <=? offset then Err ENXIO
  else
    match repo_seek (mt_repo mt) file_id file_size offset (fz_block_size cfg) seek_data with
    | Ok (Some result) => if result <=? I64_MAX then Ok result else Err EOVERFLOW
    | Ok None => Err ENXIO
    | Err _ => Err EIO
    | Panic => Panic
    end.

Definition lseek (mt : Mount (R := R) (M := M)) (fh offset whence : Z) : outcome Z Z * Mount :=
  if offset <? 0 then (Err EINVAL, mt)
  else if negb ((whence =? SEEK_DATA) || (whence =? SEEK_HOLE)) then (Err EINVAL, mt)
  else
    match file_id_for_handle_or_errno fh with
    | Err errno => (Err errno, mt)
    | Panic => (Panic, mt)
    | Ok file_id =>
        match flush_pending_write_states_for_file_except cfg mt file_id U64_MAX with
        | (Err errno, mt) => (Err errno, mt)
        | (Panic, mt) => (Panic, mt)
        | (Ok _, mt) => (lseek_flushed mt file_id offset (whence =? SEEK_DATA), mt)
        end
    end.

(** The mount after a change of the file behind its back: nothing of it is remembered. *)
Definition mt_forget_file (file_id : Z) (repo : R) (mt : Mount (R := R) (M := M)) : Mount := {|
  mt_repo := repo; mt_recent := clear_recent_write_blocks_for_file file_id (mt_recent mt);
  mt_cache := clear_read_cache_for_file file_id (mt_cache mt); mt_write_states := mt_write_states mt |}.

(** The hole, when the file has been flushed. *)
Definition punch_flushed (mt : Mount (R := R) (M := M)) (handle : FileHandle) (file_id offset length : Z)
    : outcome Z unit * Mount :=
  match hd_write_fence handle with
  | None => (Err EIO, mt)
  | Some (ownership_file_id, write_fence) =>
      if negb (ownership_file_id =? file_id) then (Err EIO, mt)
      else
        match repo_punch file_id (fz_block_size cfg) offset length (fz_copy_dedupe_crc_table cfg) write_fence (mt_repo mt) with
        | (Ok _, repo) => (Ok tt, mt_forget_file file_id repo mt)
        | (Err err, repo) =>
            (Err (persist_error_errno err),
             {| mt_repo := repo; mt_recent := mt_recent mt; mt_cache := mt_cache mt; mt_write_states := mt_write_states mt |})
        | (Panic, _) => (Panic, mt)
        end
  end.

Definition fallocate (mt : Mount (R := R) (M := M)) (fh offset length mode : Z) : outcome Z unit * Mount :=
  if read_only then (Err EROFS, mt)
  else if negb (mode =? Z.lor FALLOC_FL_PUNCH_HOLE FALLOC_FL_KEEP_SIZE) then (Err EOPNOTSUPP, mt)
  else if length =? 0 then (Err EINVAL, mt)
  else if negb (bool_decide (is_Some (checked_add offset length))) then (Err EFBIG, mt)
  else
    match handles !! fh with
    | None => (Err EBADF, mt)
    | Some handle =>
        if Z.land (hd_flags handle) O_ACCMODE =? O_RDONLY then (Err EBADF, mt)
        else
          match file_id_for_handle_or_errno fh with
          | Err errno => (Err errno, mt)
          | Panic => (Panic, mt)
          | Ok file_id =>
              match flush_pending_write_states_for_file_except cfg mt file_id U64_MAX with
              | (Err errno, mt) => (Err errno, mt)
              | (Panic, mt) => (Panic, mt)
              | (Ok _, mt) => punch_flushed mt handle file_id offset length
              end
          end
    end.
End Handlers.

(** ** What the repository promises *)

(** Which blocks of a file are stored; the others are holes. *)
Class HoleView (R : Type) : Type := { repo_stored : R -> Z -> Z -> Prop }.

(** The position that lseek has to find from [offset] in a file of the given size. *)
Definition seek_found (stored : Z -> Prop) (bs size offset p : Z) (seek_data : bool) : Prop :=
  offset <= p <= size /\
  (if seek_data then p < size /\ stored (p / bs) /\ forall q, offset <= q < p -> ~ stored (q / bs)
   else (p = size \/ ~ stored (p / bs)) /\ forall q, offset <= q < p -> stored (q / bs)).

Class HoleRepoOk (R : Type) `{BlockRepo R} `{RepoView R} `{HoleRepo R} `{HoleView R} : Prop := {
  repo_stored_ok : forall r fid bs k i, ~ repo_stored r fid k -> repo_byte r fid bs k i = 0;
  repo_read_size_ok : forall r fid,
    match repo_read_size r fid with Ok size => size = repo_size r fid | Err _ => True | Panic => False end;
  repo_punch_ok : forall r fid bs offset length maintain fence n,
    repo_sane r -> 0 < bs <= I32_MAX -> 0 <= offset -> 0 < length -> repo_size r fid = Some n -> 0 <= n <= I64_MAX ->
    match repo_punch fid bs offset length maintain fence r with
    | (Ok _, r') =>
        repo_sane r' /\ repo_size r' fid = Some n /\
        (forall k i, 0 <= i < bs -> repo_byte r' fid bs k i =
           if in_range bs offset (Z.min (offset + length) n) k i then 0 else repo_byte r fid bs k i) /\
        (forall fid', fid' <> fid ->
           repo_size r' fid' = repo_size r fid' /\ forall bs k i, repo_byte r' fid' bs k i = repo_byte r fid' bs k i)
    | (Err _, r') => r' = r
    | (Panic, _) => False
    end;
  repo_seek_ok : forall r fid size offset bs seek_data,
    repo_sane r -> is_Some (repo_size r fid) -> 0 < bs -> 0 <= offset ->
    match repo_seek r fid size offset bs seek_data with
    | Ok (Some p) => seek_found (repo_stored r fid) bs size offset p seek_data
    | Ok None => size <= offset \/ (seek_data = true /\ forall q, offset <= q < size -> ~ repo_stored r fid (q / bs))
    | Err _ => True
    | Panic => False
    end
}.

(** ** The block store keeps the promise *)

#[global] Instance store_hole_repo : HoleRepo Store := {
  repo_punch fid bs offset length maintain fence r :=
    let '(res, db) := punch_hole_keep_size_with_fence (store_cfg r) fid bs offset length maintain fence (store_db r) in
    (res, {| store_cfg := store_cfg r; store_db := db |});
  repo_seek r fid size offset bs seek_data := sparse_seek_blockwise (store_db r) fid size offset bs seek_data;
  repo_read_size r fid := file_size_authoritative (store_db r) fid
}.

#[global] Instance store_hole_view : HoleView Store := {
  repo_stored r fid k := is_Some (stored_block (store_db r) fid k)
}.

Lemma punched_byte_blocks bs fid f offset end_ db db' :
  hole_punched bs fid f offset end_ db db' -> byte_blocks db -> byte_blocks db'.
Proof.
  intros [Hi _ _ Hs] Hb fid' k d Hd. destruct (decide (fid' = fid)) as [->|Hne].
  - apply Hs in Hd as (d0 & Hd0 & Hbytes). by eapply Hbytes, Hb.
  - rewrite (iso_blocks _ _ _ Hi) in Hd by done. by eapply Hb.
Qed.

Lemma store_size_row r fid n : repo_size (R := Store) r fid = Some n -> exists f, db_files (store_db r) !! fid = Some f /\ f_size f = n.
Proof. cbn. destruct (db_files (store_db r) !! fid) as [f|]; [|done]. intros [= <-]. by exists f. Qed.

#[global] Instance store_hole_repo_ok : HoleRepoOk Store.
Proof.
  split.
  - intros r fid bs k i Hn. cbn in *. destruct (stored_block (store_db r) fid k); [by destruct Hn|]. apply byte_at_nil.
  - done.
  - intros r fid bs offset length maintain fence n (Hwf & Hbb & Ht) Hbs Ho Hl Hn Hnr.
    destruct (store_size_row r fid n Hn) as (f & Hf & <-). cbn [repo_punch store_hole_repo].
    pose proof (punch_hole_run (store_cfg r) fid bs offset length maintain fence (store_db r) f Hwf Hf ltac:(lia) Ho Hl Hnr) as Hp.
    destruct (punch_hole_keep_size_with_fence _ _ _ _ _ _ _ _) as [[[]|e|] db']; [|by rewrite Hp; destruct r|done].
    destruct Hp as (_ & _ & Hp). pose proof Hp as [Hi (f' & Hf' & Hs) Hb _]. cbn. split_and!.
    + apply Hi.
    + by eapply punched_byte_blocks.
    + done.
    + by rewrite Hf', <- Hs.
    + done.
    + intros fid' Hne. rewrite (iso_rows _ _ _ Hi) by done. split; [done|]. intros _ k i. by rewrite (iso_blocks _ _ _ Hi).
  - intros r fid size offset bs seek_data _ [n Hn] Hbs Ho. destruct (store_size_row r fid n Hn) as (f & Hf & _).
    assert (Hseek : seek_spec (store_db r) fid size offset bs seek_data
      (sparse_seek_blockwise (store_db r) fid size offset bs seek_data))
      by (destruct seek_data; [by eapply seek_data_run|by eapply seek_hole_run]).
    cbn. unfold seek_spec, is_data in Hseek. unfold seek_found.
    destruct (sparse_seek_blockwise _ _ _ _ _ _) as [[p|]|e|]; done.
Qed.

(** ** Correctness *)

Section HandlerProofs.
Context {R : Type} `{BlockRepoOk R} `{!HoleRepo R} `{!HoleView R} `{!HoleRepoOk R} {M : Type} `{LinkedMapOk M}.
Context (cfg : FuseConfig) (bs : Z) (handles : gmap Z FileHandle) (read_only : bool).
Context (Hcfg : fz_block_size cfg = bs) (Hbs : 0 < bs <= I32_MAX).
Implicit Types (mt : Mount (R := R) (M := M)) (st : WriteState).

(** The same file, for its users and for those of every other file. *)
Definition same_file mt (fid : Z) mt' : Prop :=
  states_ok bs mt' fid /\ file_len mt' fid = file_len mt fid
  /\ (forall pos, 0 <= pos -> file_byte bs mt' fid pos = file_byte bs mt fid pos)
  /\ forall fid', fid' <> fid -> repo_size (mt_repo mt') fid' = repo_size (mt_repo mt) fid'
       /\ forall k i, repo_byte (mt_repo mt') fid' bs k i = repo_byte (mt_repo mt) fid' bs k i.

Lemma same_file_refl mt fid : states_ok bs mt fid -> same_file mt fid mt.
Proof. intros Hs. split; [done|]. by split_and!. Qed.

(** The pending states of the file are those of its one owner. *)
Lemma pending_owner mt fid :
  states_ok bs mt fid -> mt_write_states mt !! U64_MAX = None ->
  pending_siblings fid U64_MAX (mt_write_states mt) =
    match owner fid (mt_write_states mt) with Some e => [e] | None => [] end.
Proof.
  intros Hs Hmax. destruct (owner fid (mt_write_states mt)) as [[fo so]|] eqn:Eo.
  - pose proof (owner_Some _ _ _ _ Eo) as [El Eid]. apply list_singleton; [apply NoDup_map_to_list|].
    intros [f x]. rewrite elem_of_pending. split.
    + intros (Hl & _ & Hid & _). assert (f = fo) as -> by (by eapply (sk_one _ _ _ Hs)). congruence.
    + intros [= -> ->]. split; [done|]. split; [intros ->; congruence|]. split; [done|].
      by apply (tb_pending _ _ _ _ (sk_state _ _ _ Hs fo so El Eid)).
  - apply elem_of_nil_inv. intros [f x] (Hl & _ & Hid & _)%elem_of_pending. rewrite owner_None in Eo. by eapply Eo.
Qed.

Lemma flush_pending_run mt fid :
  states_ok bs mt fid -> mt_write_states mt !! U64_MAX = None -> repo_live (mt_repo mt) ->
  match flush_pending_write_states_for_file_except cfg mt fid U64_MAX with
  | (Ok _, mt') => same_file mt fid mt' /\ owner fid (mt_write_states mt') = None
  | (Err _, mt') => mt' = mt
  | (Panic, _) => False
  end.
Proof.
  intros Hs Hmax Hlive. unfold flush_pending_write_states_for_file_except. rewrite pending_owner by done.
  destruct (owner fid (mt_write_states mt)) as [[fo so]|] eqn:Eo; cbn [flush_pending_loop]; [|split; [by apply same_file_refl|done]].
  pose proof (owner_Some _ _ _ _ Eo) as [El Eid].
  pose proof (sk_state _ _ _ Hs fo so El Eid) as [T1 T2 T3 T4 T5 T6]. destruct (sk_exists _ _ _ Hs) as (m & Hm & _).
  unfold flush_write_state. pose proof (flush_run cfg bs Hcfg Hbs mt so None T1 Hlive) as Hf. rewrite Eid, Hm in Hf.
  specialize (Hf ltac:(by eexists)).
  destruct (flush_write_state_with_capacity_reservation cfg mt so None) as [[[[]|e|] st2] mt2]; [|by destruct Hf as [-> _]|done].
  pose proof Hf as [F1 F2 F3 F4 F5 F6]. rewrite F4, flushed_not_pending, F5.
  destruct (flushed_table bs Hbs mt so mt2 st2 (delete fo (mt_write_states mt))) as (G1 & G2 & G3 & G4); [|done|done|].
  { intros fh' st' [Hne Hl]%lookup_delete_Some Hid. apply Hne. eapply (sk_one _ _ _ Hs); [exact El|exact Hl|done|congruence]. }
  rewrite Eid in *. split; [|done]. split; [done|]. split; [rewrite G3; unfold file_len; by rewrite Eo|]. split.
  - intros pos Hpos. rewrite G4 by done. unfold file_byte at 1. rewrite Eo. case_decide; [done|]. symmetry.
    destruct (pos_split bs Hbs pos Hpos) as (P1 & P2 & P3). apply (so_tail _ _ _ T1 T2); [done|done|lia].
  - intros fid' Hne. by destruct (F6 fid' Hne) as (? & ? & _).
Qed.

Lemma same_file_trans mt1 mt2 mt3 fid : same_file mt1 fid mt2 -> same_file mt2 fid mt3 -> same_file mt1 fid mt3.
Proof.
  intros (_ & L1 & B1 & O1) (S2 & L2 & B2 & O2). split; [done|]. split; [congruence|]. split.
  - intros pos Hpos. by rewrite B2, B1.
  - intros fid' Hne. destruct (O1 fid' Hne) as [A1 C1], (O2 fid' Hne) as [A2 C2]. split; [congruence|]. intros k i. by rewrite C2, C1.
Qed.

(** A flushed file is what the repository has. *)
Lemma flushed_repo mt fid :
  states_ok bs mt fid -> owner fid (mt_write_states mt) = None ->
  exists n, repo_size (mt_repo mt) fid = Some n /\ 0 <= n <= I64_MAX /\ file_len mt fid = n
    /\ forall pos, file_byte bs mt fid pos = repo_byte (mt_repo mt) fid bs (pos / bs) (pos mod bs).
Proof.
  intros Hs Eo. destruct (sk_exists _ _ _ Hs) as (n & Hn & Hr). exists n. split_and!; try done; try lia.
  - unfold file_len. by rewrite Eo, Hn.
  - intros pos. unfold file_byte. by rewrite Eo.
Qed.

(** The mount after the repository has changed a flushed file. *)
Lemma forget_states_ok mt fid r n :
  states_ok bs mt fid -> owner fid (mt_write_states mt) = None -> repo_sane r -> repo_size r fid = Some n -> 0 <= n <= I64_MAX ->
  (forall k i, 0 <= k -> 0 <= i < bs -> n <= k * bs + i -> repo_byte r fid bs k i = 0) ->
  let mt' := mt_forget_file fid r mt in
  states_ok bs mt' fid /\ owner fid (mt_write_states mt') = None /\ file_len mt' fid = n
  /\ forall pos, file_byte bs mt' fid pos = repo_byte r fid bs (pos / bs) (pos mod bs).
Proof.
  intros Hs Eo Hsane Hn Hr Htail mt'. assert (Hs' : states_ok bs mt' fid).
  { split; cbn.
    - split; cbn; [done| |by intros n' k i [= <-]%(eq_trans (eq_sym Hn)); apply Htail].
      intros k d [_ Hne]%map_lookup_filter_Some. by destruct Hne.
    - by exists n.
    - apply Hs.
    - intros fh st Hl Hid. rewrite owner_None in Eo. by destruct (Eo fh st). }
  destruct (flushed_repo mt' fid Hs' Eo) as (n' & Hn' & _ & Hl & Hb). cbn in Hn', Hb.
  split_and!; try done. congruence.
Qed.

Definition hole_in mt (fid offset end_ : Z) mt' : Prop :=
  states_ok bs mt' fid /\ file_len mt' fid = file_len mt fid
  /\ (forall pos, 0 <= pos -> file_byte bs mt' fid pos =
        if decide (offset <= pos < end_) then 0 else file_byte bs mt fid pos)
  /\ forall fid', fid' <> fid -> repo_size (mt_repo mt') fid' = repo_size (mt_repo mt) fid'
       /\ forall k i, repo_byte (mt_repo mt') fid' bs k i = repo_byte (mt_repo mt) fid' bs k i.

Lemma punch_flushed_run mt fid h offset length :
  states_ok bs mt fid -> owner fid (mt_write_states mt) = None -> 0 <= offset -> 0 < length ->
  match punch_flushed cfg mt h fid offset length with
  | (Ok _, mt') => hole_in mt fid offset (offset + length) mt' /\ owner fid (mt_write_states mt') = None
  | (Err _, mt') => same_file mt fid mt'
  | (Panic, _) => False
  end.
Proof.
  intros Hs Eo Ho Hl. unfold punch_flushed. destruct (hd_write_fence h) as [[ofid fence]|]; [|by apply same_file_refl].
  destruct (negb _); [by apply same_file_refl|]. destruct (flushed_repo mt fid Hs Eo) as (n & Hn & Hr & Hlen & Hb). rewrite Hcfg.
  pose proof (repo_punch_ok (mt_repo mt) fid bs offset length (fz_copy_dedupe_crc_table cfg) fence n
    (mo_sane _ _ _ (sk_mount _ _ _ Hs)) Hbs Ho Hl Hn Hr) as Hp.
  destruct (repo_punch _ _ _ _ _ _ _) as [[[]|e|] r]; [|subst r; destruct mt; by apply same_file_refl|done].
  destruct Hp as (Hsane & Hn' & Hbytes & Hothers).
  destruct (forget_states_ok mt fid r n Hs Eo Hsane Hn' Hr) as (S' & O' & L' & B').
  { intros k i Hk Hi Hpos. rewrite Hbytes by done. destruct (in_range _ _ _ _ _); [done|].
    by eapply (mo_tail _ _ _ (sk_mount _ _ _ Hs)). }
  split; [|done]. split; [done|]. split; [congruence|]. split; [|intros fid' Hne; destruct (Hothers fid' Hne); eauto].
  intros pos Hpos. destruct (pos_split bs Hbs pos Hpos) as (P1 & P2 & P3). rewrite B', Hbytes, Hb by done.
  unfold in_range. rewrite P3. assert (Hlt : (pos mod bs <? bs) = true) by (apply Z.ltb_lt; lia). rewrite Hlt, andb_true_r.
  destruct (Z.leb_spec offset pos), (Z.ltb_spec pos (Z.min (offset + length) n)); cbn [andb]; case_decide; try lia; try done.
  eapply (mo_tail _ _ _ (sk_mount _ _ _ Hs)); [exact Hn|done|done|lia].
Qed.

(** C27: fallocate punches holes and does nothing else. On a writable mount and handle,
    with PUNCH_HOLE and KEEP_SIZE as the mode, a range that does not overflow and is not
    empty reads as zeroes afterwards, whatever the handles of the file had not flushed
    before; the size, the other bytes and all other files stay, and nothing of the file
    is left to flush. Every refusal leaves the file as its users see it. *)
Theorem fallocate_correct mt fh h fid offset length mode :
  states_ok bs mt fid -> mt_write_states mt !! U64_MAX = None -> repo_live (mt_repo mt) ->
  handles !! fh = Some h -> hd_file_id h = Some fid -> 0 <= offset -> 0 <= length ->
  match fallocate cfg handles read_only mt fh offset length mode with
  | (Ok _, mt') =>
      read_only = false /\ mode = 3 /\ 0 < length /\ offset + length <= U64_MAX
      /\ Z.land (hd_flags h) O_ACCMODE <> O_RDONLY
      /\ hole_in mt fid offset (offset + length) mt' /\ owner fid (mt_write_states mt') = None
  | (Err _, mt') => same_file mt fid mt'
  | (Panic, _) => False
  end.
Proof.
  intros Hs Hmax Hlive Hh Hfid Ho Hl. pose proof (same_file_refl mt fid Hs) as Hsame. unfold fallocate.
  destruct read_only; [done|]. destruct (Z.eqb_spec mode (Z.lor FALLOC_FL_PUNCH_HOLE FALLOC_FL_KEEP_SIZE)) as [Hmode|]; [|done].
  cbn [negb]. destruct (Z.eqb_spec length 0); [done|]. unfold checked_add.
  destruct (Z.leb_spec (offset + length) U64_MAX); [|by rewrite bool_decide_false by (by intros [? ?])].
  rewrite bool_decide_true by (by eexists). cbn [negb]. rewrite Hh. destruct (Z.eqb_spec (Z.land (hd_flags h) O_ACCMODE) O_RDONLY); [done|].
  unfold file_id_for_handle_or_errno. rewrite Hh, Hfid.
  pose proof (flush_pending_run mt fid Hs Hmax Hlive) as Hf.
  destruct (flush_pending_write_states_for_file_except cfg mt fid U64_MAX) as [[[]|e|] mt1]; [|by subst|done].
  destruct Hf as [Hf Eo]. pose proof (punch_flushed_run mt1 fid h offset length ltac:(apply Hf) Eo Ho ltac:(lia)) as Hp.
  destruct (punch_flushed cfg mt1 h fid offset length) as [[[]|e|] mt2]; [|by eapply same_file_trans|done].
  destruct Hp as [(S2 & L2 & B2 & O2) Eo2]. destruct Hf as (S1 & L1 & B1 & O1). split_and!; try done; try lia.
  split; [done|]. split; [congruence|]. split.
  - intros pos Hpos. rewrite B2 by done. case_decide; [done|by apply B1].
  - intros fid' Hne. destruct (O1 fid' Hne) as [A1 C1], (O2 fid' Hne) as [A2 C2]. split; [congruence|]. intros k i. by rewrite C2, C1.
Qed.

End HandlerProofs.

(** ** Instances *)

(** File 11 of the sample mount after the buffered write of bytes 9 and 10: the hole
    from byte 2 to 9, and the data before it. *)
Lemma fallocate_correct_witness :
  let '(res, mt') := fallocate sample_fuse sample_handles false sample_written 1 2 8 3 in
  res = Ok tt /\ hole_in 4 sample_written 11 2 10 mt' /\ file_byte 4 mt' 11 10 = 8.
Proof.
  destruct sample_written_ok as (Hs & Hlen & Hb).
  pose proof (fallocate_correct sample_fuse 4 sample_handles false eq_refl sample_bs sample_written 1
    {| hd_flags := 2; hd_file_id := Some 11; hd_write_fence := Some (11, sample_fence) |} 11 2 8 3 Hs
    ltac:(vm_compute; reflexivity) ltac:(vm_compute; discriminate) ltac:(vm_compute; reflexivity) eq_refl
    ltac:(lia) ltac:(lia)) as Hf.
  destruct (fallocate sample_fuse sample_handles false sample_written 1 2 8 3) as [res mt'] eqn:E.
  assert (Hres : res = Ok tt) by (change ((res, mt').1 = Ok tt); rewrite <- E; vm_compute; reflexivity). subst res.
  destruct Hf as (_ & _ & _ & _ & _ & Hh & _). split; [done|]. split; [exact Hh|].
  destruct Hh as (_ & _ & Hbytes & _). rewrite Hbytes, decide_False, Hb by lia. reflexivity.
Defined.

