(* ===== verification/FileCopy.v ===== *)
(** * Copies between open files: the copy_file_range handler

    Model of the FUSE callback [copy_file_range] of src/rust_fuse/src/fs.rs: the checks of
    the two handles, the adoption of the whole source object by an empty destination, the
    reservation of capacity, the read of the source, the suppression of unchanged blocks
    and the flush of the destination. The repository is used through the interface
    [CopyRepo]; the block store implements it. *)

From stdpp Require Import prelude list numbers gmap sorting strings.
From Stdlib Require Import ZArith Lia.
From S2P Require Import Prelude PersistPlan ReadPlan CopyPlan Errno Crc32 CopyBinary Acl BlockStore StoreSafety ReadCache FileRead WriteBuffer FileWrite StoreRepo StoreHoles FileHoles.

#[local] Open Scope Z_scope.

(** ** Capacity reservations of the store *)

Definition delete_expired_reservations : Tx unit :=
  tx_update (fun db => set_reservations (filter (fun e => db_clock db < e.2.2) (db_reservations db)) db).

(** [request_token]: the token that the call has generated. *)
Definition reserve_body (request_token : string) (reserved_bytes : Z) : Tx (option string) :=
  quota ← lock_payload_quota_on_conn;
  match quota with
  | None => mret None
  | Some quota_bytes =>
      _ ← delete_expired_reservations;
      used ← persisted_and_reserved_payload_bytes_on_conn None;
      if quota_bytes <? sat_add used reserved_bytes then tx_err quota_exceeded
      else
        reserved ← sql_bigint reserved_bytes;
        _ ← tx_update (fun db =>
              set_reservations (<[request_token := (reserved, db_clock db + RESERVATION_TTL)]> (db_reservations db)) db);
        mret (Some request_token)
  end.

Definition reserve_payload_capacity (request_token : string) (reserved_bytes : Z) (db : Db)
    : outcome string (option string) * Db :=
  if reserved_bytes =? 0 then (Ok None, db) else transactional (reserve_body request_token reserved_bytes) db.

Definition release_payload_capacity_reservation (request_token : string) (db : Db) : outcome string unit * Db :=
  transactional (tx_update (fun db => set_reservations (delete request_token (db_reservations db)) db)) db.

(** ** The repository *)

Class CopyRepo (R : Type) : Type := {
  (** [adopt_source_data_object_with_fence], by source and destination. *)
  repo_adopt : Z -> Z -> WritePersistenceFence -> R -> outcome string bool * R;
  (** [reserve_payload_capacity], by the new token and the number of bytes. *)
  repo_reserve : string -> Z -> R -> outcome string (option string) * R;
  (** [release_payload_capacity_reservation]; its error is only logged. *)
  repo_release : string -> R -> outcome string unit * R
}.

(** The reloadable settings of the copy. *)
Record CopyDedupe : Set := { cd_enabled : bool; cd_min_blocks : Z; cd_max_blocks : Z }.

Section Handlers.
Context {R : Type} `{BlockRepo R} `{CopyRepo R} {M : Type} `{LinkedMapOk M} (cfg : FuseConfig) (dedupe : CopyDedupe).
Context (handles : gmap Z FileHandle) (read_only : bool).

Definition copy_dedupe_enabled_for_len (len : Z) : bool :=
  if negb (cd_enabled dedupe) || (len =? 0) then false
  else
    let total_blocks := 1 + (len - 1) / Z.max (fz_block_size cfg) 1 in
    if total_blocks <? Z.max (cd_min_blocks dedupe) 1 then false
    else negb (negb (cd_max_blocks dedupe =? 0) && (cd_max_blocks dedupe <? total_blocks)).

Definition mt_set_repo (repo : R) (mt : Mount (R := R) (M := M)) : Mount := {|
  mt_repo := repo; mt_recent := mt_recent mt; mt_cache := mt_cache mt; mt_write_states := mt_write_states mt |}.

Definition adopt_source_data_object_for_handle (mt : Mount (R := R) (M := M)) (fh_out src_file_id dst_file_id : Z)
    : outcome Z bool * Mount :=
  match (h ← handles !! fh_out; hd_write_fence h) with
  | None => (Err EIO, mt)
  | Some (ownership_file_id, write_fence) =>
      if negb (ownership_file_id =? dst_file_id) then (Err EIO, mt)
      else
        let '(result, repo) := repo_adopt src_file_id dst_file_id write_fence (mt_repo mt) in
        (match result with Ok adopted => Ok adopted | Err _ => Err EIO | Panic => Panic end, mt_set_repo repo mt)
  end.

Definition assemble_or_eio (result : outcome string bytes) : outcome Z bytes :=
  match result with Ok data => Ok data | Err _ => Err EIO | Panic => Panic end.

Definition read_copy_destination_slice (mt : Mount (R := R) (M := M)) (dst_file_id : Z) (state : option WriteState)
    (dst_first_block dst_last_block dst_offset size current_size : Z) : outcome Z bytes :=
  if size =? 0 then Ok []
  else
    current ←
      match state with
      | Some st => read_from_write_state cfg mt st dst_offset size
      | None =>
          if current_size <=? dst_offset then Ok []
          else
            assemble_or_eio (assemble_file_slice_for_update cfg mt dst_file_id dst_first_block dst_last_block dst_offset
                               (Z.min (sat_add dst_offset size) current_size))
      end;
    Ok (if zlen current <? size then vec_resize current size else current).

(** The loop over the runs of changed blocks. *)
Fixpoint write_runs (mt : Mount (R := R) (M := M)) (st : WriteState) (runs : list (Z * bytes))
    : outcome Z unit * WriteState * Mount :=
  match runs with
  | [] => (Ok tt, st, mt)
  | (run_start, run_payload) :: runs =>
      match update_write_buffer cfg mt st run_start run_payload with
      | (Err errno, st, mt) => (Err errno, st, mt)
      | (Panic, st, mt) => (Panic, st, mt)
      | (Ok _, st, mt) => write_runs mt (ws_add_buffered (zlen run_payload) st) runs
      end
  end.

(** The flush of the destination; its state stays in the table. *)
Definition flush_copy (mt : Mount (R := R) (M := M)) (fh_out : Z) (st : WriteState) (token : option string)
    : outcome Z unit * Mount :=
  match flush_write_state_with_capacity_reservation cfg mt st token with
  | (Err errno, _, mt) => (Err errno, mt)
  | (Panic, _, mt) => (Panic, mt)
  | (Ok _, st, mt) => (Ok tt, mt_set_states (<[fh_out := st]> (mt_write_states mt)) mt)
  end.

(** The copy with suppression of unchanged blocks. *)
Definition copy_changed (mt : Mount (R := R) (M := M)) (fh_out dst_file_id : Z) (had_dst_state : bool) (st : WriteState)
    (bounds : CopyRangeBounds) (data : bytes) (token : option string) : outcome Z unit * Mount :=
  let current_size := ws_file_size st in
  let target_end := sat_add (crb_dst_offset bounds) (crb_copy_len bounds) in
  let compare_state :=
    if had_dst_state then Some (if current_size <? target_end then ws_set_size target_end st else st) else None in
  match read_copy_destination_slice mt dst_file_id compare_state (crb_dst_first_block bounds) (crb_dst_last_block bounds)
          (crb_dst_offset bounds) (crb_copy_len bounds) current_size with
  | Err _ => (Err EIO, mt)
  | Panic => (Panic, mt)
  | Ok current =>
      match pack_copy_skip_unchanged_runs (crb_dst_offset bounds) (fz_block_size cfg) data current with
      | Ok [] =>
          if current_size <? target_end then flush_copy mt fh_out (ws_set_size target_end st) token else (Ok tt, mt)
      | Ok runs =>
          match write_runs mt (if current_size <? target_end then ws_set_size target_end st else st) runs with
          | (Err errno, _, mt) => (Err errno, mt)
          | (Panic, _, mt) => (Panic, mt)
          | (Ok _, st, mt) => flush_copy mt fh_out st token
          end
      | _ => (Panic, mt)
      end
  end.

(** The copy under a reservation. *)
Definition copy_reserved (mt : Mount (R := R) (M := M)) (fh_out src_file_id dst_file_id : Z)
    (src_state dst_state : option WriteState) (dst_size : Z) (bounds : CopyRangeBounds) (token : option string)
    : outcome Z unit * Mount :=
  match
    match src_state with
    | Some st => read_from_write_state cfg mt st (crb_src_offset bounds) (crb_copy_len bounds)
    | None => assemble_or_eio (assemble_file_slice_for_update cfg mt src_file_id (crb_src_first_block bounds)
                                 (crb_src_last_block bounds) (crb_src_offset bounds) (crb_src_end_offset bounds))
    end
  with
  | Err errno => (Err errno, mt)
  | Panic => (Panic, mt)
  | Ok data =>
      let st := ws_for_write dst_file_id false (default (new_write_state dst_file_id dst_size false) dst_state) in
      match attach_write_persistence_fence_for_handle handles fh_out st with
      | Err errno => (Err errno, mt)
      | Panic => (Panic, mt)
      | Ok st =>
          if copy_dedupe_enabled_for_len (crb_copy_len bounds) && (crb_dst_offset bounds <? ws_file_size st)
          then copy_changed mt fh_out dst_file_id (bool_decide (is_Some dst_state)) st bounds data token
          else
            match update_write_buffer cfg mt st (crb_dst_offset bounds) data with
            | (Err errno, _, mt) => (Err errno, mt)
            | (Panic, _, mt) => (Panic, mt)
            | (Ok _, st, mt) => flush_copy mt fh_out (ws_add_buffered (zlen data) st) token
            end
      end
  end.

(** The end of the handler: the reservation is released when it goes out of scope. *)
Definition copy_with_reservation (mt : Mount (R := R) (M := M)) (request_token : string) (fh_out src_file_id dst_file_id : Z)
    (src_state dst_state : option WriteState) (dst_size : Z) (bounds : CopyRangeBounds) : outcome Z unit * Mount :=
  let target_file_size := Z.max dst_size (crb_dst_end_offset bounds) in
  let block_size := Z.max (fz_block_size cfg) 1 in
  let reservation_bytes :=
    sat_mul (sat_add target_file_size (sat_sub (fz_block_size cfg) 1) / block_size) block_size in
  match repo_reserve request_token reservation_bytes (mt_repo mt) with
  | (Err err, repo) => (Err (persist_error_errno err), mt_set_repo repo mt)
  | (Panic, repo) => (Panic, mt_set_repo repo mt)
  | (Ok token, repo) =>
      let '(result, mt) :=
        copy_reserved (mt_set_repo repo mt) fh_out src_file_id dst_file_id src_state dst_state dst_size bounds token in
      (result,
       match token with
       | Some token => mt_set_repo (repo_release token (mt_repo mt)).2 mt
       | None => mt
       end)
  end.

(** A size from the state of a handle or from the repository. *)
Definition size_for_copy (mt : Mount (R := R) (M := M)) (state : option WriteState) (file_id : Z) : outcome Z Z :=
  match state with
  | Some st => Ok (ws_file_size st)
  | None => file_size_for_update_file_id_or_errno mt file_id
  end.

(** After the handles have been checked. *)
Definition copy_files (mt : Mount (R := R) (M := M)) (request_token : string) (fh_in src_file_id offset_in : Z)
    (fh_out dst_file_id offset_out len : Z) : outcome Z Z * Mount :=
  let src_state := mt_write_states mt !! fh_in in
  let dst_state := mt_write_states mt !! fh_out in
  match (dst_size ← size_for_copy mt dst_state dst_file_id; src_size ← size_for_copy mt src_state src_file_id;
         Ok (dst_size, src_size)) with
  | Err errno => (Err errno, mt)
  | Panic => (Panic, mt)
  | Ok (dst_size, src_size) =>
      match copy_range_bounds (fz_block_size cfg) offset_in offset_out len src_size with
      | None => (Ok 0, mt)
      | Some bounds =>
          let pending state := match state with Some st => write_state_has_pending_changes st | None => false end in
          let answer := crb_copy_len bounds mod 2 ^ 32 in
          let copy mt :=
            let '(result, mt) :=
              copy_with_reservation mt request_token fh_out src_file_id dst_file_id src_state dst_state dst_size bounds in
            (_ ← result; Ok answer, mt) in
          if can_adopt_whole_object bounds src_size dst_size (pending src_state) (pending dst_state) then
            match adopt_source_data_object_for_handle mt fh_out src_file_id dst_file_id with
            | (Ok true, mt) =>
                let mt := match dst_state with
                          | Some st => mt_set_states (<[fh_out := ws_set_size src_size st]> (mt_write_states mt)) mt
                          | None => mt
                          end in
                (Ok answer, mt_forget_file dst_file_id (mt_repo mt) mt)
            | (Ok false, mt) => copy mt
            | (Err _, mt) => (Err EIO, mt)
            | (Panic, mt) => (Panic, mt)
            end
          else copy mt
      end
  end.

Definition copy_file_range (mt : Mount (R := R) (M := M)) (request_token : string) (fh_in offset_in fh_out offset_out len : Z)
    : outcome Z Z * Mount :=
  if read_only then (Err EROFS, mt)
  else
    match handles !! fh_in, handles !! fh_out with
    | Some src_handle, Some dst_handle =>
        if (Z.land (hd_flags src_handle) O_ACCMODE =? O_WRONLY) || (Z.land (hd_flags dst_handle) O_ACCMODE =? O_RDONLY)
        then (Err EBADF, mt)
        else if len =? 0 then (Ok 0, mt)
        else
          match file_id_for_handle_or_errno handles fh_in, file_id_for_handle_or_errno handles fh_out with
          | Ok src_file_id, Ok dst_file_id =>
              copy_files mt request_token fh_in src_file_id offset_in fh_out dst_file_id offset_out len
          | Ok _, Err errno => (Err errno, mt)
          | Err errno, _ => (Err errno, mt)
          | _, _ => (Panic, mt)
          end
    | _, _ => (Err EBADF, mt)
    end.
End Handlers.
