(* ===== verification/CopySafety.v ===== *)
(** * copy_file_range copies

    Correctness of the handler of FileCopy.v: whichever way it takes, adoption of the
    whole object, plain copy or suppression of unchanged blocks, the destination has the
    bytes that the source handle sees, and nothing else changes. *)

From stdpp Require Import prelude list numbers gmap sorting strings.
From Stdlib Require Import ZArith Lia.
From S2P Require Import Prelude PersistPlan ReadPlan CopyPlan Errno Crc32 CopyBinary Acl BlockStore StoreSafety ReadCache FileRead WriteBuffer FileWrite StoreRepo StoreHoles FileHoles FileCopy.

#[local] Open Scope Z_scope.

(** ** What the repository promises *)

Definition same_content {R} `{RepoView R} (r r' : R) : Prop :=
  (forall fid, repo_size r' fid = repo_size r fid) /\
  forall fid bs k i, repo_byte r' fid bs k i = repo_byte r fid bs k i.

Lemma same_content_refl {R} `{RepoView R} (r : R) : same_content r r.
Proof. done. Qed.

Lemma same_content_trans {R} `{RepoView R} (r1 r2 r3 : R) : same_content r1 r2 -> same_content r2 r3 -> same_content r1 r3.
Proof. intros [A1 B1] [A2 B2]. split; intros; by rewrite ?A2, ?B2. Qed.

Class CopyRepoOk (R : Type) `{BlockRepo R} `{RepoView R} `{CopyRepo R} : Prop := {
  repo_bytes_ok : forall r fid bs k i, repo_sane r -> is_byte (repo_byte r fid bs k i);
  repo_adopt_ok : forall r src dst fence,
    repo_sane r ->
    match repo_adopt src dst fence r with
    | (Ok true, r') =>
        repo_sane r' /\ repo_size r' dst = repo_size r src /\
        (forall bs k i, repo_byte r' dst bs k i = repo_byte r src bs k i) /\
        (forall fid, fid <> dst ->
           repo_size r' fid = repo_size r fid /\ forall bs k i, repo_byte r' fid bs k i = repo_byte r fid bs k i)
    | (Ok false, r') | (Err _, r') => r' = r
    | (Panic, _) => False
    end;
  repo_reserve_ok : forall r token n,
    repo_sane r ->
    match repo_reserve token n r with
    | (Panic, _) => False
    | (_, r') => repo_sane r' /\ same_content r r' /\ (repo_live r -> repo_live r')
    end;
  repo_release_ok : forall r token,
    repo_sane r -> repo_sane (repo_release token r).2 /\ same_content r (repo_release token r).2
}.

(** ** The block store keeps the promise *)

#[global] Instance store_copy_repo : CopyRepo Store := {
  repo_adopt src dst fence r :=
    let '(res, db) := adopt_source_data_object_optional_fence src dst (Some fence) (store_db r) in
    (res, {| store_cfg := store_cfg r; store_db := db |});
  repo_reserve token n r :=
    let '(res, db) := reserve_payload_capacity token n (store_db r) in
    (res, {| store_cfg := store_cfg r; store_db := db |});
  repo_release token r :=
    let '(res, db) := release_payload_capacity_reservation token (store_db r) in
    (res, {| store_cfg := store_cfg r; store_db := db |})
}.

Lemma byte_at_is_byte l i : Forall is_byte l -> is_byte (byte_at l i).
Proof.
  intros Hl. unfold byte_at. zcase; [unfold is_byte; lia|]. destruct (l !! Z.to_nat i) as [b|] eqn:E; cbn.
  - by eapply Forall_lookup_1 in Hl.
  - unfold is_byte. lia.
Qed.

Lemma store_view_stored db db' fid k : store_view db' = store_view db -> stored_block db' fid k = stored_block db fid k.
Proof. unfold store_view, stored_block, blocks_of. by intros [= -> _ -> _]. Qed.

(** A change of the reservations only. *)
Lemma store_view_same cfg db db' :
  store_view db' = store_view db -> let r := {| store_cfg := cfg; store_db := db |} in
  let r' := {| store_cfg := cfg; store_db := db' |} in
  repo_sane r -> repo_sane r' /\ same_content r r' /\ (repo_live r -> repo_live r').
Proof.
  intros Hv r r' (Hwf & Hb & Ht). cbn in *. split_and!.
  - by eapply wf_store_view.
  - intros fid k d. rewrite (store_view_stored db db') by done. apply Hb.
  - done.
  - split; [|intros; cbn; by rewrite (store_view_stored db db')].
    intros fid. cbn. unfold store_view in Hv. by injection Hv as -> _ _ _ _.
  - cbn. unfold store_view in Hv. by injection Hv as _ _ _ _ ->.
Qed.

Lemma keeps_reserve token n : keeps store_view (reserve_body token n).
Proof.
  unfold reserve_body, lock_payload_quota_on_conn, delete_expired_reservations,
    persisted_and_reserved_payload_bytes_on_conn, sql_bigint.
  keeps_auto.
Qed.

Lemma reserve_view token n db : store_view (reserve_payload_capacity token n db).2 = store_view db.
Proof.
  unfold reserve_payload_capacity. destruct (n =? 0); [done|]. unfold transactional.
  pose proof (keeps_reserve token n db) as Hk. destruct (reserve_body token n db) as [[a db']| |]; [by apply (Hk a)|done|done].
Qed.

Lemma reserve_calm token n db : (reserve_payload_capacity token n db).1 <> Panic.
Proof.
  unfold reserve_payload_capacity. destruct (n =? 0); [done|].
  unfold transactional, reserve_body, lock_payload_quota_on_conn, delete_expired_reservations, persisted_and_reserved_payload_bytes_on_conn,
    sql_bigint. tx_run.
  destruct (0 <? _); cbn; [|done]. destruct (_ <? _); [done|]. by destruct (_ <=? _).
Qed.

#[global] Instance store_copy_repo_ok : CopyRepoOk Store.
Proof.
  split.
  - intros r fid bs k i (_ & Hb & _). cbn. apply byte_at_is_byte.
    destruct (stored_block (store_db r) fid k) as [d|] eqn:E; cbn; [by eapply Hb|constructor].
  - intros r src dst fence (Hwf & Hb & Ht). cbn [repo_adopt store_copy_repo].
    pose proof (adopt_run src dst (Some fence) (store_db r) Hwf) as Ha.
    destruct (adopt_source_data_object_optional_fence src dst (Some fence) (store_db r)) as [[[]|e|] db'].
    + destruct Ha as [[Aw As Ab Ar Ao] _]. cbn. split_and!.
      * done.
      * intros fid k d. destruct (decide (fid = dst)) as [->|Hne]; [rewrite Ab|rewrite Ao by done]; apply Hb.
      * done.
      * done.
      * intros _ k i. by rewrite Ab.
      * intros fid Hne. rewrite Ar by done. split; [done|]. intros _ k i. by rewrite Ao.
    + subst. by destruct r.
    + destruct Ha as [-> _]. by destruct r.
    + done.
  - intros [cfg db] token n Hs. pose proof (reserve_view token n db) as Hv. pose proof (reserve_calm token n db) as Hc.
    cbn [repo_reserve store_copy_repo store_db store_cfg]. destruct (reserve_payload_capacity token n db) as [res db'].
    cbn in Hv, Hc. pose proof (store_view_same cfg db db' Hv Hs). by destruct res.
  - intros [cfg db] token Hs. cbn [repo_release store_copy_repo store_db store_cfg].
    assert (Hv : store_view (release_payload_capacity_reservation token db).2 = store_view db)
      by (unfold release_payload_capacity_reservation, transactional, tx_update; by destruct db).
    destruct (release_payload_capacity_reservation token db) as [res db'].
    destruct (store_view_same cfg db db' Hv Hs) as (? & ? & _). done.
Qed.

(** ** Correctness *)

Section CopyProofs.
Context {R : Type} `{BlockRepoOk R} `{!CopyRepo R} `{!CopyRepoOk R} {M : Type} `{LinkedMapOk M}.
Context (cfg : FuseConfig) (dedupe : CopyDedupe) (bs : Z) (handles : gmap Z FileHandle) (read_only : bool).
Context (Hcfg : fz_block_size cfg = bs) (Hbs : 0 < bs <= I32_MAX).
Implicit Types (mt : Mount (R := R) (M := M)) (st : WriteState).

(** The file as one handle sees it: through its unflushed writes, or as the repository
    has it. *)
Definition view_len mt (fh fid : Z) : Z :=
  match mt_write_states mt !! fh with
  | Some st => ws_file_size st
  | None => default 0 (repo_size (mt_repo mt) fid)
  end.

Definition view_byte mt (fh fid pos : Z) : Z :=
  match mt_write_states mt !! fh with
  | Some st => state_at bs mt st pos
  | None => repo_byte (mt_repo mt) fid bs (pos / bs) (pos mod bs)
  end.

(** A state that a copy can work on. *)
Record copy_state mt (fid : Z) st : Prop := {
  cs_ok : state_ok bs mt st;
  cs_id : ws_file_id st = fid;
  cs_truncate : ws_truncate_pending st = false;
  cs_load : ws_load_error st = false
}.

(** A handle that a copy can work on: its file exists, and its state, when it has
    nothing to flush, knows the size of the file. *)
Record handle_ok mt (fh fid : Z) : Prop := {
  ho_mount : mount_ok bs mt fid;
  ho_exists : exists n, repo_size (mt_repo mt) fid = Some n /\ 0 <= n <= I64_MAX;
  ho_state : forall st, mt_write_states mt !! fh = Some st ->
    copy_state mt fid st /\
    (write_state_has_pending_changes st = false -> repo_size (mt_repo mt) fid = Some (ws_file_size st))
}.

(** No block that the mount remembers of the file is shorter than a block. *)
Record blocks_full mt (fh fid : Z) : Prop := {
  bf_state : forall st k b, mt_write_states mt !! fh = Some st -> ws_blocks st !! k = Some b -> zlen b = bs;
  bf_recent : forall k d, mt_recent mt !! (fid, k) = Some d -> zlen d = bs
}.

(** *** Reading *)

Lemma load_full mt st k d :
  state_ok bs mt st -> (forall k b, ws_blocks st !! k = Some b -> zlen b = bs) ->
  (forall k d, mt_recent mt !! (ws_file_id st, k) = Some d -> zlen d = bs) -> 0 <= k ->
  load_write_block cfg mt st k = Ok d -> zlen d = bs.
Proof.
  intros Hst Hb Hr Hk. unfold load_write_block. destruct (ws_blocks st !! k) as [b|] eqn:E; [intros [= <-]; by eapply Hb|].
  destruct (recent_write_block _ _ _ _) as [b|] eqn:Er.
  - intros [= <-]. unfold recent_write_block in Er. destruct (_ =? 0); [done|]. destruct (_ =? 0); [done|]. by eapply Hr.
  - rewrite Hcfg. unfold load_write_block_from_repo.
    pose proof (repo_load_ok (mt_repo mt) (ws_file_id st) k bs (mo_sane _ _ _ (so_mount _ _ _ Hst)) Hbs Hk) as Hl.
    destruct (repo_load_block _ _ _ _) as [[b|]|e|]; [intros [= <-]; apply Hl|intros [= <-]; zlen_simpl; lia|done|done].
Qed.

Lemma state_at_is_byte mt st pos : state_ok bs mt st -> is_byte (state_at bs mt st pos).
Proof.
  intros Hst. unfold state_at, state_byte. destruct (ws_blocks st !! (pos / bs)) as [b|] eqn:E.
  - apply byte_at_is_byte. by apply (so_blocks _ _ _ Hst) in E as [_ [_ ?]].
  - apply repo_bytes_ok, Hst.
Qed.

Lemma bytes_by_position (l : bytes) (f : Z -> Z) :
  (forall i, 0 <= i < zlen l -> byte_at l i = f i) -> (forall i, is_byte (f i)) -> Forall is_byte l.
Proof.
  intros Hl Hf. apply Forall_forall. intros x [i Hi]%list_elem_of_lookup_1.
  assert (Hlt := lookup_lt_Some _ _ _ Hi). specialize (Hl (Z.of_nat i) ltac:(unfold zlen; lia)).
  rewrite byte_at_nonneg, Nat2Z.id, Hi in Hl by lia. cbn in Hl. rewrite Hl. apply Hf.
Qed.

(** What a read for a copy answers: the bytes [offset..end_) of a file with bytes [f]. *)
Definition read_bytes (offset end_ : Z) (f : Z -> Z) (res : outcome Z bytes) : Prop :=
  match res with
  | Ok data => zlen data = end_ - offset /\ Forall is_byte data /\
      forall i, 0 <= i < zlen data -> byte_at data i = f (offset + i)
  | Err _ => True
  | Panic => False
  end.

Lemma read_state_run mt st offset size :
  state_ok bs mt st -> (forall k b, ws_blocks st !! k = Some b -> zlen b = bs) ->
  (forall k d, mt_recent mt !! (ws_file_id st, k) = Some d -> zlen d = bs) ->
  0 <= offset -> 0 < size -> offset + size <= ws_file_size st ->
  read_bytes offset (offset + size) (state_at bs mt st) (read_from_write_state cfg mt st offset size).
Proof.
  intros Hst Hb Hr Ho Hsz Hend.
  pose proof (read_from_write_state_run cfg bs Hcfg Hbs mt st offset size Hst Ho Hsz) as Hread.
  cbv zeta in Hread. rewrite Z.min_l in Hread by lia. unfold read_post in Hread.
  assert (Hf0 : 0 <= offset / bs) by (apply Z.div_pos; lia).
  pose proof (div_block_bounds bs (offset + size - 1) ltac:(lia)) as Hl.
  specialize (Hread ltac:(intros E d Hd; rewrite (load_full mt st (offset / bs) d) by done; rewrite <- E in Hl; lia)).
  unfold read_bytes. destruct (read_from_write_state cfg mt st offset size) as [data|e|]; [|done|done].
  destruct Hread as [Hlen Hd]. split; [lia|]. split; [|done].
  apply (bytes_by_position _ _ Hd). intros i. by apply state_at_is_byte.
Qed.

Lemma assemble_run mt fid offset end_ last :
  mount_ok bs mt fid -> 0 <= offset < end_ -> end_ <= I64_MAX -> (end_ - 1) / bs <= last ->
  read_bytes offset end_ (fun pos => repo_byte (mt_repo mt) fid bs (pos / bs) (pos mod bs))
    (assemble_or_eio (assemble_file_slice_for_update cfg mt fid (offset / bs) last offset end_)).
Proof.
  intros Hm Ho He Hlast. unfold assemble_file_slice_for_update, assemble_or_eio. rewrite Hcfg.
  assert (Hf0 : 0 <= offset / bs) by (apply Z.div_pos; lia). assert (Hmax : I64_MAX <= U64_MAX) by done.
  assert (Hfl : offset / bs <= (end_ - 1) / bs) by (apply Z.div_le_mono; lia).
  pose proof (repo_fetch_ok (mt_repo mt) fid (offset / bs) last bs (mo_sane _ _ _ Hm) Hbs ltac:(lia)) as Hf.
  destruct (repo_fetch_range _ _ _ _ _) as [rows| |]; cbn [mbind outcome_bind]; [|done|done]. destruct Hf as [Hrow Hnone].
  destruct (assemble_read_slice_run (offset / bs) last offset end_ bs rows)
    as (out & -> & Hlen & Hb); [unfold is_u64; lia|unfold is_u64; lia|lia| |].
  { apply Forall_forall. intros [k d] Hin. apply Hrow in Hin as [? _]. cbn. lia. }
  cbn [infallible read_bytes].
  assert (Hbytes : forall i, 0 <= i < zlen out ->
    byte_at out i = repo_byte (mt_repo mt) fid bs ((offset + i) / bs) ((offset + i) mod bs)).
  { intros i Hi. replace i with (offset + i - offset) at 1 by lia. rewrite Hb, Z.max_l by lia.
    pose proof (Z.mod_pos_bound (offset + i) bs ltac:(lia)).
    assert (offset / bs <= (offset + i) / bs <= (end_ - 1) / bs) by (split; apply Z.div_le_mono; lia).
    apply rows_byte_agree; [lia| |].
    - intros d Hd. apply Hrow in Hd as (_ & _ & Hd). by apply Hd.
    - intros Hn. apply (Hnone ((offset + i) / bs)); [lia|done|lia]. }
  split; [lia|]. split; [|done]. apply (bytes_by_position _ _ Hbytes). intros i. apply repo_bytes_ok, Hm.
Qed.

(** *** Writing *)

Lemma in_ranges_dec x rs : in_ranges x rs \/ ~ in_ranges x rs.
Proof.
  induction rs as [|[s e] rs IH]; [right; apply in_ranges_nil|]. rewrite in_ranges_cons.
  destruct (decide (s <= x <= e)); tauto.
Qed.

(** The mount for everything but its caches. *)
Definition same_mount mt mt' : Prop :=
  mt_repo mt' = mt_repo mt /\ mt_recent mt' = mt_recent mt /\ mt_write_states mt' = mt_write_states mt.

Lemma same_mount_trans mt1 mt2 mt3 : same_mount mt1 mt2 -> same_mount mt2 mt3 -> same_mount mt1 mt3.
Proof. unfold same_mount. intuition congruence. Qed.

Lemma copy_state_ext mt mt' fid st st' :
  same_mount mt mt' -> ws_file_id st' = ws_file_id st -> ws_file_size st' = ws_file_size st ->
  ws_truncate_pending st' = ws_truncate_pending st -> ws_load_error st' = ws_load_error st -> ws_blocks st' = ws_blocks st ->
  copy_state mt fid st -> copy_state mt' fid st'.
Proof.
  intros (Er & Ec & _) Ei Es Et El Eb [C1 C2 C3 C4]. split; [|congruence..]. by apply (state_ok_ext bs mt mt' st st').
Qed.

(** A write into the state of the destination. *)
Lemma copy_write mt fid st offset data :
  copy_state mt fid st -> data <> [] -> Forall is_byte data -> 0 <= offset -> offset + zlen data <= I64_MAX ->
  match update_write_buffer cfg mt st offset data with
  | (Ok _, st', mt') =>
      let st'' := ws_add_buffered (zlen data) st' in
      copy_state mt' fid st'' /\ same_mount mt mt' /\ ws_file_size st'' = Z.max (ws_file_size st) (offset + zlen data) /\
      forall pos, 0 <= pos -> state_at bs mt' st'' pos =
        if decide (offset <= pos < offset + zlen data) then byte_at data (pos - offset) else state_at bs mt st pos
  | (Err _, _, mt') => same_mount mt mt'
  | (Panic, _, _) => False
  end.
Proof.
  intros [C1 C2 C3 C4] Hne Hd Ho He. pose proof (update_write_buffer_run cfg bs Hcfg Hbs mt st offset data C1 C3 Hd Ho He) as Hup.
  destruct (update_write_buffer cfg mt st offset data) as [[[[]|e|] st'] mt']; [|by destruct Hup as (_ & -> & _)|done].
  destruct Hup as [Wm [blocks Wst] Wok Wb]. rewrite bool_decide_eq_false_2 in Wst by done. cbv zeta.
  assert (Hcs : copy_state mt' fid st') by (split; [done|by rewrite Wst..]).
  split_and!; [by apply (copy_state_ext mt' mt' fid st')|done|by rewrite Wst|].
  intros pos Hpos. rewrite <- Wb by done. by apply state_at_ext.
Qed.

Lemma write_runs_run dst data runs : forall lo mt fid st,
  copy_state mt fid st -> Forall is_byte data -> 0 <= dst -> dst + zlen data <= ws_file_size st ->
  Forall (run_content dst data) runs -> 0 <= lo -> ranges_sep lo (map (run_range dst) runs) ->
  (forall x, in_ranges x (map (run_range dst) runs) -> 0 <= x < zlen data) ->
  match write_runs cfg mt st runs with
  | (Ok _, st', mt') =>
      copy_state mt' fid st' /\ same_mount mt mt' /\ ws_file_size st' = ws_file_size st /\
      (forall pos, 0 <= pos -> in_ranges (pos - dst) (map (run_range dst) runs) ->
         state_at bs mt' st' pos = byte_at data (pos - dst)) /\
      (forall pos, 0 <= pos -> ~ in_ranges (pos - dst) (map (run_range dst) runs) ->
         state_at bs mt' st' pos = state_at bs mt st pos)
  | (Err _, _, mt') => same_mount mt mt'
  | (Panic, _, _) => False
  end.
Proof.
  induction runs as [|[start rp] runs IH]; intros lo mt fid st Hc Hd Ho Hend Hruns Hlo Hsep Hin; cbn [write_runs].
  { split_and!; try done. intros pos _ Hx. by apply in_ranges_nil in Hx. }
  apply Forall_cons in Hruns as [Hrun Hruns]. cbn [map] in *.
  change (run_range dst (start, rp)) with (start - dst, start - dst + zlen rp - 1) in *.
  cbn [ranges_sep] in Hsep. destruct Hsep as ([Hs1 Hs2] & Hsep).
  assert (Hfirst : 0 <= start - dst < zlen data) by (apply Hin, in_ranges_cons; lia).
  assert (Hlast : 0 <= start - dst + zlen rp - 1 < zlen data) by (apply Hin, in_ranges_cons; lia).
  assert (Hrp : forall j, 0 <= j < zlen rp -> byte_at rp j = byte_at data (start - dst + j)) by exact Hrun.
  pose proof (so_size _ _ _ (cs_ok _ _ _ Hc)) as Hsz.
  pose proof (copy_write mt fid st start rp Hc ltac:(by intros ->; rewrite zlen_nil in Hs2; lia)
    ltac:(apply (bytes_by_position _ _ Hrp); intros; by apply byte_at_is_byte) ltac:(lia) ltac:(lia)) as Hw.
  destruct (update_write_buffer cfg mt st start rp) as [[[[]|e|] st1] mt1]; [|done|done].
  destruct Hw as (W1 & W2 & W3 & W4). set (st2 := ws_add_buffered (zlen rp) st1) in *.
  assert (Hsize : ws_file_size st2 = ws_file_size st) by (rewrite W3; lia).
  specialize (IH (start - dst + zlen rp - 1 + 2) mt1 fid st2 W1 Hd Ho ltac:(lia) Hruns ltac:(lia) Hsep
    ltac:(intros x Hx; apply Hin, in_ranges_cons; by right)).
  destruct (write_runs cfg mt1 st2 runs) as [[[[]|e|] st3] mt3]; [|by eapply same_mount_trans|done].
  destruct IH as (I1 & I2 & I3 & I4 & I5). split_and!; [done|by eapply same_mount_trans|congruence|..].
  - intros pos Hpos [Hx|Hx]%in_ranges_cons; [|by apply I4].
    rewrite I5 by (done || (intros Hy; apply (ranges_sep_lower _ _ _ Hsep) in Hy; lia)).
    rewrite W4, decide_True, Hrp by lia. f_equal. lia.
  - intros pos Hpos Hx. rewrite in_ranges_cons in Hx. rewrite I5 by tauto. rewrite W4, decide_False by lia. done.
Qed.

(** The destination after a copy: its size and bytes through its handle. *)
Record copy_done mt (fh dst len : Z) (f : Z -> Z) mt' : Prop := {
  cd_ok : handle_ok mt' fh dst;
  cd_len : view_len mt' fh dst = len;
  cd_bytes : forall pos, 0 <= pos -> view_byte mt' fh dst pos = f pos;
  cd_others : forall fid, fid <> dst -> repo_size (mt_repo mt') fid = repo_size (mt_repo mt) fid /\
    forall k i, repo_byte (mt_repo mt') fid bs k i = repo_byte (mt_repo mt) fid bs k i;
  cd_states : forall fh', fh' <> fh -> mt_write_states mt' !! fh' = mt_write_states mt !! fh'
}.

Lemma copy_done_ext mt fh dst len f f' mt' :
  (forall pos, 0 <= pos -> f pos = f' pos) -> copy_done mt fh dst len f mt' -> copy_done mt fh dst len f' mt'.
Proof. intros Hf []. split; try done. intros pos Hpos. rewrite <- Hf by done. auto. Qed.

Lemma copy_done_same mt1 mt2 fh dst len f mt' :
  same_mount mt1 mt2 -> copy_done mt2 fh dst len f mt' -> copy_done mt1 fh dst len f mt'.
Proof. intros (Er & _ & Es) []. rewrite Er, Es in *. by split. Qed.

Lemma flush_copy_run mt fh dst st token :
  copy_state mt dst st -> repo_live (mt_repo mt) -> is_Some (repo_size (mt_repo mt) dst) ->
  match flush_copy cfg mt fh st token with
  | (Ok _, mt') => copy_done mt fh dst (ws_file_size st) (state_at bs mt st) mt'
  | (Err _, mt') => same_mount mt mt'
  | (Panic, _) => False
  end.
Proof.
  intros [C1 C2 C3 C4] Hlive Hsz. unfold flush_copy. rewrite <- C2 in Hsz.
  pose proof (flush_run cfg bs Hcfg Hbs mt st token C1 Hlive Hsz) as Hf. pose proof (so_size _ _ _ C1) as Hsize.
  destruct (flush_write_state_with_capacity_reservation cfg mt st token) as [[[[]|e|] st'] mt'];
    [|by destruct Hf as [-> _]|done].
  destruct Hf as [F1 F2 F3 F4 F5 F6]. rewrite C2 in *. subst st'.
  set (mt2 := mt_set_states (<[fh := ws_flushed st]> (mt_write_states mt')) mt').
  assert (Hl : mt_write_states mt2 !! fh = Some (ws_flushed st)) by (cbn; apply lookup_insert_eq).
  assert (Hok2 : mount_ok bs mt2 dst) by (by apply (mount_ok_ext bs mt')).
  assert (Hat : forall pos, state_at bs mt2 (ws_flushed st) pos = repo_byte (mt_repo mt') dst bs (pos / bs) (pos mod bs)).
  { intros pos. unfold state_at, state_byte. cbn. by rewrite lookup_empty, C2. }
  assert (Htail : forall pos, 0 <= pos -> ws_file_size st <= pos -> repo_byte (mt_repo mt') dst bs (pos / bs) (pos mod bs) = 0).
  { intros pos Hpos Hle. destruct (pos_split bs Hbs pos Hpos) as (P1 & P2 & P3). eapply (mo_tail _ _ _ F3); [done..|lia]. }
  split.
  - split; [done|by exists (ws_file_size st)|]. intros st2. rewrite Hl. intros [= <-]. split; [|done].
    split; [|done..]. split; cbn; [by rewrite C2| |done| |].
    + intros k b. by rewrite lookup_empty.
    + intros _ k [b Hb]. by rewrite lookup_empty in Hb.
    + intros _ k i Hk Hi Hpos. unfold state_byte. cbn. rewrite lookup_empty, C2. by eapply (mo_tail _ _ _ F3).
  - unfold view_len. by rewrite Hl.
  - intros pos Hpos. unfold view_byte. rewrite Hl, Hat. destruct (decide (pos < ws_file_size st)); [apply F1; lia|].
    rewrite Htail by lia. symmetry. destruct (pos_split bs Hbs pos Hpos) as (P1 & P2 & P3).
    apply (so_tail _ _ _ C1 C3); [done|done|lia].
  - intros fid Hne. by destruct (F6 fid Hne) as (? & ? & _).
  - intros fh' Hne. cbn. by rewrite lookup_insert_ne, F5.
Qed.

(** The bytes of the destination after [data] has been laid over [old] at [offset]. *)
Definition laid (offset : Z) (data : bytes) (old : Z -> Z) (pos : Z) : Z :=
  if decide (offset <= pos < offset + zlen data) then byte_at data (pos - offset) else old pos.

Definition copy_result mt (fh dst offset : Z) (data : bytes) (len : Z) (old : Z -> Z) (res : outcome Z unit * Mount) : Prop :=
  match res with
  | (Ok _, mt') => copy_done mt fh dst (Z.max len (offset + zlen data)) (laid offset data old) mt'
  | (Err _, mt') => same_mount mt mt'
  | (Panic, _) => False
  end.

Lemma copy_plain mt fh dst st offset data token :
  copy_state mt dst st -> repo_live (mt_repo mt) -> is_Some (repo_size (mt_repo mt) dst) ->
  data <> [] -> Forall is_byte data -> 0 <= offset -> offset + zlen data <= I64_MAX ->
  copy_result mt fh dst offset data (ws_file_size st) (state_at bs mt st)
    match update_write_buffer cfg mt st offset data with
    | (Err errno, _, mt) => (Err errno, mt)
    | (Panic, _, mt) => (Panic, mt)
    | (Ok _, st, mt) => flush_copy cfg mt fh (ws_add_buffered (zlen data) st) token
    end.
Proof.
  intros Hc Hlive Hsz Hne Hd Ho He. pose proof (copy_write mt dst st offset data Hc Hne Hd Ho He) as Hw.
  destruct (update_write_buffer cfg mt st offset data) as [[[[]|e|] st1] mt1]; [|done|done].
  destruct Hw as (W1 & W2 & W3 & W4). pose proof W2 as (Er & _ & _).
  pose proof (flush_copy_run mt1 fh dst _ token W1 ltac:(by rewrite Er) ltac:(by rewrite Er)) as Hf.
  destruct (flush_copy _ _ _ _ _) as [[[]|e|] mt2]; [|by eapply same_mount_trans|done].
  eapply copy_done_same; [done|]. rewrite W3 in Hf. by eapply copy_done_ext.
Qed.

(** The state that a copy starts from is the view of its handle. *)
Record starts mt (fh dst : Z) (had : bool) st : Prop := {
  sr_handle : handle_ok mt fh dst;
  sr_state : copy_state mt dst st;
  sr_len : view_len mt fh dst = ws_file_size st;
  sr_bytes : forall pos, view_byte mt fh dst pos = state_at bs mt st pos;
  sr_full : forall k b, ws_blocks st !! k = Some b -> zlen b = bs;
  sr_recent : forall k d, mt_recent mt !! (dst, k) = Some d -> zlen d = bs;
  sr_fresh : had = false -> ws_blocks st = ∅
}.

Lemma grow_copy_state mt dst st n :
  copy_state mt dst st -> n <= I64_MAX ->
  copy_state mt dst (if ws_file_size st <? n then ws_set_size n st else st).
Proof.
  intros [C1 C2 C3 C4] Hn. destruct (Z.ltb_spec (ws_file_size st) n); [|by split].
  split; [apply state_ok_grow; [done|lia]|done..].
Qed.

Lemma grow_state_at mt st n pos :
  state_at bs mt (if ws_file_size st <? n then ws_set_size n st else st) pos = state_at bs mt st pos.
Proof. destruct (_ <? _); [by apply state_at_ext|done]. Qed.

Lemma destination_slice mt fh dst had st offset n last :
  starts mt fh dst had st -> 0 <= offset -> 0 < n -> offset + n <= I64_MAX -> (offset + n - 1) / bs <= last ->
  offset < ws_file_size st ->
  read_bytes offset (offset + n) (state_at bs mt st)
    (read_copy_destination_slice cfg mt dst
       (if had then Some (if ws_file_size st <? offset + n then ws_set_size (offset + n) st else st) else None)
       (offset / bs) last offset n (ws_file_size st)).
Proof.
  intros [Sh Sc _ _ Sf Sr Sn] Ho Hn He Hlast Hlt. assert (Hmax : I64_MAX < U64_MAX) by done.
  unfold read_copy_destination_slice. destruct (Z.eqb_spec n 0); [lia|]. destruct had.
  - set (st1 := if ws_file_size st <? offset + n then _ else st).
    pose proof (grow_copy_state mt dst st (offset + n) Sc He) as [C1 C2 C3 C4]. fold st1 in C1, C2, C3, C4.
    assert (Hsz : offset + n <= ws_file_size st1) by (unfold st1; destruct (Z.ltb_spec (ws_file_size st) (offset + n)); cbn; lia).
    assert (Hb : ws_blocks st1 = ws_blocks st) by (unfold st1; by destruct (_ <? _)).
    pose proof (read_state_run mt st1 offset n C1 ltac:(rewrite Hb; done) ltac:(rewrite C2; done) Ho Hn Hsz) as Hr.
    unfold read_bytes in *. destruct (read_from_write_state cfg mt st1 offset n) as [data|e|]; cbn [mbind outcome_bind]; [|done|done].
    destruct Hr as (R1 & R2 & R3). destruct (Z.ltb_spec (zlen data) n); [lia|]. split_and!; [done|done|].
    intros i Hi. rewrite R3 by done. apply grow_state_at.
  - destruct (Z.leb_spec (ws_file_size st) offset); [lia|].
    replace (Z.min (sat_add offset n) (ws_file_size st)) with (Z.min (offset + n) (ws_file_size st)) by (unfold sat_add; lia).
    pose proof (so_size _ _ _ (cs_ok _ _ _ Sc)) as Hsize.
    pose proof (assemble_run mt dst offset (Z.min (offset + n) (ws_file_size st)) last (ho_mount _ _ _ Sh) ltac:(lia) ltac:(lia)
      ltac:(etrans; [apply Z.div_le_mono; [lia|]|exact Hlast]; lia)) as Hr.
    assert (Hat : forall pos, state_at bs mt st pos = repo_byte (mt_repo mt) dst bs (pos / bs) (pos mod bs)).
    { intros pos. unfold state_at, state_byte. rewrite Sn, lookup_empty by done. by rewrite (cs_id _ _ _ Sc). }
    unfold read_bytes in *. destruct (assemble_or_eio _) as [data|e|]; cbn [mbind outcome_bind]; [|done|done].
    destruct Hr as (R1 & R2 & R3). set (out := if zlen data <? n then _ else data).
    assert (Hout : zlen out = n /\ forall i, 0 <= i < n -> byte_at out i = state_at bs mt st (offset + i)).
    { unfold out. destruct (Z.ltb_spec (zlen data) n) as [Hshort|Hlong].
      - split; [zlen_simpl; lia|]. intros i Hi. rewrite byte_at_vec_resize, decide_True by lia.
        destruct (decide (i < zlen data)); [by rewrite R3, Hat by lia|]. rewrite byte_at_ge by lia. symmetry.
        destruct (pos_split bs Hbs (offset + i) ltac:(lia)) as (P1 & P2 & P3).
        apply (so_tail _ _ _ (cs_ok _ _ _ Sc) (cs_truncate _ _ _ Sc)); [done|done|lia].
      - split; [lia|]. intros i Hi. rewrite R3, Hat by lia. done. }
    destruct Hout as [O1 O2]. rewrite O1. split; [lia|]. split; [|done]. rewrite <- O1 in O2.
    apply (bytes_by_position _ _ O2). intros i. apply state_at_is_byte, Sc.
Qed.

Lemma copy_unchanged mt fh dst had st offset data :
  starts mt fh dst had st -> (forall pos, offset <= pos < offset + zlen data -> state_at bs mt st pos = byte_at data (pos - offset)) ->
  offset + zlen data <= ws_file_size st ->
  copy_result mt fh dst offset data (ws_file_size st) (state_at bs mt st) (Ok tt, mt).
Proof.
  intros [Sh Sc Sl Sb _ _ _] Hsame Hend. split; [done|lia| |done|done].
  intros pos Hpos. rewrite Sb. unfold laid. case_decide; [by apply Hsame|done].
Qed.

Lemma copy_changed_run mt fh dst had st bounds data token :
  starts mt fh dst had st -> repo_live (mt_repo mt) -> Forall is_byte data ->
  0 <= crb_dst_offset bounds -> zlen data = crb_copy_len bounds -> 0 < zlen data ->
  crb_dst_offset bounds + zlen data <= I64_MAX -> crb_dst_offset bounds < ws_file_size st ->
  crb_dst_first_block bounds = crb_dst_offset bounds / bs ->
  (crb_dst_offset bounds + zlen data - 1) / bs <= crb_dst_last_block bounds ->
  copy_result mt fh dst (crb_dst_offset bounds) data (ws_file_size st) (state_at bs mt st)
    (copy_changed cfg mt fh dst had st bounds data token).
Proof.
  intros Hst Hlive Hd Ho Hlen Hz He Hlt Hfb Hlb. pose proof Hst as [Sh Sc _ _ _ _ _].
  destruct (ho_exists _ _ _ Sh) as (m & Hm & _). assert (Hmax : I64_MAX < U64_MAX) by done. unfold copy_changed.
  rewrite Hfb, <- Hlen. set (offset := crb_dst_offset bounds) in *.
  replace (sat_add offset (zlen data)) with (offset + zlen data) by (unfold sat_add; lia).
  pose proof (destination_slice mt fh dst had st offset (zlen data) _ Hst Ho Hz He Hlb Hlt) as Hcur. unfold read_bytes in Hcur.
  destruct (read_copy_destination_slice _ _ _ _ _ _ _ _ _) as [current|e|]; [|done|done].
  destruct Hcur as (Hc1 & Hc2 & Hc3).
  destruct (skip_unchanged_runs_exact offset (fz_block_size cfg) data current Ho ltac:(lia)) as (runs & -> & R1 & R2 & R3 & R4).
  pose proof (grow_copy_state mt dst st (offset + zlen data) Sc He) as Hg.
  set (st1 := if ws_file_size st <? offset + zlen data then ws_set_size (offset + zlen data) st else st) in *.
  assert (Hg1 : ws_file_size st1 = Z.max (ws_file_size st) (offset + zlen data)
    /\ forall pos, state_at bs mt st1 pos = state_at bs mt st pos).
  { split; [unfold st1; destruct (Z.ltb_spec (ws_file_size st) (offset + zlen data)); cbn; lia|intros; apply grow_state_at]. }
  destruct Hg1 as [Hg1 Hg2].
  assert (Hsame : forall pos, offset <= pos < offset + zlen data -> ~ in_ranges (pos - offset) (map (run_range offset) runs) ->
    state_at bs mt st pos = byte_at data (pos - offset)).
  { intros pos Hpos Hx. rewrite R4 by (done || lia). rewrite Hc3 by lia. f_equal. lia. }
  destruct runs as [|run runs].
  - assert (Hsame' : forall pos, offset <= pos < offset + zlen data -> state_at bs mt st pos = byte_at data (pos - offset))
      by (intros pos Hpos; apply Hsame; [done|apply in_ranges_nil]).
    destruct (Z.ltb_spec (ws_file_size st) (offset + zlen data)) as [Hgrow|]; [|by apply (copy_unchanged mt fh dst had)].
    fold st1. change (ws_set_size (offset + zlen data) st) with st1.
    pose proof (flush_copy_run mt fh dst st1 token Hg Hlive ltac:(rewrite Hm; by eexists)) as Hf.
    destruct (flush_copy cfg mt fh st1 token) as [[[]|e|] mt2]; [|done|done]. cbn. rewrite Hg1 in Hf.
    eapply copy_done_ext; [|exact Hf]. intros pos Hpos. rewrite Hg2. unfold laid. case_decide; [by apply Hsame'|done].
  - set (rs := run :: runs) in *.
    pose proof (write_runs_run offset data rs 0 mt dst st1 Hg Hd Ho ltac:(lia) R1 ltac:(lia) R2
      ltac:(intros x Hx; apply R3 in Hx; tauto)) as Hw.
    destruct (write_runs cfg mt st1 rs) as [[[[]|e|] st2] mt2]; [|done|done].
    destruct Hw as (W1 & W2 & W3 & W4 & W5). pose proof W2 as (Er & _ & _).
    pose proof (flush_copy_run mt2 fh dst st2 token W1 ltac:(by rewrite Er) ltac:(rewrite Er, Hm; by eexists)) as Hf.
    destruct (flush_copy cfg mt2 fh st2 token) as [[[]|e|] mt3]; [|by eapply same_mount_trans|done].
    eapply copy_done_same; [done|]. rewrite W3, Hg1 in Hf. eapply copy_done_ext; [|exact Hf].
    intros pos Hpos. unfold laid. destruct (in_ranges_dec (pos - offset) (map (run_range offset) rs)) as [Hx|Hx].
    + pose proof (proj1 (R3 _) Hx) as [? _]. rewrite decide_True by lia. by apply W4.
    + rewrite W5, Hg2 by done. case_decide; [by apply Hsame|done].
Qed.

(** The state that the handler starts from, with its fence. *)
Lemma starts_intro mt fh dst st :
  handle_ok mt fh dst -> blocks_full mt fh dst ->
  let dst_state := mt_write_states mt !! fh in
  let st0 := ws_for_write dst false (default (new_write_state dst (view_len mt fh dst) false) dst_state) in
  st = st0 \/ (exists fence, st = ws_set_fence fence st0) -> starts mt fh dst (bool_decide (is_Some dst_state)) st.
Proof.
  intros Hh Hfull dst_state st0 Hst.
  assert (E : ws_file_id st = dst /\ ws_file_size st = ws_file_size st0 /\ ws_blocks st = ws_blocks st0
    /\ ws_truncate_pending st = ws_truncate_pending st0 /\ ws_load_error st = ws_load_error st0)
    by (by destruct Hst as [->|[fence ->]]).
  destruct E as (E1 & E2 & E3 & E4 & E5). destruct Hh as [Hm (n & Hn & Hr) Hs] eqn:Eh. clear Eh.
  unfold st0, dst_state, view_len in *. destruct (mt_write_states mt !! fh) as [so|] eqn:El; cbn [default from_option id] in *.
  - cbn in E2, E3, E4, E5. destruct (Hs so eq_refl) as [[C1 C2 C3 C4] Hp]. split; try done.
    + split; [|congruence..]. apply (state_ok_ext bs mt mt so); congruence.
    + unfold view_len. rewrite El. congruence.
    + intros pos. unfold view_byte. rewrite El. apply state_at_ext; congruence.
    + intros k b. rewrite E3. by apply (bf_state _ _ _ Hfull so).
    + apply Hfull.
  - cbn in E2, E3, E4, E5. rewrite Hn in E2. cbn in E2.
    assert (Hc : copy_state mt dst st).
    { split; [|done..]. apply (state_ok_ext bs mt mt (new_write_state dst n false)); try done.
      by apply new_state_ok. }
    split; try done.
    + unfold view_len. by rewrite El, Hn, E2.
    + intros pos. unfold view_byte, state_at, state_byte. by rewrite El, E3, lookup_empty, E1.
    + intros k b. by rewrite E3, lookup_empty.
    + apply Hfull.
Qed.

(** *** The handler *)

(** The source as its handle sees it. *)
Lemma source_run mt fh src offset n bounds :
  handle_ok mt fh src -> blocks_full mt fh src -> 0 <= offset -> 0 < n -> offset + n <= view_len mt fh src ->
  crb_src_offset bounds = offset -> crb_copy_len bounds = n -> crb_src_end_offset bounds = offset + n ->
  crb_src_first_block bounds = offset / bs -> crb_src_last_block bounds = (offset + n - 1) / bs ->
  read_bytes offset (offset + n) (view_byte mt fh src)
    match mt_write_states mt !! fh with
    | Some st => read_from_write_state cfg mt st (crb_src_offset bounds) (crb_copy_len bounds)
    | None => assemble_or_eio (assemble_file_slice_for_update cfg mt src (crb_src_first_block bounds)
                                 (crb_src_last_block bounds) (crb_src_offset bounds) (crb_src_end_offset bounds))
    end.
Proof.
  intros [Hm (m & Hsz & Hr) Hs] [Fs Fr] Ho Hn Hend -> -> -> -> ->. unfold view_len, view_byte in *.
  destruct (mt_write_states mt !! fh) as [st|] eqn:El.
  - destruct (Hs st eq_refl) as [[C1 C2 C3 C4] _]. apply read_state_run; try done; [by intros k b; apply Fs|by rewrite C2].
  - rewrite Hsz in Hend. cbn in Hend. apply assemble_run; [done|lia|lia|lia].
Qed.

(** A copy that succeeds. *)
Record copied mt (fh_in src offset_in fh_out dst offset_out n : Z) mt' : Prop := {
  co_ok : handle_ok mt' fh_out dst;
  co_len : view_len mt' fh_out dst = Z.max (view_len mt fh_out dst) (offset_out + n);
  co_bytes : forall pos, 0 <= pos -> view_byte mt' fh_out dst pos =
    if decide (offset_out <= pos < offset_out + n) then view_byte mt fh_in src (offset_in + (pos - offset_out))
    else view_byte mt fh_out dst pos;
  co_others : forall fid, fid <> dst -> repo_size (mt_repo mt') fid = repo_size (mt_repo mt) fid /\
    forall k i, repo_byte (mt_repo mt') fid bs k i = repo_byte (mt_repo mt) fid bs k i;
  co_states : forall fh, fh <> fh_out -> mt_write_states mt' !! fh = mt_write_states mt !! fh
}.

(** Nothing has changed but what the repository keeps beside the files. *)
Definition nothing_copied mt mt' : Prop :=
  same_content (mt_repo mt) (mt_repo mt') /\ mt_write_states mt' = mt_write_states mt /\ mt_recent mt' = mt_recent mt.

(** The repository behind a mount is exchanged for one with the same content. *)
Lemma set_repo_handle mt r fh fid :
  repo_sane r -> same_content (mt_repo mt) r -> handle_ok mt fh fid -> handle_ok (mt_set_repo r mt) fh fid.
Proof.
  intros Hsane [Hz Hb] [[Ms Mr Mt] He Hs].
  assert (Hm : mount_ok bs (mt_set_repo r mt) fid).
  { split; cbn; [done| |].
    - intros k d Hd. destruct (Mr k d Hd) as (? & ? & Hi). split_and!; try done. intros i. rewrite Hb. apply Hi.
    - intros n k i. rewrite Hz, Hb. apply Mt. }
  split; cbn; [done|by rewrite Hz|]. intros st Hl. destruct (Hs st Hl) as [[[Sm Sb Ss Si St] C2 C3 C4] Hp].
  rewrite Hz. split; [|done]. split; [|done..]. split; try done; [by rewrite C2|].
  intros Ht k i Hk Hi Hpos. specialize (St Ht k i Hk Hi Hpos). unfold state_byte in *. cbn. by rewrite Hb.
Qed.

Lemma set_repo_view mt r fh fid pos :
  same_content (mt_repo mt) r ->
  view_len (mt_set_repo r mt) fh fid = view_len mt fh fid /\ view_byte (mt_set_repo r mt) fh fid pos = view_byte mt fh fid pos.
Proof.
  intros [Hz Hb]. unfold view_len, view_byte, state_at, state_byte. cbn. destruct (mt_write_states mt !! fh); by rewrite ?Hz, ?Hb.
Qed.

Lemma copy_reserved_run mt fh_in src offset_in fh_out dst offset_out n bounds token :
  handle_ok mt fh_in src -> blocks_full mt fh_in src -> handle_ok mt fh_out dst -> blocks_full mt fh_out dst ->
  repo_live (mt_repo mt) -> 0 <= offset_in -> 0 <= offset_out -> 0 < n ->
  offset_in + n <= view_len mt fh_in src -> offset_out + n <= I64_MAX ->
  bounds = {| crb_src_offset := offset_in; crb_dst_offset := offset_out; crb_copy_len := n;
              crb_src_end_offset := offset_in + n; crb_dst_end_offset := offset_out + n;
              crb_src_first_block := offset_in / bs; crb_src_last_block := (offset_in + n - 1) / bs;
              crb_dst_first_block := offset_out / bs; crb_dst_last_block := (offset_out + n - 1) / bs |} ->
  match copy_reserved cfg dedupe handles mt fh_out src dst (mt_write_states mt !! fh_in) (mt_write_states mt !! fh_out)
          (view_len mt fh_out dst) bounds token with
  | (Ok _, mt') => copied mt fh_in src offset_in fh_out dst offset_out n mt'
  | (Err _, mt') => same_mount mt mt'
  | (Panic, _) => False
  end.
Proof.
  intros Hin Fin Hout Fout Hlive Hoi Hoo Hn Hend He Eb. unfold copy_reserved.
  pose proof (source_run mt fh_in src offset_in n bounds Hin Fin Hoi Hn Hend ltac:(by rewrite Eb) ltac:(by rewrite Eb)
    ltac:(by rewrite Eb) ltac:(by rewrite Eb) ltac:(by rewrite Eb)) as Hsrc. unfold read_bytes in Hsrc.
  destruct (match mt_write_states mt !! fh_in with Some _ => _ | None => _ end) as [data|e|]; [|done|done].
  destruct Hsrc as (D1 & D2 & D3). replace (offset_in + n - offset_in) with n in D1 by lia.
  set (st0 := ws_for_write _ _ _). pose proof (attach_fence_cases handles fh_out st0) as Ha.
  destruct (attach_write_persistence_fence_for_handle handles fh_out st0) as [st|e|]; [|done|done].
  pose proof (starts_intro mt fh_out dst st Hout Fout Ha) as Hst.
  destruct (ho_exists _ _ _ Hout) as (m & Hm & _).
  assert (Hgo : forall res, copy_result mt fh_out dst offset_out data (ws_file_size st) (state_at bs mt st) res ->
    match res with
    | (Ok _, mt') => copied mt fh_in src offset_in fh_out dst offset_out n mt'
    | (Err _, mt') => same_mount mt mt'
    | (Panic, _) => False
    end).
  { intros [[[]|e|] mt']; cbn; [|done|done]. intros [K1 K2 K3 K4 K5]. rewrite D1 in K2. split; try done.
    - by rewrite (sr_len _ _ _ _ _ Hst).
    - intros pos Hpos. rewrite K3 by done. unfold laid. rewrite D1. case_decide; [apply D3; lia|]. symmetry. apply (sr_bytes _ _ _ _ _ Hst). }
  assert (Hne : data <> []) by (intros ->; rewrite zlen_nil in D1; lia).
  assert (Ed : crb_dst_offset bounds = offset_out /\ crb_copy_len bounds = n /\ crb_dst_first_block bounds = offset_out / bs
    /\ crb_dst_last_block bounds = (offset_out + n - 1) / bs) by (by rewrite Eb).
  destruct Ed as (E1 & E2 & E3 & E4). apply Hgo. destruct (_ && _) eqn:Edd.
  - apply andb_true_iff in Edd as [_ Hlt%Z.ltb_lt]. rewrite <- E1.
    apply copy_changed_run; rewrite ?E1, ?E2, ?E3, ?E4, ?D1; try done; lia.
  - rewrite E1. apply copy_plain; [apply (sr_state _ _ _ _ _ Hst)|done|rewrite Hm; by eexists|done|done|done|lia].
Qed.

(** The bounds of the copy, in numbers that do not overflow. *)
Lemma bounds_run offset_in offset_out len size :
  0 <= offset_in -> 0 <= offset_out -> 0 <= len -> offset_out + len <= I64_MAX -> 0 <= size <= I64_MAX ->
  copy_range_bounds (fz_block_size cfg) offset_in offset_out len size =
    let n := Z.min len (size - offset_in) in
    if n <=? 0 then None
    else Some {| crb_src_offset := offset_in; crb_dst_offset := offset_out; crb_copy_len := n;
                 crb_src_end_offset := offset_in + n; crb_dst_end_offset := offset_out + n;
                 crb_src_first_block := offset_in / bs; crb_src_last_block := (offset_in + n - 1) / bs;
                 crb_dst_first_block := offset_out / bs; crb_dst_last_block := (offset_out + n - 1) / bs |}.
Proof.
  intros Hi Ho Hl He Hs. assert (Hmax : I64_MAX < U64_MAX) by done. unfold copy_range_bounds. rewrite Hcfg, Z.max_l by lia. cbv zeta.
  destruct (Z.leb_spec size offset_in), (Z.leb_spec (Z.min len (size - offset_in)) 0); try (done || lia).
  - by destruct (Z.eqb_spec (Z.min len (size - offset_in)) 0); [|lia].
  - destruct (Z.eqb_spec (Z.min len (size - offset_in)) 0) as [|_]; [lia|]. set (n := Z.min len (size - offset_in)) in *.
    assert (Hn : 0 < n /\ n <= len /\ n <= size - offset_in) by (unfold n; lia).
    replace (sat_add offset_in n) with (offset_in + n) by (unfold sat_add; lia).
    replace (sat_add offset_out n) with (offset_out + n) by (unfold sat_add; lia).
    replace (sat_sub (offset_in + n) 1) with (offset_in + n - 1) by (unfold sat_sub; lia).
    by replace (sat_sub (offset_out + n) 1) with (offset_out + n - 1) by (unfold sat_sub; lia).
Qed.

Lemma size_run mt fh fid :
  handle_ok mt fh fid ->
  match size_for_copy mt (mt_write_states mt !! fh) fid with
  | Ok n => n = view_len mt fh fid /\ 0 <= n <= I64_MAX
  | Err _ => True
  | Panic => False
  end.
Proof.
  intros [Hm (m & Hsz & Hr) Hs]. unfold size_for_copy, view_len.
  destruct (mt_write_states mt !! fh) as [st|]; [split; [done|]; apply (so_size _ _ _ (cs_ok _ _ _ (proj1 (Hs st eq_refl))))|].
  unfold file_size_for_update_file_id_or_errno. pose proof (repo_size_ok (mt_repo mt) fid) as Hz.
  destruct (repo_file_size (mt_repo mt) fid) as [[k|]|e|]; [|done|done|done]. rewrite <- Hz in *. by injection Hsz as ->.
Qed.

(** The answer of a copy of [n] bytes. *)
Definition copy_answer mt (fh_in src offset_in fh_out dst offset_out n : Z) (res : outcome Z unit * Mount) : Prop :=
  match res with
  | (Ok _, mt') => copied mt fh_in src offset_in fh_out dst offset_out n mt'
  | (Err _, mt') => nothing_copied mt mt'
  | (Panic, _) => False
  end.

Lemma copied_before mt r fh_in src offset_in fh_out dst offset_out n mt' :
  same_content (mt_repo mt) r -> copied (mt_set_repo r mt) fh_in src offset_in fh_out dst offset_out n mt' ->
  copied mt fh_in src offset_in fh_out dst offset_out n mt'.
Proof.
  intros Hsame [K1 K2 K3 K4 K5]. split; [done| | | |done].
  - by rewrite K2, (proj1 (set_repo_view _ _ _ _ 0 Hsame)).
  - intros pos Hpos. rewrite K3 by done. by rewrite !(proj2 (set_repo_view _ _ _ _ _ Hsame)).
  - intros fid Hne. destruct (K4 fid Hne) as [Kz Kb]. destruct Hsame as [Sz Sb]. cbn in Kz, Kb.
    split; [congruence|]. intros. by rewrite Kb.
Qed.

Lemma copied_after mt r fh_in src offset_in fh_out dst offset_out n mt' :
  repo_sane r -> same_content (mt_repo mt') r -> copied mt fh_in src offset_in fh_out dst offset_out n mt' ->
  copied mt fh_in src offset_in fh_out dst offset_out n (mt_set_repo r mt').
Proof.
  intros Hsane Hsame [K1 K2 K3 K4 K5]. split; [by apply set_repo_handle| | | |done].
  - by rewrite (proj1 (set_repo_view _ _ _ _ 0 Hsame)).
  - intros pos Hpos. rewrite (proj2 (set_repo_view _ _ _ _ _ Hsame)). by apply K3.
  - intros fid Hne. destruct (K4 fid Hne) as [Kz Kb]. destruct Hsame as [Sz Sb]. cbn.
    split; [congruence|]. intros. by rewrite Sb.
Qed.

Lemma copy_with_reservation_run mt request fh_in src offset_in fh_out dst offset_out n bounds :
  handle_ok mt fh_in src -> blocks_full mt fh_in src -> handle_ok mt fh_out dst -> blocks_full mt fh_out dst ->
  repo_live (mt_repo mt) -> 0 <= offset_in -> 0 <= offset_out -> 0 < n ->
  offset_in + n <= view_len mt fh_in src -> offset_out + n <= I64_MAX ->
  bounds = {| crb_src_offset := offset_in; crb_dst_offset := offset_out; crb_copy_len := n;
              crb_src_end_offset := offset_in + n; crb_dst_end_offset := offset_out + n;
              crb_src_first_block := offset_in / bs; crb_src_last_block := (offset_in + n - 1) / bs;
              crb_dst_first_block := offset_out / bs; crb_dst_last_block := (offset_out + n - 1) / bs |} ->
  copy_answer mt fh_in src offset_in fh_out dst offset_out n
    (copy_with_reservation cfg dedupe handles mt request fh_out src dst (mt_write_states mt !! fh_in)
       (mt_write_states mt !! fh_out) (view_len mt fh_out dst) bounds).
Proof.
  intros Hin Fin Hout Fout Hlive Hoi Hoo Hn Hend He Eb. unfold copy_with_reservation.
  pose proof (mo_sane _ _ _ (ho_mount _ _ _ Hin)) as Hsane. set (bytes_ := sat_mul _ _).
  pose proof (repo_reserve_ok (mt_repo mt) request bytes_ Hsane) as Hres.
  destruct (repo_reserve request bytes_ (mt_repo mt)) as [[token|e|] r]; [| |done].
  2: { destruct Hres as (_ & Hsame & _). by split_and!. }
  destruct Hres as (Hsane1 & Hsame1 & Hlive1). set (mt1 := mt_set_repo r mt).
  assert (V : forall fh fid pos, view_len mt1 fh fid = view_len mt fh fid /\ view_byte mt1 fh fid pos = view_byte mt fh fid pos)
    by (intros; by apply set_repo_view).
  pose proof (copy_reserved_run mt1 fh_in src offset_in fh_out dst offset_out n bounds token
    (set_repo_handle _ _ _ _ Hsane1 Hsame1 Hin) ltac:(by destruct Fin; split)
    (set_repo_handle _ _ _ _ Hsane1 Hsame1 Hout) ltac:(by destruct Fout; split) ltac:(by apply Hlive1) Hoi Hoo Hn
    ltac:(by rewrite (proj1 (V fh_in src 0))) He Eb) as Hrun.
  rewrite (proj1 (V fh_out dst 0)) in Hrun. change (mt_write_states mt1) with (mt_write_states mt) in Hrun.
  destruct (copy_reserved cfg dedupe handles mt1 _ _ _ _ _ _ _ _) as [[[]|e|] mt2]; [| |done].
  - apply copied_before in Hrun; [|done]. destruct token as [token|]; [|done]. cbn.
    pose proof (mo_sane _ _ _ (ho_mount _ _ _ (co_ok _ _ _ _ _ _ _ _ _ Hrun))) as Hs2.
    destruct (repo_release_ok (mt_repo mt2) token Hs2) as [Hs3 Hsame3]. by apply copied_after.
  - destruct Hrun as (Er & Ec & Es). cbn in Er, Ec, Es. destruct token as [token|]; cbn.
    + destruct (repo_release_ok (mt_repo mt2) token ltac:(by rewrite Er)) as [_ Hsame3]. rewrite Er in Hsame3 at 1.
      split_and!; [by eapply same_content_trans|done|done].
    + rewrite <- Er in Hsame1. by split_and!.
Qed.

(** A handle without unflushed changes sees the file as the repository has it. *)
Lemma clean_view mt fh fid :
  handle_ok mt fh fid ->
  match mt_write_states mt !! fh with Some st => write_state_has_pending_changes st | None => false end = false ->
  repo_size (mt_repo mt) fid = Some (view_len mt fh fid) /\
  forall pos, view_byte mt fh fid pos = repo_byte (mt_repo mt) fid bs (pos / bs) (pos mod bs).
Proof.
  intros [Hm (m & Hsz & Hr) Hs]. unfold view_len, view_byte. destruct (mt_write_states mt !! fh) as [st|].
  - intros Hp. destruct (Hs st eq_refl) as [[_ C2 _ _] Hclean]. split; [by apply Hclean|]. intros pos.
    unfold write_state_has_pending_changes in Hp. apply orb_false_iff in Hp as [_ Hb%negb_false_iff%bool_decide_eq_true].
    unfold state_at, state_byte. by rewrite Hb, lookup_empty, C2.
  - intros _. by rewrite Hsz.
Qed.

(** The destination has taken the data object of the source. *)
Lemma adopted_run mt fh_in src fh_out dst r :
  handle_ok mt fh_in src -> handle_ok mt fh_out dst -> src <> dst ->
  match mt_write_states mt !! fh_in with Some st => write_state_has_pending_changes st | None => false end = false ->
  match mt_write_states mt !! fh_out with Some st => write_state_has_pending_changes st | None => false end = false ->
  view_len mt fh_out dst = 0 ->
  repo_sane r -> repo_size r dst = repo_size (mt_repo mt) src ->
  (forall b k i, repo_byte r dst b k i = repo_byte (mt_repo mt) src b k i) ->
  (forall fid, fid <> dst -> repo_size r fid = repo_size (mt_repo mt) fid /\
     forall b k i, repo_byte r fid b k i = repo_byte (mt_repo mt) fid b k i) ->
  let n := view_len mt fh_in src in
  copied mt fh_in src 0 fh_out dst 0 n
    (mt_forget_file dst r
       match mt_write_states mt !! fh_out with
       | Some st => mt_set_states (<[fh_out := ws_set_size n st]> (mt_write_states mt)) (mt_set_repo r mt)
       | None => mt_set_repo r mt
       end).
Proof.
  intros Hin Hout Hne Cin Cout Hzero Hsane Hz Hb Ho n.
  destruct (clean_view _ _ _ Hin Cin) as [Sz Sb]. destruct (clean_view _ _ _ Hout Cout) as [Dz Db]. fold n in Sz.
  set (mt' := mt_forget_file _ _ _).
  assert (Er : mt_repo mt' = r) by done.
  assert (Ec : forall k d, mt_recent mt' !! (dst, k) <> Some d).
  { intros k d. cbn. destruct (mt_write_states mt !! fh_out); intros [_ Hd]%map_lookup_filter_Some; by apply Hd. }
  assert (El : mt_write_states mt' !! fh_out = ws_set_size n <$> mt_write_states mt !! fh_out).
  { unfold mt'. cbn. destruct (mt_write_states mt !! fh_out) eqn:E; cbn; [apply lookup_insert_eq|done]. }
  assert (Hn : 0 <= n <= I64_MAX) by (destruct (ho_exists _ _ _ Hin) as (m & Hm & ?); congruence).
  assert (Hm : mount_ok bs mt' dst).
  { split; rewrite ?Er; [done|by intros k d ?%Ec|]. intros m k i. rewrite Hz, Hb. apply (mo_tail _ _ _ (ho_mount _ _ _ Hin)). }
  assert (Hblocks : forall st, mt_write_states mt !! fh_out = Some st ->
    ws_blocks st = ∅ /\ ws_file_id st = dst /\ ws_truncate_pending st = false /\ ws_load_error st = false).
  { intros st E. rewrite E in Cout. destruct (ho_state _ _ _ Hout st E) as [[_ C2 C3 C4] _]. split_and!; try done.
    unfold write_state_has_pending_changes in Cout. by apply orb_false_iff in Cout as [_ ?%negb_false_iff%bool_decide_eq_true]. }
  assert (Hview : forall pos, view_byte mt' fh_out dst pos = repo_byte (mt_repo mt) src bs (pos / bs) (pos mod bs)).
  { intros pos. unfold view_byte. rewrite El. destruct (mt_write_states mt !! fh_out) as [st|] eqn:E; cbn; [|apply Hb].
    destruct (Hblocks st eq_refl) as (B1 & B2 & _). unfold state_at, state_byte. cbn. rewrite B1, lookup_empty, B2. apply Hb. }
  split.
  - split; rewrite ?Er; [done|by exists n; rewrite Hz|]. intros st2. rewrite El.
    destruct (mt_write_states mt !! fh_out) as [st|] eqn:E; cbn; [|done]. intros [= <-].
    destruct (Hblocks st eq_refl) as (B1 & B2 & B3 & B4). split; [|intros _; by rewrite Hz].
    split; [|done..]. apply (state_ok_ext bs mt' mt' (new_write_state dst n false)); try done.
    apply new_state_ok; [done|by rewrite Er, Hz|done].
  - rewrite Hzero. unfold view_len. rewrite El, Er, Hz, Sz. destruct (mt_write_states mt !! fh_out); cbn; lia.
  - intros pos Hpos. rewrite Hview. destruct (pos_split bs Hbs pos Hpos) as (P1 & P2 & P3). case_decide.
    + rewrite Sb. by replace (0 + (pos - 0)) with pos by lia.
    + rewrite Db. rewrite (mo_tail _ _ _ (ho_mount _ _ _ Hin) n), (mo_tail _ _ _ (ho_mount _ _ _ Hout) 0); try done; [congruence|lia|lia].
  - intros fid Hf. rewrite Er. destruct (Ho fid Hf) as [? Hbf]. split; [done|]. intros. apply Hbf.
  - intros fh Hf. unfold mt'. cbn. destruct (mt_write_states mt !! fh_out); cbn; [by rewrite lookup_insert_ne|done].
Qed.

(** What the handler answers when both files are known. *)
Definition range_answer mt (fh_in src offset_in fh_out dst offset_out len : Z) (res : outcome Z Z * Mount) : Prop :=
  match res with
  | (Ok n, mt') =>
      n = Z.max 0 (Z.min len (view_len mt fh_in src - offset_in)) /\
      (n = 0 -> mt' = mt) /\ (0 < n -> copied mt fh_in src offset_in fh_out dst offset_out n mt')
  | (Err _, mt') => nothing_copied mt mt'
  | (Panic, _) => False
  end.

Lemma copy_files_run mt request fh_in src offset_in fh_out dst offset_out len :
  handle_ok mt fh_in src -> blocks_full mt fh_in src -> handle_ok mt fh_out dst -> blocks_full mt fh_out dst ->
  repo_live (mt_repo mt) -> 0 <= offset_in -> 0 <= offset_out -> 0 <= len < 2 ^ 32 -> offset_out + len <= I64_MAX ->
  range_answer mt fh_in src offset_in fh_out dst offset_out len
    (copy_files cfg dedupe handles mt request fh_in src offset_in fh_out dst offset_out len).
Proof.
  intros Hin Fin Hout Fout Hlive Hoi Hoo Hlen He. unfold copy_files.
  assert (Hrefl : nothing_copied mt mt) by (split_and!; done || apply same_content_refl).
  pose proof (size_run mt fh_out dst Hout) as Hds. pose proof (size_run mt fh_in src Hin) as Hss.
  destruct (size_for_copy mt (mt_write_states mt !! fh_out) dst) as [dst_size|e|]; cbn [mbind outcome_bind]; [|done|done].
  destruct (size_for_copy mt (mt_write_states mt !! fh_in) src) as [src_size|e|]; cbn [mbind outcome_bind]; [|done|done].
  destruct Hds as [-> Hds], Hss as [-> Hss]. rewrite bounds_run by (done || lia). cbv zeta.
  set (n := Z.min len (view_len mt fh_in src - offset_in)). destruct (Z.leb_spec n 0) as [Hn|Hn].
  { cbn. split_and!; [unfold n in Hn; lia|done|lia]. }
  set (bounds := {| crb_src_offset := _ |}).
  pose proof (copy_with_reservation_run mt request fh_in src offset_in fh_out dst offset_out n bounds Hin Fin Hout Fout
    Hlive Hoi Hoo Hn ltac:(unfold n; lia) ltac:(unfold n; lia) eq_refl) as Hcopy.
  change (crb_copy_len bounds) with n. rewrite (Z.mod_small n) by (unfold n in *; lia).
  assert (Hdo : range_answer mt fh_in src offset_in fh_out dst offset_out len
    (let '(result, mt) := copy_with_reservation cfg dedupe handles mt request fh_out src dst (mt_write_states mt !! fh_in)
       (mt_write_states mt !! fh_out) (view_len mt fh_out dst) bounds in (_ ← result; Ok n, mt))).
  { destruct (copy_with_reservation _ _ _ _ _ _ _ _ _ _ _ _) as [[[]|e|] mtc]; cbn; [|done|done].
    split_and!; [unfold n in *; lia|lia|done]. }
  destruct (can_adopt_whole_object _ _ _ _ _) eqn:Ead; [|exact Hdo].
  unfold can_adopt_whole_object in Ead. apply andb_true_iff in Ead as [[[[[E1%Z.eqb_eq E2%Z.eqb_eq]%andb_true_iff
    E3%Z.eqb_eq]%andb_true_iff E4%Z.eqb_eq]%andb_true_iff E5%negb_true_iff]%andb_true_iff E6%negb_true_iff].
  change (crb_src_offset bounds) with offset_in in E1. change (crb_dst_offset bounds) with offset_out in E2.
  change (crb_copy_len bounds) with n in E3.
  destruct (clean_view _ _ _ Hin E5) as [Zin _]. destruct (clean_view _ _ _ Hout E6) as [Zout _].
  unfold adopt_source_data_object_for_handle. destruct (_ ≫= _) as [[owner fence]|]; [|done].
  destruct (negb _); [done|].
  pose proof (repo_adopt_ok (mt_repo mt) src dst fence (mo_sane _ _ _ (ho_mount _ _ _ Hin))) as Ha.
  destruct (repo_adopt src dst fence (mt_repo mt)) as [[[]|e|] r]; [| | |done].
  - destruct Ha as (A1 & A2 & A3 & A4). assert (Hne : src <> dst) by (intros ->; rewrite Zin in Zout; injection Zout; lia).
    pose proof (adopted_run mt fh_in src fh_out dst r Hin Hout Hne E5 E6 E4 A1 A2 A3 A4) as Had. cbv zeta in Had.
    rewrite <- E3 in Had |- *. rewrite E1, E2. split_and!; [unfold n in *; lia|lia|]. intros _.
    by destruct (mt_write_states mt !! fh_out).
  - subst r. by destruct mt.
  - subst r. by destruct mt.
Qed.

(** C26: copy_file_range copies. A request between two open handles answers the number of
    bytes that the source has from the offset on, at most the length asked for; the
    destination then has, through its handle, exactly these bytes at its offset, zeroes
    in a gap before them and its old bytes elsewhere, whether the data object was adopted,
    the bytes were copied, or unchanged blocks were left out. Other files and the states
    of other handles stay. An answer of 0 changes nothing, and after an error no content
    has changed: at most the reservations of the quota have. *)
Theorem copy_file_range_correct mt request fh_in h_in src offset_in fh_out h_out dst offset_out len :
  handles !! fh_in = Some h_in -> hd_file_id h_in = Some src -> handles !! fh_out = Some h_out -> hd_file_id h_out = Some dst ->
  handle_ok mt fh_in src -> blocks_full mt fh_in src -> handle_ok mt fh_out dst -> blocks_full mt fh_out dst ->
  repo_live (mt_repo mt) -> 0 <= offset_in -> 0 <= offset_out -> 0 <= len < 2 ^ 32 -> offset_out + len <= I64_MAX ->
  match copy_file_range cfg dedupe handles read_only mt request fh_in offset_in fh_out offset_out len with
  | (Ok n, mt') =>
      read_only = false /\ Z.land (hd_flags h_in) O_ACCMODE <> O_WRONLY /\ Z.land (hd_flags h_out) O_ACCMODE <> O_RDONLY
      /\ n = Z.max 0 (Z.min len (view_len mt fh_in src - offset_in))
      /\ (n = 0 -> mt' = mt) /\ (0 < n -> copied mt fh_in src offset_in fh_out dst offset_out n mt')
  | (Err _, mt') => nothing_copied mt mt'
  | (Panic, _) => False
  end.
Proof.
  intros Hi Hsrc Ho Hdst Hin Fin Hout Fout Hlive Hoi Hoo Hlen He. unfold copy_file_range.
  assert (Hrefl : nothing_copied mt mt) by (split_and!; done || apply same_content_refl).
  destruct read_only; [done|]. rewrite Hi, Ho. destruct (_ || _) eqn:Ef; [done|].
  apply orb_false_iff in Ef as [F1%Z.eqb_neq F2%Z.eqb_neq]. destruct (Z.eqb_spec len 0) as [->|Hz].
  { split_and!; try done; lia. }
  unfold file_id_for_handle_or_errno. rewrite Hi, Ho, Hsrc, Hdst.
  pose proof (copy_files_run mt request fh_in src offset_in fh_out dst offset_out len Hin Fin Hout Fout Hlive Hoi Hoo Hlen He) as Hrun.
  destruct (copy_files _ _ _ _ _ _ _ _ _ _ _ _) as [[n|e|] mt']; [|done|done]. by destruct Hrun.
Qed.
End CopyProofs.

(** ** An instance *)

(** File 10 is open for reading through handle 2; file 11 for writing through handle 1. *)
Definition copy_handles : gmap Z FileHandle :=
  <[2 := {| hd_flags := 0; hd_file_id := Some 10; hd_write_fence := None |}]> sample_handles.

Definition sample_dedupe : CopyDedupe := {| cd_enabled := true; cd_min_blocks := 1; cd_max_blocks := 0 |}.

Lemma sample_handle_ok fh fid : fid = 10 \/ fid = 11 -> handle_ok 4 sample_mount fh fid /\ blocks_full 4 sample_mount fh fid.
Proof.
  intros Hfid. assert (Hsz : repo_size (mt_repo sample_mount) fid = Some 6) by (by destruct Hfid as [-> | ->]).
  split; [split|split; cbn].
  - split; [apply sample_sane|intros k d; cbn; by rewrite lookup_empty|].
    intros n k i. rewrite Hsz. intros [= <-] Hk Hi Hpos. change (byte_at (default [] (stored_block sample_db fid k)) i = 0).
    destruct (stored_block sample_db fid k) as [d|] eqn:E; [|apply byte_at_nil].
    apply sample_blocks in E as [[-> ->]|[-> ->]]; [lia|].
    assert (i = 2 \/ i = 3) as [-> | ->] by lia; reflexivity.
  - exists 6. split; [done|unfold I64_MAX; lia].
  - intros st. cbn. by rewrite lookup_empty.
  - intros st k b. by rewrite lookup_empty.
  - intros k d. by rewrite lookup_empty.
Qed.

(** The whole of file 10 from byte 3 of file 11 on. *)
Lemma copy_file_range_correct_witness :
  let '(res, mt') := copy_file_range sample_fuse sample_dedupe copy_handles false sample_mount "r" 2 0 1 3 100 in
  res = Ok 6 /\ view_len mt' 1 11 = 9 /\ view_byte 4 mt' 1 11 8 = 6 /\ view_byte 4 mt' 1 11 2 = 3.
Proof.
  destruct (sample_handle_ok 2 10 ltac:(by left)) as [I1 I2]. destruct (sample_handle_ok 1 11 ltac:(by right)) as [O1 O2].
  pose proof (copy_file_range_correct sample_fuse sample_dedupe 4 copy_handles false eq_refl sample_bs sample_mount "r"
    2 {| hd_flags := 0; hd_file_id := Some 10; hd_write_fence := None |} 10 0
    1 {| hd_flags := 2; hd_file_id := Some 11; hd_write_fence := Some (11, sample_fence) |} 11 3 100
    ltac:(vm_compute; reflexivity) eq_refl ltac:(vm_compute; reflexivity) eq_refl I1 I2 O1 O2
    ltac:(vm_compute; discriminate) ltac:(lia) ltac:(lia) ltac:(lia) ltac:(unfold I64_MAX; lia)) as Hc.
  destruct (copy_file_range sample_fuse sample_dedupe copy_handles false sample_mount "r" 2 0 1 3 100) as [res mt'] eqn:E.
  assert (Hres : res = Ok 6) by (change ((res, mt').1 = Ok 6); rewrite <- E; vm_compute; reflexivity). subst res.
  destruct Hc as (_ & _ & _ & _ & _ & Hc). destruct (Hc ltac:(lia)) as [_ Hlen Hb _ _]. split; [done|].
  split; [rewrite Hlen; vm_compute; reflexivity|]. rewrite !Hb by lia. split; vm_compute; reflexivity.
Defined.

(** The state that a copy leaves under its handle keeps the size of the file at that
    time. When another handle then extends the file, the next write through the handle
    of the copy persists the old size, and the file loses its end. *)
Example copy_leaves_a_stale_size :
  let handles := <[3 := {| hd_flags := 2; hd_file_id := Some 11; hd_write_fence := Some (11, sample_fence) |}]> copy_handles in
  let copied := (copy_file_range sample_fuse sample_dedupe handles false sample_mount "r" 2 0 1 3 100).2 in
  let extended := (write sample_fuse handles copied 3 11 20 [7; 8] false).2 in
  let '(res, mt') := write sample_fuse handles extended 1 11 0 [7; 8] false in
  repo_size (mt_repo copied) 11 = Some 9 /\ repo_size (mt_repo extended) 11 = Some 22 /\
  res = Ok 2 /\ repo_size (mt_repo mt') 11 = Some 9.
Proof. vm_compute. split_and!; reflexivity. Qed.
