(* ===== verification/Seconds.v ===== *)
(** * Durations in seconds

    The parts of [f64] and [Duration] of the Rust standard library that FOD uses on
    configured times: reading a number of seconds, the conversions between seconds and
    a duration in nanoseconds, and the shortest decimal text of a number. A finite
    number is its mantissa and exponent, and every result is rounded to the nearest
    number of 53 bits, half to even. The file holds no code of the repository, only the
    standard library it calls. *)

From stdpp Require Import prelude list numbers strings.
From Stdlib Require Import ZArith Lia Ascii.
From S2P Require Import Prelude Text.

#[local] Open Scope Z_scope.

(** [Finite neg m e] is [m * 2 ^ e], negated if [neg]. *)
Inductive f64 : Set := NaN | Infinite (neg : bool) | Finite (neg : bool) (m e : Z).

#[global] Instance f64_eq_dec : EqDecision f64.
Proof. solve_decision. Defined.

(** ** Rounding *)

Definition round_half_even (n d : Z) : Z :=
  let q := n / d in
  let r := n mod d in
  if 2 * r <? d then q else if d <? 2 * r then q + 1 else if Z.even q then q else q + 1.

(** [x * 2 ^ k] as a fraction. *)
Definition scale2 (n d k : Z) : Z * Z := if 0 <=? k then (n * 2 ^ k, d) else (n, d * 2 ^ (- k)).

(** The number nearest to the fraction [n / d], which is not negative. *)
Definition f64_round (neg : bool) (n d : Z) : f64 :=
  if n =? 0 then Finite neg 0 0
  else
    let e0 := Z.log2 n - Z.log2 d in
    let '(a, b) := scale2 n d (- e0) in
    let e := if b <=? a then e0 else e0 - 1 in
    let s := Z.max (e - 52) (-1074) in
    let '(a, b) := scale2 n d (- s) in
    let m := round_half_even a b in
    let '(m, s) := if m =? 2 ^ 53 then (2 ^ 52, s + 1) else (m, s) in
    if 971 <? s then Infinite neg else Finite neg m s.

(** ** Reading *)

Fixpoint span_digits (s : text) : text * text :=
  match s with
  | c :: s' => if is_digit c then let '(ds, r) := span_digits s' in (c :: ds, r) else ([], s)
  | [] => ([], [])
  end.

Definition take_sign (s : text) : bool * text :=
  match s with
  | c :: s' =>
      if bool_decide (c = ascii_of_nat 45) then (true, s')
      else if bool_decide (c = ascii_of_nat 43) then (false, s') else (false, s)
  | [] => (false, [])
  end.

Definition f64_decimal (neg : bool) (digits : text) (exponent : Z) : f64 :=
  let v := digits_value 0 digits in
  if 0 <=? exponent then f64_round neg (v * 10 ^ exponent) 1 else f64_round neg v (10 ^ (- exponent)).

(** [str::parse::<f64>]. *)
Definition f64_parse (s : text) : option f64 :=
  let '(neg, s) := take_sign s in
  let word := to_ascii_lowercase s in
  if bool_decide (word = txt "inf") || bool_decide (word = txt "infinity") then Some (Infinite neg)
  else if bool_decide (word = txt "nan") then Some NaN
  else
    let '(ip, r) := span_digits s in
    let '(fp, r) := match r with
                    | c :: r' => if bool_decide (c = ascii_of_nat 46) then span_digits r' else ([], r)
                    | [] => ([], [])
                    end in
    if bool_decide (ip ++ fp = []) then None
    else match r with
         | [] => Some (f64_decimal neg (ip ++ fp) (- zlen fp))
         | c :: r' =>
             if bool_decide (ascii_lower c = ascii_of_nat 101) then
               let '(eneg, r') := take_sign r' in
               let '(ed, rest) := span_digits r' in
               if bool_decide (ed = []) || negb (bool_decide (rest = [])) then None
               else let x := digits_value 0 ed in
                    Some (f64_decimal neg (ip ++ fp) ((if eneg then - x else x) - zlen fp))
             else None
         end.

Definition f64_is_finite (x : f64) : bool := match x with Finite _ _ _ => true | _ => false end.

(** [x < 0.0] and [x <= 0.0]. *)
Definition f64_lt_zero (x : f64) : bool :=
  match x with NaN => false | Infinite neg => neg | Finite neg m _ => neg && negb (m =? 0) end.
Definition f64_le_zero (x : f64) : bool :=
  match x with NaN => false | Infinite neg => neg | Finite neg m _ => neg || (m =? 0) end.

(** ** Durations, in nanoseconds *)

(** [Duration::from_secs_f64]; it panics on numbers that no duration has. *)
Definition from_secs_f64 (x : f64) : option Z :=
  match x with
  | Finite neg m e =>
      if neg && negb (m =? 0) then None
      else
        let '(a, b) := scale2 (m * 10 ^ 9) 1 e in
        let nanos := round_half_even a b in
        if nanos <? 2 ^ 64 * 10 ^ 9 then Some nanos else None
  | _ => None
  end.

(** [Duration::as_secs_f64]: the seconds and the fraction are added as numbers. *)
Definition as_secs_f64 (d : Z) : f64 :=
  match f64_round false (d / 10 ^ 9) 1, f64_round false (d mod 10 ^ 9) (10 ^ 9) with
  | Finite _ m e, Finite _ m' e' =>
      let '(a, b) := scale2 m 1 e in
      let '(a', b') := scale2 m' 1 e' in
      f64_round false (a * b' + a' * b) (b * b')
  | x, _ => x
  end.

(** ** Writing *)

(** The shortest digits that read back, and the power of ten of the last one. *)
Fixpoint shortest_digits (fuel : nat) (x : f64) (n d k : Z) : Z * Z :=
  let '(un, ud) := if 0 <=? k then (n, d * 10 ^ k) else (n * 10 ^ (- k), d) in
  let lo := un / ud in
  let reads c := bool_decide (f64_decimal false (print_u c) k = x) in
  match fuel with
  | O => (lo, k)
  | S fuel =>
      if reads lo && (negb (reads (lo + 1)) || (2 * (un mod ud) <=? ud)) then (lo, k)
      else if reads (lo + 1) then (lo + 1, k)
      else shortest_digits fuel x n d (k - 1)
  end.

(** The decimal exponent of [n / d] at its first digit, for a number above [10 ^ -20]. *)
Definition decimal_exponent (n d : Z) : Z :=
  if d <=? n then zlen (print_u (n / d)) - 1
  else default (-20) (head (filter (fun k => d <=? n * 10 ^ (- k)) (Z.opp <$> seqZ 1 20))).

Definition strip_zeros (s : text) : text := reverse (drop_while (fun c => bool_decide (c = ascii_of_nat 48)) (reverse s)).

(** [to_string] of the seconds of a duration. *)
Definition secs_to_string (x : f64) : text :=
  match x with
  | Finite _ m e =>
      if m =? 0 then txt "0"
      else
        let '(n, d) := scale2 m 1 e in
        let '(c, k) := shortest_digits 20 x n d (decimal_exponent n d) in
        if 0 <=? k then print_u (c * 10 ^ k)
        else
          let frac := print_u (10 ^ (- k) + c mod 10 ^ (- k)) in
          let frac := strip_zeros (drop 1 frac) in
          print_u (c / 10 ^ (- k)) ++ (if bool_decide (frac = []) then [] else ascii_of_nat 46 :: frac)
  | Infinite _ => txt "inf"
  | NaN => txt "NaN"
  end.

(** A duration that survives being written as seconds and read again. *)
Definition duration_text (d : Z) : text := secs_to_string (as_secs_f64 d).
Definition duration_of_text (s : text) : option Z := x ← f64_parse s; from_secs_f64 x.
Definition duration_survives (d : Z) : Prop := duration_of_text (trim (duration_text d)) = Some d.

#[global] Instance duration_survives_dec d : Decision (duration_survives d).
Proof. unfold duration_survives. apply _. Defined.

Example seconds_examples :
  duration_text 50000000 = txt "0.05" /\ duration_text 1000000000 = txt "1" /\ duration_text 30250000000 = txt "30.25"
  /\ duration_survives 50000000 /\ duration_survives 123456789012345 /\ duration_of_text (txt "1e-12") = Some 0
  /\ duration_of_text (txt "2.5e3") = Some 2500000000000 /\ duration_of_text (txt "1e30") = None
  /\ duration_of_text (txt "0.1") = Some 100000000.
Proof. repeat apply conj; vm_compute; reflexivity. Qed.
