(* ===== verification/RuntimeValues.v ===== *)
(** * Configured values and their validation

    Model of the value parsers and lookups of src/rust_runtime/src/lib.rs and of the
    rules of src/rust_runtime/src/validation.rs. A configuration is a lookup from keys
    to texts; errors keep the key and the kind of the message. *)

From stdpp Require Import prelude list numbers strings.
From Stdlib Require Import ZArith Lia Ascii.
From S2P Require Import Prelude Text Seconds.

#[local] Open Scope Z_scope.
Set Default Proof Using "Type".

Inductive ConfigError : Set :=
  | InvalidValue (key : text)
  | NotGreaterThanZero (key : text)
  | NegativeDuration (key : text)
  | NotReloadable.

(** ** Values *)

Definition lowered (value : text) : text := to_ascii_lowercase (trim value).

(** The alternative whose name is [value]. *)
Fixpoint choose {A} (alternatives : list (text * A)) (value : text) : option A :=
  match alternatives with
  | [] => None
  | (name, a) :: alternatives => if bool_decide (name = value) then Some a else choose alternatives value
  end.

Definition parse_bool (value : text) : option bool :=
  choose [(txt "1", true); (txt "true", true); (txt "yes", true); (txt "on", true);
          (txt "0", false); (txt "false", false); (txt "no", false); (txt "off", false)] (lowered value).

Inductive MountRole : Set := RoleAuto | RolePrimary | RoleReplica.
Inductive AtimePolicy : Set := AtimeDefault | NoAtime | Nodiratime | Relatime | StrictAtime.
Inductive LockBackend : Set := LockMemory | LockPostgresLease.
Inductive PersistBlockTransport : Set := CopyBinaryStaging | BinaryBytea | LegacyHex.
Inductive DataObjectSwapCleanup : Set := Immediate | Deferred.

Definition role_as_str (r : MountRole) : text :=
  match r with RoleAuto => txt "auto" | RolePrimary => txt "primary" | RoleReplica => txt "replica" end.
Definition role_parse (value : text) : option MountRole :=
  choose [(txt "auto", RoleAuto); (txt "primary", RolePrimary); (txt "replica", RoleReplica)] (lowered value).
Definition role_is_read_only (r : MountRole) (is_in_recovery : bool) : bool :=
  match r with RoleAuto => is_in_recovery | RolePrimary => false | RoleReplica => true end.

Definition atime_as_str (p : AtimePolicy) : text :=
  match p with
  | AtimeDefault => txt "default" | NoAtime => txt "noatime" | Nodiratime => txt "nodiratime"
  | Relatime => txt "relatime" | StrictAtime => txt "strictatime"
  end.
Definition atime_parse (value : text) : option AtimePolicy :=
  choose [(txt "default", AtimeDefault); (txt "noatime", NoAtime); (txt "nodiratime", Nodiratime);
          (txt "relatime", Relatime); (txt "strictatime", StrictAtime)] (lowered value).

(** [should_update] at the time [now], in nanoseconds: an access time in the future is
    never stale by time. *)
Definition should_update (p : AtimePolicy) (is_dir : bool) (atime mtime now : Z) : bool :=
  match p with
  | AtimeDefault | StrictAtime => true
  | NoAtime => false
  | Nodiratime => negb is_dir
  | Relatime => ((atime <=? now) && (24 * 60 * 60 * 10 ^ 9 <=? now - atime)) || (atime <? mtime)
  end.

Definition backend_as_str (b : LockBackend) : text :=
  match b with LockMemory => txt "memory" | LockPostgresLease => txt "postgres_lease" end.
Definition backend_parse (value : text) : option LockBackend :=
  choose [(txt "memory", LockMemory); (txt "postgres_lease", LockPostgresLease)] (lowered value).

Definition transport_as_str (t : PersistBlockTransport) : text :=
  match t with
  | CopyBinaryStaging => txt "copy_binary_staging" | BinaryBytea => txt "binary_bytea" | LegacyHex => txt "legacy_hex"
  end.
Definition transport_parse (value : text) : option PersistBlockTransport :=
  choose [(txt "copy_binary_staging", CopyBinaryStaging); (txt "binary_bytea", BinaryBytea);
          (txt "legacy_hex", LegacyHex)] (lowered value).

Definition cleanup_as_str (c : DataObjectSwapCleanup) : text :=
  match c with Immediate => txt "immediate" | Deferred => txt "deferred" end.
Definition cleanup_parse (value : text) : option DataObjectSwapCleanup :=
  choose [(txt "immediate", Immediate); (txt "deferred", Deferred)] (lowered value).

(** [str::strip_suffix]. *)
Definition strip_suffix (suffix s : text) : option text := reverse <$> strip_prefix (reverse suffix) (reverse s).

Definition size_units : list (text * Z) :=
  [(txt "kib", 1024); (txt "mib", 1024 ^ 2); (txt "gib", 1024 ^ 3); (txt "tib", 1024 ^ 4);
   (txt "kb", 1000); (txt "mb", 1000 ^ 2); (txt "gb", 1000 ^ 3); (txt "tb", 1000 ^ 4); (txt "b", 1)].

(** The number of a size and its unit: the first suffix that fits. *)
Fixpoint split_unit (units : list (text * Z)) (lower : text) : text * Z :=
  match units with
  | (suffix, multiplier) :: units =>
      match strip_suffix suffix lower with
      | Some stripped => (stripped, multiplier)
      | None => split_unit units lower
      end
  | [] => (lower, 1)
  end.

Definition parse_size_bytes (value : text) : option Z :=
  let text := trim value in
  if bool_decide (text = []) then None
  else
    let '(number_text, multiplier) := split_unit size_units (to_ascii_lowercase text) in
    number ← parse_u64 (trim number_text);
    checked_mul number multiplier.

(** [visible_total] is what statvfs answers for [pg_visible_path], if that is set. *)
Definition resolve_max_fs_size_bytes (max_fs_size_bytes : option text) (visible_total : option (option Z))
    (default_max_fs_size_bytes : Z) : option Z :=
  requested ← match max_fs_size_bytes with
              | Some value => if bool_decide (trim value = []) then Some default_max_fs_size_bytes else parse_size_bytes value
              | None => Some default_max_fs_size_bytes
              end;
  match visible_total with
  | Some total => Z.min requested <$> total
  | None => Some requested
  end.

(** ** Lookups *)

Definition Lookup : Type := text -> option text.

Definition nonempty (value : text) : option text := if bool_decide (value = []) then None else Some value.

Definition lookup_value (lookup : Lookup) (key : text) : option text :=
  value ← lookup key; nonempty (trim value).

Definition parse_bool_or_default (value : option text) (dflt : bool) : bool :=
  match value with
  | Some value => negb (bool_decide (lowered value ∈ [[]; txt "0"; txt "false"; txt "no"; txt "off"]))
  | None => dflt
  end.

Definition parse_u64_or (value : option text) (dflt : Z) : Z := default dflt (value ≫= parse_u64).

(** [parse_duration_secs]: [Duration::from_secs_f64] panics when the number is finite
    and too large. *)
Definition duration_or_panic {E} (x : f64) : outcome E Z :=
  match from_secs_f64 x with Some d => Ok d | None => Panic end.

Definition parse_duration_secs {E} (value : option text) (default_secs : f64) : outcome E Z :=
  match value ≫= f64_parse with
  | Some x => if f64_is_finite x && negb (f64_lt_zero x) then duration_or_panic x else duration_or_panic default_secs
  | None => duration_or_panic default_secs
  end.

Definition lookup_bool (lookup : Lookup) (key : text) (dflt : bool) : bool :=
  parse_bool_or_default (lookup_value lookup key) dflt.
Definition lookup_u64 (lookup : Lookup) (key : text) (dflt : Z) : Z := parse_u64_or (lookup_value lookup key) dflt.
Definition lookup_size_u64 (lookup : Lookup) (key : text) (dflt : Z) : Z :=
  default dflt (lookup_value lookup key ≫= parse_size_bytes).
Definition lookup_duration {E} (lookup : Lookup) (key : text) (default_secs : f64) : outcome E Z :=
  parse_duration_secs (lookup_value lookup key) default_secs.
Definition lookup_string (lookup : Lookup) (key dflt : text) : text := default dflt (lookup_value lookup key).

(** ** Rules *)

Inductive RuntimeValueKind : Set :=
  | KBool
  | KSelinux
  | KChoice (allowed : list text)
  | KU64 (allow_zero : bool)
  | KDuration (allow_zero : bool)
  | KSizeBytes (allow_zero : bool).

Record RuntimeValueSpec := {
  vs_key : text; vs_kind : RuntimeValueKind; vs_tuning : bool; vs_runtime_env_overrides : bool;
}.

Definition tuning_only (key : text) (kind : RuntimeValueKind) : RuntimeValueSpec :=
  {| vs_key := key; vs_kind := kind; vs_tuning := true; vs_runtime_env_overrides := false |}.
Definition tuning_and_runtime_env (key : text) (kind : RuntimeValueKind) : RuntimeValueSpec :=
  {| vs_key := key; vs_kind := kind; vs_tuning := true; vs_runtime_env_overrides := true |}.

Inductive RuntimeValidationTarget : Set := Tuning | RuntimeEnvOverrides.
Definition applies_to (spec : RuntimeValueSpec) (target : RuntimeValidationTarget) : bool :=
  match target with Tuning => vs_tuning spec | RuntimeEnvOverrides => vs_runtime_env_overrides spec end.

Definition validate_bool_value (key value : text) : outcome ConfigError unit :=
  match parse_bool value with Some _ => Ok tt | None => Err (InvalidValue key) end.

Definition validate_selinux_value (key value : text) : outcome ConfigError unit :=
  if negb (bool_decide (lowered value = txt "auto")) && bool_decide (parse_bool (lowered value) = None)
  then Err (InvalidValue key) else Ok tt.

Definition validate_u64_value (key value : text) (allow_zero : bool) : outcome ConfigError unit :=
  match parse_u64 value with
  | None => Err (InvalidValue key)
  | Some parsed => if negb allow_zero && (parsed =? 0) then Err (NotGreaterThanZero key) else Ok tt
  end.

Definition validate_duration_value (key value : text) (allow_zero : bool) : outcome ConfigError unit :=
  match f64_parse value with
  | None => Err (InvalidValue key)
  | Some parsed =>
      if negb (f64_is_finite parsed) || (negb allow_zero && f64_le_zero parsed) || (allow_zero && f64_lt_zero parsed)
      then Err (if allow_zero then NegativeDuration key else NotGreaterThanZero key) else Ok tt
  end.

Definition validate_choice_value (key value : text) (allowed : list text) : outcome ConfigError unit :=
  if bool_decide (lowered value ∈ allowed) then Ok tt else Err (InvalidValue key).

Definition validate_size_value (key value : text) (allow_zero : bool) : outcome ConfigError unit :=
  match parse_size_bytes value with
  | None => Err (InvalidValue key)
  | Some parsed => if negb allow_zero && (parsed =? 0) then Err (NotGreaterThanZero key) else Ok tt
  end.

Definition validate_kind (key value : text) (kind : RuntimeValueKind) : outcome ConfigError unit :=
  match kind with
  | KBool => validate_bool_value key value
  | KSelinux => validate_selinux_value key value
  | KChoice allowed => validate_choice_value key value allowed
  | KU64 allow_zero => validate_u64_value key value allow_zero
  | KDuration allow_zero => validate_duration_value key value allow_zero
  | KSizeBytes allow_zero => validate_size_value key value allow_zero
  end.

Definition validate_runtime_value_spec (lookup : Lookup) (spec : RuntimeValueSpec) : outcome ConfigError unit :=
  match lookup_value lookup (vs_key spec) with
  | Some value => validate_kind (vs_key spec) value (vs_kind spec)
  | None => Ok tt
  end.

(** The rules are tried in their order; the first error is reported. *)
Fixpoint validate_specs (lookup : Lookup) (target : RuntimeValidationTarget) (specs : list RuntimeValueSpec)
    : outcome ConfigError unit :=
  match specs with
  | [] => Ok tt
  | spec :: specs =>
      if applies_to spec target
      then _ ← validate_runtime_value_spec lookup spec; validate_specs lookup target specs
      else validate_specs lookup target specs
  end.

Definition RUNTIME_VALUE_SPECS : list RuntimeValueSpec := [
  tuning_only (txt "role") (KChoice [txt "auto"; txt "primary"; txt "replica"]);
  tuning_and_runtime_env (txt "force_read_only") KBool;
  tuning_only (txt "selinux") KSelinux;
  tuning_only (txt "acl") KBool;
  tuning_only (txt "atime_policy")
    (KChoice [txt "default"; txt "noatime"; txt "nodiratime"; txt "relatime"; txt "strictatime"]);
  tuning_only (txt "default_permissions") KBool;
  tuning_only (txt "lazytime") KBool;
  tuning_only (txt "sync") KBool;
  tuning_only (txt "dirsync") KBool;
  tuning_only (txt "log_level")
    (KChoice [txt "off"; txt "error"; txt "warn"; txt "info"; txt "debug"; txt "trace"]);
  tuning_and_runtime_env (txt "use_fuse_context") KBool;
  tuning_and_runtime_env (txt "fopen_direct_io") KBool;
  tuning_and_runtime_env (txt "fuse_writeback_cache") KBool;
  tuning_and_runtime_env (txt "use_rust_fuse") KBool;
  tuning_and_runtime_env (txt "pool_max_connections") (KU64 false);
  tuning_and_runtime_env (txt "read_cache_blocks") (KU64 true);
  tuning_and_runtime_env (txt "read_cache_eviction_policy") (KChoice [txt "fifo"; txt "lru"]);
  tuning_and_runtime_env (txt "read_ahead_blocks") (KU64 true);
  tuning_and_runtime_env (txt "sequential_read_ahead_blocks") (KU64 true);
  tuning_and_runtime_env (txt "direct_io_read_prefetch_blocks") (KU64 true);
  tuning_and_runtime_env (txt "small_file_read_threshold_blocks") (KU64 true);
  tuning_and_runtime_env (txt "workers_read") (KU64 true);
  tuning_and_runtime_env (txt "workers_read_min_blocks") (KU64 true);
  tuning_and_runtime_env (txt "workers_write") (KU64 true);
  tuning_and_runtime_env (txt "workers_write_min_blocks") (KU64 true);
  tuning_and_runtime_env (txt "persist_buffer_chunk_blocks") (KU64 false);
  tuning_and_runtime_env (txt "persist_block_transport")
    (KChoice [txt "copy_binary_staging"; txt "binary_bytea"; txt "legacy_hex"]);
  tuning_and_runtime_env (txt "data_object_swap_cleanup") (KChoice [txt "immediate"; txt "deferred"]);
  tuning_and_runtime_env (txt "write_flush_threshold_bytes") (KSizeBytes true);
  tuning_and_runtime_env (txt "synchronous_commit")
    (KChoice [txt "on"; txt "off"; txt "local"; txt "remote_write"; txt "remote_apply"; txt "true"; txt "false"]);
  tuning_and_runtime_env (txt "lock_backend") (KChoice [txt "memory"; txt "postgres_lease"]);
  tuning_and_runtime_env (txt "metadata_cache_ttl_seconds") (KDuration true);
  tuning_and_runtime_env (txt "statfs_cache_ttl_seconds") (KDuration true);
  tuning_and_runtime_env (txt "lock_lease_ttl_seconds") (KDuration false);
  tuning_and_runtime_env (txt "lock_heartbeat_interval_seconds") (KDuration false);
  tuning_and_runtime_env (txt "lock_poll_interval_seconds") (KDuration false);
  tuning_and_runtime_env (txt "copy_dedupe_enabled") KBool;
  tuning_and_runtime_env (txt "copy_dedupe_min_blocks") (KU64 true);
  tuning_and_runtime_env (txt "copy_dedupe_max_blocks") (KU64 true);
  tuning_and_runtime_env (txt "copy_dedupe_crc_table") KBool;
  tuning_and_runtime_env (txt "max_fs_size_bytes") (KSizeBytes true)].

Definition validate_runtime_tuning_lookup (lookup : Lookup) : outcome ConfigError unit :=
  validate_specs lookup Tuning RUNTIME_VALUE_SPECS.
Definition validate_runtime_env_overrides_lookup (lookup : Lookup) : outcome ConfigError unit :=
  validate_specs lookup RuntimeEnvOverrides RUNTIME_VALUE_SPECS.
