(* ===== verification/RuntimeConfig.v ===== *)
(** * The runtime configuration

    Model of [RuntimeConfig] of src/rust_runtime/src/lib.rs: how it is read from a lookup
    of texts, overridden by the environment and the options of the bootstrap program,
    handed to the mount process through the environment, and reloaded while mounted.
    Durations are in nanoseconds, paths are texts. *)

From stdpp Require Import prelude list numbers strings gmap.
From Stdlib Require Import ZArith Lia Ascii.
From S2P Require Import Prelude Text Seconds RuntimeValues.

#[local] Open Scope Z_scope.
Set Default Proof Using "Type".

(** ** The record *)

Record RuntimeConfig := {
  cf_profile : option text;
  cf_role : MountRole;
  cf_force_read_only : bool;
  cf_selinux : text;
  cf_acl : text;
  cf_atime_policy : AtimePolicy;
  cf_default_permissions : bool;
  cf_lazytime : bool;
  cf_sync : bool;
  cf_dirsync : bool;
  cf_log_level : text;
  cf_use_fuse_context : bool;
  cf_fopen_direct_io : bool;
  cf_fuse_writeback_cache : bool;
  cf_use_rust_fuse : bool;
  cf_pool_max_connections : Z;
  cf_read_cache_blocks : Z;
  cf_read_cache_eviction_policy : text;
  cf_read_ahead_blocks : Z;
  cf_sequential_read_ahead_blocks : Z;
  cf_direct_io_read_prefetch_blocks : Z;
  cf_small_file_read_threshold_blocks : Z;
  cf_workers_read : Z;
  cf_workers_read_min_blocks : Z;
  cf_workers_write : Z;
  cf_workers_write_min_blocks : Z;
  cf_persist_buffer_chunk_blocks : Z;
  cf_persist_block_transport : PersistBlockTransport;
  cf_data_object_swap_cleanup : DataObjectSwapCleanup;
  cf_synchronous_commit : text;
  cf_write_flush_threshold_bytes : Z;
  cf_max_fs_size_bytes : option Z;
  cf_pg_visible_path : option text;
  cf_metadata_cache_ttl : Z;
  cf_statfs_cache_ttl : Z;
  cf_lock_backend : LockBackend;
  cf_lock_lease_ttl : Z;
  cf_lock_heartbeat_interval : Z;
  cf_lock_poll_interval : Z;
  cf_copy_dedupe_enabled : bool;
  cf_copy_dedupe_min_blocks : Z;
  cf_copy_dedupe_max_blocks : Z;
  cf_copy_dedupe_crc_table : bool;
  cf_selinux_context : option text;
  cf_selinux_fscontext : option text;
  cf_selinux_defcontext : option text;
  cf_selinux_rootcontext : option text;
}.

Definition DEFAULT_METADATA_TTL : Z := 1 * 10 ^ 9.
Definition DEFAULT_STATFS_TTL : Z := 2 * 10 ^ 9.
Definition DEFAULT_LOCK_LEASE_TTL : Z := 30 * 10 ^ 9.
Definition DEFAULT_LOCK_POLL_INTERVAL : Z := 50 * 10 ^ 6.

(** A parser whose error ends the call. *)
Definition required {A} (key : text) (value : option A) : outcome ConfigError A :=
  match value with Some a => Ok a | None => Err (InvalidValue key) end.

Definition from_lookup (lookup : Lookup) : outcome ConfigError RuntimeConfig :=
  _ ← validate_runtime_tuning_lookup lookup;
  persist_block_transport ← required (txt "persist_block_transport") (transport_parse (lookup_string lookup (txt "persist_block_transport") (txt "copy_binary_staging")));
  data_object_swap_cleanup ← required (txt "data_object_swap_cleanup") (cleanup_parse (lookup_string lookup (txt "data_object_swap_cleanup") (txt "immediate")));
  metadata_cache_ttl ← lookup_duration lookup (txt "metadata_cache_ttl_seconds") (as_secs_f64 DEFAULT_METADATA_TTL);
  statfs_cache_ttl ← lookup_duration lookup (txt "statfs_cache_ttl_seconds") (as_secs_f64 DEFAULT_STATFS_TTL);
  lock_lease_ttl ← lookup_duration lookup (txt "lock_lease_ttl_seconds") (as_secs_f64 DEFAULT_LOCK_LEASE_TTL);
  lock_heartbeat_interval ← lookup_duration lookup (txt "lock_heartbeat_interval_seconds") (as_secs_f64 (10 * 10 ^ 9));
  lock_poll_interval ← lookup_duration lookup (txt "lock_poll_interval_seconds") (as_secs_f64 DEFAULT_LOCK_POLL_INTERVAL);
  Ok {|
    cf_profile := lookup_value lookup (txt "profile");
    cf_role := default RoleAuto (role_parse (lookup_string lookup (txt "role") (txt "auto")));
    cf_force_read_only := lookup_bool lookup (txt "force_read_only") false;
    cf_selinux := lookup_string lookup (txt "selinux") (txt "off");
    cf_acl := lookup_string lookup (txt "acl") (txt "off");
    cf_atime_policy := default AtimeDefault (atime_parse (lookup_string lookup (txt "atime_policy") (txt "default")));
    cf_default_permissions := lookup_bool lookup (txt "default_permissions") true;
    cf_lazytime := lookup_bool lookup (txt "lazytime") false;
    cf_sync := lookup_bool lookup (txt "sync") false;
    cf_dirsync := lookup_bool lookup (txt "dirsync") false;
    cf_log_level := lookup_string lookup (txt "log_level") (txt "INFO");
    cf_use_fuse_context := lookup_bool lookup (txt "use_fuse_context") true;
    cf_fopen_direct_io := lookup_bool lookup (txt "fopen_direct_io") false;
    cf_fuse_writeback_cache := lookup_bool lookup (txt "fuse_writeback_cache") false;
    cf_use_rust_fuse := lookup_bool lookup (txt "use_rust_fuse") true;
    cf_pool_max_connections := lookup_u64 lookup (txt "pool_max_connections") 10;
    cf_read_cache_blocks := lookup_u64 lookup (txt "read_cache_blocks") 1024;
    cf_read_cache_eviction_policy := lookup_string lookup (txt "read_cache_eviction_policy") (txt "fifo");
    cf_read_ahead_blocks := lookup_u64 lookup (txt "read_ahead_blocks") 4;
    cf_sequential_read_ahead_blocks := lookup_u64 lookup (txt "sequential_read_ahead_blocks") 8;
    cf_direct_io_read_prefetch_blocks := lookup_u64 lookup (txt "direct_io_read_prefetch_blocks") 512;
    cf_small_file_read_threshold_blocks := lookup_u64 lookup (txt "small_file_read_threshold_blocks") 8;
    cf_workers_read := lookup_u64 lookup (txt "workers_read") 4;
    cf_workers_read_min_blocks := lookup_u64 lookup (txt "workers_read_min_blocks") 8;
    cf_workers_write := lookup_u64 lookup (txt "workers_write") 4;
    cf_workers_write_min_blocks := lookup_u64 lookup (txt "workers_write_min_blocks") 8;
    cf_persist_buffer_chunk_blocks := lookup_u64 lookup (txt "persist_buffer_chunk_blocks") 128;
    cf_persist_block_transport := persist_block_transport;
    cf_data_object_swap_cleanup := data_object_swap_cleanup;
    cf_synchronous_commit := lookup_string lookup (txt "synchronous_commit") (txt "on");
    cf_write_flush_threshold_bytes := lookup_size_u64 lookup (txt "write_flush_threshold_bytes") 0;
    cf_max_fs_size_bytes := lookup_value lookup (txt "max_fs_size_bytes") ≫= parse_size_bytes;
    cf_pg_visible_path := lookup_value lookup (txt "pg_visible_path");
    cf_metadata_cache_ttl := metadata_cache_ttl;
    cf_statfs_cache_ttl := statfs_cache_ttl;
    cf_lock_backend := default LockPostgresLease (backend_parse (lookup_string lookup (txt "lock_backend") (txt "postgres_lease")));
    cf_lock_lease_ttl := lock_lease_ttl;
    cf_lock_heartbeat_interval := lock_heartbeat_interval;
    cf_lock_poll_interval := lock_poll_interval;
    cf_copy_dedupe_enabled := lookup_bool lookup (txt "copy_dedupe_enabled") false;
    cf_copy_dedupe_min_blocks := lookup_u64 lookup (txt "copy_dedupe_min_blocks") 0;
    cf_copy_dedupe_max_blocks := lookup_u64 lookup (txt "copy_dedupe_max_blocks") 0;
    cf_copy_dedupe_crc_table := lookup_bool lookup (txt "copy_dedupe_crc_table") false;
    cf_selinux_context := lookup_value lookup (txt "selinux_context");
    cf_selinux_fscontext := lookup_value lookup (txt "selinux_fscontext");
    cf_selinux_defcontext := lookup_value lookup (txt "selinux_defcontext");
    cf_selinux_rootcontext := lookup_value lookup (txt "selinux_rootcontext")
  |}.

(** The settings as texts, in the order they are written; [print_bool] is how a
    boolean is written. *)
Definition settings_entries (print_bool : bool -> text) (c : RuntimeConfig) : list (text * option text) := [
  (txt "profile", cf_profile c);
  (txt "role", Some (role_as_str (cf_role c)));
  (txt "force_read_only", Some (print_bool (cf_force_read_only c)));
  (txt "selinux", Some (cf_selinux c));
  (txt "acl", Some (cf_acl c));
  (txt "atime_policy", Some (atime_as_str (cf_atime_policy c)));
  (txt "default_permissions", Some (print_bool (cf_default_permissions c)));
  (txt "lazytime", Some (print_bool (cf_lazytime c)));
  (txt "sync", Some (print_bool (cf_sync c)));
  (txt "dirsync", Some (print_bool (cf_dirsync c)));
  (txt "log_level", Some (cf_log_level c));
  (txt "use_fuse_context", Some (print_bool (cf_use_fuse_context c)));
  (txt "fopen_direct_io", Some (print_bool (cf_fopen_direct_io c)));
  (txt "fuse_writeback_cache", Some (print_bool (cf_fuse_writeback_cache c)));
  (txt "use_rust_fuse", Some (print_bool (cf_use_rust_fuse c)));
  (txt "pool_max_connections", Some (print_u (cf_pool_max_connections c)));
  (txt "read_cache_blocks", Some (print_u (cf_read_cache_blocks c)));
  (txt "read_cache_eviction_policy", Some (cf_read_cache_eviction_policy c));
  (txt "read_ahead_blocks", Some (print_u (cf_read_ahead_blocks c)));
  (txt "sequential_read_ahead_blocks", Some (print_u (cf_sequential_read_ahead_blocks c)));
  (txt "direct_io_read_prefetch_blocks", Some (print_u (cf_direct_io_read_prefetch_blocks c)));
  (txt "small_file_read_threshold_blocks", Some (print_u (cf_small_file_read_threshold_blocks c)));
  (txt "workers_read", Some (print_u (cf_workers_read c)));
  (txt "workers_read_min_blocks", Some (print_u (cf_workers_read_min_blocks c)));
  (txt "workers_write", Some (print_u (cf_workers_write c)));
  (txt "workers_write_min_blocks", Some (print_u (cf_workers_write_min_blocks c)));
  (txt "persist_buffer_chunk_blocks", Some (print_u (cf_persist_buffer_chunk_blocks c)));
  (txt "persist_block_transport", Some (transport_as_str (cf_persist_block_transport c)));
  (txt "data_object_swap_cleanup", Some (cleanup_as_str (cf_data_object_swap_cleanup c)));
  (txt "synchronous_commit", Some (cf_synchronous_commit c));
  (txt "write_flush_threshold_bytes", Some (print_u (cf_write_flush_threshold_bytes c)));
  (txt "max_fs_size_bytes", print_u <$> cf_max_fs_size_bytes c);
  (txt "pg_visible_path", cf_pg_visible_path c);
  (txt "metadata_cache_ttl_seconds", Some (duration_text (cf_metadata_cache_ttl c)));
  (txt "statfs_cache_ttl_seconds", Some (duration_text (cf_statfs_cache_ttl c)));
  (txt "lock_backend", Some (backend_as_str (cf_lock_backend c)));
  (txt "lock_lease_ttl_seconds", Some (duration_text (cf_lock_lease_ttl c)));
  (txt "lock_heartbeat_interval_seconds", Some (duration_text (cf_lock_heartbeat_interval c)));
  (txt "lock_poll_interval_seconds", Some (duration_text (cf_lock_poll_interval c)));
  (txt "copy_dedupe_enabled", Some (print_bool (cf_copy_dedupe_enabled c)));
  (txt "copy_dedupe_min_blocks", Some (print_u (cf_copy_dedupe_min_blocks c)));
  (txt "copy_dedupe_max_blocks", Some (print_u (cf_copy_dedupe_max_blocks c)));
  (txt "copy_dedupe_crc_table", Some (print_bool (cf_copy_dedupe_crc_table c)));
  (txt "selinux_context", cf_selinux_context c);
  (txt "selinux_fscontext", cf_selinux_fscontext c);
  (txt "selinux_defcontext", cf_selinux_defcontext c);
  (txt "selinux_rootcontext", cf_selinux_rootcontext c)].

(** ** Maps and the environment *)

Abbreviation RuntimeMap := (gmap text text).

(** [set_map_string], [set_string] and their relatives: an absent value removes the key. *)
Definition set_entry (m : RuntimeMap) (entry : text * option text) : RuntimeMap :=
  match entry.2 with Some value => <[entry.1 := value]> m | None => delete entry.1 m end.

Definition map_bool (value : bool) : text := if value then txt "true" else txt "false".
Definition env_bool (value : bool) : text := if value then txt "1" else txt "0".

Definition to_runtime_map (c : RuntimeConfig) : RuntimeMap := foldl set_entry ∅ (settings_entries map_bool c).
Definition from_runtime_map (runtime : RuntimeMap) : outcome ConfigError RuntimeConfig :=
  from_lookup (fun key => runtime !! key).

Definition is_ascii_alphanumeric (c : ascii) : bool :=
  let k := char_code c in
  ((48 <=? k) && (k <=? 57)) || ((65 <=? k) && (k <=? 90)) || ((97 <=? k) && (k <=? 122)).
Definition ascii_upper (c : ascii) : ascii :=
  let k := char_code c in if (97 <=? k) && (k <=? 122) then ascii_of_nat (nat_of_ascii c - 32) else c.

(** [trim_matches] for one character. *)
Definition trim_matches (c : ascii) (s : text) : text :=
  let drop_c := drop_while (fun x => bool_decide (x = c)) in reverse (drop_c (reverse (drop_c s))).

Definition runtime_env_var_name (key : text) : option text :=
  let normalized :=
    if bool_decide (key = txt "force_read_only") then txt "RUST_FUSE_READONLY"
    else trim_matches "_"%char ((fun c => if is_ascii_alphanumeric c then ascii_upper c else "_"%char) <$> key) in
  if bool_decide (normalized = []) then None else Some (txt "FOD_" ++ normalized).

(** [env]: the variables of the process whose values are text. *)
Definition runtime_env_var_value (env : RuntimeMap) (key : text) : option text :=
  name ← runtime_env_var_name key; env !! name.

Definition from_env (env : RuntimeMap) : outcome ConfigError RuntimeConfig := from_lookup (runtime_env_var_value env).

(** [apply_env] writes the same settings, with the names of the variables. *)
Definition env_entry (entry : text * option text) : text * option text :=
  (default [] (runtime_env_var_name entry.1), entry.2).
Definition apply_env (c : RuntimeConfig) (env : RuntimeMap) : RuntimeMap :=
  foldl set_entry env (env_entry <$> settings_entries env_bool c).

Definition apply_runtime_env_from_map (runtime : list (text * text)) (env : RuntimeMap) : RuntimeMap :=
  foldl (fun env entry =>
           match runtime_env_var_name entry.1 with Some name => <[name := entry.2]> env | None => env end) env runtime.

(** ** Overrides *)

Definition unless_blank (value : text) : option text := if bool_decide (trim value = []) then None else Some value.

(** [env] by the names of its variables. *)
Definition apply_runtime_env_overrides (env : Lookup) (c : RuntimeConfig) : outcome ConfigError RuntimeConfig :=
  metadata_cache_ttl ← parse_duration_secs (env (txt "FOD_METADATA_CACHE_TTL_SECONDS")) (as_secs_f64 (cf_metadata_cache_ttl c));
  statfs_cache_ttl ← parse_duration_secs (env (txt "FOD_STATFS_CACHE_TTL_SECONDS")) (as_secs_f64 (cf_statfs_cache_ttl c));
  lock_lease_ttl ← parse_duration_secs (env (txt "FOD_LOCK_LEASE_TTL_SECONDS")) (as_secs_f64 (cf_lock_lease_ttl c));
  lock_heartbeat_interval ← parse_duration_secs (env (txt "FOD_LOCK_HEARTBEAT_INTERVAL_SECONDS")) (as_secs_f64 (cf_lock_heartbeat_interval c));
  lock_poll_interval ← parse_duration_secs (env (txt "FOD_LOCK_POLL_INTERVAL_SECONDS")) (as_secs_f64 (cf_lock_poll_interval c));
  Ok {|
    cf_profile := cf_profile c;
    cf_role := cf_role c;
    cf_force_read_only := parse_bool_or_default (env (txt "FOD_RUST_FUSE_READONLY")) (cf_force_read_only c);
    cf_selinux := cf_selinux c;
    cf_acl := cf_acl c;
    cf_atime_policy := cf_atime_policy c;
    cf_default_permissions := cf_default_permissions c;
    cf_lazytime := cf_lazytime c;
    cf_sync := cf_sync c;
    cf_dirsync := cf_dirsync c;
    cf_log_level := cf_log_level c;
    cf_use_fuse_context := parse_bool_or_default (env (txt "FOD_USE_FUSE_CONTEXT")) (cf_use_fuse_context c);
    cf_fopen_direct_io := parse_bool_or_default (env (txt "FOD_FOPEN_DIRECT_IO")) (cf_fopen_direct_io c);
    cf_fuse_writeback_cache := parse_bool_or_default (env (txt "FOD_FUSE_WRITEBACK_CACHE")) (cf_fuse_writeback_cache c);
    cf_use_rust_fuse := parse_bool_or_default (env (txt "FOD_USE_RUST_FUSE")) (cf_use_rust_fuse c);
    cf_pool_max_connections := parse_u64_or (env (txt "FOD_POOL_MAX_CONNECTIONS")) (cf_pool_max_connections c);
    cf_read_cache_blocks := parse_u64_or (env (txt "FOD_READ_CACHE_BLOCKS")) (cf_read_cache_blocks c);
    cf_read_cache_eviction_policy := default (cf_read_cache_eviction_policy c) ((env (txt "FOD_READ_CACHE_EVICTION_POLICY")) ≫= fun value => if bool_decide (lowered value ∈ [txt "fifo"; txt "lru"]) then Some (lowered value) else None);
    cf_read_ahead_blocks := parse_u64_or (env (txt "FOD_READ_AHEAD_BLOCKS")) (cf_read_ahead_blocks c);
    cf_sequential_read_ahead_blocks := parse_u64_or (env (txt "FOD_SEQUENTIAL_READ_AHEAD_BLOCKS")) (cf_sequential_read_ahead_blocks c);
    cf_direct_io_read_prefetch_blocks := parse_u64_or (env (txt "FOD_DIRECT_IO_READ_PREFETCH_BLOCKS")) (cf_direct_io_read_prefetch_blocks c);
    cf_small_file_read_threshold_blocks := parse_u64_or (env (txt "FOD_SMALL_FILE_READ_THRESHOLD_BLOCKS")) (cf_small_file_read_threshold_blocks c);
    cf_workers_read := parse_u64_or (env (txt "FOD_WORKERS_READ")) (cf_workers_read c);
    cf_workers_read_min_blocks := parse_u64_or (env (txt "FOD_WORKERS_READ_MIN_BLOCKS")) (cf_workers_read_min_blocks c);
    cf_workers_write := parse_u64_or (env (txt "FOD_WORKERS_WRITE")) (cf_workers_write c);
    cf_workers_write_min_blocks := parse_u64_or (env (txt "FOD_WORKERS_WRITE_MIN_BLOCKS")) (cf_workers_write_min_blocks c);
    cf_persist_buffer_chunk_blocks := parse_u64_or (env (txt "FOD_PERSIST_BUFFER_CHUNK_BLOCKS")) (cf_persist_buffer_chunk_blocks c);
    cf_persist_block_transport := default (cf_persist_block_transport c) ((env (txt "FOD_PERSIST_BLOCK_TRANSPORT")) ≫= transport_parse);
    cf_data_object_swap_cleanup := default (cf_data_object_swap_cleanup c) ((env (txt "FOD_DATA_OBJECT_SWAP_CLEANUP")) ≫= cleanup_parse);
    cf_synchronous_commit := default (cf_synchronous_commit c) ((env (txt "FOD_SYNCHRONOUS_COMMIT")) ≫= unless_blank);
    cf_write_flush_threshold_bytes := default (cf_write_flush_threshold_bytes c) ((env (txt "FOD_WRITE_FLUSH_THRESHOLD_BYTES")) ≫= parse_size_bytes);
    cf_max_fs_size_bytes := match (env (txt "FOD_MAX_FS_SIZE_BYTES")) ≫= parse_size_bytes with
                            | Some value => if value =? 0 then None else Some value
                            | None => cf_max_fs_size_bytes c
                            end;
    cf_pg_visible_path := ((env (txt "FOD_PG_VISIBLE_PATH")) ≫= fun value => nonempty (trim value)) ∪ cf_pg_visible_path c;
    cf_metadata_cache_ttl := metadata_cache_ttl;
    cf_statfs_cache_ttl := statfs_cache_ttl;
    cf_lock_backend := default (cf_lock_backend c) ((env (txt "FOD_LOCK_BACKEND")) ≫= backend_parse);
    cf_lock_lease_ttl := lock_lease_ttl;
    cf_lock_heartbeat_interval := lock_heartbeat_interval;
    cf_lock_poll_interval := lock_poll_interval;
    cf_copy_dedupe_enabled := parse_bool_or_default (env (txt "FOD_COPY_DEDUPE_ENABLED")) (cf_copy_dedupe_enabled c);
    cf_copy_dedupe_min_blocks := parse_u64_or (env (txt "FOD_COPY_DEDUPE_MIN_BLOCKS")) (cf_copy_dedupe_min_blocks c);
    cf_copy_dedupe_max_blocks := parse_u64_or (env (txt "FOD_COPY_DEDUPE_MAX_BLOCKS")) (cf_copy_dedupe_max_blocks c);
    cf_copy_dedupe_crc_table := parse_bool_or_default (env (txt "FOD_COPY_DEDUPE_CRC_TABLE")) (cf_copy_dedupe_crc_table c);
    cf_selinux_context := ((env (txt "FOD_SELINUX_CONTEXT")) ≫= unless_blank) ∪ cf_selinux_context c;
    cf_selinux_fscontext := ((env (txt "FOD_SELINUX_FSCONTEXT")) ≫= unless_blank) ∪ cf_selinux_fscontext c;
    cf_selinux_defcontext := ((env (txt "FOD_SELINUX_DEFCONTEXT")) ≫= unless_blank) ∪ cf_selinux_defcontext c;
    cf_selinux_rootcontext := ((env (txt "FOD_SELINUX_ROOTCONTEXT")) ≫= unless_blank) ∪ cf_selinux_rootcontext c
  |}.

(** The options of the bootstrap program. *)
Record BootstrapOverrides := {
  bo_profile : option text; bo_role : text; bo_selinux : text; bo_acl : text; bo_atime_policy : text;
  bo_default_permissions : bool; bo_lazytime : bool; bo_sync : bool; bo_dirsync : bool; bo_debug : bool;
  bo_log_level : option text; bo_force_read_only : bool;
}.

Definition log_levels : list text := [txt "off"; txt "error"; txt "warn"; txt "info"; txt "debug"; txt "trace"].

(** The checks of [apply_bootstrap_overrides] between role and atime policy. *)
Definition check_bootstrap_overrides (o : BootstrapOverrides) : outcome ConfigError unit :=
  if negb (bool_decide (lowered (bo_selinux o) = txt "auto")) && bool_decide (parse_bool (lowered (bo_selinux o)) = None)
  then Err (InvalidValue (txt "selinux"))
  else if bool_decide (parse_bool (bo_acl o) = None) then Err (InvalidValue (txt "acl"))
  else match bo_log_level o with
       | Some level => if bool_decide (lowered level ∈ log_levels) then Ok tt else Err (InvalidValue (txt "log_level"))
       | None => Ok tt
       end.

Definition apply_bootstrap_overrides (env : RuntimeMap) (o : BootstrapOverrides) (c : RuntimeConfig)
    : outcome ConfigError RuntimeConfig :=
  _ ← validate_runtime_env_overrides_lookup (runtime_env_var_value env);
  c ← apply_runtime_env_overrides (fun name => env !! name) c;
  role ← required (txt "role") (role_parse (bo_role o));
  _ ← check_bootstrap_overrides o;
  atime_policy ← required (txt "atime_policy") (atime_parse (bo_atime_policy o));
  Ok {|
    cf_profile := bo_profile o ∪ cf_profile c;
    cf_role := role;
    cf_force_read_only := bo_force_read_only o;
    cf_selinux := bo_selinux o;
    cf_acl := bo_acl o;
    cf_atime_policy := atime_policy;
    cf_default_permissions := bo_default_permissions o;
    cf_lazytime := bo_lazytime o;
    cf_sync := bo_sync o;
    cf_dirsync := bo_dirsync o;
    cf_log_level := default (if bo_debug o then txt "DEBUG" else txt "INFO") (bo_log_level o);
    cf_use_fuse_context := true;
    cf_fopen_direct_io := cf_fopen_direct_io c;
    cf_fuse_writeback_cache := cf_fuse_writeback_cache c;
    cf_use_rust_fuse := true;
    cf_pool_max_connections := cf_pool_max_connections c;
    cf_read_cache_blocks := cf_read_cache_blocks c;
    cf_read_cache_eviction_policy := cf_read_cache_eviction_policy c;
    cf_read_ahead_blocks := cf_read_ahead_blocks c;
    cf_sequential_read_ahead_blocks := cf_sequential_read_ahead_blocks c;
    cf_direct_io_read_prefetch_blocks := cf_direct_io_read_prefetch_blocks c;
    cf_small_file_read_threshold_blocks := cf_small_file_read_threshold_blocks c;
    cf_workers_read := cf_workers_read c;
    cf_workers_read_min_blocks := cf_workers_read_min_blocks c;
    cf_workers_write := cf_workers_write c;
    cf_workers_write_min_blocks := cf_workers_write_min_blocks c;
    cf_persist_buffer_chunk_blocks := cf_persist_buffer_chunk_blocks c;
    cf_persist_block_transport := cf_persist_block_transport c;
    cf_data_object_swap_cleanup := cf_data_object_swap_cleanup c;
    cf_synchronous_commit := cf_synchronous_commit c;
    cf_write_flush_threshold_bytes := cf_write_flush_threshold_bytes c;
    cf_max_fs_size_bytes := cf_max_fs_size_bytes c;
    cf_pg_visible_path := cf_pg_visible_path c;
    cf_metadata_cache_ttl := cf_metadata_cache_ttl c;
    cf_statfs_cache_ttl := cf_statfs_cache_ttl c;
    cf_lock_backend := cf_lock_backend c;
    cf_lock_lease_ttl := cf_lock_lease_ttl c;
    cf_lock_heartbeat_interval := cf_lock_heartbeat_interval c;
    cf_lock_poll_interval := cf_lock_poll_interval c;
    cf_copy_dedupe_enabled := cf_copy_dedupe_enabled c;
    cf_copy_dedupe_min_blocks := cf_copy_dedupe_min_blocks c;
    cf_copy_dedupe_max_blocks := cf_copy_dedupe_max_blocks c;
    cf_copy_dedupe_crc_table := cf_copy_dedupe_crc_table c;
    cf_selinux_context := cf_selinux_context c;
    cf_selinux_fscontext := cf_selinux_fscontext c;
    cf_selinux_defcontext := cf_selinux_defcontext c;
    cf_selinux_rootcontext := cf_selinux_rootcontext c
  |}.

Definition from_bootstrap (env runtime : RuntimeMap) (o : BootstrapOverrides) : outcome ConfigError RuntimeConfig :=
  c ← from_runtime_map runtime; apply_bootstrap_overrides env o c.

(** ** Reloading *)

Definition RELOADABLE_RUNTIME_KEYS : list text := [
  txt "profile"; txt "log_level"; txt "metadata_cache_ttl_seconds"; txt "statfs_cache_ttl_seconds";
  txt "read_cache_blocks"; txt "read_ahead_blocks"; txt "sequential_read_ahead_blocks";
  txt "direct_io_read_prefetch_blocks"; txt "small_file_read_threshold_blocks"; txt "workers_read";
  txt "workers_read_min_blocks"; txt "workers_write"; txt "workers_write_min_blocks";
  txt "persist_buffer_chunk_blocks"; txt "copy_dedupe_enabled"; txt "copy_dedupe_min_blocks";
  txt "copy_dedupe_max_blocks"; txt "copy_dedupe_crc_table"].

Definition reloadable_runtime_map (c : RuntimeConfig) : RuntimeMap :=
  filter (fun kv => kv.1 ∈ RELOADABLE_RUNTIME_KEYS) (to_runtime_map c).

Definition ordered_reloadable_snapshot (snapshot : RuntimeMap) : list (text * text) :=
  omap (fun key => pair key <$> snapshot !! key) RELOADABLE_RUNTIME_KEYS.

Definition with_reloadable_overrides (c : RuntimeConfig) (overrides : RuntimeMap) : outcome ConfigError RuntimeConfig :=
  if negb (bool_decide (map_Forall (fun key _ => key ∈ RELOADABLE_RUNTIME_KEYS) overrides)) then Err NotReloadable
  else from_runtime_map (overrides ∪ to_runtime_map c).

(** ** Views *)

Definition effective_read_only (c : RuntimeConfig) (cli_readonly is_in_recovery : bool) : bool :=
  cli_readonly || cf_force_read_only c || is_in_recovery
  || match cf_role c with RoleReplica => true | _ => false end.
Definition lock_backend_for (c : RuntimeConfig) (read_only : bool) : LockBackend :=
  if read_only then LockMemory else cf_lock_backend c.
Definition selinux_enabled (c : RuntimeConfig) : bool := parse_bool_or_default (Some (cf_selinux c)) false.
Definition acl_enabled (c : RuntimeConfig) : bool := parse_bool_or_default (Some (cf_acl c)) false.

Record RuntimeCoreSettings := {
  co_profile : option text; co_role : MountRole; co_force_read_only : bool; co_log_level : text;
  co_use_rust_fuse : bool; co_pool_max_connections : Z;
}.
Definition core_settings (c : RuntimeConfig) : RuntimeCoreSettings :=
  {| co_profile := cf_profile c; co_role := cf_role c; co_force_read_only := cf_force_read_only c;
     co_log_level := cf_log_level c; co_use_rust_fuse := cf_use_rust_fuse c;
     co_pool_max_connections := cf_pool_max_connections c |}.

Record RuntimeMountSettings := {
  mo_read_only : bool; mo_default_permissions : bool; mo_lazytime : bool; mo_sync : bool; mo_dirsync : bool;
  mo_atime_policy : AtimePolicy; mo_use_fuse_context : bool; mo_fopen_direct_io : bool; mo_fuse_writeback_cache : bool;
}.
Definition mount_settings (c : RuntimeConfig) (read_only : bool) : RuntimeMountSettings :=
  {| mo_read_only := read_only; mo_default_permissions := cf_default_permissions c; mo_lazytime := cf_lazytime c;
     mo_sync := cf_sync c; mo_dirsync := cf_dirsync c; mo_atime_policy := cf_atime_policy c;
     mo_use_fuse_context := cf_use_fuse_context c; mo_fopen_direct_io := cf_fopen_direct_io c;
     mo_fuse_writeback_cache := cf_fuse_writeback_cache c |}.

Record RuntimeSecuritySettings := {
  se_selinux_enabled : bool; se_acl_enabled : bool; se_selinux_context : option text; se_selinux_fscontext : option text;
  se_selinux_defcontext : option text; se_selinux_rootcontext : option text;
}.
Definition security_settings (c : RuntimeConfig) : RuntimeSecuritySettings :=
  {| se_selinux_enabled := selinux_enabled c; se_acl_enabled := acl_enabled c;
     se_selinux_context := cf_selinux_context c; se_selinux_fscontext := cf_selinux_fscontext c;
     se_selinux_defcontext := cf_selinux_defcontext c; se_selinux_rootcontext := cf_selinux_rootcontext c |}.

Record RuntimeLockSettings := {
  lo_lock_backend : LockBackend; lo_lock_lease_ttl : Z; lo_lock_heartbeat_interval : Z; lo_lock_poll_interval : Z;
}.
Definition lock_settings (c : RuntimeConfig) (read_only : bool) : RuntimeLockSettings :=
  {| lo_lock_backend := lock_backend_for c read_only; lo_lock_lease_ttl := cf_lock_lease_ttl c;
     lo_lock_heartbeat_interval := cf_lock_heartbeat_interval c; lo_lock_poll_interval := cf_lock_poll_interval c |}.

Record RuntimeCacheSettings := {
  ca_metadata_cache_ttl : Z; ca_statfs_cache_ttl : Z; ca_read_cache_blocks : Z; ca_read_cache_eviction_policy : text;
  ca_read_ahead_blocks : Z; ca_sequential_read_ahead_blocks : Z; ca_direct_io_read_prefetch_blocks : Z;
  ca_small_file_read_threshold_blocks : Z;
}.
Definition cache_settings (c : RuntimeConfig) : RuntimeCacheSettings :=
  {| ca_metadata_cache_ttl := cf_metadata_cache_ttl c; ca_statfs_cache_ttl := cf_statfs_cache_ttl c;
     ca_read_cache_blocks := cf_read_cache_blocks c; ca_read_cache_eviction_policy := cf_read_cache_eviction_policy c;
     ca_read_ahead_blocks := cf_read_ahead_blocks c; ca_sequential_read_ahead_blocks := cf_sequential_read_ahead_blocks c;
     ca_direct_io_read_prefetch_blocks := cf_direct_io_read_prefetch_blocks c;
     ca_small_file_read_threshold_blocks := cf_small_file_read_threshold_blocks c |}.

Record RuntimeStorageSettings := {
  st_workers_read : Z; st_workers_read_min_blocks : Z; st_workers_write : Z; st_workers_write_min_blocks : Z;
  st_persist_buffer_chunk_blocks : Z; st_persist_block_transport : PersistBlockTransport;
  st_data_object_swap_cleanup : DataObjectSwapCleanup; st_synchronous_commit : text;
  st_write_flush_threshold_bytes : Z; st_max_fs_size_bytes : option Z; st_pg_visible_path : option text;
  st_copy_dedupe_enabled : bool; st_copy_dedupe_min_blocks : Z; st_copy_dedupe_max_blocks : Z;
  st_copy_dedupe_crc_table : bool;
}.
Definition storage_settings (c : RuntimeConfig) : RuntimeStorageSettings :=
  {| st_workers_read := cf_workers_read c; st_workers_read_min_blocks := cf_workers_read_min_blocks c;
     st_workers_write := cf_workers_write c; st_workers_write_min_blocks := cf_workers_write_min_blocks c;
     st_persist_buffer_chunk_blocks := cf_persist_buffer_chunk_blocks c;
     st_persist_block_transport := cf_persist_block_transport c;
     st_data_object_swap_cleanup := cf_data_object_swap_cleanup c; st_synchronous_commit := cf_synchronous_commit c;
     st_write_flush_threshold_bytes := cf_write_flush_threshold_bytes c; st_max_fs_size_bytes := cf_max_fs_size_bytes c;
     st_pg_visible_path := cf_pg_visible_path c; st_copy_dedupe_enabled := cf_copy_dedupe_enabled c;
     st_copy_dedupe_min_blocks := cf_copy_dedupe_min_blocks c; st_copy_dedupe_max_blocks := cf_copy_dedupe_max_blocks c;
     st_copy_dedupe_crc_table := cf_copy_dedupe_crc_table c |}.
