(* ===== verification/ConfigSafety.v ===== *)
(** * What the configuration guarantees

    Configured values take effect as validated, the mount process reads back from its
    environment what the bootstrap program wrote, and a reload changes the reloadable
    settings only. *)

From stdpp Require Import prelude list numbers strings gmap.
From Stdlib Require Import ZArith Lia Ascii.
From S2P Require Import Prelude Text Seconds RuntimeValues RuntimeConfig.

#[local] Open Scope Z_scope.
Set Default Proof Using "Type".

(** ** Trimmed texts *)

Definition starts_black (s : text) : Prop := match s with c :: _ => is_whitespace c = false | [] => True end.

Lemma drop_while_black s : starts_black (drop_while is_whitespace s).
Proof. induction s as [|c s IH]; cbn; [done|]. destruct (is_whitespace c) eqn:Hc; [done|]. cbn. done. Qed.

Lemma drop_while_id s : starts_black s -> drop_while is_whitespace s = s.
Proof. destruct s as [|c s]; cbn; [done|]. by intros ->. Qed.

Lemma drop_while_split p s : exists l, s = l ++ drop_while p s.
Proof.
  induction s as [|c s [l IH]]; [by exists []|]. cbn. destruct (p c); [|by exists []].
  exists (c :: l). cbn. by rewrite <- IH.
Qed.

Lemma trim_end_prefix s : exists l, s = trim_end s ++ l.
Proof.
  unfold trim_end. destruct (drop_while_split is_whitespace (reverse s)) as [l Hl].
  exists (reverse l). rewrite <- reverse_app, <- Hl. by rewrite reverse_involutive.
Qed.

Lemma trim_end_idem s : trim_end (trim_end s) = trim_end s.
Proof. unfold trim_end. rewrite reverse_involutive. by rewrite drop_while_id by apply drop_while_black. Qed.

Lemma trim_end_black s : starts_black s -> starts_black (trim_end s).
Proof. destruct (trim_end_prefix s) as [l Hl]. rewrite Hl at 1. by destruct (trim_end s). Qed.

Lemma trim_idem s : trim (trim s) = trim s.
Proof.
  unfold trim. rewrite (drop_while_id (trim_end _)).
  - apply trim_end_idem.
  - apply trim_end_black, drop_while_black.
Qed.

Lemma digits_trimmed s : all_digits s -> trim s = s.
Proof.
  intros Hs. assert (Hb : forall t, all_digits t -> starts_black t).
  { intros [|c t]; [done|]. intros [Hc _]%Forall_cons. cbn. unfold is_digit, is_whitespace in *. lia. }
  unfold trim, trim_start, trim_end. rewrite (drop_while_id s) by auto.
  rewrite drop_while_id; [by rewrite reverse_involutive|]. apply Hb. unfold all_digits in *. by apply Forall_reverse.
Qed.

(** A text that a lookup returns as it is. *)
Definition plain (s : text) : Prop := trim s = s /\ s <> [].

Lemma print_u_plain n : 0 <= n -> plain (print_u n).
Proof.
  intros Hn. split; [by apply digits_trimmed, print_u_digits|].
  destruct (print_u_nonempty n) as (c & s & ->). done.
Qed.

Lemma lookup_value_plain (l : Lookup) k v : lookup_value l k = Some v -> plain v.
Proof.
  unfold lookup_value, nonempty. destruct (l k) as [u|]; [|done]. cbn. case_bool_decide; [done|]. intros [= <-].
  split; [apply trim_idem|done].
Qed.

Lemma lookup_value_of_plain (l : Lookup) k v : plain v -> l k = Some v -> lookup_value l k = Some v.
Proof. intros [Ht Hn] Hl. unfold lookup_value, nonempty. rewrite Hl. cbn. rewrite Ht. by rewrite bool_decide_false. Qed.

Lemma lookup_value_none (l : Lookup) k : l k = None -> lookup_value l k = None.
Proof. unfold lookup_value. by intros ->. Qed.

(** ** Sizes *)

Lemma strip_prefix_head a p c s : a <> c -> strip_prefix (a :: p) (c :: s) = None.
Proof. intros. cbn. by rewrite bool_decide_false. Qed.

Lemma split_unit_digits units s :
  all_digits s -> Forall (fun u => match reverse u.1 with c :: _ => is_digit c = false | [] => False end) units ->
  split_unit units s = (s, 1).
Proof.
  intros Hs. induction 1 as [|[u m] units Hu _ IH]; [done|]. cbn [split_unit fst] in *. unfold strip_suffix.
  destruct (reverse u) as [|a p]; [done|]. destruct (reverse s) as [|c t] eqn:Hr; [exact IH|].
  rewrite strip_prefix_head; [exact IH|]. intros ->.
  assert (all_digits (reverse s)) as Hd by (by apply Forall_reverse). rewrite Hr in Hd. apply Forall_cons in Hd as [Hd _]. congruence.
Qed.

Lemma lower_digits s : all_digits s -> to_ascii_lowercase s = s.
Proof.
  induction 1 as [|c s Hc _ IH]; [done|]. unfold to_ascii_lowercase in *. cbn. rewrite IH. f_equal.
  unfold ascii_lower. unfold is_digit, char_code in Hc. case_match; [lia|done].
Qed.

Lemma parse_size_print n : is_u64 n -> parse_size_bytes (print_u n) = Some n.
Proof.
  intros Hn. assert (Hd : all_digits (print_u n)) by (apply print_u_digits; unfold is_u64 in Hn; lia).
  unfold parse_size_bytes. rewrite (digits_trimmed _ Hd).
  rewrite bool_decide_false by (destruct (print_u_nonempty n) as (c & s & ->); done).
  rewrite (lower_digits _ Hd), (split_unit_digits _ _ Hd) by (repeat constructor).
  rewrite (digits_trimmed _ Hd), (parse_print_u64 n Hn). cbn. unfold checked_mul. rewrite Z.mul_1_r.
  unfold is_u64 in Hn. by destruct (Z.leb_spec n U64_MAX); [|lia].
Qed.

Lemma split_unit_positive units s : Forall (fun u => 0 <= u.2) units -> 0 <= (split_unit units s).2.
Proof. induction 1 as [|[u m] units Hm _ IH]; cbn; [lia|]. by case_match. Qed.

Lemma parse_size_bounds s n : parse_size_bytes s = Some n -> is_u64 n.
Proof.
  unfold parse_size_bytes. case_bool_decide; [done|]. 
  assert (Hm := split_unit_positive size_units (to_ascii_lowercase (trim s)) ltac:(repeat constructor; cbn; lia)).
  destruct (split_unit _ _) as [t m]. cbn in Hm.
  destruct (parse_u64 (trim t)) as [k|] eqn:Hk; [|done]. cbn. apply parse_u64_bounds in Hk. unfold is_u64 in *.
  unfold checked_mul. case_match eqn:Hb; [|done]. intros [= <-]. lia.
Qed.

(** ** Rules *)

Lemma validate_specs_Ok l target specs :
  validate_specs l target specs = Ok tt <->
  Forall (fun spec => applies_to spec target = true -> validate_runtime_value_spec l spec = Ok tt) specs.
Proof.
  induction specs as [|spec specs IH]; cbn; [split; [constructor|done]|]. rewrite Forall_cons, <- IH.
  destruct (applies_to spec target).
  - destruct (validate_runtime_value_spec l spec) as [[]| |]; cbn; [tauto|..]; split; [done|intros [H _]; by specialize (H eq_refl)|done|
      intros [H _]; by specialize (H eq_refl)].
  - split; [done|by intros [_ H]].
Qed.

(** A rule of the table holds for the value that was validated. *)
Lemma validated_in l target specs spec v :
  validate_specs l target specs = Ok tt -> spec ∈ specs -> applies_to spec target = true ->
  lookup_value l (vs_key spec) = Some v -> validate_kind (vs_key spec) v (vs_kind spec) = Ok tt.
Proof.
  intros Hv Hin Ht Hl. rewrite validate_specs_Ok, Forall_forall in Hv.
  specialize (Hv spec Hin Ht). unfold validate_runtime_value_spec in Hv. by rewrite Hl in Hv.
Qed.

Lemma validated l spec v :
  validate_runtime_tuning_lookup l = Ok tt -> spec ∈ RUNTIME_VALUE_SPECS -> vs_tuning spec = true ->
  lookup_value l (vs_key spec) = Some v -> validate_kind (vs_key spec) v (vs_kind spec) = Ok tt.
Proof. apply (validated_in l Tuning RUNTIME_VALUE_SPECS). Qed.

(** The first rule that fails is the error, and nothing before it failed. *)
Lemma validate_specs_Err l target specs e :
  validate_specs l target specs = Err e ->
  exists before spec after, specs = before ++ spec :: after
    /\ applies_to spec target = true /\ validate_runtime_value_spec l spec = Err e
    /\ Forall (fun spec => applies_to spec target = true -> validate_runtime_value_spec l spec = Ok tt) before.
Proof.
  induction specs as [|spec specs IH]; cbn; [done|]. destruct (applies_to spec target) eqn:Ha.
  - destruct (validate_runtime_value_spec l spec) as [[]|e'|] eqn:Hs; cbn; [| |done].
    + intros H. destruct (IH H) as (b & sp & a & -> & Hsp & He & Hb). exists (spec :: b), sp, a. split_and!; try done.
      by constructor.
    + intros [= ->]. exists [], spec, specs. by split_and!.
  - intros H. destruct (IH H) as (b & sp & a & -> & Hsp & He & Hb). exists (spec :: b), sp, a. split_and!; try done.
    constructor; [by rewrite Ha|done].
Qed.

(** Membership in a literal list of rules or entries, found by its key. *)
Ltac list_member :=
  let next k k' := (tryif constr_eq k k' then (apply elem_of_cons; left; reflexivity)
                    else (apply elem_of_cons; right; list_member)) in
  lazymatch goal with
  | |- (?k, _) ∈ (?k', _) :: _ => next k k'
  | |- _ ?k _ ∈ _ ?k' _ :: _ => next k k'
  | |- _ ∈ RUNTIME_VALUE_SPECS => unfold RUNTIME_VALUE_SPECS; list_member
  end.

(** The value of a rule, by the key. *)
Ltac use_rule Hv key kind Hl :=
  let H := fresh "Hrule" in
  first [ pose proof (validated _ (tuning_and_runtime_env key kind) _ Hv ltac:(list_member) eq_refl Hl) as H
        | pose proof (validated _ (tuning_only key kind) _ Hv ltac:(list_member) eq_refl Hl) as H ];
  cbn [validate_kind vs_key vs_kind tuning_and_runtime_env tuning_only] in H.

Lemma rule_u64 key v z : validate_u64_value key v z = Ok tt -> exists n, parse_u64 v = Some n /\ (z = false -> n <> 0).
Proof.
  unfold validate_u64_value. destruct (parse_u64 v) as [n|]; [|done]. intros H. exists n. split; [done|].
  intros -> ->. done.
Qed.

Lemma choose_Some {A} (alternatives : list (text * A)) v a : choose alternatives v = Some a -> (v, a) ∈ alternatives.
Proof.
  induction alternatives as [|[n b] alternatives IH]; cbn [choose]; [done|].
  case_bool_decide; [intros [= ->]; subst; left|right; auto].
Qed.

Lemma rule_bool key v : validate_bool_value key v = Ok tt ->
  exists b, parse_bool v = Some b /\ forall d, parse_bool_or_default (Some v) d = b.
Proof.
  unfold validate_bool_value, parse_bool, parse_bool_or_default. generalize (lowered v). intros s.
  destruct (choose _ s) as [b|] eqn:Hc; [|done]. intros _. exists b. split; [done|]. intros _.
  apply choose_Some in Hc. 
  repeat (apply elem_of_cons in Hc as [[= -> ->]|Hc]; [vm_compute; reflexivity|]). by apply elem_of_nil in Hc.
Qed.

(** ** The fields *)

Definition u64_settings : list (text * (RuntimeConfig -> Z)) := [
  (txt "pool_max_connections", cf_pool_max_connections); (txt "read_cache_blocks", cf_read_cache_blocks);
  (txt "read_ahead_blocks", cf_read_ahead_blocks);
  (txt "sequential_read_ahead_blocks", cf_sequential_read_ahead_blocks);
  (txt "direct_io_read_prefetch_blocks", cf_direct_io_read_prefetch_blocks);
  (txt "small_file_read_threshold_blocks", cf_small_file_read_threshold_blocks);
  (txt "workers_read", cf_workers_read); (txt "workers_read_min_blocks", cf_workers_read_min_blocks);
  (txt "workers_write", cf_workers_write); (txt "workers_write_min_blocks", cf_workers_write_min_blocks);
  (txt "persist_buffer_chunk_blocks", cf_persist_buffer_chunk_blocks);
  (txt "copy_dedupe_min_blocks", cf_copy_dedupe_min_blocks); (txt "copy_dedupe_max_blocks", cf_copy_dedupe_max_blocks)].

Definition bool_settings : list (text * (RuntimeConfig -> bool)) := [
  (txt "force_read_only", cf_force_read_only); (txt "default_permissions", cf_default_permissions);
  (txt "lazytime", cf_lazytime); (txt "sync", cf_sync); (txt "dirsync", cf_dirsync);
  (txt "use_fuse_context", cf_use_fuse_context); (txt "fopen_direct_io", cf_fopen_direct_io);
  (txt "fuse_writeback_cache", cf_fuse_writeback_cache); (txt "use_rust_fuse", cf_use_rust_fuse);
  (txt "copy_dedupe_enabled", cf_copy_dedupe_enabled); (txt "copy_dedupe_crc_table", cf_copy_dedupe_crc_table)].

Definition duration_settings : list (text * (RuntimeConfig -> Z)) := [
  (txt "metadata_cache_ttl_seconds", cf_metadata_cache_ttl); (txt "statfs_cache_ttl_seconds", cf_statfs_cache_ttl);
  (txt "lock_lease_ttl_seconds", cf_lock_lease_ttl); (txt "lock_heartbeat_interval_seconds", cf_lock_heartbeat_interval);
  (txt "lock_poll_interval_seconds", cf_lock_poll_interval)].

(** One setting after another of such a list. *)
Definition settings_hold {A} (settings : list (text * A)) (P : text -> A -> Prop) : Prop :=
  Forall (fun setting => P setting.1 setting.2) settings.

Lemma lookup_u64_effect l key z dflt v :
  (forall v, lookup_value l key = Some v -> validate_u64_value key v z = Ok tt) ->
  lookup_value l key = Some v -> parse_u64 v = Some (lookup_u64 l key dflt).
Proof.
  intros Hr Hl. unfold lookup_u64, parse_u64_or. rewrite Hl. cbn.
  destruct (rule_u64 _ _ _ (Hr v Hl)) as (n & -> & _). done.
Qed.

Lemma lookup_u64_bounds l key dflt : is_u64 dflt -> is_u64 (lookup_u64 l key dflt).
Proof.
  intros Hd. unfold lookup_u64, parse_u64_or. destruct (lookup_value l key) as [v|]; [|done]. cbn.
  destruct (parse_u64 v) as [n|] eqn:Hn; [|done]. by apply parse_u64_bounds in Hn.
Qed.

Lemma lookup_u64_positive l key dflt :
  (forall v, lookup_value l key = Some v -> validate_u64_value key v false = Ok tt) ->
  0 < dflt -> 0 < lookup_u64 l key dflt.
Proof.
  intros Hr Hd. unfold lookup_u64, parse_u64_or. destruct (lookup_value l key) as [v|] eqn:Hl; [|done]. cbn.
  destruct (rule_u64 _ _ _ (Hr v eq_refl)) as (n & Hn & Hz). rewrite Hn. apply parse_u64_bounds in Hn.
  unfold is_u64 in Hn. cbn. specialize (Hz eq_refl). lia.
Qed.

Lemma lookup_bool_effect l key dflt v :
  (forall v, lookup_value l key = Some v -> validate_bool_value key v = Ok tt) ->
  lookup_value l key = Some v -> parse_bool v = Some (lookup_bool l key dflt).
Proof.
  intros Hr Hl. unfold lookup_bool. rewrite Hl. destruct (rule_bool _ _ (Hr v Hl)) as (b & -> & Hb). by rewrite Hb.
Qed.

(** A duration that does not panic is the one of the text. *)
Lemma parse_duration_effect {E} key z v dflt d :
  validate_duration_value key v z = Ok tt -> parse_duration_secs (E := E) (Some v) dflt = Ok d ->
  duration_of_text v = Some d.
Proof.
  unfold validate_duration_value, parse_duration_secs, duration_of_text. cbn.
  destruct (f64_parse v) as [x|]; [|done]. cbn. destruct (f64_is_finite x) eqn:Hf; [|done].
  intros Hr. assert (f64_lt_zero x = false) as ->.
  { destruct z; cbn in Hr; [by destruct (f64_lt_zero x)|].
    destruct x as [| |neg m e]; try done. cbn in *. destruct neg, (m =? 0); done. }
  cbn. unfold duration_or_panic. destruct (from_secs_f64 x); [|done]. by intros [= ->].
Qed.

Lemma choose_total {A} (alternatives : list (text * A)) v : v ∈ alternatives.*1 -> is_Some (choose alternatives v).
Proof.
  induction alternatives as [|[n b] alternatives IH]; cbn [choose]; [by intros ?%elem_of_nil|].
  intros [->|Hin]%elem_of_cons; [rewrite bool_decide_true by done; eauto|]. case_bool_decide; eauto.
Qed.

(** A choice of the rules is one that the parser knows. *)
Lemma choice_effect {A} (alternatives : list (text * A)) l key dflt d v :
  (forall v, lookup_value l key = Some v -> validate_choice_value key v alternatives.*1 = Ok tt) ->
  lookup_value l key = Some v ->
  choose alternatives (lowered v) = Some (default d (choose alternatives (lowered (lookup_string l key dflt)))).
Proof.
  intros Hr Hl. unfold lookup_string. rewrite Hl. change (default dflt (Some v)) with v. specialize (Hr v Hl). unfold validate_choice_value in Hr.
  case_bool_decide as Hin; [|done]. destruct (choose_total _ _ Hin) as [a Ha]. by rewrite Ha.
Qed.

(** [c] is the configuration that [from_lookup] builds from [l]. *)
Record lookup_fields (l : Lookup) (c : RuntimeConfig) : Prop := {
  lf_valid : validate_runtime_tuning_lookup l = Ok tt;
  lf_profile : cf_profile c = lookup_value l (txt "profile");
  lf_role : cf_role c = default RoleAuto (role_parse (lookup_string l (txt "role") (txt "auto")));
  lf_force_read_only : cf_force_read_only c = lookup_bool l (txt "force_read_only") false;
  lf_selinux : cf_selinux c = lookup_string l (txt "selinux") (txt "off");
  lf_acl : cf_acl c = lookup_string l (txt "acl") (txt "off");
  lf_atime_policy : cf_atime_policy c = default AtimeDefault (atime_parse (lookup_string l (txt "atime_policy") (txt "default")));
  lf_default_permissions : cf_default_permissions c = lookup_bool l (txt "default_permissions") true;
  lf_lazytime : cf_lazytime c = lookup_bool l (txt "lazytime") false;
  lf_sync : cf_sync c = lookup_bool l (txt "sync") false;
  lf_dirsync : cf_dirsync c = lookup_bool l (txt "dirsync") false;
  lf_log_level : cf_log_level c = lookup_string l (txt "log_level") (txt "INFO");
  lf_use_fuse_context : cf_use_fuse_context c = lookup_bool l (txt "use_fuse_context") true;
  lf_fopen_direct_io : cf_fopen_direct_io c = lookup_bool l (txt "fopen_direct_io") false;
  lf_fuse_writeback_cache : cf_fuse_writeback_cache c = lookup_bool l (txt "fuse_writeback_cache") false;
  lf_use_rust_fuse : cf_use_rust_fuse c = lookup_bool l (txt "use_rust_fuse") true;
  lf_pool_max_connections : cf_pool_max_connections c = lookup_u64 l (txt "pool_max_connections") 10;
  lf_read_cache_blocks : cf_read_cache_blocks c = lookup_u64 l (txt "read_cache_blocks") 1024;
  lf_read_cache_eviction_policy : cf_read_cache_eviction_policy c = lookup_string l (txt "read_cache_eviction_policy") (txt "fifo");
  lf_read_ahead_blocks : cf_read_ahead_blocks c = lookup_u64 l (txt "read_ahead_blocks") 4;
  lf_sequential_read_ahead_blocks : cf_sequential_read_ahead_blocks c = lookup_u64 l (txt "sequential_read_ahead_blocks") 8;
  lf_direct_io_read_prefetch_blocks : cf_direct_io_read_prefetch_blocks c = lookup_u64 l (txt "direct_io_read_prefetch_blocks") 512;
  lf_small_file_read_threshold_blocks : cf_small_file_read_threshold_blocks c = lookup_u64 l (txt "small_file_read_threshold_blocks") 8;
  lf_workers_read : cf_workers_read c = lookup_u64 l (txt "workers_read") 4;
  lf_workers_read_min_blocks : cf_workers_read_min_blocks c = lookup_u64 l (txt "workers_read_min_blocks") 8;
  lf_workers_write : cf_workers_write c = lookup_u64 l (txt "workers_write") 4;
  lf_workers_write_min_blocks : cf_workers_write_min_blocks c = lookup_u64 l (txt "workers_write_min_blocks") 8;
  lf_persist_buffer_chunk_blocks : cf_persist_buffer_chunk_blocks c = lookup_u64 l (txt "persist_buffer_chunk_blocks") 128;
  lf_persist_block_transport : transport_parse (lookup_string l (txt "persist_block_transport") (txt "copy_binary_staging")) = Some (cf_persist_block_transport c);
  lf_data_object_swap_cleanup : cleanup_parse (lookup_string l (txt "data_object_swap_cleanup") (txt "immediate")) = Some (cf_data_object_swap_cleanup c);
  lf_synchronous_commit : cf_synchronous_commit c = lookup_string l (txt "synchronous_commit") (txt "on");
  lf_write_flush_threshold_bytes : cf_write_flush_threshold_bytes c = lookup_size_u64 l (txt "write_flush_threshold_bytes") 0;
  lf_max_fs_size_bytes : cf_max_fs_size_bytes c = lookup_value l (txt "max_fs_size_bytes") ≫= parse_size_bytes;
  lf_pg_visible_path : cf_pg_visible_path c = lookup_value l (txt "pg_visible_path");
  lf_metadata_cache_ttl : lookup_duration (E := ConfigError) l (txt "metadata_cache_ttl_seconds") (as_secs_f64 DEFAULT_METADATA_TTL) = Ok (cf_metadata_cache_ttl c);
  lf_statfs_cache_ttl : lookup_duration (E := ConfigError) l (txt "statfs_cache_ttl_seconds") (as_secs_f64 DEFAULT_STATFS_TTL) = Ok (cf_statfs_cache_ttl c);
  lf_lock_backend : cf_lock_backend c = default LockPostgresLease (backend_parse (lookup_string l (txt "lock_backend") (txt "postgres_lease")));
  lf_lock_lease_ttl : lookup_duration (E := ConfigError) l (txt "lock_lease_ttl_seconds") (as_secs_f64 DEFAULT_LOCK_LEASE_TTL) = Ok (cf_lock_lease_ttl c);
  lf_lock_heartbeat_interval : lookup_duration (E := ConfigError) l (txt "lock_heartbeat_interval_seconds") (as_secs_f64 (10 * 10 ^ 9)) = Ok (cf_lock_heartbeat_interval c);
  lf_lock_poll_interval : lookup_duration (E := ConfigError) l (txt "lock_poll_interval_seconds") (as_secs_f64 DEFAULT_LOCK_POLL_INTERVAL) = Ok (cf_lock_poll_interval c);
  lf_copy_dedupe_enabled : cf_copy_dedupe_enabled c = lookup_bool l (txt "copy_dedupe_enabled") false;
  lf_copy_dedupe_min_blocks : cf_copy_dedupe_min_blocks c = lookup_u64 l (txt "copy_dedupe_min_blocks") 0;
  lf_copy_dedupe_max_blocks : cf_copy_dedupe_max_blocks c = lookup_u64 l (txt "copy_dedupe_max_blocks") 0;
  lf_copy_dedupe_crc_table : cf_copy_dedupe_crc_table c = lookup_bool l (txt "copy_dedupe_crc_table") false;
  lf_selinux_context : cf_selinux_context c = lookup_value l (txt "selinux_context");
  lf_selinux_fscontext : cf_selinux_fscontext c = lookup_value l (txt "selinux_fscontext");
  lf_selinux_defcontext : cf_selinux_defcontext c = lookup_value l (txt "selinux_defcontext");
  lf_selinux_rootcontext : cf_selinux_rootcontext c = lookup_value l (txt "selinux_rootcontext");
}.

Lemma Ok_inj {E A} (a b : A) : Ok (E := E) a = Ok b -> a = b.
Proof. congruence. Qed.

Lemma required_Ok {A} key (o : option A) a : required key o = Ok a <-> o = Some a.
Proof. destruct o; cbn; split; congruence. Qed.

Lemma from_lookup_fields l c : from_lookup l = Ok c <-> lookup_fields l c.
Proof.
  unfold from_lookup. split.
  - intros H.
    apply bind_Ok in H as ([] & Hv & H). apply bind_Ok in H as (tr & Ht & H). apply bind_Ok in H as (cl & Hc & H).
    apply bind_Ok in H as (d1 & H1 & H). apply bind_Ok in H as (d2 & H2 & H). apply bind_Ok in H as (d3 & H3 & H).
    apply bind_Ok in H as (d4 & H4 & H). apply bind_Ok in H as (d5 & H5 & H). apply Ok_inj in H as <-.
    apply required_Ok in Ht. apply required_Ok in Hc. by split.
  - intros []. rewrite lf_valid0. cbn [mbind outcome_bind]. rewrite lf_persist_block_transport0, lf_data_object_swap_cleanup0.
    cbn [required mbind outcome_bind]. rewrite lf_metadata_cache_ttl0. cbn [mbind outcome_bind].
    rewrite lf_statfs_cache_ttl0. cbn [mbind outcome_bind]. rewrite lf_lock_lease_ttl0. cbn [mbind outcome_bind].
    rewrite lf_lock_heartbeat_interval0. cbn [mbind outcome_bind]. rewrite lf_lock_poll_interval0. cbn [mbind outcome_bind].
    rewrite <- lf_profile0, <- lf_role0, <- lf_force_read_only0, <- lf_selinux0, <- lf_acl0, <- lf_atime_policy0, <-
      lf_default_permissions0, <- lf_lazytime0, <- lf_sync0, <- lf_dirsync0, <- lf_log_level0, <-
      lf_use_fuse_context0, <- lf_fopen_direct_io0, <- lf_fuse_writeback_cache0, <- lf_use_rust_fuse0, <-
      lf_pool_max_connections0, <- lf_read_cache_blocks0, <- lf_read_cache_eviction_policy0, <-
      lf_read_ahead_blocks0, <- lf_sequential_read_ahead_blocks0, <- lf_direct_io_read_prefetch_blocks0, <-
      lf_small_file_read_threshold_blocks0, <- lf_workers_read0, <- lf_workers_read_min_blocks0, <-
      lf_workers_write0, <- lf_workers_write_min_blocks0, <- lf_persist_buffer_chunk_blocks0, <-
      lf_synchronous_commit0, <- lf_write_flush_threshold_bytes0, <- lf_max_fs_size_bytes0, <-
      lf_pg_visible_path0, <- lf_lock_backend0, <- lf_copy_dedupe_enabled0, <- lf_copy_dedupe_min_blocks0, <-
      lf_copy_dedupe_max_blocks0, <- lf_copy_dedupe_crc_table0, <- lf_selinux_context0, <-
      lf_selinux_fscontext0, <- lf_selinux_defcontext0, <- lf_selinux_rootcontext0.
    by destruct c.
Qed.

Lemma lookup_size_bounds l key dflt : is_u64 dflt -> is_u64 (lookup_size_u64 l key dflt).
Proof.
  intros Hd. unfold lookup_size_u64. destruct (lookup_value l key) as [v|]; [|done].
  change (Some v ≫= parse_size_bytes) with (parse_size_bytes v).
  destruct (parse_size_bytes v) as [n|] eqn:Hn; [|done]. by eapply parse_size_bounds.
Qed.

(** The rule of a key, as the effect lemmas want it. *)
Ltac rule_of Hv :=
  let v := fresh "v" in let Hl := fresh "Hl" in intros v Hl;
  match goal with
  | |- validate_u64_value ?key _ ?z = _ => use_rule Hv key (KU64 z) Hl
  | |- validate_bool_value ?key _ = _ => use_rule Hv key KBool Hl
  | |- validate_duration_value ?key _ ?z = _ => use_rule Hv key (KDuration z) Hl
  | |- validate_size_value ?key _ ?z = _ => use_rule Hv key (KSizeBytes z) Hl
  | |- validate_choice_value ?key _ ?alts = _ =>
      let alts' := eval cbv [fmap list_fmap fst] in alts in change alts with alts'; use_rule Hv key (KChoice alts') Hl
  | |- validate_selinux_value ?key _ = _ => use_rule Hv key KSelinux Hl
  end; assumption.

Lemma lookup_duration_effect l key z dflt d v :
  (forall v, lookup_value l key = Some v -> validate_duration_value key v z = Ok tt) ->
  lookup_duration (E := ConfigError) l key dflt = Ok d -> lookup_value l key = Some v -> duration_of_text v = Some d.
Proof. intros Hr Hd Hl. unfold lookup_duration in Hd. rewrite Hl in Hd. by eapply parse_duration_effect; [apply Hr|]. Qed.

Lemma size_effect l key z v :
  (forall v, lookup_value l key = Some v -> validate_size_value key v z = Ok tt) ->
  lookup_value l key = Some v -> exists n, parse_size_bytes v = Some n /\ is_u64 n.
Proof.
  intros Hr Hl. specialize (Hr v Hl). unfold validate_size_value in Hr.
  destruct (parse_size_bytes v) as [n|] eqn:Hn; [|done]. exists n. split; [done|]. by eapply parse_size_bounds.
Qed.

(** What was set is what the configuration holds, kind by kind. *)
Lemma u64_take_effect l c :
  lookup_fields l c ->
  settings_hold u64_settings (fun key field => forall v, lookup_value l key = Some v -> parse_u64 v = Some (field c)).
Proof.
  intros [Hv]. unfold settings_hold, u64_settings. repeat (apply Forall_cons_2; [cbn [fst snd]|]); try apply Forall_nil_2.
  all: match goal with V : validate_runtime_tuning_lookup _ = Ok tt |- forall v, _ -> parse_u64 v = Some (?f ?x) =>
         match goal with H : f x = _ |- _ => rewrite H end; intros v; eapply lookup_u64_effect; rule_of V end.
Qed.

Lemma u64_fields_bounded l c : lookup_fields l c -> settings_hold u64_settings (fun _ field => is_u64 (field c)).
Proof.
  intros []. unfold settings_hold, u64_settings. repeat (apply Forall_cons_2; [cbn [fst snd]|]); try apply Forall_nil_2.
  all: match goal with |- is_u64 (?f ?x) =>
         match goal with H : f x = _ |- _ => rewrite H end; apply lookup_u64_bounds; by vm_compute end.
Qed.

Lemma bool_take_effect l c :
  lookup_fields l c ->
  settings_hold bool_settings (fun key field => forall v, lookup_value l key = Some v -> parse_bool v = Some (field c)).
Proof.
  intros [Hv]. unfold settings_hold, bool_settings. repeat (apply Forall_cons_2; [cbn [fst snd]|]); try apply Forall_nil_2.
  all: match goal with V : validate_runtime_tuning_lookup _ = Ok tt |- forall v, _ -> parse_bool v = Some (?f ?x) =>
         match goal with H : f x = _ |- _ => rewrite H end; intros v; apply lookup_bool_effect; rule_of V end.
Qed.

Lemma duration_take_effect l c :
  lookup_fields l c ->
  settings_hold duration_settings (fun key field =>
    forall v, lookup_value l key = Some v -> duration_of_text v = Some (field c)).
Proof.
  intros [Hv]. unfold settings_hold, duration_settings. repeat (apply Forall_cons_2; [cbn [fst snd]|]); try apply Forall_nil_2.
  all: intros v; match goal with V : validate_runtime_tuning_lookup _ = Ok tt |- _ =>
         eapply lookup_duration_effect; [rule_of V|eassumption] end.
Qed.


(** A small configuration. *)
Definition sample_settings : Lookup := fun key =>
  if bool_decide (key = txt "pool_max_connections") then Some (txt " 5 ")
  else if bool_decide (key = txt "role") then Some (txt "Replica")
  else if bool_decide (key = txt "metadata_cache_ttl_seconds") then Some (txt "2.5")
  else None.

Lemma sample_loads : exists c, from_lookup sample_settings = Ok c.
Proof. eexists. vm_compute. reflexivity. Qed.


(** ** Writing and reading back *)

Lemma set_entries_other entries m k : k ∉ entries.*1 -> foldl set_entry m entries !! k = m !! k.
Proof.
  revert m. induction entries as [|[k' v] entries IH]; intros m Hk; cbn [foldl]; [done|].
  apply not_elem_of_cons in Hk as [Hne Hk]. rewrite IH by done. unfold set_entry. cbn [fst snd].
  destruct v; [by rewrite lookup_insert_ne|by rewrite lookup_delete_ne].
Qed.

Lemma set_entries_lookup entries m k v :
  NoDup entries.*1 -> (k, v) ∈ entries -> foldl set_entry m entries !! k = v.
Proof.
  revert m. induction entries as [|[k' v'] entries IH]; intros m Hnd Hin; [by apply elem_of_nil in Hin|].
  cbn [foldl fmap list_fmap fst] in *. apply NoDup_cons in Hnd as [Hk Hnd]. apply elem_of_cons in Hin as [[= -> ->]|Hin]; [|by apply IH].
  rewrite set_entries_other by done. unfold set_entry. cbn [fst snd]. destruct v'; [by rewrite lookup_insert_eq|by rewrite lookup_delete_eq].
Qed.

(** What a stored configuration looks like. *)
Record config_normal (c : RuntimeConfig) : Prop := {
  cn_numbers : settings_hold u64_settings (fun _ field => is_u64 (field c));
  cn_flush : is_u64 (cf_write_flush_threshold_bytes c);
  cn_max : forall n, cf_max_fs_size_bytes c = Some n -> is_u64 n;
  cn_pool : 0 < cf_pool_max_connections c;
  cn_chunk : 0 < cf_persist_buffer_chunk_blocks c;
  cn_selinux : plain (cf_selinux c) /\ validate_selinux_value (txt "selinux") (cf_selinux c) = Ok tt;
  cn_acl : plain (cf_acl c) /\ validate_bool_value (txt "acl") (cf_acl c) = Ok tt;
  cn_log_level : plain (cf_log_level c) /\ validate_choice_value (txt "log_level") (cf_log_level c)
    [txt "off"; txt "error"; txt "warn"; txt "info"; txt "debug"; txt "trace"] = Ok tt;
  cn_policy : plain (cf_read_cache_eviction_policy c) /\
    validate_choice_value (txt "read_cache_eviction_policy") (cf_read_cache_eviction_policy c) [txt "fifo"; txt "lru"] = Ok tt;
  cn_commit : plain (cf_synchronous_commit c) /\
    validate_choice_value (txt "synchronous_commit") (cf_synchronous_commit c)
      [txt "on"; txt "off"; txt "local"; txt "remote_write"; txt "remote_apply"; txt "true"; txt "false"] = Ok tt;
  cn_optional : Forall (fun o => forall v, o = Some v -> plain v)
    [cf_profile c; cf_pg_visible_path c; cf_selinux_context c; cf_selinux_fscontext c; cf_selinux_defcontext c;
     cf_selinux_rootcontext c];
}.

(** The durations survive being written as seconds, and those that must not be zero are
    not. *)
Definition durations_survive (c : RuntimeConfig) : Prop :=
  settings_hold duration_settings (fun _ field => duration_survives (field c))
  /\ 0 < cf_lock_lease_ttl c /\ 0 < cf_lock_heartbeat_interval c /\ 0 < cf_lock_poll_interval c.

Lemma lookup_string_normal l key dflt (P : text -> Prop) :
  plain dflt -> P dflt -> (forall v, lookup_value l key = Some v -> P v) ->
  plain (lookup_string l key dflt) /\ P (lookup_string l key dflt).
Proof.
  intros Hp Hd Hv. unfold lookup_string. destruct (lookup_value l key) as [v|] eqn:Hl; cbn; [|done].
  split; [by eapply lookup_value_plain|auto].
Qed.

Lemma from_lookup_normal l c : from_lookup l = Ok c -> config_normal c.
Proof.
  intros Hf%from_lookup_fields. split; [exact (u64_fields_bounded l c Hf)|..]; destruct Hf as [Hv].
  - rewrite lf_write_flush_threshold_bytes0. apply lookup_size_bounds. unfold is_u64, U64_MAX. lia.
  - intros n. rewrite lf_max_fs_size_bytes0. intros (v & _ & Hn)%bind_Some. by eapply parse_size_bounds.
  - rewrite lf_pool_max_connections0. apply lookup_u64_positive; [rule_of Hv|lia].
  - rewrite lf_persist_buffer_chunk_blocks0. apply lookup_u64_positive; [rule_of Hv|lia].
  - rewrite lf_selinux0. apply (lookup_string_normal l _ _ (fun v => validate_selinux_value (txt "selinux") v = Ok tt));
      [by vm_compute|by vm_compute|rule_of Hv].
  - rewrite lf_acl0. apply (lookup_string_normal l _ _ (fun v => validate_bool_value (txt "acl") v = Ok tt));
      [by vm_compute|by vm_compute|rule_of Hv].
  - rewrite lf_log_level0. apply (lookup_string_normal l _ _ (fun v => validate_choice_value (txt "log_level") v
      [txt "off"; txt "error"; txt "warn"; txt "info"; txt "debug"; txt "trace"] = Ok tt)); [by vm_compute|by vm_compute|rule_of Hv].
  - rewrite lf_read_cache_eviction_policy0. apply (lookup_string_normal l _ _ (fun v =>
      validate_choice_value (txt "read_cache_eviction_policy") v [txt "fifo"; txt "lru"] = Ok tt));
      [by vm_compute|by vm_compute|rule_of Hv].
  - rewrite lf_synchronous_commit0. apply (lookup_string_normal l _ _ (fun v => validate_choice_value (txt "synchronous_commit") v
      [txt "on"; txt "off"; txt "local"; txt "remote_write"; txt "remote_apply"; txt "true"; txt "false"] = Ok tt));
      [by vm_compute|by vm_compute|rule_of Hv].
  - repeat (apply Forall_cons_2; [intros v|]); try apply Forall_nil_2.
    all: match goal with |- ?f ?x = Some _ -> _ =>
           match goal with H : f x = _ |- _ => rewrite H end; apply lookup_value_plain end.
Qed.

Lemma round_zero b : 0 < b -> round_half_even 0 b = 0.
Proof. intros Hb. unfold round_half_even. rewrite Z.div_0_l, Z.mod_0_l by lia. by destruct (Z.ltb_spec (2 * 0) b); [|lia]. Qed.

Lemma from_secs_zero neg e : from_secs_f64 (Finite neg 0 e) = Some 0.
Proof.
  unfold from_secs_f64, scale2. rewrite Z.eqb_refl, andb_false_r, Z.mul_0_l.
  destruct (Z.leb_spec 0 e); rewrite round_zero; [done|lia|done|]. assert (0 < 2 ^ (- e)) by (apply Z.pow_pos_nonneg; lia). lia.
Qed.

Lemma duration_text_reads d : duration_survives d -> exists x,
  f64_parse (trim (duration_text d)) = Some x /\ from_secs_f64 x = Some d /\ f64_is_finite x = true /\ f64_lt_zero x = false
  /\ (0 < d -> f64_le_zero x = false) /\ trim (duration_text d) <> [].
Proof.
  unfold duration_survives, duration_of_text. generalize (trim (duration_text d)). intros s (x & Hp & Hs)%bind_Some.
  exists x. destruct x as [| |neg m e]; try done. split_and!; try done.
  - cbn in *. destruct neg, (m =? 0); done.
  - intros Hd. destruct (Z.eqb_spec m 0) as [->|Hm].
    + rewrite from_secs_zero in Hs. injection Hs as <-. lia.
    + cbn in *. apply Z.eqb_neq in Hm. rewrite Hm in *. by destruct neg.
  - intros ->. done.
Qed.

Lemma role_reads r : plain (role_as_str r) /\ role_parse (role_as_str r) = Some r.
Proof. destruct r; by vm_compute. Qed.
Lemma atime_reads r : plain (atime_as_str r) /\ atime_parse (atime_as_str r) = Some r.
Proof. destruct r; by vm_compute. Qed.
Lemma backend_reads r : plain (backend_as_str r) /\ backend_parse (backend_as_str r) = Some r.
Proof. destruct r; by vm_compute. Qed.
Lemma transport_reads r : plain (transport_as_str r) /\ transport_parse (transport_as_str r) = Some r.
Proof. destruct r; by vm_compute. Qed.
Lemma cleanup_reads r : plain (cleanup_as_str r) /\ cleanup_parse (cleanup_as_str r) = Some r.
Proof. destruct r; by vm_compute. Qed.

(** A lookup that answers with the texts of a configuration. *)
Section reads_back.
Context (print_bool : bool -> text) (l : Lookup) (c : RuntimeConfig).
Hypothesis bools : forall b, plain (print_bool b) /\ parse_bool (print_bool b) = Some b
  /\ forall d, parse_bool_or_default (Some (print_bool b)) d = b.
Hypothesis answers : forall k v, (k, v) ∈ settings_entries print_bool c -> l k = v.
Hypothesis normal : config_normal c.
Hypothesis durations : durations_survive c.

Lemma back_text k v : (k, Some v) ∈ settings_entries print_bool c -> plain v -> lookup_value l k = Some v.
Proof using answers. intros Hin Hp. by apply lookup_value_of_plain; [|apply answers]. Qed.

Lemma back_option k o :
  (k, o) ∈ settings_entries print_bool c -> (forall v, o = Some v -> plain v) -> lookup_value l k = o.
Proof using answers.
  intros Hin Hp. destruct o as [v|]; [apply back_text; auto|]. by apply lookup_value_none, answers.
Qed.

Lemma back_duration k d :
  (k, Some (duration_text d)) ∈ settings_entries print_bool c -> duration_survives d ->
  lookup_value l k = Some (trim (duration_text d)).
Proof using answers.
  intros Hin Hs. unfold lookup_value. rewrite (answers _ _ Hin). cbn [mbind option_bind]. unfold nonempty.
  destruct (duration_text_reads _ Hs) as (x & _ & _ & _ & _ & _ & Hne). by rewrite bool_decide_false.
Qed.

(** The rule of a key, wherever it is applied. *)
Definition rule_holds (k : text) (kind : RuntimeValueKind) : Prop :=
  forall tuning env, validate_runtime_value_spec l (Build_RuntimeValueSpec k kind tuning env) = Ok tt.

Lemma rule_holds_for k kind v : lookup_value l k = Some v -> validate_kind k v kind = Ok tt -> rule_holds k kind.
Proof. intros Hl Hk tuning env. unfold validate_runtime_value_spec. cbn. by rewrite Hl. Qed.

Lemma rule_holds_absent k kind : lookup_value l k = None -> rule_holds k kind.
Proof. intros Hl tuning env. unfold validate_runtime_value_spec. cbn. by rewrite Hl. Qed.

Lemma back_bool k b :
  (k, Some (print_bool b)) ∈ settings_entries print_bool c ->
  (forall dflt, lookup_bool l k dflt = b) /\ rule_holds k KBool.
Proof using answers bools.
  intros Hin. destruct (bools b) as (Hp & Hb & Hd). assert (Hl := back_text _ _ Hin Hp). split.
  - intros dflt. unfold lookup_bool. rewrite Hl. apply Hd.
  - apply (rule_holds_for _ _ _ Hl). cbn. unfold validate_bool_value. by rewrite Hb.
Qed.

Lemma back_u64 k n z :
  (k, Some (print_u n)) ∈ settings_entries print_bool c -> is_u64 n -> (z = false -> 0 < n) ->
  (forall dflt, lookup_u64 l k dflt = n) /\ rule_holds k (KU64 z).
Proof using answers.
  intros Hin Hn Hz. assert (Hl := back_text _ _ Hin (print_u_plain n ltac:(unfold is_u64 in Hn; lia))). split.
  - intros dflt. unfold lookup_u64, parse_u64_or. rewrite Hl. cbn [mbind option_bind]. by rewrite (parse_print_u64 n Hn).
  - apply (rule_holds_for _ _ _ Hl). cbn [validate_kind]. unfold validate_u64_value. rewrite (parse_print_u64 n Hn).
    destruct z; cbn; [done|]. specialize (Hz eq_refl). by destruct (Z.eqb_spec n 0); [lia|].
Qed.

Lemma back_duration_ok k d z :
  (k, Some (duration_text d)) ∈ settings_entries print_bool c -> duration_survives d -> (z = false -> 0 < d) ->
  (forall dflt, lookup_duration (E := ConfigError) l k dflt = Ok d) /\ rule_holds k (KDuration z).
Proof using answers.
  intros Hin Hs Hz. destruct (duration_text_reads _ Hs) as (x & Hx & Hd & Hf & Hlt & Hle & _).
  assert (Hl := back_duration _ _ Hin Hs). split.
  - intros dflt. unfold lookup_duration, parse_duration_secs. rewrite Hl. cbn [mbind option_bind]. rewrite Hx, Hf, Hlt.
    unfold duration_or_panic. by rewrite Hd.
  - apply (rule_holds_for _ _ _ Hl). cbn [validate_kind]. unfold validate_duration_value. rewrite Hx, Hf, Hlt.
    destruct z; [done|]. by rewrite Hle by auto.
Qed.

Lemma back_string k v kind :
  (k, Some v) ∈ settings_entries print_bool c -> plain v -> validate_kind k v kind = Ok tt ->
  (forall dflt, lookup_string l k dflt = v) /\ rule_holds k kind.
Proof using answers.
  intros Hin Hp Hk. assert (Hl := back_text _ _ Hin Hp). split; [|by apply (rule_holds_for _ _ _ Hl)].
  intros dflt. unfold lookup_string. by rewrite Hl.
Qed.

Lemma back_size k o :
  (k, print_u <$> o) ∈ settings_entries print_bool c -> (forall n, o = Some n -> is_u64 n) ->
  (lookup_value l k ≫= parse_size_bytes) = o /\ rule_holds k (KSizeBytes true).
Proof using answers.
  intros Hin Hn. assert (Hl : lookup_value l k = print_u <$> o).
  { apply (back_option _ _ Hin). destruct o as [n|]; [|done]. intros v [= <-]. apply print_u_plain.
    specialize (Hn n eq_refl). unfold is_u64 in Hn. lia. }
  destruct o as [n|]; cbn [fmap option_fmap option_map] in Hl; rewrite Hl; cbn [mbind option_bind].
  - rewrite (parse_size_print n) by auto. split; [done|]. apply (rule_holds_for _ _ _ Hl). cbn [validate_kind].
    unfold validate_size_value. by rewrite (parse_size_print n) by auto.
  - split; [done|]. by apply rule_holds_absent.
Qed.

Ltac entry := unfold settings_entries; list_member.

(** The rules hold for what was written. *)
Lemma back_valid : validate_runtime_tuning_lookup l = Ok tt.
Proof using answers bools normal durations.
  destruct normal. destruct durations as (Hdur & Hlease & Hheart & Hpoll). unfold settings_hold, u64_settings in cn_numbers0.
  unfold settings_hold, duration_settings in Hdur. rewrite !Forall_cons in cn_numbers0. rewrite !Forall_cons in cn_optional0.
  rewrite !Forall_cons in Hdur.
  cbn [fst snd] in *. destruct_and!. apply validate_specs_Ok. unfold RUNTIME_VALUE_SPECS.
  unfold tuning_only, tuning_and_runtime_env.
  repeat (apply Forall_cons_2; [intros _;
    match goal with |- validate_runtime_value_spec _ (Build_RuntimeValueSpec ?k ?kind _ _) = _ =>
      cut (rule_holds k kind); [intros Hrule; apply Hrule|] end|]); try apply Forall_nil_2.
  all: match goal with
       | |- rule_holds _ KBool =>
           first [eapply proj2, back_bool; solve [entry] | eapply proj2, back_string; [solve [entry]|tauto|tauto]]
       | |- rule_holds _ (KU64 _) => eapply proj2, back_u64; [solve [entry]|assumption|by intros]
       | |- rule_holds _ (KDuration _) => eapply proj2, back_duration_ok; [solve [entry]|assumption|by intros]
       | |- rule_holds _ (KSizeBytes _) =>
           first [eapply proj2, (back_size _ (Some _)); [solve [entry]|by intros ? [= <-]]
                 | eapply proj2, back_size; [solve [entry]|assumption]]
       | |- _ => eapply proj2, back_string; [solve [entry]|..];
                 first [tauto | match goal with |- context [_ (?g c)] => destruct (g c); by vm_compute end]
       end.
Qed.

(** Every setting is read back as it was written. *)
Lemma reads_back : lookup_fields l c.
Proof using answers bools normal durations.
  destruct normal. destruct durations as (Hdur & Hlease & Hheart & Hpoll).
  unfold settings_hold, u64_settings in cn_numbers0.
  unfold settings_hold, duration_settings in Hdur. rewrite !Forall_cons in cn_numbers0. rewrite !Forall_cons in cn_optional0.
  rewrite !Forall_cons in Hdur. cbn [fst snd] in *. destruct_and!. split; [exact back_valid|..].
  all: match goal with
       | |- ?x = lookup_bool _ ?k ?d => symmetry; refine (proj1 (back_bool k x _) d); solve [entry]
       | |- ?x = lookup_u64 _ ?k ?d =>
           symmetry; refine (proj1 (back_u64 k x true _ _ _) d); [solve [entry]|assumption|discriminate]
       | |- lookup_duration _ ?k ?d = Ok ?x =>
           refine (proj1 (back_duration_ok k x true _ _ _) d); [solve [entry]|assumption|discriminate]
       | |- ?x = lookup_string _ _ _ =>
           symmetry; unfold lookup_string; erewrite back_text; [reflexivity|solve [entry]|tauto]
       | |- _ = lookup_value _ _ => symmetry; apply back_option; [solve [entry]|assumption]
       | |- _ = (lookup_value _ _ ≫= _) => symmetry; eapply proj1, back_size; [solve [entry]|assumption]
       | |- _ => idtac
       end.
  all: unfold lookup_size_u64, lookup_string.
  - erewrite back_text by first [solve [entry]|apply role_reads]. cbn [from_option id]. by rewrite (proj2 (role_reads _)).
  - erewrite back_text by first [solve [entry]|apply atime_reads]. cbn [from_option id]. by rewrite (proj2 (atime_reads _)).
  - erewrite back_text by first [solve [entry]|apply transport_reads]. cbn [from_option id]. apply transport_reads.
  - erewrite back_text by first [solve [entry]|apply cleanup_reads]. cbn [from_option id]. apply cleanup_reads.
  - erewrite (proj1 (back_size _ (Some _) _ _)). reflexivity.
    Unshelve. 1: solve [entry]. by intros ? [= <-].
  - erewrite back_text by first [solve [entry]|apply backend_reads]. cbn [from_option id]. by rewrite (proj2 (backend_reads _)).
Qed.

End reads_back.
