(* ===== verification/ConfigReload.v ===== *)
(** * Passing the configuration on, and reloading it

    What the bootstrap program writes into a map or into the environment is read back as
    it was, a reload changes only what its overrides name, and the error of a refused
    configuration is that of the first rule it breaks (rust_runtime/src/lib.rs,
    rust_runtime/src/validation.rs). *)

From stdpp Require Import prelude list numbers strings gmap.
From Stdlib Require Import ZArith Lia Ascii.
From S2P Require Import Prelude Text Seconds RuntimeValues RuntimeConfig ConfigSafety.

#[local] Open Scope Z_scope.

(** ** The keys and the names of the variables *)

Definition setting_keys : RuntimeConfig -> list text :=
  Eval cbv [settings_entries fmap list_fmap fst] in fun c => (settings_entries map_bool c).*1.
Definition variable_names (c : RuntimeConfig) : list text :=
  (fun key => default [] (runtime_env_var_name key)) <$> setting_keys c.

Lemma settings_keys print_bool c : (settings_entries print_bool c).*1 = setting_keys c.
Proof. reflexivity. Qed.

Lemma settings_variables print_bool c : (env_entry <$> settings_entries print_bool c).*1 = variable_names c.
Proof.
  unfold variable_names. rewrite <- (settings_keys print_bool), <- !list_fmap_compose. reflexivity.
Qed.

Lemma setting_keys_distinct c : NoDup (setting_keys c).
Proof. apply (bool_decide_unpack _). vm_compute. exact I. Qed.

Lemma variable_names_distinct c : NoDup (variable_names c).
Proof. apply (bool_decide_unpack _). vm_compute. exact I. Qed.

Lemma setting_keys_named c : Forall (fun key => is_Some (runtime_env_var_name key)) (setting_keys c).
Proof. apply (bool_decide_unpack _). vm_compute. exact I. Qed.

Lemma written_map_answers c k v :
  (k, v) ∈ settings_entries map_bool c -> to_runtime_map c !! k = v.
Proof. apply set_entries_lookup. rewrite settings_keys. apply setting_keys_distinct. Qed.

Lemma written_env_answers c env k v :
  (k, v) ∈ settings_entries env_bool c -> runtime_env_var_value (apply_env c env) k = v.
Proof.
  intros Hin. assert (Hk := setting_keys_named c). rewrite <- (settings_keys env_bool), Forall_fmap, Forall_forall in Hk.
  destruct (Hk _ Hin) as [name Hname]. cbn in Hname. unfold runtime_env_var_value. rewrite Hname. cbn [mbind option_bind].
  apply set_entries_lookup; [rewrite settings_variables; apply variable_names_distinct|].
  replace (name, v) with (env_entry (k, v)) by (unfold env_entry; cbn [fst snd]; by rewrite Hname).
  by apply list_elem_of_fmap_2.
Qed.

Lemma map_bool_reads b : plain (map_bool b) /\ parse_bool (map_bool b) = Some b
  /\ forall d, parse_bool_or_default (Some (map_bool b)) d = b.
Proof. split_and!; [..|intros d]; destruct b; by vm_compute. Qed.
Lemma env_bool_reads b : plain (env_bool b) /\ parse_bool (env_bool b) = Some b
  /\ forall d, parse_bool_or_default (Some (env_bool b)) d = b.
Proof. split_and!; [..|intros d]; destruct b; by vm_compute. Qed.

Lemma written_map_fields l c :
  from_lookup l = Ok c -> durations_survive c -> lookup_fields (fun key => to_runtime_map c !! key) c.
Proof.
  intros Hc Hd. exact (reads_back map_bool _ c map_bool_reads (written_map_answers c) (from_lookup_normal l c Hc) Hd).
Qed.


(** The sample is written with the durations that it has. *)
Lemma sample_survives c : from_lookup sample_settings = Ok c -> durations_survive c.
Proof.
  intros Hc. assert (H : from_lookup sample_settings ≫= (fun c => if decide (durations_survive c) then Ok tt else Panic) = Ok tt)
    by (vm_compute; reflexivity).
  rewrite Hc in H. clear Hc. cbn [mbind outcome_bind] in H. by destruct (decide (durations_survive c)).
Qed.


(** ** What a refused configuration is told *)

(** The first rule, in their order, that the settings break, and its error. *)
Definition first_broken (l : Lookup) (target : RuntimeValidationTarget) (specs : list RuntimeValueSpec) (e : ConfigError) : Prop :=
  exists before spec after, specs = before ++ spec :: after
    /\ applies_to spec target = true /\ validate_runtime_value_spec l spec = Err e
    /\ Forall (fun spec => applies_to spec target = true -> validate_runtime_value_spec l spec = Ok tt) before.

Lemma validate_specs_first l target specs e :
  validate_specs l target specs = Err e <-> first_broken l target specs e.
Proof.
  split; [apply validate_specs_Err|]. intros (before & spec & after & -> & Ha & He & Hb).
  induction Hb as [|spec' before Hspec _ IH]; cbn [app validate_specs].
  - rewrite Ha, He. reflexivity.
  - destruct (applies_to spec' target); [rewrite Hspec by reflexivity|]; exact IH.
Qed.

Lemma tuning_first l e :
  validate_runtime_tuning_lookup l = Err e <-> first_broken l Tuning RUNTIME_VALUE_SPECS e.
Proof. exact (validate_specs_first l Tuning RUNTIME_VALUE_SPECS e). Qed.

Lemma validate_kind_no_panic key v kind : validate_kind key v kind <> Panic.
Proof.
  destruct kind; cbn [validate_kind];
    unfold validate_bool_value, validate_selinux_value, validate_choice_value, validate_u64_value,
      validate_duration_value, validate_size_value;
    repeat case_match; discriminate.
Qed.

Lemma validate_specs_no_panic l target specs : validate_specs l target specs <> Panic.
Proof.
  induction specs as [|spec specs IH]; cbn [validate_specs]; [discriminate|]. destruct (applies_to spec target); [|exact IH].
  unfold validate_runtime_value_spec. destruct (lookup_value l (vs_key spec)) as [v|]; [|exact IH].
  pose proof (validate_kind_no_panic (vs_key spec) v (vs_kind spec)).
  destruct (validate_kind _ _ _) as [[]|e|]; cbn [mbind outcome_bind]; [exact IH|discriminate|contradiction].
Qed.

Lemma tuning_no_panic l : validate_runtime_tuning_lookup l <> Panic.
Proof. exact (validate_specs_no_panic l Tuning RUNTIME_VALUE_SPECS). Qed.

(** A duration of the configuration is read, or its value is beyond what a [Duration] holds. *)
Lemma lookup_duration_cases l key secs :
  is_Some (from_secs_f64 secs) ->
  (exists d, lookup_duration (E := ConfigError) l key secs = Ok d)
  \/ (lookup_duration (E := ConfigError) l key secs = Panic
      /\ exists v, lookup_value l key = Some v /\ duration_of_text v = None).
Proof.
  intros [d Hd]. unfold lookup_duration, parse_duration_secs.
  assert (Hdef : duration_or_panic (E := ConfigError) secs = Ok d) by (unfold duration_or_panic; by rewrite Hd).
  destruct (lookup_value l key) as [v|]; cbn [mbind option_bind]; [|by eauto].
  destruct (f64_parse v) as [x|] eqn:Hx; [|by eauto]. destruct (_ && _); [|by eauto].
  unfold duration_or_panic. destruct (from_secs_f64 x) as [d'|] eqn:Hd'; [by eauto|]. right. split; [done|].
  exists v. split; [done|]. unfold duration_of_text. by rewrite Hx.
Qed.

(** A choice that the rules accept has a meaning. *)
Lemma required_choice {A} (alternatives : list (text * A)) l key dflt :
  (forall v, lookup_value l key = Some v -> validate_choice_value key v alternatives.*1 = Ok tt) ->
  is_Some (choose alternatives (lowered dflt)) ->
  exists a, required key (choose alternatives (lowered (lookup_string l key dflt))) = Ok a.
Proof.
  intros Hr [a Ha]. unfold lookup_string. destruct (lookup_value l key) as [v|] eqn:Hl; cbn [from_option id].
  - specialize (Hr v eq_refl). unfold validate_choice_value in Hr. case_bool_decide as Hin; [|discriminate].
    destruct (choose_total _ _ Hin) as [b ->]. by exists b.
  - rewrite Ha. by exists a.
Qed.

(** A validated configuration is built, unless one of its durations is out of range. *)
Lemma from_lookup_validated l :
  validate_runtime_tuning_lookup l = Ok tt ->
  (exists c, from_lookup l = Ok c)
  \/ (from_lookup l = Panic /\ exists key v, key ∈ duration_settings.*1 /\ lookup_value l key = Some v /\ duration_of_text v = None).
Proof.
  intros Hv. unfold from_lookup.
  destruct (required_choice [(txt "copy_binary_staging", CopyBinaryStaging); (txt "binary_bytea", BinaryBytea);
    (txt "legacy_hex", LegacyHex)] l (txt "persist_block_transport") (txt "copy_binary_staging")) as [tr Htr];
    [rule_of Hv|vm_compute; by eauto|].
  destruct (required_choice [(txt "immediate", Immediate); (txt "deferred", Deferred)] l (txt "data_object_swap_cleanup")
    (txt "immediate")) as [cl Hcl]; [rule_of Hv|vm_compute; by eauto|].
  rewrite Hv. clear Hv. cbn [mbind outcome_bind]. unfold transport_parse, cleanup_parse. rewrite Htr. cbn [mbind outcome_bind].
  rewrite Hcl. cbn [mbind outcome_bind].
  repeat match goal with
    |- context [lookup_duration l ?key ?secs] =>
      let d := fresh "d" in let Hd := fresh "Hd" in let v := fresh "v" in let Hn := fresh "Hn" in
      destruct (lookup_duration_cases l key secs) as [[d Hd]|[Hd (v & Hl & Hn)]];
        [vm_compute; by eauto | rewrite Hd; clear Hd; cbn [mbind outcome_bind]
        | rewrite Hd; right; split; [reflexivity|]; exists key, v; split; [|split; [exact Hl|exact Hn]];
          unfold duration_settings; cbn [fmap list_fmap fst];
          repeat first [apply elem_of_cons; left; reflexivity | apply elem_of_cons; right] ] end.
  left. eexists. reflexivity.
Qed.

Lemma from_lookup_invalid l e : validate_runtime_tuning_lookup l = Err e -> from_lookup l = Err e.
Proof. intros Hv. unfold from_lookup. rewrite Hv. reflexivity. Qed.

(** C34: A refused configuration is told why: loading fails with an error exactly when a
    rule is broken, and the error is that of the first broken rule; otherwise it succeeds
    or, when a duration exceeds what a [Duration] can hold, panics. A reload that names a
    setting outside the reloadable ones is refused as a whole. *)
Theorem refused_configuration_reported l :
  (forall e, from_lookup l = Err e <-> first_broken l Tuning RUNTIME_VALUE_SPECS e)
  /\ (from_lookup l = Panic ->
        exists key v, key ∈ duration_settings.*1 /\ lookup_value l key = Some v /\ duration_of_text v = None)
  /\ (forall c overrides key value, overrides !! key = Some value -> key ∉ RELOADABLE_RUNTIME_KEYS ->
        with_reloadable_overrides c overrides = Err NotReloadable).
Proof.
  split_and!.
  - intros e. rewrite <- tuning_first.
    destruct (validate_runtime_tuning_lookup l) as [[]|e'|] eqn:Hv.
    + destruct (from_lookup_validated l Hv) as [[c ->]|[-> _]]; clear Hv; split; discriminate.
    + rewrite (from_lookup_invalid l e' Hv). clear Hv. split; intros [= ->]; reflexivity.
    + destruct (tuning_no_panic l Hv).
  - intros Hp. destruct (validate_runtime_tuning_lookup l) as [[]|e|] eqn:Hv.
    + destruct (from_lookup_validated l Hv) as [[c Hc]|[_ H]]; [rewrite Hc in Hp; discriminate|exact H].
    + rewrite (from_lookup_invalid l e Hv) in Hp. discriminate.
    + destruct (tuning_no_panic l Hv).
  - intros c overrides key value Hk Hn. unfold with_reloadable_overrides. rewrite bool_decide_false; [reflexivity|].
    intros H. by apply Hn, (H key value).
Qed.

(** ** Reloading *)

(** The settings that no override of a reload can name. *)
Definition fixed_settings (c : RuntimeConfig) :=
  (mount_settings c true, security_settings c, lock_settings c true, (cf_lock_backend c, cf_role c, cf_force_read_only c),
   (cf_use_rust_fuse c, cf_pool_max_connections c, cf_read_cache_eviction_policy c),
   (cf_persist_block_transport c, cf_data_object_swap_cleanup c, cf_synchronous_commit c),
   (cf_write_flush_threshold_bytes c, cf_max_fs_size_bytes c, cf_pg_visible_path c)).

(** Equal records by equal fields of the configurations. *)
Ltac fields_apart :=
  lazymatch goal with
  | |- ?f ?x = ?f ?y => tryif is_var x then idtac else (progress f_equal; fields_apart)
  | |- _ => progress f_equal; fields_apart
  end.

Lemma same_fixed_settings l l' c c' :
  lookup_fields l c -> lookup_fields l' c' ->
  (forall key, key ∉ RELOADABLE_RUNTIME_KEYS -> lookup_value l' key = lookup_value l key) ->
  fixed_settings c' = fixed_settings c.
Proof.
  intros [] [] Hsame.
  unfold fixed_settings, mount_settings, security_settings, lock_settings, selinux_enabled, acl_enabled, lock_backend_for.
  fields_apart.
  all: match goal with
       | H : ?f ?x = _, H' : ?f ?y = _ |- ?f ?x = ?f ?y => rewrite H, H'
       | H : _ = ?r (?f ?x), H' : _ = ?r (?f ?y) |- ?f ?x = ?f ?y =>
           cut (r (f x) = r (f y)); [by intros [= E]|rewrite <- H, <- H']
       end.
  all: clear - Hsame; unfold lookup_string, lookup_bool, lookup_u64, lookup_size_u64, lookup_duration.
  all: rewrite Hsame; [reflexivity|apply (bool_decide_unpack _); vm_compute; exact I].
Qed.

Lemma reload_lookup c overrides c' :
  with_reloadable_overrides c overrides = Ok c' ->
  lookup_fields (fun key => (overrides ∪ to_runtime_map c) !! key) c'
  /\ forall key, is_Some (overrides !! key) -> key ∈ RELOADABLE_RUNTIME_KEYS.
Proof.
  unfold with_reloadable_overrides. case_bool_decide as Hall; cbn [negb]; [|discriminate].
  unfold from_runtime_map. intros H. split; [apply from_lookup_fields; exact H|]. intros key [v Hv]. exact (Hall key v Hv).
Qed.

Lemma kept_value (overrides stored : RuntimeMap) key :
  overrides !! key = None ->
  lookup_value (fun key => (overrides ∪ stored) !! key) key = lookup_value (fun key => stored !! key) key.
Proof. intros Hn. unfold lookup_value. by rewrite lookup_union_r. Qed.

Lemma overriding_value (overrides stored : RuntimeMap) key v :
  lookup_value (fun key => overrides !! key) key = Some v ->
  lookup_value (fun key => (overrides ∪ stored) !! key) key = Some v.
Proof.
  unfold lookup_value. destruct (overrides !! key) as [w|] eqn:Hw; [|discriminate].
  by erewrite lookup_union_Some_l.
Qed.

(** A setting that the overrides do not name keeps its value; one that they name has the
    value they give. *)
Definition reload_sets (overrides : RuntimeMap) {A} (c c' : RuntimeConfig) (parse : text -> option A)
    (settings : list (text * (RuntimeConfig -> A))) : Prop :=
  settings_hold settings (fun key field =>
    (overrides !! key = None -> field c' = field c)
    /\ forall v, lookup_value (fun key => overrides !! key) key = Some v -> parse v = Some (field c')).

Lemma reload_sets_intro {A : Type} (overrides stored : RuntimeMap) (c c' : RuntimeConfig) (parse : text -> option A) settings :
  settings_hold settings (fun key field =>
    lookup_value (fun key => (overrides ∪ stored) !! key) key = lookup_value (fun key => stored !! key) key ->
    field c' = field c) ->
  settings_hold settings (fun key field =>
    forall v, lookup_value (fun key => (overrides ∪ stored) !! key) key = Some v -> parse v = Some (field c')) ->
  reload_sets overrides c c' parse settings.
Proof.
  unfold reload_sets, settings_hold. rewrite !Forall_forall. intros Hkept Hset setting Hin. split.
  - intros Ho. by apply (Hkept setting Hin), kept_value.
  - intros v Hv. apply (Hset setting Hin). by apply overriding_value.
Qed.

(** Settings with the same texts are the same. *)
Definition same_texts_same_fields {A : Type} (l l' : Lookup) (c c' : RuntimeConfig) (settings : list (text * (RuntimeConfig -> A))) : Prop :=
  settings_hold settings (fun key field => lookup_value l' key = lookup_value l key -> field c' = field c).

Lemma same_u64 l l' c c' : lookup_fields l c -> lookup_fields l' c' -> same_texts_same_fields l l' c c' u64_settings.
Proof.
  intros [] []. repeat (apply Forall_cons_2; [cbn [fst snd]|]); try apply Forall_nil_2.
  all: match goal with H : ?f ?x = _, H' : ?f ?y = _ |- _ -> ?f ?x = ?f ?y =>
         intros Ho; rewrite H, H'; unfold lookup_u64; rewrite Ho; reflexivity end.
Qed.

Lemma same_bool l l' c c' : lookup_fields l c -> lookup_fields l' c' -> same_texts_same_fields l l' c c' bool_settings.
Proof.
  intros [] []. repeat (apply Forall_cons_2; [cbn [fst snd]|]); try apply Forall_nil_2.
  all: match goal with H : ?f ?x = _, H' : ?f ?y = _ |- _ -> ?f ?x = ?f ?y =>
         intros Ho; rewrite H, H'; unfold lookup_bool; rewrite Ho; reflexivity end.
Qed.

Lemma same_duration l l' c c' :
  lookup_fields l c -> lookup_fields l' c' -> same_texts_same_fields l l' c c' duration_settings.
Proof.
  intros [] []. repeat (apply Forall_cons_2; [cbn [fst snd]|]); try apply Forall_nil_2.
  all: match goal with H : _ = Ok (?f ?x), H' : _ = Ok (?f ?y) |- _ -> ?f ?x = ?f ?y =>
         intros Ho; apply (Ok_inj (E := ConfigError)); rewrite <- H, <- H'; unfold lookup_duration; rewrite Ho; reflexivity end.
Qed.


